(* ===== verification/_CoqProject ===== *)
-Q . S2P
Prelude.v
Visa.v
CText.v
Operation.v
HandleTable.v
LockManager.v
ResourceParser.v
FindExpression.v
FindMatch.v
FindGrammar.v
FindCompile.v
Bytes.v
HislipProtocol.v
Vxi11Protocol.v
UsbtmcProtocol.v
BackendSession.v
RequestChannel.v
ChannelFraming.v
AsyncStream.v
AsyncStreamSafety.v
TcpSession.v
Stream.v
Io.v
Timed.v
Network.v
HislipSession.v
Vxi11Session.v
MockSession.v
GpibSession.v
Prologix.v
PrologixPool.v
PrologixBus.v
PrologixScript.v
UsbTransport.v
UsbtmcSession.v
ResourceManager.v
SerialDiscovery.v
SerialSession.v
Providers.v
InterfaceArbiter.v
UsbRawSession.v
LibusbDescriptors.v
LibusbTransport.v
LibusbSafety.v
LibusbProvider.v
LibusbProviderSafety.v
SessionObject.v
World.v
VisaApi.v
