(* ===== verification/Prelude.v ===== *)
(** * webreal_visa: a verification library

    webreal_visa is a user-space VISA library in C++: the C entry points of
    [include/visa.h], a core of sessions, locks and handles, and backends that
    talk to instruments over TCP (VXI-11, HiSLIP), USB, GPIB and a mock.  This
    library translates the C++ of [src/] into Rocq definitions that compute, and
    states and proves what makes each part correct.

    ** The program, and where it is modelled

    A call of the API ([api/visa_api.cpp]) looks its handle up in a
    generational handle table, finds an object (a resource manager, a session or
    a find list) and calls it.  A session runs every call under an operation of
    its own, which ends exactly once: with its result, by its deadline or by
    [viTerminate]; it checks the lock manager and calls its backend.  A backend
    turns the call into transfers of its transport.

    - [Visa]: constants and structures of the two public headers.  [CText]: the
      character, number and stream functions of the standard library the code
      uses.  [Bytes]: big- and little-endian numbers as bytes.
    - [Operation] ([runtime/operation.{h,cpp}]): the operation as a value, and its
      atomic steps under every interleaving (module [Concurrent]).
    - [HandleTable] ([core/handle_table.{h,cpp}]): slots with 16-bit generations.
    - [LockManager] ([core/lock_manager.{h,cpp}]): exclusive and shared locks per
      resource; a blocked [acquire] is a task that is run by the schedule of its
      wake-ups (module [Interleaving]).
    - [ResourceParser] ([resource/resource_parser.{h,cpp}]): names and canonical
      names.  [FindExpression] ([resource/find_expression.{h,cpp}]): both parsers
      and the matcher, with their proofs in [FindMatch] (the matcher computes a
      language), [FindGrammar] (the parser is the grammar) and [FindCompile].
    - [BackendSession] ([core/backend_session.h]): the abstract class, as a class
      of operations [BackendSession] with the laws [BackendLaws] that sessions
      rely on.
    - [SessionObject] and [ResourceManager] ([core/objects.{h,cpp}]): the three
      classes of objects.  [World] and [VisaApi] ([api/visa_api.cpp]): the
      process-wide state, closing, and one definition per exported function.
    - [MockSession] ([backends/mock]), [GpibSession] ([backends/gpib]),
      [UsbTransport], [UsbRawSession], [UsbtmcProtocol] and [UsbtmcSession]
      ([backends/usb]), [HislipProtocol] and [HislipSession] ([backends/hislip]),
      [Vxi11Protocol] and [Vxi11Session] ([backends/vxi11]): wire formats and
      sessions; every session is an instance of [BackendSession] and proves
      [BackendLaws].
    - [Prologix] ([backends/gpib/prologix_provider.cpp]): the controller of a
      Prologix adapter, its gate and its transactions, an instance of
      [GpibTransport]; [PrologixBus] specifies the adapter and the bus behind it,
      [PrologixPool] is the table of controllers that sessions share, and
      [PrologixScript] a scripted line for the witnesses.
    - [Providers] ([backends/usb/usb_provider.cpp], [backends/gpib/gpib_provider.cpp]):
      the registries of providers, discovery and opening.  [InterfaceArbiter]
      ([UsbInterfaceArbiter]): leases of interfaces under interleaved threads.
    - The provider of real USB devices ([backends/usb/libusb_provider.{h,cpp}]):
      [LibusbDescriptors] reads descriptors and makes names; [LibusbTransport] is
      the transport, its gates and its transfers, every critical section a step of
      a thread, with the proofs in [LibusbSafety]; [LibusbProvider] has the
      handles, connections, discovery, opening and hotplug events, with the proofs
      in [LibusbProviderSafety].
    - [AsyncStream] ([backends/asio/async_stream.h]): the queues of reads and writes
      of a byte stream, with their proofs in [AsyncStreamSafety]; [TcpSession]
      ([backends/tcp]) and [SerialSession] ([backends/serial]) are the sessions on
      it, [SerialDiscovery] ([platform]) numbers the serial ports.
    - [RequestChannel] and [ChannelFraming] ([backends/asio/request_channel.{h,cpp}]):
      the strand of a TCP connection with its queue of requests; every handler is
      a step, and the steps come in any order.

    ** How state and control are modelled

    A C++ class is a record with the members' names; a member function is a
    definition from the state before to the state after and the result, errors
    and early returns included.  Straight-line member functions of the backends
    are written in the monad of [Io]: a computation goes on with a value, returns
    early, or does not return at all; [holds] is its Hoare logic and [steady] says
    that a relation is respected by every step.  [Stream] is the vocabulary of
    what reads deliver.  Transports are classes of calls ([GpibTransport],
    [UsbTransport], [Network], [PrologixIo]) with laws as further classes
    ([UsbTransportLaws], [NetworkLaws], [GpibTransportLaws]); sessions are proved against the laws, and a scripted transport
    that satisfies them serves the witnesses.  [Timed] proves that code returns:
    [remaining t d] bounds the transfers that can succeed before the deadline [d].
    Integers are [Z] with their wrap-around written out ([u8], [u16], [u32]); a
    string is the list of its characters.

    ** What the theorems show

    - Table, locks, operations: the handle table refines a map from handles to
      objects and never resolves a stale handle; locks are mutually exclusive and
      counted exactly, a release wakes whoever can go on, and an acquisition ends
      for the reason its status gives; an operation ends once and its cancel
      handler runs at most once, and exactly once when it ends by cancellation.
    - Names and expressions: canonical names parse back to the same resource, the
      numbers of a name are within bounds, and a find expression matches exactly
      the language of its grammar.
    - Sessions: what [viRead] and the other calls do, lock and unlock keep local
      and remote lock in step, closing cancels everything and closes once.
    - API: the invariant [world_ok] is kept by every call; opening registers a
      session or leaves no trace, closing an object closes what hangs on it.
    - Wire formats: decoders invert encoders and accept only what they encode, and
      never read beyond what they are given.
    - Backend reads: a read hands out the next bytes of the stream, its status says
      why it ended, and what is not handed out is kept, with the exceptions that
      the theorems name.  Backend writes: what was sent is the buffer, in parts.
    - Recovery: cancelled transfers end in a session that is in step with its
      device, or in one that refuses to go on.
    - Channels: in any interleaving no handler uses an operation that may be
      gone, no result is set twice, and an exchange delivers the framed response.
    - Byte streams: the same for the queues of reads and writes; in addition no byte
      is lost, repeated or reordered by cancellations and timeouts, and no request
      is forgotten.  Connecting a socket ends once; the attributes of a serial
      session are the settings of its port; serial ports get distinct numbers.
    - Prologix adapters: what a session asks for reaches the device it addresses,
      whoever else shares the controller; a read keeps the contract of reads.
    - Providers and leases: a registration removes only what it registered; a
      provider is asked until one opens; no two sessions hold one interface.
    - libusb: no freed transfer is ever used and none is freed in flight, a
      cancellation reaches every transfer it is meant for, calls return what libusb
      has moved, and no call is stuck; handles are open and interfaces claimed
      exactly for the connections that live, an open gives the device that was
      asked for, and a discovered name stands for the interface it was made from.
    - Termination: every call of the USBTMC, HiSLIP and VXI-11 sessions and of the
      Prologix controller returns if their transfers do and time passes.

    Lemmas that end in [_witness] apply a theorem to a concrete state.  Lemmas in
    sections "What goes wrong" compute behaviour the code probably does not intend.

    ** Fuel and turns

    Loops that are not structural take fuel, and a theorem says it is enough: the
    parsers of [FindExpression] ([parse_fuel], linear in the input, since every
    recursion consumes a character or descends a grammar level), the closure of a
    repetition (one round per text position), [print] (one digit per bit),
    [pad_fuel] (a multiple of four is three bytes away), [close_depth] (a manager's
    children have no children), the reads of GPIB and USBTMC ([count + 2]: every
    turn that goes on collects a byte or the end of the message), the writes
    ([length + 1]: every turn sends a byte), the queues of request channels and
    streams ([length + 1]), the search for a free number of a serial port (the
    numbers that are taken).  Loops that end by time, such as the polling of a device, the
    wait for a frame or for the gate of a controller, have a number of [turns] as a section variable; the theorems
    on returning assume that the turns are at least the transfers that fit before
    the deadline.

    ** Not modelled

    - Exhausted memory: every allocation succeeds.  Memory orders: atomics are
      sequentially consistent.
    - The operating system and third-party code: sockets and the resolver (the
      steps of [RequestChannel], [AsyncStream] and [TcpSession] are what their
      completions do), the serial port ([SerialPort], a class with laws), the
      listing of [/dev], libusb ([Libusb], a class without laws: what holds, holds
      whatever it answers, but for the widths of descriptors; for the transport,
      answers within its documentation),
      the clock (an argument or a call of the transport).
      Of code for several systems the Linux branch is modelled.
    - [runtime/io_runtime]: the threads that run the event loop; they have no state
      of the program.  Of [backends/usb/libusb_provider.cpp] the registration of
      the hotplug callback, the destructor of the provider and the loop of the
      event thread.  The class [AsioPrologixIo] of
      [backends/gpib/prologix_provider.cpp]: where the modelled code calls it, it is
      a parameter ([PrologixIo]).
    - The concurrency of the backends' own mutexes: a session runs one call at a
      time under [io_mutex_], and what happens meanwhile to the operation is part
      of the transport's calls. *)

From Stdlib Require Export ZArith Lia Ascii String Bool.
From stdpp Require Export base tactics numbers list gmap strings.

#[global] Open Scope Z_scope.

(** ** Strings of the modelled code

    A [std::string] / [std::string_view] is the list of its characters. *)

Abbreviation str := (list ascii).

Declare Scope wrvisa_scope.
Delimit Scope wrvisa_scope with wrvisa.
#[global] Open Scope wrvisa_scope.

Notation "'lit' x" := (list_ascii_of_string x%string)
  (at level 0, x at level 0) : wrvisa_scope.

(** ** Fixed-width unsigned integers *)

Definition u8 (z : Z) : Z := z mod 2 ^ 8.
Definition u16 (z : Z) : Z := z mod 2 ^ 16.
Definition u32 (z : Z) : Z := z mod 2 ^ 32.
Definition u64 (z : Z) : Z := z mod 2 ^ 64.

(** Conversion of a 32-bit pattern to [int32_t]. *)
Definition i32 (z : Z) : Z :=
  let m := z mod 2 ^ 32 in if m <? 2 ^ 31 then m else m - 2 ^ 32.

(** ** C++ exceptions as values *)

Inductive exn :=
| bad_alloc
| invalid_argument
| other_exception.

Inductive result (A : Type) :=
| Ok (a : A)
| Throw (e : exn).
Arguments Ok {A} a.
Arguments Throw {A} e.

#[global] Instance result_ret : MRet result := fun A a => Ok a.
#[global] Instance result_bind : MBind result :=
  fun A B f m => match m with Ok a => f a | Throw e => Throw e end.

(** ** Bits *)

Create HintDb wrbits.

Lemma testbit_small z n i :
  0 <= z < 2 ^ n -> n <= i -> Z.testbit z i = false.
Proof.
  intros Hz Hi. destruct (decide (n < 0)) as [Hn|Hn].
  - rewrite Z.pow_neg_r in Hz by lia. lia.
  - rewrite <- (Z.mod_small z (2 ^ n)) by lia. apply Z.mod_pow2_bits_high. lia.
Qed.

Lemma land_shiftl_disjoint a b n :
  0 <= n -> 0 <= b < 2 ^ n -> Z.land (Z.shiftl a n) b = 0.
Proof.
  intros Hn Hb. apply Z.bits_inj'. intros i Hi.
  rewrite Z.land_spec, Z.bits_0, Z.shiftl_spec by lia.
  destruct (decide (i < n)).
  - by rewrite Z.testbit_neg_r by lia.
  - rewrite (testbit_small b n) by lia. apply andb_false_r.
Qed.

(** [a << n | b] is [a * 2^n + b] when [b] has at most [n] bits. *)
Lemma lor_shiftl_add a b n :
  0 <= n -> 0 <= b < 2 ^ n -> Z.lor (Z.shiftl a n) b = a * 2 ^ n + b.
Proof.
  intros Hn Hb. rewrite <- Z.shiftl_mul_pow2 by lia.
  pose proof (land_shiftl_disjoint a b n Hn Hb) as Hd.
  rewrite Z.add_nocarry_lxor by done. symmetry. by apply Z.lxor_lor.
Qed.

(** [(z >> n) & (2^w - 1)] as arithmetic. *)
Lemma field_extract z n w :
  0 <= n -> 0 <= w -> Z.land (Z.shiftr z n) (Z.ones w) = (z / 2 ^ n) mod 2 ^ w.
Proof. intros. by rewrite Z.land_ones, Z.shiftr_div_pow2 by lia. Qed.

(** ** Lists *)

(** Replacing one element changes a weighted count by the difference of the
    two weights. *)
Lemma sum_list_with_insert {A} (f : A -> nat) (l : list A) i x y :
  l !! i = Some x ->
  (sum_list_with f (<[i := y]> l) + f x = sum_list_with f l + f y)%nat.
Proof.
  revert i. induction l as [|z l IH]; intros [|i] Hl; simplify_eq/=; [lia|].
  specialize (IH i Hl). lia.
Qed.

Lemma sum_list_with_pos {A} (f : A -> nat) (l : list A) i x :
  l !! i = Some x -> (f x <= sum_list_with f l)%nat.
Proof.
  revert i. induction l as [|z l IH]; intros [|i] Hl; simplify_eq/=; [lia|].
  specialize (IH i Hl). lia.
Qed.
