(* ===== verification/Visa.v ===== *)
(** * Public constants and structures: [include/visa.h], [include/webreal_visa_ext.h]

    Status codes are the signed 32-bit values the header's casts produce
    ([(ViStatus)UINT32_C(0xBFFF....)]), so an error is exactly a negative
    status, which is what the code's [status < VI_SUCCESS] tests. *)

From S2P Require Import Prelude.

(** ** Limits and booleans *)

Definition VI_SPEC_VERSION : Z := 0x00700200.
Definition VI_FIND_BUFLEN : Z := 256.
Definition VI_NULL : Z := 0.
Definition VI_TRUE : Z := 1.
Definition VI_FALSE : Z := 0.

(** ** Interface types *)

Definition VI_INTF_GPIB : Z := 1.
Definition VI_INTF_VXI : Z := 2.
Definition VI_INTF_GPIB_VXI : Z := 3.
Definition VI_INTF_ASRL : Z := 4.
Definition VI_INTF_PXI : Z := 5.
Definition VI_INTF_TCPIP : Z := 6.
Definition VI_INTF_USB : Z := 7.

(** ** Attributes *)

Definition VI_ATTR_RSRC_CLASS : Z := 0xBFFF0001.
Definition VI_ATTR_RSRC_NAME : Z := 0xBFFF0002.
Definition VI_ATTR_RSRC_IMPL_VERSION : Z := 0x3FFF0003.
Definition VI_ATTR_RSRC_LOCK_STATE : Z := 0x3FFF0004.
Definition VI_ATTR_USER_DATA : Z := 0x3FFF0007.
Definition VI_ATTR_SEND_END_EN : Z := 0x3FFF0016.
Definition VI_ATTR_TERMCHAR : Z := 0x3FFF0018.
Definition VI_ATTR_TMO_VALUE : Z := 0x3FFF001A.
Definition VI_ATTR_RD_BUF_SIZE : Z := 0x3FFF002B.
Definition VI_ATTR_WR_BUF_SIZE : Z := 0x3FFF002E.
Definition VI_ATTR_TERMCHAR_EN : Z := 0x3FFF0038.
Definition VI_ATTR_ASRL_BAUD : Z := 0x3FFF0021.
Definition VI_ATTR_ASRL_DATA_BITS : Z := 0x3FFF0022.
Definition VI_ATTR_ASRL_PARITY : Z := 0x3FFF0023.
Definition VI_ATTR_ASRL_STOP_BITS : Z := 0x3FFF0024.
Definition VI_ATTR_ASRL_FLOW_CNTRL : Z := 0x3FFF0025.
Definition VI_ATTR_RM_SESSION : Z := 0x3FFF00C4.
Definition VI_ATTR_RSRC_SPEC_VERSION : Z := 0x3FFF0170.
Definition VI_ATTR_INTF_TYPE : Z := 0x3FFF0171.
Definition VI_ATTR_INTF_NUM : Z := 0x3FFF0176.
Definition VI_ATTR_TCPIP_ADDR : Z := 0xBFFF0195.
Definition VI_ATTR_TCPIP_HOSTNAME : Z := 0xBFFF0196.
Definition VI_ATTR_TCPIP_PORT : Z := 0x3FFF0197.
Definition VI_ATTR_TCPIP_NODELAY : Z := 0x3FFF019A.
Definition VI_ATTR_TCPIP_KEEPALIVE : Z := 0x3FFF019B.

(** ** Completion codes *)

Definition VI_SUCCESS : Z := 0.
Definition VI_SUCCESS_TERM_CHAR : Z := 0x3FFF0005.
Definition VI_SUCCESS_MAX_CNT : Z := 0x3FFF0006.
Definition VI_SUCCESS_NESTED_SHARED : Z := 0x3FFF0099.
Definition VI_SUCCESS_NESTED_EXCLUSIVE : Z := 0x3FFF009A.

(** ** Error codes *)

Definition VI_ERROR_SYSTEM_ERROR : Z := Eval vm_compute in i32 0xBFFF0000.
Definition VI_ERROR_INV_OBJECT : Z := Eval vm_compute in i32 0xBFFF000E.
Definition VI_ERROR_RSRC_LOCKED : Z := Eval vm_compute in i32 0xBFFF000F.
Definition VI_ERROR_INV_EXPR : Z := Eval vm_compute in i32 0xBFFF0010.
Definition VI_ERROR_RSRC_NFOUND : Z := Eval vm_compute in i32 0xBFFF0011.
Definition VI_ERROR_INV_RSRC_NAME : Z := Eval vm_compute in i32 0xBFFF0012.
Definition VI_ERROR_INV_ACC_MODE : Z := Eval vm_compute in i32 0xBFFF0013.
Definition VI_ERROR_TMO : Z := Eval vm_compute in i32 0xBFFF0015.
Definition VI_ERROR_INV_DEGREE : Z := Eval vm_compute in i32 0xBFFF001B.
Definition VI_ERROR_INV_JOB_ID : Z := Eval vm_compute in i32 0xBFFF001C.
Definition VI_ERROR_NSUP_ATTR : Z := Eval vm_compute in i32 0xBFFF001D.
Definition VI_ERROR_NSUP_ATTR_STATE : Z := Eval vm_compute in i32 0xBFFF001E.
Definition VI_ERROR_ATTR_READONLY : Z := Eval vm_compute in i32 0xBFFF001F.
Definition VI_ERROR_INV_LOCK_TYPE : Z := Eval vm_compute in i32 0xBFFF0020.
Definition VI_ERROR_INV_ACCESS_KEY : Z := Eval vm_compute in i32 0xBFFF0021.
Definition VI_ERROR_ABORT : Z := Eval vm_compute in i32 0xBFFF0030.
Definition VI_ERROR_ALLOC : Z := Eval vm_compute in i32 0xBFFF003C.
Definition VI_ERROR_INV_MASK : Z := Eval vm_compute in i32 0xBFFF003D.
Definition VI_ERROR_IO : Z := Eval vm_compute in i32 0xBFFF003E.
Definition VI_ERROR_NSUP_OPER : Z := Eval vm_compute in i32 0xBFFF0067.
Definition VI_ERROR_RSRC_BUSY : Z := Eval vm_compute in i32 0xBFFF0072.
Definition VI_ERROR_INV_PARAMETER : Z := Eval vm_compute in i32 0xBFFF0078.
Definition VI_ERROR_INV_PROT : Z := Eval vm_compute in i32 0xBFFF0079.
Definition VI_ERROR_INV_SIZE : Z := Eval vm_compute in i32 0xBFFF007B.
Definition VI_ERROR_SESN_NLOCKED : Z := Eval vm_compute in i32 0xBFFF009C.
Definition VI_ERROR_INTF_NUM_NCONFIG : Z := Eval vm_compute in i32 0xBFFF00A5.
Definition VI_ERROR_CONN_LOST : Z := Eval vm_compute in i32 0xBFFF00A6.
Definition VI_ERROR_NPERMISSION : Z := Eval vm_compute in i32 0xBFFF00A8.

(** ** Buffer masks *)

Definition VI_READ_BUF : Z := 1.
Definition VI_WRITE_BUF : Z := 2.
Definition VI_READ_BUF_DISCARD : Z := 4.
Definition VI_WRITE_BUF_DISCARD : Z := 8.
Definition VI_IO_IN_BUF : Z := 16.
Definition VI_IO_OUT_BUF : Z := 32.
Definition VI_IO_IN_BUF_DISCARD : Z := 64.
Definition VI_IO_OUT_BUF_DISCARD : Z := 128.

(** ** Timeouts and lock types *)

Definition VI_TMO_IMMEDIATE : Z := 0.
Definition VI_TMO_INFINITE : Z := 0xFFFFFFFF.
Definition VI_NO_LOCK : Z := 0.
Definition VI_EXCLUSIVE_LOCK : Z := 1.
Definition VI_SHARED_LOCK : Z := 2.
Definition VI_LOAD_CONFIG : Z := 4.

(** ** Triggers and serial settings *)

Definition VI_TRIG_PROT_DEFAULT : Z := 0.
Definition VI_ASRL_PAR_NONE : Z := 0.
Definition VI_ASRL_PAR_ODD : Z := 1.
Definition VI_ASRL_PAR_EVEN : Z := 2.
Definition VI_ASRL_PAR_MARK : Z := 3.
Definition VI_ASRL_PAR_SPACE : Z := 4.
Definition VI_ASRL_STOP_ONE : Z := 10.
Definition VI_ASRL_STOP_ONE5 : Z := 15.
Definition VI_ASRL_STOP_TWO : Z := 20.
Definition VI_ASRL_FLOW_NONE : Z := 0.
Definition VI_ASRL_FLOW_XON_XOFF : Z := 1.
Definition VI_ASRL_FLOW_RTS_CTS : Z := 2.
Definition VI_ASRL_FLOW_DTR_DSR : Z := 4.

(** ** Extensions: [include/webreal_visa_ext.h] *)

Definition WRVISA_INTF_MOCK : Z := 0x8000.
Definition WRVISA_TCPIP_PROTOCOL_VXI11 : Z := 1.
Definition WRVISA_TCPIP_PROTOCOL_HISLIP : Z := 2.
Definition WRVISA_USB_RAW_ABI_MAJOR : Z := 1.
Definition WRVISA_USB_RAW_ABI_MINOR : Z := 0.
Definition WRVISA_USB_TRANSFER_NONE : Z := 0.
Definition WRVISA_USB_TRANSFER_BULK : Z := 1.
Definition WRVISA_USB_TRANSFER_INTERRUPT : Z := 2.
Definition WRVISA_PROLOGIX_ABI_MAJOR : Z := 1.
Definition WRVISA_PROLOGIX_ABI_MINOR : Z := 0.
Definition WRVISA_PROLOGIX_CONNECTION_SERIAL : Z := 1.
Definition WRVISA_PROLOGIX_CONNECTION_TCP : Z := 2.
Definition WRVISA_PROLOGIX_MAX_RESPONSE_SIZE : Z := 67108864.

Definition WRVISA_MOCK_RESOURCE : str := lit "WRVISA0::MOCK::INSTR".
Definition WRVISA_MOCK_FIND_EXPRESSION : str := lit "WRVISA0?*".

(** ** Versioned structures

    The fixed arrays are lists; the code iterates over all their elements. *)

Record wrvisa_usb_raw_config_v1 := mk_usb_raw_config {
  urc_struct_size : Z;
  urc_abi_major : Z;
  urc_abi_minor : Z;
  urc_alternate_setting : Z;
  urc_read_transfer_type : Z;
  urc_read_endpoint : Z;
  urc_write_transfer_type : Z;
  urc_write_endpoint : Z;
  urc_reserved8 : list Z;
  urc_flags : Z;
  urc_reserved : list Z }.

Record wrvisa_usb_control_request_v1 := mk_usb_control_request {
  ucr_struct_size : Z;
  ucr_abi_major : Z;
  ucr_abi_minor : Z;
  ucr_request_type : Z;
  ucr_request : Z;
  ucr_value : Z;
  ucr_index : Z;
  ucr_reserved16 : Z;
  ucr_flags : Z;
  ucr_reserved : list Z }.

Record wrvisa_prologix_controller_config_v1 := mk_prologix_config {
  pcc_struct_size : Z;
  pcc_abi_major : Z;
  pcc_abi_minor : Z;
  pcc_connection_type : Z;
  pcc_tcp_port : Z;
  pcc_eot_char : Z;
  pcc_reserved8 : list Z;
  pcc_read_timeout_ms : Z;
  pcc_maximum_response_size : Z;
  pcc_flags : Z;
  pcc_reserved : list Z }.

(** A status is an error exactly when it is negative. *)
Definition is_error (status : Z) : bool := status <? VI_SUCCESS.
