(* ===== verification/CText.v ===== *)
(** * The text functions of the C and C++ library the code calls

    [<cctype>] in the "C" locale, [std::to_string], the [std::hex],
    [std::uppercase] and [std::setw] stream formats and [std::from_chars]. *)

From S2P Require Import Prelude.

(** The code of a character as [unsigned char]. *)
Definition uchar (c : ascii) : Z := Z.of_N (N_of_ascii c).

(** The same character as the signed [char] of the supported targets, which
    the comparisons [begin > end] and [range.first <= character] use. *)
Definition schar (c : ascii) : Z := if uchar c <? 128 then uchar c else uchar c - 256.

Definition chr (z : Z) : ascii := ascii_of_N (Z.to_N z).

Definition between (lo hi : Z) (c : ascii) : bool := (lo <=? uchar c) && (uchar c <=? hi).

Definition isdigit : ascii -> bool := between 48 57.
Definition isupper : ascii -> bool := between 65 90.
Definition islower : ascii -> bool := between 97 122.
Definition isalpha (c : ascii) : bool := isupper c || islower c.
Definition isalnum (c : ascii) : bool := isalpha c || isdigit c.
Definition isxdigit (c : ascii) : bool := isdigit c || between 65 70 c || between 97 102 c.
Definition isspace (c : ascii) : bool := (uchar c =? 32) || between 9 13 c.
Definition toupper (c : ascii) : ascii := if islower c then chr (uchar c - 32) else c.

(** [std::transform] with [std::toupper], as [upper] and [folded_name] do. *)
Definition upper (s : str) : str := toupper <$> s.

(** ** Printing *)

Definition digit_char (d : Z) : ascii := chr (if d <? 10 then 48 + d else 55 + d).

Fixpoint print_fuel (base : Z) (fuel : nat) (z : Z) : str :=
  match fuel with
  | O => []
  | S fuel =>
      if z <? base then [digit_char z]
      else print_fuel base fuel (z / base) ++ [digit_char (z mod base)]
  end.

(** The digits of a non-negative [z], most significant first. *)
Definition print (base z : Z) : str := print_fuel base (S (Z.to_nat (Z.log2 z))) z.

Definition to_string (z : Z) : str := print 10 z.
Definition upper_hex (z : Z) : str := print 16 z.

(** [std::setw(width) << std::setfill('0')]. *)
Definition setw0 (width : nat) (s : str) : str :=
  replicate (width - length s) "0"%char ++ s.

(** ** [std::from_chars] *)

Definition digit_value (base : Z) (c : ascii) : option Z :=
  let d := if isdigit c then uchar c - 48
           else if isupper c then uchar c - 55
           else if islower c then uchar c - 87 else base in
  if d <? base then Some d else None.

(** The longest prefix of digits, and the rest. *)
Fixpoint span_digits (base : Z) (s : str) : list Z * str :=
  match s with
  | [] => ([], [])
  | c :: rest =>
      match digit_value base c with
      | Some d => let '(ds, tail) := span_digits base rest in (d :: ds, tail)
      | None => ([], s)
      end
  end.

Definition digits_value (base : Z) (ds : list Z) : Z :=
  fold_left (fun acc d => acc * base + d) ds 0.

(** Into an unsigned type of maximum [maximum]: [None] is either error code,
    the string is what [result.ptr] points to. *)
Definition from_chars (base maximum : Z) (s : str) : option (Z * str) :=
  let '(ds, rest) := span_digits base s in
  let v := digits_value base ds in
  if (0 <? Z.of_nat (length ds)) && (v <=? maximum) then Some (v, rest) else None.

(** ** Lemmas *)

Create Rewrite HintDb wrtext.

Lemma uchar_range c : 0 <= uchar c < 256.
Proof.
  unfold uchar. pose proof (N_ascii_bounded c). lia.
Qed.

Lemma uchar_chr z : 0 <= z < 256 -> uchar (chr z) = z.
Proof. intros Hz. unfold uchar, chr. rewrite N_ascii_embedding; lia. Qed.

Lemma chr_uchar c : chr (uchar c) = c.
Proof. unfold uchar, chr. by rewrite N2Z.id, ascii_N_embedding. Qed.

Lemma uchar_inj c1 c2 : uchar c1 = uchar c2 -> c1 = c2.
Proof. intros Heq. by rewrite <- (chr_uchar c1), <- (chr_uchar c2), Heq. Qed.

(** A decidable fact about characters holds if it holds for all 256. *)
Lemma all_chars (P : ascii -> bool) :
  forallb P (ascii_of_nat <$> List.seq 0 256) = true -> forall c, P c = true.
Proof.
  intros Hall c. rewrite forallb_forall in Hall. apply Hall.
  rewrite <- (ascii_nat_embedding c). apply in_map, in_seq.
  pose proof (nat_ascii_bounded c). lia.
Qed.

(** Proves [forall c, b c = true] by evaluating [b] on all characters. *)
Ltac by_all_chars :=
  match goal with
  | |- forall c, @?P c = true => apply (all_chars P); vm_compute; reflexivity
  end.

Lemma toupper_idem c : toupper (toupper c) = toupper c.
Proof. apply (bool_decide_eq_true_1 _). revert c. by_all_chars. Qed.

Lemma upper_idem s : upper (upper s) = upper s.
Proof. induction s as [|c s IH]; simpl; [done|]. by rewrite toupper_idem, IH. Qed.

Lemma upper_app s1 s2 : upper (s1 ++ s2) = upper s1 ++ upper s2.
Proof. apply fmap_app. Qed.

Lemma upper_length s : length (upper s) = length s.
Proof. apply length_fmap. Qed.

Lemma digit_value_char base d :
  0 <= d < base -> base <= 16 -> digit_value base (digit_char d) = Some d.
Proof.
  intros Hd Hb.
  assert (uchar (digit_char d) = if d <? 10 then 48 + d else 55 + d) as Hc.
  { unfold digit_char. apply uchar_chr. case_match; lia. }
  unfold digit_value, isdigit, isupper, between. rewrite Hc.
  destruct (Z.ltb_spec d 10).
  - rewrite (proj2 (Z.leb_le 48 _)), (proj2 (Z.leb_le _ 57)) by lia. simpl.
    rewrite (proj2 (Z.ltb_lt _ _)) by lia. f_equal. lia.
  - rewrite (proj2 (Z.leb_gt _ 57)), andb_false_r by lia.
    rewrite (proj2 (Z.leb_le 65 _)), (proj2 (Z.leb_le _ 90)) by lia. simpl.
    rewrite (proj2 (Z.ltb_lt _ _)) by lia. f_equal. lia.
Qed.

Lemma span_digits_app base s1 s2 ds :
  span_digits base s1 = (ds, []) ->
  span_digits base (s1 ++ s2) =
    (ds ++ (span_digits base s2).1, (span_digits base s2).2).
Proof.
  revert ds. induction s1 as [|c s1 IH]; intros ds; simpl.
  - intros [= <-]. by destruct (span_digits base s2).
  - destruct (digit_value base c); [|done].
    destruct (span_digits base s1) as [ds1 tail] eqn:Hs. intros [= <- ->].
    by rewrite (IH _ eq_refl).
Qed.

Lemma digits_value_app base ds1 ds2 :
  digits_value base (ds1 ++ ds2) =
    fold_left (fun acc d => acc * base + d) ds2 (digits_value base ds1).
Proof. unfold digits_value. apply fold_left_app. Qed.

Lemma print_fuel_digits base fuel z :
  2 <= base <= 16 -> 0 <= z < 2 ^ Z.of_nat fuel ->
  exists ds, span_digits base (print_fuel base fuel z) = (ds, []) /\
    digits_value base ds = z /\ (fuel ≠ 0%nat -> ds ≠ []).
Proof.
  intros Hb. revert z. induction fuel as [|fuel IH]; intros z Hz.
  { exists []. simpl in *. split; [done|]. split; [|done]. unfold digits_value. simpl. lia. }
  cbn [print_fuel]. destruct (Z.ltb_spec z base).
  - exists [z]. simpl. rewrite digit_value_char by lia. done.
  - destruct (IH (z / base)) as (ds & Hs & Hv & _).
    { rewrite Nat2Z.inj_succ, Z.pow_succ_r in Hz by lia. split; [by apply Z.div_pos; lia|].
      apply Z.div_lt_upper_bound; nia. }
    exists (ds ++ [z mod base]). rewrite (span_digits_app _ _ _ _ Hs). simpl.
    pose proof (Z.mod_pos_bound z base ltac:(lia)).
    rewrite digit_value_char by lia. simpl. split; [done|].
    rewrite digits_value_app, Hv. simpl. split; [|by destruct ds].
    rewrite (Z.div_mod z base) at 3 by lia. lia.
Qed.

Lemma print_digits base z :
  2 <= base <= 16 -> 0 <= z ->
  exists ds, span_digits base (print base z) = (ds, []) /\
    digits_value base ds = z /\ ds ≠ [].
Proof.
  intros Hb Hz. unfold print.
  destruct (print_fuel_digits base (S (Z.to_nat (Z.log2 z))) z) as (ds & ? & ? & ?); eauto.
  split; [done|]. rewrite Nat2Z.inj_succ, Z2Nat.id by apply Z.log2_nonneg.
  destruct (decide (z = 0)) as [->|]; [done|]. apply Z.log2_spec. lia.
Qed.

(** [from_chars] reads back what [to_string] and the hexadecimal format print. *)
Lemma from_chars_print base maximum z :
  2 <= base <= 16 -> 0 <= z <= maximum ->
  from_chars base maximum (print base z) = Some (z, []).
Proof.
  intros Hb Hz. destruct (print_digits base z) as (ds & Hs & Hv & Hne); [lia|lia|].
  unfold from_chars. rewrite Hs, Hv. destruct ds; [done|].
  rewrite (proj2 (Z.leb_le _ _)) by lia. done.
Qed.
#[export] Hint Rewrite upper_app upper_idem upper_length : wrtext.

(** [std::from_chars] into [int64_t]: a minus sign and digits; the magnitude
    of the least value is one more than the maximum. *)
Definition from_chars_int64 (base : Z) (s : str) : option (Z * str) :=
  match s with
  | c :: digits =>
      if (c =? "-")%char then
        '(v, rest) ← from_chars base (2 ^ 63) digits; Some (- v, rest)
      else from_chars base (2 ^ 63 - 1) s
  | [] => None
  end.
