(* ===== verification/Operation.v ===== *)
(** * Operations: [src/runtime/operation.{h,cpp}]

    One [Operation] is created per blocking call.  Its final status is an
    atomic that success, timeout, cancellation and close compete for with a
    compare-and-swap; [cancel_mutex_] protects the cancellation handler.

    The first half models the member functions as functions on the object;
    the second half interleaves them: each atomic access or critical section
    is one step of a thread, and threads are scheduled arbitrarily. *)

From S2P Require Import Prelude Visa.

Definition kPending : Z := 2 ^ 31 - 1.

Section operation.
  Context {H : Type}.

(** [deadline_ = None] is [Clock::time_point::max()]. *)
Record Operation := mkOperation {
  result_ : Z;
  deadline_ : option Z;
  cancel_handler_ : option H }.

(** [Operation::Operation], [now] being [Clock::now()] in milliseconds. *)
Definition new_operation (timeout now : Z) : Operation :=
  mkOperation kPending
    (if timeout =? VI_TMO_INFINITE then None else Some (now + timeout)) None.

Definition completed (op : Operation) : bool := negb (result_ op =? kPending).

Definition op_result (op : Operation) : Z := result_ op.

Definition try_complete (status : Z) (op : Operation) : bool * Operation :=
  if result_ op =? kPending
  then (true, mkOperation status (deadline_ op) (cancel_handler_ op))
  else (false, op).

(** The critical section of [complete_and_notify]: the handler moved out. *)
Definition take_handler (op : Operation) : option H * Operation :=
  (cancel_handler_ op, mkOperation (result_ op) (deadline_ op) None).

(** The list is the handlers called, in order. *)
Definition complete_and_notify (status : Z) (op : Operation)
  : bool * list H * Operation :=
  let '(won, op1) := try_complete status op in
  if won then
    let '(handler, op2) := take_handler op1 in
    (true, match handler with Some h => [h] | None => [] end, op2)
  else (false, [], op1).

Definition request_cancel (op : Operation) : bool * list H * Operation :=
  complete_and_notify VI_ERROR_ABORT op.

Definition request_timeout (op : Operation) : bool * list H * Operation :=
  complete_and_notify VI_ERROR_TMO op.

(** [set_cancel_handler]: run the handler at once when the operation has
    already completed, store it otherwise. *)
Definition set_cancel_handler (handler : H) (op : Operation) : list H * Operation :=
  if completed op then ([handler], op)
  else ([], mkOperation (result_ op) (deadline_ op) (Some handler)).

Definition clear_cancel_handler (op : Operation) : Operation :=
  mkOperation (result_ op) (deadline_ op) None.

(** ** Interleaved execution

    The program counter of one thread that calls a member function.  A
    finished call records whether it won the completion, and with what
    status ([notify] tells [complete_and_notify] from [try_complete]). *)

Inductive thread :=
| TComplete (status : Z)
| TNotify (status : Z)
| TTake (status : Z)
| TCall (handler : H) (winner : option Z)
| TSet (handler : H)
| TClear
| TDone (won : option (bool * Z)).

(** One atomic step of a thread: the new operation, the new program counter
    and the handlers it called. *)
Definition thread_step (op : Operation) (t : thread)
  : option (Operation * thread * list H) :=
  match t with
  | TComplete status =>
      let '(won, op') := try_complete status op in
      Some (op', TDone (if won then Some (false, status) else None), [])
  | TNotify status =>
      let '(won, op') := try_complete status op in
      Some (op', if won then TTake status else TDone None, [])
  | TTake status =>
      let '(handler, op') := take_handler op in
      Some (op', match handler with
                 | Some h => TCall h (Some status)
                 | None => TDone (Some (true, status))
                 end, [])
  | TCall h winner =>
      Some (op, TDone (status ← winner; Some (true, status)), [h])
  | TSet h =>
      if completed op then Some (op, TCall h None, [])
      else Some (mkOperation (result_ op) (deadline_ op) (Some h), TDone None, [])
  | TClear => Some (clear_cancel_handler op, TDone None, [])
  | TDone _ => None
  end.

Record config := mkConfig {
  cfg_op : Operation;
  cfg_threads : list thread;
  cfg_called : list H }.

Inductive cfg_step : config -> config -> Prop :=
| CfgStep op threads called i t op' t' hs :
    threads !! i = Some t -> thread_step op t = Some (op', t', hs) ->
    cfg_step (mkConfig op threads called)
             (mkConfig op' (<[i := t']> threads) (called ++ hs)).

(** Every member call, about to start. *)
Definition starting (t : thread) : Prop :=
  match t with
  | TComplete status | TNotify status => status ≠ kPending
  | TSet _ | TClear => True
  | _ => False
  end.

Definition finished (c : config) : Prop :=
  Forall (fun t => exists w, t = TDone w) (cfg_threads c).

(** The status with which a thread has won the completion, if it has. *)
Definition winner (t : thread) : option Z :=
  match t with
  | TTake status | TCall _ (Some status) | TDone (Some (_, status)) => Some status
  | _ => None
  end.

(** ** The completion is won exactly once *)

Definition wins (t : thread) : nat :=
  match winner t with Some _ => 1%nat | None => 0%nat end.

Definition pc_ok (t : thread) : Prop :=
  match t with
  | TComplete status | TNotify status => status ≠ kPending
  | _ => True
  end.

Definition once_inv (c : config) : Prop :=
  Forall pc_ok (cfg_threads c) /\
  (sum_list_with wins (cfg_threads c) = if completed (cfg_op c) then 1 else 0)%nat /\
  forall i t status, cfg_threads c !! i = Some t -> winner t = Some status ->
    result_ (cfg_op c) = status.

Lemma once_inv_start op threads :
  result_ op = kPending -> Forall starting threads ->
  once_inv (mkConfig op threads []).
Proof.
  intros Hp Hs. unfold once_inv, completed. simpl. rewrite Hp, Z.eqb_refl. simpl.
  split; [|split].
  - eapply Forall_impl; [exact Hs|]. by intros [].
  - clear Hp. induction Hs as [|t l Ht _ IH]; simpl; [done|]. rewrite IH. by destruct t.
  - intros i t status Hl Hw.
    pose proof (Forall_lookup_1 _ _ _ _ Hs Hl) as Ht. by destruct t.
Qed.

(** Case analysis of one thread step. *)
#[local] Ltac step_cases :=
  simplify_eq/=; repeat (case_match; simplify_eq/=).

(** How a step changes who has won. *)
Lemma thread_step_wins op t op' t' hs :
  pc_ok t -> thread_step op t = Some (op', t', hs) ->
  pc_ok t' /\
  ((completed op' = completed op /\ result_ op' = result_ op /\ winner t' = winner t) \/
   (completed op = false /\ completed op' = true /\ winner t = None /\
    winner t' = Some (result_ op'))).
Proof.
  intros Hpc. unfold thread_step, try_complete, take_handler, completed.
  destruct t as [status|status|status|h [w|]|h| |w]; simpl in *; intros Hstep.
  1,2: destruct (Z.eqb_spec (result_ op) kPending); simplify_eq/=;
    (split; [done|]); 
    [right; by destruct (Z.eqb_spec status kPending)
    |left; by destruct (Z.eqb_spec (result_ op') kPending)].
  all: step_cases; (split; [done|by left]).
Qed.

Lemma once_inv_step c c' : once_inv c -> cfg_step c c' -> once_inv c'.
Proof.
  intros (Hpc & Hsum & Hres) Hstep. destruct Hstep as [op ths called i t op' t' hs Hl Ht].
  simpl in *. pose proof (Forall_lookup_1 _ _ _ _ Hpc Hl) as Hpct.
  destruct (thread_step_wins _ _ _ _ _ Hpct Ht) as [Hpc' Hcase].
  pose proof (sum_list_with_insert wins ths i t t' Hl) as Hins.
  pose proof (lookup_lt_Some _ _ _ Hl) as Hlt.
  split; [by apply Forall_insert|]. unfold wins in *. split.
  - simpl. destruct Hcase as [(-> & _ & Hw)|(Hc & -> & Hw & Hw')].
    + rewrite Hw in Hins. lia.
    + rewrite Hw, Hw' in Hins. rewrite Hc in Hsum. lia.
  - simpl. intros j tj status Hj Hwj. destruct (decide (i = j)) as [<-|Hne].
    + rewrite list_lookup_insert_eq in Hj by done. simplify_eq.
      destruct Hcase as [(_ & Hr & Hw)|(_ & _ & _ & Hw')]; [|congruence].
      rewrite Hr. rewrite Hw in Hwj. eauto.
    + rewrite list_lookup_insert_ne in Hj by done.
      destruct Hcase as [(_ & -> & _)|(Hc & _)]; [eauto|].
      rewrite Hc in Hsum. pose proof (sum_list_with_pos wins ths j tj Hj) as Hpos.
      unfold wins in Hpos. rewrite Hwj in Hpos. unfold wins in Hsum. lia.
Qed.

Lemma once_inv_rtc c c' : once_inv c -> rtc cfg_step c c' -> once_inv c'.
Proof. intros Hi. induction 1; eauto using once_inv_step. Qed.

Lemma winner_unique ths i j ti tj si sj :
  (sum_list_with wins ths <= 1)%nat ->
  ths !! i = Some ti -> ths !! j = Some tj ->
  winner ti = Some si -> winner tj = Some sj -> i = j.
Proof.
  intros Hsum Hi Hj Hwi Hwj. destruct (decide (i = j)) as [|Hne]; [done|exfalso].
  pose proof (sum_list_with_insert wins ths i ti TClear Hi) as Hins.
  assert (<[i := TClear]> ths !! j = Some tj) as Hj' by (by rewrite list_lookup_insert_ne).
  pose proof (sum_list_with_pos wins _ _ _ Hj').
  assert (wins ti = 1%nat) by (unfold wins; by rewrite Hwi).
  assert (wins tj = 1%nat) by (unfold wins; by rewrite Hwj).
  assert (wins TClear = 0%nat) by done. lia.
Qed.

(** C3: an operation is completed exactly once: however calls of
    [try_complete], [request_cancel], [request_timeout] and the handler
    functions interleave, at most one of them wins the completion, the
    operation is completed exactly when one has won, the recorded result is
    the winner's status, and it never changes afterwards. *)
Theorem operation_completes_once op threads c :
  result_ op = kPending -> Forall starting threads ->
  rtc cfg_step (mkConfig op threads []) c ->
  (completed (cfg_op c) = true <->
     exists i t, cfg_threads c !! i = Some t /\
       winner t = Some (result_ (cfg_op c))) /\
  (forall i j ti tj si sj,
     cfg_threads c !! i = Some ti -> cfg_threads c !! j = Some tj ->
     winner ti = Some si -> winner tj = Some sj ->
     i = j /\ si = result_ (cfg_op c)) /\
  (completed (cfg_op c) = true -> forall c', rtc cfg_step c c' ->
     result_ (cfg_op c') = result_ (cfg_op c)).
Proof.
  intros Hp Hs Hrtc.
  pose proof (once_inv_rtc _ _ (once_inv_start _ _ Hp Hs) Hrtc) as Hinv.
  assert (forall c, once_inv c -> completed (cfg_op c) = true <->
    exists i t, cfg_threads c !! i = Some t /\ winner t = Some (result_ (cfg_op c))) as Hiff.
  { clear. intros c (_ & Hsum & Hres). split.
    - intros Hc. rewrite Hc in Hsum.
      assert (exists i t, cfg_threads c !! i = Some t /\ is_Some (winner t))
        as (i & t & Hl & st & Hw).
      { clear Hres Hc. induction (cfg_threads c) as [|t l IH]; simpl in Hsum; [done|].
        destruct (winner t) as [w|] eqn:Hw; [by exists 0%nat, t; eauto|].
        unfold wins in Hsum at 1. rewrite Hw in Hsum.
        destruct (IH Hsum) as (i & t' & Hl & Hw'). exists (S i), t'. eauto. }
      exists i, t. split; [done|]. rewrite Hw. f_equal. symmetry. eauto.
    - intros (i & t & Hl & Hw). destruct (completed (cfg_op c)); [done|].
      pose proof (sum_list_with_pos wins _ _ _ Hl) as Hpos.
      unfold wins in Hpos at 1. rewrite Hw in Hpos. lia. }
  split; [by apply Hiff|]. split.
  - intros i j ti tj si sj Hi Hj Hwi Hwj. destruct Hinv as (_ & Hsum & Hres). split.
    + eapply winner_unique; eauto. by case_match; lia.
    + symmetry. eauto.
  - intros Hc c' Hrtc'. clear Hrtc. revert Hc.
    induction Hrtc' as [|c1 c2 c3 Hstep _ IH]; [done|]. intros Hc.
    pose proof (once_inv_step _ _ Hinv Hstep) as Hinv2.
    destruct Hstep as [op1 ths called i t op' t' hs Hl Ht]. simpl in *.
    destruct Hinv as (Hpc & _).
    destruct (thread_step_wins _ _ _ _ _ (Forall_lookup_1 _ _ _ _ Hpc Hl) Ht)
      as [_ [(Hcc & Hr & _)|(Hf & _)]]; [|congruence].
    rewrite <- Hr. apply IH; [done|]. by rewrite Hcc.
Qed.

(** ** The cancellation handler *)

Context `{EqDecision H}.

(** Where the handler [h] may be: still to be set, about to be called, stored
    in the operation, or called. *)
Definition holds (h : H) (t : thread) : nat :=
  match t with
  | TSet h' | TCall h' _ => if decide (h' = h) then 1%nat else 0%nat
  | _ => 0%nat
  end.

Definition stored (h : H) (op : Operation) : nat :=
  match cancel_handler_ op with
  | Some h' => if decide (h' = h) then 1%nat else 0%nat
  | None => 0%nat
  end.

Definition count (h : H) (l : list H) : nat :=
  sum_list_with (fun h' => if decide (h' = h) then 1%nat else 0%nat) l.

Definition tokens (h : H) (c : config) : nat :=
  sum_list_with (holds h) (cfg_threads c) + stored h (cfg_op c) + count h (cfg_called c).

Lemma count_app h l1 l2 : count h (l1 ++ l2) = (count h l1 + count h l2)%nat.
Proof. apply sum_list_with_app. Qed.

(** A step never multiplies a handler. *)
Lemma thread_step_tokens h op t op' t' hs :
  thread_step op t = Some (op', t', hs) ->
  (holds h t' + stored h op' + count h hs <= holds h t + stored h op)%nat.
Proof.
  unfold thread_step, try_complete, take_handler, stored, count.
  destruct t as [status|status|status|h1 [w|]|h1| |w]; simpl in *; intros Hstep;
    step_cases; lia.
Qed.

(** Nor does it lose one, unless it clears or overwrites the stored handler. *)
Lemma thread_step_tokens_eq h op t op' t' hs :
  t ≠ TClear -> (forall h', t = TSet h' -> cancel_handler_ op = None) ->
  thread_step op t = Some (op', t', hs) ->
  (holds h t' + stored h op' + count h hs = holds h t + stored h op)%nat.
Proof.
  intros Hnc Hset. unfold thread_step, try_complete, take_handler, stored, count.
  destruct t as [status|status|status|h1 [w|]|h1| |w]; simpl in *; intros Hstep; try done;
    try pose proof (Hset _ eq_refl); step_cases; lia || congruence.
Qed.

Lemma tokens_step h c c' : cfg_step c c' -> (tokens h c' <= tokens h c)%nat.
Proof.
  intros [op ths called i t op' t' hs Hl Ht]. unfold tokens. simpl.
  pose proof (thread_step_tokens h _ _ _ _ _ Ht).
  pose proof (sum_list_with_insert (holds h) ths i t t' Hl).
  rewrite count_app. lia.
Qed.

Lemma tokens_rtc h c c' : rtc cfg_step c c' -> (tokens h c' <= tokens h c)%nat.
Proof. induction 1 as [|c1 c2 c3 ?%(tokens_step h)]; lia. Qed.

(** With one setter and no [clear_cancel_handler], as one operation of the
    program uses it: *)
Definition filled (op : Operation) : nat :=
  match cancel_handler_ op with Some _ => 1%nat | None => 0%nat end.

Definition setters (t : thread) : nat := match t with TSet _ => 1%nat | _ => 0%nat end.

(** [notified t]: the thread cancelled the operation and is past its
    critical section. *)
Definition notified (t : thread) : Prop :=
  match t with TCall _ (Some _) | TDone (Some (true, _)) => True | _ => False end.

Definition handler_inv (h : H) (c : config) : Prop :=
  tokens h c = 1%nat /\
  (sum_list_with setters (cfg_threads c) +
     filled (cfg_op c) <= 1)%nat /\
  Forall (fun t => t ≠ TClear) (cfg_threads c) /\
  (forall i t, cfg_threads c !! i = Some t -> notified t ->
     completed (cfg_op c) = true /\ cancel_handler_ (cfg_op c) = None) /\
  (forall i s, cfg_threads c !! i = Some (TTake s) -> completed (cfg_op c) = true) /\
  Forall pc_ok (cfg_threads c).

Lemma completed_stable op t op' t' hs :
  pc_ok t -> thread_step op t = Some (op', t', hs) ->
  completed op = true -> completed op' = true.
Proof.
  intros Hpc Ht Hc. by destruct (thread_step_wins _ _ _ _ _ Hpc Ht)
    as [_ [(-> & _)|(_ & -> & _)]].
Qed.

(** A thread becomes [notified] only by its critical section, which empties
    the stored handler; after that no [set_cancel_handler] stores one. *)
Lemma notified_step op t op' t' hs :
  thread_step op t = Some (op', t', hs) -> notified t' ->
  notified t \/ exists s, t = TTake s /\ op' = snd (take_handler op).
Proof.
  unfold thread_step, try_complete, take_handler.
  destruct t as [status|status|status|h1 [w|]|h1| |w]; simpl; intros Ht Hn;
    step_cases; eauto.
Qed.

Lemma no_store_after_completion op t op' t' hs :
  thread_step op t = Some (op', t', hs) ->
  completed op = true -> cancel_handler_ op = None -> cancel_handler_ op' = None.
Proof.
  unfold thread_step, try_complete, take_handler, completed.
  destruct t as [status|status|status|h1 w|h1| |w]; simpl; intros Ht Hc Hn;
    step_cases; done.
Qed.

Lemma take_step op t op' t' hs s :
  pc_ok t -> thread_step op t = Some (op', t', hs) -> t' = TTake s ->
  completed op' = true.
Proof.
  unfold thread_step, try_complete, take_handler, completed. intros Hpc Ht ->.
  destruct t as [status|status|status|h1 w|h1| |w]; simpl in *;
    step_cases; try done.
  by destruct (Z.eqb_spec s kPending).
Qed.

Lemma thread_step_setters op t op' t' hs :
  (forall h', t = TSet h' -> cancel_handler_ op = None) ->
  thread_step op t = Some (op', t', hs) ->
  (setters t' + filled op' <=
   setters t + filled op)%nat.
Proof.
  intros Hset. unfold thread_step, try_complete, take_handler, filled.
  destruct t as [status|status|status|h1 w|h1| |w]; simpl; intros Ht;
    try pose proof (Hset _ eq_refl); step_cases; lia || congruence.
Qed.

Lemma thread_step_not_clear op t op' t' hs :
  thread_step op t = Some (op', t', hs) -> t' ≠ TClear.
Proof.
  unfold thread_step, try_complete, take_handler.
  destruct t; simpl; intros Ht; step_cases; done.
Qed.

Lemma handler_inv_step h c c' : handler_inv h c -> cfg_step c c' -> handler_inv h c'.
Proof.
  intros (Htok & Hset & Hnc & Hnot & Htake & Hpc) Hstep.
  destruct Hstep as [op ths called i t op' t' hs Hl Ht]. simpl in *.
  pose proof (Forall_lookup_1 _ _ _ _ Hnc Hl) as Hnct. simpl in Hnct.
  pose proof (Forall_lookup_1 _ _ _ _ Hpc Hl) as Hpct.
  pose proof (lookup_lt_Some _ _ _ Hl) as Hlt.
  assert (forall h', t = TSet h' -> cancel_handler_ op = None) as Hempty.
  { intros h' ->. pose proof (sum_list_with_pos setters ths i _ Hl) as Hpos.
    simpl in Hpos. unfold filled in Hset. destruct (cancel_handler_ op); [lia|done]. }
  split; [|split; [|split; [|split; [|split]]]]; simpl.
  - pose proof (thread_step_tokens_eq h _ _ _ _ _ Hnct Hempty Ht).
    pose proof (sum_list_with_insert (holds h) ths i t t' Hl).
    unfold tokens in *. simpl in *. rewrite count_app. lia.
  - pose proof (sum_list_with_insert setters ths i t t' Hl).
    pose proof (thread_step_setters _ _ _ _ _ Hempty Ht). lia.
  - apply Forall_insert; [done|]. by eapply thread_step_not_clear.
  - intros j tj Hj Hn.
    assert (notified t \/ (exists s, t = TTake s /\ op' = snd (take_handler op)) \/
            ths !! j = Some tj) as [Hn0|[(s & -> & ->)|Hj0]].
    { destruct (decide (i = j)) as [<-|Hne].
      - rewrite list_lookup_insert_eq in Hj by done. simplify_eq.
        destruct (notified_step _ _ _ _ _ Ht Hn); eauto.
      - rewrite list_lookup_insert_ne in Hj by done. eauto. }
    + destruct (Hnot _ _ Hl Hn0).
      split; [by eapply completed_stable|by eapply no_store_after_completion].
    + split; [|done]. by apply (Htake _ _ Hl).
    + destruct (Hnot _ _ Hj0 Hn).
      split; [by eapply completed_stable|by eapply no_store_after_completion].
  - intros j s Hj. destruct (decide (i = j)) as [<-|Hne].
    + rewrite list_lookup_insert_eq in Hj by done. simplify_eq. by eapply take_step.
    + rewrite list_lookup_insert_ne in Hj by done. eauto using completed_stable.
  - apply Forall_insert; [done|]. by destruct (thread_step_wins _ _ _ _ _ Hpct Ht).
Qed.

Lemma handler_inv_rtc h c c' : handler_inv h c -> rtc cfg_step c c' -> handler_inv h c'.
Proof. intros Hi. induction 1; eauto using handler_inv_step. Qed.

Lemma handler_inv_start h op threads :
  result_ op = kPending -> cancel_handler_ op = None -> Forall starting threads ->
  sum_list_with (holds h) threads = 1%nat -> sum_list_with setters threads = 1%nat ->
  Forall (fun t => t ≠ TClear) threads ->
  handler_inv h (mkConfig op threads []).
Proof.
  intros Hp Hn Hs Hh Hset Hnc. unfold handler_inv, tokens, stored, filled. simpl. rewrite Hn.
  split; [lia|]. split; [lia|]. split; [done|]. split; [|split].
  - intros i t Hl. by pose proof (Forall_lookup_1 _ _ _ _ Hs Hl); destruct t.
  - intros i s Hl. by pose proof (Forall_lookup_1 _ _ _ _ Hs Hl).
  - eapply Forall_impl; [exact Hs|]. by intros [].
Qed.

(** The cancellation handler is neither lost nor run twice: however
    completions, cancellations and the registration of the handler
    interleave, it is called at most once; and if it is registered by the
    operation's only [set_cancel_handler] and never cleared, then once all
    calls have returned and a cancellation (or timeout) won the completion, it
    has been called exactly once, also when the registration raced with the
    cancellation. *)
Theorem cancel_handler_exactly_once op threads h c :
  result_ op = kPending -> cancel_handler_ op = None -> Forall starting threads ->
  sum_list_with (holds h) threads = 1%nat ->
  rtc cfg_step (mkConfig op threads []) c ->
  (count h (cfg_called c) <= 1)%nat /\
  (sum_list_with setters threads = 1%nat -> Forall (fun t => t ≠ TClear) threads ->
   finished c -> (exists i s, cfg_threads c !! i = Some (TDone (Some (true, s)))) ->
   count h (cfg_called c) = 1%nat).
Proof.
  intros Hp Hn Hs Hh Hrtc. split.
  - pose proof (tokens_rtc h _ _ Hrtc) as Htok. unfold tokens, stored in Htok.
    simpl in Htok. rewrite Hn, Hh in Htok. lia.
  - intros Hset Hnc Hfin (i & s & Hl).
    destruct (handler_inv_rtc h _ _ (handler_inv_start h _ _ Hp Hn Hs Hh Hset Hnc) Hrtc)
      as (Htok & _ & _ & Hnot & _).
    destruct (Hnot _ _ Hl I) as [_ Hnone].
    assert (sum_list_with (holds h) (cfg_threads c) = 0%nat) as Hz.
    { clear -Hfin. unfold finished in Hfin.
      induction Hfin as [|t l [w ->] _ IH]; simpl; [done|]. exact IH. }
    unfold tokens, stored in Htok. rewrite Hz, Hnone in Htok. lia.
Qed.
End operation.
Arguments Operation H : clear implicits.
Arguments thread H : clear implicits.
Arguments config H : clear implicits.

(** ** Witnesses *)

Lemma cfg_step_at {H} i (op : Operation H) threads called t op' t' hs c' :
  threads !! i = Some t -> thread_step op t = Some (op', t', hs) ->
  c' = mkConfig op' (<[i := t']> threads) (called ++ hs) ->
  cfg_step (mkConfig op threads called) c'.
Proof. intros ? ? ->. by econstructor. Qed.

Lemma operation_completes_once_witness :
  exists c : config nat,
    rtc cfg_step (mkConfig (new_operation 2000 0)
                    [TComplete VI_SUCCESS; TNotify VI_ERROR_ABORT] []) c /\
    completed (cfg_op c) = true /\ result_ (cfg_op c) = VI_ERROR_ABORT /\
    (forall c', rtc cfg_step c c' -> result_ (cfg_op c') = VI_ERROR_ABORT).
Proof.
  assert (rtc cfg_step (mkConfig (H := nat) (new_operation 2000 0)
            [TComplete VI_SUCCESS; TNotify VI_ERROR_ABORT] [])
            (mkConfig (mkOperation VI_ERROR_ABORT (Some 2000) None)
               [TComplete VI_SUCCESS; TTake VI_ERROR_ABORT] [])) as Hr.
  { eapply rtc_l; [|apply rtc_refl].
    eapply (cfg_step_at 1); reflexivity. }
  eexists. split; [exact Hr|]. split; [reflexivity|]. split; [reflexivity|].
  apply (operation_completes_once (new_operation 2000 0)
    [TComplete VI_SUCCESS; TNotify VI_ERROR_ABORT]);
    [reflexivity | repeat constructor; done | exact Hr | reflexivity].
Defined.

Lemma cancel_handler_exactly_once_witness :
  exists c : config nat,
    rtc cfg_step (mkConfig (new_operation 2000 0)
                    [TSet 7%nat; TNotify VI_ERROR_ABORT] []) c /\
    finished c /\ count 7%nat (cfg_called c) = 1%nat.
Proof.
  assert (rtc cfg_step (mkConfig (new_operation 2000 0)
            [TSet 7%nat; TNotify VI_ERROR_ABORT] [])
            (mkConfig (mkOperation VI_ERROR_ABORT (Some 2000) None)
               [TDone None; TDone (Some (true, VI_ERROR_ABORT))] [7%nat])) as Hr.
  { eapply rtc_l; [eapply (cfg_step_at 1); reflexivity|].
    eapply rtc_l; [eapply (cfg_step_at 0); reflexivity|].
    eapply rtc_l; [eapply (cfg_step_at 1); reflexivity|].
    eapply rtc_l; [eapply (cfg_step_at 0); reflexivity|]. apply rtc_refl. }
  eexists. split; [exact Hr|]. split; [repeat constructor; eauto|].
  apply (cancel_handler_exactly_once (new_operation 2000 0)
    [TSet 7%nat; TNotify VI_ERROR_ABORT]);
    [reflexivity | reflexivity | repeat constructor; done | reflexivity | exact Hr
    | reflexivity | repeat constructor; done | repeat constructor; eauto
    | exists 1%nat, VI_ERROR_ABORT; reflexivity].
Defined.
