(* ===== verification/HandleTable.v ===== *)
(** * The generational handle table: [src/core/handle_table.{h,cpp}]

    Objects are abstract: [A] is what a [std::shared_ptr<Object>] points to
    and [type_of] is [Object::type()].  The table mutex makes every member
    function one atomic step, so the members are functions from table to
    table. *)

From S2P Require Import Prelude Visa.

(** ** Data *)

Inductive ObjectType :=
| resource_manager
| find_list
| session.

#[global] Instance ObjectType_eq_dec : EqDecision ObjectType.
Proof. solve_decision. Defined.

(** [static_cast<std::uint8_t>(type)] and its inverse. *)
Definition ObjectType_code (t : ObjectType) : Z :=
  match t with resource_manager => 1 | find_list => 2 | session => 3 end.

Definition ObjectType_of_code (z : Z) : ObjectType :=
  if z =? 1 then resource_manager else if z =? 2 then find_list else session.

Definition kTypeShift : Z := 28.
Definition kGenerationShift : Z := 16.
Definition kTypeMask : Z := 0x0F.
Definition kGenerationMask : Z := 0x0FFF.
Definition kMaxSlots : Z := 0xFFFF.

(** [HandleTable::encode]: the casts are to the 32-bit [ViObject]. *)
Definition encode (type : ObjectType) (generation index_plus_one : Z) : Z :=
  Z.lor (Z.lor (u32 (Z.shiftl (ObjectType_code type) kTypeShift))
               (u32 (Z.shiftl generation kGenerationShift)))
        index_plus_one.

(** [HandleTable::decode]: [None] is the [false] return. *)
Definition decode (handle : Z) : option (ObjectType * Z * Z) :=
  let raw_type := u8 (Z.land (Z.shiftr handle kTypeShift) kTypeMask) in
  let raw_generation :=
    u16 (Z.land (Z.shiftr handle kGenerationShift) kGenerationMask) in
  let raw_index := u16 (Z.land handle 0xFFFF) in
  if (raw_index =? 0) || (raw_generation =? 0) || (raw_type <? 1) || (3 <? raw_type)
  then None
  else Some (ObjectType_of_code raw_type, raw_generation, raw_index).

Section table.
  Context {A : Type} (type_of : A -> ObjectType).

Record Slot := mkSlot {
  slot_object : option A;
  slot_generation : Z;
  slot_type : ObjectType;
  slot_retired : bool }.

(** [slots_], the only data member besides the mutex. *)
Abbreviation HandleTable := (list Slot).

(** The first slot of the scan in [insert] whose test
    [!slot.object && !slot.retired] holds. *)
Fixpoint find_free (slots : HandleTable) (index : nat) : option (nat * Slot) :=
  match slots with
  | [] => None
  | slot :: rest =>
      match slot_object slot with
      | None => if slot_retired slot then find_free rest (S index)
                else Some (index, slot)
      | Some _ => find_free rest (S index)
      end
  end.

Definition insert (type : ObjectType) (object : option A) (slots : HandleTable)
  : result (Z * HandleTable) :=
  match object with
  | None => Throw invalid_argument
  | Some o =>
      if decide (type_of o = type) then
        match find_free slots 0 with
        | Some (index, slot) =>
            let slot' := mkSlot (Some o) (slot_generation slot) type
                                (slot_retired slot) in
            Ok (encode type (slot_generation slot) (u16 (Z.of_nat index + 1)),
                <[index := slot']> slots)
        | None =>
            if kMaxSlots <=? Z.of_nat (length slots) then Throw bad_alloc
            else
              let slots' := slots ++ [mkSlot (Some o) 1 type false] in
              Ok (encode type 1 (u16 (Z.of_nat (length slots'))), slots')
        end
      else Throw invalid_argument
  end.

(** [get_locked]: [expected = None] is the null pointer [get_any] passes. *)
Definition get_locked (handle : Z) (expected : option ObjectType)
    (slots : HandleTable) : option A :=
  match decode handle with
  | None => None
  | Some (type, generation, index_plus_one) =>
      if match expected with
         | Some e => negb (bool_decide (type = e))
         | None => false
         end then None
      else
        match slots !! Z.to_nat (index_plus_one - 1) with
        | None => None
        | Some slot =>
            if slot_retired slot || negb (bool_decide (slot_type slot = type))
               || negb (slot_generation slot =? generation)
            then None else slot_object slot
        end
  end.

Definition get (handle : Z) (expected : ObjectType) (slots : HandleTable) : option A :=
  get_locked handle (Some expected) slots.

Definition get_any (handle : Z) (slots : HandleTable) : option A :=
  get_locked handle None slots.

(** [remove]: the returned object and the table after it. *)
Definition remove (handle : Z) (slots : HandleTable) : option A * HandleTable :=
  match get_locked handle None slots, decode handle with
  | Some object, Some (_, _, index_plus_one) =>
      let index := Z.to_nat (index_plus_one - 1) in
      (Some object,
       alter (fun slot =>
                if slot_generation slot =? kGenerationMask
                then mkSlot None (slot_generation slot) (slot_type slot) true
                else mkSlot None (u16 (slot_generation slot + 1)) (slot_type slot)
                            (slot_retired slot)) index slots)
  | _, _ => (None, slots)
  end.

End table.
Arguments Slot A : clear implicits.
Abbreviation HandleTable A := (list (Slot A)).

(** ** Abstract specification

    What the rest of the program relies on: a partial map from live handles
    to objects, and the set of every handle ever issued, from which a new
    handle is never drawn. *)

Section spec.
  Context {A : Type} (type_of : A -> ObjectType).

Record HandleSpec := mkHandleSpec {
  spec_live : gmap Z A;
  spec_issued : gset Z }.

Definition spec_init : HandleSpec := mkHandleSpec ∅ ∅.

(** The calls of the table's interface and what each returns. *)
Inductive HandleOp :=
| OpInsert (type : ObjectType) (object : option A)
| OpGet (handle : Z) (expected : ObjectType)
| OpGetAny (handle : Z)
| OpRemove (handle : Z).

Inductive HandleOut :=
| OutHandle (handle : result Z)
| OutObject (object : option A).

(** A [ViObject] argument is a 32-bit value. *)
Definition op_ok (op : HandleOp) : Prop :=
  match op with
  | OpInsert _ _ => True
  | OpGet h _ | OpGetAny h | OpRemove h => 0 <= h < 2 ^ 32
  end.

Definition handle_step (op : HandleOp) (slots : HandleTable A)
  : HandleOut * HandleTable A :=
  match op with
  | OpInsert type object =>
      match insert type_of type object slots with
      | Ok (h, slots') => (OutHandle (Ok h), slots')
      | Throw e => (OutHandle (Throw e), slots)
      end
  | OpGet h expected => (OutObject (get h expected slots), slots)
  | OpGetAny h => (OutObject (get_any h slots), slots)
  | OpRemove h => let '(o, slots') := remove h slots in (OutObject o, slots')
  end.

Fixpoint handle_run (ops : list HandleOp) (slots : HandleTable A)
  : list HandleOut * HandleTable A :=
  match ops with
  | [] => ([], slots)
  | op :: rest =>
      let '(out, slots') := handle_step op slots in
      let '(outs, slots'') := handle_run rest slots' in
      (out :: outs, slots'')
  end.

Inductive spec_step : HandleOp -> HandleSpec -> HandleOut -> HandleSpec -> Prop :=
| SpecInsert s o h :
    h ∉ spec_issued s -> 0 < h < 2 ^ 32 ->
    spec_step (OpInsert (type_of o) (Some o)) s (OutHandle (Ok h))
      (mkHandleSpec (<[h := o]> (spec_live s)) ({[h]} ∪ spec_issued s))
| SpecInsertNull s type :
    spec_step (OpInsert type None) s (OutHandle (Throw invalid_argument)) s
| SpecInsertMistyped s type o :
    type_of o ≠ type ->
    spec_step (OpInsert type (Some o)) s (OutHandle (Throw invalid_argument)) s
| SpecInsertFull s o :
    kMaxSlots <= Z.of_nat (size (spec_issued s)) ->
    spec_step (OpInsert (type_of o) (Some o)) s (OutHandle (Throw bad_alloc)) s
| SpecGet s h expected :
    spec_step (OpGet h expected) s
      (OutObject (o ← spec_live s !! h;
                  if decide (type_of o = expected) then Some o else None)) s
| SpecGetAny s h :
    spec_step (OpGetAny h) s (OutObject (spec_live s !! h)) s
| SpecRemove s h :
    spec_step (OpRemove h) s (OutObject (spec_live s !! h))
      (mkHandleSpec (delete h (spec_live s)) (spec_issued s)).

Inductive spec_run : list HandleOp -> HandleSpec -> list HandleOut -> HandleSpec -> Prop :=
| SpecNil s : spec_run [] s [] s
| SpecCons op ops s out s' outs s'' :
    spec_step op s out s' -> spec_run ops s' outs s'' ->
    spec_run (op :: ops) s (out :: outs) s''.

End spec.
Arguments HandleSpec A : clear implicits.
Arguments HandleOp A : clear implicits.
Arguments HandleOut A : clear implicits.

(** ** The handle codec *)

Lemma encode_arith type g i :
  0 <= g < 2 ^ 12 -> 0 <= i < 2 ^ 16 ->
  encode type g i = ObjectType_code type * 2 ^ 28 + g * 2 ^ 16 + i.
Proof.
  intros Hg Hi. unfold encode, kTypeShift, kGenerationShift, u32.
  rewrite !Z.shiftl_mul_pow2 by lia.
  rewrite (Z.mod_small (ObjectType_code type * _)) by (destruct type; simpl; lia).
  rewrite (Z.mod_small (g * _)) by lia.
  rewrite <- (Z.shiftl_mul_pow2 (ObjectType_code type)) by lia.
  rewrite (lor_shiftl_add _ (g * 2 ^ 16) 28) by lia.
  replace (ObjectType_code type * 2 ^ 28 + g * 2 ^ 16)
    with ((ObjectType_code type * 2 ^ 12 + g) * 2 ^ 16) by lia.
  rewrite <- (Z.shiftl_mul_pow2 (_ + g)) by lia.
  rewrite lor_shiftl_add, Z.shiftl_mul_pow2 by lia. lia.
Qed.

Lemma decode_arith h :
  decode h =
    let t := (h / 2 ^ 28) mod 2 ^ 4 in
    let g := (h / 2 ^ 16) mod 2 ^ 12 in
    let i := h mod 2 ^ 16 in
    if (i =? 0) || (g =? 0) || (t <? 1) || (3 <? t)
    then None else Some (ObjectType_of_code t, g, i).
Proof.
  unfold decode, kTypeShift, kGenerationShift, kTypeMask, kGenerationMask.
  change 0x0F with (Z.ones 4). change 0x0FFF with (Z.ones 12).
  change 0xFFFF with (Z.ones 16).
  rewrite !field_extract, Z.land_ones by lia.
  unfold u8, u16.
  pose proof (Z.mod_pos_bound (h / 2 ^ 28) (2 ^ 4) ltac:(lia)).
  pose proof (Z.mod_pos_bound (h / 2 ^ 16) (2 ^ 12) ltac:(lia)).
  pose proof (Z.mod_pos_bound h (2 ^ 16) ltac:(lia)).
  by rewrite (Z.mod_small (_ mod 2 ^ 4)), (Z.mod_small (_ mod 2 ^ 12)),
    (Z.mod_small (h mod 2 ^ 16)) by lia.
Qed.

Lemma ObjectType_of_code_code t : ObjectType_of_code (ObjectType_code t) = t.
Proof. by destruct t. Qed.

Lemma ObjectType_code_of_code z :
  1 <= z <= 3 -> ObjectType_code (ObjectType_of_code z) = z.
Proof.
  intros Hz. unfold ObjectType_of_code.
  destruct (Z.eqb_spec z 1), (Z.eqb_spec z 2); simpl; lia.
Qed.

Lemma decode_encode type g i :
  1 <= g < 2 ^ 12 -> 1 <= i < 2 ^ 16 -> decode (encode type g i) = Some (type, g, i).
Proof.
  intros Hg Hi. rewrite encode_arith, decode_arith by lia. cbv zeta.
  set (h := _ + i).
  assert (1 <= ObjectType_code type <= 3) by (destruct type; simpl; lia).
  assert (h / 2 ^ 28 = ObjectType_code type) as -> by
    (symmetry; apply (Z.div_unique _ _ _ (g * 2 ^ 16 + i)); unfold h; lia).
  assert (h / 2 ^ 16 = ObjectType_code type * 2 ^ 12 + g) as -> by
    (symmetry; apply (Z.div_unique _ _ _ i); unfold h; lia).
  assert (h mod 2 ^ 16 = i) as -> by
    (symmetry; apply (Z.mod_unique _ _ (ObjectType_code type * 2 ^ 12 + g)); unfold h; lia).
  rewrite (Z.mod_small (ObjectType_code type)) by lia.
  replace (ObjectType_code type * 2 ^ 12 + g) with (g + ObjectType_code type * 2 ^ 12) by lia.
  rewrite Z.mod_add, (Z.mod_small g) by lia.
  rewrite ObjectType_of_code_code.
  repeat match goal with
  | |- context [?a =? ?b] => destruct (Z.eqb_spec a b); [lia|]
  | |- context [?a <? ?b] => destruct (Z.ltb_spec a b); [lia|]
  end. done.
Qed.

Lemma decode_Some h type g i :
  0 <= h < 2 ^ 32 -> decode h = Some (type, g, i) ->
  h = encode type g i /\ 1 <= g < 2 ^ 12 /\ 1 <= i < 2 ^ 16.
Proof.
  intros Hh. rewrite decode_arith. cbv zeta.
  pose proof (Z.mod_pos_bound (h / 2 ^ 28) (2 ^ 4) ltac:(lia)).
  pose proof (Z.mod_pos_bound (h / 2 ^ 16) (2 ^ 12) ltac:(lia)).
  pose proof (Z.mod_pos_bound h (2 ^ 16) ltac:(lia)).
  destruct (Z.eqb_spec (h mod 2 ^ 16) 0); [done|].
  destruct (Z.eqb_spec ((h / 2 ^ 16) mod 2 ^ 12) 0); [done|].
  destruct (Z.ltb_spec ((h / 2 ^ 28) mod 2 ^ 4) 1); [done|].
  destruct (Z.ltb_spec 3 ((h / 2 ^ 28) mod 2 ^ 4)); [done|].
  simpl. intros [= <- <- <-]. split; [|lia].
  rewrite encode_arith, ObjectType_code_of_code by lia.
  assert (h / 2 ^ 28 < 2 ^ 4) by (apply Z.div_lt_upper_bound; lia).
  rewrite (Z.mod_small (h / 2 ^ 28)) by (split; [apply Z.div_pos|]; lia).
  assert (h / 2 ^ 28 = h / 2 ^ 16 / 2 ^ 12) as -> by (by rewrite Z.div_div by lia).
  pose proof (Z.div_mod (h / 2 ^ 16) (2 ^ 12) ltac:(lia)).
  pose proof (Z.div_mod h (2 ^ 16) ltac:(lia)). lia.
Qed.

(** ** The simulation *)

Section refinement.
  Context {A : Type} (type_of : A -> ObjectType).
  Implicit Types (slots : HandleTable A) (s : HandleSpec A).

(** What [get_locked] reads of a slot for a decoded type and generation. *)
Definition slot_view (type : ObjectType) (generation : Z) (slot : Slot A) : option A :=
  if slot_retired slot || negb (bool_decide (slot_type slot = type))
     || negb (slot_generation slot =? generation)
  then None else slot_object slot.

Definition slot_ok (slot : Slot A) : Prop :=
  1 <= slot_generation slot <= kGenerationMask /\
  (forall o, slot_object slot = Some o ->
     type_of o = slot_type slot /\ slot_retired slot = false).

(** The generation [g] can no longer be handed out by this slot. *)
Definition generation_used (g : Z) (slot : Slot A) : Prop :=
  g < slot_generation slot \/
  g = slot_generation slot /\ (is_Some (slot_object slot) \/ slot_retired slot = true).

Definition handle_used (h : Z) slots : Prop :=
  exists type g i slot,
    decode h = Some (type, g, i) /\ slots !! Z.to_nat (i - 1) = Some slot /\
    generation_used g slot.

Record table_rel slots s : Prop := mkTableRel {
  rel_slots : Forall slot_ok slots;
  rel_length : Z.of_nat (length slots) <= kMaxSlots;
  rel_live : forall h, 0 <= h < 2 ^ 32 -> spec_live s !! h = get_any h slots;
  rel_issued : forall h, h ∈ spec_issued s -> handle_used h slots;
  rel_size : (length slots <= size (spec_issued s))%nat }.

Lemma get_locked_view h expected slots :
  get_locked h expected slots =
    '(type, g, i) ← decode h;
    if match expected with
       | Some e => negb (bool_decide (type = e)) | None => false end
    then None else slots !! Z.to_nat (i - 1) ≫= slot_view type g.
Proof.
  unfold get_locked. destruct (decode h) as [[[type g] i]|]; [|done]. simpl.
  case_match; [done|]. by destruct (slots !! _).
Qed.

Lemma get_any_view h slots :
  get_any h slots =
    '(type, g, i) ← decode h; slots !! Z.to_nat (i - 1) ≫= slot_view type g.
Proof. unfold get_any. by rewrite get_locked_view. Qed.

Lemma slot_view_Some type g slot o :
  slot_view type g slot = Some o ->
  slot_type slot = type /\ slot_generation slot = g /\ slot_object slot = Some o.
Proof.
  unfold slot_view. destruct (slot_retired slot); [done|]. simpl.
  case_bool_decide; [|done]. simpl.
  destruct (Z.eqb_spec (slot_generation slot) g); done.
Qed.

Lemma get_any_type slots h o :
  Forall slot_ok slots -> get_any h slots = Some o ->
  exists g i, decode h = Some (type_of o, g, i).
Proof.
  intros Hok. rewrite get_any_view. destruct (decode h) as [[[type g] i]|]; [|done].
  simpl. destruct (slots !! _) as [slot|] eqn:Hl; [|done]. simpl.
  intros (<- & <- & Ho)%slot_view_Some.
  destruct (Forall_lookup_1 _ _ _ _ Hok Hl) as [_ Hty].
  destruct (Hty o Ho) as [-> _]. eauto.
Qed.

(** [get] filters [get_any] by the object's type. *)
Lemma get_spec slots h expected :
  Forall slot_ok slots ->
  get h expected slots =
    (o ← get_any h slots; if decide (type_of o = expected) then Some o else None).
Proof.
  intros Hok. destruct (get_any h slots) as [o|] eqn:Hany; simpl.
  - destruct (get_any_type _ _ _ Hok Hany) as (g & i & Hd).
    rewrite get_any_view, Hd in Hany. simpl in Hany.
    unfold get. rewrite get_locked_view, Hd. simpl.
    case_bool_decide; case_decide; done.
  - unfold get. rewrite get_locked_view. rewrite get_any_view in Hany.
    destruct (decode h) as [[[type g] i]|]; [|done]. simpl in *.
    case_match; done.
Qed.

Lemma find_free_spec slots k index slot :
  find_free slots k = Some (index, slot) ->
  (k <= index)%nat /\ slots !! (index - k)%nat = Some slot /\
  slot_object slot = None /\ slot_retired slot = false.
Proof.
  revert k. induction slots as [|s0 slots IH]; intros k; simpl; [done|].
  destruct (slot_object s0) eqn:Ho; [|destruct (slot_retired s0) eqn:Hr].
  1,2: intros (Hle & Hl & ?)%IH; split; [lia|];
       replace (index - k)%nat with (S (index - S k)) by lia; done.
  intros [= <- <-]. rewrite Nat.sub_diag. done.
Qed.

(** [slots'] is [slots] with the slot at [index] set to [slot']: what both the
    recycling and the appending branch of [insert] do. *)
Definition slot_set (index : nat) (slot' : Slot A) slots slots' : Prop :=
  slots' !! index = Some slot' /\ forall j, j ≠ index -> slots' !! j = slots !! j.

Lemma slot_set_get_any index slot' slots slots' h :
  slot_set index slot' slots slots' ->
  get_any h slots' =
    '(type, g, i) ← decode h;
    if decide (Z.to_nat (i - 1) = index) then slot_view type g slot'
    else slots !! Z.to_nat (i - 1) ≫= slot_view type g.
Proof.
  intros [Hi Hj]. rewrite get_any_view. destruct (decode h) as [[[type g] i]|]; [|done].
  simpl. case_decide; subst; [by rewrite Hi | by rewrite Hj].
Qed.

Lemma slot_set_used index slot' slots slots' h :
  slot_set index slot' slots slots' ->
  (forall slot g, slots !! index = Some slot ->
     generation_used g slot -> generation_used g slot') ->
  handle_used h slots -> handle_used h slots'.
Proof.
  intros [Hi Hj] Hmono (type & g & i & sl & Hd & Hl & Hu).
  destruct (decide (Z.to_nat (i - 1) = index)) as [<-|Hne].
  - exists type, g, i, slot'. eauto.
  - exists type, g, i, sl. by rewrite Hj.
Qed.

Lemma slot_set_Forall index slot' slots slots' :
  slot_set index slot' slots slots' -> slot_ok slot' ->
  Forall slot_ok slots -> Forall slot_ok slots'.
Proof.
  intros [Hi Hj] Hok Hall. apply Forall_lookup. intros j sl Hl.
  destruct (decide (j = index)) as [->|Hne]; [by simplify_eq|].
  rewrite Hj in Hl by done. by eapply Forall_lookup_1.
Qed.

Lemma encode_range type g i :
  1 <= g <= kGenerationMask -> 1 <= i < 2 ^ 16 -> 0 < encode type g i < 2 ^ 32.
Proof.
  unfold kGenerationMask. intros. rewrite encode_arith by lia. destruct type; simpl; lia.
Qed.

(** A view of a filled slot: only the new generation sees the object. *)
Lemma view_new_slot (o : A) g0 g :
  slot_view (type_of o) g (mkSlot (Some o) g0 (type_of o) false) =
    if decide (g0 = g) then Some o else None.
Proof.
  unfold slot_view. simpl. rewrite bool_decide_true by done. simpl.
  destruct (Z.eqb_spec g0 g); case_decide; simpl; congruence.
Qed.

(** Reading any handle after filling the unused generation [g] of a slot. *)
Lemma get_any_fill slots slots' o index g h' :
  slot_set index (mkSlot (Some o) g (type_of o) false) slots slots' ->
  (forall sl, slots !! index = Some sl ->
     slot_object sl = None /\ slot_retired sl = false /\ slot_generation sl = g) ->
  decode (encode (type_of o) g (Z.of_nat index + 1)) =
    Some (type_of o, g, Z.of_nat index + 1) ->
  0 <= h' < 2 ^ 32 ->
  get_any h' slots' =
    if decide (h' = encode (type_of o) g (Z.of_nat index + 1))
    then Some o else get_any h' slots.
Proof.
  intros Hset Hfree Hd Hh'. rewrite (slot_set_get_any _ _ _ _ _ Hset). case_decide as Hhh.
  - subst h'. rewrite Hd. simpl. rewrite decide_True by lia.
    by rewrite view_new_slot, decide_True.
  - rewrite get_any_view. destruct (decode h') as [[[ty g'] i]|] eqn:Hd'; [|done]. simpl.
    case_decide as Hii; [|done]. subst index.
    destruct (decode_Some _ _ _ _ Hh' Hd') as (He & ? & ?).
    assert (slot_view ty g' (mkSlot (Some o) g (type_of o) false) = None) as ->.
    { unfold slot_view; simpl. case_bool_decide; simpl; [|done].
      destruct (Z.eqb_spec g g'); [|done]. subst ty g'.
      exfalso. apply Hhh. rewrite He. f_equal. lia. }
    destruct (slots !! Z.to_nat (i - 1)) as [sl|] eqn:Hl; [|done]. simpl.
    destruct (Hfree _ eq_refl) as (Ho & _). unfold slot_view. rewrite Ho. by case_match.
Qed.

(** Filling an unused generation of a slot issues a fresh handle for it. *)
Lemma rel_insert slots slots' s o index g :
  table_rel slots s ->
  1 <= g <= kGenerationMask -> Z.of_nat index < kMaxSlots ->
  slot_set index (mkSlot (Some o) g (type_of o) false) slots slots' ->
  (forall sl, slots !! index = Some sl ->
     slot_object sl = None /\ slot_retired sl = false /\ slot_generation sl = g) ->
  (length slots' <= S (length slots))%nat -> Z.of_nat (length slots') <= kMaxSlots ->
  let h := encode (type_of o) g (Z.of_nat index + 1) in
  (h ∉ spec_issued s) /\ 0 < h < 2 ^ 32 /\
  table_rel slots' (mkHandleSpec (<[h := o]> (spec_live s)) ({[h]} ∪ spec_issued s)).
Proof.
  intros Hrel Hg Hidx Hset Hfree Hlen Hmax h.
  assert (1 <= Z.of_nat index + 1 < 2 ^ 16) as Hi by (unfold kMaxSlots in Hidx; lia).
  assert (decode h = Some (type_of o, g, Z.of_nat index + 1)) as Hd
    by (apply decode_encode; unfold kGenerationMask in Hg; lia).
  assert (h ∉ spec_issued s) as Hfresh.
  { intros (ty & g' & i & sl & Hd' & Hl & Hu)%(rel_issued _ _ Hrel).
    rewrite Hd in Hd'. simplify_eq.
    rewrite Z.add_simpl_r, Nat2Z.id in Hl.
    destruct (Hfree _ Hl) as (Ho & Hr & Hgen).
    destruct Hu as [?|[_ [[? ?]|?]]]; [lia|congruence..]. }
  split; [done|]. split; [by apply encode_range|]. split.
  - eapply slot_set_Forall; [done| |apply Hrel]. split; [done|]. by intros ? [= ->].
  - done.
  - intros h' Hh'. simpl.
    rewrite (get_any_fill _ _ _ _ _ _ Hset Hfree Hd Hh'), lookup_insert.
    fold h. do 2 case_decide; subst; try done. by apply Hrel.
  - simpl. intros h' [->%elem_of_singleton|Hin]%elem_of_union.
    + exists (type_of o), g, (Z.of_nat index + 1), (mkSlot (Some o) g (type_of o) false).
      rewrite Z.add_simpl_r, Nat2Z.id. destruct Hset as [Hset _].
      split; [done|]. split; [done|]. right. split; [done|]. left. by exists o.
    + eapply slot_set_used; [done| |by apply Hrel].
      intros sl g' Hl. destruct (Hfree _ Hl) as (Ho & Hr & Hgen).
      unfold generation_used. simpl. intros [?|[? _]]; [left; lia | right; split; [congruence|left; by exists o]].
  - simpl. rewrite size_union, size_singleton by (by apply disjoint_singleton_l).
    pose proof (rel_size _ _ Hrel). lia.
Qed.

Lemma rel_init : table_rel [] spec_init.
Proof.
  split; simpl; [by apply Forall_nil|done| |by intros h ?%not_elem_of_empty|lia].
  intros h _. rewrite get_any_view. by destruct (decode h) as [[[? ?] ?]|].
Qed.

Lemma insert_refines slots s type object out slots' :
  table_rel slots s ->
  handle_step type_of (OpInsert type object) slots = (out, slots') ->
  exists s', spec_step type_of (OpInsert type object) s out s' /\ table_rel slots' s'.
Proof.
  intros Hrel. simpl. destruct object as [o|]; simpl;
    [|intros [= <- <-]; eauto using spec_step].
  case_decide as Hty; [subst type|intros [= <- <-]; eauto using spec_step].
  destruct (find_free slots 0) as [[index slot]|] eqn:Hff.
  - intros [= <- <-]. apply find_free_spec in Hff as (_ & Hl & Ho & Hr).
    rewrite Nat.sub_0_r in Hl. pose proof (lookup_lt_Some _ _ _ Hl) as Hlt.
    pose proof (rel_length _ _ Hrel).
    destruct (Forall_lookup_1 _ _ _ _ (rel_slots _ _ Hrel) Hl) as [Hg _].
    unfold u16. rewrite Z.mod_small by (unfold kMaxSlots in *; lia).
    destruct (rel_insert slots (<[index:=mkSlot (Some o) (slot_generation slot)
      (type_of o) (slot_retired slot)]> slots) s o index (slot_generation slot))
      as (Hf & Hrange & Hrel'); eauto using spec_step; try rewrite Hr.
    + lia.
    + split; [by apply list_lookup_insert_eq|].
      intros j Hj. by rewrite list_lookup_insert_ne.
    + intros sl Hsl. by simplify_eq.
    + rewrite length_insert. lia.
    + by rewrite length_insert.
  - destruct (Z.leb_spec kMaxSlots (Z.of_nat (length slots))) as [Hfull|Hroom]; intros [= <- <-].
    + eexists. split; [|done]. constructor. pose proof (rel_size _ _ Hrel). lia.
    + rewrite length_app. simpl. unfold u16.
      rewrite Z.mod_small by (unfold kMaxSlots in *; lia).
      replace (Z.of_nat (length slots + 1)) with (Z.of_nat (length slots) + 1) by lia.
      destruct (rel_insert slots (slots ++ [mkSlot (Some o) 1 (type_of o) false])
        s o (length slots) 1) as (Hf & Hrange & Hrel'); eauto using spec_step.
      * unfold kGenerationMask. lia.
      * split; [by rewrite lookup_app_r, Nat.sub_diag by lia|].
        intros j Hj. destruct (decide (j < length slots)%nat).
        -- by rewrite lookup_app_l.
        -- rewrite (lookup_ge_None_2 slots) by lia. apply lookup_ge_None_2.
           rewrite length_app. simpl. lia.
      * intros sl Hsl. apply lookup_lt_Some in Hsl. lia.
      * rewrite length_app. simpl. lia.
      * rewrite length_app. simpl. lia.
Qed.

(** Recycling the slot of a live handle. *)
Definition recycled (slot : Slot A) : Slot A :=
  if slot_generation slot =? kGenerationMask
  then mkSlot None (slot_generation slot) (slot_type slot) true
  else mkSlot None (u16 (slot_generation slot + 1)) (slot_type slot) (slot_retired slot).

Lemma recycled_object slot : slot_object (recycled slot) = None.
Proof. unfold recycled. by case_match. Qed.

Lemma recycled_ok slot : slot_ok slot -> slot_ok (recycled slot).
Proof.
  intros [Hg _]. unfold recycled.
  destruct (Z.eqb_spec (slot_generation slot) kGenerationMask); split; simpl; try done.
  unfold u16, kGenerationMask in *. rewrite Z.mod_small by lia. lia.
Qed.

Lemma recycled_used slot g :
  slot_ok slot -> generation_used g slot -> generation_used g (recycled slot).
Proof.
  intros [Hg _]. unfold generation_used, recycled.
  destruct (Z.eqb_spec (slot_generation slot) kGenerationMask); simpl.
  - intros [?|[? _]]; eauto.
  - unfold u16, kGenerationMask in *. rewrite Z.mod_small by lia.
    intros [?|[? _]]; left; lia.
Qed.

(** [remove] either misses and changes nothing, or recycles one slot. *)
Lemma remove_cases h slots :
  (get_any h slots = None /\ remove h slots = (None, slots)) \/
  exists type g i slot o,
    decode h = Some (type, g, i) /\ slots !! Z.to_nat (i - 1) = Some slot /\
    slot_view type g slot = Some o /\ get_any h slots = Some o /\
    exists slots', remove h slots = (Some o, slots') /\
      slot_set (Z.to_nat (i - 1)) (recycled slot) slots slots' /\
      length slots' = length slots.
Proof.
  unfold remove. fold (get_any h slots).
  destruct (get_any h slots) as [o|] eqn:Hany; [right|by left].
  pose proof Hany as Hv. rewrite get_any_view in Hv.
  destruct (decode h) as [[[type g] i]|]; [|done]. simpl in Hv.
  destruct (slots !! Z.to_nat (i - 1)) as [slot|] eqn:Hl; [|done]. simpl in Hv.
  exists type, g, i, slot, o. do 4 (split; [done|]).
  eexists. split; [done|]. split; [|apply length_alter]. split.
  - by rewrite list_lookup_alter_eq, Hl.
  - intros j Hj. by apply list_lookup_alter_ne.
Qed.

Lemma remove_refines slots s h out slots' :
  table_rel slots s -> 0 <= h < 2 ^ 32 ->
  handle_step type_of (OpRemove h) slots = (out, slots') ->
  exists s', spec_step type_of (OpRemove h) s out s' /\ table_rel slots' s'.
Proof.
  intros Hrel Hh. simpl.
  destruct (remove_cases h slots) as
    [[Hany ->]|(type & g & i & slot & o & Hd & Hl & Hv & Hany & slots1 & -> & Hset & Hlen)];
    intros [= <- <-]; rewrite <- Hany, <- (rel_live _ _ Hrel) by done;
    (eexists; split; [constructor|]).
  - split; simpl; try apply Hrel. intros h' Hh'. rewrite <- (rel_live _ _ Hrel) by done.
    rewrite lookup_delete. case_decide; [subst h'|done].
    by rewrite (rel_live _ _ Hrel).
  - pose proof (Forall_lookup_1 _ _ _ _ (rel_slots _ _ Hrel) Hl) as Hok.
    split; simpl.
    + eapply slot_set_Forall; [done|by apply recycled_ok|apply Hrel].
    + rewrite Hlen. apply Hrel.
    + intros h' Hh'. rewrite lookup_delete, (slot_set_get_any _ _ _ _ _ Hset).
      case_decide as Hhh.
      * subst h'. rewrite Hd. simpl. rewrite decide_True by done.
        unfold slot_view. rewrite recycled_object. by case_match.
      * rewrite (rel_live _ _ Hrel), get_any_view by done.
        destruct (decode h') as [[[ty g'] i']|] eqn:Hd'; [|done]. simpl.
        case_decide as Hii; [|done]. rewrite Hii, Hl. simpl.
        unfold slot_view at 2. rewrite recycled_object.
        destruct (slot_view ty g' slot) eqn:Hv'; [|by case_match].
        apply slot_view_Some in Hv as (? & ? & ?), Hv' as (? & ? & ?).
        destruct (decode_Some _ _ _ _ Hh Hd) as (-> & ? & ?).
        destruct (decode_Some _ _ _ _ Hh' Hd') as (-> & ? & ?).
        exfalso. apply Hhh. f_equal; [congruence..|lia].
    + intros h' Hin. eapply slot_set_used; [done| |by apply Hrel].
      intros sl g' Hsl. simplify_eq. by apply recycled_used.
    + rewrite Hlen. apply Hrel.
Qed.

Lemma handle_step_refines slots s op out slots' :
  table_rel slots s -> op_ok op -> handle_step type_of op slots = (out, slots') ->
  exists s', spec_step type_of op s out s' /\ table_rel slots' s'.
Proof.
  intros Hrel Hop. destruct op as [type object|h expected|h|h].
  - by apply insert_refines.
  - intros [= <- <-]. exists s. split; [|done].
    rewrite (get_spec _ _ _ (rel_slots _ _ Hrel)), <- (rel_live _ _ Hrel) by done.
    constructor.
  - intros [= <- <-]. exists s. split; [|done].
    rewrite <- (rel_live _ _ Hrel) by done. constructor.
  - by apply remove_refines.
Qed.

Lemma handle_run_refines slots s ops outs slots' :
  table_rel slots s -> Forall op_ok ops -> handle_run type_of ops slots = (outs, slots') ->
  exists s', spec_run type_of ops s outs s' /\ table_rel slots' s'.
Proof.
  intros Hrel Hops. revert slots s outs slots' Hrel.
  induction Hops as [|op ops Hop _ IH]; intros slots s outs slots' Hrel; simpl.
  { intros [= <- <-]. eauto using spec_run. }
  destruct (handle_step type_of op slots) as [out slots1] eqn:Hstep.
  destruct (handle_run type_of ops slots1) as [outs1 slots2] eqn:Hrun. intros [= <- <-].
  destruct (handle_step_refines _ _ _ _ _ Hrel Hop Hstep) as (s1 & Hs & Hrel1).
  destruct (IH _ _ _ _ Hrel1 Hrun) as (s2 & Hr & Hrel2).
  eauto using spec_run.
Qed.

(** In the specification an issued handle that is not live stays dead. *)
Lemma spec_run_dead ops s outs s' h :
  spec_run type_of ops s outs s' ->
  h ∈ spec_issued s -> spec_live s !! h = None ->
  h ∈ spec_issued s' /\ spec_live s' !! h = None.
Proof.
  induction 1 as [|op ops s out s1 outs s' Hstep _ IH]; [done|].
  intros Hin Hdead. apply IH; inversion Hstep; subst; simpl; try done.
  - apply elem_of_union. by right.
  - rewrite lookup_insert_ne; [done|]. by intros ->.
  - rewrite lookup_delete. by case_decide.
Qed.

(** A live handle has been issued. *)
Definition live_issued s : Prop :=
  forall h o, spec_live s !! h = Some o -> h ∈ spec_issued s.

Lemma spec_run_live_issued ops s outs s' :
  spec_run type_of ops s outs s' -> live_issued s -> live_issued s'.
Proof.
  induction 1 as [|op ops s out s1 outs s' Hstep _ IH]; [done|].
  intros Hli. apply IH. inversion Hstep; subst; try done; intros h' o'; simpl.
  - rewrite lookup_insert, elem_of_union, elem_of_singleton.
    case_decide; [by left|]. intros ?%Hli. by right.
  - rewrite lookup_delete. case_decide; [done|]. apply Hli.
Qed.

(** C1: the handle table implements the abstract specification: on every
    sequence of calls made from the empty table, its results are results the
    specification allows, where an insertion returns a handle that was never
    issued before, lookups return exactly the live object of the expected
    type, and insertion fails for lack of slots only after at least
    [kMaxSlots] handles have been issued. *)
Theorem handle_table_refines ops outs slots :
  Forall op_ok ops -> handle_run type_of ops [] = (outs, slots) ->
  exists s, spec_run type_of ops spec_init outs s /\
    forall h, 0 <= h < 2 ^ 32 -> get_any h slots = spec_live s !! h.
Proof.
  intros Hops Hrun.
  destruct (handle_run_refines _ _ _ _ _ (rel_init) Hops Hrun) as (s & Hs & Hrel).
  exists s. split; [done|]. intros h Hh. symmetry. by apply Hrel.
Qed.

(** A closed handle is never resurrected: once [remove] has taken a
    handle out of a table reached from the empty one, no later sequence of
    insertions, lookups and removals makes any lookup of it succeed, although
    its slot is recycled for new objects. *)
Theorem stale_handle_never_resolves ops outs slots h o slots1 ops' outs' slots' :
  Forall op_ok ops -> Forall op_ok ops' -> 0 <= h < 2 ^ 32 ->
  handle_run type_of ops [] = (outs, slots) ->
  remove h slots = (Some o, slots1) ->
  handle_run type_of ops' slots1 = (outs', slots') ->
  get_any h slots' = None /\ (forall expected, get h expected slots' = None) /\
  remove h slots' = (None, slots').
Proof.
  intros Hops Hops' Hh Hrun Hrm Hrun'.
  destruct (handle_run_refines _ _ _ _ _ rel_init Hops Hrun) as (s & Hs & Hrel).
  assert (live_issued spec_init) as Hli0 by (by intros ? ? ?).
  pose proof (spec_run_live_issued _ _ _ _ Hs Hli0) as Hli.
  assert (handle_step type_of (OpRemove h) slots = (OutObject (Some o), slots1)) as Hstep
    by (simpl; by rewrite Hrm).
  destruct (remove_refines _ _ _ _ _ Hrel Hh Hstep) as (s1 & Hs1 & Hrel1).
  assert (spec_live s !! h = Some o /\
    s1 = mkHandleSpec (delete h (spec_live s)) (spec_issued s)) as [Hlive ->]
    by (inversion Hs1; subst; split; congruence).
  destruct (handle_run_refines _ _ _ _ _ Hrel1 Hops' Hrun') as (s' & Hs' & Hrel').
  apply spec_run_dead with (h := h) in Hs' as [_ Hdead];
    [|simpl; by eapply Hli|simpl; by apply lookup_delete_eq].
  rewrite (rel_live _ _ Hrel') in Hdead by done.
  split; [done|]. split.
  - intros expected. by rewrite (get_spec _ _ _ (rel_slots _ _ Hrel')), Hdead.
  - by destruct (remove_cases h slots') as [[_ ?]|(? & ? & ? & ? & ? & ? & ? & ? & ? & _)];
      [|congruence].
Qed.
End refinement.

(** ** Witnesses *)

Lemma handle_table_refines_witness :
  exists outs slots s,
    handle_run id [OpInsert session (Some session); OpRemove 0x30010001;
                   OpInsert find_list (Some find_list); OpGetAny 0x30010001] []
      = (outs, slots) /\
    outs = [OutHandle (Ok 0x30010001); OutObject (Some session);
            OutHandle (Ok 0x20020001); OutObject None] /\
    spec_run id [OpInsert session (Some session); OpRemove 0x30010001;
                 OpInsert find_list (Some find_list); OpGetAny 0x30010001]
      spec_init outs s /\
    forall h, 0 <= h < 2 ^ 32 -> get_any h slots = spec_live s !! h.
Proof.
  destruct (handle_table_refines id
    [OpInsert session (Some session); OpRemove 0x30010001;
     OpInsert find_list (Some find_list); OpGetAny 0x30010001]
    [OutHandle (Ok 0x30010001); OutObject (Some session);
     OutHandle (Ok 0x20020001); OutObject None]
    [mkSlot (Some find_list) 2 find_list false]
    ltac:(repeat constructor; simpl; lia) eq_refl) as (s & Hs & Hl).
  eexists _, [mkSlot (Some find_list) 2 find_list false], s. split; [reflexivity|]. split; [reflexivity|].
  split; [exact Hs|exact Hl].
Defined.

Lemma stale_handle_never_resolves_witness :
  exists slots1 slots',
    remove 0x30010001 [mkSlot (Some session) 1 session false] =
      (Some session, slots1) /\
    snd (handle_run id [OpInsert session (Some session)] slots1) = slots' /\
    get_any 0x30010001 slots' = None.
Proof.
  exists [mkSlot None 2 session false], [mkSlot (Some session) 2 session false].
  split; [reflexivity|]. split; [reflexivity|].
  apply (stale_handle_never_resolves id
    [OpInsert session (Some session)] [OutHandle (Ok 0x30010001)]
    [mkSlot (Some session) 1 session false] 0x30010001 session
    [mkSlot None 2 session false]
    [OpInsert session (Some session)] [OutHandle (Ok 0x30020001)]).
  - repeat constructor.
  - repeat constructor.
  - lia.
  - reflexivity.
  - reflexivity.
  - reflexivity.
Defined.
