(* ===== verification/LockManager.v ===== *)
(** * The lock manager: [src/core/lock_manager.{h,cpp}]

    Resources are locked per canonical name, either exclusively by one
    session or shared by the sessions that present the access key.  The
    manager's mutex makes every member function one atomic step; only
    [acquire] gives the mutex up, while it waits on the condition variable,
    so its model takes the schedule of its wake-ups.  Functions that call
    [condition_.notify_all()] return whether they did. *)

From S2P Require Import Prelude Visa CText.

(** ** Data *)

Record LockState := mkLockState {
  ls_type : Z;
  ls_exclusive_owner : Z;
  ls_exclusive_depth : Z;
  ls_shared_key : str;
  ls_shared_owners : gmap Z Z }.

Definition empty_lock_state : LockState := mkLockState VI_NO_LOCK VI_NULL 0 [] ∅.

Record LockManager := mkLockManager {
  locks_ : gmap str LockState;
  next_key_id_ : Z }.

Definition new_lock_manager : LockManager := mkLockManager ∅ 1.

(** What a call of [acquire] asks for; [None] is the null key. *)
Record LockRequest := mkLockRequest {
  rq_owner : Z;
  rq_resource : str;
  rq_type : Z;
  rq_key : option str }.

(** ** Operations *)

Definition can_grant (state : LockState) (owner lock_type : Z)
    (requested_key : option str) : bool :=
  if ls_type state =? VI_NO_LOCK then true
  else if lock_type =? VI_EXCLUSIVE_LOCK then
    (ls_type state =? VI_EXCLUSIVE_LOCK) && (ls_exclusive_owner state =? owner)
  else if negb (ls_type state =? VI_SHARED_LOCK) then false
  else if bool_decide (is_Some (ls_shared_owners state !! owner)) then true
  else match requested_key with
       | Some key => bool_decide (ls_shared_key state = key)
       | None => false
       end.

Definition next_key (m : LockManager) : str * LockManager :=
  (lit "WRVISA-" ++ upper_hex (next_key_id_ m),
   mkLockManager (locks_ m) (u64 (next_key_id_ m + 1))).

Definition set_lock (resource : str) (state : LockState) (m : LockManager) : LockManager :=
  mkLockManager (<[resource := state]> (locks_ m)) (next_key_id_ m).

Definition erase_lock (resource : str) (m : LockManager) : LockManager :=
  mkLockManager (delete resource (locks_ m)) (next_key_id_ m).

(** The argument checks before the mutex is taken. *)
Definition acquire_check (rq : LockRequest) : option Z :=
  if negb (rq_type rq =? VI_EXCLUSIVE_LOCK) && negb (rq_type rq =? VI_SHARED_LOCK)
  then Some VI_ERROR_INV_LOCK_TYPE
  else if (rq_type rq =? VI_EXCLUSIVE_LOCK)
          && match rq_key rq with Some (_ :: _) => true | _ => false end
  then Some VI_ERROR_INV_ACCESS_KEY
  else None.

(** The lambda [grantable]; [done] is the result of a completed operation. *)
Definition grantable (rq : LockRequest) (done : option Z) (m : LockManager) : bool :=
  match done with
  | Some _ => true
  | None =>
      can_grant (default empty_lock_state (locks_ m !! rq_resource rq))
        (rq_owner rq) (rq_type rq) (rq_key rq)
  end.

(** The part of [acquire] after the wait: the status, the access key when one
    is assigned, and the manager. *)
Definition acquire_commit (rq : LockRequest) (done : option Z) (m : LockManager)
  : Z * option str * LockManager :=
  match done with
  | Some status => (status, None, m)
  | None =>
      let state := default empty_lock_state (locks_ m !! rq_resource rq) in
      if rq_type rq =? VI_EXCLUSIVE_LOCK then
        if ls_type state =? VI_EXCLUSIVE_LOCK then
          (VI_SUCCESS_NESTED_EXCLUSIVE, None,
           set_lock (rq_resource rq)
             (mkLockState (ls_type state) (ls_exclusive_owner state)
                (u32 (ls_exclusive_depth state + 1)) (ls_shared_key state)
                (ls_shared_owners state)) m)
        else
          (VI_SUCCESS, None,
           set_lock (rq_resource rq)
             (mkLockState VI_EXCLUSIVE_LOCK (rq_owner rq) 1 (ls_shared_key state)
                (ls_shared_owners state)) m)
      else if ls_type state =? VI_SHARED_LOCK then
        let depth := default 0 (ls_shared_owners state !! rq_owner rq) in
        let nested := negb (depth =? 0) in
        (if nested then VI_SUCCESS_NESTED_SHARED else VI_SUCCESS,
         Some (ls_shared_key state),
         set_lock (rq_resource rq)
           (mkLockState (ls_type state) (ls_exclusive_owner state)
              (ls_exclusive_depth state) (ls_shared_key state)
              (<[rq_owner rq := u32 (depth + 1)]> (ls_shared_owners state))) m)
      else
        let '(key, m1) := next_key m in
        (VI_SUCCESS, Some key,
         set_lock (rq_resource rq)
           (mkLockState VI_SHARED_LOCK (ls_exclusive_owner state)
              (ls_exclusive_depth state) key
              (<[rq_owner rq := 1]> (ls_shared_owners state))) m1)
  end.

(** One evaluation of the predicate: first when [acquire] has taken the mutex,
    then at each return of the wait on [condition_], notified, spurious, or
    because the deadline [expired]; with the manager and the operation's result
    as the other threads have left them. *)
Record evaluation := mkEvaluation {
  ev_expired : bool;
  ev_manager : LockManager;
  ev_done : option Z }.

(** [Waiting] is a call still blocked when the schedule ends. *)
Inductive acquire_outcome :=
| Waiting
| Returned (status : Z) (key : option str) (m : LockManager).

Definition returned (x : Z * option str * LockManager) : acquire_outcome :=
  let '(status, key, m) := x in Returned status key m.

(** The [while (!grantable())] loop; an infinite timeout never expires. *)
Fixpoint acquire_wait (timeout : Z) (rq : LockRequest) (schedule : list evaluation)
  : acquire_outcome :=
  match schedule with
  | [] => Waiting
  | ev :: rest =>
      if grantable rq (ev_done ev) (ev_manager ev)
      then returned (acquire_commit rq (ev_done ev) (ev_manager ev))
      else if ev_expired ev && negb (timeout =? VI_TMO_INFINITE)
      then Returned VI_ERROR_TMO None (ev_manager ev)
      else acquire_wait timeout rq rest
  end.

Definition acquire (timeout : Z) (rq : LockRequest) (done : option Z)
    (m : LockManager) (wakeups : list evaluation) : acquire_outcome :=
  match acquire_check rq with
  | Some status => Returned status None m
  | None => acquire_wait timeout rq (mkEvaluation false m done :: wakeups)
  end.

(** The status, the manager, and whether waiters were notified. *)
Definition release (owner : Z) (resource : str) (m : LockManager)
  : Z * LockManager * bool :=
  match locks_ m !! resource with
  | None => (VI_ERROR_SESN_NLOCKED, m, false)
  | Some state =>
      if (ls_type state =? VI_EXCLUSIVE_LOCK) && (ls_exclusive_owner state =? owner) then
        let depth := u32 (ls_exclusive_depth state - 1) in
        if depth =? 0 then (VI_SUCCESS, erase_lock resource m, true)
        else (VI_SUCCESS,
              set_lock resource
                (mkLockState (ls_type state) (ls_exclusive_owner state) depth
                   (ls_shared_key state) (ls_shared_owners state)) m, false)
      else if ls_type state =? VI_SHARED_LOCK then
        match ls_shared_owners state !! owner with
        | Some d =>
            let depth := u32 (d - 1) in
            let owners :=
              if depth =? 0 then delete owner (ls_shared_owners state)
              else <[owner := depth]> (ls_shared_owners state) in
            if decide (owners = ∅) then (VI_SUCCESS, erase_lock resource m, true)
            else (VI_SUCCESS,
                  set_lock resource
                    (mkLockState (ls_type state) (ls_exclusive_owner state)
                       (ls_exclusive_depth state) (ls_shared_key state) owners) m, false)
        | None => (VI_ERROR_SESN_NLOCKED, m, false)
        end
      else (VI_ERROR_SESN_NLOCKED, m, false)
  end.

Definition release_all (owner : Z) (resource : str) (m : LockManager)
  : LockManager * bool :=
  match locks_ m !! resource with
  | None => (m, false)
  | Some state =>
      if (ls_type state =? VI_EXCLUSIVE_LOCK) && (ls_exclusive_owner state =? owner)
      then (erase_lock resource m, true)
      else if ls_type state =? VI_SHARED_LOCK then
        let changed := bool_decide (is_Some (ls_shared_owners state !! owner)) in
        let owners := delete owner (ls_shared_owners state) in
        (if decide (owners = ∅) then erase_lock resource m
         else set_lock resource
                (mkLockState (ls_type state) (ls_exclusive_owner state)
                   (ls_exclusive_depth state) (ls_shared_key state) owners) m,
         changed)
      else (m, false)
  end.

Definition can_access (owner : Z) (resource : str) (m : LockManager) : bool :=
  match locks_ m !! resource with
  | None => true
  | Some state =>
      if ls_type state =? VI_EXCLUSIVE_LOCK then ls_exclusive_owner state =? owner
      else bool_decide (is_Some (ls_shared_owners state !! owner))
  end.

Definition owned_lock_type (owner : Z) (resource : str) (m : LockManager) : Z :=
  match locks_ m !! resource with
  | None => VI_NO_LOCK
  | Some state =>
      if (ls_type state =? VI_EXCLUSIVE_LOCK) && (ls_exclusive_owner state =? owner)
      then VI_EXCLUSIVE_LOCK
      else if (ls_type state =? VI_SHARED_LOCK)
              && bool_decide (is_Some (ls_shared_owners state !! owner))
      then VI_SHARED_LOCK
      else VI_NO_LOCK
  end.

Definition owned_lock_depth (owner : Z) (resource : str) (m : LockManager) : Z :=
  match locks_ m !! resource with
  | None => 0
  | Some state =>
      if (ls_type state =? VI_EXCLUSIVE_LOCK) && (ls_exclusive_owner state =? owner)
      then ls_exclusive_depth state
      else if ls_type state =? VI_SHARED_LOCK
      then default 0 (ls_shared_owners state !! owner)
      else 0
  end.

(** ** Traces of calls *)

Inductive lock_op :=
| LAcquire (rq : LockRequest)
| LRelease (owner : Z) (resource : str)
| LReleaseAll (owner : Z) (resource : str).

(** The outcome of one call made when the manager is [m]: its status ([None]
    for an [acquire] that has to wait, and for [release_all]) and the
    manager.  An [acquire] that waits changes nothing until it is granted,
    which is a later call of the trace. *)
Definition lock_step (op : lock_op) (m : LockManager) : option Z * LockManager :=
  match op with
  | LAcquire rq =>
      match acquire_check rq with
      | Some status => (Some status, m)
      | None =>
          if grantable rq None m then
            let '(status, _, m') := acquire_commit rq None m in (Some status, m')
          else (None, m)
      end
  | LRelease owner resource =>
      let '(status, m', _) := release owner resource m in (Some status, m')
  | LReleaseAll owner resource => (None, (release_all owner resource m).1)
  end.

(** The trace of calls with their statuses, most recent first. *)
Inductive lock_trace : list (lock_op * option Z) -> LockManager -> Prop :=
| TraceNil : lock_trace [] new_lock_manager
| TraceCons op status tr m m' :
    lock_trace tr m -> lock_step op m = (status, m') ->
    lock_trace ((op, status) :: tr) m'.

Definition succeeded (status : option Z) : bool :=
  match status with Some s => negb (is_error s) | None => false end.

(** The number of times [owner] has acquired [resource] and not released it. *)
Fixpoint ledger (owner : Z) (resource : str) (tr : list (lock_op * option Z)) : Z :=
  match tr with
  | [] => 0
  | (op, status) :: rest =>
      let d := ledger owner resource rest in
      match op with
      | LAcquire rq =>
          if bool_decide (rq_owner rq = owner /\ rq_resource rq = resource)
             && succeeded status then d + 1 else d
      | LRelease o r =>
          if bool_decide (o = owner /\ r = resource) && succeeded status
          then d - 1 else d
      | LReleaseAll o r => if bool_decide (o = owner /\ r = resource) then 0 else d
      end
  end.

(** ** The state of one resource *)

(** A missing entry reads as the default [LockState]. *)
Definition state_of (resource : str) (m : LockManager) : LockState :=
  default empty_lock_state (locks_ m !! resource).

Definition state_depth (owner : Z) (state : LockState) : Z :=
  if (ls_type state =? VI_EXCLUSIVE_LOCK) && (ls_exclusive_owner state =? owner)
  then ls_exclusive_depth state
  else if ls_type state =? VI_SHARED_LOCK
  then default 0 (ls_shared_owners state !! owner)
  else 0.

(** A well-formed entry whose depths are at most [n]: exclusive with no
    sharers, or shared by at least one session. *)
Inductive state_ok (n : Z) : LockState -> Prop :=
| ExclusiveOk owner depth key :
    0 < depth <= n -> state_ok n (mkLockState VI_EXCLUSIVE_LOCK owner depth key ∅)
| SharedOk owner depth key owners :
    owners ≠ ∅ -> map_Forall (fun _ d => 0 < d <= n) owners ->
    state_ok n (mkLockState VI_SHARED_LOCK owner depth key owners).

Definition manager_ok (n : Z) (m : LockManager) : Prop :=
  map_Forall (fun _ => state_ok n) (locks_ m).

Create HintDb wrlock.
Create Rewrite HintDb wrlockrw.

Lemma owned_lock_depth_state o r m :
  owned_lock_depth o r m = state_depth o (state_of r m).
Proof. unfold owned_lock_depth, state_of. by destruct (locks_ m !! r). Qed.

Lemma state_of_set r r' st m :
  state_of r (set_lock r' st m) = if decide (r' = r) then st else state_of r m.
Proof.
  unfold state_of, set_lock. simpl. rewrite lookup_insert. by case_decide.
Qed.

Lemma state_of_erase r r' m :
  state_of r (erase_lock r' m) =
    if decide (r' = r) then empty_lock_state else state_of r m.
Proof.
  unfold state_of, erase_lock. simpl. rewrite lookup_delete. by case_decide.
Qed.
#[export] Hint Rewrite owned_lock_depth_state state_of_set state_of_erase : wrlockrw.

Lemma manager_ok_lookup n m r st :
  manager_ok n m -> locks_ m !! r = Some st -> state_ok n st.
Proof. intros Hok Hl. exact (Hok r st Hl). Qed.

Lemma manager_ok_state n m r :
  manager_ok n m -> state_of r m = empty_lock_state \/ state_ok n (state_of r m).
Proof.
  intros Hok. unfold state_of. destruct (locks_ m !! r) eqn:Hl; simpl; [right|by left].
  by eapply manager_ok_lookup.
Qed.

Lemma manager_ok_set n m r st :
  manager_ok n m -> state_ok n st -> manager_ok n (set_lock r st m).
Proof. intros. by apply map_Forall_insert_2. Qed.

Lemma manager_ok_erase n m r : manager_ok n m -> manager_ok n (erase_lock r m).
Proof. intros. by apply map_Forall_delete. Qed.

Lemma state_ok_mono n n' st : n <= n' -> state_ok n st -> state_ok n' st.
Proof.
  intros Hle [owner depth key Hd|owner depth key owners Hne Hall]; constructor; auto; [lia|].
  eapply map_Forall_impl; [exact Hall|]. simpl. lia.
Qed.

Lemma manager_ok_mono n n' m : n <= n' -> manager_ok n m -> manager_ok n' m.
Proof. intros Hle Hok r st Hl. eapply state_ok_mono; eauto. Qed.
#[export] Hint Resolve manager_ok_set manager_ok_erase : wrlock.

Ltac lock_consts :=
  unfold VI_EXCLUSIVE_LOCK, VI_SHARED_LOCK, VI_NO_LOCK, VI_NULL in *.

Lemma u32_small z : 0 <= z < 2 ^ 32 -> u32 z = z.
Proof. apply Z.mod_small. Qed.

(** How a call may change the depths: only [owner]'s on [resource]. *)
Definition depth_update (owner : Z) (resource : str) (depth : Z) (m m' : LockManager) : Prop :=
  owned_lock_depth owner resource m' = depth /\
  forall o r, (o, r) ≠ (owner, resource) ->
    owned_lock_depth o r m' = owned_lock_depth o r m.

Lemma depth_update_set owner resource depth st m :
  state_depth owner st = depth ->
  (forall o, o ≠ owner -> state_depth o st = state_depth o (state_of resource m)) ->
  depth_update owner resource depth m (set_lock resource st m).
Proof.
  intros Hd Ho. split; autorewrite with wrlockrw; [by rewrite decide_True|].
  intros o r Hne. autorewrite with wrlockrw. case_decide; [subst|done].
  apply Ho. congruence.
Qed.

Lemma depth_update_erase owner resource m :
  (forall o, o ≠ owner -> state_depth o (state_of resource m) = 0) ->
  depth_update owner resource 0 m (erase_lock resource m).
Proof.
  intros Ho. split; autorewrite with wrlockrw; [by rewrite decide_True|].
  intros o r Hne. autorewrite with wrlockrw. case_decide; [subst|done].
  symmetry. apply Ho. congruence.
Qed.

Lemma state_depth_exclusive o owner depth key owners :
  state_depth o (mkLockState VI_EXCLUSIVE_LOCK owner depth key owners) =
    if owner =? o then depth else 0.
Proof. unfold state_depth. simpl. by destruct (owner =? o). Qed.

Lemma state_depth_shared o owner depth key owners :
  state_depth o (mkLockState VI_SHARED_LOCK owner depth key owners) =
    default 0 (owners !! o).
Proof. done. Qed.
#[export] Hint Rewrite state_depth_exclusive state_depth_shared : wrlockrw.

Lemma acquire_check_None rq :
  acquire_check rq = None ->
  rq_type rq = VI_EXCLUSIVE_LOCK \/ rq_type rq = VI_SHARED_LOCK.
Proof.
  unfold acquire_check.
  destruct (Z.eqb_spec (rq_type rq) VI_EXCLUSIVE_LOCK); [by left|]. simpl.
  destruct (Z.eqb_spec (rq_type rq) VI_SHARED_LOCK); [by right|done].
Qed.

(** The three ways a lock is granted: a free resource, one more level of the
    caller's exclusive lock, or one more level or sharer of a shared lock. *)
Lemma grantable_cases n rq m :
  manager_ok n m -> acquire_check rq = None -> grantable rq None m = true ->
  state_of (rq_resource rq) m = empty_lock_state \/
  (rq_type rq = VI_EXCLUSIVE_LOCK /\ exists depth key, 0 < depth <= n /\
     state_of (rq_resource rq) m =
       mkLockState VI_EXCLUSIVE_LOCK (rq_owner rq) depth key ∅) \/
  (rq_type rq = VI_SHARED_LOCK /\ exists o d key owners,
     map_Forall (fun _ d => 0 < d <= n) owners /\
     (is_Some (owners !! rq_owner rq) \/ rq_key rq = Some key) /\
     state_of (rq_resource rq) m = mkLockState VI_SHARED_LOCK o d key owners).
Proof.
  intros Hok Hchk. unfold grantable. fold (state_of (rq_resource rq) m).
  destruct (manager_ok_state n m (rq_resource rq) Hok) as [->|Hst]; [by left|].
  inversion Hst as [ow depth k Hd Heq|ow depth k owners Hne Hall Heq];
    unfold can_grant; simpl; intros Hg; right;
    destruct (acquire_check_None _ Hchk) as [Ht|Ht]; rewrite Ht in Hg; try done; simpl in Hg.
  - left. apply Z.eqb_eq in Hg. subst ow. eauto 6.
  - right. split; [done|]. exists ow, depth, k, owners. split; [done|]. split; [|done].
    case_bool_decide; [by left|]. right.
    destruct (rq_key rq) as [key|]; [|done]. case_bool_decide; congruence.
Qed.

Lemma default_depth_range (n : Z) (owners : gmap Z Z) o :
  0 <= n -> map_Forall (fun _ d => 0 < d <= n) owners ->
  0 <= default 0 (owners !! o) <= n.
Proof.
  intros Hn Hall. destruct (owners !! o) as [d|] eqn:Hl; simpl; [|lia].
  pose proof (Hall _ _ Hl). simpl in *. lia.
Qed.

(** A granted [acquire] deepens exactly the caller's lock. *)
Lemma acquire_commit_spec n rq m status key m' :
  manager_ok n m -> 0 <= n -> n + 1 < 2 ^ 32 ->
  acquire_check rq = None -> grantable rq None m = true ->
  acquire_commit rq None m = (status, key, m') ->
  VI_SUCCESS <= status /\ manager_ok (n + 1) m' /\
  depth_update (rq_owner rq) (rq_resource rq)
    (owned_lock_depth (rq_owner rq) (rq_resource rq) m + 1) m m'.
Proof.
  intros Hok Hn Hn1 Hchk Hgr. pose proof (manager_ok_mono n (n + 1) m ltac:(lia) Hok) as Hok1.
  unfold acquire_commit. fold (state_of (rq_resource rq) m).
  rewrite owned_lock_depth_state.
  destruct (grantable_cases n rq m Hok Hchk Hgr)
    as [Hst|[(-> & depth & k & Hd & Hst)|(-> & o & d & k & owners & Hall & _ & Hst)]].
  - rewrite Hst. simpl. destruct (acquire_check_None _ Hchk) as [-> | ->]; simpl;
      intros [= <- <- <-]; (split; [done|]); split.
    + apply manager_ok_set; [done|]. constructor. lia.
    + apply depth_update_set; [|rewrite Hst; intros o Ho]; rewrite state_depth_exclusive;
        [by rewrite Z.eqb_refl|by destruct (Z.eqb_spec (rq_owner rq) o)].
    + apply (manager_ok_set _ (next_key m).2); [done|].
      constructor; [apply insert_non_empty|].
      apply map_Forall_insert_2; [lia|]. apply map_Forall_empty.
    + apply (depth_update_set _ _ _ _ (next_key m).2); [|intros o Ho];
        rewrite state_depth_shared; [by rewrite lookup_insert_eq|].
      rewrite lookup_insert_ne by done. by change (state_of ?r (next_key m).2) with (state_of r m);
        rewrite Hst.
  - rewrite Hst. simpl. intros [= <- <- <-]. split; [done|].
    rewrite u32_small by lia. split; [apply manager_ok_set; [done|]; constructor; lia|].
    apply depth_update_set; [|intros o Ho; rewrite Hst];
      rewrite !state_depth_exclusive; [by rewrite Z.eqb_refl|].
    destruct (Z.eqb_spec (rq_owner rq) o); congruence.
  - rewrite Hst. simpl. intros [= <- <- <-]. split; [by case_match|].
    pose proof (default_depth_range n owners (rq_owner rq) Hn Hall).
    rewrite u32_small by lia. split.
    + apply manager_ok_set; [done|]. constructor; [apply insert_non_empty|].
      apply map_Forall_insert_2; [lia|]. eapply map_Forall_impl; [exact Hall|]. simpl. lia.
    + apply depth_update_set; [|intros o' Ho; rewrite Hst]; rewrite !state_depth_shared;
        [by rewrite lookup_insert_eq|by rewrite lookup_insert_ne].
Qed.

Lemma depth_delete (owners : gmap Z Z) o o' :
  default 0 (delete o owners !! o') = if decide (o = o') then 0 else default 0 (owners !! o').
Proof. rewrite lookup_delete. by case_decide. Qed.

(** [release] gives back one level, or fails and changes nothing. *)
Lemma release_spec n owner resource m status m' notified :
  manager_ok n m -> n < 2 ^ 32 ->
  release owner resource m = (status, m', notified) ->
  manager_ok n m' /\
  ((status = VI_SUCCESS /\ 0 < owned_lock_depth owner resource m /\
    depth_update owner resource (owned_lock_depth owner resource m - 1) m m') \/
   (status = VI_ERROR_SESN_NLOCKED /\ m' = m /\ notified = false /\
    owned_lock_depth owner resource m = 0)).
Proof.
  intros Hok Hn. unfold release. rewrite owned_lock_depth_state.
  assert (state_of resource m = default empty_lock_state (locks_ m !! resource)) as Hst by done.
  destruct (locks_ m !! resource) as [st|] eqn:Hl; simpl in Hst; rewrite Hst;
    [|intros [= <- <- <-]; split; [done|by right]].
  destruct (manager_ok_lookup _ _ _ _ Hok Hl)
    as [ow depth key Hd|ow depth key owners Hne Hall]; simpl.
  - rewrite state_depth_exclusive. destruct (Z.eqb_spec ow owner) as [->|Hno];
      [|intros [= <- <- <-]; split; [done|by right]].
    rewrite u32_small by lia. destruct (Z.eqb_spec (depth - 1) 0); intros [= <- <- <-].
    + split; [eauto with wrlock|]. left. do 2 (split; [done|| lia|]).
      replace (depth - 1) with 0 by lia. apply depth_update_erase. intros o Ho.
      rewrite Hst, state_depth_exclusive. destruct (Z.eqb_spec owner o); congruence.
    + split; [apply manager_ok_set; [done|]; constructor; lia|].
      left. do 2 (split; [done|| lia|]). apply depth_update_set; [|intros o Ho; rewrite Hst];
        rewrite !state_depth_exclusive; [by rewrite Z.eqb_refl|].
      destruct (Z.eqb_spec owner o); congruence.
  - rewrite state_depth_shared. destruct (owners !! owner) as [d|] eqn:Ho; simpl;
      [|intros [= <- <- <-]; split; [done|by right]].
    pose proof (Hall _ _ Ho) as Hd. simpl in Hd. rewrite u32_small by lia.
    set (owners' := if d - 1 =? 0 then _ else _).
    assert (forall o, default 0 (owners' !! o) =
              if decide (owner = o) then d - 1 else default 0 (owners !! o)) as Hlook.
    { intros o. subst owners'. destruct (Z.eqb_spec (d - 1) 0) as [Hz|Hz].
      - rewrite depth_delete, Hz. done.
      - rewrite lookup_insert. by case_decide. }
    case_decide as Hempty; intros [= <- <- <-].
    + split; [eauto with wrlock|]. left. do 2 (split; [done|| lia|]).
      assert (d - 1 = 0) as -> by
        (specialize (Hlook owner); rewrite Hempty, decide_True in Hlook by done; done).
      apply depth_update_erase. intros o Hno. rewrite Hst, state_depth_shared.
      specialize (Hlook o). rewrite Hempty, decide_False in Hlook by congruence. done.
    + split.
      { apply manager_ok_set; [done|]. constructor; [done|]. subst owners'.
        case_match; [by apply map_Forall_delete|].
        apply map_Forall_insert_2; [|done]. destruct (Z.eqb_spec (d - 1) 0); [done|lia]. }
      left. do 2 (split; [done|| lia|]).
      apply depth_update_set; [|intros o Hno; rewrite Hst]; rewrite !state_depth_shared, Hlook;
        [by rewrite decide_True|by rewrite decide_False by congruence].
Qed.

Lemma depth_update_id owner resource m :
  depth_update owner resource (owned_lock_depth owner resource m) m m.
Proof. by split. Qed.

Lemma release_all_spec n owner resource m m' notified :
  manager_ok n m -> release_all owner resource m = (m', notified) ->
  manager_ok n m' /\ depth_update owner resource 0 m m'.
Proof.
  intros Hok. unfold release_all.
  assert (state_of resource m = default empty_lock_state (locks_ m !! resource)) as Hst by done.
  assert (state_depth owner (state_of resource m) = 0 -> depth_update owner resource 0 m m)
    as Hsame by (intros Hz; rewrite <- Hz at 1; rewrite <- owned_lock_depth_state;
                 apply depth_update_id).
  destruct (locks_ m !! resource) as [st|] eqn:Hl; simpl in Hst;
    [|intros [= <- <-]; rewrite Hst in Hsame; eauto].
  destruct (manager_ok_lookup _ _ _ _ Hok Hl)
    as [ow depth key Hd|ow depth key owners Hne Hall]; simpl; rewrite Hst in Hsame.
  - rewrite state_depth_exclusive in Hsame.
    destruct (Z.eqb_spec ow owner) as [->|Hno]; intros [= <- <-]; [|eauto].
    split; [eauto with wrlock|]. apply depth_update_erase. intros o Ho.
    rewrite Hst, state_depth_exclusive. destruct (Z.eqb_spec owner o); congruence.
  - case_decide as Hempty; intros [= <- <-].
    + split; [eauto with wrlock|]. apply depth_update_erase. intros o Ho.
      rewrite Hst, state_depth_shared.
      pose proof (depth_delete owners owner o) as Hdel.
      rewrite Hempty, decide_False in Hdel by congruence. done.
    + split; [apply manager_ok_set; [done|]; constructor; [done|by apply map_Forall_delete]|].
      apply depth_update_set; [|intros o Ho; rewrite Hst]; rewrite !state_depth_shared, depth_delete;
        [by rewrite decide_True|by rewrite decide_False by congruence].
Qed.

(** ** Traces from the empty manager *)

Lemma manager_ok_new n : manager_ok n new_lock_manager.
Proof. apply map_Forall_empty. Qed.

Lemma depth_update_ledger owner resource o r d m m' :
  depth_update owner resource d m m' ->
  owned_lock_depth o r m' =
    if bool_decide (owner = o /\ resource = r) then d else owned_lock_depth o r m.
Proof.
  intros [Hd Ho]. case_bool_decide as Hb; [by destruct Hb; subst|].
  apply Ho. intros [= -> ->]. tauto.
Qed.

Lemma acquire_check_error rq status : acquire_check rq = Some status -> is_error status = true.
Proof. unfold acquire_check. repeat case_match; intros [= <-]; done. Qed.

Lemma lock_trace_inv tr m :
  lock_trace tr m -> Z.of_nat (length tr) < 2 ^ 32 ->
  manager_ok (Z.of_nat (length tr)) m /\
  forall owner resource, owned_lock_depth owner resource m = ledger owner resource tr.
Proof.
  induction 1 as [|op status tr m m' _ IH Hstep]; intros Hlen.
  { split; [apply manager_ok_new|]. intros o r. by autorewrite with wrlockrw. }
  simpl length in *. destruct IH as [Hok Hled]; [lia|].
  pose proof (manager_ok_mono (Z.of_nat (length tr)) (Z.of_nat (S (length tr))) m
    ltac:(lia) Hok) as Hok1.
  rewrite Nat2Z.inj_succ in *.
  destruct op as [rq|owner resource|owner resource]; cbn [lock_step] in Hstep.
  - destruct (acquire_check rq) as [e|] eqn:Hchk.
    { injection Hstep as <- <-. split; [done|]. intros o r. simpl.
      rewrite (acquire_check_error _ _ Hchk), andb_false_r. apply Hled. }
    destruct (grantable rq None m) eqn:Hgr.
    2: { injection Hstep as <- <-. split; [done|]. intros o r. simpl.
         rewrite andb_false_r. apply Hled. }
    destruct (acquire_commit rq None m) as [[st key] m1] eqn:Hc. injection Hstep as <- <-.
    destruct (acquire_commit_spec (Z.of_nat (length tr)) rq m st key m1 Hok
      ltac:(lia) ltac:(lia) Hchk Hgr Hc)
      as (Hst & Hok' & Hupd).
    split; [by rewrite <- Z.add_1_r|]. intros o r. simpl.
    assert (is_error st = false) as -> by (apply Z.ltb_ge; done).
    rewrite andb_true_r, (depth_update_ledger _ _ _ _ _ _ _ Hupd), !Hled.
    case_bool_decide as Hb; [|done]. by destruct Hb as [-> ->].
  - destruct (release owner resource m) as [[st m1] nt] eqn:Hr. injection Hstep as <- <-.
    destruct (release_spec (Z.succ (Z.of_nat (length tr))) owner resource m st m1 nt
      Hok1 ltac:(lia) Hr)
      as (Hok' & [(-> & Hpos & Hupd)|(-> & -> & _ & Hz)]); (split; [done|]); intros o r; simpl.
    + rewrite andb_true_r, (depth_update_ledger _ _ _ _ _ _ _ Hupd), !Hled.
      case_bool_decide as Hb; [|done]. by destruct Hb as [-> ->].
    + rewrite andb_false_r. apply Hled.
  - injection Hstep as <- <-.
    destruct (release_all owner resource m) as [m1 nt] eqn:Hr.
    destruct (release_all_spec _ _ _ _ _ _ Hok1 Hr) as (Hok' & Hupd).
    split; [done|]. intros o r. simpl.
    rewrite (depth_update_ledger _ _ _ _ _ _ _ Hupd), Hled. done.
Qed.

Lemma ledger_nonneg tr m owner resource :
  lock_trace tr m -> Z.of_nat (length tr) < 2 ^ 32 -> 0 <= ledger owner resource tr.
Proof.
  intros Htr Hlen. destruct (lock_trace_inv _ _ Htr Hlen) as [Hok Hled].
  rewrite <- Hled. autorewrite with wrlockrw.
  destruct (manager_ok_state _ _ resource Hok) as [-> |[ow d k ?|ow d k owners ? Hall]]; [done|..];
    autorewrite with wrlockrw; [case_match; lia|].
  eapply default_depth_range; [|exact Hall]. lia.
Qed.

(** Reading the predicates off a well-formed entry. *)
Lemma access_state n resource m :
  manager_ok n m ->
  (state_of resource m = empty_lock_state /\ locks_ m !! resource = None) \/
  (locks_ m !! resource = Some (state_of resource m) /\ state_ok n (state_of resource m)).
Proof.
  intros Hok. unfold state_of. destruct (locks_ m !! resource) eqn:Hl; simpl; [right|by left].
  split; [done|]. by eapply manager_ok_lookup.
Qed.

(** C2: mutual exclusion and exact accounting: along every sequence of lock
    calls from the empty manager, the depth the manager reports for a session
    and a resource is the number of its granted acquisitions not yet
    released; a session may use the resource exactly when nobody holds it or
    it holds it itself; and two different sessions hold a resource at once
    only when both hold it shared. *)
Theorem lock_accounting tr m :
  lock_trace tr m -> Z.of_nat (length tr) < 2 ^ 32 ->
  (forall owner resource,
     owned_lock_depth owner resource m = ledger owner resource tr /\
     (owned_lock_type owner resource m = VI_NO_LOCK <-> ledger owner resource tr = 0)) /\
  (forall owner resource, can_access owner resource m = true <->
     (forall o, ledger o resource tr = 0) \/ 0 < ledger owner resource tr) /\
  (forall owner owner' resource, owner ≠ owner' ->
     0 < ledger owner resource tr -> 0 < ledger owner' resource tr ->
     owned_lock_type owner resource m = VI_SHARED_LOCK /\
     owned_lock_type owner' resource m = VI_SHARED_LOCK).
Proof.
  intros Htr Hlen. destruct (lock_trace_inv _ _ Htr Hlen) as [Hok Hled].
  setoid_rewrite <- Hled. clear Hled.
  split; [|split]; [intros owner resource; split; [done|]|intros owner resource|
                    intros owner owner' resource Hne];
    destruct (access_state _ resource m Hok) as [[Hst Hl]|[Hl Hst]];
    unfold owned_lock_type, can_access; setoid_rewrite owned_lock_depth_state; rewrite Hl;
    try rewrite Hst.
  - done.
  - destruct Hst as [ow d k ?|ow d k owners ? Hall]; autorewrite with wrlockrw; simpl.
    + destruct (ow =? owner); split; try done; lia.
    + destruct (owners !! owner) as [d'|] eqn:Ho; simpl; [|done].
      pose proof (Hall _ _ Ho). simpl in *. split; [done|lia].
  - split; [by left|done].
  - destruct Hst as [ow d k ?|ow d k owners Hno Hall]; autorewrite with wrlockrw; simpl.
    + destruct (Z.eqb_spec ow owner); split; try done; [right; lia|].
      intros [Hz|?]; [|lia]. specialize (Hz ow). rewrite state_depth_exclusive, Z.eqb_refl in Hz. lia.
    + rewrite bool_decide_eq_true. split.
      * intros [d' Ho]. right. rewrite Ho. by apply (Hall _ _ Ho).
      * intros [Hz|Hpos].
        -- exfalso. destruct (map_choose _ Hno) as (o & d' & Ho). specialize (Hz o).
           rewrite state_depth_shared, Ho in Hz. pose proof (Hall _ _ Ho). simpl in *. lia.
        -- destruct (owners !! owner); [done|]. simpl in Hpos. lia.
  - done.
  - destruct Hst as [ow d k ?|ow d k owners Hno Hall]; autorewrite with wrlockrw; simpl.
    + destruct (Z.eqb_spec ow owner), (Z.eqb_spec ow owner'); lia || congruence.
    + destruct (owners !! owner), (owners !! owner'); simpl; lia || done.
Qed.

(** ** Wake-ups *)

(** Whether a call notifies the waiters. *)
Definition notifies (op : lock_op) (m : LockManager) : bool :=
  match op with
  | LAcquire _ => false
  | LRelease owner resource => (release owner resource m).2
  | LReleaseAll owner resource => (release_all owner resource m).2
  end.

Lemma grantable_state rq m :
  grantable rq None m =
    can_grant (state_of (rq_resource rq) m) (rq_owner rq) (rq_type rq) (rq_key rq).
Proof. done. Qed.

(** Fewer sharers or levels grant nothing new. *)
Lemma can_grant_shared_mono o d k owners owners' owner type key :
  (forall o', is_Some (owners' !! o') -> is_Some (owners !! o')) ->
  can_grant (mkLockState VI_SHARED_LOCK o d k owners') owner type key = true ->
  can_grant (mkLockState VI_SHARED_LOCK o d k owners) owner type key = true.
Proof.
  intros Hsub. unfold can_grant. simpl. destruct (type =? VI_EXCLUSIVE_LOCK); [done|].
  do 2 case_bool_decide; try done. exfalso. eauto.
Qed.

Lemma release_wakes n owner resource m rq :
  manager_ok n m ->
  grantable rq None m = false -> grantable rq None (release owner resource m).1.2 = true ->
  (release owner resource m).2 = true.
Proof.
  intros Hok. rewrite !grantable_state. unfold release.
  destruct (access_state _ resource m Hok) as [[Hst Hl]|[Hl Hst]]; rewrite Hl;
    [simpl; congruence|].
  destruct Hst as [ow d k ?|ow d k owners Hno Hall] eqn:E; revert Hl; simpl; intros Hl.
  - destruct (ow =? owner); [|simpl; congruence].
    case_match; [done|]. simpl. rewrite state_of_set. case_decide as Hr; [|congruence].
    rewrite <- Hr. unfold state_of. rewrite Hl. unfold can_grant. simpl. congruence.
  - destruct (owners !! owner) as [d'|] eqn:Ho; [|simpl; congruence].
    case_decide; [done|]. simpl. rewrite state_of_set. case_decide as Hr; [|congruence].
    rewrite <- Hr. unfold state_of. rewrite Hl. simpl. intros Hf Ht.
    eapply can_grant_shared_mono in Ht; [rewrite Hf in Ht; done|].
    intros o'. case_match; [rewrite lookup_delete|rewrite lookup_insert];
      case_decide; subst; try done; by rewrite Ho.
Qed.

Lemma release_all_wakes n owner resource m rq :
  manager_ok n m ->
  grantable rq None m = false -> grantable rq None (release_all owner resource m).1 = true ->
  (release_all owner resource m).2 = true.
Proof.
  intros Hok. rewrite !grantable_state. unfold release_all.
  destruct (access_state _ resource m Hok) as [[Hst Hl]|[Hl Hst]]; rewrite Hl;
    [simpl; congruence|].
  destruct Hst as [ow d k ?|ow d k owners Hno Hall] eqn:E; revert Hl; simpl; intros Hl.
  - destruct (ow =? owner); [done|simpl; congruence].
  - case_bool_decide as Ho; [done|].
    destruct (owners !! owner) eqn:Hlo; [exfalso; eauto|].
    rewrite delete_id by done. rewrite decide_False by done. simpl.
    rewrite state_of_set. case_decide as Hr; [|congruence].
    rewrite <- Hr. unfold state_of. rewrite Hl. simpl. congruence.
Qed.

(** A granted acquisition can only help requests of the same session. *)
Lemma acquire_wakes n rq0 m rq status key m' :
  manager_ok n m -> acquire_check rq0 = None -> grantable rq0 None m = true ->
  acquire_commit rq0 None m = (status, key, m') ->
  acquire_check rq = None ->
  grantable rq None m = false -> grantable rq None m' = true ->
  rq_owner rq0 = rq_owner rq /\ rq_resource rq0 = rq_resource rq /\
  rq_type rq0 = VI_SHARED_LOCK /\ rq_type rq = VI_SHARED_LOCK.
Proof.
  intros Hok Hchk0 Hgr0 Hc Hchk. rewrite !grantable_state. intros Hf Ht.
  destruct (decide (rq_resource rq0 = rq_resource rq)) as [Hr|Hr].
  2: { exfalso. unfold acquire_commit in Hc.
       repeat case_match; simplify_eq; rewrite state_of_set, decide_False in Ht by done;
         unfold state_of, next_key in *; simplify_eq/=; congruence. }
  destruct (grantable_cases n rq0 m Hok Hchk0 Hgr0)
    as [Hst|[(Ht0 & d & k & Hd & Hst)|(Ht0 & o & d & k & owners & Hall & _ & Hst)]];
    rewrite Hr in Hst; rewrite Hst in Hf.
  - done.
  - unfold acquire_commit in Hc. fold (state_of (rq_resource rq0) m) in Hc.
    rewrite Ht0, Hr, Hst in Hc. simpl in Hc. simplify_eq.
    rewrite state_of_set, decide_True in Ht by done.
    unfold can_grant in *. simpl in *. congruence.
  - unfold acquire_commit in Hc. fold (state_of (rq_resource rq0) m) in Hc.
    rewrite Ht0, Hr, Hst in Hc. simpl in Hc. simplify_eq.
    rewrite state_of_set, decide_True in Ht by done.
    unfold can_grant in *. simpl in *.
    destruct (Z.eqb_spec (rq_type rq) VI_EXCLUSIVE_LOCK); [done|].
    destruct (acquire_check_None _ Hchk); [done|].
    destruct (decide (rq_owner rq0 = rq_owner rq)) as [->|Hno]; [done|].
    rewrite lookup_insert_ne in Ht by done. congruence.
Qed.

(** C4: no wake-up is lost to another session: whenever a call makes a
    waiting request grantable, it notifies the waiters, except a shared
    acquisition by the very session whose other request is waiting. *)
Theorem wakeups_not_lost n op m rq :
  manager_ok n m -> acquire_check rq = None ->
  grantable rq None m = false -> grantable rq None (lock_step op m).2 = true ->
  notifies op m = true \/
  exists rq0, op = LAcquire rq0 /\ rq_owner rq0 = rq_owner rq /\
    rq_resource rq0 = rq_resource rq /\
    rq_type rq0 = VI_SHARED_LOCK /\ rq_type rq = VI_SHARED_LOCK.
Proof.
  intros Hok Hchk Hf. destruct op as [rq0|owner resource|owner resource]; cbn [lock_step notifies].
  - destruct (acquire_check rq0) eqn:Hchk0; [cbn [snd]; congruence|].
    destruct (grantable rq0 None m) eqn:Hgr0; [|cbn [snd]; congruence].
    destruct (acquire_commit rq0 None m) as [[st key] m'] eqn:Hc. intros Ht. right.
    exists rq0. split; [done|].
    exact (acquire_wakes n rq0 m rq _ _ _ Hok Hchk0 Hgr0 Hc Hchk Hf Ht).
  - intros Ht. left. eapply release_wakes; eauto.
    by destruct (release owner resource m) as [[? ?] ?].
  - intros Ht. left. by eapply release_all_wakes.
Qed.

(** The exception is real: session 2 waits for a shared lock without a key
    while session 1 holds the resource shared; when another thread of session
    2 joins with the key, the waiting request becomes grantable, and nobody
    is notified. *)
Lemma shared_join_strands_own_waiter :
  let m1 := (lock_step (LAcquire (mkLockRequest 1 (lit "R") VI_SHARED_LOCK None))
               new_lock_manager).2 in
  let waiting := mkLockRequest 2 (lit "R") VI_SHARED_LOCK None in
  let join := LAcquire (mkLockRequest 2 (lit "R") VI_SHARED_LOCK (Some (lit "WRVISA-1"))) in
  grantable waiting None m1 = false /\
  grantable waiting None (lock_step join m1).2 = true /\
  notifies join m1 = false.
Proof. vm_compute. done. Qed.

(** ** The blocking call *)

(** What a return of [acquire] means, given the evaluation it returned at. *)
Inductive acquire_result (timeout : Z) (rq : LockRequest)
  : evaluation -> Z -> option str -> LockManager -> Prop :=
| AcquireCancelled expired m status :
    acquire_result timeout rq (mkEvaluation expired m (Some status)) status None m
| AcquireTimeout m :
    timeout ≠ VI_TMO_INFINITE -> grantable rq None m = false ->
    acquire_result timeout rq (mkEvaluation true m None) VI_ERROR_TMO None m
| AcquireGranted expired m status key m' :
    grantable rq None m = true -> acquire_commit rq None m = (status, key, m') ->
    acquire_result timeout rq (mkEvaluation expired m None) status key m'.

(** The call stays blocked at an evaluation. *)
Definition stays_blocked (timeout : Z) (rq : LockRequest) (ev : evaluation) : Prop :=
  grantable rq (ev_done ev) (ev_manager ev) = false /\
  (ev_expired ev = true -> timeout = VI_TMO_INFINITE).

Lemma acquire_ready timeout rq ev :
  grantable rq (ev_done ev) (ev_manager ev) = true ->
  exists status key m',
    returned (acquire_commit rq (ev_done ev) (ev_manager ev)) = Returned status key m' /\
    acquire_result timeout rq ev status key m'.
Proof.
  destruct ev as [expired m [st|]]; cbn [ev_done ev_manager]; intros Hg.
  - exists st, None, m. split; [done|]. constructor.
  - destruct (acquire_commit rq None m) as [[st key] m'] eqn:Hc.
    exists st, key, m'. split; [done|]. by constructor.
Qed.

Lemma acquire_wait_spec timeout rq schedule :
  (acquire_wait timeout rq schedule = Waiting <->
     Forall (stays_blocked timeout rq) schedule) /\
  (forall status key m', acquire_wait timeout rq schedule = Returned status key m' ->
     exists before ev after, schedule = before ++ ev :: after /\
       Forall (stays_blocked timeout rq) before /\
       acquire_result timeout rq ev status key m').
Proof.
  induction schedule as [|ev schedule [IHw IHr]]; [split; [by split|done]|].
  cbn [acquire_wait]. rewrite Forall_cons. unfold stays_blocked at 1.
  destruct (grantable rq (ev_done ev) (ev_manager ev)) eqn:Hg.
  { destruct (acquire_ready timeout rq ev Hg) as (st & key & m' & -> & Hres).
    split; [by split; [|intros [[? _] _]]|].
    intros ? ? ? [= <- <- <-]. by exists [], ev, schedule. }
  destruct ev as [expired m done]. cbn [ev_done ev_manager ev_expired] in *.
  destruct (expired && negb (timeout =? VI_TMO_INFINITE)) eqn:He.
  { apply andb_prop in He as [-> He].
    destruct (Z.eqb_spec timeout VI_TMO_INFINITE) as [|Hfin]; [done|].
    split; [split; [done|intros [[_ Hi] _]; by destruct Hfin; apply Hi]|].
    intros ? ? ? [= <- <- <-]. exists [], (mkEvaluation true m done), schedule.
    split; [done|]. split; [done|]. destruct done; [done|]. by constructor. }
  assert (expired = true -> timeout = VI_TMO_INFINITE) as Hinf.
  { intros ->. simpl in He. by destruct (Z.eqb_spec timeout VI_TMO_INFINITE). }
  split; [rewrite IHw; tauto|]. intros status key m' Hr.
  destruct (IHr _ _ _ Hr) as (before & ev & after & -> & Hb & Hres).
  exists (mkEvaluation expired m done :: before), ev, after.
  split; [done|]. split; [|done]. by constructor.
Qed.

(** What the blocking call returns: it stays blocked exactly while no
    evaluation of its predicate succeeds and no finite deadline has passed; it
    returns at the first evaluation that does either, with the operation's
    result if it was cancelled, with [VI_ERROR_TMO] if the deadline passed and
    the lock could still not be granted, and otherwise with the lock; every
    failed call leaves the manager as it was. *)
Theorem acquire_outcomes timeout rq done m wakeups :
  let schedule := mkEvaluation false m done :: wakeups in
  (acquire timeout rq done m wakeups = Waiting <->
     acquire_check rq = None /\ Forall (stays_blocked timeout rq) schedule) /\
  (forall status key m', acquire timeout rq done m wakeups = Returned status key m' ->
     (acquire_check rq = Some status /\ m' = m) \/
     (acquire_check rq = None /\
      exists before ev after, schedule = before ++ ev :: after /\
        Forall (stays_blocked timeout rq) before /\
        acquire_result timeout rq ev status key m' /\
        (ev_done ev = None -> is_error status = true -> m' = ev_manager ev))).
Proof.
  intros schedule. unfold acquire. destruct (acquire_check rq) as [e|] eqn:Hchk.
  { split; [by split; [|intros [? _]]|]. intros ? ? ? [= <- <- <-]. by left. }
  fold schedule. destruct (acquire_wait_spec timeout rq schedule) as [Hw Hr].
  split; [rewrite Hw; tauto|]. intros status key m' Hret. right. split; [done|].
  destruct (Hr _ _ _ Hret) as (before & ev & after & ? & ? & Hres).
  exists before, ev, after. do 3 (split; [done|]). intros Hd He.
  destruct Hres as [|? ? ?|expired m0 status key m' Hg Hc]; try done. exfalso.
  unfold acquire_commit in Hc. repeat case_match; simplify_eq; done.
Qed.

(** The rollback of a failed remote lock is exact: releasing once right
    after a granted acquisition succeeds and restores the lock table to what it
    was before (only the key counter may have advanced), and waiters that the
    acquisition could have turned away are notified when the resource becomes
    free. *)
Theorem release_undoes_acquire n rq m status key m' :
  manager_ok n m -> 0 <= n -> n + 1 < 2 ^ 32 ->
  acquire_check rq = None -> grantable rq None m = true ->
  acquire_commit rq None m = (status, key, m') ->
  exists m'' notified,
    release (rq_owner rq) (rq_resource rq) m' = (VI_SUCCESS, m'', notified) /\
    locks_ m'' = locks_ m /\
    (locks_ m !! rq_resource rq = None -> notified = true).
Proof.
  intros Hok Hn Hn1 Hchk Hgr. destruct (access_state _ (rq_resource rq) m Hok)
    as [[Hst Hl]|[Hl _]].
  - unfold acquire_commit, release. rewrite Hl. simpl.
    destruct (acquire_check_None _ Hchk) as [-> | ->]; simpl; intros [= <- <- <-]; simpl;
      rewrite lookup_insert_eq; simpl; rewrite ?Z.eqb_refl; simpl.
    + do 2 eexists. split; [done|]. simpl. split; [|done]. by rewrite delete_insert_eq, delete_id.
    + rewrite lookup_insert_eq. simpl. rewrite delete_insert_eq, delete_empty, decide_True by done.
      do 2 eexists. split; [done|]. simpl. split; [|done]. by rewrite delete_insert_eq, delete_id.
  - destruct (grantable_cases n rq m Hok Hchk Hgr)
      as [Hst|[(Ht & d & k & Hd & Hst)|(Ht & o & d & k & owners & Hall & _ & Hst)]].
    { pose proof (manager_ok_lookup _ _ _ _ Hok Hl) as Hbad. rewrite Hst in Hbad.
      inversion Hbad. }
    all: rewrite Hst in Hl; unfold acquire_commit, release; rewrite Hl, Ht; simpl;
      intros [= <- <- <-]; simpl; rewrite lookup_insert_eq; simpl.
    + rewrite Z.eqb_refl, !u32_small by (rewrite ?u32_small; lia). simpl.
      replace (d + 1 - 1) with d by lia. destruct (Z.eqb_spec d 0); [lia|].
      do 2 eexists. split; [done|]. simpl. split; [|congruence].
      rewrite insert_insert_eq. by apply insert_id.
    + rewrite lookup_insert_eq.
      pose proof (default_depth_range n owners (rq_owner rq) Hn Hall) as Hd.
      rewrite !u32_small by (rewrite ?u32_small; lia).
      set (d0 := default 0 _) in *. replace (d0 + 1 - 1) with d0 by lia.
      set (owners' := if d0 =? 0 then _ else _).
      assert (owners' = owners) as ->.
      { subst owners' d0. destruct (owners !! rq_owner rq) as [x|] eqn:Ho; simpl.
        - pose proof (Hall _ _ Ho). simpl in *. destruct (Z.eqb_spec x 0); [lia|].
          rewrite insert_insert_eq. by apply insert_id.
        - by rewrite delete_insert_eq, delete_id. }
      pose proof (manager_ok_lookup _ _ _ _ Hok Hl) as Hs. inversion Hs; subst.
      rewrite decide_False by done.
      do 2 eexists. split; [done|]. simpl. split; [|congruence].
      rewrite insert_insert_eq. by apply insert_id.
Qed.

(** ** Access keys *)

Definition lock_key (id : Z) : str := lit "WRVISA-" ++ upper_hex id.

(** The resource is shared under the key. *)
Definition shared_under (resource : str) (key : str) (m : LockManager) : Prop :=
  exists st, locks_ m !! resource = Some st /\ ls_type st = VI_SHARED_LOCK /\
    ls_shared_key st = key.

Lemma lock_key_inj i j : 0 <= i -> 0 <= j -> lock_key i = lock_key j -> i = j.
Proof.
  intros Hi Hj [= Heq]. unfold upper_hex in Heq.
  pose proof (from_chars_print 16 (Z.max i j) i ltac:(lia) ltac:(lia)) as H1.
  pose proof (from_chars_print 16 (Z.max i j) j ltac:(lia) ltac:(lia)) as H2.
  rewrite Heq in H1. congruence.
Qed.

(** What the releasing calls do to the table: nothing, erase the entry, or
    keep its type and key. *)
Inductive narrowed (resource : str) (m : LockManager) : LockManager -> Prop :=
| NarrowSame : narrowed resource m m
| NarrowErase : narrowed resource m (erase_lock resource m)
| NarrowSet st st0 :
    locks_ m !! resource = Some st0 ->
    ls_type st = ls_type st0 -> ls_shared_key st = ls_shared_key st0 ->
    narrowed resource m (set_lock resource st m).

Lemma release_narrows owner resource m :
  narrowed resource m (release owner resource m).1.2.
Proof.
  unfold release. destruct (locks_ m !! resource) as [st|] eqn:Hl; [|constructor].
  repeat case_match; simpl; econstructor; eauto.
Qed.

Lemma release_all_narrows owner resource m :
  narrowed resource m (release_all owner resource m).1.
Proof.
  unfold release_all. destruct (locks_ m !! resource) as [st|] eqn:Hl; [|constructor].
  repeat case_match; simpl; econstructor; eauto.
Qed.

Lemma narrowed_shared resource m m' r key :
  narrowed resource m m' -> shared_under r key m' -> shared_under r key m.
Proof.
  intros [| |st st0 Hl Hty Hk] (st' & Hl' & Ht & Hkey); [by exists st'|..]; simpl in Hl'.
  - rewrite lookup_delete in Hl'. case_decide; [done|by exists st'].
  - rewrite lookup_insert in Hl'. case_decide; [|by exists st'].
    simplify_eq. exists st0. split; [done|]. split; congruence.
Qed.

Lemma narrowed_next_key resource m m' :
  narrowed resource m m' -> next_key_id_ m' = next_key_id_ m.
Proof. by intros []. Qed.

(** A granted acquisition shares a resource under a key it was not shared
    under before only by drawing the next key. *)
Lemma acquire_commit_keys rq m status k m' r key :
  acquire_commit rq None m = (status, k, m') -> shared_under r key m' ->
  shared_under r key m \/
  (key = lock_key (next_key_id_ m) /\ next_key_id_ m' = u64 (next_key_id_ m + 1)).
Proof.
  unfold acquire_commit. set (st0 := default _ _).
  assert (ls_type st0 = VI_SHARED_LOCK -> locks_ m !! rq_resource rq = Some st0) as Hst0
    by (unfold st0; by destruct (locks_ m !! rq_resource rq)).
  intros Hc (st & Hl & Hty & Hkey).
  destruct (rq_type rq =? VI_EXCLUSIVE_LOCK); [left|destruct (Z.eqb_spec (ls_type st0) VI_SHARED_LOCK)].
  - destruct (Z.eqb_spec (ls_type st0) VI_EXCLUSIVE_LOCK) as [He|_]; injection Hc as _ _ <-;
      simpl in Hl; rewrite lookup_insert in Hl;
      (case_decide; [injection Hl as <-; simpl in Hty; try rewrite He in Hty; discriminate
                    |by exists st]).
  - left. injection Hc as _ _ <-. simpl in Hl. rewrite lookup_insert in Hl.
    case_decide; [|by exists st]. subst r. injection Hl as <-. exists st0. auto.
  - simpl in Hc. injection Hc as _ _ <-. simpl in Hl. rewrite lookup_insert in Hl.
    case_decide; [|left; by exists st]. injection Hl as <-. right. split; [symmetry|]; done.
Qed.

Lemma shared_under_step op m status m' r key :
  lock_step op m = (status, m') -> shared_under r key m' ->
  shared_under r key m \/
  (key = lock_key (next_key_id_ m) /\ next_key_id_ m' = u64 (next_key_id_ m + 1)).
Proof.
  destruct op as [rq|owner resource|owner resource]; cbn [lock_step].
  - destruct (acquire_check rq) eqn:Hchk; [intros [= <- <-]; by left|].
    destruct (grantable rq None m) eqn:Hg; [|intros [= <- <-]; by left].
    destruct (acquire_commit rq None m) as [[st k] m1] eqn:Hc. intros [= <- <-].
    by eapply acquire_commit_keys.
  - pose proof (release_narrows owner resource m) as Hn.
    destruct (release owner resource m) as [[st m1] nt]. intros [= <- <-] ?.
    left. by eapply narrowed_shared.
  - intros [= <- <-] ?. left. eapply narrowed_shared; [apply release_all_narrows|done].
Qed.

Lemma next_key_id_step op m status m' :
  lock_step op m = (status, m') ->
  next_key_id_ m' = next_key_id_ m \/ next_key_id_ m' = u64 (next_key_id_ m + 1).
Proof.
  destruct op as [rq|owner resource|owner resource]; cbn [lock_step].
  - unfold acquire_commit, next_key. repeat case_match; intros [= <- <-]; simplify_eq/=; eauto.
  - pose proof (release_narrows owner resource m) as Hn.
    destruct (release owner resource m) as [[st m1] nt]. intros [= <- <-].
    left. by eapply narrowed_next_key.
  - intros [= <- <-]. left. eapply narrowed_next_key, release_all_narrows.
Qed.

Definition lock_run (ops : list lock_op) (m : LockManager) : LockManager :=
  fold_left (fun m op => (lock_step op m).2) ops m.

Definition keys_ok (n : Z) (m : LockManager) : Prop :=
  1 <= next_key_id_ m <= n + 1 /\
  forall r key, shared_under r key m -> exists id, 1 <= id < next_key_id_ m /\ key = lock_key id.

Lemma keys_ok_step n op m status m' :
  keys_ok n m -> 0 <= n -> n + 2 < 2 ^ 64 -> lock_step op m = (status, m') ->
  keys_ok (n + 1) m' /\ next_key_id_ m <= next_key_id_ m'.
Proof.
  intros [Hid Hkeys] Hn Hn2 Hstep. pose proof (next_key_id_step _ _ _ _ Hstep) as Hnext.
  unfold u64 in Hnext. rewrite Z.mod_small in Hnext by lia.
  split; [|lia]. split; [lia|]. intros r key Hs.
  destruct (shared_under_step _ _ _ _ _ _ Hstep Hs) as [Hs0|[-> Hid']].
  - destruct (Hkeys _ _ Hs0) as (id & ? & ->). exists id. split; [lia|done].
  - unfold u64 in Hid'. rewrite Z.mod_small in Hid' by lia.
    exists (next_key_id_ m). split; [lia|done].
Qed.

Lemma keys_ok_trace tr m :
  lock_trace tr m -> Z.of_nat (length tr) + 1 < 2 ^ 64 -> keys_ok (Z.of_nat (length tr)) m.
Proof.
  induction 1 as [|op status tr m m' _ IH Hstep]; intros Hlen.
  - split; [simpl; lia|]. intros r key (st & Hl & _). simpl in Hl. by rewrite lookup_empty in Hl.
  - simpl length in *. rewrite Nat2Z.inj_succ, <- Z.add_1_r in *.
    eapply keys_ok_step; [apply IH; lia|lia|lia|done].
Qed.

(** An access key dies with its shared lock: once no resource is shared
    under an issued key, no later sequence of calls shares any resource under
    it again, so presenting it never lets a session join another lock.  (The
    64-bit key counter must not wrap, hence the bound on the trace.) *)
Theorem access_key_never_reused tr m ops id owner resource :
  lock_trace tr m -> Z.of_nat (length tr) + Z.of_nat (length ops) + 1 < 2 ^ 64 ->
  1 <= id < next_key_id_ m ->
  (forall r, ~ shared_under r (lock_key id) m) ->
  (forall r, ~ shared_under r (lock_key id) (lock_run ops m)) /\
  (owned_lock_type owner resource (lock_run ops m) = VI_NO_LOCK ->
   locks_ (lock_run ops m) !! resource ≠ None ->
   (forall st, locks_ (lock_run ops m) !! resource = Some st -> ls_type st = VI_SHARED_LOCK) ->
   grantable (mkLockRequest owner resource VI_SHARED_LOCK (Some (lock_key id))) None
     (lock_run ops m) = false).
Proof.
  intros Htr Hlen Hid Hdead. pose proof (keys_ok_trace _ _ Htr ltac:(lia)) as Hok.
  assert (forall r, ~ shared_under r (lock_key id) (lock_run ops m)) as Hdead'.
  { clear Htr. pose proof (Nat2Z.is_nonneg (length tr)) as Hn.
    set (n := Z.of_nat (length tr)) in *. clearbody n.
    revert n m Hok Hlen Hid Hdead Hn.
    induction ops as [|op ops IH]; intros n m Hok Hlen Hid Hdead Hn; simpl; [done|].
    simpl length in Hlen. rewrite Nat2Z.inj_succ in Hlen.
    destruct (lock_step op m) as [status m1] eqn:Hstep. simpl.
    destruct (keys_ok_step _ _ _ _ _ Hok ltac:(lia) ltac:(lia) Hstep) as [Hok1 Hle].
    apply (IH (n + 1)); [done|lia|lia| |lia]. intros r Hs.
    destruct (shared_under_step _ _ _ _ _ _ Hstep Hs) as [Hs0|[Heq _]]; [by eapply Hdead|].
    apply lock_key_inj in Heq; lia. }
  split; [done|]. intros Hno Hsome Hsh. unfold grantable. simpl.
  unfold owned_lock_type in Hno.
  destruct (locks_ (lock_run ops m) !! resource) as [st|] eqn:Hl; [|done]. simpl.
  pose proof (Hsh _ eq_refl) as Ht. rewrite Ht in Hno. simpl in Hno.
  unfold can_grant. rewrite Ht. simpl. case_bool_decide; [done|]. case_bool_decide as Hk; [|done].
  exfalso. apply (Hdead' resource). by exists st.
Qed.

(** ** Witnesses *)

Definition share (owner : Z) (key : option str) : LockRequest :=
  mkLockRequest owner (lit "R") VI_SHARED_LOCK key.

Lemma lock_accounting_witness :
  exists tr m, lock_trace tr m /\
    ledger 1 (lit "R") tr = 1 /\ ledger 2 (lit "R") tr = 2 /\
    owned_lock_depth 2 (lit "R") m = 2 /\
    owned_lock_type 1 (lit "R") m = VI_SHARED_LOCK /\
    can_access 3 (lit "R") m = false.
Proof.
  eexists _, _.
  assert (forall tr m, lock_trace tr m -> forall op, 
    lock_trace ((op, (lock_step op m).1) :: tr) (lock_step op m).2) as Hc.
  { intros tr m Htr op. eapply TraceCons; [exact Htr|]. by destruct (lock_step op m). }
  pose proof (Hc _ _ (Hc _ _ (Hc _ _ TraceNil (LAcquire (share 1 None)))
    (LAcquire (share 2 (Some (lit "WRVISA-1"))))) (LAcquire (share 2 None))) as Htr.
  split; [exact Htr|].
  destruct (lock_accounting _ _ Htr) as (H1 & H2 & H3); [vm_compute; reflexivity|].
  split; [vm_compute; reflexivity|]. split; [vm_compute; reflexivity|].
  split; [apply (H1 2 (lit "R"))|]. split.
  - apply (H3 1 2 (lit "R")); [lia|vm_compute; reflexivity|vm_compute; reflexivity].
  - vm_compute. reflexivity.
Defined.

Lemma wakeups_not_lost_witness :
  let m := (lock_step (LAcquire (share 1 None)) new_lock_manager).2 in
  let rq := mkLockRequest 2 (lit "R") VI_EXCLUSIVE_LOCK None in
  grantable rq None m = false /\ notifies (LRelease 1 (lit "R")) m = true.
Proof.
  intros m rq. split; [vm_compute; reflexivity|].
  assert (manager_ok 1 m) as Hok.
  { apply (acquire_commit_spec 0 (share 1 None) new_lock_manager VI_SUCCESS
      (Some (lit "WRVISA-1"))); [apply manager_ok_new|lia|lia|reflexivity..]. }
  destruct (wakeups_not_lost 1 (LRelease 1 (lit "R")) m rq Hok) as [Hn|(rq0 & Hq & _)];
    [reflexivity|vm_compute; reflexivity|vm_compute; reflexivity|exact Hn|discriminate].
Defined.

Lemma acquire_outcomes_witness :
  let m := (lock_step (LAcquire (share 1 None)) new_lock_manager).2 in
  let rq := mkLockRequest 2 (lit "R") VI_EXCLUSIVE_LOCK None in
  acquire 100 rq None m [mkEvaluation false m None] = Waiting /\
  acquire 100 rq None m [mkEvaluation true m None] = Returned VI_ERROR_TMO None m /\
  Forall (stays_blocked 100 rq) [mkEvaluation false m None; mkEvaluation false m None].
Proof.
  intros m rq. split; [vm_compute; reflexivity|]. split; [vm_compute; reflexivity|].
  apply (acquire_outcomes 100 rq None m [mkEvaluation false m None]).
  vm_compute. reflexivity.
Defined.

Lemma release_undoes_acquire_witness :
  exists m' m'' notified,
    acquire_commit (share 1 None) None new_lock_manager =
      (VI_SUCCESS, Some (lit "WRVISA-1"), m') /\
    release 1 (lit "R") m' = (VI_SUCCESS, m'', notified) /\
    locks_ m'' = locks_ new_lock_manager /\ notified = true.
Proof.
  eexists.
  destruct (release_undoes_acquire 0 (share 1 None) new_lock_manager VI_SUCCESS
    (Some (lit "WRVISA-1")) _ (manager_ok_new 0) ltac:(lia) ltac:(lia) eq_refl eq_refl eq_refl)
    as (m'' & notified & Hr & Hl & Hn).
  exists m'', notified. split; [reflexivity|]. split; [exact Hr|]. split; [exact Hl|].
  apply Hn. reflexivity.
Defined.

Lemma access_key_never_reused_witness :
  exists tr m, lock_trace tr m /\ next_key_id_ m = 2 /\
    (forall r, ~ shared_under r (lock_key 1) m) /\
    grantable (share 2 (Some (lit "WRVISA-1"))) None
      (lock_run [LAcquire (share 1 None)] m) = false.
Proof.
  assert (forall tr m, lock_trace tr m -> forall op, 
    lock_trace ((op, (lock_step op m).1) :: tr) (lock_step op m).2) as Hc.
  { intros tr m Htr op. eapply TraceCons; [exact Htr|]. by destruct (lock_step op m). }
  pose proof (Hc _ _ (Hc _ _ TraceNil (LAcquire (share 1 None))) (LRelease 1 (lit "R"))) as Htr.
  eexists _, _. split; [exact Htr|]. split; [vm_compute; reflexivity|].
  assert (forall r, ~ shared_under r (lock_key 1)
    (lock_step (LRelease 1 (lit "R"))
       (lock_step (LAcquire (share 1 None)) new_lock_manager).2).2) as Hdead.
  { intros r (st & Hl & _). assert (locks_ (lock_step (LRelease 1 (lit "R"))
      (lock_step (LAcquire (share 1 None)) new_lock_manager).2).2 = ∅) as He by reflexivity.
    rewrite He, lookup_empty in Hl. discriminate. }
  split; [exact Hdead|].
  apply (access_key_never_reused _ _ [LAcquire (share 1 None)] 1 2 (lit "R") Htr);
    [simpl; lia | vm_compute; split; congruence | exact Hdead
    | vm_compute; reflexivity | vm_compute; discriminate
    | intros st Hl; vm_compute in Hl; injection Hl as <-; reflexivity].
Defined.
