(* ===== verification/ResourceParser.v ===== *)
(** * Resource names: [resource/resource_parser.{h,cpp}]

    [parse_resource] splits a resource name at the double colons outside
    brackets and reads the parts of each interface class into a descriptor,
    whose [canonical_name] is the key of locks, aliases and discovery. *)

From S2P Require Import Prelude Visa CText.

(** ** Descriptors *)

Inductive ResourceKind :=
| asrl_instr | gpib_instr | gpib_intfc | tcpip_instr | tcpip_socket
| usb_instr | usb_raw | project_mock.

#[global] Instance ResourceKind_eq_dec : EqDecision ResourceKind.
Proof. solve_decision. Defined.

Inductive TcpipProtocol :=
| tp_none | tp_vxi11 | tp_hislip | tp_unsupported.

#[global] Instance TcpipProtocol_eq_dec : EqDecision TcpipProtocol.
Proof. solve_decision. Defined.

Record ResourceDescriptor := mkResourceDescriptor {
  rd_kind : ResourceKind;
  rd_interface_type : Z;
  rd_interface_number : Z;
  rd_resource_class : str;
  rd_canonical_name : str;
  rd_host : str;
  rd_port : Z;
  rd_device_name : str;
  rd_tcpip_protocol : TcpipProtocol;
  rd_usb_vendor_id : Z;
  rd_usb_product_id : Z;
  rd_usb_serial_number : str;
  rd_usb_interface_number : Z;
  rd_gpib_primary_address : Z;
  rd_gpib_secondary_address : Z;
  rd_gpib_has_secondary_address : bool }.

(** The aggregate initialisation the parsers share: the members after those
    listed keep their default initialisers. *)
Definition descriptor (kind : ResourceKind) (interface_type board : Z)
    (resource_class canonical host : str) (port : Z) (device : str)
    (protocol : TcpipProtocol) : ResourceDescriptor :=
  mkResourceDescriptor kind interface_type board resource_class canonical host port
    device protocol 0 0 [] 0 0 0 false.

(** ** Splitting *)

(** The loop of [split]: [rest] is the text from [index] on, [part] that from
    [start] up to [index]. *)
Fixpoint split_loop (rest : str) (bracketed : bool) (part : str) (parts : list str)
  : list str :=
  match rest with
  | [] => if bool_decide (part = []) then [] else if bracketed then [] else parts ++ [part]
  | c :: tail =>
      if (c =? "[")%char then
        if bracketed then [] else split_loop tail true (part ++ [c]) parts
      else if (c =? "]")%char then
        if bracketed then split_loop tail false (part ++ [c]) parts else []
      else
        match tail with
        | c2 :: tail2 =>
            if negb bracketed && (c =? ":")%char && (c2 =? ":")%char then
              if bool_decide (part = []) then []
              else split_loop tail2 false [] (parts ++ [part])
            else split_loop tail bracketed (part ++ [c]) parts
        | [] => split_loop tail bracketed (part ++ [c]) parts
        end
  end.

Definition split (value : str) : list str := split_loop value false [] [].

(** ** Numbers and prefixes *)

Definition parse_decimal (value : str) (maximum : Z) : option Z :=
  if bool_decide (value = []) then None
  else match from_chars 10 (2 ^ 32 - 1) value with
       | Some (parsed, []) => if maximum <? parsed then None else Some (u16 parsed)
       | _ => None
       end.

Definition parse_hex_id (value : str) : option Z :=
  match value with
  | c0 :: c1 :: digits =>
      if negb (Nat.eqb (length value) 6) || negb (c0 =? "0")%char
         || (negb (c1 =? "x")%char && negb (c1 =? "X")%char)
      then None
      else match from_chars 16 (2 ^ 32 - 1) digits with
           | Some (parsed, []) => if 65535 <? parsed then None else Some (u16 parsed)
           | _ => None
           end
  | _ => None
  end.

Definition parse_prefix (token name : str) : option Z :=
  if Nat.ltb (length token) (length name)
     || negb (bool_decide (upper (take (length name) token) = name)) then None
  else
    let suffix := drop (length name) token in
    if bool_decide (suffix = []) then Some 0 else parse_decimal suffix 65535.

Definition prefix (name : str) (board : Z) : str := name ++ to_string board.

(** [text.rfind(name, 0) == 0]. *)
Definition starts_with (name text : str) : bool :=
  bool_decide (take (length name) text = name).

Definition tcpip_protocol (device : str) : TcpipProtocol :=
  let name := upper device in
  if starts_with (lit "HISLIP") name then
    if Nat.eqb (length name) 6 || negb (forallb isalnum (drop 6 name))
    then tp_unsupported else tp_hislip
  else if starts_with (lit "INST") name || starts_with (lit "VXI") name
          || starts_with (lit "GPIB") name
  then tp_vxi11 else tp_unsupported.

(** ** The interface classes

    [parts.[i]] is [parts[i]], used where the size has been checked. *)

Notation "parts .[ i ]" := (default [] (parts !! i%nat))
  (at level 1, left associativity, format "parts .[ i ]") : wrvisa_scope.

Definition colons : str := lit "::".
Definition INSTR : str := lit "INSTR".
Definition INTFC : str := lit "INTFC".
Definition SOCKET : str := lit "SOCKET".
Definition RAW : str := lit "RAW".
Definition ASRL : str := lit "ASRL".
Definition GPIB : str := lit "GPIB".
Definition TCPIP : str := lit "TCPIP".
Definition USB : str := lit "USB".

Definition is_word (part word : str) : bool := bool_decide (upper part = word).

Definition parse_asrl (parts : list str) : option ResourceDescriptor :=
  match parse_prefix (parts.[0]) ASRL with
  | None => None
  | Some board =>
      if Nat.ltb 2 (length parts)
         || (Nat.eqb (length parts) 2 && negb (is_word (parts.[1]) INSTR))
      then None
      else Some (descriptor asrl_instr VI_INTF_ASRL board INSTR
                   (prefix ASRL board ++ colons ++ INSTR) [] 0 [] tp_none)
  end.

Definition parse_gpib (parts : list str) : option ResourceDescriptor :=
  let n := length parts in
  match parse_prefix (parts.[0]) GPIB with
  | None => None
  | Some board =>
      if Nat.ltb n 2 || Nat.ltb 4 n then None
      else if Nat.eqb n 2 && is_word (parts.[1]) INTFC then
        Some (descriptor gpib_intfc VI_INTF_GPIB board INTFC
                (prefix GPIB board ++ colons ++ INTFC) [] 0 [] tp_none)
      else
        primary ← parse_decimal (parts.[1]) 30;
        secondary ← (if Nat.leb 3 n && negb (is_word (parts.[2]) INSTR) then
                       value ← parse_decimal (parts.[2]) 30; Some (Some value)
                     else Some None);
        let expected_size := if secondary is Some _ then 4%nat else 3%nat in
        if Nat.eqb n expected_size && negb (is_word (parts.[(n - 1)]) INSTR) then None
        else if Nat.ltb expected_size n
                || (Nat.eqb n 4 && bool_decide (secondary = None)) then None
        else
          let canonical :=
            prefix GPIB board ++ colons ++ to_string primary ++
            (if secondary is Some value then colons ++ to_string value else []) ++
            colons ++ INSTR in
          Some (mkResourceDescriptor gpib_instr VI_INTF_GPIB board INSTR canonical
                  [] 0 [] tp_none 0 0 [] 0 primary (default 0 secondary)
                  (bool_decide (is_Some secondary)))
  end.

(** The host without its brackets; [None] when a bare host holds a colon. *)
Definition bare_host (display_host : str) : option str :=
  if Nat.leb 2 (length display_host)
     && bool_decide (head display_host = Some "["%char)
     && bool_decide (last display_host = Some "]"%char) then
    Some (take (length display_host - 2) (drop 1 display_host))
  else if existsb (Ascii.eqb ":") display_host then None
  else Some display_host.

Definition parse_tcpip (parts : list str) : option ResourceDescriptor :=
  let n := length parts in
  match parse_prefix (parts.[0]) TCPIP with
  | None => None
  | Some board =>
      if Nat.ltb n 2 || Nat.ltb 4 n || bool_decide (parts.[1] = []) then None
      else
        let display_host := parts.[1] in
        host ← bare_host display_host;
        if bool_decide (host = []) then None
        else if Nat.eqb n 4 && is_word (parts.[3]) SOCKET then
          match parse_decimal (parts.[2]) 65535 with
          | None => None
          | Some port =>
              if port =? 0 then None
              else Some (descriptor tcpip_socket VI_INTF_TCPIP board SOCKET
                           (prefix TCPIP board ++ colons ++ display_host ++ colons ++
                            to_string port ++ colons ++ SOCKET) host port [] tp_none)
          end
        else
          device ← (if Nat.eqb n 3 && negb (is_word (parts.[2]) INSTR) then Some (parts.[2])
                    else if Nat.eqb n 4 then
                      if negb (is_word (parts.[3]) INSTR) then None else Some (parts.[2])
                    else if Nat.eqb n 3 && negb (is_word (parts.[2]) INSTR) then None
                    else Some (lit "inst0"));
          Some (descriptor tcpip_instr VI_INTF_TCPIP board INSTR
                  (prefix TCPIP board ++ colons ++ display_host ++ colons ++ device ++
                   colons ++ INSTR) host 0 device (tcpip_protocol device))
  end.

(** The stream keeps its upper-case hexadecimal format for the two
    identifiers; [std::setw] applies to one number, [std::setfill] lasts. *)
Definition hex_id (value : Z) : str := lit "0x" ++ setw0 4 (upper_hex value).

Definition parse_usb (parts : list str) : option ResourceDescriptor :=
  let n := length parts in
  match parse_prefix (parts.[0]) USB with
  | None => None
  | Some board =>
      if Nat.ltb n 4 || Nat.ltb 6 n then None
      else
        vendor ← parse_hex_id (parts.[1]);
        product ← parse_hex_id (parts.[2]);
        if bool_decide (parts.[3] = []) then None
        else
          interface ← (if Nat.leb 5 n && negb (is_word (parts.[4]) INSTR)
                          && negb (is_word (parts.[4]) RAW) then
                         parsed ← parse_decimal (parts.[4]) 65535; Some (parsed, true)
                       else Some (0, false));
          let '(interface_number, has_interface) := interface : Z * bool in
          let class_index := if has_interface then 5%nat else 4%nat in
          resource_class ← (if Nat.ltb class_index n then
                              let word := upper (parts.[class_index]) in
                              if negb (bool_decide (word = INSTR))
                                 && negb (bool_decide (word = RAW))
                              then None else Some word
                            else Some INSTR);
          if Nat.ltb (class_index + 1) n || (Nat.eqb n 6 && negb has_interface) then None
          else
            let canonical :=
              prefix USB board ++ colons ++ hex_id vendor ++ colons ++ hex_id product ++
              colons ++ parts.[3] ++ colons ++ to_string interface_number ++ colons ++
              resource_class in
            Some (mkResourceDescriptor
                    (if bool_decide (resource_class = RAW) then usb_raw else usb_instr)
                    VI_INTF_USB board resource_class canonical [] 0 [] tp_none
                    vendor product (parts.[3]) interface_number 0 0 false)
  end.

Definition parse_resource (value : str) : option ResourceDescriptor :=
  if bool_decide (value = []) || (VI_FIND_BUFLEN <=? Z.of_nat (length value)) then None
  else if bool_decide (upper value = WRVISA_MOCK_RESOURCE) then
    Some (descriptor project_mock WRVISA_INTF_MOCK 0 INSTR WRVISA_MOCK_RESOURCE
            [] 0 [] tp_none)
  else
    let parts := split value in
    if bool_decide (parts = []) then None
    else
      let first := upper (parts.[0]) in
      if starts_with ASRL first then parse_asrl parts
      else if starts_with GPIB first then parse_gpib parts
      else if starts_with TCPIP first then parse_tcpip parts
      else if starts_with USB first then parse_usb parts
      else None.

(** ** Lemmas on splitting *)

(** The text [p], read from outside ([b = false]) or inside a bracket, holds
    no separator and closes what it opens; [colon_end] tells whether it may end
    in a colon. *)
Fixpoint scan (colon_end b : bool) (p : str) : bool :=
  match p with
  | [] => negb b
  | c :: tail =>
      if (c =? "[")%char then negb b && scan colon_end true tail
      else if (c =? "]")%char then b && scan colon_end false tail
      else if negb b && (c =? ":")%char then
        match tail with
        | [] => colon_end
        | c2 :: _ => negb (c2 =? ":")%char && scan colon_end b tail
        end
      else scan colon_end b tail
  end.

Definition part_ok (colon_end : bool) (p : str) : Prop :=
  p ≠ [] /\ scan colon_end false p = true.

Fixpoint join (parts : list str) : str :=
  match parts with
  | [] => []
  | [p] => p
  | p :: rest => p ++ colons ++ join rest
  end.

Lemma split_loop_length colon_end n rest b part parts :
  (length rest <= n)%nat -> split_loop rest b part parts ≠ [] ->
  (colon_end = true \/ last rest ≠ Some ":"%char) ->
  exists p0 ps r, split_loop rest b part parts = parts ++ (part ++ p0) :: ps /\
    part ++ p0 ≠ [] /\ scan colon_end b p0 = true /\ Forall (part_ok colon_end) ps /\
    rest = p0 ++ r /\ (r = [] \/ exists r', r = colons ++ r').
Proof.
  revert rest b part parts. induction n as [|n IH]; intros [|c tail] b part parts Hn Hne Hlast;
    simpl in Hn; try lia.
  1,2: simpl in *; case_bool_decide; [done|]; destruct b; [done|];
       exists [], [], []; rewrite app_nil_r; eauto 10.
  assert (forall b' , split_loop tail b' (part ++ [c]) parts ≠ [] ->
    exists p0 ps r, split_loop tail b' (part ++ [c]) parts = parts ++ (part ++ c :: p0) :: ps /\
    scan colon_end b' p0 = true /\ Forall (part_ok colon_end) ps /\
    tail = p0 ++ r /\ (r = [] \/ exists r', r = colons ++ r')) as Hstep.
  { intros b' Hb. destruct (IH tail b' (part ++ [c]) parts) as (p0 & ps & r & H1 & _ & H2 & H3 & H4 & H5);
      [lia|done|destruct Hlast as [|Hl]; [by left|right; destruct tail; [done|exact Hl]]|].
    exists p0, ps, r. rewrite H1. rewrite <- app_assoc. done. }
  cbn [split_loop] in Hne |- *. cbn [scan].
  assert (forall p0, part ++ c :: p0 ≠ []) as Hnn by (intros p0; by destruct part).
  destruct (c =? "[")%char eqn:Hopen; [|destruct (c =? "]")%char eqn:Hclose].
  - destruct b; [done|]. destruct (Hstep true Hne) as (p0 & ps & r & H1 & H2 & H3 & -> & H5).
    exists (c :: p0), ps, r. cbn [scan]. rewrite Hopen. auto 10.
  - destruct b; [|done]. destruct (Hstep false Hne) as (p0 & ps & r & H1 & H2 & H3 & -> & H5).
    exists (c :: p0), ps, r. cbn [scan]. rewrite Hopen, Hclose. auto 10.
  - destruct tail as [|c2 tail2].
    + destruct (Hstep b Hne) as (p0 & ps & r & H1 & H2 & H3 & H4 & H5).
      symmetry in H4. apply app_nil in H4 as [-> ->]. simpl in H2.
      exists [c], ps, []. cbn [scan]. rewrite Hopen, Hclose.
      split; [exact H1|]. split; [done|]. split; [|auto].
      destruct b; simpl in *; [done|]. destruct (c =? ":")%char eqn:Hc; [|done].
      apply Ascii.eqb_eq in Hc as ->. destruct Hlast as [->|Hl]; [done|]. by simpl in Hl.
    + destruct (negb b && (c =? ":")%char && (c2 =? ":")%char) eqn:Hsep.
      * apply andb_prop in Hsep as [Hsep Hc2]. apply andb_prop in Hsep as [Hb Hc].
        apply Ascii.eqb_eq in Hc as ->, Hc2 as ->. destruct b; [done|].
        case_bool_decide; [done|].
        destruct (IH tail2 false [] (parts ++ [part])) as (p0 & ps & r & H1 & H2 & H3 & H4 & H5 & _);
          [simpl in Hn; lia|done|destruct Hlast as [|Hl]; [by left|right]; by destruct tail2|].
        exists [], (p0 :: ps), (colons ++ tail2).
        rewrite H1, <- app_assoc, app_nil_r. simpl in *. split; [done|]. split; [done|].
        split; [done|]. split; [by constructor|]. split; [done|]. right. by exists tail2.
      * destruct (Hstep b Hne) as (p0 & ps & r & H1 & H2 & H3 & H4 & H5).
        exists (c :: p0), ps, r. cbn [scan]. rewrite Hopen, Hclose.
        split; [exact H1|]. split; [done|]. split; [|by rewrite H4].
        destruct (negb b && (c =? ":")%char) eqn:Hc; [|done]. simpl in Hsep.
        destruct p0 as [|c3 p0]; simpl in H4.
        { destruct H5 as [->|(r' & ->)]; [done|]. simpl in H4. simplify_eq. }
        simplify_eq. by rewrite Hsep.
Qed.

Lemma split_parts colon_end value :
  split value ≠ [] -> (colon_end = true \/ last value ≠ Some ":"%char) ->
  Forall (part_ok colon_end) (split value).
Proof.
  intros Hne Hlast. unfold split in *.
  destruct (split_loop_length colon_end (length value) value false [] [])
    as (p0 & ps & r & -> & ? & ? & ? & _); [lia|done..|].
  constructor; done.
Qed.

Lemma split_loop_skip p r b part parts :
  scan false b p = true -> (r = [] \/ exists r', r = colons ++ r') ->
  split_loop (p ++ r) b part parts = split_loop r false (part ++ p) parts.
Proof.
  intros Hs Hr. revert b part Hs. induction p as [|c p IH]; intros b part Hs.
  { destruct b; [done|]. by rewrite app_nil_r. }
  assert (forall b', scan false b' p = true ->
    split_loop (p ++ r) b' (part ++ [c]) parts = split_loop r false (part ++ c :: p) parts) as Hstep.
  { intros b' Hb. rewrite (IH b' (part ++ [c]) Hb), <- app_assoc. done. }
  cbn [scan] in Hs. rewrite <- app_comm_cons. cbn [split_loop].
  destruct (c =? "[")%char; [|destruct (c =? "]")%char].
  - destruct b; [done|]. by apply Hstep.
  - destruct b; [|done]. by apply Hstep.
  - destruct (negb b && (c =? ":")%char) eqn:Hc; simpl.
    + destruct p as [|c2 p]; [done|]. apply andb_prop in Hs as [Hc2 Hs].
      rewrite <- app_comm_cons. rewrite <- (Hstep b Hs).
      destruct (c2 =? ":")%char; [done|]. done.
    + rewrite <- (Hstep b Hs). by destruct (p ++ r).
Qed.

Lemma split_loop_join parts acc :
  Forall (part_ok false) parts -> parts ≠ [] ->
  split_loop (join parts) false [] acc = acc ++ parts.
Proof.
  intros Hok Hne. revert acc. induction Hok as [|p parts [Hp Hs] Hok IH]; intros acc; [done|].
  destruct parts as [|p2 parts]; cbn [join].
  - rewrite <- (app_nil_r p) at 1. rewrite split_loop_skip by auto.
    simpl. by rewrite bool_decide_false by done.
  - rewrite split_loop_skip by eauto. simpl app. cbn [split_loop].
    simpl Ascii.eqb. cbn. rewrite bool_decide_false by done.
    etrans; [by apply IH|]. by rewrite <- app_assoc.
Qed.

(** Splitting is the inverse of joining parts that hold no separator and do
    not end in a colon. *)
Lemma split_join parts :
  Forall (part_ok false) parts -> parts ≠ [] -> split (join parts) = parts.
Proof. intros. unfold split. by rewrite split_loop_join. Qed.

(** *** Parts without brackets and colons *)

Definition plain (c : ascii) : bool :=
  negb ((c =? "[")%char || (c =? "]")%char || (c =? ":")%char).

Lemma plain_scan e p : forallb plain p = true -> scan e false p = true.
Proof.
  induction p as [|c p IH]; [done|]. cbn [forallb scan]. unfold plain at 1. intros Hp.
  apply andb_prop in Hp as [Hc Hp].
  destruct (c =? "[")%char, (c =? "]")%char, (c =? ":")%char; try done. by apply IH.
Qed.

Lemma plain_ok e p : p ≠ [] -> forallb plain p = true -> part_ok e p.
Proof. intros. split; [done|]. by apply plain_scan. Qed.

(** ** Lemmas on numbers *)

Lemma isalnum_plain c : implb (isalnum c) (plain c) = true.
Proof. revert c. by_all_chars. Qed.

Lemma digit_char_alnum d : 0 <= d < 16 -> isalnum (digit_char d) = true.
Proof.
  intros Hd. rewrite <- (Z2Nat.id d) by lia.
  assert (Z.to_nat d < 16)%nat as Hn by lia. revert Hn. generalize (Z.to_nat d). intros n Hn.
  do 16 (destruct n as [|n]; [reflexivity|]). lia.
Qed.

Lemma print_fuel_all (P : ascii -> bool) base n z :
  2 <= base -> (forall d, 0 <= d < base -> P (digit_char d) = true) -> 0 <= z ->
  forallb P (print_fuel base n z) = true.
Proof.
  intros Hb HP. revert z. induction n as [|n IH]; intros z Hz; [done|]. cbn [print_fuel].
  destruct (Z.ltb_spec z base).
  - simpl. rewrite HP by lia. done.
  - rewrite forallb_app, IH by (apply Z.div_pos; lia). simpl.
    by rewrite HP by (apply Z.mod_pos_bound; lia).
Qed.

Lemma print_fuel_alnum base n z :
  2 <= base <= 16 -> 0 <= z -> forallb isalnum (print_fuel base n z) = true.
Proof. intros. apply print_fuel_all; [lia| |lia]. intros. apply digit_char_alnum. lia. Qed.

Lemma to_string_digits z : 0 <= z -> forallb isdigit (to_string z) = true.
Proof.
  intros. apply print_fuel_all; [lia| |lia]. intros d Hd.
  unfold isdigit, between, digit_char. rewrite (proj2 (Z.ltb_lt d 10)), uchar_chr by lia.
  apply andb_true_intro. lia.
Qed.

Lemma is_word_digits s w :
  s ≠ [] -> forallb isdigit s = true -> (forall c, head w = Some c -> isdigit c = false) ->
  is_word s w = false.
Proof.
  intros Hs Hd Hw. apply bool_decide_false. intros <-. destruct s as [|c s]; [done|].
  simpl in Hd. apply andb_prop in Hd as [Hd _]. specialize (Hw _ eq_refl).
  assert (implb (isdigit c) (isdigit (toupper c)) = true) as Hi; [|by rewrite Hd, Hw in Hi].
  clear. revert c. by_all_chars.
Qed.

Lemma alnum_plain p : forallb isalnum p = true -> forallb plain p = true.
Proof.
  rewrite !forallb_forall. intros H c Hc. specialize (H c Hc).
  pose proof (isalnum_plain c) as Hi. by rewrite H in Hi.
Qed.

Lemma print_fuel_nonempty base n z : print_fuel base (S n) z ≠ [].
Proof. cbn [print_fuel]. case_match; [done|]. by destruct (print_fuel base n _). Qed.

Lemma to_string_plain z : 0 <= z -> forallb plain (to_string z) = true.
Proof. intros. apply alnum_plain, print_fuel_alnum; lia. Qed.

Lemma to_string_nonempty z : to_string z ≠ [].
Proof. apply print_fuel_nonempty. Qed.

Lemma to_string_ok e z : 0 <= z -> part_ok e (to_string z).
Proof. intros. apply plain_ok; [apply to_string_nonempty|by apply to_string_plain]. Qed.

Lemma parse_decimal_to_string z maximum :
  0 <= z <= maximum -> maximum <= 65535 -> parse_decimal (to_string z) maximum = Some z.
Proof.
  intros Hz Hm. unfold parse_decimal. rewrite bool_decide_false by apply to_string_nonempty.
  unfold to_string. rewrite from_chars_print by lia.
  rewrite (proj2 (Z.ltb_ge _ _)) by lia. unfold u16. by rewrite Z.mod_small by lia.
Qed.

Lemma digit_value_nonneg base c d : digit_value base c = Some d -> 0 <= d.
Proof.
  unfold digit_value, isdigit, isupper, islower, between. intros Hd.
  pose proof (uchar_range c). repeat case_match; simplify_eq; lia.
Qed.

Lemma from_chars_range base maximum s v rest :
  2 <= base -> from_chars base maximum s = Some (v, rest) -> 0 <= v <= maximum.
Proof.
  intros Hb. unfold from_chars. destruct (span_digits base s) as [ds tail] eqn:Hspan.
  case_match eqn:Hc; [|done]. intros [= <- <-]. apply andb_prop in Hc as [_ Hc].
  split; [|lia]. clear Hc.
  assert (Forall (fun d => 0 <= d) ds) as Hds.
  { revert ds tail Hspan. induction s as [|c s IH]; intros ds tail; simpl.
    { intros [= <- <-]. constructor. }
    destruct (digit_value base c) eqn:Hd; [|intros [= <- <-]; constructor].
    destruct (span_digits base s). intros [= <- <-]. constructor; [|by eapply IH].
    by eapply digit_value_nonneg. }
  unfold digits_value. assert (0 <= 0) as Hacc by lia. revert Hacc. generalize 0 at 2 4. clear Hspan.
  induction Hds as [|d ds Hd _ IH]; intros acc Hacc; simpl; [done|]. apply IH. nia.
Qed.

Lemma parse_decimal_range value maximum z :
  parse_decimal value maximum = Some z -> 0 <= maximum <= 65535 -> 0 <= z <= maximum.
Proof.
  unfold parse_decimal. intros Hp Hm. case_bool_decide; [done|].
  destruct (from_chars 10 _ value) as [[v [|]]|] eqn:Hf; [|done..].
  apply from_chars_range in Hf; [|lia]. destruct (Z.ltb_spec maximum v); simplify_eq.
  unfold u16. rewrite Z.mod_small by lia. lia.
Qed.

Lemma parse_hex_id_range value z : parse_hex_id value = Some z -> 0 <= z <= 65535.
Proof.
  unfold parse_hex_id. destruct value as [|c0 [|c1 digits]]; [done..|].
  case_match; [done|]. destruct (from_chars 16 _ digits) as [[v [|]]|] eqn:Hf; [|done..].
  apply from_chars_range in Hf; [|lia]. destruct (Z.ltb_spec 65535 v); intros; simplify_eq.
  unfold u16. rewrite Z.mod_small by lia. lia.
Qed.

Lemma print_fuel_length base n z k :
  2 <= base -> 0 <= z < base ^ Z.of_nat k -> (0 < k)%nat ->
  (length (print_fuel base n z) <= k)%nat.
Proof.
  intros Hb. revert z k. induction n as [|n IH]; intros z k Hz Hk; [simpl; lia|].
  cbn [print_fuel]. destruct (Z.ltb_spec z base); [simpl; lia|].
  rewrite length_app. simpl. destruct k as [|[|k]]; [lia| |].
  - change (Z.of_nat 1) with 1 in Hz. lia.
  - assert (length (print_fuel base n (z / base)) <= S k)%nat; [|lia].
    apply IH; [|lia]. rewrite Nat2Z.inj_succ, Z.pow_succ_r in Hz by lia.
    split; [apply Z.div_pos; lia|]. apply Z.div_lt_upper_bound; lia.
Qed.

Lemma span_digits_zeros base n s :
  2 <= base -> (span_digits base (replicate n "0"%char ++ s)) =
    (replicate n 0 ++ (span_digits base s).1, (span_digits base s).2).
Proof.
  intros Hb. induction n as [|n IH]; simpl; [by destruct (span_digits base s)|].
  assert (digit_value base "0" = Some 0) as ->.
  { change (digit_value base "0") with (if 0 <? base then Some 0 else None).
    by rewrite (proj2 (Z.ltb_lt _ _)) by lia. }
  by rewrite IH.
Qed.

Lemma hex_id_length z : 0 <= z <= 65535 -> length (setw0 4 (upper_hex z)) = 4%nat.
Proof.
  intros Hz. unfold setw0. rewrite length_app, length_replicate.
  assert (length (upper_hex z) <= 4)%nat; [|lia].
  apply print_fuel_length; [lia| |lia]. change (16 ^ Z.of_nat 4) with 65536. lia.
Qed.

Lemma parse_hex_id_print z : 0 <= z <= 65535 -> parse_hex_id (hex_id z) = Some z.
Proof.
  intros Hz. pose proof (hex_id_length z Hz) as Hlen. unfold hex_id, parse_hex_id.
  cbn [list_ascii_of_string app]. cbn [length]. rewrite Hlen. cbn [Nat.eqb negb orb].
  change (("0" =? "0")%char) with true. change (("x" =? "x")%char) with true. cbn [negb orb andb].
  unfold from_chars, setw0. rewrite span_digits_zeros by lia.
  destruct (print_digits 16 z) as (ds & Hs & Hv & Hne); [lia..|]. unfold upper_hex.
  rewrite Hs. simpl. rewrite length_app, length_replicate, digits_value_app.
  assert (forall n, digits_value 16 (replicate n 0) = 0) as Hzeros by (intros n; by induction n).
  rewrite Hzeros.
  fold (digits_value 16 ds). rewrite Hv.
  assert (0 < length ds)%nat by (destruct ds; [done|simpl; lia]).
  rewrite (proj2 (Z.ltb_lt 0 _)), (proj2 (Z.leb_le z _)) by lia. simpl.
  rewrite (proj2 (Z.ltb_ge _ _)) by lia. unfold u16. by rewrite Z.mod_small by lia.
Qed.

Lemma hex_id_ok e z : 0 <= z -> part_ok e (hex_id z).
Proof.
  intros. apply plain_ok; [done|]. apply alnum_plain. unfold hex_id, setw0.
  rewrite !forallb_app. unfold upper_hex, print.
  rewrite print_fuel_alnum by lia. rewrite andb_true_r. simpl.
  induction (4 - _)%nat; [done|]. done.
Qed.

Lemma starts_with_app name s : starts_with name (name ++ s) = true.
Proof. unfold starts_with. rewrite take_app_length. by apply bool_decide_true. Qed.

Lemma parse_prefix_prefix name board :
  upper name = name -> 0 <= board <= 65535 -> parse_prefix (prefix name board) name = Some board.
Proof.
  intros Hname Hb. unfold parse_prefix, prefix.
  rewrite length_app, take_app_length, drop_app_length, Hname.
  rewrite (proj2 (Nat.ltb_ge _ _)) by lia. rewrite bool_decide_true by done. simpl.
  rewrite bool_decide_false by apply to_string_nonempty.
  by apply parse_decimal_to_string.
Qed.

Lemma parse_prefix_range token name z : parse_prefix token name = Some z -> 0 <= z <= 65535.
Proof.
  unfold parse_prefix. intros Hp. case_match; [done|]. case_bool_decide; [simplify_eq; lia|].
  apply parse_decimal_range in Hp; lia.
Qed.

Lemma prefix_ok e name board :
  forallb plain name = true -> name ≠ [] -> 0 <= board -> part_ok e (prefix name board).
Proof.
  intros Hp Hne Hb. apply plain_ok; [by destruct name|]. unfold prefix.
  by rewrite forallb_app, Hp, to_string_plain.
Qed.

(** ** What the parser returns *)

(** The descriptors of the accepted names, one constructor per resource class;
    the parts taken over from the name hold no separator. *)
Inductive parsed (e : bool) : ResourceDescriptor -> Prop :=
| ParsedMock :
    parsed e (descriptor project_mock WRVISA_INTF_MOCK 0 INSTR WRVISA_MOCK_RESOURCE
                [] 0 [] tp_none)
| ParsedAsrl board :
    0 <= board <= 65535 ->
    parsed e (descriptor asrl_instr VI_INTF_ASRL board INSTR
                (join [prefix ASRL board; INSTR]) [] 0 [] tp_none)
| ParsedIntfc board :
    0 <= board <= 65535 ->
    parsed e (descriptor gpib_intfc VI_INTF_GPIB board INTFC
                (join [prefix GPIB board; INTFC]) [] 0 [] tp_none)
| ParsedGpib board primary secondary :
    0 <= board <= 65535 -> 0 <= primary <= 30 ->
    (forall z, secondary = Some z -> 0 <= z <= 30) ->
    parsed e (mkResourceDescriptor gpib_instr VI_INTF_GPIB board INSTR
                (join (prefix GPIB board :: to_string primary ::
                       (if secondary is Some z then [to_string z; INSTR] else [INSTR])))
                [] 0 [] tp_none 0 0 [] 0 primary (default 0 secondary)
                (bool_decide (is_Some secondary)))
| ParsedSocket board display host port :
    0 <= board <= 65535 -> part_ok e display -> bare_host display = Some host -> host ≠ [] ->
    1 <= port <= 65535 ->
    parsed e (descriptor tcpip_socket VI_INTF_TCPIP board SOCKET
                (join [prefix TCPIP board; display; to_string port; SOCKET])
                host port [] tp_none)
| ParsedTcpip board display host device :
    0 <= board <= 65535 -> part_ok e display -> bare_host display = Some host -> host ≠ [] ->
    part_ok e device ->
    parsed e (descriptor tcpip_instr VI_INTF_TCPIP board INSTR
                (join [prefix TCPIP board; display; device; INSTR])
                host 0 device (tcpip_protocol device))
| ParsedUsb board vendor product serial interface resource_class :
    0 <= board <= 65535 -> 0 <= vendor <= 65535 -> 0 <= product <= 65535 ->
    part_ok e serial -> 0 <= interface <= 65535 ->
    resource_class = INSTR \/ resource_class = RAW ->
    parsed e (mkResourceDescriptor
                (if bool_decide (resource_class = RAW) then usb_raw else usb_instr)
                VI_INTF_USB board resource_class
                (join [prefix USB board; hex_id vendor; hex_id product; serial;
                       to_string interface; resource_class])
                [] 0 [] tp_none vendor product serial interface 0 0 false).

Lemma part_at e parts i :
  Forall (part_ok e) parts -> (i < length parts)%nat -> part_ok e (parts.[i]).
Proof.
  intros Hok Hi. destruct (lookup_lt_is_Some_2 parts i Hi) as [p Hp]. rewrite Hp.
  by eapply Forall_lookup_1.
Qed.

Lemma parse_asrl_parsed e parts d : parse_asrl parts = Some d -> parsed e d.
Proof.
  unfold parse_asrl. intros Hp. destruct (parse_prefix _ ASRL) as [board|] eqn:Hb; [|done].
  apply parse_prefix_range in Hb. case_match; simplify_eq. by apply ParsedAsrl.
Qed.

Lemma parse_gpib_parsed e parts d : parse_gpib parts = Some d -> parsed e d.
Proof.
  unfold parse_gpib. intros Hp. destruct (parse_prefix _ GPIB) as [board|] eqn:Hb; [|done].
  apply parse_prefix_range in Hb. case_match; [done|]. case_match; [simplify_eq; by apply ParsedIntfc|].
  apply bind_Some in Hp as (primary & Hpr & Hp). apply parse_decimal_range in Hpr; [|lia].
  apply bind_Some in Hp as (secondary & Hs & Hp). do 2 (case_match; [done|]). injection Hp as <-.
  assert (forall z, secondary = Some z -> 0 <= z <= 30) as Hsec.
  { intros z ->. case_match; [|done].
    destruct (parse_decimal (parts.[2]) 30) eqn:Hd; simplify_eq/=.
    apply parse_decimal_range in Hd; lia. }
  pose proof (ParsedGpib e board primary secondary Hb Hpr Hsec) as Hok.
  destruct secondary; exact Hok.
Qed.

Lemma parse_tcpip_parsed e parts d :
  Forall (part_ok e) parts -> parse_tcpip parts = Some d -> parsed e d.
Proof.
  unfold parse_tcpip. intros Hok Hp.
  destruct (parse_prefix _ TCPIP) as [board|] eqn:Hb; [|done].
  apply parse_prefix_range in Hb. case_match eqn:Hn; [done|].
  apply orb_false_elim in Hn as [Hn Hne]. apply bool_decide_eq_false in Hne.
  apply orb_false_elim in Hn as [Hn _]. apply Nat.ltb_ge in Hn.
  apply bind_Some in Hp as (host & Hh & Hp).
  case_bool_decide as Hh0; [done|].
  pose proof (part_at _ _ 1 Hok ltac:(lia)) as Hdisp.
  case_match eqn:Hsock.
  - destruct (parse_decimal (parts.[2]) 65535) as [port|] eqn:Hport; [|done].
    apply parse_decimal_range in Hport; [|lia].
    destruct (Z.eqb_spec port 0); [done|]. injection Hp as <-.
    apply (ParsedSocket e board (parts.[1]) host port); try done. lia.
  - apply bind_Some in Hp as (device & Hs & Hp). injection Hp as <-.
    apply (ParsedTcpip e board (parts.[1]) host device); try done.
    repeat case_match; simplify_eq; try (apply part_at; [done|]); try lia.
    all: try (match goal with H : _ && _ = true |- _ => apply andb_prop in H as [H _] end);
      try (match goal with H : Nat.eqb _ _ = true |- _ => apply Nat.eqb_eq in H; lia end).
    by apply plain_ok.
Qed.

Lemma parse_usb_parsed e parts d :
  Forall (part_ok e) parts -> parse_usb parts = Some d -> parsed e d.
Proof.
  unfold parse_usb. intros Hok Hp.
  destruct (parse_prefix _ USB) as [board|] eqn:Hb; [|done].
  apply parse_prefix_range in Hb. case_match eqn:Hn; [done|].
  apply orb_false_elim in Hn as [Hn _]. apply Nat.ltb_ge in Hn.
  apply bind_Some in Hp as (vendor & Hv & Hp). apply bind_Some in Hp as (product & Hpd & Hp).
  apply parse_hex_id_range in Hv, Hpd. case_bool_decide as Hs0; [done|].
  apply bind_Some in Hp as ([interface has] & Hi & Hp).
  apply bind_Some in Hp as (rc & Hrc & Hp). case_match; [done|]. injection Hp as <-.
  apply (ParsedUsb e board vendor product (parts.[3]) interface rc); try done.
  - apply part_at; [done|lia].
  - clear Hrc H. case_match; [|simplify_eq; lia].
    destruct (parse_decimal (parts.[4]) 65535) eqn:Hd; simplify_eq/=.
    apply parse_decimal_range in Hd; lia.
  - clear Hi H. case_match; [|simplify_eq; by left]. case_match eqn:Hw; simplify_eq.
    repeat case_bool_decide; simpl in Hw; auto; done.
Qed.

Lemma parse_resource_parsed e value d :
  parse_resource value = Some d -> (e = true \/ last value ≠ Some ":"%char) -> parsed e d.
Proof.
  unfold parse_resource. intros Hp Hlast. case_match; [done|].
  case_bool_decide; [simplify_eq; constructor|]. case_bool_decide as Hne; [done|].
  pose proof (split_parts e value Hne Hlast) as Hok.
  repeat case_match; [by eapply parse_asrl_parsed|by eapply parse_gpib_parsed
    |by eapply parse_tcpip_parsed|by eapply parse_usb_parsed|done].
Qed.

(** *** Reading a canonical name *)

(** [parse_resource] on a joined name dispatches on the first part. *)
Lemma parse_resource_join name board parts parser :
  Forall (part_ok false) (prefix name board :: parts) ->
  Z.of_nat (length (join (prefix name board :: parts))) < VI_FIND_BUFLEN ->
  upper name = name ->
  (name, parser) ∈ [(ASRL, parse_asrl); (GPIB, parse_gpib); (TCPIP, parse_tcpip); (USB, parse_usb)] ->
  parse_resource (join (prefix name board :: parts)) = parser (prefix name board :: parts).
Proof.
  intros Hok Hlen Hup Hin. unfold parse_resource.
  assert (exists tail, join (prefix name board :: parts) = name ++ tail) as [tail Hjoin].
  { unfold prefix. destruct parts; simpl; rewrite <- ?app_assoc; eauto. }
  rewrite (split_join _ Hok) by done. rewrite Hjoin in *.
  rewrite (proj2 (Z.leb_gt _ _)) by done. rewrite upper_app, Hup.
  assert (upper (default [] ((prefix name board :: parts) !! 0%nat)) = name ++ upper (to_string board)) as Hfirst.
  { simpl. unfold prefix. by rewrite upper_app, Hup. }
  rewrite Hfirst, (bool_decide_false (prefix name board :: parts = [])) by done.
  repeat (apply elem_of_cons in Hin as [Hin|Hin]); [..|by apply elem_of_nil in Hin];
    injection Hin as -> ->; cbn [app]; repeat (rewrite bool_decide_false by done);
    simpl orb; cbv match; reflexivity.
Qed.

Lemma is_word_number z w :
  0 <= z -> (forall c, head w = Some c -> isdigit c = false) -> is_word (to_string z) w = false.
Proof. intros. apply is_word_digits; [apply to_string_nonempty|by apply to_string_digits|done]. Qed.

Ltac parts_ok :=
  repeat (apply Forall_cons; split); try exact (List.Forall_nil _);
  first [ apply prefix_ok; [reflexivity|discriminate|lia]
        | apply to_string_ok; lia | apply hex_id_ok; lia
        | apply plain_ok; [discriminate|reflexivity]
        | assumption | idtac ].

(** The facts that evaluate a class parser on its own canonical parts. *)
Ltac eval_parts :=
  repeat first
    [ rewrite parse_prefix_prefix by (reflexivity || lia)
    | rewrite parse_decimal_to_string by lia
    | rewrite parse_hex_id_print by lia
    | rewrite is_word_number by
        (try lia; simpl; intros ? [= <-]; reflexivity)
    | progress cbn [length lookup list_lookup default option_map from_option Nat.ltb Nat.leb Nat.eqb
                    Nat.sub Nat.add orb andb negb mbind option_bind id] ].

Lemma parsed_canonical d :
  parsed false d -> Z.of_nat (length (rd_canonical_name d)) < VI_FIND_BUFLEN ->
  parse_resource (rd_canonical_name d) = Some d.
Proof.
  destruct 1 as [|board Hb|board Hb|board primary secondary Hb Hp Hs
    |board display host port Hb Hd Hh Hh0 Hport|board display host device Hb Hd Hh Hh0 Hdev
    |board vendor product serial interface rc Hb Hv Hpd Hser Hi Hrc]; cbn [rd_canonical_name descriptor];
    intros Hlen.
  - reflexivity.
  - rewrite (parse_resource_join ASRL board [INSTR] parse_asrl);
      [|parts_ok|done|done|repeat constructor]. unfold parse_asrl. by eval_parts.
  - rewrite (parse_resource_join GPIB board [INTFC] parse_gpib);
      [|parts_ok|done|done|repeat constructor]. unfold parse_gpib. by eval_parts.
  - destruct secondary as [z|].
    + specialize (Hs z eq_refl).
      rewrite (parse_resource_join GPIB board [to_string primary; to_string z; INSTR] parse_gpib);
        [|parts_ok|done|done|repeat constructor]. unfold parse_gpib. by eval_parts.
    + rewrite (parse_resource_join GPIB board [to_string primary; INSTR] parse_gpib);
        [|parts_ok|done|done|repeat constructor]. unfold parse_gpib. by eval_parts.
  - rewrite (parse_resource_join TCPIP board [display; to_string port; SOCKET] parse_tcpip);
      [|parts_ok|done|done|repeat constructor]. unfold parse_tcpip. eval_parts.
    rewrite bool_decide_false by apply Hd. rewrite Hh. eval_parts.
    rewrite bool_decide_false by done.
    change (is_word SOCKET SOCKET) with true. eval_parts.
    by rewrite (proj2 (Z.eqb_neq port 0)) by lia.
  - rewrite (parse_resource_join TCPIP board [display; device; INSTR] parse_tcpip);
      [|parts_ok|done|done|repeat constructor]. unfold parse_tcpip. eval_parts.
    rewrite bool_decide_false by apply Hd. rewrite Hh. eval_parts.
    by rewrite bool_decide_false by done.
  - rewrite (parse_resource_join USB board
      [hex_id vendor; hex_id product; serial; to_string interface; rc] parse_usb);
      [|parts_ok|done|done|repeat constructor].
    + unfold parse_usb. eval_parts. rewrite bool_decide_false by apply Hser.
      destruct Hrc as [-> | ->]; by eval_parts.
    + destruct Hrc as [-> | ->]; by apply plain_ok.
Qed.

(** ** Properties *)


(** The fields a resource class determines. *)
Definition class_fields (kind : ResourceKind) : Z * list str :=
  match kind with
  | asrl_instr => (VI_INTF_ASRL, [INSTR])
  | gpib_instr => (VI_INTF_GPIB, [INSTR])
  | gpib_intfc => (VI_INTF_GPIB, [INTFC])
  | tcpip_instr => (VI_INTF_TCPIP, [INSTR])
  | tcpip_socket => (VI_INTF_TCPIP, [SOCKET])
  | usb_instr => (VI_INTF_USB, [INSTR])
  | usb_raw => (VI_INTF_USB, [RAW])
  | project_mock => (WRVISA_INTF_MOCK, [INSTR])
  end.

(** C6: every accepted name yields a descriptor whose numbers lie in their
    16-bit fields, whose GPIB addresses are at most 30, whose port is non-zero
    exactly for sockets, whose host is present exactly for TCP/IP, whose serial
    number is present exactly for USB, and whose interface type and class are
    those of its kind; no conversion to [ViUInt16] loses a bit. *)
Theorem parse_resource_bounds value d :
  parse_resource value = Some d ->
  0 <= rd_interface_number d <= 65535 /\
  0 <= rd_usb_vendor_id d <= 65535 /\ 0 <= rd_usb_product_id d <= 65535 /\
  0 <= rd_usb_interface_number d <= 65535 /\
  0 <= rd_gpib_primary_address d <= 30 /\ 0 <= rd_gpib_secondary_address d <= 30 /\
  0 <= rd_port d <= 65535 /\
  (rd_port d ≠ 0 <-> rd_kind d = tcpip_socket) /\
  (rd_host d ≠ [] <-> rd_interface_type d = VI_INTF_TCPIP) /\
  (rd_usb_serial_number d ≠ [] <-> rd_interface_type d = VI_INTF_USB) /\
  (rd_tcpip_protocol d ≠ tp_none <-> rd_kind d = tcpip_instr) /\
  rd_interface_type d = (class_fields (rd_kind d)).1 /\
  [rd_resource_class d] = (class_fields (rd_kind d)).2.
Proof.
  intros Hp. apply (parse_resource_parsed true) in Hp; [|by left].
  destruct Hp as [|board Hb|board Hb|board primary secondary Hb Hpr Hs
    |board display host port Hb Hd Hh Hh0 Hport|board display host device Hb Hd Hh Hh0 Hdev
    |board vendor product serial interface rc Hb Hv Hpd [Hser _] Hi Hrc]; simpl.
  4: assert (0 <= default 0 secondary <= 30) by (destruct secondary; simpl; [by apply Hs|lia]).
  6: assert (tcpip_protocol device ≠ tp_none) by (unfold tcpip_protocol; repeat case_match; done).
  7: destruct Hrc as [-> | ->]; simpl.
  all: repeat split; try lia; try done; naive_solver lia.
Qed.

(** The side conditions of [canonical_name_round_trip] are needed. *)
Example canonical_name_not_reparsed :
  exists value d, parse_resource value = Some d /\ parse_resource (rd_canonical_name d) = None.
Proof. eexists (lit "TCPIP::h::dev:"), _. split; reflexivity. Qed.

(** ** Witnesses *)


Lemma parse_resource_bounds_witness :
  exists d, parse_resource (lit "GPIB3::7::30") = Some d /\ 0 <= rd_gpib_secondary_address d <= 30.
Proof.
  eexists. split; [vm_compute; reflexivity|].
  apply (parse_resource_bounds (lit "GPIB3::7::30") _ eq_refl).
Defined.
