(* ===== verification/FindExpression.v ===== *)
(** * Find expressions: [resource/find_expression.{h,cpp}]

    The expression of [viFindRsrc]: a regular expression over resource names
    and an optional attribute filter.  [Module Regular] is the class [Parser],
    [Module Attributes] the class [AttributeParser]; the two parsers' members
    ([position_], [nodes_] and the caller's [error]) are the state of a parser
    monad, a null pointer is [None].  The functions that recurse on the input
    take fuel, whose exhaustion is a third outcome, shown never to happen. *)

From stdpp Require Import sets.
From S2P Require Import Prelude Visa CText ResourceParser.

(** ** Expressions *)

Inductive FindNode :=
| fn_empty
| fn_literal (literal : ascii)
| fn_any
| fn_character_class (negated : bool) (ranges : list (ascii * ascii))
| fn_concatenation (children : list FindNode)
| fn_alternate (children : list FindNode)
| fn_repeat (one_or_more : bool) (child : FindNode).

Inductive Attribute := intf_type | intf_num | rsrc_class | rsrc_name | asrl_baud.

Inductive Compare := c_equal | c_not_equal | c_less | c_less_equal | c_greater | c_greater_equal.

#[global] Instance Attribute_eq_dec : EqDecision Attribute.
Proof. solve_decision. Defined.
#[global] Instance Compare_eq_dec : EqDecision Compare.
Proof. solve_decision. Defined.

Inductive FindAttributeNode :=
| fa_relation (attribute : Attribute) (compare : Compare) (string_value : bool)
    (number : Z) (text : str)
| fa_and (left right : FindAttributeNode)
| fa_or (left right : FindAttributeNode)
| fa_not (child : FindAttributeNode).

Definition fold (value : ascii) : ascii := toupper value.

(** ** The parser monad *)

(** [ps_rest] is the input from [position_] on. *)
Record pstate := mkPState { ps_rest : str; ps_nodes : Z; ps_error : str }.

Definition parser (A : Type) : Type := pstate -> option (A * pstate).

#[global] Instance parser_ret : MRet parser := fun A a s => Some (a, s).
#[global] Instance parser_bind : MBind parser :=
  fun A B f m s => match m s with Some (a, s') => f a s' | None => None end.

Definition out_of_fuel {A} : parser A := fun _ => None.
Definition null {A} : parser (option A) := mret None.
Definition set_error (message : str) : parser unit :=
  fun s => Some (tt, mkPState (ps_rest s) (ps_nodes s) message).

(** [error = message; return {};] *)
Definition fail_with {A} (message : str) : parser (option A) :=
  set_error message ≫= fun _ => null.

(** [if (error.empty()) error = message; return {};] *)
Definition fail_default {A} (message : str) : parser (option A) :=
  fun s => (if bool_decide (ps_error s = []) then fail_with message else null) s.

Definition has_error : parser bool :=
  fun s => Some (negb (bool_decide (ps_error s = [])), s).

(** [position_ < input_.size() && input_[position_] == ...] looks at [rest]. *)
Definition rest : parser str := fun s => Some (ps_rest s, s).
Definition advance (n : nat) : parser unit :=
  fun s => Some (tt, mkPState (drop n (ps_rest s)) (ps_nodes s) (ps_error s)).

(** [at_char c text]: the next character is [c]. *)
Definition at_char (c : ascii) (text : str) : bool :=
  match text with x :: _ => (x =? c)%char | [] => false end.

(** [make]: [build] is null only when a child is. *)
Definition make_node {A} (limit : Z) (message : str) (build : option A) : parser (option A) :=
  fun s =>
    let s' := mkPState (ps_rest s) (ps_nodes s + 1) (ps_error s) in
    if limit <? ps_nodes s + 1 then fail_with message s' else Some (build, s').

Definition start (input : str) (error : str) : pstate := mkPState input 0 error.

(** ** The class [Parser] *)

Module Regular.

Definition make (node : FindNode) : parser (option FindNode) :=
  make_node 512 (lit "expression is too complex") (Some node).

(** The returned NUL of the error branches is the source's [return 0]. *)
Definition class_character : parser ascii :=
  text ← rest;
  match text with
  | [] => set_error (lit "unclosed character class") ≫= fun _ => mret "000"%char
  | value :: tail =>
      advance 1 ≫= fun _ =>
      if (value =? "\")%char then
        match tail with
        | [] => set_error (lit "dangling class escape") ≫= fun _ => mret "000"%char
        | escaped :: _ => advance 1 ≫= fun _ => mret (fold escaped)
        end
      else mret (fold value)
  end.

(** The loop of [parse_class]; [has_entry] is [ranges ≠ []]. *)
Fixpoint class_loop (fuel : nat) (negated : bool) (ranges : list (ascii * ascii))
  : parser (option FindNode) :=
  match fuel with
  | O => out_of_fuel
  | S fuel =>
      text ← rest;
      if negb (bool_decide (text = [])) && negb (at_char "]" text) then
        begin ← class_character;
        failed ← has_error;
        if failed : bool then null
        else
          text ← rest;
          if Nat.leb 2 (length text) && at_char "-" text && negb (at_char "]" (drop 1 text)) then
            advance 1 ≫= fun _ =>
            last ← class_character;
            failed ← has_error;
            if (failed : bool) || (schar last <? schar begin)
            then fail_with (lit "invalid character range")
            else class_loop fuel negated (ranges ++ [(begin, last)])
          else class_loop fuel negated (ranges ++ [(begin, begin)])
      else if bool_decide (ranges = []) || negb (at_char "]" text)
      then fail_with (lit "empty or unclosed character class")
      else advance 1 ≫= fun _ => make (fn_character_class negated ranges)
  end.

Definition parse_class : parser (option FindNode) :=
  text ← rest;
  if at_char "^" text
  then advance 1 ≫= fun _ => class_loop (S (length text)) true []
  else class_loop (S (length text)) false [].

Definition is_quantifier (text : str) : bool := at_char "*" text || at_char "+" text.

Fixpoint parse_alternate (fuel depth : nat) : parser (option FindNode) :=
  match fuel with
  | O => out_of_fuel
  | S fuel =>
      if Nat.ltb 32 depth then fail_with (lit "expression nesting is too deep")
      else
        branch ← parse_concatenation fuel depth;
        match branch with
        | None => null
        | Some branch => alternate_loop fuel depth [branch]
        end
  end
with alternate_loop (fuel depth : nat) (branches : list FindNode) : parser (option FindNode) :=
  match fuel with
  | O => out_of_fuel
  | S fuel =>
      text ← rest;
      if at_char "|" text then
        advance 1 ≫= fun _ =>
        next ← parse_concatenation fuel depth;
        match next with
        | None => null
        | Some next => alternate_loop fuel depth (branches ++ [next])
        end
      else match branches with
           | [branch] => mret (Some branch)
           | _ => make (fn_alternate branches)
           end
  end
with parse_concatenation (fuel depth : nat) : parser (option FindNode) :=
  match fuel with
  | O => out_of_fuel
  | S fuel => concatenation_loop fuel depth []
  end
with concatenation_loop (fuel depth : nat) (sequence : list FindNode) : parser (option FindNode) :=
  match fuel with
  | O => out_of_fuel
  | S fuel =>
      text ← rest;
      if negb (bool_decide (text = [])) && negb (at_char ")" text) && negb (at_char "|" text) then
        atom ← parse_atom fuel depth;
        match atom with
        | None => null
        | Some atom =>
            text ← rest;
            if is_quantifier text then
              advance 1 ≫= fun _ =>
              repeated ← make (fn_repeat (at_char "+" text) atom);
              match repeated with
              | None => null
              | Some repeated =>
                  text ← rest;
                  if is_quantifier text then fail_with (lit "repeated quantifier")
                  else concatenation_loop fuel depth (sequence ++ [repeated])
              end
            else concatenation_loop fuel depth (sequence ++ [atom])
        end
      else match sequence with
           | [] => fail_with (lit "empty branch")
           | [atom] => mret (Some atom)
           | _ => make (fn_concatenation sequence)
           end
  end
with parse_atom (fuel depth : nat) : parser (option FindNode) :=
  match fuel with
  | O => out_of_fuel
  | S fuel =>
      text ← rest;
      match text with
      | [] => fail_with (lit "missing atom")
      | token :: tail =>
          advance 1 ≫= fun _ =>
          if (token =? "(")%char then
            group ← parse_alternate fuel (depth + 1);
            text ← rest;
            match group with
            | None => fail_default (lit "unclosed group")
            | Some group =>
                if at_char ")" text then advance 1 ≫= fun _ => mret (Some group)
                else fail_default (lit "unclosed group")
            end
          else if (token =? "[")%char then parse_class
          else if (token =? "?")%char then make fn_any
          else if (token =? "*")%char || (token =? "+")%char || (token =? ")")%char
          then fail_with (lit "operator without atom")
          else if (token =? "\")%char then
            match tail with
            | [] => fail_with (lit "dangling escape")
            | literal :: _ => advance 1 ≫= fun _ => make (fn_literal (fold literal))
            end
          else make (fn_literal (fold token))
      end
  end.

(** Enough for the recursion: every cycle of calls consumes a character. *)
Definition parse_fuel (input : str) : nat := 4 * length input + 4.

Definition contains (c : ascii) (text : str) : bool := existsb (Ascii.eqb c) text.

Definition parse (input : str) : parser (option FindNode) :=
  if bool_decide (input = []) || Nat.leb 256 (length input) || contains "{" input
     || contains "}" input
  then fail_with (lit "empty, oversized, or attribute-filter expression")
  else
    root ← parse_alternate (parse_fuel input) 0;
    text ← rest;
    match root with
    | None => fail_default (lit "unexpected token")
    | Some root =>
        if bool_decide (text = []) then mret (Some root)
        else fail_default (lit "unexpected token")
    end.

End Regular.

(** ** The class [AttributeParser] *)

Module Attributes.

Definition make (node : option FindAttributeNode) : parser (option FindAttributeNode) :=
  make_node 256 (lit "attribute expression is too complex") node.

Fixpoint skip_spaces (text : str) : str :=
  match text with
  | c :: tail => if isspace c then skip_spaces tail else text
  | [] => []
  end.

Definition skip_space : parser unit :=
  fun s => Some (tt, mkPState (skip_spaces (ps_rest s)) (ps_nodes s) (ps_error s)).

Definition consume (token : str) : parser bool :=
  skip_space ≫= fun _ =>
  text ← rest;
  if bool_decide (take (length token) text = token)
  then advance (length token) ≫= fun _ => mret true
  else mret false.

Definition attribute_id (identifier : str) : option Attribute :=
  let name := upper identifier in
  if bool_decide (name = lit "VI_ATTR_INTF_TYPE") then Some intf_type
  else if bool_decide (name = lit "VI_ATTR_INTF_NUM") then Some intf_num
  else if bool_decide (name = lit "VI_ATTR_RSRC_CLASS") then Some rsrc_class
  else if bool_decide (name = lit "VI_ATTR_RSRC_NAME") then Some rsrc_name
  else if bool_decide (name = lit "VI_ATTR_ASRL_BAUD") then Some asrl_baud
  else None.

(** The length of the longest prefix of characters satisfying [p]. *)
Fixpoint span_length (p : ascii -> bool) (text : str) : nat :=
  match text with
  | c :: tail => if p c then S (span_length p tail) else O
  | [] => O
  end.

Definition identifier : parser (option str) :=
  skip_space ≫= fun _ =>
  text ← rest;
  match text with
  | c :: tail =>
      if isalpha c then
        let n := S (span_length (fun x => isalnum x || (x =? "_")%char) tail) in
        advance n ≫= fun _ => mret (Some (take n text))
      else null
  | [] => null
  end.

Fixpoint compare_operators (table : list (str * Compare)) : parser (option Compare) :=
  match table with
  | [] => null
  | (token, comparison) :: table =>
      found ← consume token;
      if found : bool then mret (Some comparison) else compare_operators table
  end.

Definition compare_operator : parser (option Compare) :=
  compare_operators
    [(lit "==", c_equal); (lit "!=", c_not_equal); (lit ">=", c_greater_equal);
     (lit "<=", c_less_equal); (lit ">", c_greater); (lit "<", c_less)].

Definition quote : ascii := "034"%char.

Definition string_literal : parser (option str) :=
  skip_space ≫= fun _ =>
  text ← rest;
  if negb (at_char quote text) then null
  else
    advance 1 ≫= fun _ =>
    text ← rest;
    let n := span_length (fun c => negb (c =? quote)%char) text in
    advance n ≫= fun _ =>
    after ← rest;
    if bool_decide (after = []) then fail_with (lit "unclosed attribute string")
    else advance 1 ≫= fun _ => mret (Some (take n text)).

Definition number_literal : parser (option Z) :=
  skip_space ≫= fun _ =>
  from_start ← rest;
  (if at_char "-" from_start then advance 1 else mret tt) ≫= fun _ =>
  text ← rest;
  let hex := at_char "0" text && (at_char "x" (drop 1 text) || at_char "X" (drop 1 text)) in
  if hex && at_char "-" from_start
  then fail_with (lit "negative hexadecimal attribute value is not supported")
  else
    (if hex then advance 2 else mret tt) ≫= fun _ =>
    digits ← rest;
    let n := span_length (if hex then isxdigit else isdigit) digits in
    advance n ≫= fun _ =>
    if Nat.eqb n 0 then null
    else
      let first := if hex then take n digits
                   else take (length from_start - length digits + n) from_start in
      match from_chars_int64 (if hex then 16 else 10) first with
      | Some (value, []) => mret (Some value)
      | _ => fail_with (lit "attribute number is out of range")
      end.

Definition is_string_attribute (attribute : Attribute) : bool :=
  bool_decide (attribute = rsrc_class) || bool_decide (attribute = rsrc_name).

Definition parse_relation : parser (option FindAttributeNode) :=
  raw_identifier ← identifier;
  match raw_identifier with
  | None => fail_with (lit "missing attribute identifier")
  | Some raw_identifier =>
      match attribute_id raw_identifier with
      | None => fail_with (lit "unsupported or non-global attribute")
      | Some attribute =>
          comparison ← compare_operator;
          match comparison with
          | None => fail_with (lit "missing attribute comparison operator")
          | Some comparison =>
              if is_string_attribute attribute then
                if negb (bool_decide (comparison = c_equal))
                   && negb (bool_decide (comparison = c_not_equal))
                then fail_with (lit "string attributes only support == and !=")
                else
                  value ← string_literal;
                  match value with
                  | None => fail_default (lit "string attribute requires a quoted value")
                  | Some text => make (Some (fa_relation attribute comparison true 0 text))
                  end
              else
                value ← number_literal;
                match value with
                | None => fail_default (lit "numeric attribute requires a number")
                | Some number => make (Some (fa_relation attribute comparison false number []))
                end
          end
      end
  end.

(** After a [make] that fails in [parse_or] or [parse_and] the loop goes on
    with a null [left]. *)
Fixpoint parse_or (fuel depth : nat) : parser (option FindAttributeNode) :=
  match fuel with
  | O => out_of_fuel
  | S fuel =>
      left ← parse_and fuel depth;
      match left with
      | None => null
      | Some _ => or_loop fuel depth left
      end
  end
with or_loop (fuel depth : nat) (left : option FindAttributeNode)
  : parser (option FindAttributeNode) :=
  match fuel with
  | O => out_of_fuel
  | S fuel =>
      found ← consume (lit "||");
      if found : bool then
        right_node ← parse_and fuel depth;
        match right_node with
        | None => null
        | Some right_node =>
            left ← make (left ≫= fun left => Some (fa_or left right_node));
            or_loop fuel depth left
        end
      else mret left
  end
with parse_and (fuel depth : nat) : parser (option FindAttributeNode) :=
  match fuel with
  | O => out_of_fuel
  | S fuel =>
      left ← parse_factor fuel depth;
      match left with
      | None => null
      | Some _ => and_loop fuel depth left
      end
  end
with and_loop (fuel depth : nat) (left : option FindAttributeNode)
  : parser (option FindAttributeNode) :=
  match fuel with
  | O => out_of_fuel
  | S fuel =>
      found ← consume (lit "&&");
      if found : bool then
        right_node ← parse_factor fuel depth;
        match right_node with
        | None => null
        | Some right_node =>
            left ← make (left ≫= fun left => Some (fa_and left right_node));
            and_loop fuel depth left
        end
      else mret left
  end
with parse_factor (fuel depth : nat) : parser (option FindAttributeNode) :=
  match fuel with
  | O => out_of_fuel
  | S fuel =>
      if Nat.ltb 32 depth then fail_with (lit "attribute-expression nesting is too deep")
      else
        negation ← consume (lit "!");
        if negation : bool then
          child ← parse_factor fuel (depth + 1);
          match child with
          | None => null
          | Some child => make (Some (fa_not child))
          end
        else
          group ← consume (lit "(");
          if group : bool then
            child ← parse_or fuel (depth + 1);
            match child with
            | None => fail_default (lit "unclosed attribute-expression group")
            | Some child =>
                closed ← consume (lit ")");
                if closed : bool then mret (Some child)
                else fail_default (lit "unclosed attribute-expression group")
            end
          else parse_relation
  end.

Definition parse_fuel (input : str) : nat := 5 * length input + 5.

Definition parse (input : str) : parser (option FindAttributeNode) :=
  result ← parse_or (parse_fuel input) 0;
  skip_space ≫= fun _ =>
  text ← rest;
  match result with
  | None => fail_default (lit "unexpected attribute-expression token")
  | Some result =>
      if bool_decide (text = []) then mret (Some result)
      else fail_default (lit "unexpected attribute-expression token")
  end.

End Attributes.

(** ** Matching *)

(** [std::set<std::size_t>]. *)
Abbreviation Positions := (gset nat).

(** The union of what [matcher] reaches from the listed positions. *)
Fixpoint match_all (matcher : nat -> option Positions) (positions : list nat) : option Positions :=
  match positions with
  | [] => Some ∅
  | position :: positions =>
      matched ← matcher position;
      others ← match_all matcher positions;
      Some (matched ∪ others)
  end.

(** The loop of [repeat_closure] with [reached] and [frontier]: [next] holds
    the candidates whose insertion into [reached] succeeds. *)
Fixpoint closure_loop (fuel : nat) (child : nat -> option Positions)
    (reached frontier : Positions) : option Positions :=
  match fuel with
  | O => None
  | S fuel =>
      if bool_decide (frontier = ∅) then Some reached
      else
        candidates ← match_all child (elements frontier);
        let next := candidates ∖ reached in
        closure_loop fuel child (reached ∪ next) next
  end.

(** A text of [length] characters has [length + 1] positions, and every round
    but the last adds one. *)
Definition repeat_closure (length : nat) (child : nat -> option Positions)
    (initial : Positions) : option Positions :=
  closure_loop (length + 2) child initial initial.

(** The loop over the children of a concatenation, which stops early when no
    position is left. *)
Fixpoint match_sequence (children : list (nat -> option Positions)) (positions : Positions)
  : option Positions :=
  match children with
  | [] => Some positions
  | child :: children =>
      next ← match_all child (elements positions);
      if bool_decide (next = ∅) then Some next else match_sequence children next
  end.

(** The loop over the children of an alternation. *)
Fixpoint match_branches (children : list (nat -> option Positions)) (position : nat)
  : option Positions :=
  match children with
  | [] => Some ∅
  | child :: children =>
      matched ← child position;
      others ← match_branches children position;
      Some (matched ∪ others)
  end.

Definition in_range (character : ascii) (range : ascii * ascii) : bool :=
  (schar range.1 <=? schar character) && (schar character <=? schar range.2).

Fixpoint match_node (node : FindNode) (value : str) (position : nat) : option Positions :=
  match node with
  | fn_empty => Some {[position]}
  | fn_literal literal =>
      match value !! position with
      | Some c => if (fold c =? literal)%char then Some {[S position]} else Some ∅
      | None => Some ∅
      end
  | fn_any => Some (if Nat.ltb position (length value) then {[S position]} else ∅)
  | fn_character_class negated ranges =>
      match value !! position with
      | Some c =>
          let contained := existsb (in_range (fold c)) ranges in
          Some (if negb (Bool.eqb contained negated) then {[S position]} else ∅)
      | None => Some ∅
      end
  | fn_concatenation children =>
      match_sequence (map (fun child => match_node child value) children) {[position]}
  | fn_alternate children =>
      match_branches (map (fun child => match_node child value) children) position
  | fn_repeat one_or_more child =>
      if one_or_more then
        first ← match_node child value position;
        repeat_closure (length value) (match_node child value) first
      else repeat_closure (length value) (match_node child value) {[position]}
  end.

Definition compare_number (left : Z) (comparison : Compare) (right : Z) : bool :=
  match comparison with
  | c_equal => left =? right
  | c_not_equal => negb (left =? right)
  | c_less => left <? right
  | c_less_equal => left <=? right
  | c_greater => right <? left
  | c_greater_equal => right <=? left
  end.

Definition compare_string (left : str) (comparison : Compare) (right : str) : bool :=
  match comparison with
  | c_equal => bool_decide (left = right)
  | c_not_equal => negb (bool_decide (left = right))
  | _ => false
  end.

Fixpoint match_attributes (node : FindAttributeNode) (resource : ResourceDescriptor) : bool :=
  match node with
  | fa_and l r => match_attributes l resource && match_attributes r resource
  | fa_or l r => match_attributes l resource || match_attributes r resource
  | fa_not child => negb (match_attributes child resource)
  | fa_relation attribute compare _ number text =>
      match attribute with
      | intf_type => compare_number (rd_interface_type resource) compare number
      | intf_num => compare_number (rd_interface_number resource) compare number
      | rsrc_class => compare_string (rd_resource_class resource) compare text
      | rsrc_name => compare_string (rd_canonical_name resource) compare text
      | asrl_baud => bool_decide (rd_kind resource = asrl_instr)
                     && compare_number 9600 compare number
      end
  end.

(** ** The class [FindExpression] *)

Record FindExpression := mkFindExpression {
  fe_root : FindNode;
  fe_attributes : option FindAttributeNode }.

(** The index of the first [c], as [expression.find(c)]. *)
Fixpoint find_char (c : ascii) (text : str) : option nat :=
  match text with
  | [] => None
  | x :: tail => if (x =? c)%char then Some O else S <$> find_char c tail
  end.

(** The regular expression and the attribute filter, or the error message. *)
Definition split_expression (expression : str) : (str * str) + str :=
  match find_char "{" expression with
  | Some opening =>
      if Nat.eqb opening 0 || negb (bool_decide (last expression = Some "}"%char))
         || bool_decide (is_Some (find_char "{" (drop (S opening) expression)))
         || negb (bool_decide (find_char "}" expression = Some (length expression - 1)%nat))
      then inr (lit "malformed attribute-filter delimiter")
      else
        let attributes := take (length expression - opening - 2) (drop (S opening) expression) in
        if bool_decide (attributes = []) then inr (lit "empty attribute expression")
        else inl (take opening expression, attributes)
  | None =>
      if bool_decide (is_Some (find_char "}" expression))
      then inr (lit "malformed attribute-filter delimiter")
      else inl (expression, [])
  end.

(** The result and the final [error]; the outer [None] is exhausted fuel. *)
Definition compile (expression : str) : option (option FindExpression * str) :=
  if bool_decide (expression = []) || (VI_FIND_BUFLEN <=? Z.of_nat (length expression))
  then Some (None, lit "empty or oversized expression")
  else
    match split_expression expression with
    | inr message => Some (None, message)
    | inl (regular, attributes) =>
        '(root, s) ← Regular.parse regular (start regular []);
        match root with
        | None => Some (None, ps_error s)
        | Some root =>
            if bool_decide (attributes = []) then Some (Some (mkFindExpression root None), ps_error s)
            else
              '(attribute_root, s) ← Attributes.parse attributes (start attributes (ps_error s));
              match attribute_root with
              | None => Some (None, ps_error s)
              | Some attribute_root =>
                  Some (Some (mkFindExpression root (Some attribute_root)), ps_error s)
              end
        end
    end.

(** [matches(std::string_view)]. *)
Definition matches_name (expression : FindExpression) (value : str) : option bool :=
  positions ← match_node (fe_root expression) value 0;
  if negb (bool_decide (length value ∈ positions)) then Some false
  else Some match fe_attributes expression with
            | None => true
            | Some attributes =>
                match parse_resource value with
                | Some resource => match_attributes attributes resource
                | None => false
                end
            end.

(** [matches(const ResourceDescriptor&)]. *)
Definition matches (expression : FindExpression) (resource : ResourceDescriptor) : option bool :=
  positions ← match_node (fe_root expression) (rd_canonical_name resource) 0;
  Some (bool_decide (length (rd_canonical_name resource) ∈ positions) &&
        match fe_attributes expression with
        | None => true
        | Some attributes => match_attributes attributes resource
        end).
