(* ===== verification/FindMatch.v ===== *)
(** * The matcher of find expressions computes a language

    An abstract specification of [FindNode] as a set of texts, and the proof
    that [match_node] computes, from each position, exactly the positions its
    matches end at, and that its closure loop terminates. *)

From stdpp Require Import sets relations.
From S2P Require Import Prelude Visa CText ResourceParser FindExpression.

(** ** The language of an expression *)

(** [denotes node text]: [node] describes the whole of [text], letters
    compared after folding to upper case. *)
Inductive denotes : FindNode -> str -> Prop :=
| DenotesEmpty : denotes fn_empty []
| DenotesLiteral literal c : fold c = literal -> denotes (fn_literal literal) [c]
| DenotesAny c : denotes fn_any [c]
| DenotesClass negated ranges c :
    (exists range, range ∈ ranges /\
       schar range.1 <= schar (fold c) <= schar range.2) <-> negated = false ->
    denotes (fn_character_class negated ranges) [c]
| DenotesConcatenationNil : denotes (fn_concatenation []) []
| DenotesConcatenationCons child children text1 text2 :
    denotes child text1 -> denotes (fn_concatenation children) text2 ->
    denotes (fn_concatenation (child :: children)) (text1 ++ text2)
| DenotesAlternate child children text :
    child ∈ children -> denotes child text -> denotes (fn_alternate children) text
| DenotesRepeatNil child : denotes (fn_repeat false child) []
| DenotesRepeatCons one_or_more child text1 text2 :
    denotes child text1 -> denotes (fn_repeat false child) text2 ->
    denotes (fn_repeat one_or_more child) (text1 ++ text2).

(** Induction with a hypothesis for every child of a node. *)
Section node_induction.
Context (P : FindNode -> Prop).
Hypothesis Hempty : P fn_empty.
Hypothesis Hliteral : forall c, P (fn_literal c).
Hypothesis Hany : P fn_any.
Hypothesis Hclass : forall negated ranges, P (fn_character_class negated ranges).
Hypothesis Hconcatenation : forall children, Forall P children -> P (fn_concatenation children).
Hypothesis Halternate : forall children, Forall P children -> P (fn_alternate children).
Hypothesis Hrepeat : forall one_or_more child, P child -> P (fn_repeat one_or_more child).

Fixpoint FindNode_nested_ind (node : FindNode) : P node :=
  let all := fix all children : Forall P children :=
    match children with
    | [] => List.Forall_nil P
    | child :: children => List.Forall_cons P child children (FindNode_nested_ind child) (all children)
    end in
  match node with
  | fn_empty => Hempty
  | fn_literal c => Hliteral c
  | fn_any => Hany
  | fn_character_class negated ranges => Hclass negated ranges
  | fn_concatenation children => Hconcatenation children (all children)
  | fn_alternate children => Halternate children (all children)
  | fn_repeat one_or_more child => Hrepeat one_or_more child (FindNode_nested_ind child)
  end.
End node_induction.

(** ** Position sets *)

(** [outcome r P]: the computation [r] yields exactly the positions in [P]. *)
Definition outcome (r : option Positions) (P : nat -> Prop) : Prop :=
  exists positions, r = Some positions /\ forall q, q ∈ positions <-> P q.

Lemma outcome_equiv r P Q : (forall q, P q <-> Q q) -> outcome r P -> outcome r Q.
Proof. intros Heq (ps & -> & Hps). exists ps. split; [done|]. intros q. by rewrite Hps. Qed.

Lemma match_all_outcome matcher positions R :
  (forall p, p ∈ positions -> outcome (matcher p) (R p)) ->
  outcome (match_all matcher positions) (fun q => exists p, p ∈ positions /\ R p q).
Proof.
  induction positions as [|p positions IH]; intros Hm; simpl.
  { exists ∅. split; [done|]. intros q. set_solver. }
  destruct (Hm p ltac:(set_solver)) as (P1 & -> & H1).
  destruct IH as (P2 & -> & H2); [intros; apply Hm; set_solver|].
  exists (P1 ∪ P2). split; [done|]. intros q. set_solver.
Qed.

(** The set of positions up to [n]. *)
Definition upto (n : nat) : Positions := set_seq 0 (S n).

Lemma upto_size (n : nat) (P : Positions) : P ⊆ upto n -> (size P <= S n)%nat.
Proof.
  intros Hsub. etrans; [by apply subseteq_size|]. unfold upto. by rewrite size_set_seq.
Qed.

Section closure.
Context (n : nat) (child : nat -> option Positions) (R : nat -> nat -> Prop).
Hypothesis Hchild : forall p, (p <= n)%nat -> outcome (child p) (R p).
Hypothesis Hbound : forall p q, (p <= n)%nat -> R p q -> (q <= n)%nat.

Lemma closure_loop_outcome fuel (initial reached frontier : Positions) :
  reached ⊆ upto n -> initial ⊆ reached -> frontier ⊆ reached ->
  (forall q, q ∈ reached -> exists p, p ∈ initial /\ rtc R p q) ->
  (forall p q, p ∈ reached -> p ∉ frontier -> R p q -> q ∈ reached) ->
  (size reached + fuel >= n + 3 \/ (frontier = ∅ /\ 1 <= fuel))%nat ->
  outcome (closure_loop fuel child reached frontier)
    (fun q => exists p, p ∈ initial /\ rtc R p q).
Proof.
  revert reached frontier. induction fuel as [|fuel IH];
    intros reached frontier Hup Hin Hfr Hsound Hdone Hfuel.
  { pose proof (upto_size n _ Hup). lia. }
  cbn [closure_loop]. case_bool_decide as Hempty.
  { exists reached. split; [done|]. intros q. split; [apply Hsound|].
    intros (p & Hp & Hrtc). apply Hin in Hp.
    induction Hrtc as [|p p' q Hstep _ IHr]; [done|]. apply IHr, (Hdone p); set_solver. }
  destruct Hfuel as [Hfuel|[? _]]; [|done].
  assert (forall p, p ∈ elements frontier -> (p <= n)%nat) as Hle.
  { intros p Hp%elem_of_elements%Hfr%Hup. apply elem_of_set_seq in Hp. lia. }
  destruct (match_all_outcome child (elements frontier) R) as (cands & -> & Hc); [auto|].
  cbn [mbind option_bind]. apply IH.
  - intros q [Hq|Hq]%elem_of_union; [by apply Hup|].
    apply elem_of_difference in Hq as [Hq%Hc _]. destruct Hq as (p & Hp & HR).
    apply elem_of_set_seq. specialize (Hbound p q (Hle p Hp) HR). lia.
  - set_solver.
  - set_solver.
  - intros q [Hq|Hq]%elem_of_union; [by apply Hsound|].
    apply elem_of_difference in Hq as [Hq%Hc _]. destruct Hq as (p & Hp & HR).
    apply elem_of_elements, Hfr, Hsound in Hp as (p0 & ? & ?).
    exists p0. split; [done|]. by eapply rtc_r.
  - intros p q Hp Hnot HR. destruct (decide (p ∈ frontier)) as [Hpf|Hpf].
    + destruct (decide (q ∈ reached)); [set_solver|]. apply elem_of_union_r, elem_of_difference.
      split; [|done]. apply Hc. exists p. by rewrite elem_of_elements.
    + apply elem_of_union_l, (Hdone p); [set_solver|done..].
  - destruct (decide (cands ∖ reached = ∅)) as [->|Hne].
    + right. split; [done|]. pose proof (upto_size n _ Hup). lia.
    + left. rewrite size_union by set_solver.
      assert (size (cands ∖ reached) ≠ 0)%nat by (by intros Hz%size_empty_inv; set_solver). lia.
Qed.

Lemma repeat_closure_outcome (initial : Positions) :
  initial ⊆ upto n ->
  outcome (repeat_closure n child initial) (fun q => exists p, p ∈ initial /\ rtc R p q).
Proof.
  intros Hup. apply closure_loop_outcome; [done|done|done| | |].
  - intros q Hq. exists q. split; [done|apply rtc_refl].
  - done.
  - destruct (decide (initial = ∅)) as [->|Hne]; [right; split; [done|lia]|left].
    assert (size initial ≠ 0)%nat by (by intros Hz%size_empty_inv; set_solver). lia.
Qed.
End closure.

(** ** Texts between positions *)

Definition slice (value : str) (p q : nat) : str := take (q - p) (drop p value).

Lemma slice_self value p : slice value p p = [].
Proof. unfold slice. by rewrite Nat.sub_diag. Qed.

Lemma slice_all value : slice value 0 (length value) = value.
Proof. unfold slice. by rewrite drop_0, Nat.sub_0_r, firstn_all. Qed.

Lemma slice_length value p q : (p <= q <= length value)%nat -> length (slice value p q) = (q - p)%nat.
Proof. intros. unfold slice. rewrite length_take, length_drop. lia. Qed.

Lemma slice_app value p q r :
  (p <= q <= r)%nat -> slice value p r = slice value p q ++ slice value q r.
Proof.
  intros. unfold slice. replace (r - p)%nat with ((q - p) + (r - q))%nat by lia.
  rewrite <- take_take_drop, drop_drop. do 3 f_equal. lia.
Qed.

Lemma slice_split value p r text1 text2 :
  (p <= r <= length value)%nat -> slice value p r = text1 ++ text2 ->
  exists q, (p <= q <= r)%nat /\ text1 = slice value p q /\ text2 = slice value q r.
Proof.
  intros Hr Heq. assert (length text1 + length text2 = r - p)%nat as Hlen.
  { rewrite <- length_app, <- Heq. by apply slice_length. }
  exists (p + length text1)%nat. split; [lia|].
  rewrite (slice_app value p (p + length text1) r) in Heq by lia.
  apply app_inj_1 in Heq as [H1 H2]; [by rewrite H1, H2|]. rewrite slice_length; lia.
Qed.

Lemma slice_char value p c :
  slice value p (S p) = [c] <-> value !! p = Some c.
Proof.
  unfold slice. replace (S p - p)%nat with 1%nat by lia. rewrite <- (Nat.add_0_r p) at 2.
  rewrite <- lookup_drop. destruct (drop p value) as [|x l]; simpl; naive_solver.
Qed.

(** ** The positions a node can end at *)

Definition ends (value : str) (node : FindNode) (p q : nat) : Prop :=
  (p <= q <= length value)%nat /\ denotes node (slice value p q).

Lemma denotes_concatenation_cons child children text :
  denotes (fn_concatenation (child :: children)) text ->
  exists text1 text2, text = text1 ++ text2 /\ denotes child text1 /\
    denotes (fn_concatenation children) text2.
Proof. inversion 1; eauto 10. Qed.

Lemma denotes_repeat_one child text :
  denotes (fn_repeat true child) text ->
  exists text1 text2, text = text1 ++ text2 /\ denotes child text1 /\
    denotes (fn_repeat false child) text2.
Proof. inversion 1; eauto 10. Qed.

Lemma ends_concatenation_nil value p q :
  (p <= length value)%nat -> ends value (fn_concatenation []) p q <-> q = p.
Proof.
  intros Hp. split.
  - intros [Hq Hd]. assert (slice value p q = []) as Hnil by (by inversion Hd).
    apply (f_equal length) in Hnil. rewrite slice_length in Hnil by lia. simpl in Hnil. lia.
  - intros ->. split; [lia|]. rewrite slice_self. constructor.
Qed.

Lemma ends_concatenation_cons value child children p q :
  ends value (fn_concatenation (child :: children)) p q <->
  exists m, ends value child p m /\ ends value (fn_concatenation children) m q.
Proof.
  split.
  - intros [Hq Hd]. apply denotes_concatenation_cons in Hd as (text1 & text2 & Heq & H1 & H2).
    apply slice_split in Heq as (m & ? & -> & ->); [|lia].
    exists m. repeat split; (lia || done).
  - intros (m & [? H1] & [? H2]). split; [lia|]. rewrite (slice_app _ p m q) by lia.
    by constructor.
Qed.

Lemma ends_alternate value children p q :
  ends value (fn_alternate children) p q <-> exists child, child ∈ children /\ ends value child p q.
Proof.
  split.
  - intros [Hq Hd]. inversion Hd; subst. unfold ends. eauto.
  - intros (child & ? & ? & ?). split; [done|]. by eapply DenotesAlternate.
Qed.

Lemma ends_repeat value child p q :
  (p <= length value)%nat ->
  ends value (fn_repeat false child) p q <-> rtc (ends value child) p q.
Proof.
  intros Hp. split.
  - intros [Hq Hd]. remember (slice value p q) as text eqn:Htext.
    remember (fn_repeat false child) as node eqn:Hnode.
    revert p q Hp Hq Htext Hnode. induction Hd; intros p q Hp Hq Htext Hnode; try discriminate.
    + symmetry in Htext. apply (f_equal length) in Htext. rewrite slice_length in Htext by lia.
      simpl in Htext. replace q with p by lia. apply rtc_refl.
    + injection Hnode as -> ->. symmetry in Htext.
      apply slice_split in Htext as (m & ? & -> & ->); [|lia].
      apply rtc_l with m; [split; [lia|done]|]. by apply IHHd2; [lia|lia|..].
  - induction 1 as [p|p m q [? Hstep] _ IH].
    + split; [lia|]. rewrite slice_self. constructor.
    + destruct IH as [? Hd]; [lia|]. split; [lia|]. rewrite (slice_app _ p m q) by lia.
      by constructor.
Qed.

Lemma ends_repeat_one value child p q :
  ends value (fn_repeat true child) p q <->
  exists m, ends value child p m /\ ends value (fn_repeat false child) m q.
Proof.
  split.
  - intros [Hq Hd]. apply denotes_repeat_one in Hd as (text1 & text2 & Heq & H1 & H2).
    apply slice_split in Heq as (m & ? & -> & ->); [|lia].
    exists m. repeat split; (lia || done).
  - intros (m & [? H1] & [? H2]). split; [lia|]. rewrite (slice_app _ p m q) by lia.
    by constructor.
Qed.

(** A node describing single characters. *)
Lemma ends_char value node (Q : ascii -> Prop) p q :
  (forall text, denotes node text <-> exists c, text = [c] /\ Q c) ->
  ends value node p q <-> q = S p /\ exists c, value !! p = Some c /\ Q c.
Proof.
  intros Hnode. unfold ends. rewrite Hnode. split.
  - intros (Hq & c & Heq & HQ). pose proof (f_equal length Heq) as Hlen.
    rewrite slice_length in Hlen by lia. simpl in Hlen. assert (q = S p) as -> by lia.
    split; [done|]. exists c. by rewrite <- slice_char.
  - intros (-> & c & Hc & HQ). pose proof (lookup_lt_Some _ _ _ Hc). split; [lia|].
    exists c. by rewrite slice_char.
Qed.

(** ** The matcher *)

(** The single-character cases share this: a matcher that looks at one
    character of [value] and advances by one. *)
Lemma outcome_char (value : str) p (test : ascii -> bool) (Q : ascii -> Prop) :
  (forall c, test c = true <-> Q c) ->
  outcome
    (match value !! p with
     | Some c => Some (if test c then {[S p]} else ∅)
     | None => Some ∅
     end)
    (fun q => q = S p /\ exists c, value !! p = Some c /\ Q c).
Proof.
  intros Htest. destruct (value !! p) as [c|].
  - eexists. split; [done|]. intros q. specialize (Htest c).
    destruct (test c); [|set_solver]. rewrite elem_of_singleton. naive_solver.
  - eexists. split; [done|]. set_solver.
Qed.

(** A node that spells out the test it makes on one character. *)
Lemma outcome_test value node p (test : ascii -> bool) (Q : ascii -> Prop) :
  (forall text, denotes node text <-> exists c, text = [c] /\ Q c) ->
  (forall c, test c = true <-> Q c) ->
  outcome
    (match value !! p with
     | Some c => Some (if test c then {[S p]} else ∅)
     | None => Some ∅
     end) (ends value node p).
Proof.
  intros Hnode Htest. eapply outcome_equiv; [|by apply outcome_char].
  intros q. symmetry. by apply ends_char.
Qed.

Definition matches_child (value : str) (child : FindNode) : Prop :=
  forall p, (p <= length value)%nat -> outcome (match_node child value p) (ends value child p).

Lemma match_sequence_outcome value children (positions : Positions) :
  Forall (matches_child value) children ->
  (forall m, m ∈ positions -> m <= length value)%nat ->
  outcome (match_sequence (map (fun child => match_node child value) children) positions)
    (fun q => exists m, m ∈ positions /\ ends value (fn_concatenation children) m q).
Proof.
  intros Hall. revert positions.
  induction Hall as [|child children Hchild _ IH]; intros positions Hle; simpl.
  - exists positions. split; [done|]. intros q. split.
    + intros Hq. exists q. split; [done|]. by apply ends_concatenation_nil; [apply Hle|].
    + intros (m & Hm & Hq). apply ends_concatenation_nil in Hq as ->; [done|by apply Hle].
  - destruct (match_all_outcome (match_node child value) (elements positions)
      (ends value child)) as (next & -> & Hnext).
    { intros m Hm%elem_of_elements. by apply Hchild, Hle. }
    cbn [mbind option_bind]. setoid_rewrite elem_of_elements in Hnext.
    apply (outcome_equiv _ (fun q => exists m, m ∈ next /\
      ends value (fn_concatenation children) m q)).
    { intros q. setoid_rewrite Hnext. setoid_rewrite ends_concatenation_cons. naive_solver. }
    case_bool_decide as Hempty.
    + exists next. split; [done|]. subst next. set_solver.
    + apply IH. intros m Hm. apply Hnext in Hm as (m0 & _ & ? & _). lia.
Qed.

Lemma match_branches_outcome value children p :
  Forall (matches_child value) children -> (p <= length value)%nat ->
  outcome (match_branches (map (fun child => match_node child value) children) p)
    (fun q => exists child, child ∈ children /\ ends value child p q).
Proof.
  intros Hall Hp. induction Hall as [|child children Hchild _ IH]; simpl.
  { exists ∅. split; [done|]. set_solver. }
  destruct (Hchild p Hp) as (matched & -> & H1). destruct IH as (others & -> & H2).
  exists (matched ∪ others). split; [done|]. intros q.
  rewrite elem_of_union, H1, H2. setoid_rewrite elem_of_cons. naive_solver.
Qed.

Lemma match_repeat_outcome value one_or_more child p :
  matches_child value child -> (p <= length value)%nat ->
  outcome (match_node (fn_repeat one_or_more child) value p)
    (ends value (fn_repeat one_or_more child) p).
Proof.
  intros Hchild Hp. assert (forall m q, (m <= length value)%nat -> ends value child m q ->
    (q <= length value)%nat) as Hbound by (intros m q _ [? _]; lia).
  cbn [match_node]. destruct one_or_more.
  - destruct (Hchild p Hp) as (first & -> & Hfirst). cbn [mbind option_bind].
    eapply outcome_equiv; [|apply (repeat_closure_outcome _ _ _ Hchild Hbound)].
    + intros q. rewrite ends_repeat_one. setoid_rewrite Hfirst.
      split; intros (m & Hm & ?); exists m; (split; [done|]); destruct Hm as [? _];
        apply (ends_repeat value child m q); (lia || done).
    + intros m [? _]%Hfirst. apply elem_of_set_seq. lia.
  - eapply outcome_equiv; [|apply (repeat_closure_outcome _ _ _ Hchild Hbound)].
    + intros q. rewrite ends_repeat by done. set_solver.
    + intros m ->%elem_of_singleton. apply elem_of_set_seq. lia.
Qed.

(** Proves the language of a single-character node. *)
Ltac by_char_node :=
  intros text; split; [inversion 1; eauto|intros (c & -> & Hc); subst; by constructor].

Lemma match_node_outcome value node : matches_child value node.
Proof.
  induction node as [|literal| |negated ranges|children IH|children IH|one_or_more child IH]
    using FindNode_nested_ind; intros p Hp.
  - eapply outcome_equiv; [|exists {[p]}; split; [done|intros q; apply elem_of_singleton]].
    intros q. rewrite <- (ends_concatenation_nil value p q) by done.
    unfold ends. split; intros [? Hd]; (split; [done|]); inversion Hd; constructor.
  - pose proof (outcome_test value (fn_literal literal) p (fun c => (fold c =? literal)%char)
      (fun c => fold c = literal) ltac:(by_char_node) (fun c => Ascii.eqb_eq _ _)) as Ho.
    simpl. destruct (value !! p) as [c|]; [|done]. by destruct (fold c =? literal)%char.
  - pose proof (outcome_test value fn_any p (fun _ => true) (fun _ => True)
      ltac:(by_char_node) ltac:(done)) as Ho.
    simpl. destruct (value !! p) as [c|] eqn:Hc.
    + apply lookup_lt_Some in Hc. by rewrite (proj2 (Nat.ltb_lt _ _) Hc).
    + apply lookup_ge_None in Hc. by rewrite (proj2 (Nat.ltb_ge _ _) Hc).
  - apply (outcome_test value (fn_character_class negated ranges) p
      (fun c => negb (Bool.eqb (existsb (in_range (fold c)) ranges) negated)) (fun c =>
      (exists range, range ∈ ranges /\ schar range.1 <= schar (fold c) <= schar range.2)
        <-> negated = false)); [by_char_node|].
    intros c. assert (existsb (in_range (fold c)) ranges = true <->
      exists range, range ∈ ranges /\ schar range.1 <= schar (fold c) <= schar range.2) as <-.
    { rewrite existsb_exists. unfold in_range. setoid_rewrite andb_true_iff.
      setoid_rewrite Z.leb_le. by setoid_rewrite list_elem_of_In. }
    destruct (existsb _ _), negated; naive_solver.
  - eapply outcome_equiv; [|apply (match_sequence_outcome value children {[p]} IH); set_solver].
    intros q. set_solver.
  - eapply outcome_equiv; [|by apply (match_branches_outcome value children p IH)].
    intros q. symmetry. apply ends_alternate.
  - by apply match_repeat_outcome.
Qed.
