(* ===== verification/FindGrammar.v ===== *)
(** * The regular-expression parser and its grammar

    An inductive grammar of the regular part of find expressions with the tree
    each text stands for, and the proof that the class [Parser] accepts exactly
    the texts of the grammar and builds their trees, within its fuel and without
    ever reaching its limit of 512 nodes. *)

From S2P Require Import Prelude Visa CText ResourceParser FindExpression.
Import Regular.

(** ** The grammar *)

(** One, possibly escaped, character of a class. *)
Inductive class_char : str -> ascii -> Prop :=
| ClassPlain c : c ≠ "\"%char -> c ≠ "]"%char -> class_char [c] (fold c)
| ClassEscaped c : class_char ["\"%char; c] (fold c).

(** A dash before the closing bracket is a plain character. *)
Definition starts_range (body : str) : bool := Nat.leb 2 (length body) && at_char "-" body.

(** The text between the brackets. *)
Inductive class_body : str -> list (ascii * ascii) -> Prop :=
| ClassEnd : class_body [] []
| ClassSingle text c body ranges :
    class_char text c -> starts_range body = false -> class_body body ranges ->
    class_body (text ++ body) ((c, c) :: ranges)
| ClassRange text1 c1 text2 c2 body ranges :
    class_char text1 c1 -> class_char text2 c2 -> schar c1 <= schar c2 ->
    class_body body ranges ->
    class_body (text1 ++ "-"%char :: text2 ++ body) ((c1, c2) :: ranges).

Definition ordinary (c : ascii) : bool := negb (contains c (lit "()[?*+\|")).

(** A single child stands for itself. *)
Definition collapse (build : list FindNode -> FindNode) (children : list FindNode) : FindNode :=
  match children with [child] => child | _ => build children end.

Inductive atom_syntax : nat -> str -> FindNode -> Prop :=
| AtomLiteral d c : ordinary c = true -> atom_syntax d [c] (fn_literal (fold c))
| AtomEscape d c : atom_syntax d ["\"%char; c] (fn_literal (fold c))
| AtomAny d : atom_syntax d ["?"%char] fn_any
| AtomClass d (negated : bool) body ranges :
    class_body body ranges -> ranges ≠ [] -> (negated = false -> at_char "^" body = false) ->
    atom_syntax d ("["%char :: (if negated then ["^"%char] else []) ++ body ++ ["]"%char])
      (fn_character_class negated ranges)
| AtomGroup d text node :
    alternate_syntax (d + 1) text node -> atom_syntax d ("("%char :: text ++ [")"%char]) node
with factors_syntax : nat -> str -> list FindNode -> Prop :=
| FactorsNil d : factors_syntax d [] []
| FactorsAtom d text atom texts nodes :
    atom_syntax d text atom -> factors_syntax d texts nodes ->
    factors_syntax d (text ++ texts) (atom :: nodes)
| FactorsRepeat d text atom (one_or_more : bool) texts nodes :
    atom_syntax d text atom -> factors_syntax d texts nodes ->
    factors_syntax d (text ++ (if one_or_more then "+"%char else "*"%char) :: texts)
      (fn_repeat one_or_more atom :: nodes)
with concatenation_syntax : nat -> str -> FindNode -> Prop :=
| ConcatenationSyntax d text nodes :
    factors_syntax d text nodes -> nodes ≠ [] ->
    concatenation_syntax d text (collapse fn_concatenation nodes)
with branches_syntax : nat -> str -> list FindNode -> Prop :=
| BranchesNil d : branches_syntax d [] []
| BranchesCons d text node texts nodes :
    concatenation_syntax d text node -> branches_syntax d texts nodes ->
    branches_syntax d ("|"%char :: text ++ texts) (node :: nodes)
with alternate_syntax : nat -> str -> FindNode -> Prop :=
| AlternateSyntax d text node texts nodes :
    (d <= 32)%nat -> concatenation_syntax d text node -> branches_syntax d texts nodes ->
    alternate_syntax d (text ++ texts) (collapse fn_alternate (node :: nodes)).

(** ** The states between which the parser moves *)

(** [s'] follows [s] after consuming [text] and making at most [made] nodes. *)
Definition moved (s s' : pstate) (text : str) (made : Z) : Prop :=
  ps_rest s = text ++ ps_rest s' /\ ps_nodes s' <= ps_nodes s + made /\
  ps_error s = [] /\ ps_error s' = [].

(** A result that is an error, or a node read by a move the specification [Q]
    describes. *)
Definition reads (s : pstate) (Q : str -> FindNode -> pstate -> Prop)
    (r : option (option FindNode * pstate)) : Prop :=
  exists a s', r = Some (a, s') /\
    match a with
    | None => ps_error s' ≠ []
    | Some node => exists text, Q text node s'
    end.

(** Room for the nodes of the remaining text and [pending] more. *)
Definition room (s : pstate) (pending : nat) : Prop :=
  ps_error s = [] /\
  ps_nodes s + 2 * Z.of_nat (length (ps_rest s)) + Z.of_nat pending <= 512.

Lemma make_ok node s :
  ps_nodes s < 512 -> make node s = Some (Some node, mkPState (ps_rest s) (ps_nodes s + 1) (ps_error s)).
Proof. intros Hn. unfold make, make_node. by rewrite (proj2 (Z.ltb_ge _ _)) by lia. Qed.

Lemma fail_with_reads s Q message :
  message ≠ [] -> reads s Q (fail_with message s).
Proof. intros Hm. eexists None, _. split; [done|]. exact Hm. Qed.

Lemma fail_default_reads s s' Q message :
  message ≠ [] -> reads s Q (fail_default message s').
Proof.
  intros Hm. unfold fail_default. case_bool_decide as He.
  - eexists None, _. split; [done|]. exact Hm.
  - eexists None, s'. by split.
Qed.

Lemma at_char_cons c text : at_char c text = true <-> exists tail, text = c :: tail.
Proof.
  destruct text as [|x tail]; simpl; [split; [done|by intros [? ?]]|].
  rewrite Ascii.eqb_eq. naive_solver.
Qed.

(** Executes the monad's primitives. *)
Ltac run :=
  unfold mbind, parser_bind, rest, advance, mret, parser_ret, has_error, set_error, null;
  cbn [ps_rest ps_nodes ps_error].

(** ** Character classes *)

Lemma class_char_head text c body : class_char text c -> at_char "]" (text ++ body) = false.
Proof. destruct 1 as [c _ Hc|c]; simpl; [|done]. by apply Ascii.eqb_neq. Qed.

Lemma class_body_head body ranges : class_body body ranges -> at_char "]" body = false.
Proof. destruct 1; [done|by eapply class_char_head..]. Qed.

Lemma class_character_reads s :
  ps_error s = [] -> at_char "]" (ps_rest s) = false ->
  exists c s', class_character s = Some (c, s') /\
    (ps_error s' ≠ [] \/
     exists text, class_char text c /\ moved s s' text 0 /\ (1 <= length text)%nat).
Proof.
  intros He Hb. unfold class_character. run.
  destruct (ps_rest s) as [|c tail] eqn:Hr; [eexists _, _; split; [done|by left]|].
  simpl in Hb. apply Ascii.eqb_neq in Hb. cbn [ps_rest ps_nodes ps_error drop].
  destruct (Ascii.eqb_spec c "\") as [->|Hc].
  - destruct tail as [|e tail]; [eexists _, _; split; [done|by left]|].
    eexists _, _. split; [done|]. right. exists ["\"%char; e]. split; [constructor|].
    unfold moved. rewrite Hr. simpl. repeat split; (done || lia).
  - eexists _, _. split; [done|]. right. exists [c]. split; [by constructor|].
    unfold moved. rewrite Hr. simpl. repeat split; (done || lia).
Qed.

(** Whether the loop takes the dash as the sign of a range is what
    [starts_range] tells of the body it goes on to read. *)
Lemma starts_range_body body ranges tail :
  class_body body ranges ->
  Nat.leb 2 (length (body ++ "]"%char :: tail)) && at_char "-" (body ++ "]"%char :: tail)
    && negb (at_char "]" (drop 1 (body ++ "]"%char :: tail))) = starts_range body.
Proof.
  intros Hbody. unfold starts_range. destruct body as [|c1 [|c2 body]]; simpl; [by destruct tail| |].
  - by rewrite andb_false_r.
  - destruct (Ascii.eqb_spec c1 "-") as [->|]; [|done]. simpl.
    destruct (Ascii.eqb_spec c2 "]") as [->|]; [|done]. exfalso.
    inversion Hbody as [|text c body' rs Hc _ Hb Heq|text1 a text2 b body' rs Ha _ _ _ Heq].
    + inversion Hc; subst; simplify_eq/=. by apply class_body_head in Hb.
    + inversion Ha; subst; simplify_eq/=.
Qed.

Lemma class_loop_reads fuel negated ranges s :
  ps_error s = [] -> ps_nodes s < 512 -> (length (ps_rest s) < fuel)%nat ->
  reads s (fun text node s' => exists body more,
      class_body body more /\ ranges ++ more ≠ [] /\
      node = fn_character_class negated (ranges ++ more) /\
      text = body ++ ["]"%char] /\ moved s s' text 1)
    (class_loop fuel negated ranges s).
Proof.
  revert ranges s. induction fuel as [|fuel IH]; intros ranges s He Hn Hf; [lia|].
  cbn [class_loop]. run.
  destruct (negb (bool_decide (ps_rest s = [])) && negb (at_char "]" (ps_rest s))) eqn:Hgo.
  - apply andb_prop in Hgo as [_ Hb%negb_true_iff].
    destruct (class_character_reads s He Hb) as (c & s1 & -> & [Hbad|(text & Hc & Hm & Hlen)]).
    { rewrite bool_decide_false by done. eexists None, s1. by split. }
    destruct Hm as (Hr & Hn1 & _ & He1). rewrite bool_decide_true by done. cbn [negb].
    assert (length (ps_rest s) = length text + length (ps_rest s1))%nat as Hl
      by (by rewrite Hr, length_app).
    destruct (_ && negb (at_char "]" (drop 1 (ps_rest s1)))) eqn:Hdash.
    + apply andb_prop in Hdash as [Hdash Hb1%negb_true_iff].
      apply andb_prop in Hdash as [_ (tail & Ht)%at_char_cons].
      rewrite Ht in Hb1. rewrite skipn_cons, drop_0 in Hb1.
      edestruct (class_character_reads (mkPState tail (ps_nodes s1) (ps_error s1)))
        as (c2 & s2 & Hcc & [Hbad|(text2 & Hc2 & Hm2 & Hlen2)]); [done|done| |].
      { rewrite Ht, skipn_cons, drop_0. rewrite Hcc, bool_decide_false by done. by apply fail_with_reads. }
      rewrite Ht, skipn_cons, drop_0. rewrite Hcc. destruct Hm2 as (Hr2 & Hn2 & _ & He2).
      rewrite bool_decide_true by done. cbn [negb orb]. cbn [ps_rest ps_nodes] in Hr2, Hn2.
      destruct (Z.ltb_spec (schar c2) (schar c)); [by apply fail_with_reads|].
      assert (length (ps_rest s1) = S (length text2 + length (ps_rest s2)))%nat
        by (by rewrite Ht, Hr2; simpl; rewrite length_app).
      destruct (IH (ranges ++ [(c, c2)]) s2) as (a & s3 & -> & Hok); [done|lia|lia|].
      eexists a, s3. split; [done|]. destruct a as [node|]; [|done].
      destruct Hok as (text3 & body & more & Hbody & Hne & -> & -> & Hr3 & Hn3 & _ & He3).
      exists ((text ++ "-"%char :: text2 ++ body) ++ ["]"%char]).
      exists (text ++ "-"%char :: text2 ++ body), ((c, c2) :: more).
      assert ((ranges ++ [(c, c2)]) ++ more = ranges ++ (c, c2) :: more) as Has
        by (by rewrite <- app_assoc).
      rewrite Has in *. split; [by constructor|]. split; [done|]. split; [done|].
      split; [done|]. repeat split; [|lia|done..].
      rewrite Hr, Ht, Hr2, Hr3. simplify_list_eq. done.
    + destruct (IH (ranges ++ [(c, c)]) s1) as (a & s2 & Hrun & Hok); [done|lia|lia|].
      rewrite Hrun. eexists a, s2. split; [done|]. destruct a as [node|]; [|done].
      destruct Hok as (text2 & body & more & Hbody & Hne & -> & -> & Hr2 & Hn2 & _ & He2).
      exists ((text ++ body) ++ ["]"%char]), (text ++ body), ((c, c) :: more).
      assert ((ranges ++ [(c, c)]) ++ more = ranges ++ (c, c) :: more) as Has
        by (by rewrite <- app_assoc).
      rewrite Has in *. split.
      { constructor; [done| |done]. rewrite <- (starts_range_body body more (ps_rest s2) Hbody).
        rewrite Hr2 in Hdash. by rewrite <- app_assoc in Hdash. }
      split; [done|]. split; [done|]. split; [done|]. repeat split; [|lia|done..].
      rewrite Hr, Hr2. by simplify_list_eq.
  - destruct (bool_decide (ranges = []) || negb (at_char "]" (ps_rest s))) eqn:Hend;
      [by apply fail_with_reads|].
    apply orb_false_elim in Hend as [Hne%bool_decide_eq_false Hb%negb_false_iff].
    apply at_char_cons in Hb as (tail & Ht). rewrite Ht, skipn_cons, drop_0.
    rewrite make_ok by done. eexists (Some _), _. split; [done|].
    exists ["]"%char], [], []. rewrite app_nil_r. split; [constructor|]. split; [done|].
    split; [done|]. split; [done|]. repeat split; simpl; (done || lia).
Qed.

(** ** Soundness *)

Definition reads_syntax (syntax : nat -> str -> FindNode -> Prop) (d : nat) (s : pstate) :=
  reads s (fun text node s' =>
    syntax d text node /\ moved s s' text (2 * Z.of_nat (length text) - 1) /\
    (1 <= length text)%nat).

(** A loop that has collected [acc] and reads [more]. *)
Definition made (acc more : list FindNode) (text : str) : Z :=
  2 * Z.of_nat (length text) - Z.of_nat (length more)
  + (if Nat.leb 2 (length (acc ++ more)) then 1 else 0).

Definition reads_list (syntax : nat -> str -> list FindNode -> Prop)
    (build : list FindNode -> FindNode) (d : nat) (acc : list FindNode) (s : pstate) :=
  reads s (fun text node s' => exists more,
    syntax d text more /\ acc ++ more ≠ [] /\ node = collapse build (acc ++ more) /\
    moved s s' text (made acc more text)).

Lemma moved_trans s s1 s2 text1 text2 made1 made2 :
  moved s s1 text1 made1 -> moved s1 s2 text2 made2 ->
  moved s s2 (text1 ++ text2) (made1 + made2).
Proof.
  intros (Hr1 & ? & ? & ?) (Hr2 & ? & ? & ?). split; [by rewrite Hr1, Hr2, app_assoc|].
  split; [lia|done].
Qed.

Lemma moved_weaken s s' text made1 made2 :
  moved s s' text made1 -> made1 <= made2 -> moved s s' text made2.
Proof. intros (? & ? & ? & ?) ?. repeat split; try done. lia. Qed.

(** Reading one character. *)
Lemma moved_char s c tail :
  ps_rest s = c :: tail -> ps_error s = [] ->
  moved s (mkPState tail (ps_nodes s) (ps_error s)) [c] 0.
Proof. intros Hr He. repeat split; simpl; try done. lia. Qed.

Lemma moved_make s s' text k :
  moved s s' text k -> moved s (mkPState (ps_rest s') (ps_nodes s' + 1) (ps_error s')) text (k + 1).
Proof. intros (? & ? & ? & ?). repeat split; simpl; try done. lia. Qed.

Lemma moved_length s s' text k :
  moved s s' text k -> length (ps_rest s) = (length text + length (ps_rest s'))%nat.
Proof. intros (Hr & _). by rewrite Hr, length_app. Qed.

Lemma room_moved s s' text k pending pending' :
  room s pending -> moved s s' text k ->
  k + Z.of_nat pending' <= 2 * Z.of_nat (length text) + Z.of_nat pending -> room s' pending'.
Proof.
  intros [_ Hroom] Hm Hk. pose proof (moved_length _ _ _ _ Hm). destruct Hm as (_ & ? & _ & ?).
  split; [done|lia].
Qed.

Lemma reads_none s Q s' : ps_error s' ≠ [] -> reads s Q (Some (None, s')).
Proof. intros. eexists None, s'. by split. Qed.

(** The end of both loops. *)
Lemma reads_list_end (syntax : nat -> str -> list FindNode -> Prop) build d acc s :
  syntax d [] [] -> acc ≠ [] -> room s (length acc) ->
  reads_list syntax build d acc s
    (match acc with [node] => mret (Some node) | _ => make (build acc) end s).
Proof.
  intros Hnil Hne [He Hroom].
  assert (forall s' (r : option (option FindNode * pstate)),
    r = Some (Some (collapse build acc), s') -> ps_rest s = ps_rest s' ->
    ps_nodes s' <= ps_nodes s + (if Nat.leb 2 (length acc) then 1 else 0) -> ps_error s' = [] ->
    reads_list syntax build d acc s r) as Hok.
  { intros s' r -> Hr Hn He'. eexists (Some _), s'. split; [done|].
    exists [], []. rewrite app_nil_r. split; [done|]. split; [done|]. split; [done|].
    unfold moved, made. rewrite app_nil_r. split; [done|]. split; [cbn [length Z.of_nat]; lia|done]. }
  destruct acc as [|node [|node2 acc]]; [done|by eapply Hok; try done; simpl; lia|].
  rewrite make_ok by (simpl in Hroom; lia). by eapply Hok.
Qed.

(** One more element of a loop, then its continuation. *)
Lemma reads_list_cons (syntax : nat -> str -> list FindNode -> Prop) build d acc node s s1
    text k r :
  moved s s1 text k -> k <= 2 * Z.of_nat (length text) - 1 ->
  (forall texts nodes, syntax d texts nodes -> syntax d (text ++ texts) (node :: nodes)) ->
  reads_list syntax build d (acc ++ [node]) s1 r -> reads_list syntax build d acc s r.
Proof.
  intros Hm Hk Hsyn (a & s2 & -> & Ha). eexists a, s2. split; [done|].
  destruct a as [n|]; [|done]. destruct Ha as (texts & more & Hmore & Hne & -> & Hm2).
  rewrite <- app_assoc in Hne. exists (text ++ texts), (node :: more).
  split; [by apply Hsyn|]. split; [done|]. split; [by rewrite <- app_assoc|].
  eapply moved_weaken; [by eapply moved_trans|].
  unfold made. rewrite <- app_assoc, (length_app text).
  change ([node] ++ more) with (node :: more). cbn [length]. lia.
Qed.

Definition fuel_ok (fuel : nat) : Prop :=
  (forall d s, room s 0 -> (4 * length (ps_rest s) + 4 <= fuel)%nat ->
     reads_syntax alternate_syntax d s (parse_alternate fuel d s)) /\
  (forall d s acc, acc ≠ [] -> room s (length acc) -> (4 * length (ps_rest s) + 1 <= fuel)%nat ->
     reads_list branches_syntax fn_alternate d acc s (alternate_loop fuel d acc s)) /\
  (forall d s, room s 0 -> (4 * length (ps_rest s) + 3 <= fuel)%nat ->
     reads_syntax concatenation_syntax d s (parse_concatenation fuel d s)) /\
  (forall d s acc, room s (length acc) -> (4 * length (ps_rest s) + 2 <= fuel)%nat ->
     reads_list factors_syntax fn_concatenation d acc s (concatenation_loop fuel d acc s)) /\
  (forall d s, room s 0 -> at_char "|" (ps_rest s) = false ->
     (4 * length (ps_rest s) + 1 <= fuel)%nat ->
     reads_syntax atom_syntax d s (parse_atom fuel d s)).

Lemma fuel_ok_alternate fuel : fuel_ok fuel ->
  forall d s, room s 0 -> (4 * length (ps_rest s) + 4 <= S fuel)%nat ->
  reads_syntax alternate_syntax d s (parse_alternate (S fuel) d s).
Proof.
  intros (_ & Hloop & Hconcat & _) d s Hroom Hf. cbn [parse_alternate].
  destruct (Nat.ltb_spec 32 d) as [|Hd]; [by apply fail_with_reads|]. run.
  destruct (Hconcat d s Hroom ltac:(lia)) as ([node|] & s1 & -> & Ha); [|by apply reads_none].
  destruct Ha as (text & Hsyn & Hm & Hlen). pose proof (moved_length _ _ _ _ Hm).
  destruct (Hloop d s1 [node]) as (a & s2 & -> & Hb); [done|..|lia|].
  { eapply room_moved; [done..|]. simpl. lia. }
  eexists a, s2. split; [done|]. destruct a as [n|]; [|done].
  destruct Hb as (texts & more & Hmore & _ & -> & Hm2). exists (text ++ texts).
  split; [by constructor|]. split; [|rewrite length_app; lia].
  eapply moved_weaken; [by eapply moved_trans|]. unfold made. rewrite (length_app text).
  destruct more; cbn [length app Nat.leb]; lia.
Qed.

Lemma fuel_ok_alternate_loop fuel : fuel_ok fuel ->
  forall d s acc, acc ≠ [] -> room s (length acc) -> (4 * length (ps_rest s) + 1 <= S fuel)%nat ->
  reads_list branches_syntax fn_alternate d acc s (alternate_loop (S fuel) d acc s).
Proof.
  intros (_ & Hloop & Hconcat & _) d s acc Hne Hroom Hf. cbn [alternate_loop].
  unfold mbind at 1, parser_bind at 1, rest at 1.
  destruct (at_char "|" (ps_rest s)) eqn:Hbar; [|by apply reads_list_end; [constructor|..]].
  apply at_char_cons in Hbar as (tail & Ht). pose proof Hroom as [He _].
  pose proof (moved_char s _ _ Ht He) as Hm0. run. rewrite Ht, skipn_cons, drop_0 in *.
  destruct (Hconcat d (mkPState tail (ps_nodes s) (ps_error s))) as ([node|] & s1 & -> & Ha);
    [eapply room_moved; [done..|simpl; lia]|simpl in *; lia| |by apply reads_none].
  destruct Ha as (text & Hsyn & Hm & Hlen). pose proof (moved_length _ _ _ _ Hm) as Hl. simpl in Hl, Hf.
  pose proof (moved_trans _ _ _ _ _ _ _ Hm0 Hm) as Hm1.
  eapply reads_list_cons; [exact Hm1|simpl; lia| |].
  - intros texts nodes Hb. simpl. by constructor.
  - apply Hloop; [by destruct acc| |lia]. rewrite length_app.
    eapply room_moved; [done..|]. simpl. lia.
Qed.

Lemma fuel_ok_concatenation fuel : fuel_ok fuel ->
  forall d s, room s 0 -> (4 * length (ps_rest s) + 3 <= S fuel)%nat ->
  reads_syntax concatenation_syntax d s (parse_concatenation (S fuel) d s).
Proof.
  intros (_ & _ & _ & Hloop & _) d s Hroom Hf. cbn [parse_concatenation].
  destruct (Hloop d s [] Hroom ltac:(lia)) as (a & s1 & -> & Ha).
  eexists a, s1. split; [done|]. destruct a as [n|]; [|done].
  destruct Ha as (text & more & Hmore & Hne & -> & Hm). exists text. simpl in Hne, Hm |- *.
  split; [by constructor|]. split.
  - eapply moved_weaken; [done|]. unfold made. simpl. destruct more as [|? [|? ?]]; simpl; lia || done.
  - inversion Hmore as [|? text1 ? ? ? Hat|? text1 ? ? ? ? Hat]; subst; [done|..];
      rewrite length_app; destruct Hat; simpl; lia.
Qed.

Lemma fuel_ok_concatenation_loop fuel : fuel_ok fuel ->
  forall d s acc, room s (length acc) -> (4 * length (ps_rest s) + 2 <= S fuel)%nat ->
  reads_list factors_syntax fn_concatenation d acc s (concatenation_loop (S fuel) d acc s).
Proof.
  intros (_ & _ & _ & Hloop & Hatom) d s acc Hroom Hf. cbn [concatenation_loop].
  unfold mbind at 1, parser_bind at 1, rest at 1.
  destruct (_ && negb (at_char "|" (ps_rest s))) eqn:Hgo.
  2: { destruct acc as [|x acc]; [by apply fail_with_reads|].
       apply reads_list_end; [constructor|done|exact Hroom]. }
  unfold mbind at 1, parser_bind at 1.
  destruct (Hatom d s) as ([atom|] & s1 & -> & Ha);
    [destruct Hroom; split; [done|lia]|by apply andb_prop in Hgo as [_ ?%negb_true_iff]|lia|
    |by apply reads_none].
  destruct Ha as (text & Hsyn & Hm & Hlen). pose proof (moved_length _ _ _ _ Hm).
  run. destruct (is_quantifier (ps_rest s1)) eqn:Hq.
  - assert (exists one_or_more tail, ps_rest s1 = (if one_or_more : bool then "+"%char else "*"%char) :: tail)
      as (plus & tail & Ht).
    { apply orb_prop in Hq as [(tail & ->)%at_char_cons|(tail & ->)%at_char_cons];
        [by exists false, tail|by exists true, tail]. }
    assert (at_char "+" (ps_rest s1) = plus) as -> by (rewrite Ht; by destruct plus).
    rewrite Ht, skipn_cons, drop_0. destruct Hm as (Hr & Hn & He & He1).
    assert (moved s (mkPState tail (ps_nodes s1) (ps_error s1))
      (text ++ [if plus then "+"%char else "*"%char]) (2 * Z.of_nat (length text) - 1)) as Hm1.
    { unfold moved. rewrite Hr, Ht, <- app_assoc. simpl. done. }
    rewrite make_ok by (destruct Hroom as [_ Hroom]; simpl; lia).
    apply moved_make in Hm1. cbn [ps_rest ps_nodes ps_error] in Hm1 |- *.
    destruct (is_quantifier tail); [by apply fail_with_reads|].
    eapply reads_list_cons; [exact Hm1|rewrite length_app; simpl; lia| |apply Hloop].
    + intros texts nodes Hb. rewrite <- app_assoc. by apply FactorsRepeat.
    + rewrite length_app. eapply room_moved; [done..|]. rewrite length_app. simpl. lia.
    + rewrite Ht in H. simpl in H |- *. lia.
  - eapply reads_list_cons; [exact Hm|lia| |apply Hloop].
    + intros texts nodes Hb. by apply FactorsAtom.
    + rewrite length_app. eapply room_moved; [done..|]. simpl. lia.
    + lia.
Qed.

Lemma parse_class_reads d s :
  room s 2 ->
  reads s (fun text node s' =>
    atom_syntax d ("["%char :: text) node /\ moved s s' text 1) (parse_class s).
Proof.
  intros [He Hroom]. unfold parse_class. run.
  assert (forall (negated : bool) text0 s0, room s0 0 -> (length (ps_rest s0) <= length (ps_rest s))%nat ->
    moved s s0 text0 0 -> text0 = (if negated then ["^"%char] else []) ->
    (negated = false -> at_char "^" (ps_rest s0) = false) ->
    reads s (fun text node s' =>
      atom_syntax d ("["%char :: text) node /\ moved s s' text 1)
      (class_loop (S (length (ps_rest s))) negated [] s0)) as Hok.
  { intros negated text0 s0 [He0 Hroom0] Hlen Hm0 Htext Hneg.
    destruct (class_loop_reads (S (length (ps_rest s))) negated [] s0) as (a & s1 & -> & Ha);
      [done|destruct Hm0 as (_ & ? & _); lia|lia|].
    eexists a, s1. split; [done|]. destruct a as [node|]; [|done].
    destruct Ha as (text & body & more & Hbody & Hne & -> & -> & Hm). simpl in Hne.
    exists (text0 ++ body ++ ["]"%char]). split.
    - rewrite Htext. apply AtomClass; [done|done|]. intros Hn.
      specialize (Hneg Hn). destruct Hm as (Hr & _). rewrite Hr in Hneg.
      by destruct body.
    - eapply moved_weaken; [by eapply moved_trans|]. lia. }
  destruct (at_char "^" (ps_rest s)) eqn:Hc.
  - apply at_char_cons in Hc as (tail & Ht). pose proof (moved_char _ _ _ Ht He) as Hm.
    rewrite Ht, skipn_cons, drop_0. rewrite Ht in Hok, Hroom. simpl in Hroom.
    eapply (Hok true); [|idtac|exact Hm|done|done]; [split; [done|simpl; lia]|simpl; lia].
  - apply (Hok false [] s); [split; [done|lia]|lia| |done|done]. repeat split; try done. lia.
Qed.

Lemma fuel_ok_atom fuel : fuel_ok fuel ->
  forall d s, room s 0 -> at_char "|" (ps_rest s) = false ->
  (4 * length (ps_rest s) + 1 <= S fuel)%nat ->
  reads_syntax atom_syntax d s (parse_atom (S fuel) d s).
Proof.
  intros (Halt & _) d s Hroom Hbar Hf. cbn [parse_atom]. run. pose proof Hroom as [He Hr0].
  destruct (ps_rest s) as [|c tail] eqn:Ht; [by apply fail_with_reads|].
  pose proof (moved_char s c tail Ht He) as Hm0. cbn [length] in Hf, Hr0.
  set (s0 := mkPState tail (ps_nodes s) (ps_error s)) in *.
  rewrite Ht, skipn_cons, drop_0. fold s0.
  assert (forall node, atom_syntax d [c] node -> reads_syntax atom_syntax d s (make node s0)) as Hone.
  { intros node Hsyn. rewrite make_ok by (simpl; lia). eexists (Some node), _. split; [done|].
    exists [c]. split; [done|]. split; [|simpl; lia]. by apply moved_make in Hm0. }
  destruct (Ascii.eqb_spec c "(") as [->|Hopen].
  { destruct (Halt (d + 1)%nat s0) as ([node|] & s1 & -> & Ha); [split; [done|simpl; lia]|simpl; lia|..].
    2: by apply fail_default_reads.
    destruct Ha as (text & Hsyn & Hm & Hlen).
    destruct (at_char ")" (ps_rest s1)) eqn:Hclose; [|by apply fail_default_reads].
    apply at_char_cons in Hclose as (tail1 & Ht1). rewrite Ht1, skipn_cons, drop_0.
    eexists (Some node), _. split; [done|]. exists ("("%char :: text ++ [")"%char]).
    split; [by constructor|]. split; [|simpl; lia].
    pose proof (moved_trans _ _ _ _ _ _ _ Hm (moved_char _ _ _ Ht1 ltac:(apply Hm))) as Hm1.
    eapply moved_weaken; [exact (moved_trans _ _ _ _ _ _ _ Hm0 Hm1)|].
    simpl length. rewrite length_app. simpl. lia. }
  destruct (Ascii.eqb_spec c "[") as [->|Hbracket].
  { destruct (parse_class_reads d s0) as (a & s1 & -> & Ha); [split; [done|simpl; lia]|].
    eexists a, s1. split; [done|]. destruct a as [node|]; [|done].
    destruct Ha as (text & Hsyn & Hm). exists ("["%char :: text). split; [done|].
    split; [|simpl; lia]. eapply moved_weaken; [exact (moved_trans _ _ _ _ _ _ _ Hm0 Hm)|].
    simpl length. lia. }
  destruct (Ascii.eqb_spec c "?") as [->|Hany]; [by apply Hone; constructor|].
  destruct (Ascii.eqb_spec c "*") as [->|Hstar]; [by apply fail_with_reads|].
  destruct (Ascii.eqb_spec c "+") as [->|Hplus]; [by apply fail_with_reads|].
  destruct (Ascii.eqb_spec c ")") as [->|Hclose]; [by apply fail_with_reads|]. cbn [orb].
  destruct (Ascii.eqb_spec c "\") as [->|Hescape].
  { destruct tail as [|e tail]; [by apply fail_with_reads|].
    rewrite make_ok by (simpl; simpl in Hr0; lia). eexists (Some _), _. split; [done|].
    exists ["\"%char; e]. split; [constructor|]. split; [|simpl; lia].
    unfold moved. rewrite Ht. simpl. repeat split; try done. lia. }
  apply Hone, AtomLiteral. simpl in Hbar. unfold ordinary, contains. simpl.
  rewrite !(proj2 (Ascii.eqb_neq _ _)) by done. simpl. by rewrite Hbar.
Qed.

Lemma fuel_ok_all fuel : fuel_ok fuel.
Proof.
  induction fuel as [|fuel IH]; [repeat split; intros; lia|].
  split; [by apply fuel_ok_alternate|]. split; [by apply fuel_ok_alternate_loop|].
  split; [by apply fuel_ok_concatenation|]. split; [by apply fuel_ok_concatenation_loop|].
  by apply fuel_ok_atom.
Qed.

(** ** Completeness *)

Scheme atom_syntax_mut := Minimality for atom_syntax Sort Prop
with factors_syntax_mut := Minimality for factors_syntax Sort Prop
with concatenation_syntax_mut := Minimality for concatenation_syntax Sort Prop
with branches_syntax_mut := Minimality for branches_syntax Sort Prop
with alternate_syntax_mut := Minimality for alternate_syntax Sort Prop.
Combined Scheme syntax_mut from atom_syntax_mut, factors_syntax_mut, concatenation_syntax_mut,
  branches_syntax_mut, alternate_syntax_mut.

(** What may follow an alternation, and what a sequence of factors. *)
Definition closes (r : str) : bool := bool_decide (r = []) || at_char ")" r.
Definition stops (r : str) : bool := closes r || at_char "|" r.

(** The parser reads [text], followed by [r], as [node]. *)
Definition completes (s : pstate) (text : str) (node : FindNode) (k : Z)
    (r : option (option FindNode * pstate)) : Prop :=
  exists s', r = Some (Some node, s') /\ moved s s' text k.

Lemma moved_rest s s' text k r : moved s s' text k -> ps_rest s = text ++ r -> ps_rest s' = r.
Proof. intros (Hr & _) Hr2. rewrite Hr in Hr2. by apply app_inv_head in Hr2. Qed.

Lemma class_character_complete text c s r :
  class_char text c -> ps_rest s = text ++ r -> ps_error s = [] ->
  class_character s = Some (c, mkPState r (ps_nodes s) (ps_error s)).
Proof.
  intros Hc Hr He. unfold class_character. run. rewrite Hr. destruct Hc as [c Hc _|c].
  - rewrite <- app_comm_cons. rewrite (proj2 (Ascii.eqb_neq _ _) Hc). by rewrite Hr.
  - simpl. by rewrite Hr.
Qed.

Lemma class_body_nonempty text c : class_char text c -> exists x tail, text = x :: tail.
Proof. destruct 1; eauto. Qed.

Lemma class_loop_complete body more :
  class_body body more -> forall fuel negated ranges s r,
  ps_rest s = body ++ "]"%char :: r -> ps_error s = [] -> ps_nodes s < 512 ->
  (length (ps_rest s) < fuel)%nat -> ranges ++ more ≠ [] ->
  completes s (body ++ ["]"%char]) (fn_character_class negated (ranges ++ more)) 1
    (class_loop fuel negated ranges s).
Proof.
  induction 1 as [|text c body more Hc Hsr Hbody IH|text1 c1 text2 c2 body more Hc1 Hc2 Hle Hbody IH];
    intros fuel negated ranges s r Hr He Hn Hf Hne; (destruct fuel as [|fuel]; [lia|]);
    cbn [class_loop]; run.
  - rewrite Hr. simpl. rewrite app_nil_r in *. rewrite bool_decide_false by done. simpl.
    rewrite Hr, make_ok by done. simpl. eexists. split; [done|].
    unfold moved. rewrite Hr. simpl. repeat split; (done || lia).
  - rewrite <- app_assoc in Hr. pose proof (class_body_nonempty _ _ Hc) as (x & tl & Hx).
    rewrite (bool_decide_false (ps_rest s = [])) by (rewrite Hr, Hx; done).
    rewrite Hr, (class_char_head _ _ _ Hc). cbn [negb andb].
    rewrite (class_character_complete _ _ _ _ Hc Hr He). cbn [ps_rest ps_error ps_nodes].
    rewrite He, bool_decide_true by done. cbn [negb ps_rest ps_nodes ps_error].
    rewrite (starts_range_body _ _ _ Hbody), Hsr.
    assert (length (ps_rest s) = length text + length (body ++ "]"%char :: r))%nat as Hl
      by (by rewrite Hr, length_app).
    assert ((ranges ++ [(c, c)]) ++ more = ranges ++ (c, c) :: more) as Has
      by (by rewrite <- app_assoc).
    destruct (IH fuel negated (ranges ++ [(c, c)])
      (mkPState (body ++ "]"%char :: r) (ps_nodes s) []) r) as (s' & Hrun & Hm);
      [done|done|done|subst text; simpl in Hl, Hf |- *; lia|by rewrite Has|].
    exists s'. rewrite Hrun, Has. split; [done|]. destruct Hm as (Hr' & Hn' & _ & He').
    cbn [ps_rest ps_nodes] in Hr', Hn'. unfold moved. rewrite Hr, Hr'. by simplify_list_eq.
  - repeat (rewrite <- app_assoc in Hr || rewrite <- app_comm_cons in Hr).
    pose proof (class_body_nonempty _ _ Hc1) as (x & tl & Hx).
    rewrite (bool_decide_false (ps_rest s = [])) by (rewrite Hr, Hx; done).
    rewrite Hr, (class_char_head _ _ _ Hc1). cbn [negb andb].
    rewrite (class_character_complete _ _ _ _ Hc1 Hr He). cbn [ps_rest ps_error ps_nodes].
    rewrite He, bool_decide_true by done. cbn [negb ps_rest ps_nodes ps_error].
    rewrite skipn_cons, drop_0, (class_char_head _ _ _ Hc2).
    assert (Nat.leb 2 (length ("-"%char :: text2 ++ body ++ "]"%char :: r)) = true) as ->.
    { apply Nat.leb_le. simpl. rewrite !length_app. simpl. lia. }
    cbn [at_char Ascii.eqb negb andb Bool.eqb ps_rest ps_nodes ps_error].
    rewrite ?skipn_cons, ?drop_0.
    rewrite (class_character_complete text2 c2 (mkPState _ _ _) _ Hc2 eq_refl eq_refl).
    cbn [ps_rest ps_error ps_nodes]. rewrite bool_decide_true, (proj2 (Z.ltb_ge _ _) Hle) by done.
    cbn [negb orb].
    assert (length (ps_rest s) = S (length text1 + length text2 + length (body ++ "]"%char :: r)))%nat as Hl
      by (rewrite Hr; rewrite length_app; cbn [length]; rewrite length_app; lia).
    assert ((ranges ++ [(c1, c2)]) ++ more = ranges ++ (c1, c2) :: more) as Has
      by (by rewrite <- app_assoc).
    destruct (IH fuel negated (ranges ++ [(c1, c2)])
      (mkPState (body ++ "]"%char :: r) (ps_nodes s) []) r) as (s' & Hrun & Hm);
      [done|done|done|simpl; lia|by rewrite Has|].
    exists s'. rewrite Hrun, Has. split; [done|]. destruct Hm as (Hr' & Hn' & _ & He').
    cbn [ps_rest ps_nodes] in Hr', Hn'. unfold moved. rewrite Hr, Hr'. by simplify_list_eq.
Qed.

#[local] Arguments class_loop : simpl never.

Lemma atom_head d text node r :
  atom_syntax d text node ->
  text ++ r ≠ [] /\ stops (text ++ r) = false /\ is_quantifier (text ++ r) = false /\
  at_char "|" (text ++ r) = false.
Proof.
  destruct 1 as [d c Hc| | | |]; try done.
  assert (implb (ordinary c) (negb (contains c (lit ")|*+"))) = true) as Hall
    by (clear; revert c; by_all_chars).
  rewrite Hc in Hall. unfold contains in Hall. simpl in Hall. apply negb_true_iff in Hall.
  repeat (apply orb_false_elim in Hall as [? Hall]).
  unfold stops, closes, is_quantifier. simpl.
  repeat match goal with H : (c =? _)%char = false |- _ => rewrite H; clear H end. done.
Qed.

Lemma stops_not_quantifier r : stops r = true -> is_quantifier r = false.
Proof.
  unfold stops, closes, is_quantifier. destruct r as [|c r]; [done|]. simpl. intros Hc.
  assert (implb ((c =? ")")%char || (c =? "|")%char) (negb ((c =? "*")%char || (c =? "+")%char)) = true)
    as Hall by (clear; revert c; by_all_chars).
  simpl in Hc. rewrite Hc in Hall. by apply negb_true_iff.
Qed.

Lemma factors_not_quantifier d text nodes r :
  factors_syntax d text nodes -> stops r = true -> is_quantifier (text ++ r) = false.
Proof.
  destruct 1; intros Hr; [by apply stops_not_quantifier|..]; rewrite <- app_assoc;
    by eapply atom_head.
Qed.

Lemma branches_stops d text nodes r :
  branches_syntax d text nodes -> closes r = true -> stops (text ++ r) = true.
Proof. destruct 1; intros Hr; simpl; [unfold stops; by rewrite Hr|done]. Qed.

Lemma completes_end build s acc :
  acc ≠ [] -> room s (length acc) ->
  completes s [] (collapse build acc) (made acc [] [])
    (match acc with [node] => mret (Some node) | _ => make (build acc) end s).
Proof.
  intros Hne Hroom.
  destruct (reads_list_end (fun _ text more => text = [] /\ more = []) build 0 acc s)
    as (a & s' & Hrun & Ha); [done..|].
  destruct acc as [|node [|node2 acc]]; [done|..].
  - injection Hrun as <- <-. destruct Ha as (? & ? & (-> & ->) & _ & _ & Hm).
    exists s. split; [done|exact Hm].
  - destruct Hroom as [He Hroom]. rewrite make_ok in Hrun |- * by (simpl in Hroom; lia).
    injection Hrun as <- <-. destruct Ha as (? & ? & (-> & ->) & _ & _ & Hm).
    eexists. split; [done|exact Hm].
Qed.

Lemma completes_cons acc x nodes node s s1 text texts k r :
  moved s s1 text k -> k <= 2 * Z.of_nat (length text) - 1 ->
  completes s1 texts node (made (acc ++ [x]) nodes texts) r ->
  completes s (text ++ texts) node (made acc (x :: nodes) (text ++ texts)) r.
Proof.
  intros Hm Hk (s2 & -> & Hm2). exists s2. split; [done|].
  eapply moved_weaken; [by eapply moved_trans|].
  unfold made. rewrite <- app_assoc, (length_app text).
  change ([x] ++ nodes) with (x :: nodes). cbn [length]. lia.
Qed.

Definition complete_atom d text node : Prop :=
  forall fuel s r, ps_rest s = text ++ r -> room s 0 ->
  (4 * length (ps_rest s) + 1 <= fuel)%nat ->
  completes s text node (2 * Z.of_nat (length text) - 1) (parse_atom fuel d s).

Definition complete_factors d text nodes : Prop :=
  forall fuel s r acc, ps_rest s = text ++ r -> stops r = true -> acc ++ nodes ≠ [] ->
  room s (length acc) -> (4 * length (ps_rest s) + 2 <= fuel)%nat ->
  completes s text (collapse fn_concatenation (acc ++ nodes)) (made acc nodes text)
    (concatenation_loop fuel d acc s).

Definition complete_concatenation d text node : Prop :=
  forall fuel s r, ps_rest s = text ++ r -> stops r = true -> room s 0 ->
  (4 * length (ps_rest s) + 3 <= fuel)%nat ->
  (1 <= length text)%nat /\
  completes s text node (2 * Z.of_nat (length text) - 1) (parse_concatenation fuel d s).

Definition complete_branches d text nodes : Prop :=
  forall fuel s r acc, ps_rest s = text ++ r -> closes r = true -> acc ≠ [] ->
  room s (length acc) -> (4 * length (ps_rest s) + 1 <= fuel)%nat ->
  completes s text (collapse fn_alternate (acc ++ nodes)) (made acc nodes text)
    (alternate_loop fuel d acc s).

Definition complete_alternate d text node : Prop :=
  forall fuel s r, ps_rest s = text ++ r -> closes r = true -> room s 0 ->
  (4 * length (ps_rest s) + 4 <= fuel)%nat ->
  completes s text node (2 * Z.of_nat (length text) - 1) (parse_alternate fuel d s).

Lemma complete_atom_literal d c : ordinary c = true -> complete_atom d [c] (fn_literal (fold c)).
Proof.
  intros Hc fuel s r Hr [He Hroom] Hf. destruct fuel as [|fuel]; [lia|].
  cbn [parse_atom]. run. rewrite Hr. cbn [app]. rewrite Hr. cbn [app]. rewrite skipn_cons, drop_0.
  unfold ordinary, contains in Hc. simpl in Hc. rewrite !orb_false_r in Hc.
  apply negb_true_iff in Hc. repeat (apply orb_false_elim in Hc as [? Hc]).
  repeat match goal with H : (c =? _)%char = false |- _ => rewrite H; clear H end.
  cbn [orb]. rewrite Hr in Hroom. simpl in Hroom. rewrite make_ok by (simpl; lia).
  eexists. split; [done|]. unfold moved. rewrite Hr. simpl. repeat split; (done || lia).
Qed.

Lemma complete_atom_escape d c : complete_atom d ["\"%char; c] (fn_literal (fold c)).
Proof.
  intros fuel s r Hr [He Hroom] Hf. destruct fuel as [|fuel]; [lia|].
  cbn [parse_atom]. run. rewrite Hr. simpl. rewrite Hr. simpl.
  rewrite Hr in Hroom. simpl in Hroom. rewrite make_ok by (simpl; lia).
  eexists. split; [done|]. unfold moved. rewrite Hr. simpl. repeat split; (done || lia).
Qed.

Lemma complete_atom_any d : complete_atom d ["?"%char] fn_any.
Proof.
  intros fuel s r Hr [He Hroom] Hf. destruct fuel as [|fuel]; [lia|].
  cbn [parse_atom]. run. rewrite Hr. simpl. rewrite Hr. simpl.
  rewrite Hr in Hroom. simpl in Hroom. rewrite make_ok by (simpl; lia).
  eexists. split; [done|]. unfold moved. rewrite Hr. simpl. repeat split; (done || lia).
Qed.

Lemma parse_class_complete (negated : bool) body ranges s r :
  class_body body ranges -> ranges ≠ [] -> (negated = false -> at_char "^" body = false) ->
  ps_rest s = (if negated then ["^"%char] else []) ++ body ++ "]"%char :: r ->
  ps_error s = [] -> ps_nodes s < 512 ->
  completes s ((if negated then ["^"%char] else []) ++ body ++ ["]"%char])
    (fn_character_class negated ranges) 1 (parse_class s).
Proof.
  intros Hbody Hne Hneg Hr He Hn. unfold parse_class. run.
  destruct (class_loop_complete body ranges Hbody (S (length (ps_rest s))) negated []
    (mkPState (body ++ "]"%char :: r) (ps_nodes s) (ps_error s)) r)
    as (s' & Hrun & Hm); [done|done|done| |done|].
  { rewrite Hr, length_app. simpl. lia. }
  exists s'. destruct Hm as (Hr' & Hn' & _ & He'). cbn [ps_rest ps_nodes] in Hr', Hn'.
  split; [|unfold moved; rewrite Hr, Hr'; by simplify_list_eq].
  cbn [app] in Hrun. rewrite <- Hrun. destruct negated; cbn [app] in Hr |- *; rewrite Hr.
  - simpl. by rewrite Hr.
  - assert (at_char "^" (body ++ "]"%char :: r) = false) as ->.
    { specialize (Hneg eq_refl). by destruct body. }
    rewrite <- Hr. by destruct s.
Qed.

Lemma complete_atom_class d (negated : bool) body ranges :
  class_body body ranges -> ranges ≠ [] -> (negated = false -> at_char "^" body = false) ->
  complete_atom d ("["%char :: (if negated then ["^"%char] else []) ++ body ++ ["]"%char])
    (fn_character_class negated ranges).
Proof.
  intros Hbody Hne Hneg fuel s r Hr0 [He Hroom] Hf. destruct fuel as [|fuel]; [lia|].
  assert (ps_rest s = "["%char :: (if negated then ["^"%char] else []) ++ body ++ "]"%char :: r)
    as Hr by (rewrite Hr0; by simplify_list_eq).
  cbn [parse_atom]. run. rewrite Hr. cbn beta iota. rewrite Hr, skipn_cons, drop_0.
  cbn [Ascii.eqb Bool.eqb].
  rewrite Hr in Hroom. simpl in Hroom.
  pose proof (moved_char s _ _ Hr He) as Hm0.
  destruct (parse_class_complete negated body ranges
    (mkPState ((if negated then ["^"%char] else []) ++ body ++ "]"%char :: r) (ps_nodes s) (ps_error s)) r)
    as (s' & Hrun & Hm); [done|done|done|done|done|simpl; lia|].
  exists s'. split; [exact Hrun|]. eapply moved_weaken; [exact (moved_trans _ _ _ _ _ _ _ Hm0 Hm)|].
  simpl length. rewrite !length_app. simpl. lia.
Qed.

Lemma complete_atom_group d text node :
  alternate_syntax (d + 1) text node -> complete_alternate (d + 1) text node ->
  complete_atom d ("("%char :: text ++ [")"%char]) node.
Proof.
  intros _ IH fuel s r Hr0 [He Hroom] Hf. destruct fuel as [|fuel]; [lia|].
  assert (ps_rest s = "("%char :: text ++ ")"%char :: r) as Hr
    by (rewrite Hr0; by simplify_list_eq).
  cbn [parse_atom]. run. rewrite Hr. cbn beta iota. rewrite Hr, skipn_cons, drop_0.
  cbn [Ascii.eqb Bool.eqb]. rewrite Hr in Hroom, Hf. simpl in Hroom, Hf.
  pose proof (moved_char s _ _ Hr He) as Hm0.
  destruct (IH fuel (mkPState (text ++ ")"%char :: r) (ps_nodes s) (ps_error s)) (")"%char :: r))
    as (s1 & -> & Hm); [done|done|split; [done|simpl; lia]|simpl; lia|].
  pose proof (moved_rest _ _ _ _ _ Hm eq_refl) as Hr1. rewrite Hr1. simpl.
  eexists. split; [done|]. rewrite Hr1. simpl.
  pose proof (moved_char s1 _ _ Hr1 ltac:(apply Hm)) as Hm1.
  eapply moved_weaken; [exact (moved_trans _ _ _ _ _ _ _ Hm0 (moved_trans _ _ _ _ _ _ _ Hm Hm1))|].
  rewrite length_app. simpl. lia.
Qed.

Lemma complete_factors_atom d text atom texts nodes :
  atom_syntax d text atom -> complete_atom d text atom ->
  factors_syntax d texts nodes -> complete_factors d texts nodes ->
  complete_factors d (text ++ texts) (atom :: nodes).
Proof.
  intros Hat IHat Hfs IHfs fuel s r acc Hr Hstop Hne Hroom Hf. destruct fuel as [|fuel]; [lia|].
  rewrite <- app_assoc in Hr. destruct (atom_head _ _ _ (texts ++ r) Hat) as (Hnil & Hns & _ & Hbar).
  unfold stops, closes in Hns. rewrite <- Hr in *. rewrite bool_decide_false in Hns by done.
  simpl in Hns. apply orb_false_elim in Hns as [Hclose _].
  cbn [concatenation_loop]. run. rewrite bool_decide_false by done. rewrite Hclose, Hbar.
  cbn [negb andb].
  destruct (IHat fuel s (texts ++ r)) as (s1 & -> & Hm);
    [done|destruct Hroom; split; [done|lia]|lia|].
  pose proof (moved_rest _ _ _ _ _ Hm Hr) as Hr1. rewrite Hr1.
  rewrite (factors_not_quantifier _ _ _ _ Hfs Hstop).
  pose proof (moved_length _ _ _ _ Hm) as Hlen.
  assert (1 <= length text)%nat by (destruct Hat; simpl; lia).
  assert ((acc ++ [atom]) ++ nodes = acc ++ atom :: nodes) as Has by (by rewrite <- app_assoc).
  eapply completes_cons; [exact Hm|lia|]. rewrite <- Has.
  apply (IHfs fuel s1 r); [done|done|by rewrite Has| |lia].
  rewrite length_app. eapply room_moved; [done..|]. simpl. lia.
Qed.

Lemma complete_factors_repeat d text atom (plus : bool) texts nodes :
  atom_syntax d text atom -> complete_atom d text atom ->
  factors_syntax d texts nodes -> complete_factors d texts nodes ->
  complete_factors d (text ++ (if plus then "+"%char else "*"%char) :: texts)
    (fn_repeat plus atom :: nodes).
Proof.
  intros Hat IHat Hfs IHfs fuel s r acc Hr Hstop Hne Hroom Hf. destruct fuel as [|fuel]; [lia|].
  rewrite <- app_assoc, <- app_comm_cons in Hr. set (q := if plus then "+"%char else "*"%char) in *.
  destruct (atom_head _ _ _ (q :: texts ++ r) Hat) as (Hnil & Hns & _ & Hbar).
  unfold stops, closes in Hns. rewrite <- Hr in *. rewrite bool_decide_false in Hns by done.
  simpl in Hns. apply orb_false_elim in Hns as [Hclose _].
  cbn [concatenation_loop]. run. rewrite bool_decide_false by done. rewrite Hclose, Hbar.
  cbn [negb andb].
  destruct (IHat fuel s (q :: texts ++ r)) as (s1 & -> & Hm);
    [done|destruct Hroom; split; [done|lia]|lia|].
  pose proof (moved_rest _ _ _ _ _ Hm Hr) as Hr1. rewrite Hr1.
  assert (is_quantifier (q :: texts ++ r) = true) as -> by (by destruct plus).
  assert (at_char "+" (q :: texts ++ r) = plus) as -> by (by destruct plus).
  cbn beta iota. rewrite Hr1, skipn_cons, drop_0.
  pose proof (moved_length _ _ _ _ Hm) as Hlen. rewrite Hr1 in Hlen.
  assert (1 <= length text)%nat by (destruct Hat; simpl; lia).
  pose proof (moved_char s1 _ _ Hr1 ltac:(apply Hm)) as Hq.
  pose proof (moved_trans _ _ _ _ _ _ _ Hm Hq) as Hm1.
  destruct Hm1 as (Hrm & Hnm & He0 & He1). cbn [ps_nodes ps_rest ps_error] in Hrm, Hnm, He1.
  rewrite make_ok by (destruct Hroom as [_ Hroom]; simpl in *; lia). cbn [ps_nodes ps_rest ps_error].
  rewrite (factors_not_quantifier _ _ _ _ Hfs Hstop).
  assert ((acc ++ [fn_repeat plus atom]) ++ nodes = acc ++ fn_repeat plus atom :: nodes) as Has
    by (by rewrite <- app_assoc).
  assert (moved s (mkPState (texts ++ r) (ps_nodes s1 + 1) (ps_error s1)) (text ++ [q])
    (2 * Z.of_nat (length text))) as Hm2.
  { split; [done|]. split; [simpl; lia|done]. }
  assert (text ++ q :: texts = (text ++ [q]) ++ texts) as -> by (by rewrite <- app_assoc).
  eapply completes_cons; [exact Hm2|rewrite length_app; simpl; lia|]. rewrite <- Has.
  apply (IHfs fuel _ r); [done|done|by rewrite Has| |simpl in *; lia].
  rewrite length_app. eapply room_moved; [done..|]. rewrite length_app. simpl. lia.
Qed.

Lemma complete_concatenation_factors d text nodes :
  factors_syntax d text nodes -> complete_factors d text nodes -> nodes ≠ [] ->
  complete_concatenation d text (collapse fn_concatenation nodes).
Proof.
  intros Hfs IH Hne fuel s r Hr Hstop Hroom Hf. destruct fuel as [|fuel]; [lia|].
  cbn [parse_concatenation]. split.
  - destruct Hfs as [|? ? ? ? ? Hat|? ? ? ? ? ? Hat]; [done|..]; rewrite length_app;
      destruct Hat; simpl; lia.
  - destruct (IH fuel s r []) as (s' & -> & Hm); [done|done|done|done|lia|].
    exists s'. split; [done|]. eapply moved_weaken; [done|].
    unfold made. destruct nodes as [|? [|? ?]]; simpl; lia || done.
Qed.

Lemma complete_branches_cons d text node texts nodes :
  complete_concatenation d text node -> branches_syntax d texts nodes ->
  complete_branches d texts nodes ->
  complete_branches d ("|"%char :: text ++ texts) (node :: nodes).
Proof.
  intros IHc Hbs IH fuel s r acc Hr Hclose Hne Hroom Hf. destruct fuel as [|fuel]; [lia|].
  rewrite <- app_comm_cons, <- app_assoc in Hr. pose proof Hroom as [He Hr0].
  cbn [alternate_loop]. unfold mbind at 1, parser_bind at 1, rest at 1. rewrite Hr. cbn [at_char].
  change (("|" =? "|")%char) with true. run. rewrite Hr, skipn_cons, drop_0.
  pose proof (moved_char s _ _ Hr He) as Hm0. rewrite Hr in Hf, Hr0. simpl in Hf, Hr0.
  destruct (IHc fuel (mkPState (text ++ texts ++ r) (ps_nodes s) (ps_error s)) (texts ++ r))
    as (Hlen & s1 & -> & Hm); [done|by eapply branches_stops|split; [done|simpl; lia]|simpl; lia|].
  pose proof (moved_rest _ _ _ _ _ Hm eq_refl) as Hr1.
  pose proof (moved_trans _ _ _ _ _ _ _ Hm0 Hm) as Hm1.
  pose proof (moved_length _ _ _ _ Hm1) as Hl. rewrite Hr in Hl. simpl in Hl.
  assert ((acc ++ [node]) ++ nodes = acc ++ node :: nodes) as Has by (by rewrite <- app_assoc).
  change ("|"%char :: text ++ texts) with (("|"%char :: text) ++ texts).
  eapply completes_cons; [exact Hm1|simpl; lia|]. rewrite <- Has.
  apply (IH fuel s1 r); [done|done|by destruct acc| |lia].
  rewrite length_app. eapply room_moved; [done..|]. simpl. lia.
Qed.

Lemma complete_alternate_branches d text node texts nodes :
  (d <= 32)%nat -> complete_concatenation d text node ->
  branches_syntax d texts nodes -> complete_branches d texts nodes ->
  complete_alternate d (text ++ texts) (collapse fn_alternate (node :: nodes)).
Proof.
  intros Hd IHc Hbs IH fuel s r Hr Hclose Hroom Hf. destruct fuel as [|fuel]; [lia|].
  rewrite <- app_assoc in Hr. cbn [parse_alternate].
  destruct (Nat.ltb_spec 32 d) as [|_]; [lia|]. run.
  destruct (IHc fuel s (texts ++ r)) as (Hlen & s1 & -> & Hm);
    [done|by eapply branches_stops|done|lia|].
  pose proof (moved_rest _ _ _ _ _ Hm Hr) as Hr1. pose proof (moved_length _ _ _ _ Hm).
  destruct (IH fuel s1 r [node]) as (s2 & -> & Hm2); [done|done|done| |lia|].
  { eapply room_moved; [done..|]. simpl. lia. }
  exists s2. split; [done|]. eapply moved_weaken; [by eapply moved_trans|].
  unfold made. rewrite (length_app text). destruct nodes; cbn [length app Nat.leb]; lia.
Qed.

Lemma syntax_complete :
  (forall d text node, atom_syntax d text node -> complete_atom d text node) /\
  (forall d text nodes, factors_syntax d text nodes -> complete_factors d text nodes) /\
  (forall d text node, concatenation_syntax d text node -> complete_concatenation d text node) /\
  (forall d text nodes, branches_syntax d text nodes -> complete_branches d text nodes) /\
  (forall d text node, alternate_syntax d text node -> complete_alternate d text node).
Proof.
  apply syntax_mut; intros; eauto using complete_atom_literal, complete_atom_escape,
    complete_atom_any, complete_atom_class, complete_atom_group, complete_factors_atom,
    complete_factors_repeat, complete_concatenation_factors, complete_branches_cons,
    complete_alternate_branches.
  - intros fuel s r acc Hr Hstop Hne Hroom Hf. destruct fuel as [|fuel]; [lia|].
    rewrite app_nil_r in *. simpl in Hr. subst r. cbn [concatenation_loop]. run.
    assert (negb (bool_decide (ps_rest s = [])) && negb (at_char ")" (ps_rest s))
      && negb (at_char "|" (ps_rest s)) = false) as ->.
    { unfold stops, closes in Hstop. by rewrite <- !negb_orb, Hstop. }
    destruct acc; [done|]. by apply completes_end.
  - intros fuel s r acc Hr Hclose Hne Hroom Hf. destruct fuel as [|fuel]; [lia|].
    rewrite app_nil_r. simpl in Hr. subst r. cbn [alternate_loop].
    unfold mbind at 1, parser_bind at 1, rest at 1.
    assert (at_char "|" (ps_rest s) = false) as ->; [|by apply completes_end].
    destruct (ps_rest s) as [|c r]; [done|]. unfold closes in Hclose.
    rewrite bool_decide_false in Hclose by done. simpl in Hclose.
    apply Ascii.eqb_eq in Hclose as ->. done.
Qed.

(** ** The parser *)

(** A regular expression of a size the parser takes. *)
Definition admissible (input : str) : Prop :=
  input ≠ [] /\ (length input < 256)%nat /\ contains "{" input = false /\ contains "}" input = false.

(** C8: the class [Parser] implements the grammar: on every admissible input
    it returns within its fuel, it returns a tree exactly when the input is a
    text of the grammar, and then that text's tree (so the grammar is
    unambiguous and the limit of 512 nodes is never what rejects an input);
    otherwise it returns null with an error message. *)
Theorem regular_parser_correct input :
  admissible input ->
  exists result s, Regular.parse input (start input []) = Some (result, s) /\
    (forall node, result = Some node <-> alternate_syntax 0 input node) /\
    (result = None <-> ps_error s ≠ []).
Proof.
  intros (Hne & Hlen & Hopen & Hclose). unfold Regular.parse.
  rewrite bool_decide_false, (proj2 (Nat.leb_gt _ _)), Hopen, Hclose by done. cbn [orb]. run.
  assert (room (start input []) 0) as Hroom by (split; [done|simpl; lia]).
  destruct (proj1 (fuel_ok_all (parse_fuel input)) 0%nat (start input []) Hroom)
    as (a & s & Hrun & Ha); [unfold parse_fuel; simpl; lia|].
  rewrite Hrun.
  assert (forall node, alternate_syntax 0 input node -> a = Some node /\ ps_rest s = []) as Hcomplete.
  { intros node Hsyn. destruct syntax_complete as (_ & _ & _ & _ & Hc).
    destruct (Hc 0%nat input node Hsyn (parse_fuel input) (start input []) []) as (s' & Hrun' & Hm);
      [by rewrite app_nil_r|done|done|unfold parse_fuel; simpl; lia|].
    rewrite Hrun in Hrun'. simplify_eq. split; [done|].
    eapply moved_rest; [done|]. by rewrite app_nil_r. }
  destruct a as [root|].
  - destruct Ha as (text & Hsyn & (Hr & _ & _ & He) & _). simpl in Hr.
    case_bool_decide as Hrest.
    + eexists _, _. split; [done|]. rewrite Hrest, app_nil_r in Hr. subst text. split.
      * intros node. split; [by intros [= ->]|]. intros Hn. by apply Hcomplete in Hn as [? _].
      * rewrite He. done.
    + unfold fail_default. rewrite He, bool_decide_true by done. eexists _, _. split; [done|]. split.
      * intros node. split; [done|]. intros Hn. by apply Hcomplete in Hn as [_ ?].
      * done.
  - unfold fail_default. rewrite bool_decide_false by done. eexists _, _. split; [done|]. split.
    + intros node. split; [done|]. intros Hn. by apply Hcomplete in Hn as [? _].
    + done.
Qed.

Lemma regular_parser_correct_witness :
  admissible (lit "GPIB(0|1)::[1-9]+?*") /\
  exists node, alternate_syntax 0 (lit "GPIB(0|1)::[1-9]+?*") node.
Proof.
  assert (admissible (lit "GPIB(0|1)::[1-9]+?*")) as Hok
    by (split; [discriminate|split; [vm_compute; lia|split; reflexivity]]).
  split; [exact Hok|].
  destruct (regular_parser_correct (lit "GPIB(0|1)::[1-9]+?*") Hok)
    as (result & s & Hrun & Hsyn & _).
  vm_compute in Hrun. destruct result as [node|]; [|discriminate].
  exists node. apply Hsyn. reflexivity.
Defined.
