(* ===== verification/FindCompile.v ===== *)
(** * Find expressions as a whole: compilation and matching

    The attribute parser returns within its fuel, so [compile] always returns;
    an expression it accepts matches exactly the resource names of the language
    of its regular part that pass its attribute filter. *)

From stdpp Require Import sets.
From S2P Require Import Prelude Visa CText ResourceParser FindExpression FindGrammar FindMatch.
Import Attributes.

(** ** The attribute parser returns *)

Create HintDb wrfind.

(** From a state with at most [n] characters left, [m] returns, with no more
    characters left than before. *)
Definition returns {A} (m : parser A) (s : pstate) : Prop :=
  exists a s', m s = Some (a, s') /\ (length (ps_rest s') <= length (ps_rest s))%nat.

Lemma returns_ret {A} (a : A) s : returns (mret a) s.
Proof. by exists a, s. Qed.

Lemma returns_null {A} s : returns (null (A := A)) s.
Proof. apply returns_ret. Qed.

Lemma returns_bind {A B} (m : parser A) (f : A -> parser B) s :
  returns m s ->
  (forall a s', m s = Some (a, s') -> (length (ps_rest s') <= length (ps_rest s))%nat ->
     returns (f a) s') ->
  returns (m ≫= f) s.
Proof.
  intros (a & s1 & Hm & Hl1) Hf. destruct (Hf a s1 Hm Hl1) as (b & s2 & Hb & Hl2).
  exists b, s2. unfold mbind, parser_bind. rewrite Hm. split; [done|lia].
Qed.

Lemma returns_rest s : returns rest s.
Proof. by exists (ps_rest s), s. Qed.

Lemma returns_advance n s : returns (advance n) s.
Proof. eexists _, _. split; [done|]. simpl. rewrite length_drop. lia. Qed.

Lemma returns_fail_with {A} message s : returns (fail_with (A := A) message) s.
Proof. eexists _, _. split; [done|]. simpl. lia. Qed.

Lemma returns_fail_default {A} message s : returns (fail_default (A := A) message) s.
Proof. unfold returns, fail_default. case_bool_decide; [apply returns_fail_with|apply returns_null]. Qed.

Lemma returns_make node s : returns (make node) s.
Proof.
  unfold returns, make, make_node. case_match; [|by eexists _, _].
  destruct (@returns_fail_with FindAttributeNode (lit "attribute expression is too complex")
    (mkPState (ps_rest s) (ps_nodes s + 1) (ps_error s))) as (a & s' & Hr & Hl).
  by exists a, s'.
Qed.

Lemma skip_spaces_length text : (length (skip_spaces text) <= length text)%nat.
Proof. induction text as [|c text IH]; simpl; [done|]. case_match; simpl; lia. Qed.

Lemma returns_skip_space s : returns skip_space s.
Proof. eexists _, _. split; [done|]. apply skip_spaces_length. Qed.

Lemma returns_if {A} (b : bool) (m1 m2 : parser A) s :
  returns m1 s -> returns m2 s -> returns (if b then m1 else m2) s.
Proof. by destruct b. Qed.

#[export] Hint Resolve returns_ret returns_null returns_rest returns_advance returns_fail_with
  returns_fail_default returns_make returns_skip_space : wrfind.

(** Goes through a body made of binds, conditionals and matches. *)
Ltac returns :=
  intros; repeat first
    [ solve [eauto with wrfind]
    | apply returns_bind; [|intros ? ? _ _]
    | apply returns_if
    | match goal with |- returns (match ?x with _ => _ end) _ => destruct x end ].

Lemma returns_consume token s : returns (consume token) s.
Proof. unfold consume. returns. Qed.
#[export] Hint Resolve returns_consume : wrfind.

Lemma returns_identifier s : returns identifier s.
Proof. unfold identifier. returns. Qed.

Lemma returns_compare_operators table s : returns (compare_operators table) s.
Proof. revert s. induction table as [|[token c] table IH]; simpl; returns. Qed.

Lemma returns_string_literal s : returns string_literal s.
Proof. unfold string_literal. returns. Qed.

Lemma returns_number_literal s : returns number_literal s.
Proof. unfold number_literal. returns. Qed.
#[export] Hint Resolve returns_identifier returns_compare_operators returns_string_literal
  returns_number_literal : wrfind.

Lemma returns_parse_relation s : returns parse_relation s.
Proof. unfold parse_relation, compare_operator. returns. Qed.
#[export] Hint Resolve returns_parse_relation : wrfind.

(** A consumed token shortens the text. *)
Lemma consume_true token s s' :
  consume token s = Some (true, s') -> token ≠ [] ->
  (length (ps_rest s') < length (ps_rest s))%nat.
Proof.
  unfold consume, mbind, parser_bind, skip_space, rest, advance, mret, parser_ret. simpl.
  intros Hc Hne. case_bool_decide as Ht; [|done]. injection Hc as <-. simpl.
  pose proof (skip_spaces_length (ps_rest s)). pose proof (f_equal length Ht) as Hl.
  rewrite length_take in Hl. rewrite length_drop.
  assert (0 < length token)%nat by (destruct token; [done|simpl; lia]). lia.
Qed.

Definition attribute_fuel_ok (fuel : nat) : Prop :=
  forall depth s, 
  ((5 * length (ps_rest s) + 3 <= fuel)%nat -> returns (parse_or fuel depth) s) /\
  (forall l, (5 * length (ps_rest s) + 1 <= fuel)%nat -> returns (or_loop fuel depth l) s) /\
  ((5 * length (ps_rest s) + 2 <= fuel)%nat -> returns (parse_and fuel depth) s) /\
  (forall l, (5 * length (ps_rest s) + 1 <= fuel)%nat -> returns (and_loop fuel depth l) s) /\
  ((5 * length (ps_rest s) + 1 <= fuel)%nat -> returns (parse_factor fuel depth) s).

Lemma attribute_fuel_ok_all fuel : attribute_fuel_ok fuel.
Proof.
  induction fuel as [|fuel IH]; [repeat split; intros; lia|].
  intros depth s. repeat split; [intros Hf|intros l Hf|intros Hf|intros l Hf|intros Hf]; simpl.
  - apply returns_bind; [apply IH; lia|]. intros [a|] s1 _ Hl; [|returns]. apply IH. lia.
  - apply returns_bind; [returns|]. intros [] s1 Hc Hl; [|returns].
    apply consume_true in Hc; [|done]. apply returns_bind; [apply IH; lia|].
    intros [r|] s2 _ Hl2; [|returns]. apply returns_bind; [returns|].
    intros l' s3 _ Hl3. apply IH. lia.
  - apply returns_bind; [apply IH; lia|]. intros [a|] s1 _ Hl; [|returns]. apply IH. lia.
  - apply returns_bind; [returns|]. intros [] s1 Hc Hl; [|returns].
    apply consume_true in Hc; [|done]. apply returns_bind; [apply IH; lia|].
    intros [r|] s2 _ Hl2; [|returns]. apply returns_bind; [returns|].
    intros l' s3 _ Hl3. apply IH. lia.
  - destruct (Nat.ltb 32 depth); [returns|]. apply returns_bind; [returns|].
    intros [] s1 Hc Hl.
    { apply consume_true in Hc; [|done]. apply returns_bind; [apply IH; lia|returns]. }
    apply returns_bind; [returns|]. intros [] s2 Hc2 Hl2; [|returns].
    apply consume_true in Hc2; [|done]. apply returns_bind; [apply IH; lia|returns].
Qed.

Lemma attributes_parse_returns text s :
  ps_rest s = text -> exists result s', Attributes.parse text s = Some (result, s').
Proof.
  intros Ht. assert (returns (Attributes.parse text) s) as (a & s' & Hr & _).
  { unfold Attributes.parse. apply returns_bind; [|returns].
    apply attribute_fuel_ok_all. unfold parse_fuel. rewrite Ht. lia. }
  eauto.
Qed.

(** ** Compilation *)

(** The text before the attribute filter. *)
Definition regular_part (expression : str) : str :=
  match find_char "{" expression with
  | Some opening => take opening expression
  | None => expression
  end.

Lemma find_char_none c text : find_char c text = None -> Regular.contains c text = false.
Proof.
  unfold Regular.contains. induction text as [|x text IH]; simpl; [done|].
  rewrite Ascii.eqb_sym. destruct (c =? x)%char; [done|]. intros Hn. apply IH.
  by destruct (find_char c text).
Qed.

Lemma find_char_some c text i j :
  find_char c text = Some i -> (j <= i)%nat -> Regular.contains c (take j text) = false.
Proof.
  unfold Regular.contains. revert i j. induction text as [|x text IH]; intros i j Hi Hj; simpl in Hi; [done|].
  destruct j as [|j]; [done|]. simpl. rewrite Ascii.eqb_sym in Hi.
  destruct (c =? x)%char; [simplify_eq; lia|]. destruct (find_char c text) as [k|] eqn:Hk; [|done].
  simplify_eq/=. apply (IH k); [done|lia].
Qed.

Lemma find_char_lt c text i : find_char c text = Some i -> (i < length text)%nat.
Proof.
  revert i. induction text as [|x text IH]; intros i; simpl; [done|].
  case_match; [intros [= <-]; lia|]. destruct (find_char c text) as [k|]; [|done].
  intros [= <-]. specialize (IH k eq_refl). lia.
Qed.

Lemma find_char_contains c text i : find_char c text = Some i -> Regular.contains c text = true.
Proof.
  unfold Regular.contains. revert i. induction text as [|x text IH]; intros i; simpl; [done|].
  rewrite Ascii.eqb_sym. destruct (c =? x)%char; [done|].
  destruct (find_char c text) as [k|]; [|done]. intros _. by eapply IH.
Qed.

Lemma split_expression_spec expression regular attributes :
  split_expression expression = inl (regular, attributes) ->
  expression ≠ [] -> (length expression < 256)%nat ->
  regular = regular_part expression /\ admissible regular.
Proof.
  unfold split_expression, regular_part. intros Hs Hne Hlen.
  destruct (find_char "{" expression) as [opening|] eqn:Hopen.
  - case_match eqn:Hc; [done|]. case_bool_decide; [done|]. injection Hs as <- _. split; [done|].
    repeat (apply orb_false_elim in Hc as [Hc ?]). apply Nat.eqb_neq in Hc.
    pose proof (find_char_lt _ _ _ Hopen).
    repeat match goal with H : negb (bool_decide _) = false |- _ =>
      apply negb_false_iff, bool_decide_eq_true in H end.
    split; [intros Heq; apply (f_equal length) in Heq; rewrite length_take in Heq; simpl in Heq; lia|].
    split; [rewrite length_take; lia|]. split; [by eapply find_char_some|].
    eapply find_char_some; [done|]. lia.
  - case_bool_decide as Hclose; [done|]. injection Hs as <- _. split; [done|].
    split; [done|]. split; [done|]. split; [by apply find_char_none|].
    apply find_char_none. destruct (find_char "}" expression); [|done]. by destruct Hclose.
Qed.

(** What compilation yields, the regular part having been parsed. *)
Lemma compile_result expression :
  exists result error, compile expression = Some (result, error) /\
    (forall x, result = Some x -> alternate_syntax 0 (regular_part expression) (fe_root x)) /\
    (admissible expression -> result = None ->
       forall node, ~ alternate_syntax 0 expression node).
Proof.
  unfold compile. case_match eqn:Hsize.
  { eexists _, _. split; [done|]. split; [done|]. intros (Hne & Hlen & _) _.
    apply orb_prop in Hsize as [Hs|Hs]; [by apply bool_decide_eq_true in Hs|].
    apply Z.leb_le in Hs. unfold VI_FIND_BUFLEN in Hs. lia. }
  apply orb_false_elim in Hsize as [Hne%bool_decide_eq_false Hlen%Z.leb_gt].
  unfold VI_FIND_BUFLEN in Hlen.
  destruct (split_expression expression) as [[regular attributes]|message] eqn:Hsplit.
  2: { eexists _, _. split; [done|]. split; [done|]. intros (_ & _ & Hopen & Hclose) _.
       unfold split_expression in Hsplit.
       destruct (find_char "{" expression) as [i|] eqn:Hi.
       - by rewrite (find_char_contains _ _ _ Hi) in Hopen.
       - case_bool_decide as Hc; [|done]. destruct Hc as [j Hj].
         by rewrite (find_char_contains _ _ _ Hj) in Hclose. }
  destruct (split_expression_spec _ _ _ Hsplit Hne ltac:(lia)) as [-> Hadm].
  destruct (regular_parser_correct _ Hadm) as (root & s & Hrun & Hroot & _).
  rewrite Hrun. cbn [mbind option_bind].
  destruct root as [root|].
  2: { eexists _, _. split; [done|]. split; [done|]. intros (_ & _ & Hopen & _) _ node Hsyn.
       unfold regular_part in Hroot. destruct (find_char "{" expression) as [i|] eqn:Hi.
       - by rewrite (find_char_contains _ _ _ Hi) in Hopen.
       - by apply Hroot in Hsyn. }
  pose proof (proj1 (Hroot root) eq_refl) as Hsyn.
  case_bool_decide as Hattr.
  { eexists _, _. split; [done|]. split; [by intros x [= <-]|done]. }
  destruct (attributes_parse_returns attributes (start attributes (ps_error s)) eq_refl)
    as (attribute_root & s' & ->). cbn [mbind option_bind].
  destruct attribute_root as [attribute_root|].
  - eexists _, _. split; [done|]. split; [by intros x [= <-]|done].
  - eexists _, _. split; [done|]. split; [done|]. intros (_ & _ & Hopen & _) _.
    unfold split_expression in Hsplit. destruct (find_char "{" expression) as [i|] eqn:Hi.
    + by rewrite (find_char_contains _ _ _ Hi) in Hopen.
    + case_bool_decide; [done|]. by injection Hsplit as _ <-.
Qed.

(** The attribute filter, absent or passed. *)
Definition passes (x : FindExpression) (resource : ResourceDescriptor) : Prop :=
  match fe_attributes x with
  | None => True
  | Some attributes => match_attributes attributes resource = true
  end.

(** Matching always ends, and decides the language and the filter. *)
Lemma matches_spec x resource :
  exists b, matches x resource = Some b /\
    (b = true <-> denotes (fe_root x) (rd_canonical_name resource) /\ passes x resource).
Proof.
  unfold matches.
  destruct (match_node_outcome (rd_canonical_name resource) (fe_root x) 0%nat ltac:(lia))
    as (positions & -> & Hpos). cbn [mbind option_bind].
  eexists. split; [done|]. rewrite andb_true_iff, bool_decide_eq_true, Hpos.
  unfold ends. rewrite slice_all. unfold passes.
  destruct (fe_attributes x); naive_solver lia.
Qed.

(** C7: find expressions mean what their grammar says: compilation always
    returns; an accepted expression's tree is that of its regular part in the
    grammar; matching it against a resource always terminates, and succeeds
    exactly when the canonical name is in the language of the tree and the
    resource passes the attribute filter.  An expression without a filter is
    rejected only if it is not in the grammar. *)
Theorem find_expression_semantics expression :
  exists result error, compile expression = Some (result, error) /\
    (forall x, result = Some x ->
       alternate_syntax 0 (regular_part expression) (fe_root x) /\
       forall resource, exists b, matches x resource = Some b /\
         (b = true <-> denotes (fe_root x) (rd_canonical_name resource) /\ passes x resource)) /\
    (admissible expression -> result = None ->
       forall node, ~ alternate_syntax 0 expression node).
Proof.
  destruct (compile_result expression) as (result & error & Hc & Hsyn & Hrej).
  exists result, error. split; [done|]. split; [|done]. intros x Hx.
  split; [by apply Hsyn|apply matches_spec].
Qed.

(** The project's own expression finds its mock resource. *)
Example mock_expression_matches :
  match compile WRVISA_MOCK_FIND_EXPRESSION, parse_resource WRVISA_MOCK_RESOURCE with
  | Some (Some x, []), Some resource => matches x resource = Some true
  | _, _ => False
  end.
Proof. vm_compute. reflexivity. Qed.
