(* ===== verification/Bytes.v ===== *)
(** * Bytes on the wire

    What the protocol encoders and decoders share: unsigned 32- and 64-bit
    numbers in both byte orders, padding, and checked indexing.  A byte is an
    integer of [0, 255]; [bytes[i]] is [bytes !! i], where [None] is the undefined
    behaviour of indexing a span beyond its end. *)

From S2P Require Import Prelude.

Definition is_byte (b : Z) : Prop := 0 <= b < 256.

Definition are_bytes (bytes : list Z) : Prop := Forall is_byte bytes.

(** ** Numbers *)

(** [append_u32] of the big-endian protocols. *)
Definition be32 (value : Z) : list Z :=
  [u8 (Z.shiftr value 24); u8 (Z.shiftr value 16); u8 (Z.shiftr value 8); u8 value].

Definition be64 (value : Z) : list Z := be32 (u32 (Z.shiftr value 32)) ++ be32 (u32 value).

(** The four bytes combined by [read_u32]. *)
Definition from_be32 (b0 b1 b2 b3 : Z) : Z :=
  Z.lor (Z.lor (Z.lor (Z.shiftl b0 24) (Z.shiftl b1 16)) (Z.shiftl b2 8)) b3.

Definition read_be32 (bytes : list Z) (offset : nat) : option Z :=
  b0 ← bytes !! offset;
  b1 ← bytes !! (offset + 1)%nat;
  b2 ← bytes !! (offset + 2)%nat;
  b3 ← bytes !! (offset + 3)%nat;
  Some (from_be32 b0 b1 b2 b3).

Definition read_be64 (bytes : list Z) (offset : nat) : option Z :=
  high ← read_be32 bytes offset;
  low ← read_be32 bytes (offset + 4);
  Some (Z.lor (Z.shiftl high 32) low).

(** [append_u32_le] and [read_u32_le]. *)
Definition le32 (value : Z) : list Z :=
  [Z.land value 0xff; Z.land (Z.shiftr value 8) 0xff; Z.land (Z.shiftr value 16) 0xff;
   Z.land (Z.shiftr value 24) 0xff].

Definition read_le32 (bytes : list Z) (offset : nat) : option Z :=
  b0 ← bytes !! offset;
  b1 ← bytes !! (offset + 1)%nat;
  b2 ← bytes !! (offset + 2)%nat;
  b3 ← bytes !! (offset + 3)%nat;
  Some (Z.lor (Z.lor (Z.lor b0 (Z.shiftl b1 8)) (Z.shiftl b2 16)) (Z.shiftl b3 24)).

(** ** Checked conditions

    The operators [&&] and [||] evaluate their right operand only when needed,
    so a condition is undefined only if an index it really evaluates is out of
    range. *)

Definition and_then (a : option bool) (b : option bool) : option bool :=
  match a with Some true => b | _ => a end.

Definition or_else (a : option bool) (b : option bool) : option bool :=
  match a with Some false => b | _ => a end.

Notation "a <&&> b" := (and_then a b) (at level 40, left associativity) : wrvisa_scope.
Notation "a <||> b" := (or_else a b) (at level 50, left associativity) : wrvisa_scope.

(** [f(bytes[index])] as a condition. *)
Definition byte_is (f : Z -> bool) (bytes : list Z) (index : nat) : option bool :=
  f <$> bytes !! index.

(** [for (index = first; index < first + count; ++index) if (bytes[index] != 0) return false;] *)
Fixpoint zero_bytes (bytes : list Z) (first count : nat) : option bool :=
  match count with
  | O => Some true
  | S count => byte_is (fun b => b =? 0) bytes first <&&> zero_bytes bytes (S first) count
  end.

(** ** Arithmetic *)

Create HintDb wrbytes.

Lemma from_be32_arith b0 b1 b2 b3 :
  is_byte b0 -> is_byte b1 -> is_byte b2 -> is_byte b3 ->
  from_be32 b0 b1 b2 b3 = b0 * 2 ^ 24 + b1 * 2 ^ 16 + b2 * 2 ^ 8 + b3.
Proof.
  unfold is_byte, from_be32. intros H0 H1 H2 H3.
  rewrite (Z.shiftl_mul_pow2 b1), (Z.shiftl_mul_pow2 b2) by lia.
  rewrite (lor_shiftl_add b0 (b1 * 2 ^ 16) 24) by lia.
  replace (b0 * 2 ^ 24 + b1 * 2 ^ 16) with (Z.shiftl (b0 * 2 ^ 8 + b1) 16) by (rewrite Z.shiftl_mul_pow2; lia).
  rewrite (lor_shiftl_add _ (b2 * 2 ^ 8) 16) by lia.
  replace ((b0 * 2 ^ 8 + b1) * 2 ^ 16 + b2 * 2 ^ 8) with (Z.shiftl ((b0 * 2 ^ 8 + b1) * 2 ^ 8 + b2) 8)
    by (rewrite Z.shiftl_mul_pow2; lia).
  rewrite lor_shiftl_add, ?Z.shiftl_mul_pow2 by lia. lia.
Qed.

Lemma byte_of value n : 0 <= n -> is_byte (u8 (Z.shiftr value n)).
Proof. intros Hn. unfold is_byte, u8. apply Z.mod_pos_bound. lia. Qed.

Lemma byte_u8 value : is_byte (u8 value).
Proof. unfold is_byte, u8. apply Z.mod_pos_bound. lia. Qed.

Lemma are_bytes_be32 value : are_bytes (be32 value).
Proof. unfold be32. repeat constructor; apply byte_u8. Qed.

Lemma are_bytes_be64 value : are_bytes (be64 value).
Proof. apply Forall_app. split; apply are_bytes_be32. Qed.

Lemma u8_land value : Z.land value 0xff = u8 value.
Proof. unfold u8. change 0xff with (Z.ones 8). by rewrite Z.land_ones by lia. Qed.

Lemma le32_be32 value : le32 value = reverse (be32 value).
Proof. unfold le32, be32. rewrite !u8_land. done. Qed.

Lemma are_bytes_le32 value : are_bytes (le32 value).
Proof. unfold le32. rewrite !u8_land. repeat constructor; apply byte_u8. Qed.

#[export] Hint Resolve byte_u8 byte_of are_bytes_be32 are_bytes_be64 are_bytes_le32 : wrbytes.

(** The digits of a 32-bit number, recombined. *)
Lemma digits value :
  0 <= value < 2 ^ 32 ->
  u8 (Z.shiftr value 24) * 2 ^ 24 + u8 (Z.shiftr value 16) * 2 ^ 16 +
    u8 (Z.shiftr value 8) * 2 ^ 8 + u8 value = value.
Proof.
  intros Hv. unfold u8. rewrite !Z.shiftr_div_pow2 by lia.
  assert (value / 2 ^ 24 = value / 2 ^ 8 / 2 ^ 8 / 2 ^ 8) as -> by (rewrite !Z.div_div by lia; done).
  assert (value / 2 ^ 16 = value / 2 ^ 8 / 2 ^ 8) as -> by (rewrite !Z.div_div by lia; done).
  pose proof (Z.div_mod value (2 ^ 8) ltac:(lia)).
  pose proof (Z.div_mod (value / 2 ^ 8) (2 ^ 8) ltac:(lia)).
  pose proof (Z.div_mod (value / 2 ^ 8 / 2 ^ 8) (2 ^ 8) ltac:(lia)).
  assert (value / 2 ^ 8 / 2 ^ 8 / 2 ^ 8 < 2 ^ 8).
  { rewrite !Z.div_div by lia. apply Z.div_lt_upper_bound; lia. }
  assert (0 <= value / 2 ^ 8 / 2 ^ 8 / 2 ^ 8) by (rewrite !Z.div_div by lia; apply Z.div_pos; lia).
  rewrite (Z.mod_small (value / 2 ^ 8 / 2 ^ 8 / 2 ^ 8)) by lia. lia.
Qed.

Lemma from_be32_digits value :
  0 <= value < 2 ^ 32 ->
  from_be32 (u8 (Z.shiftr value 24)) (u8 (Z.shiftr value 16)) (u8 (Z.shiftr value 8)) (u8 value) = value.
Proof. intros Hv. rewrite from_be32_arith by auto with wrbytes. by apply digits. Qed.

Lemma from_be32_range b0 b1 b2 b3 :
  is_byte b0 -> is_byte b1 -> is_byte b2 -> is_byte b3 -> 0 <= from_be32 b0 b1 b2 b3 < 2 ^ 32.
Proof. intros. rewrite from_be32_arith by done. unfold is_byte in *. lia. Qed.

Lemma be32_from b0 b1 b2 b3 :
  is_byte b0 -> is_byte b1 -> is_byte b2 -> is_byte b3 ->
  be32 (from_be32 b0 b1 b2 b3) = [b0; b1; b2; b3].
Proof.
  intros H0 H1 H2 H3. rewrite from_be32_arith by done. unfold is_byte in *. unfold be32, u8.
  set (v := b0 * 2 ^ 24 + b1 * 2 ^ 16 + b2 * 2 ^ 8 + b3). rewrite !Z.shiftr_div_pow2 by lia.
  assert (v / 2 ^ 24 = b0) as ->
    by (symmetry; apply (Z.div_unique _ _ _ (b1 * 2 ^ 16 + b2 * 2 ^ 8 + b3)); unfold v; lia).
  assert (v / 2 ^ 16 = b0 * 2 ^ 8 + b1) as ->
    by (symmetry; apply (Z.div_unique _ _ _ (b2 * 2 ^ 8 + b3)); unfold v; lia).
  assert (v / 2 ^ 8 = (b0 * 2 ^ 8 + b1) * 2 ^ 8 + b2) as ->
    by (symmetry; apply (Z.div_unique _ _ _ b3); unfold v; lia).
  assert (v mod 2 ^ 8 = b3) as ->
    by (symmetry; apply (Z.mod_unique _ _ ((b0 * 2 ^ 8 + b1) * 2 ^ 8 + b2)); unfold v; lia).
  rewrite (Z.mod_small b0) by lia.
  rewrite (Z.add_comm (b0 * 2 ^ 8) b1), Z.mod_add, (Z.mod_small b1) by lia.
  rewrite (Z.add_comm _ b2), Z.mod_add, (Z.mod_small b2) by lia. done.
Qed.

(** ** Reading back *)

Lemma read_be32_app pre value post :
  0 <= value < 2 ^ 32 -> read_be32 (pre ++ be32 value ++ post) (length pre) = Some value.
Proof.
  intros Hv. unfold read_be32.
  rewrite !(lookup_app_r pre) by lia. rewrite Nat.sub_diag.
  replace (length pre + 1 - length pre)%nat with 1%nat by lia.
  replace (length pre + 2 - length pre)%nat with 2%nat by lia.
  replace (length pre + 3 - length pre)%nat with 3%nat by lia.
  cbn. by rewrite from_be32_digits.
Qed.

Lemma read_be32_head value post :
  0 <= value < 2 ^ 32 -> read_be32 (be32 value ++ post) 0 = Some value.
Proof. apply (read_be32_app []). Qed.

Lemma read_be32_Some bytes value :
  are_bytes bytes -> read_be32 bytes 0 = Some value ->
  0 <= value < 2 ^ 32 /\ bytes = be32 value ++ drop 4 bytes.
Proof.
  intros Hb Hr. unfold read_be32 in Hr.
  destruct bytes as [|b0 [|b1 [|b2 [|b3 rest]]]]; try done. cbn in Hr. injection Hr as <-.
  apply Forall_cons in Hb as [H0 Hb]. apply Forall_cons in Hb as [H1 Hb].
  apply Forall_cons in Hb as [H2 Hb]. apply Forall_cons in Hb as [H3 _].
  split; [by apply from_be32_range|]. by rewrite be32_from.
Qed.

Lemma read_be32_None bytes : read_be32 bytes 0 = None <-> (length bytes < 4)%nat.
Proof.
  destruct bytes as [|b0 [|b1 [|b2 [|b3 rest]]]]; cbn; split; try done; try lia.
Qed.

Lemma read_be32_drop bytes n : read_be32 bytes n = read_be32 (drop n bytes) 0.
Proof. unfold read_be32. by rewrite !lookup_drop, Nat.add_0_r. Qed.

Definition from_le32 (b0 b1 b2 b3 : Z) : Z :=
  Z.lor (Z.lor (Z.lor b0 (Z.shiftl b1 8)) (Z.shiftl b2 16)) (Z.shiftl b3 24).

Lemma from_le32_be b0 b1 b2 b3 : from_le32 b0 b1 b2 b3 = from_be32 b3 b2 b1 b0.
Proof.
  unfold from_le32, from_be32.
  rewrite (Z.lor_comm (Z.lor (Z.lor b0 _) _)), (Z.lor_comm (Z.lor b0 _)), (Z.lor_comm b0).
  by rewrite !Z.lor_assoc.
Qed.

Lemma read_le32_at pre b0 b1 b2 b3 post :
  read_le32 (pre ++ b0 :: b1 :: b2 :: b3 :: post) (length pre) = Some (from_be32 b3 b2 b1 b0).
Proof.
  unfold read_le32. rewrite !(lookup_app_r pre) by lia. rewrite Nat.sub_diag.
  replace (length pre + 1 - length pre)%nat with 1%nat by lia.
  replace (length pre + 2 - length pre)%nat with 2%nat by lia.
  replace (length pre + 3 - length pre)%nat with 3%nat by lia.
  cbn. f_equal. apply from_le32_be.
Qed.

Lemma read_le32_app pre value post :
  0 <= value < 2 ^ 32 -> read_le32 (pre ++ le32 value ++ post) (length pre) = Some value.
Proof.
  intros Hv. unfold le32. rewrite !u8_land. cbn [app]. rewrite read_le32_at.
  by rewrite from_be32_digits.
Qed.

Lemma le32_from b0 b1 b2 b3 :
  is_byte b0 -> is_byte b1 -> is_byte b2 -> is_byte b3 ->
  le32 (from_be32 b3 b2 b1 b0) = [b0; b1; b2; b3].
Proof. intros. rewrite le32_be32, be32_from by done. done. Qed.

(** ** 64-bit numbers *)

Lemma read_be64_app pre value post :
  0 <= value < 2 ^ 64 -> read_be64 (pre ++ be64 value ++ post) (length pre) = Some value.
Proof.
  intros Hv. unfold read_be64, be64.
  assert (0 <= value / 2 ^ 32 < 2 ^ 32) as Hh
    by (split; [apply Z.div_pos|apply Z.div_lt_upper_bound]; lia).
  pose proof (Z.mod_pos_bound value (2 ^ 32) ltac:(lia)) as Hl.
  unfold u32. rewrite Z.shiftr_div_pow2 by lia. rewrite (Z.mod_small (value / 2 ^ 32)) by lia.
  rewrite <- app_assoc, read_be32_app by lia. cbn [mbind option_bind].
  rewrite app_assoc.
  replace (length pre + 4)%nat with (length (pre ++ be32 (value / 2 ^ 32)))
    by (rewrite length_app; done).
  rewrite read_be32_app by lia. cbn [mbind option_bind].
  rewrite lor_shiftl_add by lia. f_equal. pose proof (Z.div_mod value (2 ^ 32) ltac:(lia)). lia.
Qed.

Lemma read_be64_Some bytes value :
  are_bytes bytes -> read_be64 bytes 0 = Some value ->
  0 <= value < 2 ^ 64 /\ bytes = be64 value ++ drop 8 bytes.
Proof.
  intros Hb Hr. unfold read_be64 in Hr. apply bind_Some in Hr as (high & Hh & Hr).
  apply bind_Some in Hr as (low & Hl & Hr). injection Hr as <-.
  destruct (read_be32_Some _ _ Hb Hh) as [Hhr Heq]. rewrite read_be32_drop in Hl.
  destruct (read_be32_Some _ _ (Forall_drop _ _ _ Hb) Hl) as [Hlr Heql].
  rewrite lor_shiftl_add by lia. split; [lia|]. unfold be64, u32.
  rewrite Z.shiftr_div_pow2 by lia.
  assert ((high * 2 ^ 32 + low) / 2 ^ 32 = high) as ->
    by (symmetry; apply (Z.div_unique _ _ _ low); lia).
  assert ((high * 2 ^ 32 + low) mod 2 ^ 32 = low) as ->
    by (symmetry; apply (Z.mod_unique _ _ high); lia).
  rewrite (Z.mod_small high) by lia. rewrite Heq at 1. rewrite <- app_assoc. f_equal.
  rewrite Heql at 1. f_equal. by rewrite drop_drop.
Qed.

(** ** Padding to a multiple of four *)

(** [(size + 3) & ~3] of the XDR code. *)
Definition padded (size : Z) : Z := Z.land (size + 3) (Z.lnot 3).

Lemma padded_arith size : padded size = (size + 3) / 4 * 4.
Proof.
  unfold padded. change 3 with (Z.ones 2) at 2. rewrite <- Z.ldiff_land, Z.ldiff_ones_r by lia.
  by rewrite Z.shiftr_div_pow2, Z.shiftl_mul_pow2 by lia.
Qed.

Lemma padded_bounds size : size <= padded size <= size + 3.
Proof.
  rewrite padded_arith. pose proof (Z.div_mod (size + 3) 4 ltac:(lia)).
  pose proof (Z.mod_pos_bound (size + 3) 4 ltac:(lia)). lia.
Qed.

(** ** Properties of single bytes, by evaluation *)

Definition every_byte : list Z := Z.of_nat <$> seq 0 256.

Lemma byte_forall (f : Z -> bool) : forallb f every_byte = true -> forall b, is_byte b -> f b = true.
Proof.
  intros Hf b [Hl Hh]. rewrite forallb_forall in Hf. apply Hf. apply list_elem_of_In.
  apply list_elem_of_fmap. exists (Z.to_nat b). split; [lia|]. apply elem_of_seq. lia.
Qed.

(** A byte whose other bits are clear is its flag. *)
Lemma flag_byte mask rest b :
  forallb (fun b => implb (Z.land b rest =? 0) (b =? (if Z.land b mask =? 0 then 0 else mask)))
    every_byte = true ->
  is_byte b -> Z.land b rest = 0 -> b = if negb (Z.land b mask =? 0) then mask else 0.
Proof.
  intros Hf Hb Hz. apply (byte_forall _ Hf) in Hb. rewrite Hz in Hb. cbn in Hb.
  apply Z.eqb_eq in Hb. by destruct (Z.land b mask =? 0).
Qed.

Lemma complement_byte b : is_byte b -> is_byte (u8 (Z.lnot b)).
Proof. intros. apply byte_u8. Qed.

(** A list with at least twelve elements, opened. *)
Lemma twelve {A} (l : list A) :
  (12 <= length l)%nat ->
  exists b0 b1 b2 b3 b4 b5 b6 b7 b8 b9 b10 b11 rest,
    l = b0 :: b1 :: b2 :: b3 :: b4 :: b5 :: b6 :: b7 :: b8 :: b9 :: b10 :: b11 :: rest.
Proof.
  destruct l as [|b0 [|b1 [|b2 [|b3 [|b4 [|b5 [|b6 [|b7 [|b8 [|b9 [|b10 [|b11 rest]]]]]]]]]]]];
    cbn [length]; intros Hl; try lia.
  by exists b0, b1, b2, b3, b4, b5, b6, b7, b8, b9, b10, b11, rest.
Qed.

(** ** The first termination character *)

(** The index after the first [termchar], as [std::find] gives it. *)
Fixpoint find_termchar (termchar : Z) (bytes : list Z) : option nat :=
  match bytes with
  | [] => None
  | b :: bytes => if b =? termchar then Some 1%nat else S <$> find_termchar termchar bytes
  end.

Lemma find_termchar_Some tc l n :
  find_termchar tc l = Some n ->
  exists pre, take n l = pre ++ [tc] /\ tc ∉ pre /\ (n <= length l)%nat.
Proof.
  revert n. induction l as [|b l IH]; intros n; simpl; [done|].
  destruct (Z.eqb_spec b tc) as [->|Hne].
  - intros [= <-]. exists []. simpl. split; [done|]. split; [apply not_elem_of_nil|lia].
  - destruct (find_termchar tc l) as [m|]; [|done]. intros [= <-].
    destruct (IH m eq_refl) as (pre & Ht & Hin & Hl). exists (b :: pre). simpl.
    rewrite Ht. split; [done|]. split; [|lia]. rewrite elem_of_cons. naive_solver.
Qed.

Lemma find_termchar_None tc l : find_termchar tc l = None -> tc ∉ l.
Proof.
  induction l as [|b l IH]; simpl; intros Hf; [apply not_elem_of_nil|].
  destruct (Z.eqb_spec b tc) as [->|Hne]; [done|].
  destruct (find_termchar tc l); [done|]. rewrite elem_of_cons. naive_solver.
Qed.

Lemma read_be64_drop bytes n : read_be64 bytes n = read_be64 (drop n bytes) 0.
Proof.
  unfold read_be64. rewrite (read_be32_drop bytes n).
  rewrite (read_be32_drop bytes (n + 4)), (read_be32_drop (drop n bytes) (0 + 4)).
  by rewrite drop_drop.
Qed.

Lemma read_be32_is_Some bytes n : (n + 4 <= length bytes)%nat -> is_Some (read_be32 bytes n).
Proof.
  intros Hl. rewrite read_be32_drop. destruct (read_be32 (drop n bytes) 0) eqn:Hr; [by eexists|].
  apply read_be32_None in Hr. rewrite length_drop in Hr. lia.
Qed.

Lemma read_be64_is_Some bytes n : (n + 8 <= length bytes)%nat -> is_Some (read_be64 bytes n).
Proof.
  intros Hl. unfold read_be64.
  destruct (read_be32_is_Some bytes n ltac:(lia)) as [high ->].
  destruct (read_be32_is_Some bytes (n + 4) ltac:(lia)) as [low ->]. by eexists.
Qed.
