(* ===== verification/HislipProtocol.v ===== *)
(** * HiSLIP messages: [backends/hislip/hislip_protocol.{h,cpp}]

    The encoder and decoder of HiSLIP frames, with the proof that they are each
    other's inverse. *)

From S2P Require Import Prelude Bytes.

(** An [enum class] over [std::uint8_t] holds any byte; the bytes without a name
    are [unnamed_message]. *)
Inductive MessageType :=
| initialize | initialize_response | fatal_error | error | async_lock | async_lock_response
| data | data_end | device_clear_complete | device_clear_acknowledge
| async_remote_local_control | async_remote_local_response | trigger | interrupted
| async_interrupted | async_maximum_message_size | async_maximum_message_size_response
| async_initialize | async_initialize_response | async_device_clear | async_service_request
| async_status_query | async_status_response | async_device_clear_acknowledge
| async_lock_info | async_lock_info_response
| unnamed_message (code : Z).

#[global] Instance MessageType_eq_dec : EqDecision MessageType.
Proof. solve_decision. Defined.

Definition named_messages : list MessageType :=
  [initialize; initialize_response; fatal_error; error; async_lock; async_lock_response;
   data; data_end; device_clear_complete; device_clear_acknowledge;
   async_remote_local_control; async_remote_local_response; trigger; interrupted;
   async_interrupted; async_maximum_message_size; async_maximum_message_size_response;
   async_initialize; async_initialize_response; async_device_clear; async_service_request;
   async_status_query; async_status_response; async_device_clear_acknowledge;
   async_lock_info; async_lock_info_response].

(** [static_cast<std::uint8_t>(type)] *)
Definition MessageType_code (type : MessageType) : Z :=
  match type with
  | initialize => 0 | initialize_response => 1 | fatal_error => 2 | error => 3
  | async_lock => 4 | async_lock_response => 5 | data => 6 | data_end => 7
  | device_clear_complete => 8 | device_clear_acknowledge => 9
  | async_remote_local_control => 10 | async_remote_local_response => 11
  | trigger => 12 | interrupted => 13 | async_interrupted => 14
  | async_maximum_message_size => 15 | async_maximum_message_size_response => 16
  | async_initialize => 17 | async_initialize_response => 18 | async_device_clear => 19
  | async_service_request => 20 | async_status_query => 21 | async_status_response => 22
  | async_device_clear_acknowledge => 23 | async_lock_info => 24
  | async_lock_info_response => 25
  | unnamed_message code => code
  end.

(** [static_cast<MessageType>(byte)] *)
Definition MessageType_of_code (code : Z) : MessageType :=
  if 25 <? code then unnamed_message code
  else default (unnamed_message code) (named_messages !! Z.to_nat code).

Record Frame := mkFrame {
  f_type : MessageType;
  f_control : Z;
  f_parameter : Z;
  f_payload : list Z }.

Definition encode (type : MessageType) (control parameter : Z) (payload : list Z) : list Z :=
  [72; 83] ++ [MessageType_code type; control] ++ be32 parameter ++
  be64 (u64 (Z.of_nat (length payload))) ++ payload.

Definition SIZE_MAX : Z := 2 ^ 64 - 1.

(** [None] inside is [false]; outside, an index out of range. *)
Definition decode (bytes : list Z) : option (option Frame) :=
  if Nat.ltb (length bytes) 16 then Some None
  else
    b0 ← bytes !! 0%nat;
    b1 ← bytes !! 1%nat;
    if negb (b0 =? 72) || negb (b1 =? 83) then Some None
    else
      payload_size ← read_be64 bytes 8;
      if (SIZE_MAX <? payload_size)
         || negb (Z.of_nat (length bytes - 16) =? payload_size)
      then Some None
      else
        type ← bytes !! 2%nat;
        control ← bytes !! 3%nat;
        parameter ← read_be32 bytes 4;
        Some (Some (mkFrame (MessageType_of_code type) control parameter (drop 16 bytes))).

(** ** The inverse *)

Lemma MessageType_code_of_code code : 0 <= code < 256 -> MessageType_code (MessageType_of_code code) = code.
Proof.
  intros Hc. unfold MessageType_of_code. destruct (Z.ltb_spec 25 code) as [|Hle]; [done|].
  rewrite <- (Z2Nat.id code) at 3 by lia. assert (Z.to_nat code <= 25)%nat as Hn by lia.
  revert Hn. generalize (Z.to_nat code). intros n Hn.
  do 26 (destruct n as [|n]; [reflexivity|]). lia.
Qed.

(** A type as the decoder builds it. *)
Definition type_ok (type : MessageType) : Prop :=
  match type with unnamed_message code => 25 < code < 256 | _ => True end.

Lemma MessageType_of_code_code type : type_ok type -> MessageType_of_code (MessageType_code type) = type.
Proof.
  destruct type as [| | | | | | | | | | | | | | | | | | | | | | | | | |code]; try done.
  intros [Hc _]. simpl. unfold MessageType_of_code. by destruct (Z.ltb_spec 25 code); [|lia].
Qed.

Lemma type_ok_of_code code : 0 <= code < 256 -> type_ok (MessageType_of_code code).
Proof.
  intros Hc. unfold MessageType_of_code. destruct (Z.ltb_spec 25 code) as [|Hle]; [simpl; lia|].
  assert (Z.to_nat code <= 25)%nat as Hn by lia. revert Hn. generalize (Z.to_nat code). intros n Hn.
  do 26 (destruct n as [|n]; [exact I|]). lia.
Qed.

Lemma MessageType_code_byte type : type_ok type -> is_byte (MessageType_code type).
Proof. unfold is_byte. destruct type; simpl; lia. Qed.

(** A frame of the members' widths. *)
Definition frame_ok (f : Frame) : Prop :=
  type_ok (f_type f) /\ is_byte (f_control f) /\ 0 <= f_parameter f < 2 ^ 32 /\
  are_bytes (f_payload f) /\ Z.of_nat (length (f_payload f)) < 2 ^ 64 - 16.

Definition encode_frame (f : Frame) : list Z :=
  encode (f_type f) (f_control f) (f_parameter f) (f_payload f).

Lemma encode_length type control parameter payload :
  length (encode type control parameter payload) = (16 + length payload)%nat.
Proof. unfold encode. by rewrite !length_app. Qed.

Lemma u64_small z : 0 <= z < 2 ^ 64 -> u64 z = z.
Proof. apply Z.mod_small. Qed.

Lemma decode_encode_frame f : frame_ok f -> decode (encode_frame f) = Some (Some f).
Proof.
  intros (Ht & Hc & Hp & _ & Hl). unfold decode, encode_frame. rewrite encode_length.
  rewrite (proj2 (Nat.ltb_ge _ _)) by lia.
  set (bytes := encode _ _ _ _).
  assert (bytes !! 0%nat = Some 72) as -> by done.
  assert (bytes !! 1%nat = Some 83) as -> by done.
  assert (bytes !! 2%nat = Some (MessageType_code (f_type f))) as -> by done.
  assert (bytes !! 3%nat = Some (f_control f)) as -> by done.
  cbn [mbind option_bind]. change (negb (72 =? 72) || negb (83 =? 83)) with false. cbn iota.
  assert (read_be64 bytes 8 = Some (Z.of_nat (length (f_payload f)))) as ->.
  { pose proof (read_be64_app
      ([72; 83] ++ [MessageType_code (f_type f); f_control f] ++ be32 (f_parameter f))
      (Z.of_nat (length (f_payload f))) (f_payload f) ltac:(lia)) as Hr.
    unfold bytes, encode. rewrite u64_small by lia. rewrite <- Hr. by rewrite <- !app_assoc. }
  assert (read_be32 bytes 4 = Some (f_parameter f)) as ->.
  { pose proof (read_be32_app ([72; 83] ++ [MessageType_code (f_type f); f_control f]) (f_parameter f)
      (be64 (u64 (Z.of_nat (length (f_payload f)))) ++ f_payload f) Hp) as Hr.
    unfold bytes, encode. rewrite <- Hr. by rewrite <- !app_assoc. }
  cbn [mbind option_bind]. unfold SIZE_MAX.
  rewrite (proj2 (Z.ltb_ge _ _)) by lia.
  rewrite (proj2 (Z.eqb_eq _ _)) by lia. cbn [negb orb].
  rewrite MessageType_of_code_code by done.
  do 2 f_equal. destruct f as [ty c p payload]. reflexivity.
Qed.

Lemma decode_defined bytes :
  are_bytes bytes -> Z.of_nat (length bytes) < 2 ^ 64 ->
  exists r, decode bytes = Some r /\
    forall f, r = Some f -> bytes = encode_frame f /\ frame_ok f.
Proof.
  intros Hb Hl. unfold decode. destruct (Nat.ltb_spec (length bytes) 16) as [|Hge]; [by eexists|].
  destruct (read_be64_is_Some bytes 8 ltac:(lia)) as [size Hsize]. rewrite Hsize.
  destruct (read_be32_is_Some bytes 4 ltac:(lia)) as [parameter Hparam]. rewrite Hparam.
  destruct bytes as [|b0 [|b1 [|b2 [|b3 rest]]]]; try (simpl in Hge; lia).
  cbn [mbind option_bind lookup list_lookup].
  destruct (Z.eqb_spec b0 72) as [->|]; [|by eexists].
  destruct (Z.eqb_spec b1 83) as [->|]; [|by eexists]. cbn [negb orb].
  destruct (SIZE_MAX <? size); [by eexists|]. cbn [orb].
  destruct (Z.eqb_spec (Z.of_nat (length (72 :: 83 :: b2 :: b3 :: rest) - 16)) size) as [Heq|]; [|by eexists].
  cbn [negb]. eexists. split; [done|]. intros f [= <-].
  pose proof Hb as Hb'. apply Forall_cons in Hb' as [_ Hb']. apply Forall_cons in Hb' as [_ Hb'].
  apply Forall_cons in Hb' as [Hb2 Hb']. apply Forall_cons in Hb' as [Hb3 Hrest].
  rewrite read_be32_drop in Hparam. rewrite read_be64_drop in Hsize. cbn [drop] in Hparam, Hsize.
  rewrite ?drop_0 in Hparam.
  destruct (read_be32_Some _ _ Hrest Hparam) as [Hpr Hp1].
  destruct (read_be64_Some _ _ (Forall_drop _ _ _ Hrest) Hsize) as [Hsr Hs1].
  cbn [length] in *. split.
  - unfold encode_frame, encode. cbn [f_type f_control f_parameter f_payload].
    rewrite MessageType_code_of_code by done. cbn [app drop]. do 4 f_equal.
    rewrite u64_small by (rewrite length_drop; lia).
    rewrite Hp1 at 1. f_equal. rewrite Hs1 at 1. rewrite drop_drop. f_equal.
    f_equal. rewrite length_drop. simpl. lia.
  - split; [by apply type_ok_of_code|]. split; [done|]. split; [done|].
    split; [by apply Forall_drop|]. cbn [f_payload]. rewrite length_drop. simpl. lia.
Qed.

(** C15: the HiSLIP codec is a bijection between the frames and the byte strings
    it accepts: every frame whose members have their widths is decoded from its
    encoding; decoding never reads beyond its input, and what it accepts is the
    encoding of the frame it returns, so no two byte strings decode alike. *)
Theorem hislip_codec f bytes :
  (frame_ok f -> decode (encode_frame f) = Some (Some f)) /\
  (are_bytes bytes -> Z.of_nat (length bytes) < 2 ^ 64 ->
   exists r, decode bytes = Some r /\
     forall f, r = Some f -> bytes = encode_frame f /\ frame_ok f).
Proof. split; [apply decode_encode_frame|apply decode_defined]. Qed.
