(* ===== verification/Vxi11Protocol.v ===== *)
(** * XDR and ONC RPC: [backends/vxi11/vxi11_protocol.{h,cpp}]

    The writer and reader of XDR data, and the framing of RPC calls and replies
    over TCP. *)

From S2P Require Import Prelude Bytes.

(** ** Constants *)

Definition kPortmapperProgram : Z := 100000.
Definition kPortmapperVersion : Z := 2.
Definition kPortmapperGetPort : Z := 3.
Definition kTcpProtocol : Z := 6.
Definition kDeviceCoreProgram : Z := 0x0607AF.
Definition kDeviceAsyncProgram : Z := 0x0607B0.
Definition kProgramVersion : Z := 1.
Definition kCreateLink : Z := 10.
Definition kDeviceWrite : Z := 11.
Definition kDeviceRead : Z := 12.
Definition kDeviceReadStb : Z := 13.
Definition kDeviceTrigger : Z := 14.
Definition kDeviceClear : Z := 15.
Definition kDeviceLock : Z := 18.
Definition kDeviceUnlock : Z := 19.
Definition kDestroyLink : Z := 23.
Definition kDeviceAbort : Z := 1.
Definition kFlagWaitLock : Z := 1.
Definition kFlagEnd : Z := 8.
Definition kFlagTermCharSet : Z := 128.
Definition kReasonRequestedCount : Z := 1.
Definition kReasonTermChar : Z := 2.
Definition kReasonEnd : Z := 4.

(** ** Writing

    An [XdrWriter] is its [bytes_]. *)

Definition writer_u32 (value : Z) (bytes : list Z) : list Z := bytes ++ be32 value.

Definition writer_boolean (value : bool) (bytes : list Z) : list Z :=
  writer_u32 (if value then 1 else 0) bytes.

(** The [while] loop of [opaque]; a multiple of four is at most three bytes away. *)
Fixpoint pad_loop (fuel : nat) (bytes : list Z) : list Z :=
  match fuel with
  | O => bytes
  | S fuel =>
      if negb (Z.land (Z.of_nat (length bytes)) 3 =? 0) then pad_loop fuel (bytes ++ [0]) else bytes
  end.

Definition pad_fuel : nat := 3.

Definition writer_opaque (value : list Z) (bytes : list Z) : list Z :=
  pad_loop pad_fuel (writer_u32 (u32 (Z.of_nat (length value))) bytes ++ value).

Definition writer_string (value : str) (bytes : list Z) : list Z :=
  writer_opaque ((fun c => Z.of_N (N_of_ascii c)) <$> value) bytes.

(** ** Reading

    A call returns [None] for [false], with the offset it leaves behind. *)

Record XdrReader := mkReader { xr_bytes : list Z; xr_offset : nat }.

Definition reader_of (bytes : list Z) : XdrReader := mkReader bytes 0.

Definition remaining (r : XdrReader) : list Z := drop (xr_offset r) (xr_bytes r).

Definition reader_u32 (r : XdrReader) : option Z * XdrReader :=
  if Nat.ltb (length (xr_bytes r) - xr_offset r) 4 then (None, r)
  else (read_be32 (xr_bytes r) (xr_offset r), mkReader (xr_bytes r) (xr_offset r + 4)).

Definition reader_opaque (maximum : Z) (r : XdrReader) : option (list Z) * XdrReader :=
  let '(size, r) := reader_u32 r in
  match size with
  | None => (None, r)
  | Some size =>
      if maximum <? size then (None, r)
      else
        let padded := padded size in
        if Z.of_nat (length (xr_bytes r) - xr_offset r) <? padded then (None, r)
        else (Some (take (Z.to_nat size) (drop (xr_offset r) (xr_bytes r))),
              mkReader (xr_bytes r) (xr_offset r + Z.to_nat padded))
  end.

(** ** Remote procedure calls *)

(** The empty vector is a body too long for its record mark. *)
Definition make_rpc_call (xid program version procedure : Z) (arguments : list Z) : list Z :=
  let message :=
    writer_u32 0 (writer_u32 0 (writer_u32 0 (writer_u32 0 (writer_u32 procedure
      (writer_u32 version (writer_u32 program (writer_u32 2 (writer_u32 0 (writer_u32 xid []))))))))) in
  let body := message ++ arguments in
  if 0x7FFFFFFF <? Z.of_nat (length body) then []
  else
    let marker := Z.lor 0x80000000 (u32 (Z.of_nat (length body))) in
    be32 marker ++ body.

(** [None] is [false]. *)
Definition parse_rpc_reply (message : list Z) (expected_xid : Z) : option (list Z) :=
  let '(xid, reader) := reader_u32 (reader_of message) in
  xid ← xid;
  let '(message_type, reader) := reader_u32 reader in
  message_type ← message_type;
  let '(reply_status, reader) := reader_u32 reader in
  reply_status ← reply_status;
  if negb (xid =? expected_xid) || negb (message_type =? 1) || negb (reply_status =? 0) then None
  else
    let '(verifier_flavor, reader) := reader_u32 reader in
    _ ← verifier_flavor;
    let '(verifier_size, reader) := reader_u32 reader in
    verifier_size ← verifier_size;
    let verifier_padded := padded verifier_size in
    let rest := remaining reader in
    if Z.of_nat (length rest) <? verifier_padded then None
    else
      let rest := drop (Z.to_nat verifier_padded) rest in
      let '(accept_status, accepted) := reader_u32 (reader_of rest) in
      accept_status ← accept_status;
      if negb (accept_status =? 0) then None else Some (remaining accepted).

(** ** Round trip *)

(** The items of a message. *)
Inductive xdr_item :=
| XdrU32 (value : Z)
| XdrBool (value : bool)
| XdrOpaque (value : list Z)
| XdrString (value : str).

Definition write_item (item : xdr_item) (bytes : list Z) : list Z :=
  match item with
  | XdrU32 value => writer_u32 value bytes
  | XdrBool value => writer_boolean value bytes
  | XdrOpaque value => writer_opaque value bytes
  | XdrString value => writer_string value bytes
  end.

Definition write_items (items : list xdr_item) : list Z :=
  foldl (fun bytes item => write_item item bytes) [] items.

(** What the matching read returns. *)
Inductive xdr_value :=
| ReadU32 (value : option Z)
| ReadOpaque (value : option (list Z)).

Definition read_item (maximum : Z) (item : xdr_item) (r : XdrReader) : xdr_value * XdrReader :=
  match item with
  | XdrU32 _ | XdrBool _ => let '(v, r) := reader_u32 r in (ReadU32 v, r)
  | XdrOpaque _ | XdrString _ => let '(v, r) := reader_opaque maximum r in (ReadOpaque v, r)
  end.

Fixpoint read_items (maximum : Z) (items : list xdr_item) (r : XdrReader)
  : list xdr_value * XdrReader :=
  match items with
  | [] => ([], r)
  | item :: rest =>
      let '(v, r) := read_item maximum item r in
      let '(vs, r) := read_items maximum rest r in (v :: vs, r)
  end.

Definition item_value (item : xdr_item) : xdr_value :=
  match item with
  | XdrU32 value => ReadU32 (Some value)
  | XdrBool value => ReadU32 (Some (if value then 1 else 0))
  | XdrOpaque value => ReadOpaque (Some value)
  | XdrString value => ReadOpaque (Some ((fun c => Z.of_N (N_of_ascii c)) <$> value))
  end.

Definition item_ok (maximum : Z) (item : xdr_item) : Prop :=
  match item with
  | XdrU32 value => 0 <= value < 2 ^ 32
  | XdrBool _ => True
  | XdrOpaque value => Z.of_nat (length value) <= maximum /\ Z.of_nat (length value) < 2 ^ 32
  | XdrString value => Z.of_nat (length value) <= maximum /\ Z.of_nat (length value) < 2 ^ 32
  end.

Definition zeros (n : nat) : list Z := replicate n 0.

Lemma land_3 z : Z.land z 3 = z mod 4.
Proof. change 3 with (Z.ones 2). by rewrite Z.land_ones by lia. Qed.

(** The loop appends exactly the missing zeros. *)
Lemma pad_loop_spec fuel bytes :
  let n := Z.of_nat (length bytes) in
  padded n - n <= Z.of_nat fuel ->
  pad_loop fuel bytes = bytes ++ zeros (Z.to_nat (padded n - n)).
Proof.
  revert bytes. induction fuel as [|fuel IH]; intros bytes n Hf; cbn [pad_loop].
  - pose proof (padded_bounds n). replace (padded n - n) with 0 by lia. by rewrite app_nil_r.
  - fold n. rewrite land_3. rewrite padded_arith in *.
    pose proof (Z.div_mod n 4 ltac:(lia)) as Hd. pose proof (Z.mod_pos_bound n 4 ltac:(lia)) as Hm.
    pose proof (Z.div_mod (n + 3) 4 ltac:(lia)) as Hd3. pose proof (Z.mod_pos_bound (n + 3) 4 ltac:(lia)) as Hm3.
    destruct (Z.eqb_spec (n mod 4) 0) as [Hz|Hnz]; cbn [negb].
    + replace ((n + 3) / 4 * 4 - n) with 0 by lia. by rewrite app_nil_r.
    + rewrite IH; rewrite length_app; cbn [length];
        replace (Z.of_nat (length bytes + 1)) with (n + 1) by lia; rewrite padded_arith;
        pose proof (Z.div_mod (n + 1 + 3) 4 ltac:(lia)) as Hd4;
        pose proof (Z.mod_pos_bound (n + 1 + 3) 4 ltac:(lia)) as Hm4; [|lia].
      rewrite <- app_assoc. f_equal.
      replace (Z.to_nat ((n + 3) / 4 * 4 - n)) with (S (Z.to_nat ((n + 1 + 3) / 4 * 4 - (n + 1)))) by lia.
      done.
Qed.

Definition opaque_padding (value : list Z) : list Z :=
  zeros (Z.to_nat (padded (Z.of_nat (length value)) - Z.of_nat (length value))).

Lemma padded_add_4 k n : padded (4 * k + n) = 4 * k + padded n.
Proof.
  rewrite !padded_arith. replace (4 * k + n + 3) with (n + 3 + k * 4) by lia.
  rewrite Z.div_add by lia. lia.
Qed.

(** On an aligned message the padding depends on the value only. *)
Lemma writer_opaque_spec value bytes k :
  Z.of_nat (length bytes) = 4 * k ->
  writer_opaque value bytes = bytes ++ be32 (u32 (Z.of_nat (length value))) ++ value ++ opaque_padding value.
Proof.
  intros Hk. unfold writer_opaque, writer_u32, opaque_padding.
  assert (Z.of_nat (length ((bytes ++ be32 (u32 (Z.of_nat (length value)))) ++ value)) =
    4 * (k + 1) + Z.of_nat (length value)) as Hlen.
  { rewrite !length_app. change (length (be32 _)) with 4%nat. lia. }
  rewrite pad_loop_spec; rewrite Hlen, padded_add_4;
    pose proof (padded_bounds (Z.of_nat (length value))).
  - rewrite <- !app_assoc. do 5 f_equal. lia.
  - unfold pad_fuel. lia.
Qed.

Definition item_bytes (item : xdr_item) : list Z :=
  match item with
  | XdrU32 value => be32 value
  | XdrBool value => be32 (if value then 1 else 0)
  | XdrOpaque value => be32 (u32 (Z.of_nat (length value))) ++ value ++ opaque_padding value
  | XdrString value =>
      let value := (fun c => Z.of_N (N_of_ascii c)) <$> value in
      be32 (u32 (Z.of_nat (length value))) ++ value ++ opaque_padding value
  end.

Lemma opaque_aligned value :
  exists k, Z.of_nat (length (be32 (u32 (Z.of_nat (length value))) ++ value ++ opaque_padding value)) = 4 * k.
Proof.
  exists (1 + (Z.of_nat (length value) + 3) / 4). rewrite !length_app. unfold opaque_padding, zeros.
  rewrite length_replicate. pose proof (padded_bounds (Z.of_nat (length value))).
  change (length (be32 _)) with 4%nat. rewrite padded_arith in *. lia.
Qed.

Lemma item_aligned item : exists k, Z.of_nat (length (item_bytes item)) = 4 * k.
Proof. destruct item; try (by exists 1); apply opaque_aligned. Qed.

Lemma write_item_spec item bytes k :
  Z.of_nat (length bytes) = 4 * k -> write_item item bytes = bytes ++ item_bytes item.
Proof.
  intros Hk. destruct item; try done; cbn [write_item item_bytes].
  - by apply (writer_opaque_spec _ _ k).
  - by apply (writer_opaque_spec _ _ k).
Qed.

Lemma write_items_spec items : write_items items = concat (item_bytes <$> items).
Proof.
  unfold write_items. assert (exists k, Z.of_nat (length ([] : list Z)) = 4 * k) as Hk by (by exists 0).
  change (concat (item_bytes <$> items)) with ([] ++ concat (item_bytes <$> items)).
  revert Hk. generalize ([] : list Z). induction items as [|item items IH]; intros bytes [k Hk]; cbn.
  - by rewrite app_nil_r.
  - rewrite (write_item_spec _ _ k Hk). rewrite IH; [by rewrite <- app_assoc|].
    destruct (item_aligned item) as [k' Hk']. exists (k + k'). rewrite length_app. lia.
Qed.

Lemma reader_u32_at pre value post :
  0 <= value < 2 ^ 32 ->
  reader_u32 (mkReader (pre ++ be32 value ++ post) (length pre)) =
    (Some value, mkReader (pre ++ be32 value ++ post) (length (pre ++ be32 value))).
Proof.
  intros Hv. unfold reader_u32. cbn [xr_bytes xr_offset]. rewrite read_be32_app by done.
  rewrite !length_app. change (length (be32 value)) with 4%nat.
  by rewrite (proj2 (Nat.ltb_ge _ _)) by lia.
Qed.

Lemma reader_opaque_at maximum pre value post :
  Z.of_nat (length value) <= maximum -> Z.of_nat (length value) < 2 ^ 32 ->
  let bytes := be32 (u32 (Z.of_nat (length value))) ++ value ++ opaque_padding value in
  reader_opaque maximum (mkReader (pre ++ bytes ++ post) (length pre)) =
    (Some value, mkReader (pre ++ bytes ++ post) (length (pre ++ bytes))).
Proof.
  intros Hmax Hlen bytes. unfold reader_opaque, bytes.
  assert (u32 (Z.of_nat (length value)) = Z.of_nat (length value)) as -> by (apply Z.mod_small; lia).
  rewrite <- !app_assoc. rewrite reader_u32_at by lia.
  rewrite (proj2 (Z.ltb_ge _ _)) by lia. cbn [xr_bytes xr_offset].
  pose proof (padded_bounds (Z.of_nat (length value))) as Hp.
  assert (length (opaque_padding value) =
    Z.to_nat (padded (Z.of_nat (length value)) - Z.of_nat (length value))) as Hpad
    by (unfold opaque_padding, zeros; apply length_replicate).
  rewrite (proj2 (Z.ltb_ge _ _)).
  2:{ rewrite !length_app, Hpad. change (length (be32 _)) with 4%nat. lia. }
  rewrite (app_assoc pre (be32 _)), drop_app_length, Nat2Z.id, take_app_length.
  do 2 f_equal. rewrite !length_app, Hpad. change (length (be32 _)) with 4%nat. lia.
Qed.

Lemma read_item_at maximum item pre post :
  item_ok maximum item ->
  read_item maximum item (mkReader (pre ++ item_bytes item ++ post) (length pre)) =
    (item_value item, mkReader (pre ++ item_bytes item ++ post) (length (pre ++ item_bytes item))).
Proof.
  destruct item as [value|value|value|value]; cbn [item_ok read_item item_bytes item_value].
  - intros Hv. by rewrite reader_u32_at.
  - intros _. by rewrite reader_u32_at by (destruct value; lia).
  - intros [Hm Hl]. by rewrite reader_opaque_at.
  - intros [Hm Hl]. by rewrite reader_opaque_at by (by rewrite length_fmap).
Qed.

Lemma read_items_at maximum items : forall pre post,
  Forall (item_ok maximum) items ->
  let bytes := concat (item_bytes <$> items) in
  read_items maximum items (mkReader (pre ++ bytes ++ post) (length pre)) =
    (item_value <$> items, mkReader (pre ++ bytes ++ post) (length (pre ++ bytes))).
Proof.
  induction items as [|item items IH]; intros pre post Hok; cbn.
  - by rewrite app_nil_r.
  - apply Forall_cons in Hok as [Hi Hok].
    rewrite <- !app_assoc. rewrite read_item_at by done.
    specialize (IH (pre ++ item_bytes item) post Hok). cbn in IH. rewrite <- !app_assoc in IH.
    rewrite IH. done.
Qed.

(** XDR data written item by item is read back item by item: each value
    comes out as it went in, whatever the padding, and what follows the message
    is left unread. *)
Theorem xdr_round_trip maximum items rest :
  Forall (item_ok maximum) items ->
  exists r, read_items maximum items (reader_of (write_items items ++ rest)) =
      (item_value <$> items, r) /\ remaining r = rest.
Proof.
  intros Hok. rewrite write_items_spec. eexists. split.
  - apply (read_items_at maximum items [] rest Hok).
  - unfold remaining. cbn [xr_offset xr_bytes app]. by rewrite drop_app_length.
Qed.

(** ** Replies *)

(** What reading a number off a message means. *)
Lemma reader_u32_spec bytes n :
  are_bytes bytes -> (n <= length bytes)%nat ->
  match reader_u32 (mkReader bytes n) with
  | (Some value, r) => 0 <= value < 2 ^ 32 /\ drop n bytes = be32 value ++ drop (n + 4) bytes /\
      r = mkReader bytes (n + 4) /\ (n + 4 <= length bytes)%nat
  | (None, r) => (length bytes - n < 4)%nat
  end.
Proof.
  intros Hb Hn. unfold reader_u32. cbn [xr_bytes xr_offset].
  destruct (Nat.ltb_spec (length bytes - n) 4) as [|Hge]; [done|].
  rewrite read_be32_drop. destruct (read_be32 (drop n bytes) 0) as [value|] eqn:Hr.
  - destruct (read_be32_Some _ _ (Forall_drop _ _ _ Hb) Hr) as [Hv Heq].
    rewrite drop_drop in Heq. split; [done|]. split; [done|]. split; [done|]. lia.
  - apply read_be32_None in Hr. rewrite length_drop in Hr. lia.
Qed.

(** An accepted reply of the call [xid]. *)
Definition accepted_reply (xid : Z) (message result : list Z) : Prop :=
  exists flavor verifier_size verifier,
    0 <= flavor < 2 ^ 32 /\ 0 <= verifier_size < 2 ^ 32 /\
    Z.of_nat (length verifier) = padded verifier_size /\
    message = be32 xid ++ be32 1 ++ be32 0 ++ be32 flavor ++ be32 verifier_size ++ verifier ++
              be32 0 ++ result.

Lemma accepted_parses xid message result :
  0 <= xid < 2 ^ 32 -> accepted_reply xid message result -> parse_rpc_reply message xid = Some result.
Proof.
  intros Hx (flavor & size & verifier & Hf & Hs & Hv & ->). unfold parse_rpc_reply, reader_of.
  set (rest := verifier ++ be32 0 ++ result).
  pose proof (reader_u32_at [] xid (be32 1 ++ be32 0 ++ be32 flavor ++ be32 size ++ rest) Hx) as H0.
  cbn [app length] in H0. rewrite H0. clear H0.
  cbn [mbind option_bind app].
  pose proof (reader_u32_at (be32 xid) 1 (be32 0 ++ be32 flavor ++ be32 size ++ rest) ltac:(lia)) as H1.
  rewrite H1. clear H1. cbn [mbind option_bind].
  pose proof (reader_u32_at (be32 xid ++ be32 1) 0 (be32 flavor ++ be32 size ++ rest) ltac:(lia)) as H2.
  rewrite <- !app_assoc in H2. rewrite H2. clear H2. cbn [mbind option_bind].
  rewrite !Z.eqb_refl. cbn [negb orb].
  pose proof (reader_u32_at (be32 xid ++ be32 1 ++ be32 0) flavor (be32 size ++ rest) Hf) as H3.
  rewrite <- !app_assoc in H3. rewrite H3. clear H3. cbn [mbind option_bind].
  pose proof (reader_u32_at (be32 xid ++ be32 1 ++ be32 0 ++ be32 flavor) size rest Hs) as H4.
  rewrite <- !app_assoc in H4. rewrite H4. clear H4. cbn [mbind option_bind].
  unfold remaining. cbn [xr_bytes xr_offset].
  assert (drop (length (be32 xid ++ be32 1 ++ be32 0 ++ be32 flavor ++ be32 size))
    (be32 xid ++ be32 1 ++ be32 0 ++ be32 flavor ++ be32 size ++ rest) = rest) as Hrest by done.
  rewrite Hrest. unfold rest. pose proof (padded_bounds size) as Hb.
  rewrite (proj2 (Z.ltb_ge _ _)) by (rewrite !length_app; lia).
  rewrite <- Hv, Nat2Z.id, drop_app_length.
  pose proof (reader_u32_at [] 0 result ltac:(lia)) as H5. cbn [app length] in H5. rewrite H5.
  cbn [mbind option_bind xr_bytes xr_offset app].
  reflexivity.
Qed.

Lemma parsed_accepted xid message result :
  are_bytes message -> parse_rpc_reply message xid = Some result -> accepted_reply xid message result.
Proof.
  intros Hb Hp. unfold parse_rpc_reply, reader_of in Hp.
  pose proof (reader_u32_spec message 0 Hb ltac:(lia)) as S1.
  destruct (reader_u32 (mkReader message 0)) as [[x|] r1]; [|done].
  destruct S1 as (Hx & E1 & -> & L1). cbn [mbind option_bind] in Hp.
  pose proof (reader_u32_spec message 4 Hb L1) as S2. cbn [Nat.add] in *.
  destruct (reader_u32 (mkReader message 4)) as [[ty|] r2]; [|done].
  destruct S2 as (Hty & E2 & -> & L2). cbn [mbind option_bind Nat.add] in *.
  pose proof (reader_u32_spec message 8 Hb L2) as S3.
  destruct (reader_u32 (mkReader message 8)) as [[st|] r3]; [|done].
  destruct S3 as (Hst & E3 & -> & L3). cbn [mbind option_bind Nat.add] in *.
  destruct (Z.eqb_spec x xid) as [->|]; [|done]. destruct (Z.eqb_spec ty 1) as [->|]; [|done].
  destruct (Z.eqb_spec st 0) as [Hz|]; [|done]. subst st. cbn [negb orb] in Hp.
  pose proof (reader_u32_spec message 12 Hb L3) as S4.
  destruct (reader_u32 (mkReader message 12)) as [[flavor|] r4]; [|done].
  destruct S4 as (Hf & E4 & -> & L4). cbn [mbind option_bind Nat.add] in *.
  pose proof (reader_u32_spec message 16 Hb L4) as S5.
  destruct (reader_u32 (mkReader message 16)) as [[size|] r5]; [|done].
  destruct S5 as (Hs & E5 & -> & L5). cbn [mbind option_bind Nat.add] in *.
  unfold remaining in Hp. cbn [xr_bytes xr_offset] in Hp.
  destruct (Z.ltb_spec (Z.of_nat (length (drop 20 message))) (padded size)) as [|Hlen]; [done|].
  pose proof (padded_bounds size) as Hpb.
  set (rest := drop 20 message) in *.
  assert (are_bytes (drop (Z.to_nat (padded size)) rest)) as Hb' by (by apply Forall_drop, Forall_drop).
  pose proof (reader_u32_spec _ 0 Hb' ltac:(lia)) as S6.
  destruct (reader_u32 (mkReader (drop (Z.to_nat (padded size)) rest) 0)) as [[acc|] r6]; [|done].
  destruct S6 as (Hacc & E6 & -> & L6). cbn [mbind option_bind xr_bytes xr_offset Nat.add] in *.
  destruct (Z.eqb_spec acc 0) as [Hz|]; [|done]. subst acc. cbn [negb] in Hp. injection Hp as <-.
  exists flavor, size, (take (Z.to_nat (padded size)) rest).
  split; [done|]. split; [done|]. split.
  { rewrite length_take. lia. }
  rewrite drop_0 in E1, E6. rewrite <- E6, take_drop.
  rewrite <- E5, <- E4, <- E3, <- E2. done.
Qed.

Lemma parsed_bytes xid message result :
  are_bytes message -> parse_rpc_reply message xid = Some result -> are_bytes result.
Proof.
  intros Hb Hp. apply parsed_accepted in Hp as (flavor & size & verifier & _ & _ & _ & Hm); [|done].
  rewrite Hm in Hb. unfold are_bytes in *. rewrite !Forall_app in Hb. tauto.
Qed.

(** A call is its record mark, its header and its arguments. *)
Lemma make_rpc_call_layout xid program version procedure arguments :
  make_rpc_call xid program version procedure arguments =
    (if 0x7FFFFFFF <? Z.of_nat (40 + length arguments) then []
     else be32 (2 ^ 31 + Z.of_nat (40 + length arguments)) ++
          be32 xid ++ be32 0 ++ be32 2 ++ be32 program ++ be32 version ++ be32 procedure ++
          be32 0 ++ be32 0 ++ be32 0 ++ be32 0 ++ arguments).
Proof.
  unfold make_rpc_call. set (body := writer_u32 0 _ ++ arguments).
  assert (length body = (40 + length arguments)%nat) as -> by (unfold body; by rewrite length_app).
  destruct (Z.ltb_spec 0x7FFFFFFF (Z.of_nat (40 + length arguments))) as [|Hle]; [done|].
  f_equal. f_equal. unfold u32. rewrite Z.mod_small by lia.
  change 0x80000000 with (Z.shiftl 1 31). rewrite lor_shiftl_add by lia. lia.
Qed.

(** RPC framing: a call is its record mark, its header and its arguments
    (or empty when the mark cannot hold the length), and a reply is accepted
    exactly when it is an accepted reply to the call, whatever its verifier; the
    result is what follows the accept status. *)
Theorem rpc_framing xid program version procedure arguments message result :
  0 <= xid < 2 ^ 32 -> are_bytes message ->
  make_rpc_call xid program version procedure arguments =
    (if 0x7FFFFFFF <? Z.of_nat (40 + length arguments) then []
     else be32 (2 ^ 31 + Z.of_nat (40 + length arguments)) ++
          be32 xid ++ be32 0 ++ be32 2 ++ be32 program ++ be32 version ++ be32 procedure ++
          be32 0 ++ be32 0 ++ be32 0 ++ be32 0 ++ arguments) /\
  (parse_rpc_reply message xid = Some result <-> accepted_reply xid message result).
Proof.
  intros Hx Hb. split; [apply make_rpc_call_layout|].
  split; [by apply parsed_accepted|by apply accepted_parses].
Qed.

(** ** Witnesses *)

Lemma xdr_round_trip_witness :
  exists r, read_items 16 [XdrU32 7; XdrString (lit "inst0"); XdrBool true; XdrOpaque [1; 2]]
      (reader_of (write_items [XdrU32 7; XdrString (lit "inst0"); XdrBool true; XdrOpaque [1; 2]] ++ [9])) =
    ([ReadU32 (Some 7); ReadOpaque (Some [105; 110; 115; 116; 48]); ReadU32 (Some 1);
      ReadOpaque (Some [1; 2])], r) /\ remaining r = [9].
Proof.
  apply (xdr_round_trip 16 [XdrU32 7; XdrString (lit "inst0"); XdrBool true; XdrOpaque [1; 2]] [9]).
  repeat constructor; simpl; lia.
Defined.

Lemma rpc_framing_witness :
  parse_rpc_reply ([0; 0; 0; 5] ++ [0; 0; 0; 1] ++ [0; 0; 0; 0] ++ [0; 0; 0; 0] ++ [0; 0; 0; 1] ++
    [42; 0; 0; 0] ++ [0; 0; 0; 0] ++ [7; 8]) 5 = Some [7; 8].
Proof.
  apply (rpc_framing 5 0 0 0 []); [lia|repeat constructor; unfold is_byte; lia|].
  exists 0, 1, [42; 0; 0; 0]. split; [lia|]. split; [lia|]. split; reflexivity.
Defined.
