(* ===== verification/UsbtmcProtocol.v ===== *)
(** * USBTMC messages: [backends/usb/usbtmc_protocol.{h,cpp}]

    The encoders and decoders of the bulk messages and of the answers to control
    requests.  The outer [option] of a decoder is [None] where the code would
    index a span beyond its end; a decoder that returns [false] gives back its
    output parameters as it leaves them. *)

From S2P Require Import Prelude Bytes.

(** ** Constants and structures *)

Definition kHeaderSize : Z := 12.
Definition kMaximumPayload : Z := 64 * 1024 * 1024.
Definition kDevDepMsgOut : Z := 1.
Definition kRequestDevDepMsgIn : Z := 2.
Definition kDevDepMsgIn : Z := 2.
Definition kUsb488Trigger : Z := 128.

Definition kStatusSuccess : Z := 0x01.
Definition kStatusPending : Z := 0x02.
Definition kStatusInterruptInBusy : Z := 0x20.
Definition kStatusFailed : Z := 0x80.
Definition kStatusTransferNotInProgress : Z := 0x81.

Record Capabilities := mkCapabilities {
  cap_status : Z;
  cap_termchar : bool;
  cap_usb488 : bool;
  cap_usb488_trigger : bool;
  cap_usb488_service_request : bool }.

Record SplitStatus := mkSplitStatus {
  ss_status : Z;
  ss_bulk_in_fifo_bytes : bool;
  ss_transferred : Z }.

Record DevDepMessage := mkDevDepMessage {
  dd_tag : Z;
  dd_end_of_message : bool;
  dd_payload : list Z }.

(** The output parameters of [decode_request_dev_dep_msg_in]. *)
Record RequestMessage := mkRequestMessage {
  rm_tag : Z;
  rm_transfer_size : Z;
  rm_termchar_enabled : bool;
  rm_termchar : Z }.

(** ** Headers *)

Definition padding_for (payload_size : Z) : Z := (4 - payload_size mod 4) mod 4.

(** [static_cast<std::uint8_t>(~tag)] *)
Definition complement (tag : Z) : Z := u8 (Z.lnot tag).

Definition valid_common_header (bytes : list Z) (message_id expected_tag : Z) : option bool :=
  Some (kHeaderSize <=? Z.of_nat (length bytes)) <&&>
  byte_is (fun b => b =? message_id) bytes 0 <&&>
  byte_is (fun b => negb (b =? 0)) bytes 1 <&&>
  byte_is (fun b => b =? expected_tag) bytes 1 <&&>
  (b1 ← bytes !! 1%nat; byte_is (fun b => b =? complement b1) bytes 2) <&&>
  byte_is (fun b => b =? 0) bytes 3.

Definition header (message_id tag size attributes termchar : Z) : list Z :=
  [message_id; tag; complement tag; 0] ++ le32 size ++ [attributes; termchar; 0; 0].

(** ** Encoders *)

Definition encode_message (message_id tag : Z) (payload : list Z) (attributes termchar : Z)
  : option (list Z) :=
  let size := Z.of_nat (length payload) in
  if (tag =? 0) || (kMaximumPayload <? size) || (2 ^ 32 - 1 <? size) then None
  else Some (header message_id tag (u32 size) attributes termchar ++ payload ++
             replicate (Z.to_nat (padding_for size)) 0).

Definition encode_dev_dep_msg_out (tag : Z) (payload : list Z) (end_of_message : bool)
  : option (list Z) :=
  encode_message kDevDepMsgOut tag payload (if end_of_message then 1 else 0) 0.

Definition encode_request_dev_dep_msg_in (tag transfer_size : Z) (termchar_enabled : bool)
    (termchar : Z) : option (list Z) :=
  if (tag =? 0) || (transfer_size =? 0) || (kMaximumPayload <? transfer_size) then None
  else Some (header kRequestDevDepMsgIn tag transfer_size
               (if termchar_enabled then 2 else 0) termchar).

Definition encode_dev_dep_msg_in (tag : Z) (payload : list Z) (end_of_message : bool)
  : option (list Z) :=
  encode_message kDevDepMsgIn tag payload (if end_of_message then 1 else 0) 0.

Definition encode_usb488_trigger (tag : Z) : option (list Z) :=
  if tag =? 0 then None
  else Some [kUsb488Trigger; tag; complement tag; 0; 0; 0; 0; 0; 0; 0; 0; 0].

(** ** Decoders of bulk messages *)

Definition decode_message (bytes : list Z) (message_id expected_tag maximum_payload
    maximum_alignment : Z) (fixed_alignment : bool) : option (option DevDepMessage) :=
  valid ← valid_common_header bytes message_id expected_tag <&&>
    byte_is (fun b => Z.land b 0xfe =? 0) bytes 8 <&&> zero_bytes bytes 9 3;
  if negb valid then Some None
  else
    payload_size ← read_le32 bytes 4;
    if (maximum_payload <? payload_size) || (kMaximumPayload <? payload_size) then Some None
    else
      let content_size := kHeaderSize + payload_size in
      let size := Z.of_nat (length bytes) in
      if size <? content_size then Some None
      else
        let alignment_size := size - content_size in
        if (fixed_alignment && negb (alignment_size =? padding_for payload_size))
           || (negb fixed_alignment && (maximum_alignment <? alignment_size))
        then Some None
        else
          tag ← bytes !! 1%nat;
          attributes ← bytes !! 8%nat;
          Some (Some (mkDevDepMessage tag (negb (Z.land attributes 1 =? 0))
                        (take (Z.to_nat payload_size) (drop (Z.to_nat kHeaderSize) bytes)))).

Definition decode_dev_dep_msg_out (bytes : list Z) (maximum_payload : Z)
  : option (option DevDepMessage) :=
  if Z.of_nat (length bytes) <? kHeaderSize then Some None
  else
    b1 ← bytes !! 1%nat;
    decode_message bytes kDevDepMsgOut b1 maximum_payload 3 true.

Definition decode_request_dev_dep_msg_in (bytes : list Z) (out : RequestMessage)
  : option (bool * RequestMessage) :=
  refused ← Some (negb (Z.of_nat (length bytes) =? kHeaderSize)) <||>
    (b1 ← bytes !! 1%nat; negb <$> valid_common_header bytes kRequestDevDepMsgIn b1) <||>
    byte_is (fun b => negb (Z.land b 0xfd =? 0)) bytes 8 <||>
    byte_is (fun b => negb (b =? 0)) bytes 10 <||>
    byte_is (fun b => negb (b =? 0)) bytes 11;
  if (refused : bool) then Some (false, out)
  else
    transfer_size ← read_le32 bytes 4;
    if (transfer_size =? 0) || (kMaximumPayload <? transfer_size)
    then Some (false, mkRequestMessage (rm_tag out) transfer_size (rm_termchar_enabled out)
                        (rm_termchar out))
    else
      tag ← bytes !! 1%nat;
      attributes ← bytes !! 8%nat;
      termchar ← bytes !! 9%nat;
      Some (true, mkRequestMessage tag transfer_size (negb (Z.land attributes 2 =? 0)) termchar).

Definition decode_dev_dep_msg_in (bytes : list Z) (expected_tag maximum_payload
    maximum_alignment : Z) : option (option DevDepMessage) :=
  decode_message bytes kDevDepMsgIn expected_tag maximum_payload maximum_alignment false.

Definition decode_usb488_trigger (bytes : list Z) : option (option Z) :=
  refused ← Some (negb (Z.of_nat (length bytes) =? kHeaderSize)) <||>
    (b1 ← bytes !! 1%nat; negb <$> valid_common_header bytes kUsb488Trigger b1);
  if (refused : bool) then Some None
  else
    zero ← zero_bytes bytes 4 (length bytes - 4);
    if negb zero then Some None else tag ← bytes !! 1%nat; Some (Some tag).

(** ** Decoders of control answers *)

Definition read_u16_le (bytes : list Z) (offset : nat) : option Z :=
  b0 ← bytes !! offset;
  b1 ← bytes !! (offset + 1)%nat;
  Some (Z.lor b0 (Z.shiftl b1 8)).

Definition capabilities_of_status (status : Z) : Capabilities :=
  mkCapabilities status false false false false.

(** The part of [decode_capabilities] after [if (!expect_usb488)]. *)
Definition decode_usb488_capabilities (bytes : list Z) (out : Capabilities)
  : option (bool * Capabilities) :=
  usb488_version ← read_u16_le bytes 12;
  refused ← Some (usb488_version <? 0x0100) <||>
    byte_is (fun b => negb (Z.land b 0xf8 =? 0)) bytes 14 <||>
    byte_is (fun b => negb (Z.land b 0xf0 =? 0)) bytes 15;
  if (refused : bool) then Some (false, out)
  else
    zero ← zero_bytes bytes 16 8;
    if negb zero then Some (false, out)
    else
      b14 ← bytes !! 14%nat;
      b15 ← bytes !! 15%nat;
      let trigger := negb (Z.land b14 1 =? 0) in
      let remote_local := negb (Z.land b14 2 =? 0) in
      let ieee488_2 := negb (Z.land b14 4 =? 0) in
      let device_trigger := negb (Z.land b15 1 =? 0) in
      let device_remote_local := negb (Z.land b15 2 =? 0) in
      let service_request := negb (Z.land b15 4 =? 0) in
      let scpi := negb (Z.land b15 8 =? 0) in
      if (device_trigger && negb trigger) || (device_remote_local && negb remote_local)
         || (ieee488_2 && negb service_request)
         || (scpi && (negb service_request || negb ieee488_2))
      then Some (false, out)
      else Some (true, mkCapabilities (cap_status out) (cap_termchar out) true (trigger && device_trigger)
                         service_request).

Definition decode_capabilities (bytes : list Z) (expect_usb488 : bool) (out : Capabilities)
  : option (bool * Capabilities) :=
  if negb (Z.of_nat (length bytes) =? 24) then Some (false, out)
  else
    b0 ← bytes !! 0%nat;
    let out := capabilities_of_status b0 in
    if negb (b0 =? kStatusSuccess) then Some (true, out)
    else
      usbtmc_version ← read_u16_le bytes 2;
      refused ← byte_is (fun b => negb (b =? 0)) bytes 1 <||>
        Some (usbtmc_version <? 0x0100) <||>
        byte_is (fun b => negb (Z.land b 0xf8 =? 0)) bytes 4 <||>
        byte_is (fun b => negb (Z.land b 0xfe =? 0)) bytes 5;
      if (refused : bool) then Some (false, out)
      else
        zero ← zero_bytes bytes 6 6;
        if negb zero then Some (false, out)
        else
          b5 ← bytes !! 5%nat;
          let termchar := negb (Z.land b5 1 =? 0) in
          let out := mkCapabilities b0 termchar false false false in
          if negb expect_usb488 then
            zero ← zero_bytes bytes 12 12;
            Some (zero, out)
          else
            decode_usb488_capabilities bytes out.

Definition decode_initiate_abort (bytes : list Z) (expected_tag status : Z) : option (bool * Z) :=
  if negb (Z.of_nat (length bytes) =? 2) then Some (false, status)
  else
    b0 ← bytes !! 0%nat;
    accepted ← Some (negb (b0 =? kStatusSuccess)) <||>
      byte_is (fun b => b =? expected_tag) bytes 1;
    Some (accepted, b0).

Definition split_of_status (status : Z) : SplitStatus := mkSplitStatus status false 0.

Definition decode_check_abort_bulk_out (bytes : list Z) (out : SplitStatus)
  : option (bool * SplitStatus) :=
  if negb (Z.of_nat (length bytes) =? 8) then Some (false, out)
  else
    b0 ← bytes !! 0%nat;
    if (b0 =? kStatusSuccess) || (b0 =? kStatusPending) then
      zero ← zero_bytes bytes 1 3;
      if negb zero then Some (false, split_of_status b0)
      else transferred ← read_le32 bytes 4; Some (true, mkSplitStatus b0 false transferred)
    else Some (true, split_of_status b0).

Definition decode_check_abort_bulk_in (bytes : list Z) (out : SplitStatus)
  : option (bool * SplitStatus) :=
  if negb (Z.of_nat (length bytes) =? 8) then Some (false, out)
  else
    b0 ← bytes !! 0%nat;
    if (b0 =? kStatusSuccess) || (b0 =? kStatusPending) then
      refused ← byte_is (fun b => negb (Z.land b 0xfe =? 0)) bytes 1 <||>
        byte_is (fun b => negb (b =? 0)) bytes 2 <||> byte_is (fun b => negb (b =? 0)) bytes 3;
      if (refused : bool) then Some (false, split_of_status b0)
      else
        b1 ← bytes !! 1%nat;
        transferred ← read_le32 bytes 4;
        let fifo := negb (Z.land b1 1 =? 0) in
        Some (negb (((b0 =? kStatusSuccess) && fifo)
                    || ((b0 =? kStatusPending) && negb (transferred =? 0))),
              mkSplitStatus b0 fifo transferred)
    else Some (true, split_of_status b0).

Definition decode_initiate_clear (bytes : list Z) (status : Z) : option (bool * Z) :=
  if negb (Z.of_nat (length bytes) =? 1) then Some (false, status)
  else b0 ← bytes !! 0%nat; Some (true, b0).

Definition decode_check_clear (bytes : list Z) (out : SplitStatus)
  : option (bool * SplitStatus) :=
  if negb (Z.of_nat (length bytes) =? 2) then Some (false, out)
  else
    b0 ← bytes !! 0%nat;
    if (b0 =? kStatusSuccess) || (b0 =? kStatusPending) then
      b1 ← bytes !! 1%nat;
      if negb (Z.land b1 0xfe =? 0) then Some (false, split_of_status b0)
      else
        let fifo := negb (Z.land b1 1 =? 0) in
        Some (negb ((b0 =? kStatusSuccess) && fifo), mkSplitStatus b0 fifo 0)
    else Some (true, split_of_status b0).

(** The pair of output parameters is [status] and [status_byte]. *)
Definition decode_read_status_byte (bytes : list Z) (expected_tag : Z)
    (interrupt_endpoint : bool) (out : Z * Z) : option (bool * (Z * Z)) :=
  if negb (Z.of_nat (length bytes) =? 3) then Some (false, out)
  else
    b0 ← bytes !! 0%nat;
    if negb (b0 =? kStatusSuccess) then Some (true, (b0, 0))
    else
      refused ← byte_is (fun b => negb (b =? expected_tag)) bytes 1 <||>
        (Some interrupt_endpoint <&&> byte_is (fun b => negb (b =? 0)) bytes 2);
      if (refused : bool) then Some (false, (b0, 0))
      else if interrupt_endpoint then Some (true, (b0, 0))
      else b2 ← bytes !! 2%nat; Some (true, (b0, b2)).

(** The pair of output parameters is [tag] and [status_byte]. *)
Definition decode_interrupt_status_byte (bytes : list Z) (out : Z * Z)
  : option (bool * (Z * Z)) :=
  refused ← Some (negb (Z.of_nat (length bytes) =? 2)) <||>
    byte_is (fun b => Z.land b 0x80 =? 0) bytes 0;
  if (refused : bool) then Some (false, out)
  else
    b0 ← bytes !! 0%nat;
    let tag := Z.land b0 0x7f in
    if tag =? 0 then Some (false, (tag, out.2))
    else b1 ← bytes !! 1%nat; Some (true, (tag, b1)).

(** ** Headers, opened *)

Lemma valid_common_header_cons b0 b1 b2 b3 rest message_id tag :
  (8 <= length rest)%nat ->
  valid_common_header (b0 :: b1 :: b2 :: b3 :: rest) message_id tag =
    Some ((b0 =? message_id) && negb (b1 =? 0) && (b1 =? tag) && (b2 =? complement b1) && (b3 =? 0)).
Proof.
  intros Hl. unfold valid_common_header, kHeaderSize. cbn [length].
  rewrite (proj2 (Z.leb_le _ _)) by lia. unfold byte_is. cbn.
  by destruct (b0 =? message_id), (b1 =? 0), (b1 =? tag), (b2 =? complement b1), (b3 =? 0).
Qed.

Lemma valid_common_header_short bytes message_id tag :
  (length bytes < 12)%nat -> valid_common_header bytes message_id tag = Some false.
Proof.
  intros Hl. unfold valid_common_header, kHeaderSize. by rewrite (proj2 (Z.leb_gt _ _)) by lia.
Qed.

Lemma header_cons message_id tag size attributes termchar :
  header message_id tag size attributes termchar =
    message_id :: tag :: complement tag :: 0 :: le32 size ++ [attributes; termchar; 0; 0].
Proof. done. Qed.

Lemma header_length message_id tag size attributes termchar :
  length (header message_id tag size attributes termchar) = 12%nat.
Proof. done. Qed.

(** What [decode_message] does on an input long enough for a header. *)
Lemma decode_message_cons b0 b1 b2 b3 b4 b5 b6 b7 b8 b9 b10 b11 rest id tag max align fixed :
  let size := from_be32 b7 b6 b5 b4 in
  let extra := Z.of_nat (length rest) - size in
  decode_message (b0 :: b1 :: b2 :: b3 :: b4 :: b5 :: b6 :: b7 :: b8 :: b9 :: b10 :: b11 :: rest)
    id tag max align fixed =
  Some (if ((b0 =? id) && negb (b1 =? 0) && (b1 =? tag) && (b2 =? complement b1) && (b3 =? 0)
            && (Z.land b8 0xfe =? 0) && (b9 =? 0) && (b10 =? 0) && (b11 =? 0))
           && (size <=? max) && (size <=? kMaximumPayload) && (0 <=? extra)
           && (if fixed then extra =? padding_for size else extra <=? align)
        then Some (mkDevDepMessage b1 (negb (Z.land b8 1 =? 0)) (take (Z.to_nat size) rest))
        else None).
Proof.
  intros size extra. unfold decode_message.
  rewrite valid_common_header_cons by (cbn [length]; lia).
  assert (forall c : bool, Some c <&&> byte_is (fun b => Z.land b 254 =? 0)
      (b0 :: b1 :: b2 :: b3 :: b4 :: b5 :: b6 :: b7 :: b8 :: b9 :: b10 :: b11 :: rest) 8 <&&>
      zero_bytes (b0 :: b1 :: b2 :: b3 :: b4 :: b5 :: b6 :: b7 :: b8 :: b9 :: b10 :: b11 :: rest) 9 3 =
      Some (c && (Z.land b8 254 =? 0) && (b9 =? 0) && (b10 =? 0) && (b11 =? 0))) as Hh.
  { intros c. unfold byte_is, zero_bytes, byte_is. cbn.
    by destruct c, (Z.land b8 254 =? 0), (b9 =? 0), (b10 =? 0), (b11 =? 0). }
  rewrite Hh. clear Hh. set (h := _ && (b11 =? 0)). cbn [mbind option_bind].
  destruct h; [|done]. cbn [negb].
  pose proof (read_le32_at [b0; b1; b2; b3] b4 b5 b6 b7 (b8 :: b9 :: b10 :: b11 :: rest)) as Hr.
  cbn [app length] in Hr. rewrite Hr. clear Hr. cbn [mbind option_bind]. fold size.
  rewrite !(Z.ltb_antisym size), ?(Z.ltb_antisym _ max), ?(Z.ltb_antisym _ kMaximumPayload).
  destruct (size <=? max); [|done]. destruct (size <=? kMaximumPayload); [|done]. cbn [negb orb andb].
  cbn [length]. unfold kHeaderSize.
  assert (Z.of_nat (S (S (S (S (S (S (S (S (S (S (S (S (length rest))))))))))))) = 12 + Z.of_nat (length rest)) as -> by lia.
  assert ((12 + Z.of_nat (length rest) <? 12 + size) = negb (0 <=? extra)) as ->
    by (unfold extra; destruct (Z.leb_spec 0 (Z.of_nat (length rest) - size)), (Z.ltb_spec (12 + Z.of_nat (length rest)) (12 + size)); lia || done).
  destruct (0 <=? extra); [|done]. cbn [negb andb].
  replace (12 + Z.of_nat (length rest) - (12 + size)) with extra by (unfold extra; lia).
  destruct fixed; cbn [andb orb negb].
  - destruct (extra =? padding_for size); done.
  - rewrite Z.ltb_antisym. destruct (extra <=? align); done.
Qed.

Lemma complement_is_byte tag : is_byte (complement tag).
Proof. apply byte_u8. Qed.

(** The flag byte of an accepted message. *)
Lemma end_flag b : is_byte b -> Z.land b 0xfe = 0 -> b = if negb (Z.land b 1 =? 0) then 1 else 0.
Proof. by apply flag_byte. Qed.

Lemma termchar_flag b : is_byte b -> Z.land b 0xfd = 0 -> b = if negb (Z.land b 2 =? 0) then 2 else 0.
Proof. by apply flag_byte. Qed.

Lemma padding_bounds size : 0 <= padding_for size < 4.
Proof. apply Z.mod_pos_bound. lia. Qed.

(** A message of the bulk endpoints, before its alignment bytes. *)
Definition message_bytes (id : Z) (m : DevDepMessage) : list Z :=
  header id (dd_tag m) (Z.of_nat (length (dd_payload m)))
    (if dd_end_of_message m then 1 else 0) 0 ++ dd_payload m.

Lemma le32_cons value :
  le32 value = [u8 value; u8 (Z.shiftr value 8); u8 (Z.shiftr value 16); u8 (Z.shiftr value 24)].
Proof. unfold le32. by rewrite !u8_land. Qed.

(** The messages [decode_message] accepts, and what it takes them for. *)
Lemma decode_message_spec bytes id tag max align fixed :
  are_bytes bytes ->
  exists r, decode_message bytes id tag max align fixed = Some r /\
    forall m, r = Some m <->
      dd_tag m = tag /\ tag ≠ 0 /\ Z.of_nat (length (dd_payload m)) <= Z.min max kMaximumPayload /\
      exists alignment, bytes = message_bytes id m ++ alignment /\
        if fixed then Z.of_nat (length alignment) = padding_for (Z.of_nat (length (dd_payload m)))
        else Z.of_nat (length alignment) <= align.
Proof.
  intros Hb. destruct (decide (12 <= length bytes)%nat) as [Hl|Hl].
  2:{ exists None. unfold decode_message. rewrite valid_common_header_short by lia. split; [done|].
      intros m. split; [done|]. intros (_ & _ & _ & alignment & -> & _). exfalso. apply Hl.
      unfold message_bytes. rewrite !length_app, header_length. lia. }
  destruct (twelve _ Hl) as (b0&b1&b2&b3&b4&b5&b6&b7&b8&b9&b10&b11&rest&->).
  rewrite decode_message_cons. cbn zeta. eexists. split; [reflexivity|]. intros m.
  unfold are_bytes in Hb. rewrite !Forall_cons in Hb.
  destruct Hb as (H0&H1&H2&H3&H4&H5&H6&H7&H8&H9&H10&H11&Hrest).
  set (size := from_be32 b7 b6 b5 b4).
  pose proof (from_be32_range b7 b6 b5 b4 ltac:(done) ltac:(done) ltac:(done) ltac:(done)) as Hsize.
  fold size in Hsize. split.
  - destruct (_ && _) eqn:Hc; [|done]. intros [= <-].
    rewrite !andb_true_iff, !negb_true_iff, !Z.eqb_eq, !Z.eqb_neq, !Z.leb_le in Hc.
    destruct Hc as [[[[[[[[[[[[Hi Hnz] Ht] Hcm] Hz] Hf] Hz9] Hz10] Hz11] Hm] HM] He] Ha].
    cbn [dd_tag dd_payload]. rewrite length_take.
    replace (Z.of_nat (Z.to_nat size `min` length rest)) with size by lia.
    split; [done|]. split; [congruence|]. split; [lia|].
    exists (drop (Z.to_nat size) rest). split.
    + unfold message_bytes. cbn [dd_tag dd_payload dd_end_of_message]. rewrite length_take.
      replace (Z.of_nat (Z.to_nat size `min` length rest)) with size by lia.
      rewrite <- app_assoc, take_drop. rewrite header_cons. unfold size. rewrite le32_from by done.
      rewrite <- (end_flag b8) by done. cbn [app]. congruence.
    + rewrite length_drop. destruct fixed.
      * apply Z.eqb_eq in Ha. lia.
      * apply Z.leb_le in Ha. lia.
  - intros (Ht & Hnz & Hlen & alignment & Heq & Ha). destruct m as [mt me mp].
    cbn [dd_tag dd_payload dd_end_of_message] in *. subst mt.
    unfold message_bytes in Heq. cbn [dd_tag dd_payload dd_end_of_message] in Heq.
    rewrite header_cons, le32_cons in Heq. cbn [app] in Heq.
    set (n := Z.of_nat (length mp)) in *.
    injection Heq as -> -> -> -> -> -> -> -> -> -> -> -> ->.
    assert (size = n) as Hn.
    { unfold size. apply from_be32_digits. unfold kMaximumPayload in Hlen. lia. }
    rewrite Hn. rewrite !Z.eqb_refl. rewrite (proj2 (Z.eqb_neq _ 0) Hnz).
    rewrite (proj2 (Z.leb_le n max)) by lia. rewrite (proj2 (Z.leb_le n kMaximumPayload)) by lia.
    rewrite length_app.
    rewrite (proj2 (Z.leb_le 0 _)) by (unfold n; lia).
    replace (Z.of_nat (length mp + length alignment) - n) with (Z.of_nat (length alignment)) by (unfold n; lia).
    assert ((if fixed then Z.of_nat (length alignment) =? padding_for n
             else Z.of_nat (length alignment) <=? align) = true) as ->
      by (destruct fixed; [by apply Z.eqb_eq|by apply Z.leb_le]).
    unfold n. rewrite Nat2Z.id, take_app_length. by destruct me.
Qed.

Lemma encode_message_spec id tag payload (eom : bool) bytes :
  encode_message id tag payload (if eom then 1 else 0) 0 = Some bytes <->
    tag ≠ 0 /\ Z.of_nat (length payload) <= kMaximumPayload /\
    bytes = message_bytes id (mkDevDepMessage tag eom payload) ++
            replicate (Z.to_nat (padding_for (Z.of_nat (length payload)))) 0.
Proof.
  unfold encode_message, message_bytes. cbn [dd_tag dd_payload dd_end_of_message].
  set (n := Z.of_nat (length payload)). assert (kMaximumPayload <= 2 ^ 32 - 1) by (unfold kMaximumPayload; lia).
  destruct (Z.eqb_spec tag 0) as [|Ht]; cbn [orb]; [naive_solver|].
  destruct (Z.ltb_spec kMaximumPayload n); cbn [orb]; [split; [done|lia]|].
  rewrite (proj2 (Z.ltb_ge _ _)) by lia. unfold u32. rewrite Z.mod_small by (unfold n in *; lia).
  rewrite <- app_assoc. naive_solver.
Qed.

Lemma message_bytes_ok id tag eom payload n :
  is_byte id -> is_byte tag -> are_bytes payload ->
  are_bytes (message_bytes id (mkDevDepMessage tag eom payload) ++ replicate n 0).
Proof.
  intros Hi Ht Hp. assert (is_byte 0) by (unfold is_byte; lia).
  repeat apply Forall_app_2; try done; try apply are_bytes_le32.
  - rewrite !Forall_cons. auto using complement_is_byte, Forall_nil_2.
  - rewrite !Forall_cons. cbn [dd_end_of_message].
    destruct eom; repeat split; auto using Forall_nil_2; lia.
  - by apply Forall_replicate.
Qed.

(** The request for input and the trigger are of one fixed size. *)
Lemma decode_request_cons b0 b1 b2 b3 b4 b5 b6 b7 b8 b9 b10 b11 out :
  let size := from_be32 b7 b6 b5 b4 in
  decode_request_dev_dep_msg_in [b0; b1; b2; b3; b4; b5; b6; b7; b8; b9; b10; b11] out =
  Some (if (b0 =? kRequestDevDepMsgIn) && negb (b1 =? 0) && (b2 =? complement b1) && (b3 =? 0)
           && (Z.land b8 0xfd =? 0) && (b10 =? 0) && (b11 =? 0)
        then if negb (size =? 0) && (size <=? kMaximumPayload)
             then (true, mkRequestMessage b1 size (negb (Z.land b8 2 =? 0)) b9)
             else (false, mkRequestMessage (rm_tag out) size (rm_termchar_enabled out)
                            (rm_termchar out))
        else (false, out)).
Proof.
  intros size. unfold decode_request_dev_dep_msg_in.
  pose proof (read_le32_at [b0; b1; b2; b3] b4 b5 b6 b7 [b8; b9; b10; b11]) as Hr.
  cbn [app length] in Hr. rewrite Hr. clear Hr. fold size.
  cbn [length lookup list_lookup mbind option_bind].
  rewrite valid_common_header_cons by (cbn [length]; lia). rewrite (Z.eqb_refl b1), andb_true_r.
  set (v := _ && (b3 =? 0)). unfold byte_is. cbn [lookup list_lookup fmap option_fmap option_map].
  change (Z.of_nat 12 =? kHeaderSize) with true. cbn [negb or_else].
  destruct v, (Z.land b8 0xfd =? 0), (b10 =? 0), (b11 =? 0); cbn; try done.
  rewrite Z.ltb_antisym. by destruct (size =? 0), (size <=? kMaximumPayload).
Qed.

(** Opens a list whose length is a known numeral. *)
Ltac open_list l H :=
  repeat (let b := fresh "b" in destruct l as [|b l]; cbn [length] in H; [try lia|try lia]).

Lemma decode_request_spec bytes out :
  are_bytes bytes ->
  exists accepted m, decode_request_dev_dep_msg_in bytes out = Some (accepted, m) /\
    forall m', (accepted = true /\ m = m') <->
      encode_request_dev_dep_msg_in (rm_tag m') (rm_transfer_size m') (rm_termchar_enabled m')
        (rm_termchar m') = Some bytes /\ 0 <= rm_transfer_size m'.
Proof.
  intros Hb. destruct (decide (length bytes = 12)%nat) as [Hl|Hl].
  2:{ exists false, out. split.
      - unfold decode_request_dev_dep_msg_in, kHeaderSize. by rewrite (proj2 (Z.eqb_neq _ _)) by lia.
      - intros m'. split; [by intros [? _]|]. unfold encode_request_dev_dep_msg_in.
        destruct (_ || _); [by intros [? _]|]. intros [[= <-] _]. by rewrite header_length in Hl. }
  destruct (twelve bytes ltac:(lia)) as (b0&b1&b2&b3&b4&b5&b6&b7&b8&b9&b10&b11&rest&->).
  destruct rest; [|cbn [length] in Hl; lia]. rewrite decode_request_cons.
  unfold are_bytes in Hb. rewrite !Forall_cons in Hb.
  destruct Hb as (H0&H1&H2&H3&H4&H5&H6&H7&H8&H9&H10&H11&_).
  pose proof (from_be32_range b7 b6 b5 b4 ltac:(done) ltac:(done) ltac:(done) ltac:(done)) as Hsize.
  set (size := from_be32 b7 b6 b5 b4) in *. cbn zeta. unfold encode_request_dev_dep_msg_in.
  destruct (_ && (b11 =? 0)) eqn:Hc.
  - rewrite !andb_true_iff, !negb_true_iff, !Z.eqb_eq, !Z.eqb_neq in Hc.
    destruct Hc as [[[[[[Hi Hnz] Hcm] Hz] Hf] Hz10] Hz11].
    destruct (negb (size =? 0) && (size <=? kMaximumPayload)) eqn:Hs.
    + apply andb_true_iff in Hs as [Hs0 Hs]. apply negb_true_iff in Hs0.
      do 2 eexists. split; [reflexivity|]. intros m'. split.
      * intros [_ <-]. cbn [rm_tag rm_transfer_size rm_termchar_enabled rm_termchar].
        split; [|lia]. rewrite (proj2 (Z.eqb_neq b1 0) Hnz), Hs0, Z.ltb_antisym, Hs. cbn [negb orb].
        rewrite header_cons. unfold size. rewrite le32_from by done.
        rewrite <- (termchar_flag b8) by done. cbn [app]. congruence.
      * intros [He Hpos]. split; [done|]. destruct m' as [t s e c]. cbn [rm_tag rm_transfer_size rm_termchar_enabled rm_termchar] in *.
        destruct (_ || _) eqn:Hg in He; [done|]. rewrite header_cons, le32_cons in He. cbn [app] in He.
        injection He as <- <- _ _ E4 E5 E6 E7 E8 <- _ _. apply orb_false_iff in Hg as [_ Hg].
        apply Z.ltb_ge in Hg. unfold kMaximumPayload in Hg.
        assert (size = s) as -> by (unfold size; rewrite <- E4, <- E5, <- E6, <- E7; apply from_be32_digits; lia).
        rewrite <- E8. by destruct e.
    + do 2 eexists. split; [reflexivity|]. intros m'. split; [by intros [? _]|].
      intros [He Hpos]. exfalso. destruct m' as [t s e c]. cbn [rm_tag rm_transfer_size rm_termchar_enabled rm_termchar] in *.
      destruct (_ || _) eqn:Hg in He; [done|]. rewrite header_cons, le32_cons in He. cbn [app] in He.
      injection He as _ _ _ _ E4 E5 E6 E7 _ _ _ _. apply orb_false_iff in Hg as [Hg0 Hg].
      apply orb_false_iff in Hg0 as [_ Hg0].
      assert (size = s) as -> by
        (unfold size; rewrite <- E4, <- E5, <- E6, <- E7; apply from_be32_digits;
         apply Z.ltb_ge in Hg; unfold kMaximumPayload in Hg; lia).
      rewrite Hg0, Z.leb_antisym, Hg in Hs. done.
  - do 2 eexists. split; [reflexivity|]. intros m'. split; [by intros [? _]|].
    intros [He Hpos]. exfalso. destruct m' as [t s e c]. cbn [rm_tag rm_transfer_size rm_termchar_enabled rm_termchar] in *.
    destruct (_ || _) eqn:Hg in He; [done|]. rewrite header_cons, le32_cons in He. cbn [app] in He.
    injection He as E0 E1 E2 E3 _ _ _ _ E8 E9 E10 E11.
    apply orb_false_iff in Hg as [Hg _]. apply orb_false_iff in Hg as [Hg _].
    subst b0 b1 b2 b3 b8 b10 b11. rewrite Hg, (Z.eqb_refl (complement t)) in Hc. destruct e; vm_compute in Hc; discriminate.
Qed.

Lemma decode_trigger_spec bytes :
  are_bytes bytes ->
  exists r, decode_usb488_trigger bytes = Some r /\
    forall tag, r = Some tag <-> encode_usb488_trigger tag = Some bytes.
Proof.
  intros Hb. unfold decode_usb488_trigger, encode_usb488_trigger.
  destruct (decide (length bytes = 12)%nat) as [Hl|Hl].
  2:{ exists None. unfold kHeaderSize. rewrite (proj2 (Z.eqb_neq _ _)) by lia. split; [done|].
      intros tag. split; [done|]. destruct (tag =? 0); [done|]. intros [= <-]. done. }
  destruct (twelve bytes ltac:(lia)) as (b0&b1&b2&b3&b4&b5&b6&b7&b8&b9&b10&b11&rest&->).
  destruct rest; [|cbn [length] in Hl; lia].
  change (Z.of_nat _ =? kHeaderSize) with true. cbn [negb or_else lookup list_lookup mbind option_bind].
  rewrite valid_common_header_cons by (cbn [length]; lia). rewrite Z.eqb_refl, andb_true_r.
  cbn [length Nat.sub zero_bytes]. unfold byte_is. cbn [lookup list_lookup fmap option_fmap option_map].
  destruct (_ && (b3 =? 0)) eqn:Hc; cbn [negb].
  - rewrite !andb_true_iff, !negb_true_iff, !Z.eqb_eq, !Z.eqb_neq in Hc.
    destruct Hc as [[[Hi Hnz] Hcm] Hz].
    destruct (Z.eqb_spec b4 0), (Z.eqb_spec b5 0), (Z.eqb_spec b6 0), (Z.eqb_spec b7 0),
      (Z.eqb_spec b8 0), (Z.eqb_spec b9 0), (Z.eqb_spec b10 0), (Z.eqb_spec b11 0); cbn;
      eexists; (split; [reflexivity|]); intros tag;
      try (split; [done|]; destruct (tag =? 0); [done|]; intros [=]; congruence).
    split; [|by destruct (tag =? 0); [|intros [= _ ->]]].
    intros [= <-]. rewrite (proj2 (Z.eqb_neq b1 0) Hnz). congruence.
  - cbn. eexists. split; [reflexivity|]. intros tag. split; [done|].
    destruct (Z.eqb_spec tag 0) as [|Hnz]; [done|]. intros [= <- <- <- <-].
    rewrite (proj2 (Z.eqb_neq tag 0) Hnz), (Z.eqb_refl (complement tag)) in Hc.
    vm_compute in Hc. discriminate.
Qed.

(** The messages [decode_dev_dep_msg_out] accepts. *)
Definition out_message (bytes : list Z) (max : Z) (m : DevDepMessage) : Prop :=
  dd_tag m ≠ 0 /\ Z.of_nat (length (dd_payload m)) <= Z.min max kMaximumPayload /\
  exists alignment, bytes = message_bytes kDevDepMsgOut m ++ alignment /\
    Z.of_nat (length alignment) = padding_for (Z.of_nat (length (dd_payload m))).

Lemma decode_out_spec bytes max :
  are_bytes bytes ->
  exists r, decode_dev_dep_msg_out bytes max = Some r /\ forall m, r = Some m <-> out_message bytes max m.
Proof.
  intros Hb. unfold decode_dev_dep_msg_out, kHeaderSize, out_message.
  destruct (Z.ltb_spec (Z.of_nat (length bytes)) 12) as [Hl|Hl].
  - exists None. split; [done|]. intros m. split; [done|]. intros (_ & _ & alignment & -> & _).
    unfold message_bytes in Hl. rewrite !length_app, header_length in Hl. lia.
  - destruct (lookup_lt_is_Some_2 bytes 1 ltac:(lia)) as [b1 Hb1]. rewrite Hb1.
    destruct (decode_message_spec bytes kDevDepMsgOut b1 max 3 true Hb) as (r & Hr & Hm).
    exists r. split; [exact Hr|]. intros m. rewrite Hm. split.
    + intros (-> & Hnz & Hlen & Ha). done.
    + intros (Hnz & Hlen & alignment & Hbytes & Ha). rewrite Hbytes in Hb1. injection Hb1 as Ht.
      subst b1. eauto 10.
Qed.

Lemma encoded_out_decodes tag payload eom bytes :
  is_byte tag -> are_bytes payload -> encode_dev_dep_msg_out tag payload eom = Some bytes ->
  decode_dev_dep_msg_out bytes kMaximumPayload = Some (Some (mkDevDepMessage tag eom payload)).
Proof.
  intros Ht Hp He. apply encode_message_spec in He as (Hnz & Hlen & ->).
  set (n := Z.to_nat (padding_for (Z.of_nat (length payload)))).
  pose proof (message_bytes_ok kDevDepMsgOut tag eom payload n ltac:(done) Ht Hp) as Hb.
  destruct (decode_out_spec _ kMaximumPayload Hb) as (r & -> & Hr). f_equal. apply Hr.
  unfold out_message. cbn [dd_tag dd_payload]. split; [done|]. split; [lia|].
  eexists. split; [reflexivity|]. rewrite length_replicate.
  pose proof (padding_bounds (Z.of_nat (length payload))). lia.
Qed.

Lemma encoded_in_decodes tag payload eom bytes :
  is_byte tag -> are_bytes payload -> encode_dev_dep_msg_in tag payload eom = Some bytes ->
  decode_dev_dep_msg_in bytes tag kMaximumPayload 3 = Some (Some (mkDevDepMessage tag eom payload)).
Proof.
  intros Ht Hp He. apply encode_message_spec in He as (Hnz & Hlen & ->).
  set (n := Z.to_nat (padding_for (Z.of_nat (length payload)))).
  pose proof (message_bytes_ok kDevDepMsgIn tag eom payload n ltac:(done) Ht Hp) as Hb.
  destruct (decode_message_spec _ kDevDepMsgIn tag kMaximumPayload 3 false Hb) as (r & Hd & Hr).
  unfold decode_dev_dep_msg_in. rewrite Hd. f_equal. apply Hr. cbn [dd_tag dd_payload].
  split; [done|]. split; [done|]. split; [lia|]. eexists. split; [reflexivity|].
  rewrite length_replicate. pose proof (padding_bounds (Z.of_nat (length payload))). lia.
Qed.

(** C16: the codec of the bulk messages.  Every message of valid tag and size is
    encoded, and decoded from its encoding; the decoders are defined on every
    input; a data message is accepted exactly when its header, its size and the
    amount of its alignment are right, whatever the alignment bytes are; a
    request for input and a trigger are accepted exactly when they are the
    encoding of what is returned. *)
Theorem usbtmc_message_codec :
  (forall tag payload eom bytes,
     is_byte tag -> are_bytes payload ->
     (encode_dev_dep_msg_out tag payload eom = Some bytes ->
        decode_dev_dep_msg_out bytes kMaximumPayload = Some (Some (mkDevDepMessage tag eom payload))) /\
     (encode_dev_dep_msg_in tag payload eom = Some bytes ->
        decode_dev_dep_msg_in bytes tag kMaximumPayload 3 =
          Some (Some (mkDevDepMessage tag eom payload)))) /\
  (forall bytes, are_bytes bytes ->
     (forall max, exists r, decode_dev_dep_msg_out bytes max = Some r /\
        forall m, r = Some m <-> out_message bytes max m) /\
     (forall tag max align, exists r, decode_dev_dep_msg_in bytes tag max align = Some r /\
        forall m, r = Some m <->
          dd_tag m = tag /\ tag ≠ 0 /\ Z.of_nat (length (dd_payload m)) <= Z.min max kMaximumPayload /\
          exists alignment, bytes = message_bytes kDevDepMsgIn m ++ alignment /\
            Z.of_nat (length alignment) <= align) /\
     (forall out, exists accepted m, decode_request_dev_dep_msg_in bytes out = Some (accepted, m) /\
        forall m', (accepted = true /\ m = m') <->
          encode_request_dev_dep_msg_in (rm_tag m') (rm_transfer_size m') (rm_termchar_enabled m')
            (rm_termchar m') = Some bytes /\ 0 <= rm_transfer_size m') /\
     (exists r, decode_usb488_trigger bytes = Some r /\
        forall tag, r = Some tag <-> encode_usb488_trigger tag = Some bytes)).
Proof.
  split; [intros tag payload eom bytes Ht Hp; split; intros He;
            [by apply encoded_out_decodes|by apply encoded_in_decodes]|].
  intros bytes Hb. split; [intros max; by apply decode_out_spec|]. split.
  - intros tag max align.
    destruct (decode_message_spec bytes kDevDepMsgIn tag max align false Hb) as (r & Hr & Hm). by exists r.
  - split; [intros out; by apply decode_request_spec|by apply decode_trigger_spec].
Qed.

(** ** Answers to control requests *)

(** The USB488 half of [capability_answer]. *)
Definition usb488_answer (subclass : list Z) (out caps : Capabilities) : Prop :=
  exists u0 u1 i d, subclass = [u0; u1; i; d; 0; 0; 0; 0; 0; 0; 0; 0] /\
    0x0100 <= u0 + 256 * u1 /\ i < 8 /\ d < 16 /\
    (Z.testbit d 0 = true -> Z.testbit i 0 = true) /\
    (Z.testbit d 1 = true -> Z.testbit i 1 = true) /\
    (Z.testbit i 2 = true -> Z.testbit d 2 = true) /\
    (Z.testbit d 3 = true -> Z.testbit i 2 = true /\ Z.testbit d 2 = true) /\
    caps = mkCapabilities (cap_status out) (cap_termchar out) true (Z.testbit d 0) (Z.testbit d 2).

(** The shape of an accepted answer to [GET_CAPABILITIES]: versions of at least
    1.00, reserved bits and bytes clear, and the dependencies between the
    capability bits that USB488 prescribes. *)
Definition capability_answer (expect_usb488 : bool) (bytes : list Z) (caps : Capabilities) : Prop :=
  exists v0 v1 c4 c5 subclass,
    bytes = [kStatusSuccess; 0; v0; v1; c4; c5; 0; 0; 0; 0; 0; 0] ++ subclass /\
    0x0100 <= v0 + 256 * v1 /\ c4 < 8 /\ c5 < 2 /\
    if expect_usb488 then
      usb488_answer subclass (mkCapabilities kStatusSuccess (Z.testbit c5 0) false false false) caps
    else subclass = replicate 12 0 /\ caps = mkCapabilities kStatusSuccess (Z.testbit c5 0) false false false.

Definition SplitStatus_ok (s : SplitStatus) : Prop :=
  is_byte (ss_status s) /\ 0 <= ss_transferred s < 2 ^ 32.

Lemma flag_testbit k b : is_byte b -> 0 <= k < 8 -> negb (Z.land b (2 ^ k) =? 0) = Z.testbit b k.
Proof.
  intros Hb Hk. assert (k = 0 \/ k = 1 \/ k = 2 \/ k = 3 \/ k = 4 \/ k = 5 \/ k = 6 \/ k = 7) as Hc by lia.
  apply eqb_true_iff. revert b Hb. repeat (destruct Hc as [->|Hc]; [by apply byte_forall|]).
  subst k. by apply byte_forall.
Qed.

Lemma flag_0 b : is_byte b -> negb (Z.land b 1 =? 0) = Z.testbit b 0.
Proof. intros Hb. by apply (flag_testbit 0). Qed.

Lemma flag_1 b : is_byte b -> negb (Z.land b 2 =? 0) = Z.testbit b 1.
Proof. intros Hb. by apply (flag_testbit 1). Qed.

Lemma flag_2 b : is_byte b -> negb (Z.land b 4 =? 0) = Z.testbit b 2.
Proof. intros Hb. by apply (flag_testbit 2). Qed.

Lemma flag_3 b : is_byte b -> negb (Z.land b 8 =? 0) = Z.testbit b 3.
Proof. intros Hb. by apply (flag_testbit 3). Qed.

Lemma reserved_bits mask limit b :
  forallb (fun b => eqb (Z.land b mask =? 0) (b <? limit)) every_byte = true ->
  is_byte b -> (Z.land b mask =? 0) = (b <? limit).
Proof. intros Hf Hb. apply eqb_true_iff. by apply (byte_forall _ Hf). Qed.

Lemma u16_le_arith b0 b1 : is_byte b0 -> is_byte b1 -> Z.lor b0 (Z.shiftl b1 8) = b0 + 256 * b1.
Proof. unfold is_byte. intros. rewrite Z.lor_comm, lor_shiftl_add by lia. lia. Qed.

Lemma zero_bytes_spec bytes first count :
  (first + count <= length bytes)%nat ->
  exists r, zero_bytes bytes first count = Some r /\
    (r = true <-> take count (drop first bytes) = replicate count 0).
Proof.
  revert first. induction count as [|count IH]; intros first Hl; cbn [zero_bytes]; [by exists true|].
  destruct (lookup_lt_is_Some_2 bytes first ltac:(lia)) as [b Hb]. unfold byte_is. rewrite Hb.
  rewrite (drop_S bytes b first) by done.
  destruct (IH (S first) ltac:(lia)) as (r & -> & Hr). cbn [fmap option_fmap option_map take replicate].
  destruct (Z.eqb_spec b 0) as [->|Hnz]; cbn [and_then]; eexists; (split; [reflexivity|]).
  - rewrite Hr. split; [by intros ->|by intros [= ->]].
  - split; [done|]. intros [= -> _]. done.
Qed.

(** Decides the next test of the goal that is made on bytes. *)
Ltac test_zero bytes first count :=
  let r := fresh "r" in let Hr := fresh "Hr" in
  destruct (zero_bytes_spec bytes first count ltac:(cbn [length]; lia)) as (r & -> & Hr);
  cbn [mbind option_bind]; destruct r; cbn [negb];
  [apply proj1 in Hr; specialize (Hr eq_refl); cbn [take drop replicate] in Hr; simplify_eq
  |apply proj2 in Hr; cbn [take drop replicate] in Hr].

Definition answered (r : option (bool * Capabilities)) (answer : Capabilities -> Prop) : Prop :=
  exists accepted caps, r = Some (accepted, caps) /\
    forall c, (accepted = true /\ cap_status caps = kStatusSuccess /\ caps = c) <-> answer c.

Lemma refuse caps (answer : Capabilities -> Prop) :
  (forall c, ~ answer c) -> answered (Some (false, caps)) answer.
Proof. intros Hn. do 2 eexists. split; [reflexivity|]. intros c. split; [by intros [? _]|]. intros Ha. by destruct (Hn c). Qed.

Lemma decode_usb488_spec base subclass out :
  length base = 12%nat -> length subclass = 12%nat -> are_bytes subclass ->
  cap_status out = kStatusSuccess ->
  answered (decode_usb488_capabilities (base ++ subclass) out) (usb488_answer subclass out).
Proof.
  intros Hb Hs Hby Hst. destruct (twelve subclass ltac:(lia)) as (c0&c1&c2&c3&c4&c5&c6&c7&c8&c9&c10&c11&r&->).
  destruct r; [|cbn [length] in Hs; lia].
  destruct (twelve base ltac:(lia)) as (b0&b1&b2&b3&b4&b5&b6&b7&b8&b9&b10&b11&r&->).
  destruct r; [|cbn [length] in Hb; lia].
  unfold are_bytes in Hby. rewrite !Forall_cons in Hby.
  destruct Hby as (K0&K1&K2&K3&K4&K5&K6&K7&K8&K9&K10&K11&_).
  unfold decode_usb488_capabilities, read_u16_le, byte_is. cbn [app].
  cbn [lookup list_lookup mbind option_bind Nat.add fmap option_fmap option_map].
  rewrite u16_le_arith, (reserved_bits 248 8 c2), (reserved_bits 240 16 c3) by done.
  rewrite !flag_0, !flag_1, !flag_2, !flag_3 by done.
  destruct (Z.ltb_spec (c0 + 256 * c1) 256) as [Hv|Hv]; cbn [negb or_else mbind option_bind].
  { apply refuse. intros c (u0 & u1 & i & d & [= -> ->] & Hv' & _). lia. }
  destruct (Z.ltb_spec c2 8) as [H8|H8]; cbn [negb or_else mbind option_bind].
  2:{ apply refuse. intros c (u0 & u1 & i & d & [= _ _ ->] & _ & ? & _). lia. }
  destruct (Z.ltb_spec c3 16) as [H16|H16]; cbn [negb or_else mbind option_bind].
  2:{ apply refuse. intros c (u0 & u1 & i & d & [= _ _ _ ->] & _ & _ & ? & _). lia. }
  match goal with |- context [zero_bytes ?l 16 8] => test_zero l 16%nat 8%nat end.
  2:{ apply refuse. intros c (u0 & u1 & i & d & [= _ _ _ _ -> -> -> -> -> -> -> ->] & _). by discriminate Hr. }
  destruct (_ || _) eqn:Hdep.
  - apply refuse. intros c (u0 & u1 & i & d & [= -> -> -> ->] & _ & _ & _ & R0 & R1 & R2 & R3 & _).
    destruct (Z.testbit d 0), (Z.testbit d 1), (Z.testbit d 2), (Z.testbit d 3),
      (Z.testbit i 0), (Z.testbit i 1), (Z.testbit i 2); naive_solver.
  - do 2 eexists. split; [reflexivity|]. intros c. split.
    + intros (_ & _ & <-). exists c0, c1, c2, c3.
      destruct (Z.testbit c3 0), (Z.testbit c3 1), (Z.testbit c3 2), (Z.testbit c3 3),
        (Z.testbit c2 0), (Z.testbit c2 1), (Z.testbit c2 2); naive_solver.
    + intros (u0 & u1 & i & d & [= -> -> -> ->] & _ & _ & _ & R0 & R1 & R2 & R3 & ->).
      cbn [cap_status]. split; [done|]. split; [done|]. f_equal.
      destruct (Z.testbit d 0); [|by rewrite andb_false_r]. by rewrite R0.
Qed.

Lemma decode_capabilities_spec bytes expect out :
  are_bytes bytes -> answered (decode_capabilities bytes expect out) (capability_answer expect bytes).
Proof.
  intros Hb. unfold decode_capabilities.
  destruct (Z.eqb_spec (Z.of_nat (length bytes)) 24) as [Hl|Hl]; cbn [negb].
  2:{ apply refuse. intros c (v0 & v1 & c4 & c5 & sub & -> & _ & _ & _ & Hs). apply Hl.
      destruct expect; [destruct Hs as (u0 & u1 & i & d & -> & _)|destruct Hs as [-> _]]; done. }
  pose proof (take_drop 12 bytes) as Hsplit.
  set (sub := drop 12 bytes) in *.
  assert (length sub = 12)%nat as Hsub by (unfold sub; rewrite length_drop; lia).
  assert (are_bytes sub) as Hbsub by (by apply Forall_drop).
  assert (length (take 12 bytes) = 12)%nat as Hbase by (rewrite length_take; lia).
  destruct (twelve (take 12 bytes) ltac:(lia)) as (b0&b1&b2&b3&b4&b5&b6&b7&b8&b9&b10&b11&r&Htake).
  rewrite Htake in Hsplit, Hbase. clear Htake. destruct r; [|cbn [length] in Hbase; lia].
  clearbody sub. subst bytes. apply Forall_app in Hb as [Hb _]. rewrite !Forall_cons in Hb.
  destruct Hb as (H0&H1&H2&H3&H4&H5&H6&H7&H8&H9&H10&H11&_).
  unfold read_u16_le, byte_is. cbn [app].
  cbn [lookup list_lookup mbind option_bind Nat.add fmap option_fmap option_map].
  rewrite !u16_le_arith, (reserved_bits 248 8 b4), (reserved_bits 254 2 b5), flag_0 by done.
  destruct (Z.eqb_spec b0 kStatusSuccess) as [->|Hne]; cbn [negb].
  2:{ do 2 eexists. split; [reflexivity|]. intros c. split; [by intros (_ & ? & _)|].
      intros (v0 & v1 & x4 & x5 & s & [= Heq] & _). done. }
  destruct (Z.eqb_spec b1 0) as [->|Hn]; cbn [negb or_else mbind option_bind].
  2:{ apply refuse. intros c (v0 & v1 & x4 & x5 & s & [= Heq] & _). done. }
  destruct (Z.ltb_spec (b2 + 256 * b3) 256) as [Hv|Hv]; cbn [negb or_else mbind option_bind].
  { apply refuse. intros c (v0 & v1 & x4 & x5 & s & [= -> ->] & Hv' & _). lia. }
  destruct (Z.ltb_spec b4 8) as [H48|H48]; cbn [negb or_else mbind option_bind].
  2:{ apply refuse. intros c (v0 & v1 & x4 & x5 & s & [= _ _ ->] & _ & ? & _). lia. }
  destruct (Z.ltb_spec b5 2) as [H52|H52]; cbn [negb or_else mbind option_bind].
  2:{ apply refuse. intros c (v0 & v1 & x4 & x5 & s & [= _ _ _ ->] & _ & _ & ? & _). lia. }
  match goal with |- context [zero_bytes ?l 6 6] => test_zero l 6%nat 6%nat end.
  2:{ apply refuse. intros c (v0 & v1 & x4 & x5 & s & [= _ _ _ _ -> -> -> -> -> ->] & _). by discriminate Hr. }
  destruct expect; cbn [negb].
  - match goal with |- answered (decode_usb488_capabilities _ ?o) _ =>
      destruct (decode_usb488_spec [kStatusSuccess; 0; b2; b3; b4; b5; 0; 0; 0; 0; 0; 0] sub o
        eq_refl Hsub Hbsub eq_refl) as (accepted & caps & Hd & Hc) end.
    cbn [app] in Hd. exists accepted, caps. split; [exact Hd|]. intros c. rewrite Hc. split.
    + intros Ha. exists b2, b3, b4, b5, sub. done.
    + intros (v0 & v1 & x4 & x5 & s & [= -> -> -> -> ->] & _ & _ & _ & Ha). exact Ha.
  - match goal with |- context [zero_bytes ?l 12 12] => test_zero l 12%nat 12%nat end.
    + rewrite drop_0, take_ge in Hr by lia. subst sub. do 2 eexists. split; [reflexivity|].
      intros c. split.
      * intros (_ & _ & <-). by exists b2, b3, b4, b5, (replicate 12 0).
      * intros (v0 & v1 & x4 & x5 & s & [= -> -> -> -> _] & _ & _ & _ & _ & ->). done.
    + apply refuse. intros c (v0 & v1 & x4 & x5 & s & [= -> -> -> -> ->] & _ & _ & _ & -> & _).
      by discriminate Hr.
Qed.

(** *** The other answers *)

Lemma read_le32_cons b0 b1 b2 b3 b4 b5 b6 b7 :
  read_le32 [b0; b1; b2; b3; b4; b5; b6; b7] 4 = Some (from_be32 b7 b6 b5 b4).
Proof. apply (read_le32_at [b0; b1; b2; b3]). Qed.

(** A decoder is total and gives values of the members' widths. *)
Definition typed {A} (r : option (bool * A)) (ok : A -> Prop) : Prop :=
  exists accepted a, r = Some (accepted, a) /\ ok a.

Lemma typed_Some {A} accepted (a : A) (ok : A -> Prop) : ok a -> typed (Some (accepted, a)) ok.
Proof. intros. by exists accepted, a. Qed.

Lemma split_of_status_ok status : is_byte status -> SplitStatus_ok (split_of_status status).
Proof. intros. split; [done|cbn; lia]. Qed.

Lemma check_abort_bulk_out_typed bytes out :
  are_bytes bytes -> SplitStatus_ok out -> typed (decode_check_abort_bulk_out bytes out) SplitStatus_ok.
Proof.
  intros Hb Ho. unfold decode_check_abort_bulk_out.
  destruct (Z.eqb_spec (Z.of_nat (length bytes)) 8) as [Hl|]; cbn [negb]; [|by apply typed_Some].
  open_list bytes Hl. unfold are_bytes in Hb. rewrite !Forall_cons in Hb.
  destruct Hb as (H0&H1&H2&H3&H4&H5&H6&H7&_). cbn [lookup list_lookup mbind option_bind].
  destruct (_ || _); [|by apply typed_Some, split_of_status_ok].
  match goal with |- context [zero_bytes ?l ?i ?n] =>
    destruct (zero_bytes_spec l i n ltac:(cbn [length]; lia)) as (r & -> & _) end.
  cbn [mbind option_bind]. destruct r; cbn [negb]; [|by apply typed_Some, split_of_status_ok].
  rewrite read_le32_cons. apply typed_Some. split; [done|]. by apply from_be32_range.
Qed.

Lemma check_abort_bulk_in_typed bytes out :
  are_bytes bytes -> SplitStatus_ok out -> typed (decode_check_abort_bulk_in bytes out) SplitStatus_ok.
Proof.
  intros Hb Ho. unfold decode_check_abort_bulk_in.
  destruct (Z.eqb_spec (Z.of_nat (length bytes)) 8) as [Hl|]; cbn [negb]; [|by apply typed_Some].
  open_list bytes Hl. unfold are_bytes in Hb. rewrite !Forall_cons in Hb.
  destruct Hb as (H0&H1&H2&H3&H4&H5&H6&H7&_). rewrite read_le32_cons. unfold byte_is.
  cbn [lookup list_lookup mbind option_bind fmap option_fmap option_map].
  destruct (_ || _); [|by apply typed_Some, split_of_status_ok].
  destruct (negb (Z.land b0 0xfe =? 0)), (negb (b1 =? 0)), (negb (b2 =? 0));
    cbn [or_else mbind option_bind]; apply typed_Some; try (by apply split_of_status_ok);
    (split; [done|by apply from_be32_range]).
Qed.

Lemma check_clear_typed bytes out :
  are_bytes bytes -> SplitStatus_ok out -> typed (decode_check_clear bytes out) SplitStatus_ok.
Proof.
  intros Hb Ho. unfold decode_check_clear.
  destruct (Z.eqb_spec (Z.of_nat (length bytes)) 2) as [Hl|]; cbn [negb]; [|by apply typed_Some].
  open_list bytes Hl. unfold are_bytes in Hb. rewrite !Forall_cons in Hb. destruct Hb as (H0&H1&_).
  cbn [lookup list_lookup mbind option_bind].
  destruct (_ || _), (negb (Z.land b0 0xfe =? 0)); apply typed_Some; by apply split_of_status_ok.
Qed.

Lemma initiate_abort_typed bytes tag status :
  are_bytes bytes -> is_byte status -> typed (decode_initiate_abort bytes tag status) is_byte.
Proof.
  intros Hb Ho. unfold decode_initiate_abort.
  destruct (Z.eqb_spec (Z.of_nat (length bytes)) 2) as [Hl|]; cbn [negb]; [|by apply typed_Some].
  open_list bytes Hl. unfold are_bytes in Hb. rewrite !Forall_cons in Hb. destruct Hb as (H0&H1&_).
  unfold byte_is. cbn [lookup list_lookup mbind option_bind fmap option_fmap option_map].
  destruct (negb _); cbn [or_else mbind option_bind]; by apply typed_Some.
Qed.

Lemma initiate_clear_typed bytes status :
  are_bytes bytes -> is_byte status -> typed (decode_initiate_clear bytes status) is_byte.
Proof.
  intros Hb Ho. unfold decode_initiate_clear.
  destruct (Z.eqb_spec (Z.of_nat (length bytes)) 1) as [Hl|]; cbn [negb]; [|by apply typed_Some].
  open_list bytes Hl. apply Forall_cons in Hb as [H0 _]. by apply typed_Some.
Qed.

Definition byte_pair (p : Z * Z) : Prop := is_byte p.1 /\ is_byte p.2.

Lemma read_status_byte_typed bytes tag interrupt out :
  are_bytes bytes -> byte_pair out -> typed (decode_read_status_byte bytes tag interrupt out) byte_pair.
Proof.
  intros Hb Ho. unfold decode_read_status_byte. assert (is_byte 0) as Hz by (unfold is_byte; lia).
  destruct (Z.eqb_spec (Z.of_nat (length bytes)) 3) as [Hl|]; cbn [negb]; [|by apply typed_Some].
  open_list bytes Hl. unfold are_bytes in Hb. rewrite !Forall_cons in Hb. destruct Hb as (H0&H1&H2&_).
  unfold byte_is. cbn [lookup list_lookup mbind option_bind fmap option_fmap option_map].
  destruct (negb (b =? _)); [by apply typed_Some|].
  destruct (negb (b0 =? tag)), interrupt, (negb (b1 =? 0)); cbn; by apply typed_Some.
Qed.

Lemma interrupt_status_byte_typed bytes out :
  are_bytes bytes -> byte_pair out -> typed (decode_interrupt_status_byte bytes out) byte_pair.
Proof.
  intros Hb [Ho1 Ho2]. unfold decode_interrupt_status_byte.
  destruct (Z.eqb_spec (Z.of_nat (length bytes)) 2) as [Hl|]; cbn [negb]; [|by apply typed_Some].
  open_list bytes Hl. unfold are_bytes in Hb. rewrite !Forall_cons in Hb. destruct Hb as (H0&H1&_).
  unfold byte_is. cbn [lookup list_lookup mbind option_bind fmap option_fmap option_map or_else].
  assert (is_byte (Z.land b 0x7f)) as Hm.
  { unfold is_byte in *. change 0x7f with (Z.ones 7). rewrite Z.land_ones by lia.
    pose proof (Z.mod_pos_bound b (2 ^ 7)). lia. }
  destruct (Z.land b 0x80 =? 0); [by apply typed_Some|].
  destruct (Z.land b 0x7f =? 0); by apply typed_Some.
Qed.

(** Decoding the answers to control requests: whatever bytes the device
    sends, no decoder reads beyond them, and status bytes, tags and counts come
    out in the range of their types; an answer to [GET_CAPABILITIES] is taken
    as a success exactly when it is well formed, and then yields the
    capabilities its bits announce. *)
Theorem usbtmc_control_answers bytes :
  are_bytes bytes ->
  (forall expect out,
     answered (decode_capabilities bytes expect out) (capability_answer expect bytes)) /\
  (forall tag status, is_byte status ->
     typed (decode_initiate_abort bytes tag status) is_byte /\
     typed (decode_initiate_clear bytes status) is_byte) /\
  (forall out, SplitStatus_ok out ->
     typed (decode_check_abort_bulk_out bytes out) SplitStatus_ok /\
     typed (decode_check_abort_bulk_in bytes out) SplitStatus_ok /\
     typed (decode_check_clear bytes out) SplitStatus_ok) /\
  (forall tag interrupt out, byte_pair out ->
     typed (decode_read_status_byte bytes tag interrupt out) byte_pair /\
     typed (decode_interrupt_status_byte bytes out) byte_pair).
Proof.
  intros Hb. split; [intros; by apply decode_capabilities_spec|].
  split; [intros; split; [by apply initiate_abort_typed|by apply initiate_clear_typed]|]. split.
  - intros out Ho. split; [by apply check_abort_bulk_out_typed|].
    split; [by apply check_abort_bulk_in_typed|by apply check_clear_typed].
  - intros. split; [by apply read_status_byte_typed|by apply interrupt_status_byte_typed].
Qed.

Lemma usbtmc_control_answers_witness :
  answered (decode_capabilities
      ([1; 0; 0; 1; 0; 1; 0; 0; 0; 0; 0; 0] ++ [0; 1; 5; 5; 0; 0; 0; 0; 0; 0; 0; 0]) true
      (capabilities_of_status 0))
    (capability_answer true
      ([1; 0; 0; 1; 0; 1; 0; 0; 0; 0; 0; 0] ++ [0; 1; 5; 5; 0; 0; 0; 0; 0; 0; 0; 0])).
Proof.
  apply usbtmc_control_answers. unfold are_bytes. cbn [app]. rewrite !Forall_cons.
  unfold is_byte. repeat split; try lia. apply Forall_nil_2.
Defined.
