(* ===== verification/BackendSession.v ===== *)
(** * The backend interface: [core/backend_session.h]

    What a [SessionObject] calls on its backend, as a type class over the
    backend's state.  A call takes the operation it runs under and gives back
    the operation as it leaves it; [None] is a call that never returns (a read
    without data and without deadline). *)

From S2P Require Import Prelude Visa Operation.

Record ReadOptions := mkReadOptions { ro_termchar_enabled : bool; ro_termchar : Z }.

Record WriteOptions := mkWriteOptions { wo_send_end : bool }.

(** What [get_attribute] stores through its [void*]. *)
Inductive attr_value :=
| attr_string (value : str)
| attr_number (value : Z).

(** [copy_string] and [copy_output]: at most 255 characters, the terminator
    left out of the model. *)
Definition copy_string (value : str) : str := take 255 value.

(** The outcome of a call: status, [*return_count] or the other output value,
    bytes stored in the caller's buffer, the backend and the operation. *)
Record call_result (B H : Type) := mkCall {
  cr_status : Z;
  cr_value : Z;
  cr_data : list Z;
  cr_backend : B;
  cr_operation : Operation H }.
Arguments mkCall {_ _} _ _ _ _ _.
Arguments cr_status {_ _} _.
Arguments cr_value {_ _} _.
Arguments cr_data {_ _} _.
Arguments cr_backend {_ _} _.
Arguments cr_operation {_ _} _.

(** One method per virtual member function. *)
Class BackendSession (B H : Type) := {
  be_read : Operation H -> Z -> ReadOptions -> B -> option (call_result B H);
  be_write : Operation H -> list Z -> WriteOptions -> B -> option (call_result B H);
  be_clear : Operation H -> B -> option (call_result B H);
  be_flush : Operation H -> Z -> B -> option (call_result B H);
  be_read_stb : Operation H -> bool -> B -> option (call_result B H);
  be_assert_trigger : Operation H -> Z -> B -> option (call_result B H);
  be_usb_control : Operation H -> Z -> Z -> Z -> Z -> list Z -> Z -> B ->
    option (call_result B H);
  be_lock : Operation H -> Z -> str -> B -> option (call_result B H);
  be_unlock : Operation H -> B -> option (call_result B H);
  be_set_attribute : Z -> Z -> B -> Z * B;
  be_get_attribute : Z -> B -> Z * option attr_value;
  be_close : B -> B;
  be_notify_cancel : B -> B }.

(** ** The default member functions of the base class *)

Section defaults.
  Context {B H : Type}.

Definition default_assert_trigger (op : Operation H) (protocol : Z) (b : B)
  : option (call_result B H) := Some (mkCall VI_ERROR_NSUP_OPER 0 [] b op).

Definition default_usb_control (op : Operation H) (request_type request value index : Z)
    (data : list Z) (count : Z) (b : B) : option (call_result B H) :=
  Some (mkCall VI_ERROR_NSUP_OPER 0 [] b op).

Definition default_lock (op : Operation H) (lock_type : Z) (access_key : str) (b : B)
  : option (call_result B H) := Some (mkCall VI_SUCCESS 0 [] b op).

Definition default_unlock (op : Operation H) (b : B) : option (call_result B H) :=
  Some (mkCall VI_SUCCESS 0 [] b op).

Definition default_set_attribute (attribute value : Z) (b : B) : Z * B := (VI_ERROR_NSUP_ATTR, b).

Definition default_get_attribute (attribute : Z) (b : B) : Z * option attr_value :=
  (VI_ERROR_NSUP_ATTR, None).

Definition default_close (b : B) : B := b.

(** The overloads taking an [Operation] forward to the plain ones. *)
Definition forward (plain : B -> Z * Z * B) (op : Operation H) (b : B)
  : option (call_result B H) :=
  let '(status, value, b') := plain b in Some (mkCall status value [] b' op).

End defaults.

(** ** Flush masks

    Every backend has its own copy of this check. *)

(** [~kKnownMask] truncated to 16 bits. *)
Definition known_flush_mask : Z :=
  VI_READ_BUF + VI_WRITE_BUF + VI_READ_BUF_DISCARD + VI_WRITE_BUF_DISCARD +
  VI_IO_IN_BUF + VI_IO_OUT_BUF + VI_IO_IN_BUF_DISCARD + VI_IO_OUT_BUF_DISCARD.

Definition valid_flush_mask (mask : Z) : bool :=
  negb (mask =? 0) && (Z.land mask (0xFFFF - known_flush_mask) =? 0).

(** ** Calls as data, and the laws a session relies on *)

(** The calls that run under the access check, with their arguments. *)
Inductive io_call :=
| IoRead (count : Z)
| IoWrite (buffer : list Z)
| IoClear
| IoFlush (mask : Z)
| IoReadStb (present : bool)
| IoAssertTrigger (protocol : Z)
| IoUsbControl (request_type request value index : Z) (data : list Z) (count : Z).

Definition backend_call {B H} `{BackendSession B H} (c : io_call) (ro : ReadOptions)
    (wo : WriteOptions) (op : Operation H) (b : B) : option (call_result B H) :=
  match c with
  | IoRead count => be_read op count ro b
  | IoWrite buffer => be_write op buffer wo b
  | IoClear => be_clear op b
  | IoFlush mask => be_flush op mask b
  | IoReadStb present => be_read_stb op present b
  | IoAssertTrigger protocol => be_assert_trigger op protocol b
  | IoUsbControl request_type request value index data count =>
      be_usb_control op request_type request value index data count b
  end.

Lemma try_complete_fresh {H} status (op : Operation H) :
  completed op = false ->
  try_complete status op = (true, mkOperation status (deadline_ op) (cancel_handler_ op)).
Proof.
  unfold completed, try_complete. intros Hc. by apply negb_false_iff in Hc as ->.
Qed.

Lemma try_complete_done {H} status (op : Operation H) :
  completed op = true -> try_complete status op = (false, op).
Proof.
  unfold completed, try_complete. intros Hc. by apply negb_true_iff in Hc as ->.
Qed.

(** A completed operation keeps its result. *)
Definition keeps_result {H} (op op' : Operation H) : Prop :=
  completed op = true -> result_ op' = result_ op.

(** Whatever has completed the operation completed it with an error. *)
Definition fails_only {H} (op : Operation H) : Prop :=
  completed op = true -> op_result op < VI_SUCCESS.

(** What a backend promises about the operation it is given: it never changes
    a result, and while locking or unlocking completes it only to fail. *)
Class BackendLaws (B H : Type) `{BackendSession B H} : Prop := {
  call_keeps_result c ro wo op b r :
    backend_call c ro wo op b = Some r -> keeps_result op (cr_operation r);
  lock_fails_only op lock_type key b r :
    be_lock op lock_type key b = Some r -> fails_only op -> fails_only (cr_operation r);
  unlock_fails_only op b r :
    be_unlock op b = Some r -> fails_only op -> fails_only (cr_operation r) }.

Lemma keeps_result_refl {H} (op : Operation H) : keeps_result op op.
Proof. done. Qed.

Lemma keeps_result_try_complete {H} status (op : Operation H) :
  keeps_result op (try_complete status op).2.
Proof.
  unfold keeps_result, completed, try_complete. intros Hc.
  by apply negb_true_iff in Hc as ->.
Qed.

Lemma keeps_result_trans {H} (op1 op2 op3 : Operation H) :
  keeps_result op1 op2 -> keeps_result op2 op3 -> keeps_result op1 op3.
Proof.
  unfold keeps_result, completed. intros H1 H2 Hc. rewrite <- (H1 Hc). apply H2. by rewrite (H1 Hc).
Qed.

Lemma forward_keeps_result {B H} plain (op : Operation H) (b : B) r :
  forward plain op b = Some r -> keeps_result op (cr_operation r).
Proof. unfold forward. destruct (plain b) as [[status value] b']. by intros [= <-]. Qed.
