(* ===== verification/RequestChannel.v ===== *)
(** * Request channels: [backends/asio/request_channel.{h,cpp}]

    A queue of requests on one TCP connection.  Every handler runs on the
    channel's strand, so a handler is one step on the state; which handler runs
    next (a posted task, the completion of an asynchronous read or write, an
    expired timer) is left open.  Callers own the operations: they may complete
    them at any time and destroy them once their call has returned.  [None] is
    undefined behaviour: a null or dangling operation pointer, or a promise set
    twice. *)

From S2P Require Import Prelude Visa Operation Bytes BackendSession.

(** ** Errors of the sockets *)

Inductive error_code :=
| ec_eof | ec_connection_reset | ec_connection_aborted | ec_broken_pipe | ec_not_connected
| ec_access_denied | ec_operation_aborted | ec_timed_out | ec_other.

Definition map_socket_error (error : error_code) : Z :=
  match error with
  | ec_eof | ec_connection_reset | ec_connection_aborted | ec_broken_pipe | ec_not_connected =>
      VI_ERROR_CONN_LOST
  | ec_access_denied => VI_ERROR_NPERMISSION
  | ec_operation_aborted | ec_timed_out | ec_other => VI_ERROR_IO
  end.

Definition map_connect_error (error : error_code) : Z :=
  match error with ec_access_denied => VI_ERROR_NPERMISSION | _ => VI_ERROR_RSRC_NFOUND end.

(** ** The state *)

Inductive ResponseFraming := framing_none | rpc_record | hislip_frame.

Definition ExchangeResult : Type := Z * list Z.

(** [rq_caller] is the operation of the call that made the request, which the
    request forgets when it finishes. *)
Record Request := mkRequest {
  rq_caller : nat;
  rq_operation : option nat;
  rq_request : list Z;
  rq_framing : ResponseFraming;
  rq_header : list Z;
  rq_fragment : list Z;
  rq_response : list Z;
  rq_completion : option ExchangeResult;
  rq_enqueued : bool;
  rq_active : bool;
  rq_done : bool }.

(** The asynchronous operations on the socket and the timer, by their handlers. *)
Inductive transfer_kind :=
| write_request
| read_rpc_marker_of
| read_rpc_fragment_of (last : bool) (size : nat)
| read_hislip_header_of
| read_hislip_payload_of (size : nat).

Inductive wait_kind := deadline_wait | drain_wait.

(** What is posted to the strand. *)
Inductive task := enqueue_task (r : nat) | cancel_task (r : nat) | close_task.

(** [ch_incoming] are the bytes the peer has sent that are not yet read,
    [ch_sent] those written; [ch_observed] counts calls of the observer. *)
Record Channel := mkChannel {
  ch_requests : list Request;
  ch_operations : gmap nat (Operation nat);
  ch_queue : list nat;
  ch_maximum_frame_size : Z;
  ch_drain_on_cancel : bool;
  ch_closed : bool;
  ch_open : bool;
  ch_transfers : list (nat * transfer_kind);
  ch_waits : list (nat * wait_kind);
  ch_posted : list task;
  ch_incoming : list Z;
  ch_sent : list Z;
  ch_observed : nat }.

Definition with_requests (l : list Request) (c : Channel) : Channel :=
  mkChannel l (ch_operations c) (ch_queue c) (ch_maximum_frame_size c) (ch_drain_on_cancel c)
    (ch_closed c) (ch_open c) (ch_transfers c) (ch_waits c) (ch_posted c) (ch_incoming c) (ch_sent c)
    (ch_observed c).

Definition with_operations (ops : gmap nat (Operation nat)) (c : Channel) : Channel :=
  mkChannel (ch_requests c) ops (ch_queue c) (ch_maximum_frame_size c) (ch_drain_on_cancel c)
    (ch_closed c) (ch_open c) (ch_transfers c) (ch_waits c) (ch_posted c) (ch_incoming c) (ch_sent c)
    (ch_observed c).

Definition with_queue (q : list nat) (c : Channel) : Channel :=
  mkChannel (ch_requests c) (ch_operations c) q (ch_maximum_frame_size c) (ch_drain_on_cancel c)
    (ch_closed c) (ch_open c) (ch_transfers c) (ch_waits c) (ch_posted c) (ch_incoming c) (ch_sent c)
    (ch_observed c).

Definition with_transfers (l : list (nat * transfer_kind)) (c : Channel) : Channel :=
  mkChannel (ch_requests c) (ch_operations c) (ch_queue c) (ch_maximum_frame_size c)
    (ch_drain_on_cancel c) (ch_closed c) (ch_open c) l (ch_waits c) (ch_posted c) (ch_incoming c)
    (ch_sent c) (ch_observed c).

Definition with_waits (l : list (nat * wait_kind)) (c : Channel) : Channel :=
  mkChannel (ch_requests c) (ch_operations c) (ch_queue c) (ch_maximum_frame_size c)
    (ch_drain_on_cancel c) (ch_closed c) (ch_open c) (ch_transfers c) l (ch_posted c) (ch_incoming c)
    (ch_sent c) (ch_observed c).

Definition with_posted (l : list task) (c : Channel) : Channel :=
  mkChannel (ch_requests c) (ch_operations c) (ch_queue c) (ch_maximum_frame_size c)
    (ch_drain_on_cancel c) (ch_closed c) (ch_open c) (ch_transfers c) (ch_waits c) l (ch_incoming c)
    (ch_sent c) (ch_observed c).

Definition with_stream (incoming sent : list Z) (c : Channel) : Channel :=
  mkChannel (ch_requests c) (ch_operations c) (ch_queue c) (ch_maximum_frame_size c)
    (ch_drain_on_cancel c) (ch_closed c) (ch_open c) (ch_transfers c) (ch_waits c) (ch_posted c)
    incoming sent (ch_observed c).

Definition with_closed (c : Channel) : Channel :=
  mkChannel (ch_requests c) (ch_operations c) (ch_queue c) (ch_maximum_frame_size c)
    (ch_drain_on_cancel c) true false (ch_transfers c) (ch_waits c) (ch_posted c) (ch_incoming c)
    (ch_sent c) (ch_observed c).

Definition with_open (open : bool) (c : Channel) : Channel :=
  mkChannel (ch_requests c) (ch_operations c) (ch_queue c) (ch_maximum_frame_size c)
    (ch_drain_on_cancel c) (ch_closed c) open (ch_transfers c) (ch_waits c) (ch_posted c)
    (ch_incoming c) (ch_sent c) (ch_observed c).

Definition observe (c : Channel) : Channel :=
  mkChannel (ch_requests c) (ch_operations c) (ch_queue c) (ch_maximum_frame_size c)
    (ch_drain_on_cancel c) (ch_closed c) (ch_open c) (ch_transfers c) (ch_waits c) (ch_posted c)
    (ch_incoming c) (ch_sent c) (S (ch_observed c)).

Definition set_request (r : nat) (rq : Request) (c : Channel) : Channel :=
  with_requests (<[r := rq]> (ch_requests c)) c.

Definition start_transfer (r : nat) (kind : transfer_kind) (c : Channel) : Channel :=
  with_transfers (ch_transfers c ++ [(r, kind)]) c.

Definition start_wait (r : nat) (kind : wait_kind) (c : Channel) : Channel :=
  with_waits (ch_waits c ++ [(r, kind)]) c.

Definition post (t : task) (c : Channel) : Channel := with_posted (ch_posted c ++ [t]) c.

Definition rq_activate (rq : Request) : Request :=
  mkRequest (rq_caller rq) (rq_operation rq) (rq_request rq) (rq_framing rq) (rq_header rq)
    (rq_fragment rq) (rq_response rq) (rq_completion rq) (rq_enqueued rq) true (rq_done rq).

Definition rq_enqueue (rq : Request) : Request :=
  mkRequest (rq_caller rq) (rq_operation rq) (rq_request rq) (rq_framing rq) (rq_header rq)
    (rq_fragment rq) (rq_response rq) (rq_completion rq) true (rq_active rq) (rq_done rq).

(** Overwriting the first bytes of a buffer. *)
Definition fill (bytes buffer : list Z) : list Z := bytes ++ drop (length bytes) buffer.

Definition rq_buffers (header fragment response : list Z) (rq : Request) : Request :=
  mkRequest (rq_caller rq) (rq_operation rq) (rq_request rq) (rq_framing rq) header fragment response
    (rq_completion rq) (rq_enqueued rq) (rq_active rq) (rq_done rq).

(** [*request->operation]; [None] when the pointer is null or dangling. *)
Definition operation_of (rq : Request) (c : Channel) : option (Operation nat) :=
  o ← rq_operation rq; ch_operations c !! o.

(** ** Finishing and starting requests *)

(** [pop_front], or [find] and [erase]. *)
Fixpoint erase_first (r : nat) (queue : list nat) : list nat :=
  match queue with
  | [] => []
  | q :: queue => if (q =? r)%nat then queue else q :: erase_first r queue
  end.

(** [finish] up to the call of [start_next]; [promise::set_value] throws when the
    promise has a value. *)
Definition finish_request (r : nat) (proposed : Z) (rq : Request) (c : Channel) : option Channel :=
  o ← rq_operation rq;
  op ← ch_operations c !! o;
  let '(status, op') :=
    if completed op then (op_result op, op)
    else if proposed <? VI_SUCCESS then
      let '(won, op') := try_complete proposed op in
      (if won then proposed else op_result op', op')
    else (proposed, op) in
  guard (rq_completion rq = None);;
  let response := if VI_SUCCESS <=? status then rq_response rq else [] in
  let rq' := mkRequest (rq_caller rq) None (rq_request rq) (rq_framing rq) (rq_header rq)
    (rq_fragment rq) [] (Some (status, response)) (rq_enqueued rq) false true in
  Some (with_operations (<[o := op']> (ch_operations c))
    (with_queue (erase_first r (ch_queue c)) (set_request r rq' c))).

Section handlers.
  (** The call of [start_next] at the end of [finish]. *)
  Context (next : Channel -> option Channel).

Definition finish (r : nat) (proposed : Z) (c : Channel) : option Channel :=
  rq ← ch_requests c !! r;
  if rq_done rq then Some c
  else
    c' ← finish_request r proposed rq c;
    if ch_closed c' then Some c' else next c'.

Definition arm_timer (r : nat) (rq : Request) (c : Channel) : option Channel :=
  op ← operation_of rq c;
  match deadline_ op with
  | None => Some c
  | Some _ => Some (start_wait r deadline_wait c)
  end.

Definition begin_response (r : nat) (c : Channel) : option Channel :=
  rq ← ch_requests c !! r;
  if rq_done rq || bool_decide (rq_operation rq = None) then Some c
  else
    op ← operation_of rq c;
    if completed op then finish r (op_result op) c
    else
      match rq_framing rq with
      | framing_none => finish r VI_SUCCESS c
      | rpc_record => Some (start_transfer r read_rpc_marker_of c)
      | hislip_frame => Some (start_transfer r read_hislip_header_of c)
      end.

End handlers.

(** The loop of [start_next].  Each turn and each nested call works on a shorter
    queue; [fuel] beyond the length of the queue is enough. *)
Fixpoint start_next_with (fuel : nat) (c : Channel) : option Channel :=
  match fuel with
  | O => None
  | S fuel =>
      match ch_queue c with
      | [] => Some c
      | r :: queue =>
          rq ← ch_requests c !! r;
          if rq_done rq then start_next_with fuel (with_queue queue c)
          else
            op ← operation_of rq c;
            if completed op then
              c' ← finish (start_next_with fuel) r (op_result op) (with_queue queue c);
              start_next_with fuel c'
            else
              c' ← arm_timer r rq (set_request r (rq_activate rq) c);
              if bool_decide (rq_request rq = []) then begin_response (start_next_with fuel) r c'
              else Some (start_transfer r write_request c')
      end
  end.

Definition start_next (c : Channel) : option Channel := start_next_with (S (length (ch_queue c))) c.

Definition finish_error (r : nat) (error : error_code) (c : Channel) : option Channel :=
  rq ← ch_requests c !! r;
  if rq_done rq || bool_decide (rq_operation rq = None) then Some c
  else
    op ← operation_of rq c;
    match error with
    | ec_operation_aborted =>
        if completed op then finish start_next r (op_result op) c
        else finish start_next r (map_socket_error error) c
    | _ => finish start_next r (map_socket_error error) c
    end.

(** ** The handlers of the channel *)

Definition enqueue (r : nat) (c : Channel) : option Channel :=
  rq ← ch_requests c !! r;
  if rq_done rq then Some c
  else if ch_closed c || negb (ch_open c) then finish start_next r VI_ERROR_CONN_LOST c
  else
    op ← operation_of rq c;
    if completed op then finish start_next r (op_result op) c
    else
      let c := with_queue (ch_queue c ++ [r]) (set_request r (rq_enqueue rq) c) in
      if (length (ch_queue c) =? 1)%nat then start_next c else Some c.

Definition read_rpc_fragment (r : nat) (last : bool) (c : Channel) : option Channel :=
  rq ← ch_requests c !! r;
  if bool_decide (rq_fragment rq = []) then
    if last then finish start_next r VI_SUCCESS c
    else Some (start_transfer r read_rpc_marker_of c)
  else Some (start_transfer r (read_rpc_fragment_of last (length (rq_fragment rq))) c).

Definition read_hislip_payload (r : nat) (c : Channel) : option Channel :=
  rq ← ch_requests c !! r;
  if bool_decide (rq_fragment rq = []) then finish start_next r VI_SUCCESS c
  else Some (start_transfer r (read_hislip_payload_of (length (rq_fragment rq))) c).

(** The handler of the marker, [rq] having the marker in its header. *)
Definition rpc_marker_read (r : nat) (rq : Request) (c : Channel) : option Channel :=
  marker ← read_be32 (rq_header rq) 0;
  let size := Z.land marker 0x7FFFFFFF in
  if (ch_maximum_frame_size c <? size)
     || (ch_maximum_frame_size c - size <? Z.of_nat (length (rq_response rq)))
  then finish start_next r VI_ERROR_IO c
  else
    read_rpc_fragment r (negb (Z.land marker 0x80000000 =? 0))
      (set_request r (rq_buffers (rq_header rq) (replicate (Z.to_nat size) 0) (rq_response rq) rq) c).

Definition hislip_header_read (r : nat) (rq : Request) (c : Channel) : option Channel :=
  payload_size ← read_be64 (rq_header rq) 8;
  refused ← byte_is (fun b => negb (b =? 72)) (rq_header rq) 0 <||>
    byte_is (fun b => negb (b =? 83)) (rq_header rq) 1 <||>
    Some (ch_maximum_frame_size c <? payload_size) <||>
    Some (2 ^ 64 - 1 - 16 <? payload_size);
  if (refused : bool) then finish start_next r VI_ERROR_IO c
  else
    read_hislip_payload r
      (set_request r (rq_buffers (rq_header rq) (replicate (Z.to_nat payload_size) 0) (rq_header rq) rq) c).

(** The bytes a read has brought, when it ends. *)
Definition receive (r : nat) (kind : transfer_kind) (amount : nat) (rq : Request) (c : Channel)
  : Request * Channel :=
  let bytes := take amount (ch_incoming c) in
  match kind with
  | write_request =>
      (rq, with_stream (ch_incoming c) (ch_sent c ++ take amount (rq_request rq)) c)
  | read_rpc_marker_of | read_hislip_header_of =>
      (rq_buffers (fill bytes (rq_header rq)) (rq_fragment rq) (rq_response rq) rq,
       with_stream (drop amount (ch_incoming c)) (ch_sent c) c)
  | read_rpc_fragment_of _ _ | read_hislip_payload_of _ =>
      (rq_buffers (rq_header rq) (fill bytes (rq_fragment rq)) (rq_response rq) rq,
       with_stream (drop amount (ch_incoming c)) (ch_sent c) c)
  end.

(** How much a transfer asks for. *)
Definition transfer_size (kind : transfer_kind) (rq : Request) : nat :=
  match kind with
  | write_request => length (rq_request rq)
  | read_rpc_marker_of => 4
  | read_hislip_header_of => 16
  | read_rpc_fragment_of _ size | read_hislip_payload_of size => size
  end.

(** The handler of a transfer that has ended, [error] telling how. *)
Definition transfer_handler (r : nat) (kind : transfer_kind) (error : option error_code)
    (c : Channel) : option Channel :=
  match error with
  | Some error => finish_error r error c
  | None =>
      rq ← ch_requests c !! r;
      let append := rq_response rq ++ rq_fragment rq in
      match kind with
      | write_request => begin_response start_next r c
      | read_rpc_marker_of => rpc_marker_read r rq c
      | read_rpc_fragment_of last _ =>
          let c := set_request r (rq_buffers (rq_header rq) [] append rq) c in
          if last then finish start_next r VI_SUCCESS c
          else Some (start_transfer r read_rpc_marker_of c)
      | read_hislip_header_of => hislip_header_read r rq c
      | read_hislip_payload_of _ =>
          finish start_next r VI_SUCCESS (set_request r (rq_buffers (rq_header rq) [] append rq) c)
      end
  end.

(** [close]: every request of the queue ends. *)
Definition close_requests (pending : list nat) (c : Channel) : option Channel :=
  foldl (fun acc r =>
    c ← acc;
    rq ← ch_requests c !! r;
    if rq_done rq then Some c
    else
      op ← operation_of rq c;
      finish start_next r (if completed op then op_result op else VI_ERROR_CONN_LOST) c)
    (Some c) pending.

Definition close (c : Channel) : option Channel :=
  if ch_closed c then Some c else close_requests (ch_queue c) (with_closed c).

Definition cancel (r : nat) (c : Channel) : option Channel :=
  rq ← ch_requests c !! r;
  if rq_done rq then Some c
  else if rq_active rq then
    if ch_drain_on_cancel c then Some (start_wait r drain_wait (observe c)) else Some c
  else
    op ← operation_of rq c;
    finish start_next r (op_result op) c.

(** The handlers of an operation that are run post their tasks. *)
Definition post_cancels (handlers : list nat) (c : Channel) : Channel :=
  foldl (fun c r => post (cancel_task r) c) c handlers.

Definition wait_handler (r : nat) (kind : wait_kind) (c : Channel) : option Channel :=
  rq ← ch_requests c !! r;
  if rq_done rq then Some c
  else
    match kind with
    | drain_wait => close c
    | deadline_wait =>
        if bool_decide (rq_operation rq = None) then Some c
        else
          o ← rq_operation rq;
          op ← ch_operations c !! o;
          let '(_, handlers, op') := request_timeout op in
          Some (post_cancels handlers (with_operations (<[o := op']> (ch_operations c)) c))
    end.

Definition run_task (t : task) (c : Channel) : option Channel :=
  match t with
  | enqueue_task r => enqueue r c
  | cancel_task r => cancel r c
  | close_task => close c
  end.

(** [exchange] up to the wait for the result. *)
Definition exchange (o : nat) (request : list Z) (framing : ResponseFraming) (c : Channel)
  : option Channel :=
  op ← ch_operations c !! o;
  let r := length (ch_requests c) in
  let rq := mkRequest o (Some o) request framing (replicate 16 0) [] [] None false false false in
  let '(handlers, op') := set_cancel_handler r op in
  let c := with_operations (<[o := op']> (ch_operations c)) (with_requests (ch_requests c ++ [rq]) c) in
  Some (post (enqueue_task r) (post_cancels handlers c)).

(** What can happen to a channel. *)
Inductive event :=
| Exchange (o : nat) (request : list Z) (framing : ResponseFraming)
| RunTask
| TransferEnds (i : nat) (amount : nat) (error : option error_code)
| WaitEnds (i : nat) (cancelled : bool)
| PeerSends (bytes : list Z)
| CreateOperation (o : nat) (op : Operation nat)
| CompleteOperation (o : nat) (status : Z) (notify : bool)
| ReturnExchange (o : nat)
| DestroyOperation (o : nat)
| CallClose.

Definition handle (e : event) (c : Channel) : option Channel :=
  match e with
  | Exchange o request framing => exchange o request framing c
  | RunTask =>
      match ch_posted c with
      | [] => Some c
      | t :: posted => run_task t (with_posted posted c)
      end
  | TransferEnds i amount error =>
      match ch_transfers c !! i with
      | None => Some c
      | Some (r, kind) =>
          rq ← ch_requests c !! r;
          let '(rq, c) := receive r kind amount rq (with_transfers (delete i (ch_transfers c)) c) in
          transfer_handler r kind error (set_request r rq c)
      end
  | WaitEnds i cancelled =>
      match ch_waits c !! i with
      | None => Some c
      | Some (r, kind) =>
          let c := with_waits (delete i (ch_waits c)) c in
          if cancelled then Some c else wait_handler r kind c
      end
  | PeerSends bytes => Some (with_stream (ch_incoming c ++ bytes) (ch_sent c) c)
  | CreateOperation o op => Some (with_operations (<[o := op]> (ch_operations c)) c)
  | CompleteOperation o status notify =>
      op ← ch_operations c !! o;
      let '(_, handlers, op') :=
        if notify then complete_and_notify status op
        else let '(won, op') := try_complete status op in (won, [], op') in
      Some (post_cancels handlers (with_operations (<[o := op']> (ch_operations c)) c))
  | ReturnExchange o =>
      op ← ch_operations c !! o;
      Some (with_operations (<[o := clear_cancel_handler op]> (ch_operations c)) c)
  | DestroyOperation o => Some (with_operations (delete o (ch_operations c)) c)
  | CallClose => Some (post close_task c)
  end.

(** ** Connecting

    Three handlers race: the timer, the resolver and the connection; the first
    that finishes decides. *)

Record ConnectState := mkConnectState {
  cn_completion : option (Z * str);
  cn_done : bool }.

(** The lambda [finish]; the socket's state is the second component. *)
Definition connect_finish (status : Z) (value : str) (cn : ConnectState) (open : bool)
  : option (ConnectState * bool) :=
  if cn_done cn then Some (cn, open)
  else
    guard (cn_completion cn = None);;
    Some (mkConnectState (Some (status, value)) true, if status <? VI_SUCCESS then false else open).

Inductive connect_event :=
| ConnectTimer (cancelled : bool)
| Resolved (error : option error_code)
| Connected (error : option error_code) (address : str).

(** [async_connect] opens the socket when it succeeds. *)
Definition connect_handler (e : connect_event) (cn : ConnectState) (open : bool)
  : option (ConnectState * bool) :=
  match e with
  | ConnectTimer cancelled => if cancelled then Some (cn, open) else connect_finish VI_ERROR_TMO [] cn open
  | Resolved (Some error) => connect_finish (map_connect_error error) [] cn open
  | Resolved None => Some (cn, open)
  | Connected (Some error) _ => connect_finish (map_connect_error error) [] cn open
  | Connected None address => connect_finish VI_SUCCESS address cn (if cn_done cn then open else true)
  end.

(** ** Safety *)

Definition new_channel (maximum : Z) (drain : bool) (open : bool) : Channel :=
  mkChannel [] ∅ [] maximum drain false open [] [] [] [] [] 0.

(** What the callers and the system keep to: an operation outlives the calls
    made with it, and a transfer brings no more than was asked for. *)
Definition enabled (e : event) (c : Channel) : Prop :=
  match e with
  | Exchange o _ _ | CompleteOperation o _ _ | ReturnExchange o => is_Some (ch_operations c !! o)
  | TransferEnds i amount error =>
      match ch_transfers c !! i with
      | Some (r, kind) =>
          match ch_requests c !! r with
          | Some rq => (amount <= transfer_size kind rq)%nat /\
              (error = None -> amount = transfer_size kind rq) /\
              (kind ≠ write_request -> amount <= length (ch_incoming c))%nat
          | None => True
          end
      | None => False
      end
  | CreateOperation o op => ch_operations c !! o = None /\ cancel_handler_ op = None
  | DestroyOperation o =>
      forall r rq, ch_requests c !! r = Some rq -> rq_caller rq = o -> is_Some (rq_completion rq)
  | RunTask | WaitEnds _ _ | PeerSends _ | CallClose => True
  end.

Definition channel_step (c c' : Channel) : Prop := exists e, enabled e c /\ handle e c = Some c'.

(** A request that is done has let go of its operation and has its result; one
    that is not done has an operation that exists, and no result yet. *)
Definition request_ok (c : Channel) (rq : Request) : Prop :=
  length (rq_header rq) = 16%nat /\
  if rq_done rq then
    rq_operation rq = None /\
    exists status response, rq_completion rq = Some (status, response) /\
      (status < VI_SUCCESS -> response = [])
  else
    rq_operation rq = Some (rq_caller rq) /\ is_Some (ch_operations c !! rq_caller rq) /\
    rq_completion rq = None.

Definition task_request (t : task) : option nat :=
  match t with enqueue_task r | cancel_task r => Some r | close_task => None end.

Definition enqueues (t : task) : option nat :=
  match t with enqueue_task r => Some r | _ => None end.

(** Tasks and cancellation handlers name requests; each request is enqueued once. *)
Definition posted_ok (c : Channel) : Prop :=
  (forall t r, t ∈ ch_posted c -> task_request t = Some r -> is_Some (ch_requests c !! r)) /\
  (forall r rq, enqueue_task r ∈ ch_posted c -> ch_requests c !! r = Some rq -> rq_enqueued rq = false) /\
  NoDup (omap enqueues (ch_posted c)) /\
  (forall o op r, ch_operations c !! o = Some op -> cancel_handler_ op = Some r ->
     is_Some (ch_requests c !! r)).

Record channel_inv (c : Channel) : Prop := {
  ci_request r rq : ch_requests c !! r = Some rq -> request_ok c rq;
  ci_queue r : r ∈ ch_queue c -> exists rq, ch_requests c !! r = Some rq /\ rq_done rq = false /\ rq_enqueued rq = true;
  ci_nodup : NoDup (ch_queue c);
  ci_transfers r kind : (r, kind) ∈ ch_transfers c -> is_Some (ch_requests c !! r);
  ci_waits r kind : (r, kind) ∈ ch_waits c -> is_Some (ch_requests c !! r);
  ci_posted : posted_ok c }.

Definition channel_ok (c : Channel) : Prop :=
  channel_inv c /\ (ch_closed c = true -> ch_queue c = []).

(** Results are final, and a request that fails has completed its operation. *)
Definition settles (c c' : Channel) : Prop :=
  forall r rq, ch_requests c !! r = Some rq ->
    exists rq', ch_requests c' !! r = Some rq' /\ rq_caller rq' = rq_caller rq /\
      (rq_done rq = true -> rq_done rq' = true /\ rq_completion rq' = rq_completion rq) /\
      (rq_done rq = false -> forall status response, rq_completion rq' = Some (status, response) ->
         status < VI_SUCCESS -> exists op', ch_operations c' !! rq_caller rq = Some op' /\
           completed op' = true /\ op_result op' = status).

(** What a handler does to the channel. *)
Record evolves (c c' : Channel) : Prop := {
  ev_inv : channel_inv c';
  ev_settles : settles c c';
  ev_operations o op : ch_operations c !! o = Some op ->
    exists op', ch_operations c' !! o = Some op' /\ keeps_result op op';
  ev_closed : ch_closed c' = ch_closed c;
  ev_queue : ch_queue c' `sublist_of` ch_queue c }.

(** *** The relation *)

Lemma settles_refl c : channel_inv c -> settles c c.
Proof.
  intros Hi r rq Hr. exists rq. split; [done|]. split; [done|]. split; [done|].
  intros Hd st resp Hc. destruct (ci_request c Hi r rq Hr) as [_ Hok]. rewrite Hd in Hok.
  destruct Hok as (_ & _ & Hn). congruence.
Qed.

Lemma evolves_refl c : channel_inv c -> evolves c c.
Proof. intros Hi. split; [done|by apply settles_refl|intros o op Ho; by exists op|done|done]. Qed.

Lemma evolves_trans c1 c2 c3 : evolves c1 c2 -> evolves c2 c3 -> evolves c1 c3.
Proof.
  intros [I1 S1 O1 C1 Q1] [I2 S2 O2 C2 Q2]. split; [done| | |congruence|by etrans].
  - intros r rq Hr. destruct (S1 r rq Hr) as (rq2 & Hr2 & Hc2 & Hd2 & Hn2).
    destruct (S2 r rq2 Hr2) as (rq3 & Hr3 & Hc3 & Hd3 & Hn3).
    exists rq3. split; [done|]. split; [congruence|]. split.
    + intros Hd. destruct (Hd2 Hd) as [Hd' He]. destruct (Hd3 Hd') as [? ?]. split; [done|congruence].
    + intros Hd st resp Hcomp Hst. destruct (rq_done rq2) eqn:E.
      * destruct (Hd3 eq_refl) as [_ He]. rewrite He in Hcomp.
        destruct (Hn2 Hd _ _ Hcomp Hst) as (op2 & Ho2 & Hcd & Hres).
        destruct (O2 _ _ Ho2) as (op3 & Ho3 & Hk). exists op3. split; [done|].
        unfold completed, op_result in *. by rewrite (Hk Hcd).
      * rewrite <- Hc2. by apply (Hn3 eq_refl st resp).
  - intros o op Ho. destruct (O1 o op Ho) as (op2 & Ho2 & K1). destruct (O2 o op2 Ho2) as (op3 & Ho3 & K2).
    exists op3. split; [done|]. by eapply keeps_result_trans.
Qed.

(** A change that touches neither requests nor operations nor the queue. *)
Definition refers_ok (c : Channel) : Prop :=
  (forall r kind, (r, kind) ∈ ch_transfers c -> is_Some (ch_requests c !! r)) /\
  (forall r kind, (r, kind) ∈ ch_waits c -> is_Some (ch_requests c !! r)) /\
  posted_ok c.

Lemma evolves_same c c' :
  channel_inv c -> ch_requests c' = ch_requests c -> ch_operations c' = ch_operations c ->
  ch_queue c' = ch_queue c -> ch_closed c' = ch_closed c -> refers_ok c' -> evolves c c'.
Proof.
  intros [Hr Hq Hn _ _ _] Er Eo Eq Ec (Ht & Hw & Hp).
  assert (channel_inv c') as Hi.
  { split; auto; rewrite ?Er, ?Eq; auto. intros r rq Hrq. specialize (Hr r rq Hrq).
    unfold request_ok in *. by rewrite Eo. }
  split; [done| | |done|by rewrite Eq].
  - intros r rq Hrq. destruct (settles_refl c' Hi r rq) as (rq' & H1 & H2 & H3 & H4); [by rewrite Er|].
    exists rq'. done.
  - intros o op Ho. exists op. by rewrite Eo.
Qed.

Lemma inv_refers c : channel_inv c -> refers_ok c.
Proof. intros [_ _ _ Ht Hw Hp]. done. Qed.

Lemma evolves_transfer c r kind :
  channel_inv c -> is_Some (ch_requests c !! r) -> evolves c (start_transfer r kind c).
Proof.
  intros Hi Hr. apply evolves_same; try done. destruct (inv_refers c Hi) as (Ht & Hw & Hp).
  split; [|done]. intros r' k'. cbn. rewrite elem_of_app, list_elem_of_singleton. naive_solver.
Qed.

Lemma evolves_wait c r kind :
  channel_inv c -> is_Some (ch_requests c !! r) -> evolves c (start_wait r kind c).
Proof.
  intros Hi Hr. apply evolves_same; try done. destruct (inv_refers c Hi) as (Ht & Hw & Hp).
  split; [done|split; [|done]]. intros r' k'. cbn. rewrite elem_of_app, list_elem_of_singleton. naive_solver.
Qed.

Lemma evolves_post c t :
  channel_inv c -> enqueues t = None ->
  (forall r, task_request t = Some r -> is_Some (ch_requests c !! r)) -> evolves c (post t c).
Proof.
  intros Hi Ht Hr. apply evolves_same; try done. destruct (inv_refers c Hi) as (Htr & Hw & Hp & Hf & Hn & Hh).
  split; [done|split; [done|]]. split; [|split; [|split; [|done]]].
  - intros t' r'. cbn. rewrite elem_of_app, list_elem_of_singleton. naive_solver.
  - intros r' rq'. cbn. rewrite elem_of_app, list_elem_of_singleton. intros [?| <-]; [eauto|done].
  - cbn. rewrite omap_app. cbn. rewrite Ht. by rewrite app_nil_r.
Qed.

Lemma evolves_run c t posted :
  channel_inv c -> ch_posted c = t :: posted -> evolves c (with_posted posted c).
Proof.
  intros Hi Hp. apply evolves_same; try done. destruct (inv_refers c Hi) as (Htr & Hw & Hpr & Hf & Hn & Hh).
  rewrite Hp in *. split; [done|split; [done|]]. split; [|split; [|split; [|done]]]; cbn.
  - intros t' r Ht. apply Hpr. by right.
  - intros r rq Ht. apply Hf. by right.
  - cbn in Hn. destruct (enqueues t); [by apply NoDup_cons in Hn as [_ ?]|done].
Qed.

(** A request changes, but not whether it is done. *)
Lemma evolves_set_request c r rq rq' :
  channel_inv c -> ch_requests c !! r = Some rq -> rq_caller rq' = rq_caller rq ->
  rq_operation rq' = rq_operation rq -> rq_completion rq' = rq_completion rq ->
  rq_done rq' = rq_done rq ->
  rq_enqueued rq' = rq_enqueued rq \/ rq_enqueued rq = false /\ enqueue_task r ∉ ch_posted c -> length (rq_header rq') = 16%nat ->
  evolves c (set_request r rq' c).
Proof.
  intros Hi Hr Hc Ho Hcm Hd Hen Hh. pose proof Hi as [Hrq Hq Hn Ht Hw Hp].
  assert (forall x, is_Some (ch_requests c !! x) -> is_Some (ch_requests (set_request r rq' c) !! x)) as Hsome.
  { intros x Hx. cbn. destruct (decide (x = r)) as [->|]; [|by rewrite list_lookup_insert_ne].
    rewrite list_lookup_insert_eq; [by eexists|]. by eapply lookup_lt_Some. }
  assert (forall x y, ch_requests (set_request r rq' c) !! x = Some y ->
    (x = r /\ y = rq') \/ (x ≠ r /\ ch_requests c !! x = Some y)) as Hlook.
  { intros x y. cbn. destruct (decide (x = r)) as [->|]; [|rewrite list_lookup_insert_ne by done; by right].
    rewrite list_lookup_insert_eq by (by eapply lookup_lt_Some). intros [= <-]. by left. }
  assert (channel_inv (set_request r rq' c)) as Hi'.
  { split; try (cbn; done).
    - intros x y [[-> ->]|[Hne Hx]]%Hlook; [|by apply (Hrq x)].
      destruct (Hrq r rq Hr) as [_ Hok]. split; [done|]. rewrite Hd, Ho, Hcm, Hc. exact Hok.
    - intros x Hx. destruct (Hq x Hx) as (y & Hy & Hdy & Hey). cbn. destruct (decide (x = r)) as [->|].
      + exists rq'. rewrite list_lookup_insert_eq by (by eapply lookup_lt_Some).
        split; [done|]. split; [congruence|]. destruct Hen as [|[Hen _]]; congruence.
      + exists y. by rewrite list_lookup_insert_ne.
    - intros x k Hx. by apply Hsome, (Ht x k).
    - intros x k Hx. by apply Hsome, (Hw x k).
    - destruct Hp as (Hp & Hf & Hnd & Hha). split; [|split; [|split; [done|]]].
      + intros t x Hx Htx. by apply Hsome, (Hp t x).
      + intros x y Hx [[-> ->]|[_ Hy]]%Hlook; [|by apply (Hf x)].
        destruct Hen as [->|[_ Hnot]]; [by apply (Hf r)|done].
      + intros o op x Hox Hx. by apply Hsome, (Hha o op). }
  split; [done| |intros o op Hox; by exists op|done|done].
  intros x y Hx. destruct (decide (x = r)) as [->|].
  - exists rq'. cbn. rewrite list_lookup_insert_eq by (by eapply lookup_lt_Some).
    assert (y = rq) as -> by congruence. split; [done|]. split; [done|]. split; [by rewrite Hd, Hcm|].
    intros Hd' st resp Hcomp. destruct (Hrq r rq Hr) as [_ Hok]. rewrite Hd' in Hok.
    destruct Hok as (_ & _ & Hnone). congruence.
  - exists y. cbn. rewrite list_lookup_insert_ne by done. split; [done|]. split; [done|]. split; [done|].
    intros Hd' st resp Hcomp. destruct (Hrq x y Hx) as [_ Hok]. rewrite Hd' in Hok.
    destruct Hok as (_ & _ & Hnone). congruence.
Qed.

(** *** Finishing *)

Lemma erase_first_sublist r queue : erase_first r queue `sublist_of` queue.
Proof.
  induction queue as [|q queue IH]; cbn; [done|]. destruct (q =? r)%nat.
  - by apply sublist_cons.
  - by apply sublist_skip.
Qed.

Lemma not_in_erase_first r queue : NoDup queue -> r ∉ erase_first r queue.
Proof.
  induction queue as [|q queue IH]; cbn; [intros _; apply not_elem_of_nil|].
  intros [Hq Hn]%NoDup_cons. destruct (Nat.eqb_spec q r) as [->|]; [done|].
  rewrite not_elem_of_cons. split; [done|]. by apply IH.
Qed.

(** The requests and operations after a request has finished. *)
Lemma finish_request_spec r proposed rq c :
  channel_inv c -> ch_requests c !! r = Some rq -> rq_done rq = false ->
  exists c', finish_request r proposed rq c = Some c' /\ evolves c c' /\
    ch_queue c' = erase_first r (ch_queue c) /\
    exists rq', ch_requests c' !! r = Some rq' /\ rq_done rq' = true.
Proof.
  intros Hi Hr Hd. pose proof Hi as [Hrq Hq Hn Ht Hw Hp].
  destruct (Hrq r rq Hr) as [Hh Hok]. rewrite Hd in Hok. destruct Hok as (Ho & [op Hop] & Hcomp).
  unfold finish_request. rewrite Ho. cbn [mbind option_bind]. rewrite Hop. cbn [mbind option_bind].
  set (pair := if completed op then (op_result op, op) else _).
  assert (exists status op', pair = (status, op') /\ keeps_result op op' /\
    cancel_handler_ op' = cancel_handler_ op /\
    (status < VI_SUCCESS -> completed op' = true /\ op_result op' = status)) as (status & op' & -> & Hk & Hhan & Hst).
  { unfold pair. destruct (completed op) eqn:Hc; [by exists (op_result op), op|].
    destruct (Z.ltb_spec proposed VI_SUCCESS) as [Hneg|Hpos].
    - rewrite try_complete_fresh by done. do 2 eexists. split; [reflexivity|]. split.
      + intros Hx. congruence.
      + split; [done|]. intros _. split; [|done]. unfold completed. cbn.
        apply negb_true_iff, Z.eqb_neq. unfold kPending, VI_SUCCESS in *. lia.
    - exists proposed, op. split; [done|]. split; [done|]. split; [done|lia]. }
  rewrite option_guard_True by done. cbn [mbind option_bind].
  set (rq' := mkRequest _ _ _ _ _ _ _ _ _ _ _).
  eexists. split; [reflexivity|].
  assert (r < length (ch_requests c))%nat as Hlt by (by eapply lookup_lt_Some).
  set (c' := with_operations _ _).
  assert (forall x, x ≠ r -> ch_requests c' !! x = ch_requests c !! x) as Hother
    by (intros x Hx; cbn; by apply list_lookup_insert_ne).
  assert (ch_requests c' !! r = Some rq') as Hself by (cbn; by rewrite list_lookup_insert_eq).
  assert (forall x, is_Some (ch_requests c !! x) -> is_Some (ch_requests c' !! x)) as Hsome.
  { intros x Hx. destruct (decide (x = r)) as [->|]; [by rewrite Hself|by rewrite Hother]. }
  assert (forall o x, ch_operations c !! o = Some x ->
    exists x', ch_operations c' !! o = Some x' /\ keeps_result x x') as Hops.
  { intros o x Hox. cbn. destruct (decide (o = rq_caller rq)) as [->|].
    - exists op'. rewrite lookup_insert_eq. split; [done|]. assert (x = op) as -> by congruence. exact Hk.
    - exists x. by rewrite lookup_insert_ne. }
  split; [|split; [done|by exists rq']].
  split; [split|..]; try done.
  - intros x y Hx. destruct (decide (x = r)) as [->|Hne].
    + rewrite Hself in Hx. injection Hx as <-. split; [done|]. cbn. split; [done|].
      exists status. eexists. split; [reflexivity|]. intros Hneg.
      by rewrite (proj2 (Z.leb_gt _ _)) by done.
    + rewrite Hother in Hx by done. destruct (Hrq x y Hx) as [Hhx Hokx]. split; [done|].
      destruct (rq_done y); [done|]. destruct Hokx as (? & [opx Hopx] & ?). split; [done|].
      split; [|done]. destruct (Hops _ _ Hopx) as (? & -> & _). by eexists.
  - intros x Hx. assert (x ≠ r) as Hne.
    { intros ->. by apply (not_in_erase_first r (ch_queue c)). }
    rewrite Hother by done. apply Hq. cbn in Hx.
    eapply elem_of_sublist; [exact Hx|apply erase_first_sublist].
  - cbn. eapply sublist_NoDup; [done|apply erase_first_sublist].
  - intros x k Hx. by apply Hsome, (Ht x k).
  - intros x k Hx. by apply Hsome, (Hw x k).
  - destruct Hp as (Hp & Hf & Hnd & Hha). split; [|split; [|split; [done|]]].
    + intros t x Hx Htx. by apply Hsome, (Hp t x).
    + intros x y Hx Hy. destruct (decide (x = r)) as [->|Hne].
      * rewrite Hself in Hy. injection Hy as <-. by apply (Hf r rq).
      * rewrite Hother in Hy by done. by apply (Hf x).
    + intros o x y Hox Hx. cbn in Hox. destruct (decide (o = rq_caller rq)) as [->|].
      * rewrite lookup_insert_eq in Hox. injection Hox as <-. apply Hsome, (Hha (rq_caller rq) op); [done|congruence].
      * rewrite lookup_insert_ne in Hox by done. by apply Hsome, (Hha o x).
  - intros x y Hx. destruct (decide (x = r)) as [->|Hne].
    + exists rq'. rewrite Hself. assert (y = rq) as -> by congruence. split; [done|]. split; [done|].
      split; [congruence|]. intros _ st resp [= <- <-] Hneg. exists op'.
      cbn. rewrite lookup_insert_eq. split; [done|]. by apply Hst.
    + exists y. rewrite Hother by done. split; [done|]. split; [done|]. split; [done|].
      intros Hdy st resp Hc. destruct (Hrq x y Hx) as [_ Hok]. rewrite Hdy in Hok.
      destruct Hok as (_ & _ & ?). congruence.
  - apply erase_first_sublist.
Qed.

(** *** Handlers return, and keep the invariant *)

Definition goes (c : Channel) (o : option Channel) : Prop := exists c', o = Some c' /\ evolves c c'.

Lemma goes_Some c c' : evolves c c' -> goes c (Some c').
Proof. intros He. by exists c'. Qed.

Lemma goes_here c : channel_inv c -> goes c (Some c).
Proof. intros Hi. by apply goes_Some, evolves_refl. Qed.

Lemma goes_trans c c1 o : evolves c c1 -> goes c1 o -> goes c o.
Proof. intros He (c' & -> & He'). exists c'. split; [done|by eapply evolves_trans]. Qed.

Lemma goes_bind c m k : goes c m -> (forall c1, evolves c c1 -> goes c1 (k c1)) -> goes c (m ≫= k).
Proof. intros (c1 & -> & He) Hk. cbn. eapply goes_trans; [done|auto]. Qed.

Lemma operation_exists c r rq :
  channel_inv c -> ch_requests c !! r = Some rq -> rq_done rq = false ->
  exists op, operation_of rq c = Some op /\ rq_operation rq = Some (rq_caller rq) /\
    ch_operations c !! rq_caller rq = Some op.
Proof.
  intros Hi Hr Hd. destruct (ci_request c Hi r rq Hr) as [_ Hok]. rewrite Hd in Hok.
  destruct Hok as (Ho & [op Hop] & _). exists op. unfold operation_of. rewrite Ho. done.
Qed.

Lemma request_stays c c' r : evolves c c' -> is_Some (ch_requests c !! r) -> is_Some (ch_requests c' !! r).
Proof. intros He [rq Hr]. destruct (ev_settles _ _ He r rq Hr) as (rq' & Hr' & _). by eexists. Qed.

Section with_next.
  Context (next : Channel -> option Channel).

(** [next] can go on wherever [r] is out of the queue. *)
Definition continues (r : nat) (c : Channel) : Prop :=
  forall c1, evolves c c1 -> ch_queue c1 = erase_first r (ch_queue c) -> goes c1 (next c1).

Lemma finish_goes r proposed c :
  channel_inv c -> is_Some (ch_requests c !! r) -> continues r c -> goes c (finish next r proposed c).
Proof.
  intros Hi [rq Hr] Hn. unfold finish. rewrite Hr. cbn [mbind option_bind].
  destruct (rq_done rq) eqn:Hd; [by apply goes_here|].
  destruct (finish_request_spec r proposed rq c Hi Hr Hd) as (c' & -> & He & Hq & _).
  cbn [mbind option_bind]. destruct (ch_closed c').
  - by apply goes_Some.
  - eapply goes_trans; [exact He|]. by apply Hn.
Qed.

Lemma begin_response_goes r c :
  channel_inv c -> is_Some (ch_requests c !! r) -> continues r c -> goes c (begin_response next r c).
Proof.
  intros Hi [rq Hr] Hn. unfold begin_response. rewrite Hr. cbn [mbind option_bind].
  destruct (rq_done rq) eqn:Hd; [by apply goes_here|]. cbn [orb].
  destruct (operation_exists c r rq Hi Hr Hd) as (op & -> & Ho & _). rewrite Ho.
  rewrite bool_decide_false by done. cbn [mbind option_bind].
  assert (is_Some (ch_requests c !! r)) as Hsome by by eexists.
  destruct (completed op); [by apply finish_goes|].
  destruct (rq_framing rq); [by apply finish_goes| |]; by apply goes_Some, evolves_transfer.
Qed.

End with_next.

Lemma evolves_pop c r queue :
  channel_inv c -> ch_queue c = r :: queue -> evolves c (with_queue queue c).
Proof.
  intros Hi Hq. pose proof Hi as [Hrq Hqs Hn Ht Hw Hp]. rewrite Hq in *.
  assert (channel_inv (with_queue queue c)) as Hi'.
  { split; auto; cbn.
    - intros x Hx. apply Hqs. by apply list_elem_of_further.
    - by apply NoDup_cons in Hn as [_ ?]. }
  split; [done| | |done|].
  - intros x y Hx. destruct (settles_refl _ Hi' x y Hx) as (z & Hz). by exists z.
  - intros o op Ho. by exists op.
  - rewrite Hq. by apply sublist_cons.
Qed.

Lemma arm_timer_spec c r rq :
  channel_inv c -> ch_requests c !! r = Some rq -> rq_done rq = false ->
  exists c', arm_timer r rq c = Some c' /\ evolves c c' /\ ch_queue c' = ch_queue c.
Proof.
  intros Hi Hr Hd. unfold arm_timer. destruct (operation_exists c r rq Hi Hr Hd) as (op & -> & _).
  cbn [mbind option_bind]. destruct (deadline_ op); eexists; (split; [reflexivity|]).
  - split; [|done]. apply evolves_wait; [done|by eexists].
  - split; [by apply evolves_refl|done].
Qed.

Lemma start_next_with_goes fuel : forall c,
  channel_inv c -> (length (ch_queue c) < fuel)%nat -> goes c (start_next_with fuel c).
Proof.
  induction fuel as [|fuel IH]; intros c Hi Hl; [lia|]. cbn [start_next_with].
  destruct (ch_queue c) as [|r queue] eqn:Hq; [by apply goes_here|]. cbn in Hl.
  destruct (ci_queue c Hi r) as (rq & Hr & Hd & _); [rewrite Hq; left|]. rewrite Hr. cbn [mbind option_bind].
  rewrite Hd. destruct (operation_exists c r rq Hi Hr Hd) as (op & Hop & Ho & _). rewrite Hop.
  cbn [mbind option_bind]. destruct (completed op) eqn:Hc.
  - pose proof (evolves_pop c r queue Hi Hq) as Hpop. eapply goes_trans; [exact Hpop|].
    assert (forall c1, evolves (with_queue queue c) c1 -> goes c1 (start_next_with fuel c1)) as Hnext.
    { intros c1 He. apply IH; [apply He|]. apply ev_queue, sublist_length in He. cbn in He. lia. }
    apply goes_bind; [|exact Hnext].
    apply finish_goes; [apply Hpop|cbn; by eexists|]. intros c1 He _. by apply Hnext.
  - assert (evolves c (set_request r (rq_activate rq) c)) as He1.
    { apply (evolves_set_request c r rq); try done; [by left|apply (ci_request c Hi r rq Hr)]. }
    set (c1 := set_request r (rq_activate rq) c) in *.
    assert (is_Some (ch_requests c1 !! r)) as [rq1 Hr1] by (eapply request_stays; [exact He1|by eexists]).
    assert (rq1 = rq_activate rq) as ->.
    { cbn in Hr1. rewrite list_lookup_insert_eq in Hr1 by (by eapply lookup_lt_Some). congruence. }
    eapply goes_trans; [exact He1|].
    destruct (arm_timer_spec c1 r (rq_activate rq) (ev_inv _ _ He1) Hr1 Hd) as (c2 & Harm & He2 & Hq2).
    change (arm_timer r rq c1) with (arm_timer r (rq_activate rq) c1). rewrite Harm.
    cbn [mbind option_bind]. eapply goes_trans; [exact He2|].
    assert (is_Some (ch_requests c2 !! r)) as Hr2 by (eapply request_stays; [exact He2|by eexists]).
    case_bool_decide; [|apply goes_Some, evolves_transfer; [apply He2|done]].
    apply begin_response_goes; [apply He2|done|]. intros c3 He3 Hq3. apply IH; [apply He3|].
    rewrite Hq3, Hq2. cbn [ch_queue c1 set_request with_requests]. rewrite Hq. cbn [erase_first].
    rewrite Nat.eqb_refl. lia.
Qed.

Lemma start_next_goes c : channel_inv c -> goes c (start_next c).
Proof. intros Hi. apply start_next_with_goes; [done|lia]. Qed.

Lemma start_next_continues r c : continues start_next r c.
Proof. intros c1 He _. apply start_next_goes, He. Qed.

Lemma finish_start_goes r proposed c :
  channel_inv c -> is_Some (ch_requests c !! r) -> goes c (finish start_next r proposed c).
Proof. intros. by apply finish_goes, start_next_continues. Qed.

Lemma finish_error_goes r error c :
  channel_inv c -> is_Some (ch_requests c !! r) -> goes c (finish_error r error c).
Proof.
  intros Hi [rq Hr]. unfold finish_error. rewrite Hr. cbn [mbind option_bind].
  destruct (rq_done rq) eqn:Hd; [by apply goes_here|]. cbn [orb].
  destruct (operation_exists c r rq Hi Hr Hd) as (op & -> & Ho & _). rewrite Ho.
  rewrite bool_decide_false by done. cbn [mbind option_bind].
  assert (is_Some (ch_requests c !! r)) as Hsome by by eexists.
  destruct error; try by apply finish_start_goes. destruct (completed op); by apply finish_start_goes.
Qed.

Lemma read_rpc_fragment_goes r last c :
  channel_inv c -> is_Some (ch_requests c !! r) -> goes c (read_rpc_fragment r last c).
Proof.
  intros Hi [rq Hr]. unfold read_rpc_fragment. rewrite Hr. cbn [mbind option_bind].
  assert (is_Some (ch_requests c !! r)) as Hsome by by eexists.
  case_bool_decide; [destruct last; [by apply finish_start_goes|]|]; by apply goes_Some, evolves_transfer.
Qed.

Lemma read_hislip_payload_goes r c :
  channel_inv c -> is_Some (ch_requests c !! r) -> goes c (read_hislip_payload r c).
Proof.
  intros Hi [rq Hr]. unfold read_hislip_payload. rewrite Hr. cbn [mbind option_bind].
  assert (is_Some (ch_requests c !! r)) as Hsome by by eexists.
  case_bool_decide; [by apply finish_start_goes|]. by apply goes_Some, evolves_transfer.
Qed.

Lemma evolves_buffers c r rq header fragment response :
  channel_inv c -> ch_requests c !! r = Some rq -> length header = 16%nat ->
  evolves c (set_request r (rq_buffers header fragment response rq) c).
Proof. intros Hi Hr Hh. apply (evolves_set_request c r rq); try done. by left. Qed.

Lemma lookup_is_Some (bytes : list Z) i : (i < length bytes)%nat -> is_Some (bytes !! i).
Proof. apply lookup_lt_is_Some. Qed.

Lemma transfer_handler_goes r kind error c :
  channel_inv c -> is_Some (ch_requests c !! r) -> goes c (transfer_handler r kind error c).
Proof.
  intros Hi [rq Hr]. unfold transfer_handler. assert (is_Some (ch_requests c !! r)) as Hsome by by eexists.
  destruct error as [error|]; [by apply finish_error_goes|]. rewrite Hr. cbn [mbind option_bind].
  pose proof (ci_request c Hi r rq Hr) as [Hh _].
  assert (forall fragment response, evolves c (set_request r (rq_buffers (rq_header rq) fragment response rq) c))
    as Hbuf by (intros; by apply evolves_buffers).
  assert (forall fragment response k, (forall c', channel_inv c' -> is_Some (ch_requests c' !! r) -> goes c' (k c')) ->
    goes c (k (set_request r (rq_buffers (rq_header rq) fragment response rq) c))) as Hset.
  { intros fragment response k Hk. eapply goes_trans; [apply Hbuf|]. apply Hk; [apply Hbuf|].
    eapply request_stays; [apply Hbuf|done]. }
  destruct kind as [| |last size| |size].
  - apply begin_response_goes; [done|done|]. apply start_next_continues.
  - unfold rpc_marker_read. destruct (read_be32_is_Some (rq_header rq) 0 ltac:(lia)) as [marker ->].
    cbn [mbind option_bind]. destruct (_ || _); [by apply finish_start_goes|].
    apply Hset. intros. by apply read_rpc_fragment_goes.
  - destruct last; [apply Hset; intros; by apply finish_start_goes|].
    apply (Hset _ _ (fun c => Some (start_transfer r read_rpc_marker_of c))).
    intros. by apply goes_Some, evolves_transfer.
  - unfold hislip_header_read. destruct (read_be64_is_Some (rq_header rq) 8 ltac:(lia)) as [size ->].
    unfold byte_is. destruct (lookup_is_Some (rq_header rq) 0 ltac:(lia)) as [b0 ->].
    destruct (lookup_is_Some (rq_header rq) 1 ltac:(lia)) as [b1 ->].
    cbn [mbind option_bind fmap option_fmap option_map].
    assert (exists refused, (Some (negb (b0 =? 72)) <||> Some (negb (b1 =? 83)) <||>
      Some (ch_maximum_frame_size c <? size) <||> Some (2 ^ 64 - 1 - 16 <? size)) = Some refused)
      as [refused ->].
    { unfold or_else. repeat case_match; by eexists. }
    cbn [mbind option_bind]. destruct refused; [by apply finish_start_goes|].
    apply Hset. intros. by apply read_hislip_payload_goes.
  - apply Hset. intros. by apply finish_start_goes.
Qed.

(** *** Tasks and timers *)

Lemma evolves_closed c : channel_inv c -> channel_inv (with_closed c).
Proof. intros [Hrq Hq Hn Ht Hw Hp]. by split. Qed.

(** [close] ends every request of the queue; it changes the [closed] flag, which
    [evolves] keeps. *)
Definition closes (c : Channel) (o : option Channel) : Prop :=
  exists c', o = Some c' /\ channel_inv c' /\ settles c c' /\
    (forall o op, ch_operations c !! o = Some op ->
       exists op', ch_operations c' !! o = Some op' /\ keeps_result op op') /\
    ch_closed c' = true /\ (ch_closed c = false -> ch_queue c' = []) /\
    ch_queue c' `sublist_of` ch_queue c.

Lemma close_requests_goes pending : forall c,
  channel_inv c -> ch_closed c = true -> Forall (fun r => is_Some (ch_requests c !! r)) pending ->
  exists c', close_requests pending c = Some c' /\ evolves c c' /\
    forall r, r ∈ pending -> r ∉ ch_queue c'.
Proof.
  unfold close_requests. induction pending as [|r pending IH]; intros c Hi Hc Hp.
  { exists c. split; [done|]. split; [by apply evolves_refl|]. intros r Hr. by apply not_elem_of_nil in Hr. }
  apply Forall_cons in Hp as [[rq Hr] Hp]. cbn [foldl mbind option_bind]. rewrite Hr. cbn [mbind option_bind].
  assert (exists c1, (if rq_done rq then Some c
    else op ← operation_of rq c;
      finish start_next r (if completed op then op_result op else VI_ERROR_CONN_LOST) c) = Some c1 /\
    evolves c c1 /\ r ∉ ch_queue c1) as (c1 & -> & He & Hnot).
  { destruct (rq_done rq) eqn:Hd.
    - exists c. split; [done|]. split; [by apply evolves_refl|]. intros Hin.
      destruct (ci_queue c Hi r Hin) as (rq' & Hr' & Hd' & _). congruence.
    - destruct (operation_exists c r rq Hi Hr Hd) as (op & -> & _). cbn [mbind option_bind].
      unfold finish. rewrite Hr. cbn [mbind option_bind]. rewrite Hd.
      destruct (finish_request_spec r (if completed op then op_result op else VI_ERROR_CONN_LOST) rq c Hi Hr Hd)
        as (c' & -> & He & Hq & _). cbn [mbind option_bind].
      rewrite (ev_closed _ _ He), Hc. exists c'. split; [done|]. split; [done|]. rewrite Hq.
      apply not_in_erase_first, (ci_nodup c Hi). }
  destruct (IH c1) as (c2 & Hfold & He2 & Hnot2).
  - apply He.
  - by rewrite (ev_closed _ _ He).
  - eapply Forall_impl; [exact Hp|]. intros x Hx. by eapply request_stays.
  - exists c2. split; [exact Hfold|]. split; [by eapply evolves_trans|].
    intros x [->|Hx]%elem_of_cons; [|by apply Hnot2]. intros Hin. apply Hnot.
    eapply elem_of_sublist; [exact Hin|apply (ev_queue _ _ He2)].
Qed.

Lemma close_closes c : channel_ok c -> closes c (close c).
Proof.
  intros [Hi Hq]. unfold close. destruct (ch_closed c) eqn:Hc.
  { exists c. split; [done|]. split; [done|]. split; [by apply settles_refl|].
    split; [intros o op Ho; by exists op|]. split; [done|]. split; [congruence|done]. }
  destruct (close_requests_goes (ch_queue c) (with_closed c) (evolves_closed c Hi) eq_refl)
    as (c' & Hcl & He & Hnot).
  { apply Forall_forall. intros r Hr. destruct (ci_queue c Hi r Hr) as (rq & Hrq & _). by eexists. }
  exists c'. split; [exact Hcl|]. split; [apply He|]. split; [exact (ev_settles _ _ He)|].
  split; [exact (ev_operations _ _ He)|]. split; [by rewrite (ev_closed _ _ He)|].
  split; [|exact (ev_queue _ _ He)]. intros _. destruct (ch_queue c') as [|x queue] eqn:Hx; [done|].
  exfalso. apply (Hnot x).
  - eapply elem_of_sublist; [|exact (ev_queue _ _ He)]. rewrite Hx. left.
  - left.
Qed.

Lemma cancel_goes r c :
  channel_inv c -> is_Some (ch_requests c !! r) -> goes c (cancel r c).
Proof.
  intros Hi [rq Hr]. unfold cancel. rewrite Hr. cbn [mbind option_bind].
  assert (is_Some (ch_requests c !! r)) as Hsome by by eexists.
  destruct (rq_done rq) eqn:Hd; [by apply goes_here|]. destruct (rq_active rq).
  - destruct (ch_drain_on_cancel c); [|by apply goes_here]. apply goes_Some.
    assert (evolves c (observe c)) as He by (apply evolves_same; try done; exact (inv_refers c Hi)).
    eapply evolves_trans; [exact He|]. apply evolves_wait; [apply He|done].
  - destruct (operation_exists c r rq Hi Hr Hd) as (op & -> & _). by apply finish_start_goes.
Qed.

(** *** Events *)

(** What every event but the end of an operation does. *)
Definition advances (c c' : Channel) : Prop :=
  channel_ok c' /\ settles c c' /\
  forall o op, ch_operations c !! o = Some op ->
    exists op', ch_operations c' !! o = Some op' /\ keeps_result op op'.

Definition moves (c : Channel) (o : option Channel) : Prop := exists c', o = Some c' /\ advances c c'.

Lemma goes_moves c o : channel_ok c -> goes c o -> moves c o.
Proof.
  intros [Hi Hq] (c' & -> & He). exists c'. split; [done|]. split; [|split; apply He].
  split; [apply He|]. rewrite (ev_closed _ _ He). intros Hc. specialize (Hq Hc).
  pose proof (ev_queue _ _ He) as Hs. rewrite Hq in Hs. by apply sublist_nil_r in Hs.
Qed.

Lemma moves_trans c c1 o : channel_ok c -> evolves c c1 -> moves c1 o -> moves c o.
Proof.
  intros Hok He (c' & -> & Hok' & Hs & Ho). exists c'. split; [done|]. split; [done|].
  assert (evolves c c1) as He' by done. split.
  - intros r rq Hr. destruct (ev_settles _ _ He r rq Hr) as (rq2 & Hr2 & Hc2 & Hd2 & Hn2).
    destruct (Hs r rq2 Hr2) as (rq3 & Hr3 & Hc3 & Hd3 & Hn3).
    exists rq3. split; [done|]. split; [congruence|]. split.
    + intros Hd. destruct (Hd2 Hd) as [Hd' Hq]. destruct (Hd3 Hd') as [? ?]. split; [done|congruence].
    + intros Hd st resp Hcomp Hst. destruct (rq_done rq2) eqn:E.
      * destruct (Hd3 eq_refl) as [_ Hq]. rewrite Hq in Hcomp.
        destruct (Hn2 Hd _ _ Hcomp Hst) as (op2 & Ho2 & Hcd & Hres).
        destruct (Ho _ _ Ho2) as (op3 & Ho3 & Hk). exists op3. split; [done|].
        unfold completed, op_result in *. by rewrite (Hk Hcd).
      * rewrite <- Hc2. by apply (Hn3 eq_refl st resp).
  - intros x op Hx. destruct (ev_operations _ _ He x op Hx) as (op2 & Ho2 & K1).
    destruct (Ho x op2 Ho2) as (op3 & Ho3 & K2). exists op3. split; [done|]. by eapply keeps_result_trans.
Qed.

Lemma evolves_ok c c1 : channel_ok c -> evolves c c1 -> channel_ok c1.
Proof.
  intros Hok He. destruct (goes_moves c (Some c1) Hok (goes_Some _ _ He)) as (c' & [= <-] & Hok' & _). done.
Qed.

Lemma closes_moves c o : channel_ok c -> closes c o -> moves c o.
Proof.
  intros [Hi Hq] (c' & -> & Hi' & Hs & Ho & Hc & Hopen & Hsub). exists c'. split; [done|].
  split; [split; [done|]|split; done]. intros _. destruct (ch_closed c); [|auto].
  rewrite Hq in Hsub by done. by apply sublist_nil_r in Hsub.
Qed.

Lemma advances_push c r rq :
  channel_ok c -> ch_requests c !! r = Some rq -> rq_done rq = false -> rq_enqueued rq = true ->
  r ∉ ch_queue c -> ch_closed c = false -> advances c (with_queue (ch_queue c ++ [r]) c).
Proof.
  intros [Hi _] Hr Hd He Hnot Hc. pose proof Hi as [Hrq Hq Hn Ht Hw Hp].
  assert (channel_inv (with_queue (ch_queue c ++ [r]) c)) as Hi'.
  { split; auto; cbn.
    - intros x. rewrite elem_of_app, list_elem_of_singleton. intros [Hx| ->]; [by apply Hq|by exists rq].
    - apply NoDup_app. split; [done|]. split; [|apply NoDup_singleton].
      intros x Hx ->%list_elem_of_singleton. done. }
  split; [split; [done|cbn; congruence]|]. split; [exact (settles_refl c Hi)|].
  intros o op Ho. by exists op.
Qed.

Lemma enqueue_moves r posted c :
  channel_ok c -> ch_posted c = enqueue_task r :: posted -> moves c (enqueue r (with_posted posted c)).
Proof.
  intros Hok Hp. pose proof Hok as [Hi Hcl]. pose proof (evolves_run c _ posted Hi Hp) as He0.
  eapply moves_trans; [done|exact He0|]. pose proof (evolves_ok _ _ Hok He0) as Hok0.
  destruct (ci_posted c Hi) as (Hpr & Hf & Hnd & _). rewrite Hp in Hpr, Hf, Hnd. cbn in Hnd.
  apply NoDup_cons in Hnd as [Hnot _].
  destruct (Hpr (enqueue_task r) r) as [rq Hr]; [left|done|].
  assert (rq_enqueued rq = false) as Hen by (apply (Hf r); [left|done]).
  set (c0 := with_posted posted c) in *. assert (ch_requests c0 !! r = Some rq) as Hr0 by done.
  assert (is_Some (ch_requests c0 !! r)) as Hsome by by eexists.
  pose proof (ev_inv _ _ He0) as Hi0.
  unfold enqueue. rewrite Hr0. cbn [mbind option_bind]. destruct (rq_done rq) eqn:Hd.
  { apply goes_moves; [done|by apply goes_here]. }
  destruct (_ || _) eqn:Hclosed; [apply goes_moves; [done|by apply finish_start_goes]|].
  apply orb_false_iff in Hclosed as [Hclosed _].
  destruct (operation_exists c0 r rq Hi0 Hr0 Hd) as (op & -> & _). cbn [mbind option_bind].
  destruct (completed op); [apply goes_moves; [done|by apply finish_start_goes]|].
  assert (r ∉ ch_queue c0) as Hnq.
  { intros Hin. destruct (ci_queue c0 Hi0 r Hin) as (rq' & Hr' & _ & He'). congruence. }
  assert (evolves c0 (set_request r (rq_enqueue rq) c0)) as He1.
  { apply (evolves_set_request c0 r rq); try done; [right|by apply (ci_request c0 Hi0 r rq)].
    split; [done|]. intros Hin. apply Hnot. apply list_elem_of_omap. by exists (enqueue_task r). }
  eapply moves_trans; [done|exact He1|]. pose proof (evolves_ok _ _ Hok0 He1) as Hok1.
  set (c1 := set_request r (rq_enqueue rq) c0) in *.
  destruct (advances_push c1 r (rq_enqueue rq) Hok1) as (Hok2 & Hs2 & Ho2); try done.
  { cbn. rewrite list_lookup_insert_eq by (by eapply lookup_lt_Some). done. }
  change (ch_queue c0) with (ch_queue c1). set (c2 := with_queue _ c1) in *.
  destruct (length (ch_queue c2) =? 1)%nat; [|by exists c2].
  destruct (start_next_goes c2) as (c3 & -> & He3); [apply Hok2|].
  exists c3. split; [done|]. split; [by eapply evolves_ok|]. split.
  - intros x y Hx. destruct (Hs2 x y Hx) as (y' & Hy' & _). change (ch_requests c2) with (ch_requests c1) in Hy'.
    assert (y' = y) as -> by congruence.
    exact (ev_settles _ _ He3 x y Hx).
  - intros o opx Hx. exact (ev_operations _ _ He3 o opx Hx).
Qed.

Lemma evolves_operation c o op op' :
  channel_inv c -> ch_operations c !! o = Some op -> keeps_result op op' ->
  (forall r, cancel_handler_ op' = Some r -> is_Some (ch_requests c !! r)) ->
  evolves c (with_operations (<[o := op']> (ch_operations c)) c).
Proof.
  intros Hi Ho Hk Hh. pose proof Hi as [Hrq Hq Hn Ht Hw (Hp & Hf & Hnd & Hha)].
  assert (forall x, is_Some (ch_operations c !! x) -> is_Some (<[o := op']> (ch_operations c) !! x)) as Hops.
  { intros x Hx. apply lookup_insert_is_Some. by destruct (decide (o = x)); [left|right]. }
  assert (channel_inv (with_operations (<[o := op']> (ch_operations c)) c)) as Hi'.
  { split; auto.
    - intros r rq Hr. destruct (Hrq r rq Hr) as [Hhd Hok]. split; [done|]. destruct (rq_done rq); [done|].
      destruct Hok as (? & ? & ?). split; [done|]. split; [by apply Hops|done].
    - split; [done|]. split; [done|]. split; [done|]. intros x y r. cbn.
      destruct (decide (x = o)) as [->|]; [rewrite lookup_insert_eq; intros [= <-]; apply Hh|].
      rewrite lookup_insert_ne by done. apply Hha. }
  split; [done| | |done|done].
  - intros r rq Hr. destruct (settles_refl _ Hi' r rq Hr) as (rq' & Hrq'). by exists rq'.
  - intros x y Hx. cbn. destruct (decide (x = o)) as [->|].
    + exists op'. rewrite lookup_insert_eq. split; [done|]. assert (y = op) as -> by congruence. done.
    + exists y. by rewrite lookup_insert_ne.
Qed.

Lemma evolves_post_cancels handlers : forall c,
  channel_inv c -> Forall (fun r => is_Some (ch_requests c !! r)) handlers ->
  evolves c (post_cancels handlers c).
Proof.
  unfold post_cancels. induction handlers as [|r handlers IH]; intros c Hi Hh; cbn; [by apply evolves_refl|].
  apply Forall_cons in Hh as [Hr Hh].
  assert (evolves c (post (cancel_task r) c)) as He.
  { apply evolves_post; [done|done|]. intros x [= <-]. done. }
  eapply evolves_trans; [exact He|]. apply IH; [apply He|exact Hh].
Qed.

(** Completing an operation runs the handler it has. *)
Lemma completing_goes c o op won handlers op' :
  channel_inv c -> ch_operations c !! o = Some op -> keeps_result op op' ->
  (forall r, r ∈ handlers \/ cancel_handler_ op' = Some r -> cancel_handler_ op = Some r) ->
  goes c (let '(_, handlers, op') := (won : bool, handlers, op') in
    Some (post_cancels handlers (with_operations (<[o := op']> (ch_operations c)) c))).
Proof.
  intros Hi Ho Hk Hh. apply goes_Some. destruct (ci_posted c Hi) as (_ & _ & _ & Hha).
  assert (evolves c (with_operations (<[o := op']> (ch_operations c)) c)) as He.
  { apply (evolves_operation c o op); [done|done|done|]. intros r Hr. apply (Hha o op); auto. }
  eapply evolves_trans; [exact He|]. apply evolves_post_cancels; [apply He|].
  apply Forall_forall. intros r Hr. apply (Hha o op); auto.
Qed.

Lemma notify_spec status (op : Operation nat) :
  exists won handlers op', complete_and_notify status op = (won, handlers, op') /\ keeps_result op op' /\
    forall r, r ∈ handlers \/ cancel_handler_ op' = Some r -> cancel_handler_ op = Some r.
Proof.
  unfold complete_and_notify. pose proof (keeps_result_try_complete status op) as Hl. unfold try_complete in *.
  destruct (result_ op =? kPending); do 3 eexists; (split; [reflexivity|]); (split; [exact Hl|]); cbn; intros r.
  - intros [Hr|]; [|done]. destruct (cancel_handler_ op); [|by apply not_elem_of_nil in Hr].
    by apply list_elem_of_singleton in Hr as ->.
  - intros [Hr%not_elem_of_nil|]; done.
Qed.

Lemma wait_handler_moves r kind c :
  channel_ok c -> is_Some (ch_requests c !! r) -> moves c (wait_handler r kind c).
Proof.
  intros Hok [rq Hr]. pose proof Hok as [Hi _]. unfold wait_handler. rewrite Hr. cbn [mbind option_bind].
  destruct (rq_done rq) eqn:Hd; [by apply goes_moves, goes_here|].
  destruct kind; [|by apply closes_moves, close_closes].
  destruct (operation_exists c r rq Hi Hr Hd) as (op & _ & Ho & Hop). rewrite Ho.
  rewrite bool_decide_false by done. cbn [mbind option_bind]. rewrite Hop. cbn [mbind option_bind].
  unfold request_timeout. destruct (notify_spec VI_ERROR_TMO op) as (won & handlers & op' & -> & Hl & Hh).
  apply goes_moves; [done|]. by eapply completing_goes.
Qed.

Lemma exchange_moves o request framing c :
  channel_ok c -> is_Some (ch_operations c !! o) -> moves c (exchange o request framing c).
Proof.
  intros Hok [op Ho]. pose proof Hok as [Hi Hcl]. pose proof Hi as [Hrq Hq Hn Ht Hw (Hp & Hf & Hnd & Hha)].
  unfold exchange. rewrite Ho. cbn [mbind option_bind].
  set (r := length (ch_requests c)). set (rq := mkRequest _ _ _ _ _ _ _ _ _ _ _).
  set (c1 := with_requests (ch_requests c ++ [rq]) c).
  assert (forall x y, ch_requests c !! x = Some y -> ch_requests c1 !! x = Some y) as Hkeep
    by (intros x y; apply lookup_app_l_Some).
  assert (forall x, is_Some (ch_requests c !! x) -> is_Some (ch_requests c1 !! x)) as Hsome
    by (intros x [y Hy]; exists y; auto).
  assert (ch_requests c1 !! r = Some rq) as Hr by (cbn; apply list_lookup_middle; done).
  assert (forall x y, ch_requests c1 !! x = Some y -> ch_requests c !! x = Some y \/ x = r /\ y = rq) as Hinv.
  { intros x y Hx. cbn in Hx. apply lookup_snoc_Some in Hx as [[_ Hx]|[-> ->]]; auto. }
  assert (channel_inv c1) as Hi1.
  { split; auto.
    - intros x y [Hx|[-> ->]]%Hinv; [by apply (Hrq x)|]. split; [done|]. cbn. split; [done|]. by rewrite Ho.
    - intros x Hx. destruct (Hq x Hx) as (y & Hy & Hyd). exists y. auto.
    - intros x k Hx. by apply Hsome, (Ht x k).
    - intros x k Hx. by apply Hsome, (Hw x k).
    - split; [|split; [|split; [done|]]].
      + intros t x Hx Htx. by apply Hsome, (Hp t x).
      + intros x y Hx [Hy|[-> ->]]%Hinv; [by apply (Hf x)|done].
      + intros x y z Hx Hy. by apply Hsome, (Hha x y). }
  assert (exists handlers op', set_cancel_handler r op = (handlers, op') /\ keeps_result op op' /\
    Forall (fun x => is_Some (ch_requests c1 !! x)) handlers /\
    (forall x, cancel_handler_ op' = Some x -> is_Some (ch_requests c1 !! x))) as (handlers & op' & -> & Hk & Hhs & Hh).
  { unfold set_cancel_handler. destruct (completed op) eqn:Hc; do 2 eexists; (split; [reflexivity|]).
    - split; [done|]. split; [apply Forall_singleton; by rewrite Hr|].
      intros x Hx. by apply Hsome, (Hha o op).
    - split; [intros; congruence|]. split; [apply Forall_nil_2|]. intros x [= <-]. by rewrite Hr. }
  set (c2 := with_operations (<[o := op']> (ch_operations c)) c1).
  assert (evolves c1 c2) as He2 by by apply (evolves_operation c1 o op).
  set (c3 := post_cancels handlers c2).
  assert (evolves c1 c3) as He3.
  { eapply evolves_trans; [exact He2|]. apply evolves_post_cancels; [apply He2|exact Hhs]. }
  assert (ch_posted c3 = ch_posted c ++ (cancel_task <$> handlers)) as Hposted.
  { unfold c3, post_cancels. clear. change (ch_posted c) with (ch_posted c2). generalize c2. clear c2.
    induction handlers as [|h handlers IH]; intros c2; cbn; [by rewrite app_nil_r|].
    rewrite IH. cbn. by rewrite <- app_assoc. }
  destruct (inv_refers c3 (ev_inv _ _ He3)) as (Ht3 & Hw3 & Hp3 & Hf3 & Hnd3 & Hha3).
  assert (ch_requests c3 = ch_requests c1) as Hreq.
  { unfold c3, post_cancels. clear. change (ch_requests c1) with (ch_requests c2). generalize c2. clear c2.
    induction handlers as [|h handlers IH]; intros c2; cbn; [done|]. by rewrite IH. }
  assert (omap enqueues (ch_posted c3) = omap enqueues (ch_posted c)) as Homap.
  { rewrite Hposted, omap_app. replace (omap enqueues (cancel_task <$> handlers)) with (@nil nat);
      [by rewrite app_nil_r|]. clear. by induction handlers. }
  assert (evolves c3 (post (enqueue_task r) c3)) as He4.
  { apply evolves_same; try done; [apply He3|]. split; [done|]. split; [done|]. split; [|split; [|split; [|done]]].
    - intros t x. cbn. rewrite elem_of_app, list_elem_of_singleton. intros [Ht'| ->]; [by apply Hp3|].
      intros [= <-]. rewrite Hreq, Hr. by eexists.
    - intros x y. cbn. rewrite elem_of_app, list_elem_of_singleton. intros [Ht'|[= ->]]; [by apply Hf3|].
      rewrite Hreq, Hr. by intros [= <-].
    - cbn. rewrite omap_app, Homap. cbn. apply NoDup_app. split; [done|]. split; [|apply NoDup_singleton].
      intros x (t & Ht' & Hx)%list_elem_of_omap ->%list_elem_of_singleton.
      destruct t as [x| |]; try done. injection Hx as ->.
      destruct (Hp (enqueue_task r) r Ht' eq_refl) as [y Hy]. apply lookup_lt_Some in Hy. unfold r in Hy. lia. }
  assert (evolves c1 (post (enqueue_task r) c3)) as He by by eapply evolves_trans.
  exists (post (enqueue_task r) c3). split; [done|]. split; [|split].
  - eapply evolves_ok; [|exact He]. by split.
  - intros x y Hx. exact (ev_settles _ _ He x y (Hkeep x y Hx)).
  - exact (ev_operations _ _ He).
Qed.

Lemma advances_refl c : channel_ok c -> advances c c.
Proof. intros Hok. split; [done|]. split; [by apply settles_refl, Hok|]. intros o op Ho. by exists op. Qed.

Lemma transfer_ends_moves i amount error c :
  channel_ok c -> enabled (TransferEnds i amount error) c -> moves c (handle (TransferEnds i amount error) c).
Proof.
  intros Hok Hen. pose proof Hok as [Hi _]. cbn in *.
  destruct (ch_transfers c !! i) as [[r kind]|] eqn:Hl; [|done].
  destruct (ci_transfers c Hi r kind) as [rq Hr]; [by eapply list_elem_of_lookup_2|]. rewrite Hr in *.
  cbn [mbind option_bind]. destruct Hen as (Ha & Hfull & Hin).
  set (c1 := with_transfers (delete i (ch_transfers c)) c).
  assert (evolves c c1) as He1.
  { apply evolves_same; try done. destruct (inv_refers c Hi) as (Ht & Hw & Hp). split; [|split; done].
    intros x k Hx. apply (Ht x k). eapply elem_of_submseteq; [exact Hx|]. apply submseteq_delete. }
  destruct (ci_request c Hi r rq Hr) as [Hh _].
  destruct (receive r kind amount rq c1) as [rq' c2] eqn:Hrec.
  assert (evolves c1 c2 /\ ch_requests c2 !! r = Some rq /\ rq_caller rq' = rq_caller rq /\
    rq_operation rq' = rq_operation rq /\ rq_completion rq' = rq_completion rq /\
    rq_done rq' = rq_done rq /\ rq_enqueued rq' = rq_enqueued rq /\ length (rq_header rq') = 16%nat)
    as (He2 & Hr2 & ? & ? & ? & ? & ? & ?).
  { assert (forall i s, evolves c1 (with_stream i s c1)) as Hstream.
    { intros i' s'. apply evolves_same; try done; [apply He1|]. exact (inv_refers c1 (ev_inv _ _ He1)). }
    assert (forall n, (n <= 16)%nat -> length (fill (take n (ch_incoming c1)) (rq_header rq)) = 16%nat) as Hfill.
    { intros n Hn. unfold fill. rewrite length_app, length_drop, Hh, length_take. lia. }
    destruct kind; injection Hrec as <- <-; (split; [apply Hstream|]); (split; [done|]);
      repeat (split; [done|]); try done; apply Hfill; cbn in Ha; lia. }
  eapply moves_trans; [done|by eapply evolves_trans|]. assert (channel_ok c2) as Hok2
    by (eapply evolves_ok; [|exact He2]; by eapply evolves_ok).
  assert (evolves c2 (set_request r rq' c2)) as He3
    by (apply (evolves_set_request c2 r rq); try done; [apply He2|by left]).
  eapply moves_trans; [done|exact He3|]. apply goes_moves; [by eapply evolves_ok|].
  apply transfer_handler_goes; [apply He3|]. eapply request_stays; [exact He3|by eexists].
Qed.

Lemma wait_ends_moves i cancelled c : channel_ok c -> moves c (handle (WaitEnds i cancelled) c).
Proof.
  intros Hok. pose proof Hok as [Hi _]. cbn.
  destruct (ch_waits c !! i) as [[r kind]|] eqn:Hl; [|by apply goes_moves, goes_here].
  destruct (ci_waits c Hi r kind) as [rq Hr]; [by eapply list_elem_of_lookup_2|].
  set (c1 := with_waits (delete i (ch_waits c)) c).
  assert (evolves c c1) as He1.
  { apply evolves_same; try done. destruct (inv_refers c Hi) as (Ht & Hw & Hp). split; [done|split; [|done]].
    intros x k Hx. apply (Hw x k). eapply elem_of_submseteq; [exact Hx|]. apply submseteq_delete. }
  destruct cancelled; [by apply goes_moves, goes_Some|].
  eapply moves_trans; [done|exact He1|]. apply wait_handler_moves; [by eapply evolves_ok|by eexists].
Qed.

Lemma run_task_moves c : channel_ok c -> moves c (handle RunTask c).
Proof.
  intros Hok. pose proof Hok as [Hi _]. cbn. destruct (ch_posted c) as [|t posted] eqn:Hp.
  { by apply goes_moves, goes_here. }
  pose proof (evolves_run c t posted Hi Hp) as He. destruct (ci_posted c Hi) as (Hpr & _). rewrite Hp in Hpr.
  destruct t as [r|r|]; cbn [run_task].
  - by apply enqueue_moves.
  - eapply moves_trans; [done|exact He|]. apply goes_moves; [by eapply evolves_ok|].
    apply cancel_goes; [apply He|]. apply (Hpr (cancel_task r) r); [left|done].
  - eapply moves_trans; [done|exact He|]. apply closes_moves; [by eapply evolves_ok|].
    apply close_closes. by eapply evolves_ok.
Qed.

Lemma try_spec status (op : Operation nat) :
  exists won op', try_complete status op = (won, op') /\ keeps_result op op' /\
    cancel_handler_ op' = cancel_handler_ op.
Proof.
  pose proof (keeps_result_try_complete status op) as Hl. unfold try_complete in *.
  destruct (result_ op =? kPending); by do 2 eexists.
Qed.

Lemma create_goes c o op :
  channel_inv c -> ch_operations c !! o = None -> cancel_handler_ op = None ->
  goes c (Some (with_operations (<[o := op]> (ch_operations c)) c)).
Proof.
  intros Hi Ho Hh. pose proof Hi as [Hrq Hq Hn Ht Hw (Hp & Hf & Hnd & Hha)].
  assert (forall x y, ch_operations c !! x = Some y -> <[o := op]> (ch_operations c) !! x = Some y) as Hops.
  { intros x y Hx. rewrite lookup_insert_ne; [done|]. intros ->. congruence. }
  apply goes_Some. assert (channel_inv (with_operations (<[o := op]> (ch_operations c)) c)) as Hi'.
  { split; auto.
    - intros r rq Hr. destruct (Hrq r rq Hr) as [Hhd Hok]. split; [done|]. destruct (rq_done rq); [done|].
      destruct Hok as (? & [x Hx] & ?). split; [done|]. split; [exists x; by apply Hops|done].
    - split; [done|]. split; [done|]. split; [done|]. intros x y r. cbn.
      destruct (decide (x = o)) as [->|]; [rewrite lookup_insert_eq; intros [= <-]; congruence|].
      rewrite lookup_insert_ne by done. apply Hha. }
  split; [done| | |done|done].
  - exact (settles_refl _ Hi').
  - intros x y Hx. exists y. split; [by apply Hops|done].
Qed.

Lemma destroy_ok c o :
  channel_ok c -> enabled (DestroyOperation o) c ->
  channel_ok (with_operations (delete o (ch_operations c)) c) /\
  settles c (with_operations (delete o (ch_operations c)) c).
Proof.
  intros [Hi Hcl] Hen. pose proof Hi as [Hrq Hq Hn Ht Hw (Hp & Hf & Hnd & Hha)]. cbn in Hen.
  assert (channel_inv (with_operations (delete o (ch_operations c)) c)) as Hi'.
  { split; auto.
    - intros r rq Hr. destruct (Hrq r rq Hr) as [Hhd Hok]. split; [done|].
      destruct (rq_done rq); [done|]. destruct Hok as (? & Hx & Hc). split; [done|]. split; [|done].
      cbn. rewrite lookup_delete_ne; [done|]. intros ->. destruct (Hen r rq Hr eq_refl). congruence.
    - split; [done|]. split; [done|]. split; [done|]. intros x y r. cbn.
      intros [_ Hx]%lookup_delete_Some. by apply (Hha x y). }
  split; [by split|]. exact (settles_refl _ Hi').
Qed.

(** A step settles what it finishes, and the channel stays well formed. *)
Lemma handle_ok e c :
  channel_ok c -> enabled e c ->
  exists c', handle e c = Some c' /\ channel_ok c' /\ settles c c'.
Proof.
  intros Hok Hen. pose proof Hok as [Hi Hcl].
  assert (forall o, moves c o -> exists c', o = Some c' /\ channel_ok c' /\ settles c c') as Hmoves.
  { intros o (c' & -> & ? & ? & _). by exists c'. }
  destruct e as [o request framing| |i amount error|i cancelled|bytes|o op|o status notify|o|o|].
  - apply Hmoves. by apply exchange_moves.
  - apply Hmoves. by apply run_task_moves.
  - apply Hmoves. by apply transfer_ends_moves.
  - apply Hmoves. by apply wait_ends_moves.
  - apply Hmoves, goes_moves, goes_Some; [done|]. apply evolves_same; try done. exact (inv_refers c Hi).
  - apply Hmoves, goes_moves; [done|]. by apply create_goes; destruct Hen.
  - apply Hmoves, goes_moves; [done|]. cbn in *. destruct Hen as [op Ho]. rewrite Ho. cbn [mbind option_bind].
    destruct notify.
    + destruct (notify_spec status op) as (won & handlers & op' & -> & Hl & Hh). by eapply completing_goes.
    + destruct (try_spec status op) as (won & op' & -> & Hl & Hh). eapply (completing_goes c o op); try done.
      intros r [Hr%not_elem_of_nil|Hr]; [done|congruence].
  - apply Hmoves, goes_moves; [done|]. cbn in *. destruct Hen as [op Ho]. rewrite Ho. cbn [mbind option_bind].
    apply goes_Some. by apply (evolves_operation c o op).
  - eexists. split; [reflexivity|]. by apply destroy_ok.
  - apply Hmoves, goes_moves, goes_Some; [done|]. by apply evolves_post.
Qed.

Lemma new_channel_ok maximum drain open : channel_ok (new_channel maximum drain open).
Proof.
  split; [|done]. split; cbn; try done.
  - intros r Hr. by apply not_elem_of_nil in Hr.
  - apply NoDup_nil_2.
  - intros r k Hr. by apply not_elem_of_nil in Hr.
  - intros r k Hr. by apply not_elem_of_nil in Hr.
  - split; [|split; [|split]]; cbn; try done.
    + intros t r Hr. by apply not_elem_of_nil in Hr.
    + apply NoDup_nil_2.
Qed.


(** A channel with a pending operation, on which an exchange has been started. *)
Definition sample_channel0 : Channel :=
  with_operations {[0%nat := mkOperation kPending None None]} (new_channel 1000 false true).

Definition sample_channel1 : Channel :=
  default sample_channel0 (exchange 0 [1] framing_none sample_channel0).

Definition sample_channel2 : Channel := default sample_channel1 (handle RunTask sample_channel1).

