(* ===== verification/ChannelFraming.v ===== *)
(** * What an exchange delivers: [backends/asio/request_channel.cpp]

    The reading of RPC records and HiSLIP frames by a request channel that is
    used for one exchange at a time, and what goes wrong when it is not. *)

From S2P Require Import Prelude Visa Operation Bytes BackendSession HislipProtocol RequestChannel.

(** ** One exchange at a time

    The sessions use a channel for one exchange at a time.  Such an exchange,
    with a peer that answers with one well-formed response, runs as follows:
    posted tasks first, then the transfer that is pending. *)

Definition drive (c : Channel) : option Channel :=
  match ch_posted c with
  | _ :: _ => handle RunTask c
  | [] =>
      match ch_transfers c with
      | [] => None
      | (r, kind) :: _ =>
          rq ← ch_requests c !! r;
          let size := transfer_size kind rq in
          match kind with
          | write_request => handle (TransferEnds 0 size None) c
          | _ =>
              if (size <=? length (ch_incoming c))%nat then handle (TransferEnds 0 size None) c else None
          end
      end
  end.

Definition drives (c c' : Channel) : Prop := drive c = Some c'.

(** A fragmented record of ONC RPC. *)
Fixpoint rpc_records (fragments : list (list Z)) : list Z :=
  match fragments with
  | [] => []
  | fragment :: rest =>
      be32 (Z.of_nat (length fragment) + if bool_decide (rest = []) then 2 ^ 31 else 0) ++ fragment ++
      rpc_records rest
  end.

(** [stream] is a response of this framing, delivered as [response]. *)
Definition framed (maximum : Z) (framing : ResponseFraming) (stream response : list Z) : Prop :=
  match framing with
  | framing_none => stream = [] /\ response = []
  | rpc_record => exists fragments, fragments ≠ [] /\ stream = rpc_records fragments /\
      response = concat fragments /\ Z.of_nat (length response) <= Z.min maximum (2 ^ 31 - 1)
  | hislip_frame => exists f, frame_ok f /\ stream = encode_frame f /\ response = stream /\
      Z.of_nat (length (f_payload f)) <= maximum
  end.

Definition idle (c : Channel) : Prop :=
  ch_queue c = [] /\ ch_transfers c = [] /\ ch_posted c = [] /\ ch_closed c = false /\ ch_open c = true.

Section alone.
  Context (c0 : Channel) (o : nat) (op : Operation nat).
  Hypothesis op_pending : completed op = false.

Abbreviation r0 := (length (ch_requests c0)).

(** The channel [c0] with the request [rq] added, and only it in the queue. *)
Definition alone (rq : Request) (queue : list nat) (transfers : list (nat * transfer_kind))
    (waits : list (nat * wait_kind)) (incoming sent : list Z) : Channel :=
  mkChannel (ch_requests c0 ++ [rq]) (<[o := op]> (ch_operations c0)) queue (ch_maximum_frame_size c0)
    (ch_drain_on_cancel c0) false true transfers waits [] incoming sent (ch_observed c0).

Definition mine (request : list Z) (framing : ResponseFraming) (header fragment response : list Z) : Request :=
  mkRequest o (Some o) request framing header fragment response None true true false.

Lemma alone_request rq queue transfers waits incoming sent :
  ch_requests (alone rq queue transfers waits incoming sent) !! r0 = Some rq.
Proof. cbn. by apply list_lookup_middle. Qed.

Lemma alone_set rq rq' queue transfers waits incoming sent :
  set_request r0 rq' (alone rq queue transfers waits incoming sent) =
    alone rq' queue transfers waits incoming sent.
Proof.
  unfold set_request, with_requests, alone. cbn. f_equal.
  rewrite <- (Nat.add_0_r r0) at 1. by rewrite insert_app_r.
Qed.

Lemma alone_operation request framing header fragment response queue transfers waits incoming sent :
  operation_of (mine request framing header fragment response)
    (alone (mine request framing header fragment response) queue transfers waits incoming sent) = Some op.
Proof. unfold operation_of, mine, alone. cbn. by rewrite lookup_insert_eq. Qed.

(** The result of the exchange. *)
Definition delivered (request response rest sent : list Z) (c : Channel) : Prop :=
  idle c /\ ch_incoming c = rest /\ ch_sent c = sent /\
  exists rq, ch_requests c !! r0 = Some rq /\ rq_completion rq = Some (VI_SUCCESS, response).

(** [start_next] on an empty queue. *)
Definition rests (next : Channel -> option Channel) : Prop := forall c, ch_queue c = [] -> next c = Some c.

Lemma rests_with fuel : rests (start_next_with (S fuel)).
Proof. intros c Hq. cbn. by rewrite Hq. Qed.

Lemma rests_start_next : rests start_next.
Proof. intros c Hq. unfold start_next. by apply rests_with. Qed.

Lemma finish_alone next request framing header fragment response waits incoming sent :
  rests next ->
  exists c, finish next r0 VI_SUCCESS
    (alone (mine request framing header fragment response) [r0] [] waits incoming sent) = Some c /\
    delivered request response incoming sent c.
Proof.
  intros Hnext. unfold finish. rewrite alone_request. cbn [mbind option_bind rq_done mine].
  unfold finish_request, mine, alone. cbn. rewrite lookup_insert_eq. cbn. rewrite op_pending. cbn.
  rewrite option_guard_True by done. cbn. rewrite Nat.eqb_refl. cbn. rewrite Hnext by done.
  eexists. split; [reflexivity|]. split; [done|]. split; [done|]. split; [done|].
  eexists. cbn. rewrite <- (Nat.add_0_r r0), insert_app_r. rewrite Nat.add_0_r. cbn.
  rewrite list_lookup_middle by done. split; [reflexivity|done].
Qed.

(** A request after a read has brought [bytes]. *)
Definition brought (kind : transfer_kind) (bytes : list Z) (rq : Request) : Request :=
  match kind with
  | write_request => rq
  | read_rpc_marker_of | read_hislip_header_of =>
      rq_buffers (fill bytes (rq_header rq)) (rq_fragment rq) (rq_response rq) rq
  | read_rpc_fragment_of _ _ | read_hislip_payload_of _ =>
      rq_buffers (rq_header rq) (fill bytes (rq_fragment rq)) (rq_response rq) rq
  end.

Lemma drive_read kind rq waits bytes rest sent c' :
  kind ≠ write_request -> transfer_size kind rq = length bytes ->
  transfer_handler r0 kind None (alone (brought kind bytes rq) [r0] [] waits rest sent) = Some c' ->
  drives (alone rq [r0] [(r0, kind)] waits (bytes ++ rest) sent) c'.
Proof.
  intros Hk Hs Hh. unfold drives, drive. cbn [ch_posted alone ch_transfers]. rewrite alone_request.
  cbn [mbind option_bind]. rewrite Hs.
  assert (handle (TransferEnds 0 (length bytes) None) (alone rq [r0] [(r0, kind)] waits (bytes ++ rest) sent)
    = Some c') as Hhandle.
  { unfold handle. cbn [ch_transfers alone lookup list_lookup].
    rewrite alone_request. cbn [mbind option_bind].
    assert (receive r0 kind (length bytes) rq
      (with_transfers (delete 0%nat [(r0, kind)]) (alone rq [r0] [(r0, kind)] waits (bytes ++ rest) sent)) =
      (brought kind bytes rq, alone rq [r0] [] waits rest sent)) as ->.
    { unfold receive. cbn [ch_incoming with_transfers alone]. rewrite take_app_length, drop_app_length.
      by destruct kind. }
    by rewrite alone_set. }
  assert ((length bytes <=? length (ch_incoming (alone rq [r0] [(r0, kind)] waits (bytes ++ rest) sent)))%nat
    = true) as Hle by (apply Nat.leb_le; cbn; rewrite length_app; lia).
  destruct kind; [done|..]; by rewrite Hle.
Qed.

Lemma fill_whole bytes buffer : length bytes = length buffer -> fill bytes buffer = bytes.
Proof. intros Hl. unfold fill. by rewrite Hl, drop_all, app_nil_r. Qed.

Section reading.
  Context (request : list Z) (waits : list (nat * wait_kind)) (rest sent : list Z).

(** *** HiSLIP frames *)

Lemma hislip_payload_alone header payload :
  exists c, rtc drives (alone (mine request hislip_frame header (replicate (length payload) 0) header) [r0]
      [(r0, read_hislip_payload_of (length payload))] waits (payload ++ rest) sent) c /\
    delivered request (header ++ payload) rest sent c.
Proof.
  destruct (finish_alone start_next request hislip_frame header [] (header ++ payload) waits rest sent rests_start_next) as (c & Hf & Hd).
  exists c. split; [|exact Hd]. apply rtc_once. apply drive_read; [done|done|].
  unfold brought. cbn [rq_fragment mine rq_header rq_response]. rewrite fill_whole by (by rewrite length_replicate).
  cbn [transfer_handler]. rewrite alone_request. cbn [mbind option_bind]. rewrite alone_set. exact Hf.
Qed.

Lemma hislip_header_alone f header :
  frame_ok f -> Z.of_nat (length (f_payload f)) <= ch_maximum_frame_size c0 -> length header = 16%nat ->
  exists c, rtc drives (alone (mine request hislip_frame header [] []) [r0]
      [(r0, read_hislip_header_of)] waits (encode_frame f ++ rest) sent) c /\
    delivered request (encode_frame f) rest sent c.
Proof.
  intros Hf Hmax Hh.
  set (head := take 16 (encode_frame f)).
  assert (encode_frame f = head ++ f_payload f) as Heq.
  { unfold head, encode_frame, encode. by rewrite <- (take_drop 16) at 1. }
  assert (length head = 16%nat) as Hhead by done.
  assert (read_be64 head 8 = Some (Z.of_nat (length (f_payload f)))) as Hsize.
  { pose proof (read_be64_app ([72; 83; MessageType_code (f_type f); f_control f] ++ be32 (f_parameter f))
      (Z.of_nat (length (f_payload f))) []) as Hr. destruct Hf as (_ & _ & _ & _ & Hl).
    rewrite app_nil_r in Hr. rewrite <- Hr by lia. unfold head, encode_frame, encode.
    rewrite u64_small by lia. done. }
  rewrite Heq, <- app_assoc.
  assert (forall c', transfer_handler r0 read_hislip_header_of None
    (alone (mine request hislip_frame head [] []) [r0] [] waits (f_payload f ++ rest) sent) = Some c' ->
    drives (alone (mine request hislip_frame header [] []) [r0] [(r0, read_hislip_header_of)] waits
      (head ++ f_payload f ++ rest) sent) c') as Hdrive.
  { intros c' Hc. apply drive_read; [done|done|]. unfold brought. cbn [rq_header mine].
    rewrite fill_whole by (by rewrite Hh). exact Hc. }
  cbn [transfer_handler] in Hdrive. rewrite alone_request in Hdrive. cbn [mbind option_bind] in Hdrive.
  unfold hislip_header_read in Hdrive. cbn [rq_header mine] in Hdrive. rewrite Hsize in Hdrive.
  cbn [mbind option_bind ch_maximum_frame_size alone] in Hdrive.
  assert ((byte_is (fun b => negb (b =? 72)) head 0 <||> byte_is (fun b => negb (b =? 83)) head 1 <||>
    Some (ch_maximum_frame_size c0 <? Z.of_nat (length (f_payload f))) <||>
    Some (2 ^ 64 - 1 - 16 <? Z.of_nat (length (f_payload f)))) = Some false) as Hchecks.
  { unfold byte_is. cbn. rewrite (proj2 (Z.ltb_ge _ _)) by done. rewrite (proj2 (Z.ltb_ge _ _)); [done|].
    destruct Hf as (_ & _ & _ & _ & Hl). lia. }
  rewrite Hchecks in Hdrive. cbn [mbind option_bind] in Hdrive. rewrite alone_set in Hdrive.
  rewrite Nat2Z.id in Hdrive. unfold read_hislip_payload in Hdrive. rewrite alone_request in Hdrive.
  cbn [mbind option_bind rq_fragment mine rq_buffers] in Hdrive.
  destruct (f_payload f) as [|b payload] eqn:Hp.
  - destruct (finish_alone start_next request hislip_frame head [] head waits rest sent rests_start_next) as (c & Hfin & Hd).
    exists c. rewrite !app_nil_r. split; [|exact Hd]. apply rtc_once, Hdrive.
    rewrite bool_decide_true by done. exact Hfin.
  - destruct (hislip_payload_alone head (b :: payload)) as (c & Hdr & Hd). exists c. split; [|exact Hd].
    eapply rtc_l; [|exact Hdr]. apply Hdrive. rewrite bool_decide_false by done.
    rewrite length_replicate. reflexivity.
Qed.

(** *** RPC records *)

Lemma marker_fields last size :
  0 <= size < 2 ^ 31 ->
  Z.land (size + if last : bool then 2 ^ 31 else 0) 0x7FFFFFFF = size /\
  negb (Z.land (size + if last then 2 ^ 31 else 0) 0x80000000 =? 0) = last /\
  0 <= size + (if last then 2 ^ 31 else 0) < 2 ^ 32.
Proof.
  intros Hs. split; [|split].
  - change 0x7FFFFFFF with (Z.ones 31). rewrite Z.land_ones by lia. destruct last.
    + rewrite <- (Z.mul_1_l (2 ^ 31)) at 1. rewrite Z.mod_add, Z.mod_small by lia. done.
    + rewrite Z.add_0_r. by apply Z.mod_small.
  - change 0x80000000 with (Z.shiftl 1 31). destruct last.
    + replace (size + 2 ^ 31) with (Z.lor (Z.shiftl 1 31) size) by (rewrite lor_shiftl_add by lia; lia).
      rewrite Z.land_lor_distr_l, Z.land_diag, (Z.land_comm size), land_shiftl_disjoint by lia. done.
    + rewrite Z.add_0_r, Z.land_comm. rewrite land_shiftl_disjoint by lia. done.
  - destruct last; lia.
Qed.

Lemma rpc_fragments_alone fragments : forall acc header,
  fragments ≠ [] -> length header = 16%nat ->
  Z.of_nat (length (acc ++ concat fragments)) <= Z.min (ch_maximum_frame_size c0) (2 ^ 31 - 1) ->
  exists c, rtc drives (alone (mine request rpc_record header [] acc) [r0]
      [(r0, read_rpc_marker_of)] waits (rpc_records fragments ++ rest) sent) c /\
    delivered request (acc ++ concat fragments) rest sent c.
Proof.
  induction fragments as [|fragment fragments IH]; intros acc header Hne Hh Hlen; [done|]. clear Hne.
  cbn [rpc_records concat] in *. set (last := bool_decide (fragments = [])).
  rewrite !length_app in Hlen.
  destruct (marker_fields last (Z.of_nat (length fragment)) ltac:(lia)) as (Hsize & Hlast & Hrange).
  set (marker := Z.of_nat (length fragment) + _) in *.
  rewrite <- !app_assoc. set (head := be32 marker ++ drop 4 header).
  assert (length head = 16%nat) as Hhead by (unfold head; rewrite length_app, length_drop, Hh; done).
  set (after := fragment ++ rpc_records fragments ++ rest).
  assert (forall c', read_rpc_fragment r0 last
    (alone (mine request rpc_record head (replicate (length fragment) 0) acc) [r0] [] waits after sent) = Some c' ->
    drives (alone (mine request rpc_record header [] acc) [r0] [(r0, read_rpc_marker_of)] waits
      (be32 marker ++ after) sent) c') as Hdrive.
  { intros c' Hc. apply drive_read; [done|done|]. unfold brought. cbn [rq_header mine].
    change (fill (be32 marker) header) with head.
    cbn [transfer_handler]. rewrite alone_request. cbn [mbind option_bind].
    unfold rpc_marker_read. cbn [rq_header mine rq_buffers rq_response ch_maximum_frame_size alone].
    assert (read_be32 head 0 = Some marker) as -> by (by apply read_be32_head). cbn [mbind option_bind].
    rewrite Hsize, Hlast. rewrite (proj2 (Z.ltb_ge _ _)) by lia. rewrite (proj2 (Z.ltb_ge _ _)) by lia.
    cbn [orb]. rewrite alone_set, Nat2Z.id. exact Hc. }
  unfold read_rpc_fragment in Hdrive. rewrite alone_request in Hdrive.
  cbn [mbind option_bind rq_fragment mine] in Hdrive.
  assert (fragment ≠ [] -> forall c', (if last then
      finish start_next r0 VI_SUCCESS (alone (mine request rpc_record head [] (acc ++ fragment)) [r0] [] waits
        (rpc_records fragments ++ rest) sent)
      else Some (alone (mine request rpc_record head [] (acc ++ fragment)) [r0] [(r0, read_rpc_marker_of)] waits
        (rpc_records fragments ++ rest) sent)) = Some c' ->
    rtc drives (alone (mine request rpc_record header [] acc) [r0] [(r0, read_rpc_marker_of)] waits
      (be32 marker ++ after) sent) c') as Hfragment.
  { intros Hne c' Hc. eapply rtc_l; [apply Hdrive; rewrite bool_decide_false; [reflexivity|]|apply rtc_once].
    { destruct fragment; done. }
    rewrite length_replicate. apply drive_read; [done|done|]. unfold brought. cbn [rq_fragment mine rq_header rq_response].
    rewrite fill_whole by (by rewrite length_replicate). cbn [transfer_handler]. rewrite alone_request.
    cbn [mbind option_bind]. rewrite alone_set. exact Hc. }
  destruct (decide (fragments = [])) as [Hnil|Hcons].
  - subst fragments. assert (last = true) as Hl by by apply bool_decide_true. rewrite Hl in *.
    cbn [concat]. rewrite app_nil_r.
    destruct (finish_alone start_next request rpc_record head [] (acc ++ fragment) waits rest sent rests_start_next) as (c & Hfin & Hd).
    exists c. split; [|exact Hd]. destruct (decide (fragment = [])) as [->|Hf].
    + apply rtc_once, Hdrive. rewrite bool_decide_true by done. rewrite app_nil_r in Hfin. exact Hfin.
    + by apply Hfragment.
  - assert (last = false) as Hl by by apply bool_decide_false. rewrite Hl in *.
    destruct (IH (acc ++ fragment) head) as (c & Hdr & Hd); [done|done|by rewrite !length_app; lia|].
    rewrite <- app_assoc in Hd. exists c. split; [|exact Hd].
    destruct (decide (fragment = [])) as [->|Hf].
    + eapply rtc_l; [apply Hdrive; rewrite bool_decide_true by done; reflexivity|].
      rewrite app_nil_r in Hdr. exact Hdr.
    + etrans; [|exact Hdr]. by apply Hfragment.
Qed.

End reading.

(** *** From the request to the response *)

Lemma begin_alone next request framing stream response rest waits sent :
  rests next -> framed (ch_maximum_frame_size c0) framing stream response ->
  exists c c', begin_response next r0 (alone (mine request framing (replicate 16 0) [] []) [r0] [] waits
      (stream ++ rest) sent) = Some c /\ rtc drives c c' /\ delivered request response rest sent c'.
Proof.
  intros Hnext Hfr. unfold begin_response. rewrite alone_request. cbn [mbind option_bind rq_done rq_operation mine orb].
  rewrite bool_decide_false by done. change (mkRequest o (Some o) request framing (replicate 16 0) [] [] None true
    true false) with (mine request framing (replicate 16 0) [] []).
  rewrite alone_operation. cbn [mbind option_bind]. rewrite op_pending. cbn [rq_framing mine].
  destruct framing; cbn [framed] in Hfr.
  - destruct Hfr as [-> ->].
    destruct (finish_alone next request framing_none (replicate 16 0) [] [] waits rest sent Hnext) as (c & Hfin & Hd).
    exists c, c. split; [exact Hfin|]. by split.
  - destruct Hfr as (fragments & Hne & -> & -> & Hlen).
    destruct (rpc_fragments_alone request waits rest sent fragments [] (replicate 16 0) Hne eq_refl Hlen)
      as (c & Hdr & Hd). eexists _, c. split; [reflexivity|]. by split.
  - destruct Hfr as (f & Hf & -> & -> & Hlen).
    destruct (hislip_header_alone request waits rest sent f (replicate 16 0) Hf Hlen eq_refl)
      as (c & Hdr & Hd). eexists _, c. split; [reflexivity|]. by split.
Qed.

Lemma write_alone request framing waits incoming sent c' :
  begin_response start_next r0 (alone (mine request framing (replicate 16 0) [] []) [r0] [] waits
    incoming (sent ++ request)) = Some c' ->
  drives (alone (mine request framing (replicate 16 0) [] []) [r0] [(r0, write_request)] waits incoming sent) c'.
Proof.
  intros Hc. unfold drives, drive. cbn [ch_posted alone ch_transfers]. rewrite alone_request.
  cbn [mbind option_bind transfer_size rq_request mine]. unfold handle. cbn [ch_transfers alone lookup list_lookup].
  rewrite alone_request. cbn [mbind option_bind receive rq_request mine]. rewrite firstn_all.
  match goal with |- transfer_handler _ _ _ (set_request _ _ ?c) = _ =>
    change c with (alone (mine request framing (replicate 16 0) [] []) [r0] [] waits incoming (sent ++ request)) end.
  rewrite alone_set. cbn [transfer_handler]. rewrite alone_request. exact Hc.
Qed.

End alone.

(** *** The start of a request *)

Lemma start_next_first r rq op c :
  ch_queue c = [r] -> ch_requests c !! r = Some rq -> rq_done rq = false ->
  operation_of rq c = Some op -> completed op = false ->
  start_next c =
    c' ← arm_timer r rq (set_request r (rq_activate rq) c);
    if bool_decide (rq_request rq = []) then begin_response (start_next_with 1) r c'
    else Some (start_transfer r write_request c').
Proof.
  intros Hq Hr Hd Ho Hpend. unfold start_next. rewrite Hq. cbn [length start_next_with]. rewrite Hq, Hr.
  cbn [mbind option_bind]. rewrite Hd, Ho. cbn [mbind option_bind]. by rewrite Hpend.
Qed.

Lemma enqueue_first r rq op c :
  ch_queue c = [] -> ch_closed c = false -> ch_open c = true ->
  ch_requests c !! r = Some rq -> rq_done rq = false ->
  operation_of rq c = Some op -> completed op = false ->
  enqueue r c = start_next (with_queue [r] (set_request r (rq_enqueue rq) c)).
Proof.
  intros Hq Hcl Hop Hr Hd Ho Hpend. unfold enqueue. rewrite Hr. cbn [mbind option_bind].
  rewrite Hd, Hcl, Hop, Ho. cbn [mbind option_bind orb negb]. rewrite Hpend, Hq. done.
Qed.

Lemma arm_timer_alone c0 o op request framing transfers waits incoming sent :
  let rq := mine o request framing (replicate 16 0) [] [] in
  let r := length (ch_requests c0) in
  forall rq', rq_operation rq' = Some o ->
  arm_timer r rq' (alone c0 o op rq [r] transfers waits incoming sent) =
    Some (alone c0 o op rq [r] transfers
      (waits ++ (if deadline_ op is Some _ then [(r, deadline_wait)] else [])) incoming sent).
Proof.
  intros rq r rq' Ho. unfold arm_timer, operation_of. rewrite Ho. cbn [mbind option_bind].
  assert (ch_operations (alone c0 o op rq [r] transfers waits incoming sent) !! o = Some op) as ->
    by apply lookup_insert_eq.
  cbn [mbind option_bind]. destruct (deadline_ op); [reflexivity|]. by rewrite app_nil_r.
Qed.

(** The task that enqueues a request of an idle channel starts it. *)
Lemma enqueue_alone c o (op : Operation nat) request framing c1 :
  let r := length (ch_requests c) in
  let waits := ch_waits c ++ (if deadline_ op is Some _ then [(r, deadline_wait)] else []) in
  let start := alone c o op (mine o request framing (replicate 16 0) [] []) [r] in
  completed op = false ->
  c1 = alone c o op (mkRequest o (Some o) request framing (replicate 16 0) [] [] None false false false) []
    [] (ch_waits c) (ch_incoming c) (ch_sent c) ->
  enqueue r c1 =
  if bool_decide (request = [])
  then begin_response (start_next_with 1) r (start [] waits (ch_incoming c) (ch_sent c))
  else Some (start [(r, write_request)] waits (ch_incoming c) (ch_sent c)).
Proof.
  intros r waits start Hpend ->.
  set (rq := mkRequest _ _ _ _ _ _ _ _ _ _ _).
  assert (forall rq' queue, operation_of (rq_enqueue rq) (alone c o op rq' queue [] (ch_waits c)
    (ch_incoming c) (ch_sent c)) = Some op) as Hop by (intros; apply lookup_insert_eq).
  rewrite (enqueue_first r rq op); [|done..|apply alone_request|done|by apply lookup_insert_eq|done].
  unfold r. rewrite alone_set. fold r.
  change (with_queue [r] (alone c o op (rq_enqueue rq) [] [] (ch_waits c) (ch_incoming c) (ch_sent c)))
    with (alone c o op (rq_enqueue rq) [r] [] (ch_waits c) (ch_incoming c) (ch_sent c)).
  rewrite (start_next_first r (rq_enqueue rq) op); [|done|apply alone_request|done|by apply lookup_insert_eq|done].
  unfold r. rewrite alone_set. fold r.
  change (rq_activate (rq_enqueue rq)) with (mine o request framing (replicate 16 0) [] []).
  unfold r. rewrite arm_timer_alone by done. cbn [mbind option_bind rq_request rq_enqueue rq]. reflexivity.
Qed.

(** C20: an exchange on an idle channel, whose operation is not completed
    meanwhile, sends its request and delivers exactly the response the peer has
    sent: one HiSLIP frame, the fragments of one RPC record put together, or
    nothing, as its framing says; the bytes behind it stay for the next
    exchange, and the channel is idle again. *)
Theorem exchange_delivers_response c o op request framing stream response rest :
  idle c -> ch_operations c !! o = Some op -> completed op = false ->
  framed (ch_maximum_frame_size c) framing stream response -> ch_incoming c = stream ++ rest ->
  exists c1 c2, exchange o request framing c = Some c1 /\ rtc drives c1 c2 /\
    idle c2 /\ ch_incoming c2 = rest /\ ch_sent c2 = ch_sent c ++ request /\
    exists rq, ch_requests c2 !! length (ch_requests c) = Some rq /\
      rq_completion rq = Some (VI_SUCCESS, response).
Proof.
  intros (Hq & Ht & Hp & Hcl & Hop) Ho Hpend Hfr Hin.
  set (r := length (ch_requests c)). set (op' := mkOperation (result_ op) (deadline_ op) (Some r)).
  assert (completed op' = false) as Hpend' by done.
  set (waits := ch_waits c ++ (if deadline_ op is Some _ then [(r, deadline_wait)] else [])).
  set (start := alone c o op' (mine o request framing (replicate 16 0) [] []) [r]).
  assert (exists c1, exchange o request framing c = Some c1 /\
    drive c1 = if bool_decide (request = [])
      then begin_response (start_next_with 1) r (start [] waits (ch_incoming c) (ch_sent c))
      else Some (start [(r, write_request)] waits (ch_incoming c) (ch_sent c))) as (c1 & Hex & Hdrive).
  { unfold exchange. rewrite Ho. cbn [mbind option_bind]. unfold set_cancel_handler. rewrite Hpend.
    cbn [post_cancels foldl]. eexists. split; [reflexivity|].
    unfold drive. cbn [ch_posted post with_posted with_operations with_requests]. rewrite Hp. cbn [app].
    unfold handle. cbn [ch_posted post with_posted with_operations with_requests]. rewrite Hp.
    cbn [app run_task]. apply (enqueue_alone c o op' request framing); [done|].
    destruct c. cbn in Hq, Ht, Hp, Hcl, Hop. by subst. }
  destruct (decide (request = [])) as [Hnil|Hne].
  - rewrite bool_decide_true in Hdrive by done.
    destruct (begin_alone c o op' Hpend' _ request framing stream response rest waits (ch_sent c)
      (rests_with 0) Hfr)
      as (c' & c2 & Hb & Hdr & Hd). exists c1, c2. split; [done|]. split.
    + eapply rtc_l; [|exact Hdr]. unfold drives. rewrite Hdrive, Hin. exact Hb.
    + destruct Hd as (? & ? & ? & ?). rewrite Hnil, app_nil_r. done.
  - rewrite bool_decide_false in Hdrive by done.
    destruct (begin_alone c o op' Hpend' _ request framing stream response rest waits (ch_sent c ++ request)
      rests_start_next Hfr)
      as (c' & c2 & Hb & Hdr & Hd). exists c1, c2. split; [done|]. split; [|done].
    eapply rtc_l; [exact Hdrive|]. eapply rtc_l; [|exact Hdr].
    apply write_alone. rewrite Hin. exact Hb.
Qed.

(** A small channel: one operation, and a peer that has answered with an RPC
    record in two fragments and one byte more. *)
Definition sample_channel : Channel :=
  with_stream (rpc_records [[1; 2]; [3]] ++ [9]) []
    (with_operations {[0%nat := mkOperation kPending (Some 5) None]} (new_channel 1000 false true)).

Lemma exchange_delivers_response_witness :
  exists c1 c2, exchange 0 [7] rpc_record sample_channel = Some c1 /\ rtc drives c1 c2 /\
    idle c2 /\ ch_incoming c2 = [9] /\ ch_sent c2 = [7] /\
    exists rq, ch_requests c2 !! 0%nat = Some rq /\ rq_completion rq = Some (VI_SUCCESS, [1; 2; 3]).
Proof.
  apply (exchange_delivers_response sample_channel 0 (mkOperation kPending (Some 5) None) [7] rpc_record
    (rpc_records [[1; 2]; [3]]) [1; 2; 3] [9]); try done.
  exists [[1; 2]; [3]]. repeat split; vm_compute; done.
Defined.

(** ** More than one request

    A request that ends while another one is active makes [finish] call
    [start_next], which starts the active request again: its bytes are written
    a second time. *)

Definition run_events (events : list event) (c : Channel) : option Channel :=
  foldl (fun acc e => c ← acc; handle e c) (Some c) events.

(** Two exchanges; the operation of the second one, still in the queue, is
    aborted while the first is being written. *)
Definition abort_of_a_waiting_request : list event :=
  [CreateOperation 0 (mkOperation kPending None None); CreateOperation 1 (mkOperation kPending None None);
   Exchange 0 [7; 8] framing_none; Exchange 1 [9] framing_none; RunTask; RunTask;
   CompleteOperation 1 VI_ERROR_ABORT true; RunTask].

Lemma active_request_is_sent_twice :
  (ch_transfers <$> run_events abort_of_a_waiting_request (new_channel 1000 false true)) =
    Some [(0%nat, write_request); (0%nat, write_request)] /\
  (ch_sent <$> run_events (abort_of_a_waiting_request ++ [TransferEnds 1 2 None; TransferEnds 0 2 None])
     (new_channel 1000 false true)) = Some [7; 8; 7; 8].
Proof. split; vm_compute; reflexivity. Qed.
