(* ===== verification/AsyncStream.v ===== *)
(** * Asynchronous streams: [backends/asio/async_stream.h]

    The base class of the socket and serial sessions: a queue of reads and one
    of writes on a stream.  Every handler runs on the strand of the session, so
    a handler is one step on the state; which handler runs next (a posted task,
    the end of a transfer, an expired timer) is left open.  Callers own the
    operations: other threads may complete them at any time, also in the middle
    of a handler, and destroy them once the call has returned.  [None] is
    undefined behaviour or an exception out of a handler: a dangling reference to
    an operation, a promise set twice, a second transfer of one request (which
    would share its buffer). *)

From S2P Require Import Prelude Visa Operation BackendSession RequestChannel.

(** ** The state *)

Inductive side := reading | writing.

#[global] Instance side_eq_dec : EqDecision side.
Proof. solve_decision. Defined.

(** The members of [ReadRequest] beyond those of [RequestBase]; a
    [WriteRequest] has only its data. *)
Inductive request_kind :=
| ReadRequest (count : Z) (options : ReadOptions)
| WriteRequest.

Inductive stream_result :=
| ReadResult (status : Z) (data : list Z)
| WriteResult (status : Z) (count : Z).


(** [data] are the bytes read so far, or those to be written. *)
Record Request := mkRequest {
  rq_operation : nat;
  rq_kind : request_kind;
  rq_data : list Z;
  rq_enqueued : bool;
  rq_active : bool;
  rq_done : bool;
  rq_completion : option stream_result }.

Definition rq_side (rq : Request) : side :=
  match rq_kind rq with ReadRequest _ _ => reading | WriteRequest => writing end.

(** The functions passed to [on_stream]: of [flush], of [close], and those of
    the derived classes, which touch only the device. *)
Inductive function :=
| flush_function (mask : Z)
| close_function
| device_function (status : Z).

(** What is posted to the strand. *)
Inductive task :=
| enqueue_task (r : nat)
| cancel_task (r : nat)
| function_task (call : nat) (f : function).

(** The two directions of the wire as seen from outside, for the statements:
    what the peer has sent and is not yet read, what was written, all that
    the peer has sent, and what has left the session towards its callers. *)
Record Wire := mkWire {
  wi_incoming : list Z;
  wi_sent : list Z;
  wi_received : list Z;
  wi_taken : list Z }.

(** [as_transfers] maps a request with a transfer under way to whether its
    cancellation has been asked for; [as_calls] are the promises of
    [on_stream]. *)
Record AsyncStream := mkStream {
  as_requests : list Request;
  as_operations : gmap nat (Operation nat);
  as_read_queue : list nat;
  as_write_queue : list nat;
  as_read_ahead : list Z;
  as_terminal_status : Z;
  as_open : bool;
  as_transfers : gmap nat bool;
  as_waits : list nat;
  as_posted : list task;
  as_calls : list (option Z);
  as_clock : Z;
  as_wire : Wire }.

Definition as_queue (sd : side) (s : AsyncStream) : list nat :=
  match sd with reading => as_read_queue s | writing => as_write_queue s end.

Definition with_requests (l : list Request) (s : AsyncStream) : AsyncStream :=
  mkStream l (as_operations s) (as_read_queue s) (as_write_queue s) (as_read_ahead s)
    (as_terminal_status s) (as_open s) (as_transfers s) (as_waits s) (as_posted s) (as_calls s)
    (as_clock s) (as_wire s).

Definition with_operations (ops : gmap nat (Operation nat)) (s : AsyncStream) : AsyncStream :=
  mkStream (as_requests s) ops (as_read_queue s) (as_write_queue s) (as_read_ahead s)
    (as_terminal_status s) (as_open s) (as_transfers s) (as_waits s) (as_posted s) (as_calls s)
    (as_clock s) (as_wire s).

Definition with_queue (sd : side) (q : list nat) (s : AsyncStream) : AsyncStream :=
  mkStream (as_requests s) (as_operations s)
    (match sd with reading => q | writing => as_read_queue s end)
    (match sd with reading => as_write_queue s | writing => q end) (as_read_ahead s)
    (as_terminal_status s) (as_open s) (as_transfers s) (as_waits s) (as_posted s) (as_calls s)
    (as_clock s) (as_wire s).

Definition with_read_ahead (l : list Z) (s : AsyncStream) : AsyncStream :=
  mkStream (as_requests s) (as_operations s) (as_read_queue s) (as_write_queue s) l
    (as_terminal_status s) (as_open s) (as_transfers s) (as_waits s) (as_posted s) (as_calls s)
    (as_clock s) (as_wire s).

Definition with_terminal_status (status : Z) (s : AsyncStream) : AsyncStream :=
  mkStream (as_requests s) (as_operations s) (as_read_queue s) (as_write_queue s) (as_read_ahead s)
    status (as_open s) (as_transfers s) (as_waits s) (as_posted s) (as_calls s)
    (as_clock s) (as_wire s).

Definition with_transfers (open : bool) (m : gmap nat bool) (s : AsyncStream) : AsyncStream :=
  mkStream (as_requests s) (as_operations s) (as_read_queue s) (as_write_queue s) (as_read_ahead s)
    (as_terminal_status s) open m (as_waits s) (as_posted s) (as_calls s) (as_clock s) (as_wire s).

Definition with_waits (l : list nat) (s : AsyncStream) : AsyncStream :=
  mkStream (as_requests s) (as_operations s) (as_read_queue s) (as_write_queue s) (as_read_ahead s)
    (as_terminal_status s) (as_open s) (as_transfers s) l (as_posted s) (as_calls s)
    (as_clock s) (as_wire s).

Definition with_posted (l : list task) (s : AsyncStream) : AsyncStream :=
  mkStream (as_requests s) (as_operations s) (as_read_queue s) (as_write_queue s) (as_read_ahead s)
    (as_terminal_status s) (as_open s) (as_transfers s) (as_waits s) l (as_calls s)
    (as_clock s) (as_wire s).

Definition with_calls (l : list (option Z)) (s : AsyncStream) : AsyncStream :=
  mkStream (as_requests s) (as_operations s) (as_read_queue s) (as_write_queue s) (as_read_ahead s)
    (as_terminal_status s) (as_open s) (as_transfers s) (as_waits s) (as_posted s) l
    (as_clock s) (as_wire s).

Definition with_clock (now : Z) (s : AsyncStream) : AsyncStream :=
  mkStream (as_requests s) (as_operations s) (as_read_queue s) (as_write_queue s) (as_read_ahead s)
    (as_terminal_status s) (as_open s) (as_transfers s) (as_waits s) (as_posted s) (as_calls s)
    now (as_wire s).

Definition with_wire (w : Wire) (s : AsyncStream) : AsyncStream :=
  mkStream (as_requests s) (as_operations s) (as_read_queue s) (as_write_queue s) (as_read_ahead s)
    (as_terminal_status s) (as_open s) (as_transfers s) (as_waits s) (as_posted s) (as_calls s)
    (as_clock s) w.

Definition set_request (r : nat) (rq : Request) (s : AsyncStream) : AsyncStream :=
  with_requests (<[r := rq]> (as_requests s)) s.

Definition post (t : task) (s : AsyncStream) : AsyncStream := with_posted (as_posted s ++ [t]) s.

Definition rq_enqueue (rq : Request) : Request :=
  mkRequest (rq_operation rq) (rq_kind rq) (rq_data rq) true (rq_active rq) (rq_done rq)
    (rq_completion rq).

Definition rq_activate (active : bool) (rq : Request) : Request :=
  mkRequest (rq_operation rq) (rq_kind rq) (rq_data rq) (rq_enqueued rq) active (rq_done rq)
    (rq_completion rq).

Definition rq_with_data (data : list Z) (rq : Request) : Request :=
  mkRequest (rq_operation rq) (rq_kind rq) data (rq_enqueued rq) (rq_active rq) (rq_done rq)
    (rq_completion rq).

Definition rq_finish (result : stream_result) (rq : Request) : Request :=
  mkRequest (rq_operation rq) (rq_kind rq) (rq_data rq) (rq_enqueued rq) (rq_active rq) true
    (Some result).

Definition map_stream_error (error : error_code) : Z :=
  match error with
  | ec_eof | ec_connection_reset | ec_connection_aborted | ec_broken_pipe | ec_not_connected =>
      VI_ERROR_CONN_LOST
  | ec_access_denied => VI_ERROR_NPERMISSION
  | ec_operation_aborted | ec_timed_out | ec_other => VI_ERROR_IO
  end.

(** ** Reads *)

Section handlers.
  (** The operations that other threads complete while the handler runs, just
      before it tries to complete them itself, and the status they give. *)
  Context (race : nat -> option Z).

(** [request->operation.try_complete(status)]. *)
Definition claim (o : nat) (status : Z) (s : AsyncStream) : option (bool * AsyncStream) :=
  op ← as_operations s !! o;
  let op := match race o with Some other => (try_complete other op).2 | None => op end in
  let '(won, op') := try_complete status op in
  Some (won, with_operations (<[o := op']> (as_operations s)) s).

(** What a result hands to the caller. *)
Definition result_data (result : stream_result) : list Z :=
  match result with ReadResult _ data => data | WriteResult _ _ => [] end.

Definition hand_out (data : list Z) (s : AsyncStream) : AsyncStream :=
  let w := as_wire s in
  with_wire (mkWire (wi_incoming w) (wi_sent w) (wi_received w) (wi_taken w ++ data)) s.

(** [fulfill_read] and [fulfill_write]; [promise::set_value] throws when the
    promise has a value. *)
Definition fulfill (r : nat) (result : stream_result) (s : AsyncStream) : option AsyncStream :=
  rq ← as_requests s !! r;
  if rq_done rq then Some s
  else
    guard (rq_completion rq = None);;
    Some (hand_out (result_data result) (set_request r (rq_finish result rq) s)).

Definition fulfill_read (r : nat) (status : Z) (data : list Z) : AsyncStream -> option AsyncStream :=
  fulfill r (ReadResult status data).

Definition fulfill_write (r : nat) (status count : Z) : AsyncStream -> option AsyncStream :=
  fulfill r (WriteResult status count).

Definition is_termchar (options : ReadOptions) (byte : Z) : bool :=
  ro_termchar_enabled options && (byte =? ro_termchar options).

(** The loops over [read_ahead_] and over the received bytes: the request's data,
    the bytes that are left, and the status of the read where it ends. *)
Fixpoint consume (count : Z) (options : ReadOptions) (data bytes : list Z)
  : list Z * list Z * option Z :=
  match bytes with
  | [] => (data, [], None)
  | byte :: bytes =>
      let data := data ++ [byte] in
      if is_termchar options byte then (data, bytes, Some VI_SUCCESS_TERM_CHAR)
      else if Z.of_nat (length data) =? count then (data, bytes, Some VI_SUCCESS_MAX_CNT)
      else consume count options data bytes
  end.

Definition restore_partial_read (r : nat) (s : AsyncStream) : option AsyncStream :=
  rq ← as_requests s !! r;
  Some (with_read_ahead (rq_data rq ++ as_read_ahead s) (set_request r (rq_with_data [] rq) s)).

(** [pop_front], where the request is at the front. *)
Definition pop_if_front (sd : side) (r : nat) (s : AsyncStream) : AsyncStream :=
  match as_queue sd s with
  | front :: queue => if (front =? r)%nat then with_queue sd queue s else s
  | [] => s
  end.

Definition complete_active_read (next : AsyncStream -> option AsyncStream) (r : nat)
    (proposed : Z) (claim_completion : bool) (s : AsyncStream) : option AsyncStream :=
  rq ← as_requests s !! r;
  '(won, s) ← (if claim_completion then claim (rq_operation rq) proposed s else Some (true, s));
  '(status, s) ←
    (if (won : bool) then Some (proposed, s)
     else
       s ← restore_partial_read r s;
       op ← as_operations s !! rq_operation rq;
       Some (op_result op, s));
  rq ← as_requests s !! r;
  let s := pop_if_front reading r (set_request r (rq_activate false rq) s) in
  let data := if VI_SUCCESS <=? status then rq_data rq else [] in
  s ← fulfill_read r status data s;
  next s.

(** [async_read_some] into the buffer of the request. *)
Definition start_transfer (r : nat) (s : AsyncStream) : option AsyncStream :=
  guard (as_transfers s !! r = None);;
  Some (with_transfers (as_open s) (<[r := false]> (as_transfers s)) s).

Definition issue_read (r : nat) : AsyncStream -> option AsyncStream := start_transfer r.

Definition consume_read_ahead (next : AsyncStream -> option AsyncStream) (r : nat)
    (s : AsyncStream) : option AsyncStream :=
  rq ← as_requests s !! r;
  match rq_kind rq with
  | WriteRequest => None
  | ReadRequest count options =>
      let '(data, ahead, ended) := consume count options (rq_data rq) (as_read_ahead s) in
      let s := with_read_ahead ahead (set_request r (rq_with_data data rq) s) in
      match ended with
      | Some status => complete_active_read next r status true s
      | None =>
          if as_terminal_status s <? VI_SUCCESS then
            complete_active_read next r
              (if bool_decide (data = []) then as_terminal_status s else VI_SUCCESS) true s
          else issue_read r s
      end
  end.

Definition deadline_passed (op : Operation nat) (s : AsyncStream) : bool :=
  match deadline_ op with Some deadline => deadline <=? as_clock s | None => false end.

(** [try_complete], then the request leaves the queue with the operation's
    result. *)
Definition refuse (sd : side) (r : nat) (rq : Request) (status : Z) (queue : list nat)
    (s : AsyncStream) : option AsyncStream :=
  '(_, s) ← claim (rq_operation rq) status s;
  op ← as_operations s !! rq_operation rq;
  fulfill r
    (match sd with reading => ReadResult (op_result op) [] | writing => WriteResult (op_result op) 0 end)
    (with_queue sd queue s).

(** Each turn and each nested call works on a shorter queue; [fuel] beyond the
    length of the queue is enough. *)
Fixpoint start_next_read_with (fuel : nat) (s : AsyncStream) : option AsyncStream :=
  match fuel with
  | O => None
  | S fuel =>
      match as_read_queue s with
      | [] => Some s
      | r :: queue =>
          rq ← as_requests s !! r;
          if rq_done rq then start_next_read_with fuel (with_queue reading queue s)
          else
            op ← as_operations s !! rq_operation rq;
            if completed op then
              s ← fulfill_read r (op_result op) [] (with_queue reading queue s);
              start_next_read_with fuel s
            else if deadline_passed op s then
              s ← refuse reading r rq VI_ERROR_TMO queue s;
              start_next_read_with fuel s
            else if (as_terminal_status s <? VI_SUCCESS) && bool_decide (as_read_ahead s = []) then
              s ← refuse reading r rq (as_terminal_status s) queue s;
              start_next_read_with fuel s
            else
              consume_read_ahead (start_next_read_with fuel) r (set_request r (rq_activate true rq) s)
      end
  end.

Definition start_next_read (s : AsyncStream) : option AsyncStream :=
  start_next_read_with (S (length (as_read_queue s))) s.

(** [data.back() == termchar]. *)
Definition ends_with_termchar (options : ReadOptions) (data : list Z) : bool :=
  match last data with Some byte => is_termchar options byte | None => false end.

(** The handler of [async_read_some]. *)
Definition read_handler (r : nat) (amount : nat) (error : option error_code) (s : AsyncStream)
  : option AsyncStream :=
  rq ← as_requests s !! r;
  match rq_kind rq with
  | WriteRequest => None
  | ReadRequest count options =>
      let w := as_wire s in
      let '(data, rest, _) := consume count options (rq_data rq) (take amount (wi_incoming w)) in
      let s := with_wire (mkWire (drop amount (wi_incoming w)) (wi_sent w) (wi_received w) (wi_taken w))
        (with_read_ahead (as_read_ahead s ++ rest) (set_request r (rq_with_data data rq) s)) in
      let full := Z.of_nat (length data) =? count in
      match error with
      | Some error =>
          op ← as_operations s !! rq_operation rq;
          match error, completed op with
          | ec_operation_aborted, true =>
              s ← restore_partial_read r s;
              complete_active_read start_next_read r (op_result op) false s
          | _, _ =>
              if negb (bool_decide (data = [])) then
                complete_active_read start_next_read r
                  (if ends_with_termchar options data then VI_SUCCESS_TERM_CHAR
                   else if full then VI_SUCCESS_MAX_CNT else VI_SUCCESS) true
                  (with_terminal_status (map_stream_error error) s)
              else complete_active_read start_next_read r (map_stream_error error) true s
          end
      | None =>
          if ends_with_termchar options data then
            complete_active_read start_next_read r VI_SUCCESS_TERM_CHAR true s
          else if full then complete_active_read start_next_read r VI_SUCCESS_MAX_CNT true s
          else issue_read r s
      end
  end.

Definition arm_timeout (r : nat) (rq : Request) (s : AsyncStream) : option AsyncStream :=
  op ← as_operations s !! rq_operation rq;
  match deadline_ op with
  | None => Some s
  | Some _ => Some (with_waits (as_waits s ++ [r]) s)
  end.

(** ** Writes *)

Fixpoint start_next_write_with (fuel : nat) (s : AsyncStream) : option AsyncStream :=
  match fuel with
  | O => None
  | S fuel =>
      match as_write_queue s with
      | [] => Some s
      | r :: queue =>
          rq ← as_requests s !! r;
          if rq_done rq then start_next_write_with fuel (with_queue writing queue s)
          else
            op ← as_operations s !! rq_operation rq;
            if completed op then
              s ← fulfill_write r (op_result op) 0 (with_queue writing queue s);
              start_next_write_with fuel s
            else if deadline_passed op s then
              s ← refuse writing r rq VI_ERROR_TMO queue s;
              start_next_write_with fuel s
            else start_transfer r (set_request r (rq_activate true rq) s)
      end
  end.

Definition start_next_write (s : AsyncStream) : option AsyncStream :=
  start_next_write_with (S (length (as_write_queue s))) s.

(** The handler of [async_write]. *)
Definition write_handler (r : nat) (amount : nat) (error : option error_code) (s : AsyncStream)
  : option AsyncStream :=
  rq ← as_requests s !! r;
  op ← as_operations s !! rq_operation rq;
  let w := as_wire s in
  let s := with_wire (mkWire (wi_incoming w) (wi_sent w ++ take amount (rq_data rq)) (wi_received w)
    (wi_taken w)) s in
  '(status, count, s) ←
    match error with
    | Some error =>
        Some (match error, completed op with
              | ec_operation_aborted, true => op_result op
              | _, _ => map_stream_error error
              end, 0, s)
    | None =>
        '(won, s) ← claim (rq_operation rq) VI_SUCCESS s;
        if (won : bool) then Some (VI_SUCCESS, u32 (Z.of_nat amount), s)
        else op ← as_operations s !! rq_operation rq; Some (op_result op, 0, s)
    end;
  let s := pop_if_front writing r (set_request r (rq_activate false rq) s) in
  s ← fulfill_write r status count s;
  start_next_write s.

(** ** Both sides *)

Definition start_next (sd : side) : AsyncStream -> option AsyncStream :=
  match sd with reading => start_next_read | writing => start_next_write end.

(** [enqueue_read] and [enqueue_write]. *)
Definition enqueue (r : nat) (s : AsyncStream) : option AsyncStream :=
  rq ← as_requests s !! r;
  if rq_done rq then Some s
  else
    s ← arm_timeout r rq s;
    let sd := rq_side rq in
    let s := with_queue sd (as_queue sd s ++ [r]) (set_request r (rq_enqueue rq) s) in
    if (length (as_queue sd s) =? 1)%nat then start_next sd s else Some s.

(** [cancel_read] and [cancel_write]. *)
Definition cancel (r : nat) (s : AsyncStream) : option AsyncStream :=
  rq ← as_requests s !! r;
  if rq_done rq then Some s
  else if rq_active rq then
    Some (with_transfers (as_open s) (alter (fun _ => true) r (as_transfers s)) s)
  else
    let sd := rq_side rq in
    let s := if rq_enqueued rq then with_queue sd (erase_first r (as_queue sd s)) s else s in
    op ← as_operations s !! rq_operation rq;
    fulfill r
      (match sd with reading => ReadResult (op_result op) [] | writing => WriteResult (op_result op) 0 end)
      s.

(** ** Calls *)

(** [on_stream] up to the wait for the result. *)
Definition on_stream (f : function) (s : AsyncStream) : AsyncStream :=
  post (function_task (length (as_calls s)) f) (with_calls (as_calls s ++ [None]) s).

Definition discards_input (mask : Z) : bool :=
  negb (Z.land mask (Z.lor VI_READ_BUF_DISCARD VI_IO_IN_BUF_DISCARD) =? 0).

(** The functions of [flush] and [close]. *)
Definition run_function (f : function) (s : AsyncStream) : Z * AsyncStream :=
  match f with
  | flush_function mask =>
      (VI_SUCCESS,
       if discards_input mask then with_read_ahead [] (hand_out (as_read_ahead s) s) else s)
  | close_function => (VI_SUCCESS, with_transfers false ((fun _ => true) <$> as_transfers s) s)
  | device_function status => (status, s)
  end.

Definition run_task (t : task) (s : AsyncStream) : option AsyncStream :=
  match t with
  | enqueue_task r => enqueue r s
  | cancel_task r => cancel r s
  | function_task call f =>
      let '(status, s) := run_function f s in
      guard (as_calls s !! call = Some None);;
      Some (with_calls (<[call := Some status]> (as_calls s)) s)
  end.

Definition transfer_handler (r : nat) (amount : nat) (error : option error_code) (s : AsyncStream)
  : option AsyncStream :=
  rq ← as_requests s !! r;
  match rq_kind rq with
  | ReadRequest _ _ => read_handler r amount error s
  | WriteRequest => write_handler r amount error s
  end.

End handlers.

(** [flush] up to the wait: a status, or a function to run on the strand. *)
Definition flush (mask : Z) : Z + function :=
  if valid_flush_mask mask then inr (flush_function mask) else inl VI_ERROR_INV_MASK.

Definition read_stb (present : bool) : Z :=
  if present then VI_ERROR_NSUP_OPER else VI_ERROR_INV_PARAMETER.

Definition post_cancels (handlers : list nat) (s : AsyncStream) : AsyncStream :=
  foldl (fun s r => post (cancel_task r) s) s handlers.

(** [read] and [write] up to the wait for the result. *)
Definition start_request (o : nat) (kind : request_kind) (data : list Z) (s : AsyncStream)
  : option AsyncStream :=
  op ← as_operations s !! o;
  let r := length (as_requests s) in
  let rq := mkRequest o kind data false false false None in
  let '(handlers, op') := set_cancel_handler r op in
  let s := with_operations (<[o := op']> (as_operations s)) (with_requests (as_requests s ++ [rq]) s) in
  Some (post (enqueue_task r) (post_cancels handlers s)).

Definition read (o : nat) (count : Z) (options : ReadOptions) : AsyncStream -> option AsyncStream :=
  start_request o (ReadRequest count options) [].

Definition write (o : nat) (buffer : list Z) : AsyncStream -> option AsyncStream :=
  start_request o WriteRequest buffer.

(** The status and the bytes or the count that the call returns, and the end of
    the operation's cancellation handler. *)
Definition returns (result : stream_result) : Z * list Z * Z :=
  match result with
  | ReadResult status data =>
      if VI_SUCCESS <=? status then (status, data, u32 (Z.of_nat (length data))) else (status, [], 0)
  | WriteResult status count => (status, [], if VI_SUCCESS <=? status then count else 0)
  end.

(** The handler of the timer. *)
Definition wait_handler (r : nat) (s : AsyncStream) : option AsyncStream :=
  rq ← as_requests s !! r;
  if rq_done rq then Some s
  else
    op ← as_operations s !! rq_operation rq;
    let '(_, handlers, op') := request_timeout op in
    Some (post_cancels handlers (with_operations (<[rq_operation rq := op']> (as_operations s)) s)).

(** What can happen to a stream. *)
Inductive event :=
| Read (o : nat) (count : Z) (options : ReadOptions)
| Write (o : nat) (buffer : list Z)
| OnStream (f : function)
| RunTask (race : nat -> option Z)
| TransferEnds (race : nat -> option Z) (r : nat) (amount : nat) (error : option error_code)
| WaitEnds (i : nat) (cancelled : bool)
| PeerSends (bytes : list Z)
| Tick (now : Z)
| CreateOperation (o : nat) (op : Operation nat)
| CompleteOperation (o : nat) (status : Z)
| NotifyOperation (o : nat)
| ReturnCall (o : nat)
| DestroyOperation (o : nat).

Definition handle (e : event) (s : AsyncStream) : option AsyncStream :=
  match e with
  | Read o count options => read o count options s
  | Write o buffer => write o buffer s
  | OnStream f => Some (on_stream f s)
  | RunTask race =>
      match as_posted s with
      | [] => Some s
      | t :: posted => run_task race t (with_posted posted s)
      end
  | TransferEnds race r amount error =>
      transfer_handler race r amount error
        (with_transfers (as_open s) (delete r (as_transfers s)) s)
  | WaitEnds i cancelled =>
      match as_waits s !! i with
      | None => Some s
      | Some r =>
          let s := with_waits (delete i (as_waits s)) s in
          if cancelled then Some s else wait_handler r s
      end
  | PeerSends bytes =>
      let w := as_wire s in
      Some (with_wire (mkWire (wi_incoming w ++ bytes) (wi_sent w) (wi_received w ++ bytes) (wi_taken w)) s)
  | Tick now => Some (with_clock now s)
  | CreateOperation o op => Some (with_operations (<[o := op]> (as_operations s)) s)
  | CompleteOperation o status =>
      op ← as_operations s !! o;
      Some (with_operations (<[o := (try_complete status op).2]> (as_operations s)) s)
  | NotifyOperation o =>
      op ← as_operations s !! o;
      let '(handler, op') := take_handler op in
      Some (post_cancels (option_list handler) (with_operations (<[o := op']> (as_operations s)) s))
  | ReturnCall o =>
      op ← as_operations s !! o;
      Some (with_operations (<[o := clear_cancel_handler op]> (as_operations s)) s)
  | DestroyOperation o => Some (with_operations (delete o (as_operations s)) s)
  end.

Definition new_stream (now : Z) : AsyncStream :=
  mkStream [] ∅ [] [] [] VI_SUCCESS true ∅ [] [] [] now (mkWire [] [] [] []).
