(* ===== verification/AsyncStreamSafety.v ===== *)
(** * Asynchronous streams: what holds in every interleaving

    The invariant of [AsyncStream] and its proof, one lemma per handler: the
    head of each queue is the one active request and has the one transfer under
    way, results are final and keep the contract of reads and writes, and no
    byte of the stream is lost, repeated or reordered. *)

From S2P Require Import Prelude Visa Operation BackendSession RequestChannel AsyncStream.

(** ** The contract of results *)

Definition no_termchar (options : ReadOptions) (data : list Z) : Prop :=
  Forall (fun byte => is_termchar options byte = false) data.

(** A read that goes on: neither the termination character nor the count. *)
Definition open_data (count : Z) (options : ReadOptions) (data : list Z) : Prop :=
  no_termchar options data /\ Z.of_nat (length data) < count.

(** A failed read brings nothing; a successful one ends at the termination
    character, at the count, or where the stream ends. *)
Definition read_result_ok (count : Z) (options : ReadOptions) (status : Z) (data : list Z) : Prop :=
  (status < VI_SUCCESS /\ data = []) \/
  (status = VI_SUCCESS_TERM_CHAR /\ Z.of_nat (length data) <= count /\
     exists init byte, data = init ++ [byte] /\ is_termchar options byte = true /\ no_termchar options init) \/
  (status = VI_SUCCESS_MAX_CNT /\ Z.of_nat (length data) = count /\ no_termchar options data) \/
  (status = VI_SUCCESS /\ data ≠ [] /\ open_data count options data).

(** A successful write has written everything. *)
Definition write_result_ok (status count : Z) (data : list Z) : Prop :=
  status < VI_SUCCESS \/ status = VI_SUCCESS /\ count = u32 (Z.of_nat (length data)).

Definition result_ok (rq : Request) (result : stream_result) : Prop :=
  match rq_kind rq, result with
  | ReadRequest count options, ReadResult status data => read_result_ok count options status data
  | WriteRequest, WriteResult status count => write_result_ok status count (rq_data rq)
  | _, _ => False
  end.

(** ** The invariant *)

Definition live (s : AsyncStream) (r : nat) (rq : Request) : Prop :=
  as_requests s !! r = Some rq /\ rq_done rq = false.

(** The bytes of the read under way. *)
Definition head_data (s : AsyncStream) : list Z :=
  match as_read_queue s with
  | r :: _ => match as_requests s !! r with Some rq => rq_data rq | None => [] end
  | [] => []
  end.

(** No byte that the peer has sent is lost, repeated or out of order: it has
    been handed out, or is with the read under way, or read ahead, or not yet
    read. *)
Definition conserved (s : AsyncStream) : Prop :=
  wi_received (as_wire s) =
  wi_taken (as_wire s) ++ head_data s ++ as_read_ahead s ++ wi_incoming (as_wire s).

Definition task_request (t : task) : option nat :=
  match t with enqueue_task r | cancel_task r => Some r | function_task _ _ => None end.

Definition enqueues (t : task) : option nat :=
  match t with enqueue_task r => Some r | _ => None end.

Definition calls (t : task) : option nat :=
  match t with function_task call _ => Some call | _ => None end.

Record posted_ok (s : AsyncStream) : Prop := {
  po_request t r : t ∈ as_posted s -> task_request t = Some r -> is_Some (as_requests s !! r);
  po_fresh r rq : enqueue_task r ∈ as_posted s -> as_requests s !! r = Some rq -> rq_enqueued rq = false;
  po_once : NoDup (omap enqueues (as_posted s));
  po_call call : call ∈ omap calls (as_posted s) -> as_calls s !! call = Some None;
  po_calls_once : NoDup (omap calls (as_posted s));
  po_handler o op r : as_operations s !! o = Some op -> cancel_handler_ op = Some r ->
    exists rq, as_requests s !! r = Some rq /\ rq_operation rq = o;
  po_cancel r rq op : cancel_task r ∈ as_posted s -> live s r rq ->
    as_operations s !! rq_operation rq = Some op -> completed op = true;
  po_waits r : r ∈ as_waits s -> is_Some (as_requests s !! r) }.

(** What a request that is not done looks like. *)
Definition live_ok (s : AsyncStream) (r : nat) (rq : Request) : Prop :=
  rq_completion rq = None /\
  (exists op, as_operations s !! rq_operation rq = Some op /\ fails_only op) /\
  (match rq_kind rq with ReadRequest count _ => 0 < count | WriteRequest => True end) /\
  (if rq_enqueued rq then r ∈ as_queue (rq_side rq) s
   else enqueue_task r ∈ as_posted s /\ rq_active rq = false) /\
  (if rq_active rq then head (as_queue (rq_side rq) s) = Some r
   else rq_side rq = reading -> rq_data rq = []).

Record core (s : AsyncStream) : Prop := {
  co_done r rq : as_requests s !! r = Some rq -> rq_done rq = true ->
    exists result, rq_completion rq = Some result /\ result_ok rq result;
  co_live r rq : live s r rq -> live_ok s r rq;
  co_unique r r' rq rq' : live s r rq -> live s r' rq' -> rq_operation rq = rq_operation rq' -> r = r';
  co_queue sd r : r ∈ as_queue sd s -> exists rq, live s r rq /\ rq_enqueued rq = true /\ rq_side rq = sd;
  co_nodup sd : NoDup (as_queue sd s);
  co_transfer r : is_Some (as_transfers s !! r) -> exists rq, live s r rq /\ rq_active rq = true;
  co_posted : posted_ok s;
  co_bytes : conserved s }.

(** Between handlers the head of the queue is active and waits for its transfer. *)
Definition settled (sd : side) (s : AsyncStream) : Prop :=
  match as_queue sd s with
  | [] => True
  | r :: _ =>
      exists rq, as_requests s !! r = Some rq /\ rq_active rq = true /\ is_Some (as_transfers s !! r) /\
        match rq_kind rq with
        | ReadRequest count options => as_read_ahead s = [] /\ open_data count options (rq_data rq)
        | WriteRequest => True
        end
  end.

Definition stream_ok (s : AsyncStream) : Prop := core s /\ settled reading s /\ settled writing s.

(** No request of a side is active. *)
Definition idle (sd : side) (s : AsyncStream) : Prop :=
  forall r rq, live s r rq -> rq_side rq = sd -> rq_active rq = false.

Definition other (sd : side) : side := match sd with reading => writing | writing => reading end.

(** What a handler of one side does. *)
Record works (sd : side) (s s' : AsyncStream) : Prop := {
  wk_core : core s';
  wk_requests r rq : as_requests s !! r = Some rq -> exists rq', as_requests s' !! r = Some rq' /\
    rq_operation rq' = rq_operation rq /\ rq_kind rq' = rq_kind rq /\
    (rq_done rq = true \/ rq_side rq ≠ sd -> rq' = rq);
  wk_operations o op : as_operations s !! o = Some op ->
    exists op', as_operations s' !! o = Some op' /\ keeps_result op op';
  wk_queue : as_queue (other sd) s' = as_queue (other sd) s;
  wk_transfers r rq : as_requests s !! r = Some rq -> rq_side rq ≠ sd ->
    as_transfers s' !! r = as_transfers s !! r;
  wk_ahead : sd = writing -> as_read_ahead s' = as_read_ahead s }.

Definition finishes (sd : side) (s : AsyncStream) (o : option AsyncStream) : Prop :=
  exists s', o = Some s' /\ works sd s s' /\ settled sd s'.

(** The request [r] is done in the end. *)
Definition ends (sd : side) (r : nat) (s : AsyncStream) (o : option AsyncStream) : Prop :=
  exists s', o = Some s' /\ works sd s s' /\ settled sd s' /\
    exists rq, as_requests s' !! r = Some rq /\ rq_done rq = true.

(** ** The relation *)

Lemma works_refl sd s : core s -> works sd s s.
Proof. intros Hc. split; try done; [intros r rq Hr; by exists rq|intros o op Ho; by exists op]. Qed.

Lemma works_trans sd s1 s2 s3 : works sd s1 s2 -> works sd s2 s3 -> works sd s1 s3.
Proof.
  intros [C1 R1 O1 Q1 T1 A1] [C2 R2 O2 Q2 T2 A2]. split; [done| | |congruence| |].
  - intros r rq Hr. destruct (R1 r rq Hr) as (rq2 & Hr2 & Ho2 & Hk2 & Hs2).
    destruct (R2 r rq2 Hr2) as (rq3 & Hr3 & Ho3 & Hk3 & Hs3). exists rq3.
    split; [done|]. split; [congruence|]. split; [congruence|].
    intros Hx. assert (rq2 = rq) as -> by auto. auto.
  - intros o op Ho. destruct (O1 o op Ho) as (op2 & Ho2 & K1). destruct (O2 o op2 Ho2) as (op3 & Ho3 & K2).
    exists op3. split; [done|]. by eapply keeps_result_trans.
  - intros r rq Hr Hsd. destruct (R1 r rq Hr) as (rq2 & Hr2 & _ & _ & Hs2).
    assert (rq2 = rq) as -> by auto. rewrite (T2 r rq Hr2 Hsd). by apply (T1 r rq).
  - intros Hw. rewrite (A2 Hw). by apply A1.
Qed.

Lemma finishes_trans sd s s1 o : works sd s s1 -> finishes sd s1 o -> finishes sd s o.
Proof. intros Hw (s' & -> & Hw' & Hs). exists s'. split; [done|]. split; [by eapply works_trans|done]. Qed.

Lemma ends_finishes sd r s o : ends sd r s o -> finishes sd s o.
Proof. intros (s' & ? & ? & ? & _). by exists s'. Qed.

Lemma ends_trans sd r s s1 o : works sd s s1 -> ends sd r s1 o -> ends sd r s o.
Proof.
  intros Hw (s' & -> & Hw' & Hs & Hd). exists s'. split; [done|]. split; [by eapply works_trans|done].
Qed.

(** What is done stays done. *)
Lemma finishes_ends sd r s rq o :
  as_requests s !! r = Some rq -> rq_done rq = true -> finishes sd s o -> ends sd r s o.
Proof.
  intros Hr Hd (s' & -> & Hw & Hs). exists s'. split; [done|]. split; [done|]. split; [done|].
  destruct (wk_requests _ _ _ Hw r rq Hr) as (rq' & Hr' & _ & _ & He). rewrite (He (or_introl Hd)) in Hr'.
  by exists rq.
Qed.

Lemma other_side sd : other sd ≠ sd.
Proof. by destruct sd. Qed.

Lemma side_other sd sd' : sd' ≠ sd -> sd' = other sd.
Proof. by destruct sd, sd'. Qed.

(** The other side stays as it is. *)
Lemma works_settled_other sd s s' :
  core s -> works sd s s' -> settled (other sd) s -> settled (other sd) s'.
Proof.
  intros Hc Hw. unfold settled. rewrite (wk_queue _ _ _ Hw).
  destruct (as_queue (other sd) s) as [|r q] eqn:Hq; [done|].
  intros (rq & Hr & Ha & Ht & Hk).
  destruct (co_queue s Hc (other sd) r) as (x & [Hx _] & _ & Hside); [rewrite Hq; left|].
  assert (x = rq) as -> by congruence.
  assert (rq_side rq ≠ sd) as Hne by (rewrite Hside; apply other_side).
  destruct (wk_requests _ _ _ Hw r rq Hr) as (rq' & Hr' & _ & _ & He). rewrite (He (or_intror Hne)) in Hr'.
  exists rq. split; [done|]. split; [done|]. rewrite (wk_transfers _ _ _ Hw r rq Hr Hne). split; [done|].
  destruct (rq_kind rq) eqn:E; [|done]. rewrite (wk_ahead _ _ _ Hw); [done|].
  unfold rq_side in Hside. rewrite E in Hside. by destruct sd.
Qed.

Lemma live_stays sd s s' r rq :
  works sd s s' -> as_requests s !! r = Some rq -> is_Some (as_requests s' !! r).
Proof. intros Hw Hr. destruct (wk_requests _ _ _ Hw r rq Hr) as (rq' & -> & _). by eexists. Qed.

(** ** The loops over bytes *)

Lemma no_termchar_snoc options data byte :
  no_termchar options data -> is_termchar options byte = false -> no_termchar options (data ++ [byte]).
Proof. intros Hd Hb. apply Forall_app. split; [done|by apply Forall_singleton]. Qed.

Lemma stream_consume_spec count options bytes : forall data data' rest ended,
  consume count options data bytes = (data', rest, ended) ->
  data ++ bytes = data' ++ rest /\
  (open_data count options data ->
    match ended with
    | None => rest = [] /\ open_data count options data'
    | Some status => VI_SUCCESS <= status /\ read_result_ok count options status data' /\
        (status = VI_SUCCESS_TERM_CHAR <-> ends_with_termchar options data' = true) /\
        (status = VI_SUCCESS_TERM_CHAR \/ status = VI_SUCCESS_MAX_CNT /\ Z.of_nat (length data') = count)
    end).
Proof.
  induction bytes as [|byte bytes IH]; cbn; intros data data' rest ended.
  { intros [= <- <- <-]. done. }
  unfold open_data. destruct (is_termchar options byte) eqn:Hb; [|destruct (Z.eqb_spec (Z.of_nat (length (data ++ [byte]))) count) as [Hl|Hl]].
  - intros [= <- <- <-]. split; [by rewrite <- app_assoc|]. intros [Hn Hl]. split; [done|].
    split; [|split; [|by left]].
    + right; left. split; [done|]. split; [rewrite length_app; cbn; lia|]. by exists data, byte.
    + unfold ends_with_termchar. by rewrite last_snoc, Hb.
  - intros [= <- <- <-]. split; [by rewrite <- app_assoc|]. intros [Hn _]. split; [done|].
    split; [|split; [|by right]].
    + right; right; left. split; [done|]. split; [done|]. by apply no_termchar_snoc.
    + unfold ends_with_termchar. by rewrite last_snoc, Hb.
  - intros Hc. destruct (IH _ _ _ _ Hc) as [He Hs]. split; [by rewrite <- He, <- app_assoc|].
    intros [Hn Hlt]. apply Hs. split; [by apply no_termchar_snoc|]. rewrite length_app in *. cbn in *. lia.
Qed.

Lemma open_not_termchar count options data :
  open_data count options data -> ends_with_termchar options data = false.
Proof.
  intros [Hn _]. unfold ends_with_termchar. destruct (last data) as [byte|] eqn:Hl; [|done].
  apply last_Some in Hl as [init ->]. apply Forall_app in Hn as [_ Hb]. by rewrite Forall_singleton in Hb.
Qed.

(** ** Changing one request *)

Lemma lookup_set s r rq rq' x y :
  as_requests s !! r = Some rq -> <[r := rq']> (as_requests s) !! x = Some y ->
  x = r /\ y = rq' \/ x ≠ r /\ as_requests s !! x = Some y.
Proof.
  intros Hr. destruct (decide (x = r)) as [->|Hne].
  - rewrite list_lookup_insert_eq by (by eapply lookup_lt_Some). intros [= <-]. by left.
  - rewrite list_lookup_insert_ne by done. by right.
Qed.

Lemma lookup_set_eq s r rq rq' :
  as_requests s !! r = Some rq -> <[r := rq']> (as_requests s) !! r = Some rq'.
Proof. intros Hr. apply list_lookup_insert_eq. by eapply lookup_lt_Some. Qed.

Lemma is_Some_set s r rq' x :
  is_Some (as_requests s !! x) -> is_Some (<[r := rq']> (as_requests s) !! x).
Proof. rewrite !lookup_lt_is_Some, length_insert. done. Qed.

Lemma head_elem {A} (l : list A) x : head l = Some x -> x ∈ l.
Proof. destruct l; [done|]. intros [= ->]. left. Qed.

Lemma same_side rq rq' : rq_kind rq' = rq_kind rq -> rq_side rq' = rq_side rq.
Proof. unfold rq_side. by intros ->. Qed.

(** The parts of the state that only tasks, timers and callers change. *)
Definition same_frame (s s' : AsyncStream) : Prop :=
  as_posted s' = as_posted s /\ as_waits s' = as_waits s /\ as_calls s' = as_calls s.

Lemma posted_ok_set s s' r rq rq' :
  posted_ok s -> same_frame s s' -> as_requests s !! r = Some rq ->
  as_requests s' = <[r := rq']> (as_requests s) -> rq_enqueued rq' = rq_enqueued rq ->
  rq_operation rq' = rq_operation rq -> (rq_done rq = true -> rq_done rq' = true) ->
  (forall o op', as_operations s' !! o = Some op' ->
     exists op, as_operations s !! o = Some op /\ cancel_handler_ op' = cancel_handler_ op /\ keeps_result op op') ->
  posted_ok s'.
Proof.
  intros [H1 H2 H3 H4 H5 H6 H7 H8] (Ep & Ew & Ec) Hr Er Hen Hop Hd Ho. split; rewrite ?Ep, ?Ew, ?Ec; auto; rewrite ?Er.
  - intros t x Ht Hx. by apply is_Some_set, (H1 t).
  - intros x y Ht [[-> ->]|[_ Hx]]%(lookup_set _ _ _ _ _ _ Hr); [|by eapply H2].
    rewrite Hen. by apply (H2 r).
  - intros o op h Ho' Hh. destruct (Ho o op Ho') as (op' & Hop' & Hh' & _). rewrite Hh' in Hh.
    destruct (H6 o op' h Hop' Hh) as (y & Hy & Hyo). destruct (decide (h = r)) as [->|Hne].
    + exists rq'. split; [by eapply lookup_set_eq|congruence].
    + exists y. by rewrite list_lookup_insert_ne.
  - intros x y op Hx [Hy Hyd] Ho'. destruct (Ho _ op Ho') as (op' & Hop' & _ & Hk).
    assert (completed op' = true) as Hcd.
    { rewrite Er in Hy. apply (lookup_set _ _ _ _ _ _ Hr) in Hy as [[-> ->]|[_ Hy]].
      - apply (H7 r rq op' Hx); [split; [done|]|congruence]. destruct (rq_done rq); [|done]. by rewrite Hd in Hyd.
      - by apply (H7 x y op' Hx). }
    unfold completed in *. by rewrite (Hk Hcd).
  - intros x Hx. by apply is_Some_set, H8.
Qed.

(** A live request changes and stays live; its side's queue stays. *)
Lemma change_works s s' r rq rq' :
  core s -> live s r rq -> rq_enqueued rq = true ->
  as_requests s' = <[r := rq']> (as_requests s) ->
  rq_operation rq' = rq_operation rq -> rq_kind rq' = rq_kind rq -> rq_enqueued rq' = true ->
  rq_done rq' = false -> rq_completion rq' = rq_completion rq ->
  as_operations s' = as_operations s -> as_read_queue s' = as_read_queue s ->
  as_write_queue s' = as_write_queue s -> same_frame s s' ->
  (if rq_active rq' then head (as_queue (rq_side rq) s) = Some r
   else rq_side rq = reading -> rq_data rq' = []) ->
  (forall x, x ≠ r -> as_transfers s' !! x = as_transfers s !! x) ->
  (is_Some (as_transfers s' !! r) -> rq_active rq' = true) ->
  conserved s' -> (rq_side rq = writing -> as_read_ahead s' = as_read_ahead s) ->
  works (rq_side rq) s s'.
Proof.
  intros Hc [Hr Hd] Hen Er Eo Ek Ee Ed Ecm Eops Erq Ewq Hf Hact Htx Htr Hb Ha.
  assert (forall sd, as_queue sd s' = as_queue sd s) as Eq by (by intros []).
  assert (forall x y, live s' x y -> x = r /\ y = rq' \/ x ≠ r /\ live s x y) as Hlive.
  { intros x y [Hx Hxd]. rewrite Er in Hx. apply (lookup_set _ _ _ _ _ _ Hr) in Hx as [?|[? ?]]; [by left|by right]. }
  assert (live s' r rq') as Hl' by (split; [rewrite Er; by eapply lookup_set_eq|done]).
  assert (core s') as Hc'.
  { pose proof Hc as [Hdone Hlv Hu Hq Hn Ht Hp _]. split; auto.
    - intros x y Hx. rewrite Er in Hx. apply (lookup_set _ _ _ _ _ _ Hr) in Hx as [[-> ->]|[_ Hx]]; [congruence|].
      by apply (Hdone x).
    - intros x y [[-> ->]|[Hne Hx]]%Hlive.
      + destruct (Hlv r rq (conj Hr Hd)) as (Hcm & Hop & Hk & Hqu & _). unfold live_ok.
        rewrite Ecm, Eops, Eo, Ek, (same_side _ _ Ek), Eq. split; [done|]. split; [done|]. split; [done|].
        rewrite Ee. rewrite Hen in Hqu. split; [done|]. done.
      + pose proof (Hlv x y Hx) as H. unfold live_ok in *. rewrite Eops, Eq. destruct Hf as (-> & _). done.
    - intros x x' y y' [[-> ->]|[Hx Hxl]]%Hlive [[-> ->]|[Hx' Hxl']]%Hlive; rewrite ?Eo; intros He; [done| | |].
      + by apply (Hu r x' rq y').
      + by apply (Hu x r y rq).
      + by apply (Hu x x' y y').
    - intros sd x. rewrite Eq. intros Hx. destruct (Hq sd x Hx) as (y & Hy & Hey & Hsy).
      destruct (decide (x = r)) as [->|Hne].
      + exists rq'. split; [done|]. split; [done|]. destruct Hy as [Hy _]. assert (y = rq) as -> by congruence.
        by rewrite (same_side _ _ Ek).
      + exists y. split; [|done]. destruct Hy. split; [|done]. rewrite Er. by rewrite list_lookup_insert_ne.
    - intros sd. rewrite Eq. apply Hn.
    - intros x Hx. destruct (decide (x = r)) as [->|Hne]; [exists rq'; split; [done|by apply Htr]|].
      rewrite (Htx x Hne) in Hx. destruct (Ht x Hx) as (y & [Hy Hyd] & Hya). exists y.
      split; [|done]. split; [|done]. rewrite Er. by rewrite list_lookup_insert_ne.
    - apply (posted_ok_set s s' r rq rq'); try done; [congruence|congruence|]. intros o op. rewrite Eops. by exists op. }
  split; [done| | |apply Eq| |done].
  - intros x y Hx. destruct (decide (x = r)) as [->|Hne].
    + exists rq'. assert (y = rq) as -> by congruence. split; [apply Hl'|]. split; [done|]. split; [done|].
      intros [|Hsd]; [congruence|done].
    + exists y. rewrite Er, list_lookup_insert_ne by done. done.
  - intros o op. rewrite Eops. by exists op.
  - intros x y Hx Hsd. apply Htx. intros ->. congruence.
Qed.

Lemma erase_first_absent r q : r ∉ q -> erase_first r q = q.
Proof.
  induction q as [|x q IH]; [done|]. intros [Hne Hq]%not_elem_of_cons. cbn.
  destruct (Nat.eqb_spec x r); [congruence|]. by rewrite IH.
Qed.

Lemma head_erase_first r q x :
  NoDup q -> x ≠ r -> head q = Some x -> head (erase_first r q) = Some x.
Proof. destruct q as [|y q]; [done|]. cbn. intros _ Hne [= ->]. destruct (Nat.eqb_spec x r); done. Qed.

Lemma elem_erase_first r q x : x ∈ q -> x ≠ r -> x ∈ erase_first r q.
Proof.
  induction q as [|y q IH]; cbn; [done|]. intros Hx Hne. apply elem_of_cons in Hx.
  destruct (Nat.eqb_spec y r) as [->|]; [by destruct Hx|]. apply elem_of_cons.
  destruct Hx as [Hx|Hx]; [by left|right; auto].
Qed.

Lemma in_erase_first r q x : NoDup q -> x ∈ erase_first r q -> x ∈ q /\ x ≠ r.
Proof.
  intros Hn Hx. split.
  - eapply elem_of_sublist; [exact Hx|apply erase_first_sublist].
  - intros ->. by apply (not_in_erase_first r q).
Qed.

(** A request that is not at the head has nothing of the stream. *)
Lemma head_data_retire s s' r rq rq' :
  core s -> live s r rq -> rq_side rq = reading ->
  as_requests s' = <[r := rq']> (as_requests s) ->
  as_read_queue s' = erase_first r (as_read_queue s) ->
  if rq_active rq then head_data s = rq_data rq /\ head_data s' = []
  else head_data s' = head_data s.
Proof.
  intros Hc Hl Hs Er Eq. destruct (co_live s Hc r rq Hl) as (_ & _ & _ & Hen & Ha).
  pose proof (co_nodup s Hc reading) as Hn. cbn in Hn. rewrite Hs in *. cbn in Hen, Ha.
  unfold head_data. rewrite Er, Eq. destruct (as_read_queue s) as [|x q] eqn:Hq.
  - destruct (rq_active rq); [by cbn in Ha|done].
  - apply NoDup_cons in Hn as [Hx Hn]. cbn [erase_first]. destruct (Nat.eqb_spec x r) as [->|Hne].
    + destruct Hl as [Hr Hd]. rewrite Hr.
      assert (match q with
        | [] => []
        | y :: _ => match <[r := rq']> (as_requests s) !! y with Some z => rq_data z | None => [] end
        end = []) as ->.
      { destruct q as [|y q]; [done|]. apply not_elem_of_cons in Hx as [Hxy _].
        rewrite list_lookup_insert_ne by done.
        destruct (co_queue s Hc reading y) as (z & Hz & _ & Hsz).
        { cbn. rewrite Hq. right. left. }
        pose proof Hz as [-> _]. destruct (co_live s Hc y z Hz) as (_ & _ & _ & _ & Hzd).
        destruct (rq_active z); [|by apply Hzd]. rewrite Hsz in Hzd. cbn in Hzd. rewrite Hq in Hzd.
        cbn in Hzd. congruence. }
      destruct (rq_active rq); [done|]. symmetry. by apply Ha.
    + rewrite list_lookup_insert_ne by done. destruct (rq_active rq); [|done]. cbn in Ha. congruence.
Qed.

(** A request is done and leaves its queue. *)
Lemma retire_works s s' r rq rq' result d op op' :
  core s -> live s r rq -> as_transfers s !! r = None ->
  as_requests s' = <[r := rq']> (as_requests s) ->
  rq_operation rq' = rq_operation rq -> rq_kind rq' = rq_kind rq -> rq_enqueued rq' = rq_enqueued rq ->
  rq_done rq' = true -> rq_completion rq' = Some result -> result_ok rq' result ->
  as_operations s !! rq_operation rq = Some op ->
  as_operations s' = <[rq_operation rq := op']> (as_operations s) -> keeps_result op op' ->
  cancel_handler_ op' = cancel_handler_ op ->
  as_queue (rq_side rq) s' = erase_first r (as_queue (rq_side rq) s) ->
  as_queue (other (rq_side rq)) s' = as_queue (other (rq_side rq)) s ->
  same_frame s s' -> as_transfers s' = as_transfers s ->
  wi_received (as_wire s') = wi_received (as_wire s) ->
  wi_incoming (as_wire s') = wi_incoming (as_wire s) ->
  wi_taken (as_wire s') = wi_taken (as_wire s) ++ d ->
  d ++ as_read_ahead s' = match rq_side rq with reading => rq_data rq | writing => [] end ++ as_read_ahead s ->
  (rq_active rq = true /\ rq_side rq = reading \/ d = []) ->
  works (rq_side rq) s s' /\ (forall x y, live s' x y <-> x ≠ r /\ live s x y).
Proof.
  intros Hc Hl Htr Er Eo Ek Een Ed Ecm Hok Hop Eops Hk Hh Eq Eq' Hf Et Ere Ein Eta Hbytes Hd.
  pose proof Hl as [Hr Hdn].
  assert (forall x y, live s' x y <-> x ≠ r /\ live s x y) as Hlive.
  { intros x y. unfold live. rewrite Er. split.
    - intros [[[-> ->]|[? ?]]%(lookup_set _ _ _ _ _ _ Hr) Hxd]; [congruence|done].
    - intros (Hne & Hx & Hxd). by rewrite list_lookup_insert_ne. }
  assert (forall o x, as_operations s !! o = Some x -> exists x', as_operations s' !! o = Some x' /\
    keeps_result x x' /\ cancel_handler_ x' = cancel_handler_ x /\ (o ≠ rq_operation rq -> x' = x)) as Hops.
  { intros o x Ho. rewrite Eops. destruct (decide (o = rq_operation rq)) as [->|Hne].
    - exists op'. rewrite lookup_insert_eq. assert (x = op) as -> by congruence. done.
    - exists x. by rewrite lookup_insert_ne. }
  assert (forall sd x, x ≠ r -> x ∈ as_queue sd s -> x ∈ as_queue sd s') as Hin.
  { intros sd x Hne Hx. destruct (decide (sd = rq_side rq)) as [->|Hsd].
    - rewrite Eq. by apply elem_erase_first.
    - rewrite (side_other _ _ Hsd) in *. by rewrite Eq'. }
  assert (forall sd x, x ≠ r -> head (as_queue sd s) = Some x -> head (as_queue sd s') = Some x) as Hhead.
  { intros sd x Hne Hx. destruct (decide (sd = rq_side rq)) as [->|Hsd].
    - rewrite Eq. apply head_erase_first; [apply Hc|done|done].
    - rewrite (side_other _ _ Hsd) in *. by rewrite Eq'. }
  assert (forall sd x, x ∈ as_queue sd s' -> x ∈ as_queue sd s /\ x ≠ r) as Hout.
  { intros sd x Hx. destruct (decide (sd = rq_side rq)) as [->|Hsd].
    - rewrite Eq in Hx. apply in_erase_first in Hx; [done|apply Hc].
    - rewrite (side_other _ _ Hsd) in *. rewrite Eq' in Hx. split; [done|]. intros ->.
      destruct (co_queue s Hc _ _ Hx) as (y & [Hy _] & _ & Hs).
      assert (y = rq) as -> by congruence. by apply (other_side (rq_side rq)). }
  split; [|done]. split; [|intros x y Hx|intros o x Ho|done|by rewrite Et|].
  - pose proof Hc as [Hdone Hlv Hu Hq Hn Ht Hp Hcb]. split.
    + intros x y Hx. rewrite Er in Hx. apply (lookup_set _ _ _ _ _ _ Hr) in Hx as [[-> ->]|[_ Hx]]; [by exists result|].
      by apply (Hdone x).
    + intros x y [Hne Hx]%Hlive. destruct (Hlv x y Hx) as (H1 & (opx & Hox & Hfx) & H3 & H4 & H5).
      split; [done|]. split; [|split; [done|split]].
      * exists opx. split; [|done]. destruct (Hops _ _ Hox) as (z & Hz & _ & _ & He). rewrite He in Hz; [done|].
        intros Heq. apply Hne. by apply (Hu x r y rq).
      * destruct Hf as (-> & _). destruct (rq_enqueued y); [by apply Hin|done].
      * destruct (rq_active y); [by apply Hhead|done].
    + intros x x' y y' [_ Hx]%Hlive [_ Hx']%Hlive. by apply Hu.
    + intros sd x [Hx Hne]%Hout. destruct (Hq sd x Hx) as (y & Hy & ?). exists y. split; [by apply Hlive|done].
    + intros sd. destruct (decide (sd = rq_side rq)) as [->|Hsd].
      * rewrite Eq. eapply sublist_NoDup; [apply Hn|apply erase_first_sublist].
      * rewrite (side_other _ _ Hsd). rewrite Eq'. apply Hn.
    + intros x. rewrite Et. intros Hx. destruct (Ht x Hx) as (y & Hy & ?). exists y. split; [|done].
      apply Hlive. split; [|done]. intros ->. rewrite Htr in Hx. by destruct Hx.
    + apply (posted_ok_set s s' r rq rq'); try done. intros o x Ho. rewrite Eops in Ho.
      destruct (decide (o = rq_operation rq)) as [->|Hne].
      * rewrite lookup_insert_eq in Ho. injection Ho as <-. by exists op.
      * rewrite lookup_insert_ne in Ho by done. by exists x.
    + unfold conserved in *. rewrite Ere, Ein, Eta, Hcb. rewrite <- !app_assoc. f_equal.
      destruct (rq_side rq) eqn:Hs.
      * pose proof (head_data_retire s s' r rq rq' Hc Hl Hs Er Eq) as Hhd.
        destruct (rq_active rq) eqn:Hact.
        -- destruct Hhd as [-> ->]. cbn [app]. by rewrite !app_assoc, Hbytes.
        -- destruct Hd as [[? _]|Hd]; [done|]. subst d. rewrite Hhd. cbn in *.
           destruct (Hlv r rq Hl) as (_ & _ & _ & _ & Hx). rewrite Hact in Hx. rewrite (Hx Hs) in Hbytes.
           cbn in Hbytes. by rewrite Hbytes.
      * destruct Hd as [[_ ?]|Hd]; [done|]. subst d. cbn in *. rewrite Hbytes. f_equal.
        unfold head_data. rewrite Eq'. destruct (as_read_queue s) as [|x q] eqn:Hqx; [done|]. rewrite Er.
        rewrite list_lookup_insert_ne; [done|]. intros ->. destruct (Hq reading x) as (y & [Hy _] & _ & Hsy).
        { cbn. rewrite Hqx. left. } congruence.
  - destruct (decide (x = r)) as [->|Hne].
    + exists rq'. assert (y = rq) as -> by congruence. rewrite Er. split; [by eapply lookup_set_eq|].
      split; [done|]. split; [done|]. intros [?|?]; congruence.
    + exists y. rewrite Er, list_lookup_insert_ne by done. done.
  - destruct (Hops o x Ho) as (x' & ? & ? & _). by exists x'.
  - intros Hs. destruct Hd as [[_ Hx]|Hd]; [congruence|]. subst d. cbn in Hbytes. rewrite Hs in Hbytes. done.
Qed.

(** What concerns neither requests nor queues nor the bytes that are read. *)
Lemma frame_works sd s s' :
  core s -> as_requests s' = as_requests s -> as_operations s' = as_operations s ->
  as_read_queue s' = as_read_queue s -> as_write_queue s' = as_write_queue s ->
  as_read_ahead s' = as_read_ahead s -> as_transfers s' = as_transfers s -> same_frame s s' ->
  wi_received (as_wire s') = wi_received (as_wire s) -> wi_incoming (as_wire s') = wi_incoming (as_wire s) ->
  wi_taken (as_wire s') = wi_taken (as_wire s) ->
  works sd s s'.
Proof.
  intros Hc Er Eo Erq Ewq Ea Et Hf W1 W2 W3.
  assert (forall sd, as_queue sd s' = as_queue sd s) as Eq by (by intros []).
  assert (core s') as Hc'.
  { pose proof Hc as [Hdone Hlv Hu Hq Hn Ht [H1 H2 H3 H4 H5 H6 H7 H8] Hb]. destruct Hf as (Ep & Ew & Ec).
    split; unfold live, live_ok; rewrite ?Er, ?Eo, ?Ep, ?Et; try done.
    - intros r rq. rewrite Eq. apply Hlv.
    - intros sd' r. rewrite Eq. apply Hq.
    - intros sd'. rewrite Eq. apply Hn.
    - by split; unfold live; rewrite ?Er, ?Eo, ?Ep, ?Ew, ?Ec.
    - unfold conserved, head_data in *. by rewrite W1, W2, W3, Erq, Er, Ea. }
  split; [done| | |by rewrite Eq|by rewrite Et|done].
  - intros r rq. rewrite Er. by exists rq.
  - intros o op. rewrite Eo. by exists op.
Qed.

(** ** Handlers *)

Lemma queue_with_queue sd q s : as_queue sd (with_queue sd q s) = q.
Proof. by destruct sd. Qed.

Lemma queue_with_other sd q s : as_queue (other sd) (with_queue sd q s) = as_queue (other sd) s.
Proof. by destruct sd. Qed.

Lemma fulfill_eq r result s rq :
  as_requests s !! r = Some rq -> rq_done rq = false -> rq_completion rq = None ->
  fulfill r result s = Some (hand_out (result_data result) (set_request r (rq_finish result rq) s)).
Proof.
  intros Hr Hd Hc. unfold fulfill. rewrite Hr. cbn [mbind option_bind]. rewrite Hd.
  by rewrite option_guard_True.
Qed.

Lemma live_transfer s r rq : core s -> live s r rq -> rq_active rq = false -> as_transfers s !! r = None.
Proof.
  intros Hc [Hr _] Ha. destruct (as_transfers s !! r) eqn:E; [|done].
  destruct (co_transfer s Hc r) as (y & [Hy _] & Hya); [by rewrite E|]. congruence.
Qed.

Lemma live_head s sd r q :
  core s -> as_queue sd s = r :: q -> exists rq, live s r rq /\ rq_enqueued rq = true /\ rq_side rq = sd.
Proof. intros Hc Hq. apply (co_queue s Hc). rewrite Hq. left. Qed.

Lemma erase_head r q : erase_first r (r :: q) = q.
Proof. cbn. by rewrite Nat.eqb_refl. Qed.

Definition failure (sd : side) (status : Z) : stream_result :=
  match sd with reading => ReadResult status [] | writing => WriteResult status 0 end.

Lemma failure_ok rq status : status < VI_SUCCESS -> result_ok rq (failure (rq_side rq) status).
Proof. unfold result_ok, rq_side, failure. destruct (rq_kind rq); by left. Qed.

Lemma failure_data sd status : result_data (failure sd status) = [].
Proof. by destruct sd. Qed.

Section handlers.
  Context (race : nat -> option Z) (Hrace : forall o status, race o = Some status -> status < VI_SUCCESS).

(** Whoever completes the operation, a handler that has not succeeded in it finds
    a failure. *)
Lemma claim_spec o status s op :
  as_operations s !! o = Some op -> fails_only op ->
  exists won op', claim race o status s = Some (won, with_operations (<[o := op']> (as_operations s)) s) /\
    keeps_result op op' /\ cancel_handler_ op' = cancel_handler_ op /\
    (if won then op_result op' = status else op_result op' < VI_SUCCESS).
Proof.
  intros Ho Hf. unfold claim. rewrite Ho. cbn [mbind option_bind].
  set (op1 := match race o with Some x => _ | None => op end).
  assert (keeps_result op op1 /\ cancel_handler_ op1 = cancel_handler_ op /\ fails_only op1) as (Hk & Hh & Hf1).
  { unfold op1. destruct (race o) as [x|] eqn:E; [|done]. specialize (Hrace _ _ E).
    unfold try_complete. destruct (Z.eqb_spec (result_ op) kPending) as [He|He]; [|by repeat split].
    split; [|split; [done|intros _; exact Hrace]]. unfold keeps_result, completed. by rewrite He. }
  unfold try_complete. destruct (Z.eqb_spec (result_ op1) kPending) as [He|He].
  - do 2 eexists. split; [reflexivity|]. split; [|done]. intros Hx. specialize (Hk Hx).
    unfold completed in Hx. apply negb_true_iff, Z.eqb_neq in Hx. congruence.
  - exists false, op1. split; [done|]. split; [done|]. split; [done|]. apply Hf1.
    unfold completed. by apply negb_true_iff, Z.eqb_neq.
Qed.

(** A request that is not active fails and leaves its queue. *)
Lemma fail_works s r rq status op op' s0 :
  core s -> live s r rq -> rq_active rq = false ->
  as_operations s !! rq_operation rq = Some op -> keeps_result op op' ->
  cancel_handler_ op' = cancel_handler_ op -> status < VI_SUCCESS ->
  s0 = with_queue (rq_side rq) (erase_first r (as_queue (rq_side rq) s))
         (with_operations (<[rq_operation rq := op']> (as_operations s)) s) ->
  exists s', fulfill r (failure (rq_side rq) status) s0 = Some s' /\ works (rq_side rq) s s' /\
    as_queue (rq_side rq) s' = erase_first r (as_queue (rq_side rq) s) /\
    (forall x y, live s' x y <-> x ≠ r /\ live s x y).
Proof.
  intros Hc Hl Ha Ho Hk Hh Hst ->. pose proof Hl as [Hr Hd].
  destruct (co_live s Hc r rq Hl) as (Hcm & _ & _ & _ & Hdata). rewrite Ha in Hdata.
  eexists. split; [by apply fulfill_eq|]. rewrite failure_data.
  assert (forall q l s, as_queue (rq_side rq) (hand_out l (set_request r q s)) = as_queue (rq_side rq) s) as Hqs
    by (intros; by destruct (rq_side rq)).
  assert (forall q l s, as_queue (other (rq_side rq)) (hand_out l (set_request r q s)) =
    as_queue (other (rq_side rq)) s) as Hqo by (intros; by destruct (rq_side rq)).
  destruct (retire_works s (hand_out [] (set_request r (rq_finish (failure (rq_side rq) status) rq)
    (with_queue (rq_side rq) (erase_first r (as_queue (rq_side rq) s))
      (with_operations (<[rq_operation rq := op']> (as_operations s)) s)))) r rq
    (rq_finish (failure (rq_side rq) status) rq) (failure (rq_side rq) status) [] op op') as [Hw Hlv]; try done.
  - by apply (live_transfer s r rq).
  - exact (failure_ok (rq_finish (failure (rq_side rq) status) rq) status Hst).
  - by rewrite Hqs, queue_with_queue.
  - rewrite Hqo, queue_with_other. by destruct (rq_side rq).
  - cbn. destruct (rq_side rq) eqn:Hs; [|done]. by rewrite (Hdata eq_refl).
  - by right.
  - split; [done|]. split; [|done]. by rewrite Hqs, queue_with_queue.
Qed.

Lemma refuse_works s r rq status q :
  core s -> live s r rq -> rq_active rq = false -> as_queue (rq_side rq) s = r :: q ->
  status < VI_SUCCESS ->
  exists s', refuse race (rq_side rq) r rq status q s = Some s' /\ works (rq_side rq) s s' /\
    as_queue (rq_side rq) s' = q /\ (forall x y, live s' x y <-> x ≠ r /\ live s x y).
Proof.
  intros Hc Hl Ha Hq Hst. destruct (co_live s Hc r rq Hl) as (_ & (op & Ho & Hf) & _).
  unfold refuse. destruct (claim_spec _ status s op Ho Hf) as (won & op' & -> & Hk & Hh & Hres).
  cbn [mbind option_bind as_operations with_operations]. rewrite lookup_insert_eq. cbn [mbind option_bind].
  assert (op_result op' < VI_SUCCESS) as Hneg by (destruct won; lia).
  edestruct (fail_works s r rq (op_result op') op op') as (s' & Hs' & Hw & Hqs & Hlv); try done.
  rewrite Hq, erase_head in Hs', Hqs. exists s'. split; [exact Hs'|done].
Qed.

(** A completed operation's request leaves the queue. *)
Lemma completed_works s r rq q op :
  core s -> live s r rq -> rq_active rq = false -> as_queue (rq_side rq) s = r :: q ->
  as_operations s !! rq_operation rq = Some op -> completed op = true ->
  exists s', fulfill r (failure (rq_side rq) (op_result op)) (with_queue (rq_side rq) q s) = Some s' /\
    works (rq_side rq) s s' /\ as_queue (rq_side rq) s' = q /\
    (forall x y, live s' x y <-> x ≠ r /\ live s x y).
Proof.
  intros Hc Hl Ha Hq Ho Hcd. destruct (co_live s Hc r rq Hl) as (_ & (op' & Ho' & Hf) & _).
  assert (op' = op) as -> by congruence.
  edestruct (fail_works s r rq (op_result op) op op) as (s' & Hs' & Hw & Hqs & Hlv); try done; [by apply Hf|].
  rewrite Hq, erase_head in Hs', Hqs. rewrite insert_id in Hs' by done. exists s'.
  split; [|done]. rewrite <- Hs'. by destruct s.
Qed.

(** Going on with a shorter queue, no request being active. *)
Definition continues (sd : side) (n : nat) (next : AsyncStream -> option AsyncStream) : Prop :=
  forall s, core s -> idle sd s -> (length (as_queue sd s) < n)%nat -> finishes sd s (next s).

Lemma retired_idle s s' r rq :
  core s -> live s r rq -> (rq_active rq = true \/ idle (rq_side rq) s) ->
  (forall x y, live s' x y <-> x ≠ r /\ live s x y) -> idle (rq_side rq) s'.
Proof.
  intros Hc Hl Ha Hlv x y [Hne Hx]%Hlv Hs. destruct Ha as [Ha|Hi]; [|by apply (Hi x)].
  destruct (rq_active y) eqn:Hy; [|done].
  destruct (co_live s Hc r rq Hl) as (_ & _ & _ & _ & H1). destruct (co_live s Hc x y Hx) as (_ & _ & _ & _ & H2).
  rewrite Ha in H1. rewrite Hy, Hs in H2. congruence.
Qed.

(** ** The side of the reads *)

Lemma reading_side count options rq : rq_kind rq = ReadRequest count options -> rq_side rq = reading.
Proof. unfold rq_side. by intros ->. Qed.

Lemma active_head s r rq :
  core s -> live s r rq -> rq_active rq = true -> exists q, as_queue (rq_side rq) s = r :: q.
Proof.
  intros Hc Hl Ha. destruct (co_live s Hc r rq Hl) as (_ & _ & _ & _ & H). rewrite Ha in H.
  destruct (as_queue (rq_side rq) s) as [|x q]; [done|]. injection H as ->. by exists q.
Qed.

(** The active read ends with [status] and [data], the rest going back; then
    [next] goes on. *)
Lemma end_read next s r rq op op' status data ahead :
  core s -> live s r rq -> rq_side rq = reading -> rq_active rq = true -> as_transfers s !! r = None ->
  as_operations s !! rq_operation rq = Some op -> keeps_result op op' ->
  cancel_handler_ op' = cancel_handler_ op -> result_ok rq (ReadResult status data) ->
  data ++ ahead = rq_data rq ++ as_read_ahead s ->
  continues reading (length (as_read_queue s)) next ->
  forall s0 rest, s0 = with_queue reading (tail (as_read_queue s)) (set_request r (rq_activate false (rq_with_data rest rq))
    (with_read_ahead ahead (with_operations (<[rq_operation rq := op']> (as_operations s)) s))) ->
  ends reading r s (s' ← fulfill_read r status data s0; next s').
Proof.
  intros Hc Hl Hs Ha Htr Ho Hk Hh Hok Hb Hnext s0 rest ->. pose proof Hl as [Hr Hd].
  destruct (active_head s r rq Hc Hl Ha) as [q Hq]. rewrite Hs in Hq. cbn in Hq. rewrite Hq. cbn [tail].
  destruct (co_live s Hc r rq Hl) as (Hcm & _). unfold fulfill_read.
  set (rq1 := rq_activate false (rq_with_data rest rq)). set (s1 := with_queue reading q _).
  rewrite (fulfill_eq r _ s1 rq1); [|by apply lookup_set_eq with rq|done|done].
  cbn [mbind option_bind]. set (s2 := hand_out _ _).
  destruct (retire_works s s2 r rq (rq_finish (ReadResult status data) rq1) (ReadResult status data) data op op')
    as [Hw Hlv]; try done; rewrite ?Hs; try done.
  - unfold s2, s1. cbn. by rewrite list_insert_insert_eq.
  - cbn. rewrite Hq. cbn. by rewrite Nat.eqb_refl.
  - left. by split.
  - rewrite Hs in Hw. eapply ends_trans; [exact Hw|].
    apply (finishes_ends _ r s2 (rq_finish (ReadResult status data) rq1)); [|done|].
    { unfold s2, s1. cbn. rewrite list_insert_insert_eq. by apply (lookup_set_eq s r rq). }
    apply Hnext; [apply Hw| |].
    + rewrite <- Hs. apply (retired_idle s s2 r rq); try done. by left.
    + cbn. rewrite Hq. cbn. lia.
Qed.

Lemma rq_with_data_id rq : rq_with_data (rq_data rq) rq = rq.
Proof. by destruct rq. Qed.

Lemma complete_active_read_ends next s r rq proposed claimed :
  core s -> live s r rq -> rq_side rq = reading -> rq_active rq = true -> as_transfers s !! r = None ->
  result_ok rq (ReadResult proposed (rq_data rq)) -> (claimed = false -> proposed < VI_SUCCESS) ->
  continues reading (length (as_read_queue s)) next ->
  ends reading r s (complete_active_read race next r proposed claimed s).
Proof.
  intros Hc Hl Hs Ha Htr Hok Hcl Hnext. pose proof Hl as [Hr Hd].
  destruct (co_live s Hc r rq Hl) as (Hcm & (op & Ho & Hf) & _).
  destruct (active_head s r rq Hc Hl Ha) as [q Hq]. rewrite Hs in Hq. cbn in Hq.
  assert (forall status, result_ok rq (ReadResult status (rq_data rq)) ->
    (if VI_SUCCESS <=? status then rq_data rq else []) = rq_data rq) as Hdata.
  { intros status. unfold result_ok. destruct (rq_kind rq); [|done]. intros Hres.
    destruct (Z.leb_spec VI_SUCCESS status) as [|Hneg]; [done|].
    destruct Hres as [[_ ->]|[(-> & _)|[(-> & _)|(-> & _)]]]; done. }
  unfold complete_active_read. rewrite Hr. cbn [mbind option_bind].
  assert (exists won op', (if claimed then claim race (rq_operation rq) proposed s else Some (true, s)) =
      Some (won, with_operations (<[rq_operation rq := op']> (as_operations s)) s) /\
    keeps_result op op' /\ cancel_handler_ op' = cancel_handler_ op /\
    (won = false -> op_result op' < VI_SUCCESS)) as (won & op' & -> & Hk & Hh & Hres).
  { destruct claimed.
    - destruct (claim_spec _ proposed s op Ho Hf) as (won & op' & -> & Hk & Hh & Hres).
      exists won, op'. repeat split; try done. intros ->. exact Hres.
    - exists true, op. rewrite insert_id by done. split; [by destruct s|done]. }
  cbn [mbind option_bind]. destruct won.
  - cbn [mbind option_bind as_requests with_operations]. rewrite Hr. cbn [mbind option_bind].
    rewrite (Hdata proposed Hok).
    eapply (end_read next s r rq op op' proposed (rq_data rq) (as_read_ahead s)); try done.
    instantiate (1 := rq_data rq). unfold pop_if_front. cbn. rewrite Hq, Nat.eqb_refl. by rewrite rq_with_data_id.
  - unfold restore_partial_read. cbn [as_requests with_operations]. rewrite Hr. cbn [mbind option_bind].
    cbn [as_operations with_operations with_read_ahead set_request with_requests as_requests as_read_ahead].
    rewrite lookup_insert_eq. cbn [mbind option_bind as_requests with_read_ahead set_request with_requests].
    rewrite (lookup_set_eq s r rq) by done. cbn [mbind option_bind rq_data rq_with_data].
    rewrite (proj2 (Z.leb_gt VI_SUCCESS (op_result op'))) by (by apply Hres).
    eapply (end_read next s r rq op op' (op_result op') [] (rq_data rq ++ as_read_ahead s)); try done.
    + unfold result_ok. unfold rq_side in Hs. destruct (rq_kind rq); [|done]. left. split; [by apply Hres|done].
    + instantiate (1 := []). unfold pop_if_front. cbn. rewrite Hq, Nat.eqb_refl.
      unfold set_request, with_requests, with_queue. cbn. by rewrite list_insert_insert_eq.
Qed.

(** A transfer is started for the head. *)
Lemma start_transfer_finishes s r rq :
  core s -> live s r rq -> rq_active rq = true -> as_transfers s !! r = None ->
  match rq_kind rq with
  | ReadRequest count options => as_read_ahead s = [] /\ open_data count options (rq_data rq)
  | WriteRequest => True
  end -> finishes (rq_side rq) s (start_transfer r s).
Proof.
  intros Hc Hl Ha Htr Hk. pose proof Hl as [Hr Hd]. unfold start_transfer.
  rewrite option_guard_True by done. destruct (active_head s r rq Hc Hl Ha) as [q Hq].
  destruct (live_head s _ r q Hc Hq) as (y & [Hy _] & Hen & _). assert (y = rq) as -> by congruence.
  destruct (co_live s Hc r rq Hl) as (_ & _ & _ & _ & Hact). rewrite Ha in Hact.
  eexists. split; [reflexivity|]. split.
  - apply (change_works s _ r rq rq); try done.
    + symmetry. by apply list_insert_id.
    + by rewrite Ha.
    + intros x Hx. cbn. by rewrite lookup_insert_ne.
    + apply Hc.
  - unfold settled. replace (as_queue _ _) with (r :: q) by (by destruct (rq_side rq)).
    exists rq. split; [done|]. split; [done|]. split; [cbn; by rewrite lookup_insert_eq|done].
Qed.

(** The data of the active read and the bytes read ahead change together. *)
Lemma data_works s r rq data ahead w :
  core s -> live s r rq -> rq_side rq = reading -> rq_active rq = true -> as_transfers s !! r = None ->
  wi_received w = wi_received (as_wire s) -> wi_taken w = wi_taken (as_wire s) ->
  data ++ ahead ++ wi_incoming w = rq_data rq ++ as_read_ahead s ++ wi_incoming (as_wire s) ->
  works reading s (with_wire w (with_read_ahead ahead (set_request r (rq_with_data data rq) s))).
Proof.
  intros Hc Hl Hs Ha Htr Hwr Hwt Hb. pose proof Hl as [Hr Hd]. rewrite <- Hs.
  destruct (active_head s r rq Hc Hl Ha) as [q Hq].
  destruct (live_head s _ r q Hc Hq) as (y & [Hy _] & Hen & _). assert (y = rq) as -> by congruence.
  destruct (co_live s Hc r rq Hl) as (_ & _ & _ & _ & Hact). rewrite Ha in Hact. rewrite Hs in Hq. cbn in Hq.
  apply (change_works s _ r rq (rq_with_data data rq)); try done.
  - cbn. by rewrite Ha.
  - pose proof (co_bytes s Hc) as H. unfold conserved, head_data in *. cbn. rewrite Hwr, Hwt, H.
    rewrite Hq in *. rewrite Hr. rewrite (lookup_set_eq s r rq) by done. cbn. by rewrite Hb.
  - congruence.
Qed.

Lemma consume_read_ahead_finishes next s r rq count options :
  core s -> live s r rq -> rq_kind rq = ReadRequest count options -> rq_active rq = true ->
  as_transfers s !! r = None -> open_data count options (rq_data rq) ->
  continues reading (length (as_read_queue s)) next ->
  finishes reading s (consume_read_ahead race next r s).
Proof.
  intros Hc Hl Hk Ha Htr Hopen Hnext. pose proof Hl as [Hr Hd].
  pose proof (reading_side _ _ _ Hk) as Hs.
  unfold consume_read_ahead. rewrite Hr. cbn [mbind option_bind]. rewrite Hk.
  destruct (consume count options (rq_data rq) (as_read_ahead s)) as [[data ahead] ended] eqn:He.
  destruct (stream_consume_spec _ _ _ _ _ _ _ He) as [Hb Hend]. specialize (Hend Hopen).
  set (rq1 := rq_with_data data rq). set (s1 := with_read_ahead ahead (set_request r rq1 s)).
  assert (works reading s s1) as Hw.
  { replace s1 with (with_wire (as_wire s) s1) by done. apply data_works; try done.
    rewrite !app_assoc. by rewrite Hb. }
  assert (live s1 r rq1) as Hl1 by (split; [by eapply lookup_set_eq|done]).
  assert (forall proposed, read_result_ok count options proposed data ->
    finishes reading s (complete_active_read race next r proposed true s1)) as Hcomplete.
  { intros proposed Hp. eapply finishes_trans; [exact Hw|]. eapply ends_finishes.
    apply (complete_active_read_ends next s1 r rq1); try done; [apply Hw|].
    unfold result_ok, rq1. cbn. by rewrite Hk. }
  destruct ended as [status|]; [apply Hcomplete; apply Hend|]. destruct Hend as [-> Hopen1].
  destruct (Z.ltb_spec (as_terminal_status s1) VI_SUCCESS) as [Hneg|_].
  - apply Hcomplete. case_bool_decide as Hdata; [by left|]. by right; right; right.
  - eapply finishes_trans; [exact Hw|]. replace reading with (rq_side rq1) by exact Hs. apply (start_transfer_finishes s1 r rq1); try done; [apply Hw|].
    cbn. rewrite Hk. done.
Qed.

Lemma start_next_read_with_finishes fuel : continues reading fuel (start_next_read_with race fuel).
Proof.
  induction fuel as [|fuel IH]; intros s Hc Hi Hlen; [lia|]. cbn [start_next_read_with].
  cbn in Hlen. destruct (as_read_queue s) as [|r q] eqn:Hq.
  { exists s. split; [done|]. split; [by apply works_refl|]. unfold settled. cbn. by rewrite Hq. }
  destruct (live_head s reading r q Hc Hq) as (rq & Hl & Hen & Hs). pose proof Hl as [Hr Hd].
  assert (rq_active rq = false) as Ha by (by apply (Hi r)).
  destruct (co_live s Hc r rq Hl) as (_ & (op & Ho & Hf) & Hcount & _ & Hdata). rewrite Ha in Hdata.
  assert (as_queue (rq_side rq) s = r :: q) as Hq' by (by rewrite Hs).
  rewrite Hr. cbn [mbind option_bind]. rewrite Hd, Ho. cbn [mbind option_bind].
  assert (forall o, (exists s', o = Some s' /\ works (rq_side rq) s s' /\ as_queue (rq_side rq) s' = q /\
      (forall x y, live s' x y <-> x ≠ r /\ live s x y)) ->
    finishes reading s (s' ← o; start_next_read_with race fuel s')) as Hgo.
  { intros o (s' & -> & Hw & Hqs & Hlv). cbn [mbind option_bind]. rewrite Hs in Hw.
    eapply finishes_trans; [exact Hw|]. apply IH; [apply Hw| |].
    - rewrite <- Hs. apply (retired_idle s s' r rq); try done. right. by rewrite Hs.
    - rewrite Hs in Hqs. rewrite Hqs. cbn in Hlen. lia. }
  destruct (completed op) eqn:Hcd.
  { apply Hgo. pose proof (completed_works s r rq q op Hc Hl Ha Hq' Ho Hcd) as H. by rewrite Hs in *. }
  destruct (deadline_passed op s).
  { apply Hgo. pose proof (refuse_works s r rq VI_ERROR_TMO q Hc Hl Ha Hq') as H. rewrite Hs in *. by apply H. }
  destruct ((as_terminal_status s <? VI_SUCCESS) && bool_decide (as_read_ahead s = [])) eqn:Ht.
  { apply Hgo. apply andb_true_iff in Ht as [Ht%Z.ltb_lt _].
    pose proof (refuse_works s r rq (as_terminal_status s) q Hc Hl Ha Hq' Ht) as H. by rewrite Hs in *. }
  unfold rq_side in Hs. destruct (rq_kind rq) as [count options|] eqn:Hk; [|done].
  set (s1 := set_request r (rq_activate true rq) s).
  assert (works reading s s1) as Hw.
  { rewrite <- (reading_side _ _ _ Hk). apply (change_works s _ r rq (rq_activate true rq)); try done.
    - cbn. by rewrite Hq'.
    - pose proof (co_bytes s Hc) as Hcb. unfold conserved, head_data in *. cbn. rewrite Hcb, Hq, Hr.
      by rewrite (lookup_set_eq s r rq). }
  eapply finishes_trans; [exact Hw|].
  apply (consume_read_ahead_finishes _ s1 r (rq_activate true rq) count options); try done; [apply Hw| | | |].
  - split; [by eapply lookup_set_eq|done].
  - by apply (live_transfer s r rq).
  - cbn. rewrite (Hdata (reading_side _ _ _ Hk)). split; [by apply Forall_nil_2|done].
  - intros x Hx Hix Hlx. apply IH; [done|done|]. cbn in *. rewrite Hq in Hlx. cbn in *. lia.
Qed.

Lemma start_next_read_finishes s : core s -> idle reading s -> finishes reading s (start_next_read race s).
Proof. intros Hc Hi. apply start_next_read_with_finishes; [done|done|cbn; lia]. Qed.

Lemma map_stream_error_fails error : map_stream_error error < VI_SUCCESS.
Proof. by destruct error. Qed.

(** The status that the handler derives from the data agrees with the loop. *)
Lemma final_status count options data bytes data' rest ended :
  consume count options data bytes = (data', rest, ended) -> open_data count options data ->
  let status := if ends_with_termchar options data' then VI_SUCCESS_TERM_CHAR
    else if Z.of_nat (length data') =? count then VI_SUCCESS_MAX_CNT else VI_SUCCESS in
  (data' ≠ [] -> read_result_ok count options status data') /\
  (status = VI_SUCCESS -> rest = [] /\ open_data count options data') /\
  (status ≠ VI_SUCCESS -> read_result_ok count options status data').
Proof.
  intros He Ho. destruct (stream_consume_spec _ _ _ _ _ _ _ He) as [_ Hend]. specialize (Hend Ho). cbn.
  destruct ended as [st|].
  - destruct Hend as (Hst & Hok & Hiff & Hcase). destruct (ends_with_termchar options data').
    + rewrite (proj2 Hiff eq_refl) in Hok. done.
    + destruct Hcase as [Hx|[-> Hl]]; [by apply Hiff in Hx|]. rewrite (proj2 (Z.eqb_eq _ _) Hl). done.
  - destruct Hend as [-> Hopen]. rewrite (open_not_termchar _ _ _ Hopen).
    destruct (Z.eqb_spec (Z.of_nat (length data')) count) as [Hl|]; [destruct Hopen; lia|].
    split; [by right; right; right|done].
Qed.

(** The state in which the handler of a transfer runs. *)
Definition at_head (s : AsyncStream) (r : nat) (rq : Request) : Prop :=
  core s /\ live s r rq /\ rq_active rq = true /\ as_transfers s !! r = None /\
  match rq_kind rq with
  | ReadRequest count options => as_read_ahead s = [] /\ open_data count options (rq_data rq)
  | WriteRequest => True
  end.

(** A read whose transfer has ended is done, or it goes on with what the
    transfer has brought. *)
Definition reads_on (s : AsyncStream) (r : nat) (rq : Request) (amount : nat) (o : option AsyncStream) : Prop :=
  exists s' rq', o = Some s' /\ works reading s s' /\ settled reading s' /\ live s' r rq' /\
    is_Some (as_transfers s' !! r) /\
    rq_data rq' = rq_data rq ++ take amount (wi_incoming (as_wire s)).

Lemma read_handler_spec s r rq count options amount error :
  at_head s r rq -> rq_kind rq = ReadRequest count options ->
  let o := read_handler race r amount error s in
  ends reading r s o \/ error = None /\ reads_on s r rq amount o.
Proof.
  intros (Hc & Hl & Ha & Htr & Hopen) Hk. rewrite Hk in Hopen. destruct Hopen as [Hahead Hopen].
  pose proof Hl as [Hr Hd]. pose proof (reading_side _ _ _ Hk) as Hs. cbn zeta.
  unfold read_handler. rewrite Hr. cbn [mbind option_bind]. rewrite Hk.
  destruct (consume _ _ _ _) as [[data rest] ended] eqn:He.
  destruct (final_status _ _ _ _ _ _ _ He Hopen) as (Hfin & Hgoes & Hends). cbn zeta in *.
  destruct (stream_consume_spec _ _ _ _ _ _ _ He) as [Hb _].
  set (rq1 := rq_with_data data rq). set (s1 := with_wire _ _).
  assert (works reading s s1) as Hw.
  { apply data_works; try done. cbn. rewrite Hahead. cbn. rewrite app_assoc, <- Hb, <- app_assoc.
    by rewrite take_drop. }
  assert (live s1 r rq1) as Hl1 by (split; [by eapply lookup_set_eq|done]).
  assert (forall s2 proposed, works reading s1 s2 -> as_requests s2 = as_requests s1 ->
    as_transfers s2 = as_transfers s1 -> read_result_ok count options proposed data ->
    ends reading r s (complete_active_read race (start_next_read race) r proposed true s2)) as Hcomplete.
  { intros s2 proposed Hw2 Hr2 Ht2 Hp. eapply ends_trans; [by eapply works_trans|].
    apply (complete_active_read_ends _ s2 r rq1); try done; [apply Hw2| | | |].
    - destruct Hl1 as [Hlr ?]. split; [by rewrite Hr2|done].
    - by rewrite Ht2.
    - unfold result_ok, rq1. cbn. by rewrite Hk.
    - intros x Hx Hix _. by apply start_next_read_finishes. }
  assert (works reading s1 s1) as Hw1 by apply works_refl, Hw.
  destruct error as [error|].
  - left. destruct (co_live s Hc r rq Hl) as (_ & (op & Ho & Hf) & _).
    cbn [as_operations with_wire with_read_ahead set_request with_requests s1] in *.
    rewrite Ho. cbn [mbind option_bind].
    set (fail := if negb (bool_decide (data = [])) then _ else _).
    assert (ends reading r s fail) as Hfail.
    { unfold fail. case_bool_decide as Hdata; cbn [negb].
      - apply Hcomplete; try done. left. split; [apply map_stream_error_fails|done].
      - apply Hcomplete; try done; [|by apply Hfin]. by apply frame_works; [apply Hw1|..]. }
    destruct error; try exact Hfail. destruct (completed op) eqn:Hcd; [|exact Hfail].
    unfold restore_partial_read. rewrite (proj1 Hl1). cbn [mbind option_bind].
    set (rq2 := rq_with_data [] rq1). set (s2 := with_read_ahead _ _).
    assert (works reading s1 s2) as Hw2.
    { replace s2 with (with_wire (as_wire s1) s2) by done. apply (data_works s1 r rq1); try done.
      - apply Hw.
      - cbn [app]. by rewrite app_assoc. }
    eapply ends_trans; [by eapply works_trans|].
    apply (complete_active_read_ends _ s2 r rq2); try done; [apply Hw2| | | |].
    + split; [|done]. by apply (lookup_set_eq s1 r rq1), Hl1.
    + unfold result_ok, rq2, rq1. cbn. rewrite Hk. left. split; [by apply Hf|done].
    + intros _. by apply Hf.
    + intros x Hx Hix _. by apply start_next_read_finishes.
  - destruct (ends_with_termchar options data); [left; by apply Hcomplete; try apply Hends|].
    destruct (Z.of_nat (length data) =? count); [left; by apply Hcomplete; try apply Hends|].
    destruct (Hgoes eq_refl) as [-> Hopen1]. right. split; [done|]. rewrite app_nil_r in Hb.
    destruct (start_transfer_finishes s1 r rq1) as (s' & Hs' & Hw' & Hst); try done; [apply Hw| |].
    + cbn. by rewrite Hk, Hahead.
    + change (rq_side rq1) with (rq_side rq) in *. rewrite Hs in Hw', Hst. exists s', rq1. split; [done|].
      split; [by eapply works_trans|]. split; [done|]. unfold start_transfer in Hs'.
      rewrite option_guard_True in Hs' by done. injection Hs' as <-. split; [done|].
      split; [cbn; by rewrite lookup_insert_eq|by rewrite Hb].
Qed.

(** ** The side of the writes *)

Lemma start_next_write_with_finishes fuel : continues writing fuel (start_next_write_with race fuel).
Proof.
  induction fuel as [|fuel IH]; intros s Hc Hi Hlen; [lia|]. cbn [start_next_write_with].
  cbn in Hlen. destruct (as_write_queue s) as [|r q] eqn:Hq.
  { exists s. split; [done|]. split; [by apply works_refl|]. unfold settled. cbn. by rewrite Hq. }
  destruct (live_head s writing r q Hc Hq) as (rq & Hl & Hen & Hs). pose proof Hl as [Hr Hd].
  assert (rq_active rq = false) as Ha by (by apply (Hi r)).
  destruct (co_live s Hc r rq Hl) as (_ & (op & Ho & Hf) & _).
  assert (as_queue (rq_side rq) s = r :: q) as Hq' by (by rewrite Hs).
  rewrite Hr. cbn [mbind option_bind]. rewrite Hd, Ho. cbn [mbind option_bind].
  assert (forall o, (exists s', o = Some s' /\ works (rq_side rq) s s' /\ as_queue (rq_side rq) s' = q /\
      (forall x y, live s' x y <-> x ≠ r /\ live s x y)) ->
    finishes writing s (s' ← o; start_next_write_with race fuel s')) as Hgo.
  { intros o (s' & -> & Hw & Hqs & Hlv). cbn [mbind option_bind]. rewrite Hs in Hw.
    eapply finishes_trans; [exact Hw|]. apply IH; [apply Hw| |].
    - rewrite <- Hs. apply (retired_idle s s' r rq); try done. right. by rewrite Hs.
    - rewrite Hs in Hqs. rewrite Hqs. cbn in Hlen. lia. }
  destruct (completed op) eqn:Hcd.
  { apply Hgo. pose proof (completed_works s r rq q op Hc Hl Ha Hq' Ho Hcd) as H. by rewrite Hs in *. }
  destruct (deadline_passed op s).
  { apply Hgo. pose proof (refuse_works s r rq VI_ERROR_TMO q Hc Hl Ha Hq') as H. rewrite Hs in *. by apply H. }
  set (s1 := set_request r (rq_activate true rq) s).
  assert (works (rq_side rq) s s1) as Hw.
  { apply (change_works s _ r rq (rq_activate true rq)); try done.
    - cbn. by rewrite Hq'.
    - pose proof (co_bytes s Hc) as Hcb. unfold conserved, head_data in *. cbn. rewrite Hcb. f_equal. f_equal.
      destruct (as_read_queue s) as [|x l] eqn:Hx; [done|]. rewrite list_lookup_insert_ne; [done|].
      intros <-. destruct (live_head s reading r l Hc Hx) as (y & [Hy _] & _ & Hsy). congruence. }
  rewrite Hs in Hw. eapply finishes_trans; [exact Hw|]. rewrite <- Hs.
  apply (start_transfer_finishes s1 r (rq_activate true rq)); try done; [rewrite <- Hs in Hw; apply Hw| | |].
  - split; [by eapply lookup_set_eq|done].
  - by apply (live_transfer s r rq).
  - cbn. unfold rq_side in Hs. by destruct (rq_kind rq).
Qed.

Lemma start_next_write_finishes s : core s -> idle writing s -> finishes writing s (start_next_write race s).
Proof. intros Hc Hi. apply start_next_write_with_finishes; [done|done|cbn; lia]. Qed.

Lemma write_handler_ends s r rq amount error :
  at_head s r rq -> rq_kind rq = WriteRequest -> (error = None -> amount = length (rq_data rq)) ->
  ends writing r s (write_handler race r amount error s).
Proof.
  intros (Hc & Hl & Ha & Htr & _) Hk Hamount. pose proof Hl as [Hr Hd].
  assert (rq_side rq = writing) as Hs by (unfold rq_side; by rewrite Hk).
  destruct (active_head s r rq Hc Hl Ha) as [q Hq]. rewrite Hs in Hq. cbn in Hq.
  destruct (co_live s Hc r rq Hl) as (Hcm & (op & Ho & Hf) & _).
  unfold write_handler. rewrite Hr. cbn [mbind option_bind]. rewrite Ho. cbn [mbind option_bind].
  set (s1 := with_wire _ s). set (step := match error with Some _ => _ | None => _ end).
  assert (exists status count op', step =
      Some (status, count, with_operations (<[rq_operation rq := op']> (as_operations s1)) s1) /\
    keeps_result op op' /\ cancel_handler_ op' = cancel_handler_ op /\
    write_result_ok status count (rq_data rq)) as (status & count & op' & -> & Hk' & Hh & Hok).
  { unfold step. destruct error as [error|].
    - do 2 eexists. exists op. split; [f_equal; f_equal|].
      + cbn. rewrite insert_id by done. by destruct s.
      + split; [done|]. split; [done|]. left. pose proof (map_stream_error_fails error).
        destruct error; try done. destruct (completed op) eqn:Hcd; [by apply Hf|done].
    - destruct (claim_spec _ VI_SUCCESS s1 op Ho Hf) as (won & op' & -> & Hk' & Hh & Hres).
      cbn [mbind option_bind]. destruct won.
      + do 2 eexists. exists op'. split; [done|]. split; [done|]. split; [done|]. right.
        by rewrite Hamount.
      + cbn [as_operations with_operations]. rewrite lookup_insert_eq. cbn [mbind option_bind].
        do 2 eexists. exists op'. split; [done|]. split; [done|]. split; [done|]. by left. }
  cbn [mbind option_bind]. unfold fulfill_write.
  set (rq1 := rq_activate false rq). set (s2 := pop_if_front _ _ _).
  assert (s2 = with_queue writing q (set_request r rq1
    (with_operations (<[rq_operation rq := op']> (as_operations s1)) s1))) as ->.
  { unfold s2, pop_if_front. cbn. by rewrite Hq, Nat.eqb_refl. }
  rewrite (fulfill_eq r _ _ rq1); [|by apply lookup_set_eq with rq|done|done].
  cbn [mbind option_bind]. set (s3 := hand_out _ _).
  destruct (retire_works s s3 r rq (rq_finish (WriteResult status count) rq1) (WriteResult status count) [] op op')
    as [Hw Hlv]; try done; rewrite ?Hs; try done.
  - cbn. by rewrite list_insert_insert_eq.
  - unfold result_ok. cbn. by rewrite Hk.
  - cbn. rewrite Hq. cbn. by rewrite Nat.eqb_refl.
  - by right.
  - rewrite Hs in Hw. eapply ends_trans; [exact Hw|].
    apply (finishes_ends _ r s3 (rq_finish (WriteResult status count) rq1)); [|done|].
    { cbn. rewrite list_insert_insert_eq. by apply (lookup_set_eq s r rq). }
    apply start_next_write_finishes; [apply Hw|].
    rewrite <- Hs. apply (retired_idle s s3 r rq); try done. by left.
Qed.

Lemma transfer_handler_spec s r rq amount error :
  at_head s r rq -> (rq_kind rq = WriteRequest -> error = None -> amount = length (rq_data rq)) ->
  let o := transfer_handler race r amount error s in
  ends (rq_side rq) r s o \/ error = None /\ rq_side rq = reading /\ reads_on s r rq amount o.
Proof.
  intros Hat Ham. pose proof Hat as (_ & [Hr _] & _). unfold transfer_handler. rewrite Hr.
  cbn [mbind option_bind]. unfold rq_side. destruct (rq_kind rq) eqn:Hk; cbn zeta.
  - destruct (read_handler_spec s r rq count options amount error Hat Hk) as [H|[H1 H2]]; auto.
  - left. apply (write_handler_ends s r rq); auto.
Qed.

Lemma transfer_handler_finishes s r rq amount error :
  at_head s r rq -> (rq_kind rq = WriteRequest -> error = None -> amount = length (rq_data rq)) ->
  finishes (rq_side rq) s (transfer_handler race r amount error s).
Proof.
  intros Hat Ham. destruct (transfer_handler_spec s r rq amount error Hat Ham) as [H|(_ & -> & H)].
  - by eapply ends_finishes.
  - destruct H as (s' & rq' & ? & ? & ? & _). by exists s'.
Qed.

End handlers.

(** ** What callers, the peer and the system keep to *)

Definition race_ok (race : nat -> option Z) : Prop :=
  forall o status, race o = Some status -> status < VI_SUCCESS.

(** A call is under way with the operation. *)
Definition uses (s : AsyncStream) (o : nat) : Prop :=
  exists r rq, live s r rq /\ rq_operation rq = o.

(** Operations outlive their calls and run one call at a time; while a call is
    under way others complete its operation only to make it fail; a transfer
    moves no more bytes than there are, a write without error all of them, and it
    is aborted only when its cancellation was asked for. *)
Definition enabled (e : event) (s : AsyncStream) : Prop :=
  match e with
  | Read o count options =>
      (exists op, as_operations s !! o = Some op /\ fails_only op) /\ ~ uses s o /\ 0 < count
  | Write o buffer => (exists op, as_operations s !! o = Some op /\ fails_only op) /\ ~ uses s o
  | RunTask race => race_ok race
  | TransferEnds race r amount error =>
      race_ok race /\ exists cancelled rq,
        as_transfers s !! r = Some cancelled /\ as_requests s !! r = Some rq /\
        (error = Some ec_operation_aborted -> cancelled = true) /\
        match rq_kind rq with
        | ReadRequest _ _ => (amount <= 4096)%nat /\ (amount <= length (wi_incoming (as_wire s)))%nat
        | WriteRequest =>
            (amount <= length (rq_data rq))%nat /\ (error = None -> amount = length (rq_data rq))
        end
  | Tick now => as_clock s <= now
  | CreateOperation o op => as_operations s !! o = None /\ cancel_handler_ op = None /\ fails_only op
  | CompleteOperation o status =>
      is_Some (as_operations s !! o) /\ (uses s o -> status < VI_SUCCESS)
  | NotifyOperation o => exists op, as_operations s !! o = Some op /\ completed op = true
  | ReturnCall o => is_Some (as_operations s !! o) /\ ~ uses s o
  | DestroyOperation o => ~ uses s o
  | OnStream _ | WaitEnds _ _ | PeerSends _ => True
  end.

Definition stream_step (s s' : AsyncStream) : Prop := exists e, enabled e s /\ handle e s = Some s'.

(** Results are final. *)
Definition settles (s s' : AsyncStream) : Prop :=
  forall r rq, as_requests s !! r = Some rq -> exists rq', as_requests s' !! r = Some rq' /\
    rq_operation rq' = rq_operation rq /\ rq_kind rq' = rq_kind rq /\ (rq_done rq = true -> rq' = rq).

Definition moves (s : AsyncStream) (o : option AsyncStream) : Prop :=
  exists s', o = Some s' /\ stream_ok s' /\ settles s s'.

Lemma settles_same s s' : as_requests s' = as_requests s -> settles s s'.
Proof. intros E r rq Hr. exists rq. by rewrite E. Qed.

Lemma works_settles sd s s' : works sd s s' -> settles s s'.
Proof.
  intros Hw r rq Hr. destruct (wk_requests _ _ _ Hw r rq Hr) as (rq' & ? & ? & ? & H). exists rq'. auto 6.
Qed.

Lemma settles_trans s1 s2 s3 : settles s1 s2 -> settles s2 s3 -> settles s1 s3.
Proof.
  intros H1 H2 r rq Hr. destruct (H1 r rq Hr) as (rq2 & Hr2 & ? & ? & Hd2).
  destruct (H2 r rq2 Hr2) as (rq3 & Hr3 & ? & ? & Hd3). exists rq3. split; [done|].
  split; [congruence|]. split; [congruence|]. intros Hd. specialize (Hd2 Hd). subst rq2. auto.
Qed.

Lemma settled_sides sd s : settled sd s -> settled (other sd) s -> core s -> stream_ok s.
Proof. by destruct sd. Qed.

Lemma sides_settled sd s : stream_ok s -> settled sd s.
Proof. intros (_ & ? & ?). by destruct sd. Qed.

(** A handler that ends with its side settled. *)
Lemma finishes_moves sd s s1 o :
  core s -> settled (other sd) s -> works sd s s1 -> finishes sd s1 o -> moves s o.
Proof.
  intros Hc Hs Hw (s' & -> & Hw' & Hset). assert (works sd s s') as Hws by by eapply works_trans.
  exists s'. split; [done|]. split; [|by eapply works_settles].
  apply (settled_sides sd); [done| |apply Hws]. by eapply works_settled_other.
Qed.

(** What happens outside the handlers. *)
Lemma outside_ok s s' :
  stream_ok s -> as_requests s' = as_requests s -> as_read_queue s' = as_read_queue s ->
  as_write_queue s' = as_write_queue s -> as_read_ahead s' = as_read_ahead s ->
  (forall x, is_Some (as_transfers s' !! x) <-> is_Some (as_transfers s !! x)) ->
  (forall r rq, live s r rq -> exists op, as_operations s' !! rq_operation rq = Some op /\ fails_only op) ->
  (forall r, enqueue_task r ∈ as_posted s -> enqueue_task r ∈ as_posted s') ->
  posted_ok s' -> conserved s' -> stream_ok s'.
Proof.
  intros (Hc & Hsr & Hsw) Er Erq Ewq Ea Et Ho Hp Hpo Hb.
  assert (forall sd, as_queue sd s' = as_queue sd s) as Eq by (by intros []).
  assert (forall sd, settled sd s -> settled sd s') as Hset.
  { intros sd. unfold settled. rewrite Eq. destruct (as_queue sd s) as [|r q]; [done|].
    intros (rq & Hr & Ha & Ht & Hk). exists rq. rewrite Er, Ea. split; [done|]. split; [done|].
    split; [by apply Et|done]. }
  split; [|auto]. pose proof Hc as [Hdone Hlv Hu Hq Hn Ht _ _].
  split; unfold live, live_ok; rewrite ?Er; try done.
  - intros r rq Hl. destruct (Hlv r rq Hl) as (H1 & _ & H3 & H4 & H5). rewrite Eq.
    split; [done|]. split; [by apply (Ho r)|]. split; [done|]. split; [|done].
    destruct (rq_enqueued rq); [done|]. destruct H4. split; [by apply Hp|done].
  - intros sd r. rewrite Eq. apply Hq.
  - intros sd. rewrite Eq. apply Hn.
  - intros r. rewrite Et. apply Ht.
Qed.

Lemma outside_moves s s' :
  stream_ok s -> as_requests s' = as_requests s -> as_read_queue s' = as_read_queue s ->
  as_write_queue s' = as_write_queue s -> as_read_ahead s' = as_read_ahead s ->
  (forall x, is_Some (as_transfers s' !! x) <-> is_Some (as_transfers s !! x)) ->
  (forall r rq, live s r rq -> exists op, as_operations s' !! rq_operation rq = Some op /\ fails_only op) ->
  (forall r, enqueue_task r ∈ as_posted s -> enqueue_task r ∈ as_posted s') ->
  posted_ok s' -> conserved s' -> moves s (Some s').
Proof.
  intros. exists s'. split; [done|]. split; [by apply (outside_ok s)|by apply settles_same].
Qed.

Lemma live_operation s r rq :
  core s -> live s r rq -> exists op, as_operations s !! rq_operation rq = Some op /\ fails_only op.
Proof. intros Hc Hl. by destruct (co_live s Hc r rq Hl) as (_ & ? & _). Qed.

(** ** The events *)

Lemma post_cancels_eq handlers s :
  post_cancels handlers s = with_posted (as_posted s ++ (cancel_task <$> handlers)) s.
Proof.
  unfold post_cancels. revert s. induction handlers as [|h handlers IH]; intros s; cbn.
  - rewrite app_nil_r. by destruct s.
  - rewrite IH. cbn. by rewrite <- app_assoc.
Qed.

Lemma omap_cancels {A} (f : task -> option A) (handlers : list nat) :
  (forall r, f (cancel_task r) = None) -> omap f (cancel_task <$> handlers) = [].
Proof. intros Hf. induction handlers as [|h handlers IH]; [done|]. cbn. by rewrite Hf. Qed.

Lemma elem_of_cancels (t : task) (handlers : list nat) :
  t ∈ (cancel_task <$> handlers : list task) -> exists r, t = cancel_task r /\ r ∈ handlers.
Proof. intros (r & -> & Hr)%list_elem_of_fmap. by exists r. Qed.

Lemma conserved_same s s' :
  conserved s -> as_requests s' = as_requests s -> as_read_queue s' = as_read_queue s ->
  as_read_ahead s' = as_read_ahead s -> as_wire s' = as_wire s -> conserved s'.
Proof. unfold conserved, head_data. by intros H -> -> -> ->. Qed.

(** An operation changes, and tasks of its cancellation handler are posted. *)
Lemma operation_moves s o op op' handlers :
  stream_ok s -> as_operations s !! o = Some op -> keeps_result op op' ->
  (fails_only op' \/ ~ uses s o) ->
  (forall r, r ∈ handlers \/ cancel_handler_ op' = Some r -> cancel_handler_ op = Some r) ->
  (handlers ≠ [] -> completed op' = true) ->
  moves s (Some (post_cancels handlers (with_operations (<[o := op']> (as_operations s)) s))).
Proof.
  intros Hok Ho Hk Hf Hh Hcd. rewrite post_cancels_eq. cbn [as_posted with_operations].
  pose proof Hok as (Hc & _ & _). destruct (co_posted s Hc) as [H1 H2 H3 H4 H5 H6 H7 H8].
  apply outside_moves; try done.
  - intros r rq Hl. cbn. destruct (decide (rq_operation rq = o)) as [<-|Hne].
    + exists op'. rewrite lookup_insert_eq. split; [done|]. destruct Hf as [|Hf]; [done|].
      exfalso. apply Hf. by exists r, rq.
    + rewrite lookup_insert_ne by done. by apply live_operation with r.
  - intros r Hr. cbn. apply elem_of_app. by left.
  - split; cbn; rewrite ?omap_app, ?omap_cancels, ?app_nil_r by done; try done.
    + intros t r. rewrite elem_of_app. intros [Ht|(h & -> & Hin)%elem_of_cancels]; [by apply H1|].
      intros [= ->]. destruct (H6 o op r Ho) as (rq & -> & _); [by apply Hh; left|by eexists].
    + intros r rq. rewrite elem_of_app. intros [Ht|(h & [=] & _)%elem_of_cancels]. by apply H2.
    + intros x y r. destruct (decide (x = o)) as [->|Hne].
      * rewrite lookup_insert_eq. intros [= <-] Hx. apply (H6 o op r Ho). apply Hh. by right.
      * rewrite lookup_insert_ne by done. apply H6.
    + intros r rq x. rewrite elem_of_app. intros Ht [Hr Hd] Hx.
      destruct (decide (rq_operation rq = o)) as [He|Hne].
      * rewrite He, lookup_insert_eq in Hx. injection Hx as <-.
        destruct Ht as [Ht|(h & [= ->] & Hin)%elem_of_cancels].
        -- assert (completed op = true) as Hop by (apply (H7 r rq op); [done|by split|congruence]).
           unfold completed in *. by rewrite (Hk Hop).
        -- apply Hcd. intros ->. by apply not_elem_of_nil in Hin.
      * rewrite lookup_insert_ne in Hx by done.
        destruct Ht as [Ht|(h & [= ->] & Hin)%elem_of_cancels]; [by apply (H7 r rq x)|].
        destruct (H6 o op h Ho) as (y & Hy & Hyo); [by apply Hh; left|cbn in Hr; congruence].
  - apply (conserved_same s); [apply Hc|done..].
Qed.

Lemma posted_ok_same s s' :
  posted_ok s -> as_requests s' = as_requests s -> as_operations s' = as_operations s ->
  as_posted s' = as_posted s -> as_waits s' = as_waits s -> as_calls s' = as_calls s -> posted_ok s'.
Proof.
  intros [H1 H2 H3 H4 H5 H6 H7 H8] Er Eo Ep Ew Ec.
  by split; unfold live; rewrite ?Er, ?Eo, ?Ep, ?Ew, ?Ec.
Qed.

(** A call of [read] or [write] up to its wait. *)
Lemma start_request_moves s o op kind data :
  stream_ok s -> as_operations s !! o = Some op -> fails_only op -> ~ uses s o ->
  match kind with ReadRequest count _ => 0 < count /\ data = [] | WriteRequest => True end ->
  moves s (start_request o kind data s).
Proof.
  intros Hok Ho Hf Hu Hkind. unfold start_request. rewrite Ho. cbn [mbind option_bind].
  set (n := length (as_requests s)). set (rq := mkRequest _ _ _ _ _ _ _).
  assert (exists handlers op', set_cancel_handler n op = (handlers, op') /\ keeps_result op op' /\
    fails_only op' /\ (forall r, r ∈ handlers \/ cancel_handler_ op' = Some r -> r = n \/ cancel_handler_ op = Some r) /\
    (handlers ≠ [] -> completed op' = true)) as (handlers & op' & -> & Hk & Hf' & Hh & Hcd).
  { unfold set_cancel_handler. destruct (completed op) eqn:E; do 2 eexists; (split; [reflexivity|]).
    - repeat split; try done. intros r [->%list_elem_of_singleton|Hr]; [by left|by right].
    - split; [intros; congruence|]. split; [intros Hx; unfold completed in *; cbn in Hx; congruence|].
      split; [|done]. intros r [[]%not_elem_of_nil|[= <-]]. by left. }
  rewrite post_cancels_eq. cbn [as_posted with_operations with_requests].
  set (s' := post _ _). pose proof Hok as (Hc & Hsr & Hsw). pose proof Hc as [Hdone Hlv Hun Hq Hn Ht Hp Hb].
  destruct Hp as [H1 H2 H3 H4 H5 H6 H7 H8].
  assert (forall x y, as_requests s !! x = Some y -> as_requests s' !! x = Some y) as Hkeep
    by (intros x y; apply lookup_app_l_Some).
  assert (as_requests s' !! n = Some rq) as Hnew by (cbn; by apply list_lookup_middle).
  assert (forall x y, as_requests s' !! x = Some y -> as_requests s !! x = Some y \/ x = n /\ y = rq) as Hinv.
  { intros x y Hx. cbn in Hx. apply lookup_snoc_Some in Hx as [[_ Hx]|[-> ->]]; auto. }
  assert (forall x, is_Some (as_requests s !! x) -> is_Some (as_requests s' !! x)) as Hsome
    by (intros x [y Hy]; exists y; auto).
  assert (forall x, is_Some (as_requests s !! x) -> x ≠ n) as Hold
    by (intros x Hx%lookup_lt_is_Some; unfold n; lia).
  assert (forall r y, as_requests s !! r = Some y -> rq_done y = false -> rq_operation y ≠ o) as Hnot.
  { intros r y Hr Hd He. apply Hu. exists r, y. done. }
  assert (posted_ok s') as Hp'.
  { split; cbn.
    - intros t r. rewrite !elem_of_app, list_elem_of_singleton.
      intros [[Htk|(h & -> & Hin)%elem_of_cancels]| ->]; [intros Hr; by apply Hsome, (H1 t)| |].
      + intros [= ->]. destruct (Hh r) as [->|Hr]; [by left|exact (mk_is_Some _ _ Hnew)|].
        destruct (H6 o op r Ho Hr) as (y & Hy & _). apply Hsome. by eexists.
      + intros [= <-]. exact (mk_is_Some _ _ Hnew).
    - intros r y. rewrite !elem_of_app, list_elem_of_singleton.
      intros [[Htk|(h & [=] & _)%elem_of_cancels]|[= Hx]] [Hy|[_ ->]]%Hinv; try done; [by apply (H2 r)|].
      exfalso. by apply (Hold r); [eexists|].
    - rewrite !omap_app, omap_cancels, app_nil_r by done. cbn. apply NoDup_app. split; [done|].
      split; [|apply NoDup_singleton]. intros x (t & Ht' & Hx)%list_elem_of_omap ->%list_elem_of_singleton.
      destruct t as [x| |]; try done. injection Hx as ->. by apply (Hold n (H1 _ n Ht' eq_refl)).
    - intros c. rewrite !omap_app, omap_cancels, !app_nil_r by done. apply H4.
    - rewrite !omap_app, omap_cancels, !app_nil_r by done. done.
    - intros x y r. destruct (decide (x = o)) as [->|Hne].
      + rewrite lookup_insert_eq. intros [= <-] Hx. destruct (Hh r) as [->|Hr]; [by right|by exists rq|].
        destruct (H6 o op r Ho Hr) as (z & Hz & ?). exists z. auto.
      + rewrite lookup_insert_ne by done. intros Hy Hyr. destruct (H6 x y r Hy Hyr) as (z & Hz & ?).
        exists z. auto.
    - intros r y x. rewrite !elem_of_app, list_elem_of_singleton.
      intros [[Htk|(h & [= ->] & Hin)%elem_of_cancels]|[=]] [[Hy|[-> ->]]%Hinv Hd] Hx.
      + rewrite lookup_insert_ne in Hx by (by apply not_eq_sym, (Hnot r)). by apply (H7 r y).
      + exfalso. apply (Hold n); [|done]. by apply (H1 (cancel_task n)).
      + destruct (Hh h) as [->|Hr]; [by left|by exfalso; apply (Hold n); [eexists|]|].
        destruct (H6 o op h Ho Hr) as (z & Hz & Hzo). exfalso. apply (Hnot h y Hy Hd). congruence.
      + rewrite lookup_insert_eq in Hx. injection Hx as <-. apply Hcd. intros ->. by apply not_elem_of_nil in Hin.
    - intros r Hr. by apply Hsome, H8. }
  assert (core s') as Hc'.
  { split; try done.
    - intros r y [Hr|[-> ->]]%Hinv; [|done]. by apply Hdone with r.
    - intros r y [[Hr|[-> ->]]%Hinv Hd].
      + destruct (Hlv r y (conj Hr Hd)) as (G1 & G2 & G3 & G4 & G5).
        split; [done|]. split; [|split; [done|split; [|done]]].
        * cbn. rewrite lookup_insert_ne by (by apply not_eq_sym, (Hnot r)). done.
        * destruct (rq_enqueued y); [done|]. destruct G4. split; [|done]. cbn. rewrite !elem_of_app. auto.
      + split; [done|]. split; [exists op'; cbn; by rewrite lookup_insert_eq|]. cbn.
        split; [by destruct kind; [destruct Hkind|]|]. split; [split; [|done]|].
        * rewrite !elem_of_app. right. by apply list_elem_of_singleton.
        * unfold rq_side. cbn. destruct kind; [by destruct Hkind|done].
    - intros r r' y y' [[Hr|[-> ->]]%Hinv Hd] [[Hr'|[-> ->]]%Hinv Hd'] He; [by apply (Hun r r' y y')| | |done].
      + exfalso. by apply (Hnot r y).
      + exfalso. by apply (Hnot r' y').
    - intros sd r Hr. destruct (Hq sd r) as (y & [Hy Hd] & ?); [by destruct sd|]. exists y.
      split; [split; [auto|done]|done].
    - intros r Hr. destruct (Ht r Hr) as (y & [Hy Hd] & ?). exists y. split; [split; [auto|done]|done].
    - unfold conserved, head_data in *. cbn. rewrite Hb. f_equal. f_equal.
      destruct (as_read_queue s) as [|r q] eqn:Hrq; [done|].
      destruct (live_head s reading r q Hc Hrq) as (y & [Hy _] & _). pose proof (Hkeep r y Hy) as Hy'. cbn in Hy'. by rewrite Hy, Hy'. }
  exists s'. split; [done|]. split.
  - split; [done|]. assert (forall sd, settled sd s -> settled sd s') as Hset; [|auto].
    intros sd. unfold settled. replace (as_queue sd s') with (as_queue sd s) by (by destruct sd).
    destruct (as_queue sd s) as [|r q]; [done|]. intros (y & Hy & ?). exists y. auto.
  - intros r y Hr. exists y. auto.
Qed.

(** A task leaves the strand's queue; [enqueue_task] is what its request waited for. *)
Lemma posted_ok_pop s t posted :
  posted_ok s -> as_posted s = t :: posted -> posted_ok (with_posted posted s).
Proof.
  intros [H1 H2 H3 H4 H5 H6 H7 H8] Hp. rewrite Hp in *. split; cbn; try done.
  - intros t' r Ht. apply H1. by right.
  - intros r rq Ht. apply H2. by right.
  - cbn in H3. destruct (enqueues t); [by apply NoDup_cons in H3 as [_ ?]|done].
  - intros c Hcall. apply H4. cbn. destruct (calls t); [by right|done].
  - cbn in H5. destruct (calls t); [by apply NoDup_cons in H5 as [_ ?]|done].
  - intros r rq op Ht. apply H7. by right.
Qed.

Lemma pop_task_ok s t posted :
  stream_ok s -> as_posted s = t :: posted ->
  (forall r rq, t = enqueue_task r -> ~ live s r rq) -> stream_ok (with_posted posted s).
Proof.
  intros (Hc & Hsr & Hsw) Hp Ht. split; [|by split]. pose proof Hc as [Hdone Hlv Hu Hq Hn Htr Hpo Hb].
  split; try done; [|by eapply posted_ok_pop].
  intros r rq Hl. destruct (Hlv r rq Hl) as (H1 & H2 & H3 & H4 & H5). split; [done|]. split; [done|].
  split; [done|]. split; [|done]. destruct (rq_enqueued rq); [done|]. destruct H4 as [H4 ?]. split; [|done].
  rewrite Hp in H4. apply elem_of_cons in H4 as [<-|H4]; [|done]. exfalso. by apply (Ht r rq).
Qed.

(** A request joins the end of its queue. *)
Lemma join_core s r rq posted waits :
  core s -> live s r rq -> as_posted s = enqueue_task r :: posted ->
  (forall x, x ∈ waits -> x ∈ as_waits s \/ x = r) ->
  let s' := with_queue (rq_side rq) (as_queue (rq_side rq) s ++ [r])
    (set_request r (rq_enqueue rq) (with_waits waits (with_posted posted s))) in
  core s' /\ live s' r (rq_enqueue rq) /\ rq_active rq = false /\
  (forall x y, x ≠ r -> live s' x y <-> live s x y).
Proof.
  intros Hc Hl Hp Hwaits s'. pose proof Hl as [Hr Hd].
  pose proof Hc as [Hdone Hlv Hu Hq Hn Htr Hpo Hb]. destruct (Hlv r rq Hl) as (G1 & G2 & G3 & G4 & G5).
  assert (rq_enqueued rq = false) as Hen by (apply (po_fresh s Hpo r rq); [rewrite Hp; left|done]).
  rewrite Hen in G4. destruct G4 as [_ Ha]. rewrite Ha in G5.
  assert (live s' r (rq_enqueue rq)) as Hl'.
  { split; [|done]. unfold s'. destruct (rq_side rq); by apply (lookup_set_eq s r rq). }
  assert (as_requests s' = <[r := rq_enqueue rq]> (as_requests s)) as Er by (unfold s'; by destruct (rq_side rq)).
  assert (forall x y, x ≠ r -> live s' x y <-> live s x y) as Hlive.
  { intros x y Hne. unfold live. by rewrite Er, list_lookup_insert_ne. }
  assert (forall x y, live s' x y -> x = r /\ y = rq_enqueue rq \/ x ≠ r /\ live s x y) as Hcase.
  { intros x y Hx. destruct (decide (x = r)) as [->|Hne]; [left|right; split; [done|by apply Hlive]].
    split; [done|]. destruct Hl' as [Hy _], Hx as [Hx _]. congruence. }
  assert (as_queue (rq_side rq) s' = as_queue (rq_side rq) s ++ [r]) as Eq by apply queue_with_queue.
  assert (as_queue (other (rq_side rq)) s' = as_queue (other (rq_side rq)) s) as Eqo
    by (unfold s'; by destruct (rq_side rq)).
  assert (forall sd, r ∉ as_queue sd s) as Hnot.
  { intros sd Hx. destruct (Hq sd r Hx) as (y & [Hy _] & Hey & _). congruence. }
  assert (forall sd x, x ∈ as_queue sd s -> x ∈ as_queue sd s') as Hin.
  { intros sd x Hx. destruct (decide (sd = rq_side rq)) as [->|Hne].
    - rewrite Eq. apply elem_of_app. by left.
    - rewrite (side_other _ _ Hne) in *. by rewrite Eqo. }
  split; [|done]. split.
  - intros x y. rewrite Er. intros [[-> ->]|[_ Hx]]%(lookup_set _ _ _ _ _ _ Hr); [cbn; congruence|].
    by apply Hdone with x.
  - intros x y [[-> ->]|[Hne Hx]]%Hcase.
    + split; [done|]. split; [unfold s'; by destruct (rq_side rq)|]. split; [done|]. cbn.
      split; [|by rewrite Ha]. change (r ∈ as_queue (rq_side rq) s'). rewrite Eq.
      apply elem_of_app. right. by apply list_elem_of_singleton.
    + destruct (Hlv x y Hx) as (F1 & F2 & F3 & F4 & F5).
      split; [done|]. split; [unfold s'; by destruct (rq_side rq)|]. split; [done|]. split.
      * destruct (rq_enqueued y); [by apply Hin|]. destruct F4 as [F4 ?]. split; [|done].
        replace (as_posted s') with posted by (unfold s'; by destruct (rq_side rq)).
        rewrite Hp in F4. apply elem_of_cons in F4 as [[= ->]|]; done.
      * destruct (rq_active y); [|done]. destruct (decide (rq_side y = rq_side rq)) as [Hs|Hs].
        -- rewrite Hs, Eq in *. by destruct (as_queue (rq_side rq) s).
        -- rewrite (side_other _ _ Hs) in *. by rewrite Eqo.
  - intros x x' y y' [[-> ->]|[Hx Hlx]]%Hcase [[-> ->]|[Hx' Hlx']]%Hcase He; [done| | |].
    + by apply (Hu r x' rq y').
    + by apply (Hu x r y rq).
    + by apply (Hu x x' y y').
  - intros sd x Hx. assert (x ∈ as_queue sd s \/ x = r /\ sd = rq_side rq) as [Hxs|[-> ->]].
    { destruct (decide (sd = rq_side rq)) as [->|Hne].
      - rewrite Eq in Hx. apply elem_of_app in Hx as [Hx|Hx%list_elem_of_singleton]; auto.
      - rewrite (side_other _ _ Hne) in *. rewrite Eqo in Hx. by left. }
    + destruct (Hq sd x Hxs) as (y & Hy & ?). exists y. split; [|done]. apply Hlive; [|done].
      intros ->. by apply (Hnot sd).
    + by exists (rq_enqueue rq).
  - intros sd. destruct (decide (sd = rq_side rq)) as [->|Hne].
    + rewrite Eq. apply NoDup_app. split; [apply Hn|]. split; [|apply NoDup_singleton].
      intros x Hx ->%list_elem_of_singleton. by apply (Hnot (rq_side rq)).
    + rewrite (side_other _ _ Hne), Eqo. apply Hn.
  - intros x Hx. replace (as_transfers s') with (as_transfers s) in Hx by (unfold s'; by destruct (rq_side rq)).
    destruct (Htr x Hx) as (y & Hy & Hya). exists y. split; [|done]. apply Hlive; [|done].
    intros ->. destruct Hy. congruence.
  - destruct (posted_ok_pop s _ posted Hpo Hp) as [H1 H2 H3 H4 H5 H6 H7 H8].
    assert (enqueue_task r ∉ posted) as Hgone.
    { pose proof (po_once s Hpo) as Ho. rewrite Hp in Ho. cbn in Ho. apply NoDup_cons in Ho as [Ho _].
      intros Hx. apply Ho, list_elem_of_omap. by exists (enqueue_task r). }
    pose proof (is_Some_set s r (rq_enqueue rq)) as Hsome.
    unfold s'. split; destruct (rq_side rq) eqn:Hs; cbn; try done.
    1,2: intros t x Ht Hx; by apply Hsome, (H1 t).
    1,2: intros x y Ht [[-> ->]|[_ Hx]]%(lookup_set _ _ _ _ _ _ Hr); [done|by apply (H2 x)].
    1,2: intros o op x Ho Hh; destruct (H6 o op x Ho Hh) as (y & Hy & Hyo); destruct (decide (x = r)) as [->|Hne];
      [exists (rq_enqueue rq); split; [by apply (lookup_set_eq s r rq)|cbn in *; congruence]
      |exists y; by rewrite list_lookup_insert_ne].
    1,2: intros x y op Ht [Hx Hxd] Ho; cbn in Hx; apply (lookup_set _ _ _ _ _ _ Hr) in Hx as [[-> ->]|[_ Hx]];
      [by apply (H7 r rq op)|by apply (H7 x y op)].
    1,2: intros x [Hx| ->]%Hwaits; [by apply Hsome, H8|by apply Hsome; rewrite Hr].
  - unfold conserved, head_data in *. unfold s'. destruct (rq_side rq) eqn:Hs; cbn.
    + rewrite Hb. f_equal. f_equal. destruct (as_read_queue s) as [|x q] eqn:Hqx; cbn.
      * rewrite (lookup_set_eq s r rq) by done. cbn. by rewrite G5.
      * rewrite list_lookup_insert_ne; [done|]. intros ->. apply (Hnot reading). cbn. rewrite Hqx. left.
    + rewrite Hb. f_equal. f_equal. destruct (as_read_queue s) as [|x q] eqn:Hqx; cbn; [done|].
      rewrite list_lookup_insert_ne; [done|]. intros ->. apply (Hnot reading). cbn. rewrite Hqx. left.
Qed.

Section tasks.
  Context (race : nat -> option Z) (Hrace : race_ok race).

Lemma start_next_finishes sd s : core s -> idle sd s -> finishes sd s (start_next race sd s).
Proof. destruct sd; [by apply start_next_read_finishes|by apply start_next_write_finishes]. Qed.

Lemma stream_enqueue_moves s r posted :
  stream_ok s -> as_posted s = enqueue_task r :: posted ->
  moves s (enqueue race r (with_posted posted s)).
Proof.
  intros Hok Hp. pose proof Hok as (Hc & _). unfold enqueue. cbn [as_requests with_posted].
  destruct (po_request s (co_posted s Hc) (enqueue_task r) r) as [rq Hr]; [rewrite Hp; left|done|].
  rewrite Hr. cbn [mbind option_bind]. destruct (rq_done rq) eqn:Hd.
  { eexists. split; [done|]. split; [|by apply settles_same].
    apply (pop_task_ok s (enqueue_task r)); [done|done|]. intros x y [= <-] [Hx Hxd]. congruence. }
  assert (live s r rq) as Hl by done. destruct (live_operation s r rq Hc Hl) as (op & Ho & _).
  unfold arm_timeout. cbn [as_operations with_posted]. rewrite Ho. cbn [mbind option_bind].
  set (armed := match deadline_ op with None => _ | Some _ => _ end).
  assert (exists waits, armed = Some (with_waits waits (with_posted posted s)) /\
    forall x, x ∈ waits -> x ∈ as_waits s \/ x = r) as (waits & -> & Hwaits).
  { unfold armed. destruct (deadline_ op); eexists; (split; [reflexivity|]); cbn; [|by left].
    intros x [|Hx%list_elem_of_singleton]%elem_of_app; auto. }
  cbn [mbind option_bind]. destruct (join_core s r rq posted waits Hc Hl Hp Hwaits) as (Hc' & Hl' & Ha & Hlv).
  set (s1 := with_queue (rq_side rq) _ _) in *.
  change (with_queue _ _ _) with s1.
  assert (as_queue (rq_side rq) s1 = as_queue (rq_side rq) s ++ [r] /\
    as_queue (other (rq_side rq)) s1 = as_queue (other (rq_side rq)) s /\
    as_transfers s1 = as_transfers s /\ as_read_ahead s1 = as_read_ahead s /\
    as_requests s1 = <[r := rq_enqueue rq]> (as_requests s)) as (Eq & Eqo & Et & Ea & Er)
    by (unfold s1; by destruct (rq_side rq)).
  clearbody s1. assert (settles s s1) as Hset.
  { intros x y Hx. destruct (decide (x = r)) as [->|Hne].
    - exists (rq_enqueue rq). assert (y = rq) as -> by congruence. split; [apply Hl'|].
      split; [done|]. split; [done|]. congruence.
    - exists y. by rewrite Er, list_lookup_insert_ne. }
  assert (forall sd, as_queue sd s ≠ [] \/ sd ≠ rq_side rq -> settled sd s1) as Hsettled.
  { intros sd Hsd. pose proof (sides_settled sd s Hok) as Hss.
    assert (as_queue sd s1 = [] \/ exists x q q', as_queue sd s = x :: q /\ as_queue sd s1 = x :: q') as Hhead.
    { destruct (decide (sd = rq_side rq)) as [->|Hne].
      - rewrite Eq. destruct Hsd as [Hsd|]; [|done]. right.
        destruct (as_queue (rq_side rq) s) as [|x q]; [done|]. by do 3 eexists.
      - rewrite (side_other _ _ Hne), Eqo. destruct (as_queue (other (rq_side rq)) s) as [|x q]; [by left|right]. by do 3 eexists. }
    unfold settled in *. destruct Hhead as [->|(x & q & q' & Hq & ->)]; [done|]. rewrite Hq in Hss.
    destruct Hss as (y & Hy & Hya & Hyt & Hyk). exists y.
    rewrite Et, Ea, Er. split; [|done]. rewrite list_lookup_insert_ne; [done|]. intros ->. congruence. }
  destruct (Nat.eqb_spec (length (as_queue (rq_side rq) s1)) 1) as [Hlen|Hlen].
  - assert (as_queue (rq_side rq) s = []) as Hempty.
    { rewrite Eq, length_app in Hlen. cbn in Hlen. apply nil_length_inv. lia. }
    destruct (start_next_finishes (rq_side rq) s1 Hc') as (s' & Hs' & Hw & Hst).
    { intros x y Hx Hs. destruct (decide (x = r)) as [->|Hne].
      - destruct Hx as [Hx _], Hl' as [Hy _]. assert (y = rq_enqueue rq) as -> by congruence. done.
      - apply Hlv in Hx; [|done]. destruct (rq_active y) eqn:Hya; [|done].
        destruct (co_live s Hc x y Hx) as (_ & _ & _ & _ & Hact). rewrite Hya, Hs, Hempty in Hact. done. }
    exists s'. split; [done|]. split; [|eapply settles_trans; [exact Hset|by eapply works_settles]].
    apply (settled_sides (rq_side rq)); [done| |apply Hw]. eapply works_settled_other; [exact Hc'|exact Hw|].
    apply Hsettled. right. apply other_side.
  - exists s1. split; [done|]. split; [|done]. split; [done|].
    assert (as_queue (rq_side rq) s ≠ []) as Hne.
    { intros Hempty. apply Hlen. by rewrite Eq, Hempty. }
    assert (forall sd, settled sd s1) as Hall; [|auto].
    intros sd. apply Hsettled. destruct (decide (sd = rq_side rq)) as [->|]; auto.
Qed.

(** Asking for the cancellation of transfers keeps everything else. *)
Lemma cancel_transfers_moves s open m :
  stream_ok s -> (forall x, is_Some (m !! x) <-> is_Some (as_transfers s !! x)) ->
  moves s (Some (with_transfers open m s)).
Proof.
  intros Hok Hm. pose proof Hok as (Hc & _). apply outside_moves; try done.
  - intros r rq Hl. exact (live_operation s r rq Hc Hl).
  - apply (posted_ok_same s); [apply Hc|done..].
  - apply (conserved_same s); [apply Hc|done..].
Qed.

Lemma cancel_moves s r posted :
  stream_ok s -> as_posted s = cancel_task r :: posted -> moves s (cancel r (with_posted posted s)).
Proof.
  intros Hok Hp. pose proof Hok as (Hc & _).
  assert (stream_ok (with_posted posted s)) as Hok1 by (apply (pop_task_ok s (cancel_task r)); done).
  destruct (po_request s (co_posted s Hc) (cancel_task r) r) as [rq Hr]; [rewrite Hp; left|done|].
  set (s1 := with_posted posted s) in *. pose proof Hok1 as (Hc1 & _).
  assert (settles s s1) as Hset by by apply settles_same.
  assert (forall o, moves s1 o -> moves s o) as Hmv.
  { intros o (s' & -> & ? & Hs). exists s'. split; [done|]. split; [done|exact (settles_trans s s1 s' Hset Hs)]. }
  apply Hmv. unfold cancel. cbn [as_requests with_posted s1]. rewrite Hr. cbn [mbind option_bind].
  destruct (rq_done rq) eqn:Hd; [exists s1; split; [done|split; [done|by apply settles_same]]|].
  assert (live s r rq) as Hl by done. destruct (live_operation s r rq Hc Hl) as (op & Ho & Hf).
  assert (completed op = true) as Hcd by (apply (po_cancel s (co_posted s Hc) r rq op); [rewrite Hp; left|done|done]).
  destruct (rq_active rq) eqn:Ha.
  { apply cancel_transfers_moves; [done|]. intros x. destruct (decide (x = r)) as [->|Hne].
    - cbn. rewrite lookup_alter_eq. by rewrite fmap_is_Some.
    - cbn. by rewrite lookup_alter_ne. }
  set (s2 := if rq_enqueued rq then _ else s1).
  assert (s2 = with_queue (rq_side rq) (erase_first r (as_queue (rq_side rq) s1))
    (with_operations (<[rq_operation rq := op]> (as_operations s1)) s1)) as Hs2.
  { unfold s2. rewrite insert_id by done. destruct (rq_enqueued rq) eqn:Hen.
    - by destruct (rq_side rq).
    - rewrite erase_first_absent; [by destruct (rq_side rq), s|].
      intros Hx. destruct (co_queue s Hc (rq_side rq) r) as (y & [Hy _] & Hey & _); [exact Hx|]. congruence. }
  assert (as_operations s2 !! rq_operation rq = Some op) as -> by (rewrite Hs2; cbn; by rewrite lookup_insert_eq).
  cbn [mbind option_bind].
  destruct (fail_works s1 r rq (op_result op) op op s2) as (s' & Hs' & Hw & Hq & Hlv); try done; [by apply Hf|].
  apply (finishes_moves (rq_side rq) s1 s1); [done|by apply sides_settled|by apply works_refl|].
  exists s'. split; [exact Hs'|]. split; [done|].
  pose proof (sides_settled (rq_side rq) s1 Hok1) as Hst. unfold settled in *. rewrite Hq.
  destruct (as_queue (rq_side rq) s1) as [|x q] eqn:Hqx; [done|]. cbn [erase_first].
  destruct Hst as (y & Hy & Hya & Hyt & Hyk).
  destruct (Nat.eqb_spec x r) as [->|Hne]; [cbn in Hy; congruence|].
  assert (live s1 x y) as Hly.
  { destruct (live_head s1 _ x q Hc1 Hqx) as (z & Hz & _). destruct Hz. split; congruence. }
  exists y. split; [by apply Hlv|]. split; [done|].
  revert Hs'. unfold fulfill. rewrite Hs2. replace (as_requests _ !! r) with (Some rq) by (by destruct (rq_side rq)).
  destruct (co_live s Hc r rq Hl) as (Hcm & _).
  cbn [mbind option_bind]. rewrite Hd, option_guard_True by done. intros [= <-].
  replace (as_transfers _) with (as_transfers s1) by (by destruct (rq_side rq)). split; [done|].
  replace (as_read_ahead (hand_out _ _)) with (as_read_ahead s1) by (by destruct (rq_side rq)). done.
Qed.

Lemma function_moves s call f posted :
  stream_ok s -> as_posted s = function_task call f :: posted ->
  moves s (run_task race (function_task call f) (with_posted posted s)).
Proof.
  intros Hok Hp. pose proof Hok as (Hc & _).
  assert (stream_ok (with_posted posted s)) as Hok1 by (by apply (pop_task_ok s (function_task call f))).
  assert (as_calls s !! call = Some None) as Hcall.
  { apply (po_call s (co_posted s Hc)). rewrite Hp. cbn. left. }
  assert (call ∉ omap calls posted) as Hgone.
  { pose proof (po_calls_once s (co_posted s Hc)) as Hn. rewrite Hp in Hn. by apply NoDup_cons in Hn as [? _]. }
  unfold run_task. destruct (run_function f (with_posted posted s)) as [status s1] eqn:Hf.
  assert (as_calls s1 = as_calls s) as Ecalls.
  { destruct f; cbn in Hf; injection Hf as <- <-; try done. by destruct (discards_input _). }
  rewrite Ecalls, option_guard_True by done. cbn [mbind option_bind].
  assert (stream_ok s1 /\ as_requests s1 = as_requests s /\ as_posted s1 = posted) as (Hok2 & Er & Epo).
  { assert (forall o, moves (with_posted posted s) (Some o) -> stream_ok o) as Hmv by (by intros o (? & [= <-] & ? & _)).
    destruct f as [mask| |st]; cbn in Hf; injection Hf as <- <-; try done.
    - destruct (discards_input mask); [|done]. split; [|done]. apply Hmv. clear Hmv.
      pose proof Hok1 as (Hc1 & Hsr & Hsw). pose proof (co_bytes _ Hc1) as Hb.
      set (s2 := with_read_ahead [] _).
      assert (forall sd, settled sd (with_posted posted s) -> settled sd s2) as Hset.
      { intros []; unfold settled; cbn.
        - destruct (as_read_queue s) as [|r q]; [done|]. intros (rq & ? & ? & ? & Hk). exists rq.
          split; [done|]. split; [done|]. split; [done|]. destruct (rq_kind rq); [by destruct Hk|done].
        - destruct (as_write_queue s) as [|r q]; [done|]. intros (rq & ? & ? & ? & Hk). exists rq.
          split; [done|]. split; [done|]. split; [done|]. destruct (rq_kind rq); [by destruct Hk|done]. }
      exists s2. split; [done|]. split; [|by apply settles_same]. split; [|auto].
      pose proof Hc1 as [? ? ? ? ? ? Hpo _]. split; try done; [by apply (posted_ok_same _ s2 Hpo)|].
      unfold conserved, head_data in *. cbn in *. rewrite Hb. rewrite <- app_assoc. f_equal.
      unfold settled in Hsr. cbn in Hsr. destruct (as_read_queue s) as [|r q] eqn:Hq; [done|].
      destruct Hsr as (rq & Hr & _ & _ & Hk). rewrite Hr.
      destruct (live_head s reading r q Hc Hq) as (y & [Hy _] & _ & Hsy). assert (y = rq) as -> by congruence.
      unfold rq_side in Hsy. destruct (rq_kind rq); [|done]. by destruct Hk as [-> _].
    - split; [|done]. apply Hmv, cancel_transfers_moves; [done|]. intros x. cbn.
      rewrite lookup_fmap. by rewrite fmap_is_Some. }
  eexists. split; [done|]. split; [|by apply settles_same]. apply (outside_ok s1); try done.
  - intros r rq Hl. exact (live_operation s1 r rq (proj1 Hok2) Hl).
  - pose proof Hok2 as (Hc2 & _). destruct (co_posted _ Hc2) as [H1 H2 H3 H4 H5 H6 H7 H8]. split; cbn; try done.
    intros c Hx. rewrite Epo in Hx. rewrite list_lookup_insert_ne by (by intros ->).
    rewrite <- Ecalls. apply H4. by rewrite Epo.
  - pose proof Hok2 as (Hc2 & _). apply (conserved_same s1); [apply Hc2|done..].
Qed.

(** The end of a transfer, up to its handler. *)
Lemma transfer_at_head s r cancelled rq :
  stream_ok s -> as_transfers s !! r = Some cancelled -> as_requests s !! r = Some rq ->
  let s1 := with_transfers (as_open s) (delete r (as_transfers s)) s in
  at_head s1 r rq /\ works (rq_side rq) s s1.
Proof.
  intros Hok Ht Hr s1. pose proof Hok as (Hc & _).
  destruct (co_transfer s Hc r) as (y & Hl & Ha); [by rewrite Ht|].
  assert (y = rq) as -> by (destruct Hl; congruence).
  destruct (active_head s r rq Hc Hl Ha) as [q Hq].
  pose proof (sides_settled (rq_side rq) s Hok) as Hst. unfold settled in Hst. rewrite Hq in Hst.
  destruct Hst as (y & Hy & _ & _ & Hk). assert (y = rq) as -> by congruence.
  destruct (co_queue s Hc (rq_side rq) r) as (y & [Hy' _] & Hen & _); [rewrite Hq; left|].
  assert (y = rq) as -> by congruence.
  destruct (co_live s Hc r rq Hl) as (_ & _ & _ & _ & Hact). rewrite Ha in Hact.
  assert (works (rq_side rq) s s1) as Hw.
  { apply (change_works s s1 r rq rq); try done; try apply Hl.
    - symmetry. by apply list_insert_id.
    - by rewrite Ha.
    - intros x Hx. cbn. by rewrite lookup_delete_ne.
    - apply Hc. }
  split; [|done]. split; [apply Hw|]. split; [done|]. split; [done|]. split; [|done].
  cbn. apply lookup_delete_eq.
Qed.

End tasks.

(** ** Every event is handled, and keeps the invariant *)

Lemma stays_moves s : stream_ok s -> moves s (Some s).
Proof. intros Hok. exists s. split; [done|]. split; [done|by apply settles_same]. Qed.

Lemma stream_moves_trans s s1 o : moves s (Some s1) -> (stream_ok s1 -> moves s1 o) -> moves s o.
Proof.
  intros (? & [= <-] & Hok & Hset) Hm. destruct (Hm Hok) as (s' & -> & ? & Hs).
  exists s'. split; [done|]. split; [done|exact (settles_trans s s1 s' Hset Hs)].
Qed.

Lemma operation_quiet_moves s o op op' :
  stream_ok s -> as_operations s !! o = Some op -> keeps_result op op' ->
  (fails_only op' \/ ~ uses s o) ->
  (forall r, cancel_handler_ op' = Some r -> cancel_handler_ op = Some r) ->
  moves s (Some (with_operations (<[o := op']> (as_operations s)) s)).
Proof.
  intros Hok Ho Hk Hf Hh. change (with_operations ?m s) with (post_cancels [] (with_operations m s)).
  apply (operation_moves s o op); try done. intros r [Hx|Hx]; [by apply not_elem_of_nil in Hx|auto].
Qed.

(** An operation that a call is under way with has at most failed. *)
Lemma fails_or_unused s o op :
  core s -> as_operations s !! o = Some op -> fails_only op \/ ~ uses s o.
Proof.
  intros Hc Ho. destruct (decide (completed op = true)) as [Hcd|Hcd]; [|left; intros ?; done].
  destruct (Z.ltb_spec (op_result op) VI_SUCCESS) as [|Hpos]; [left; intros ?; done|]. right.
  intros (r & rq & Hl & <-). destruct (live_operation s r rq Hc Hl) as (op' & Ho' & Hf).
  assert (op' = op) as -> by congruence. specialize (Hf Hcd). lia.
Qed.

Lemma on_stream_moves s f : stream_ok s -> moves s (Some (on_stream f s)).
Proof.
  intros Hok. pose proof Hok as (Hc & _). unfold on_stream.
  destruct (co_posted s Hc) as [H1 H2 H3 H4 H5 H6 H7 H8]. apply outside_moves; try done.
  - intros r rq Hl. exact (live_operation s r rq Hc Hl).
  - intros r Hr. cbn. apply elem_of_app. by left.
  - assert (forall c, c ∈ omap calls (as_posted s) -> c ≠ length (as_calls s)) as Hold.
    { intros c Hx%H4%lookup_lt_Some. lia. }
    split; cbn; try done.
    + intros t r. rewrite elem_of_app, list_elem_of_singleton. intros [Ht| ->]; [by apply H1|done].
    + intros r rq. rewrite elem_of_app, list_elem_of_singleton. intros [Ht|[=]]. by apply H2.
    + rewrite omap_app. cbn. by rewrite app_nil_r.
    + intros c. rewrite omap_app. cbn. rewrite elem_of_app, list_elem_of_singleton. intros [Hx| ->].
      * rewrite lookup_app_l; [by apply H4|]. by eapply lookup_lt_Some, H4.
      * by apply list_lookup_middle.
    + rewrite omap_app. cbn. apply NoDup_app. split; [done|]. split; [|apply NoDup_singleton].
      intros c Hx ->%list_elem_of_singleton. by apply (Hold _ Hx).
    + intros r rq op. rewrite elem_of_app, list_elem_of_singleton. intros [Ht|[=]]. by apply (H7 r rq op).
  - apply (conserved_same s); [apply Hc|done..].
Qed.

Lemma stream_run_task_moves s race :
  stream_ok s -> race_ok race -> moves s (handle (RunTask race) s).
Proof.
  intros Hok Hrace. cbn. destruct (as_posted s) as [|t posted] eqn:Hp; [by apply stays_moves|].
  destruct t as [r|r|call f].
  - by apply stream_enqueue_moves.
  - by apply cancel_moves.
  - by apply function_moves.
Qed.

Lemma stream_transfer_ends_moves s race r amount error :
  stream_ok s -> enabled (TransferEnds race r amount error) s ->
  moves s (handle (TransferEnds race r amount error) s).
Proof.
  intros Hok (Hrace & cancelled & rq & Ht & Hr & _ & Hamount). cbn.
  destruct (transfer_at_head s r cancelled rq Hok Ht Hr) as [Hat Hw].
  eapply (finishes_moves (rq_side rq)); [apply Hok|by apply sides_settled|exact Hw|].
  apply transfer_handler_finishes; [done|done|]. intros Hk He. rewrite Hk in Hamount. by apply Hamount.
Qed.

(** A completion that notifies, as the timer's. *)
Lemma stream_wait_handler_moves s r rq :
  stream_ok s -> as_requests s !! r = Some rq -> moves s (wait_handler r s).
Proof.
  intros Hok Hr. unfold wait_handler. rewrite Hr. cbn [mbind option_bind].
  destruct (rq_done rq) eqn:Hd; [by apply stays_moves|].
  destruct (live_operation s r rq (proj1 Hok) (conj Hr Hd)) as (op & Ho & Hf). rewrite Ho.
  cbn [mbind option_bind]. unfold request_timeout, complete_and_notify, try_complete.
  destruct (Z.eqb_spec (result_ op) kPending) as [He|He]; cbn.
  - replace (match cancel_handler_ op with Some h => [h] | None => [] end) with (option_list (cancel_handler_ op))
      by (by destruct (cancel_handler_ op)).
    apply (operation_moves s _ op); try done.
    + unfold keeps_result, completed. by rewrite He.
    + by left.
    + intros x [Hx|[=]]. cbn in Hx. destruct (cancel_handler_ op); [|by apply not_elem_of_nil in Hx].
      by apply list_elem_of_singleton in Hx as ->.
  - apply (operation_quiet_moves s _ op); try done. by left.
Qed.

Lemma stream_wait_ends_moves s i cancelled : stream_ok s -> moves s (handle (WaitEnds i cancelled) s).
Proof.
  intros Hok. pose proof Hok as (Hc & _). cbn. destruct (as_waits s !! i) as [r|] eqn:Hi; [|by apply stays_moves].
  assert (r ∈ as_waits s) as Hin by by eapply list_elem_of_lookup_2.
  set (s1 := with_waits (delete i (as_waits s)) s).
  assert (moves s (Some s1)) as Hmv.
  { destruct (co_posted s Hc) as [H1 H2 H3 H4 H5 H6 H7 H8]. apply outside_moves; try done.
    - intros x rq Hl. exact (live_operation s x rq Hc Hl).
    - split; try done. intros x Hx. apply H8. eapply elem_of_submseteq; [exact Hx|]. apply submseteq_delete.
    - apply (conserved_same s); [apply Hc|done..]. }
  destruct cancelled; [done|]. apply (stream_moves_trans s s1); [done|]. intros Hok1.
  destruct (po_waits s (co_posted s Hc) r Hin) as [rq Hr]. by apply (stream_wait_handler_moves s1 r rq).
Qed.

Lemma create_operation_moves s o op :
  stream_ok s -> as_operations s !! o = None -> cancel_handler_ op = None ->
  moves s (Some (with_operations (<[o := op]> (as_operations s)) s)).
Proof.
  intros Hok Ho Hh. pose proof Hok as (Hc & _). destruct (co_posted s Hc) as [H1 H2 H3 H4 H5 H6 H7 H8].
  assert (forall x y, as_operations s !! x = Some y -> o ≠ x) as Hne by (intros x y Hx ->; congruence).
  apply outside_moves; try done.
  - intros r rq Hl. destruct (live_operation s r rq Hc Hl) as (y & Hy & ?). exists y. split; [|done].
    cbn. rewrite lookup_insert_ne; [done|]. by apply (Hne _ y).
  - split; try done; cbn.
    + intros x y r. destruct (decide (x = o)) as [->|]; [rewrite lookup_insert_eq; intros [= <-]; congruence|].
      rewrite lookup_insert_ne by done. apply H6.
    + intros r rq y Ht Hl. destruct (live_operation s r rq Hc Hl) as (z & Hz & _).
      rewrite lookup_insert_ne by (by apply (Hne _ z)). by apply (H7 r).
  - apply (conserved_same s); [apply Hc|done..].
Qed.

Lemma destroy_operation_moves s o :
  stream_ok s -> ~ uses s o -> moves s (Some (with_operations (delete o (as_operations s)) s)).
Proof.
  intros Hok Hu. pose proof Hok as (Hc & _). destruct (co_posted s Hc) as [H1 H2 H3 H4 H5 H6 H7 H8].
  assert (forall r rq, live s r rq -> o ≠ rq_operation rq) as Hne by (intros r rq Hl ->; apply Hu; by exists r, rq).
  apply outside_moves; try done.
  - intros r rq Hl. destruct (live_operation s r rq Hc Hl) as (y & Hy & ?). exists y. split; [|done].
    cbn. rewrite lookup_delete_ne; [done|]. by apply (Hne r).
  - split; try done; cbn.
    + intros x y r [_ Hx]%lookup_delete_Some. by apply H6.
    + intros r rq y Ht Hl [_ Hx]%lookup_delete_Some. by apply (H7 r rq y).
  - apply (conserved_same s); [apply Hc|done..].
Qed.

Lemma complete_operation_moves s o status op :
  stream_ok s -> as_operations s !! o = Some op -> (uses s o -> status < VI_SUCCESS) ->
  moves s (Some (with_operations (<[o := (try_complete status op).2]> (as_operations s)) s)).
Proof.
  intros Hok Ho Hst. apply (operation_quiet_moves s o op); [done|done| | |]; unfold try_complete.
  - unfold keeps_result, completed. by destruct (Z.eqb_spec (result_ op) kPending) as [->|].
  - destruct (fails_or_unused s o op (proj1 Hok) Ho) as [Hf|]; [|by right].
    destruct (Z.eqb_spec (result_ op) kPending) as [He|]; [|by left]. cbn.
    destruct (Z.ltb_spec status VI_SUCCESS) as [|Hpos]; [left; intros ?; done|]. right.
    intros Hu. specialize (Hst Hu). lia.
  - intros r. by destruct (result_ op =? kPending).
Qed.

Lemma notify_operation_moves s o op :
  stream_ok s -> as_operations s !! o = Some op -> completed op = true ->
  moves s (handle (NotifyOperation o) s).
Proof.
  intros Hok Ho Hcd. cbn. rewrite Ho. cbn [mbind option_bind take_handler].
  apply (operation_moves s o op); try done.
  - destruct (fails_or_unused s o op (proj1 Hok) Ho) as [Hf|]; [left|by right]. exact Hf.
  - intros r [Hx|[=]]. cbn in Hx. destruct (cancel_handler_ op); [|by apply not_elem_of_nil in Hx].
    by apply list_elem_of_singleton in Hx as ->.
Qed.

Lemma handle_moves e s : stream_ok s -> enabled e s -> moves s (handle e s).
Proof.
  intros Hok Hen. pose proof Hok as (Hc & _).
  destruct e as [o count options|o buffer|f|race|race r amount error|i cancelled|bytes|now|o op|o status|o|o|o].
  - destruct Hen as ((op & Ho & Hf) & Hu & Hcount). by apply (start_request_moves s o op).
  - destruct Hen as ((op & Ho & Hf) & Hu). by apply (start_request_moves s o op).
  - by apply on_stream_moves.
  - by apply stream_run_task_moves.
  - by apply stream_transfer_ends_moves.
  - by apply stream_wait_ends_moves.
  - cbn. apply outside_moves; try done.
    + intros r rq Hl. exact (live_operation s r rq Hc Hl).
    + apply (posted_ok_same s); [apply Hc|done..].
    + pose proof (co_bytes s Hc) as Hb. unfold conserved, head_data in *. cbn. rewrite Hb. by rewrite <- !app_assoc.
  - cbn. apply outside_moves; try done.
    + intros r rq Hl. exact (live_operation s r rq Hc Hl).
    + apply (posted_ok_same s); [apply Hc|done..].
    + apply (conserved_same s); [apply Hc|done..].
  - destruct Hen as (Ho & Hh & _). by apply create_operation_moves.
  - destruct Hen as ([op Ho] & Hst). cbn. rewrite Ho. by apply complete_operation_moves.
  - destruct Hen as (op & Ho & Hcd). by apply (notify_operation_moves s o op).
  - destruct Hen as ([op Ho] & Hu). cbn. rewrite Ho. by apply (operation_quiet_moves s o op); [..|right|].
  - by apply destroy_operation_moves.
Qed.

Lemma new_stream_ok now : stream_ok (new_stream now).
Proof.
  split; [|by split]. split; cbn; try done.
  - intros r rq [Hr _]. by destruct r.
  - intros r r' rq rq' [Hr _]. by destruct r.
  - intros [] r Hr; by apply not_elem_of_nil in Hr.
  - intros []; apply NoDup_nil_2.
  - intros r Hr. rewrite lookup_empty in Hr. by destruct Hr.
  - split; cbn; try (intros; by match goal with H : _ ∈ [] |- _ => apply not_elem_of_nil in H end).
    + apply NoDup_nil_2.
    + apply NoDup_nil_2.
    + intros o op r Ho. by rewrite lookup_empty in Ho.
Qed.

Lemma reachable_ok now s : rtc stream_step (new_stream now) s -> stream_ok s.
Proof.
  intros Hr. remember (new_stream now) as s0 eqn:E. assert (stream_ok s0) as Hok by (subst; apply new_stream_ok).
  clear E. induction Hr as [|s0 s1 s2 (e & Hen & He) _ IH]; [done|]. apply IH.
  destruct (handle_moves e s0 Hok Hen) as (s3 & Hs3 & Hok3 & _). congruence.
Qed.

Definition quiet (o : nat) : option Z := None.

Lemma quiet_ok : race_ok quiet.
Proof. intros o status [=]. Qed.

(** A session that has started a read of at most three bytes. *)
Definition sample_options : ReadOptions := mkReadOptions true 10.

Definition sample_events : list event :=
  [CreateOperation 0 (mkOperation kPending (Some 10) None); Read 0 3 sample_options;
   RunTask quiet; PeerSends [65; 10; 66]].

Fixpoint run (events : list event) (s : AsyncStream) : option AsyncStream :=
  match events with [] => Some s | e :: events => s ← handle e s; run events s end.

Definition sample_stream : AsyncStream := default (new_stream 0) (run sample_events (new_stream 0)).

(** Nobody uses an operation when every request is done or has another one. *)
Definition unused (s : AsyncStream) (o : nat) : bool :=
  forallb (fun rq => rq_done rq || negb (rq_operation rq =? o)%nat) (as_requests s).

Lemma unused_uses s o : unused s o = true -> ~ uses s o.
Proof.
  intros Hu (r & rq & [Hr Hd] & Ho). unfold unused in Hu. rewrite forallb_forall in Hu.
  specialize (Hu rq). rewrite Hd, Ho, Nat.eqb_refl in Hu. discriminate Hu.
  apply list_elem_of_In. by eapply list_elem_of_lookup_2.
Qed.

(** Every event may happen in the state that the events before it lead to. *)
Lemma run_rtc events : forall s s',
  (forall n e s1, events !! n = Some e -> run (take n events) s = Some s1 -> enabled e s1) ->
  run events s = Some s' -> rtc stream_step s s'.
Proof.
  induction events as [|e events IH]; intros s s' Hen; cbn; [intros [= <-]; apply rtc_refl|].
  destruct (handle e s) as [s1|] eqn:Hh; [|done]. intros Hrun. apply (rtc_l _ _ s1).
  - exists e. split; [by apply (Hen 0%nat e s)|done].
  - apply IH; [|done]. intros n x s2 Hx Hs2. apply (Hen (S n) x s2); [done|]. cbn. by rewrite Hh.
Qed.

Ltac pending_operation := eexists; split; [vm_compute; reflexivity|intros H; vm_compute in H; discriminate H].
Ltac next_state := vm_compute; reflexivity.
Ltac the_transfer :=
  split; [apply quiet_ok|]; do 2 eexists; split; [next_state|]; split; [next_state|];
  split; [intros [=]|vm_compute; lia].

Ltac at_state Hs := vm_compute in Hs; injection Hs as <-.

Lemma sample_reachable : rtc stream_step (new_stream 0) sample_stream.
Proof.
  apply (run_rtc sample_events); [|next_state].
  intros [|[|[|[|n]]]] e s1 [= <-] Hs; at_state Hs.
  - split; [done|]. split; [done|]. intros H. vm_compute in H. discriminate H.
  - split; [pending_operation|]. split; [by apply unused_uses|done].
  - apply quiet_ok.
  - exact I.
Qed.

(** C31: in every interleaving of reads, writes, posted tasks, ends of transfers,
    timers, completions of operations by other threads (in the middle of a
    handler as well) and [close], no handler of an asynchronous stream uses an
    operation its caller may have destroyed, sets a result twice or starts a
    second transfer for a request, and results are final. *)
Theorem async_stream_safety now s :
  rtc stream_step (new_stream now) s ->
  forall e, enabled e s -> exists s', handle e s = Some s' /\ stream_step s s' /\
    forall r rq, as_requests s !! r = Some rq -> exists rq', as_requests s' !! r = Some rq' /\
      rq_operation rq' = rq_operation rq /\ (rq_done rq = true -> rq' = rq).
Proof.
  intros Hr%reachable_ok e Hen. destruct (handle_moves e s Hr Hen) as (s' & Hs' & _ & Hset).
  exists s'. split; [done|]. split; [by exists e|]. intros r rq Hrq.
  destruct (Hset r rq Hrq) as (rq' & ? & ? & _ & ?). by exists rq'.
Qed.

Lemma async_stream_safety_witness :
  exists s', handle (TransferEnds quiet 0 3 None) sample_stream = Some s' /\
    stream_step sample_stream s' /\
    forall r rq, as_requests sample_stream !! r = Some rq -> exists rq', as_requests s' !! r = Some rq' /\
      rq_operation rq' = rq_operation rq /\ (rq_done rq = true -> rq' = rq).
Proof.
  apply (async_stream_safety 0 sample_stream sample_reachable).
  the_transfer.
Defined.

(** C32: what an asynchronous stream receives is what it hands out, in order and
    without loss or repetition, whatever is cancelled, times out or fails
    meanwhile: the bytes handed out or discarded by [flush], then those of the
    read under way, then those read ahead, then those not yet read.  A read
    that fails returns no bytes; one that succeeds ends at its termination
    character, at its count or at the end of the stream; a write that succeeds
    has written its whole buffer. *)
Theorem async_stream_contract now s :
  rtc stream_step (new_stream now) s ->
  conserved s /\
  forall r rq result, as_requests s !! r = Some rq -> rq_completion rq = Some result ->
    rq_done rq = true /\ result_ok rq result.
Proof.
  intros (Hc & _)%reachable_ok. split; [apply Hc|]. intros r rq result Hr Hcm.
  destruct (rq_done rq) eqn:Hd.
  - destruct (co_done s Hc r rq Hr Hd) as (x & Hx & Hok). split; [done|congruence].
  - destruct (co_live s Hc r rq (conj Hr Hd)) as (Hn & _). congruence.
Qed.

(** The read ends at the line feed, and the byte behind it is read ahead. *)
Definition sample_read : AsyncStream :=
  default sample_stream (handle (TransferEnds quiet 0 3 None) sample_stream).

Lemma async_stream_contract_witness :
  as_read_ahead sample_read = [66] /\ conserved sample_read /\
  forall r rq result, as_requests sample_read !! r = Some rq -> rq_completion rq = Some result ->
    rq_done rq = true /\ result_ok rq result.
Proof.
  split; [reflexivity|]. apply (async_stream_contract 0). eapply rtc_r; [apply sample_reachable|].
  exists (TransferEnds quiet 0 3 None). split; [|vm_compute; reflexivity].
  the_transfer.
Defined.

(** C33: no request of an asynchronous stream is forgotten: while it is not done,
    its task is still posted, or it is in its queue, at whose head a request
    waits for the end of its transfer; and when a transfer ends, its request is
    done, or it is a read that goes on with more bytes and a new transfer.  With
    no task and no transfer left every request is done. *)
Theorem async_stream_progress now s :
  rtc stream_step (new_stream now) s ->
  (forall r rq, as_requests s !! r = Some rq -> rq_done rq = false ->
     enqueue_task r ∈ as_posted s \/
     r ∈ as_queue (rq_side rq) s /\
     exists h, head (as_queue (rq_side rq) s) = Some h /\ is_Some (as_transfers s !! h)) /\
  (forall race r amount error, enabled (TransferEnds race r amount error) s ->
     exists s' rq rq', handle (TransferEnds race r amount error) s = Some s' /\
       as_requests s !! r = Some rq /\ as_requests s' !! r = Some rq' /\
       (rq_done rq' = true \/
        error = None /\ rq_side rq = reading /\ is_Some (as_transfers s' !! r) /\
        rq_data rq' = rq_data rq ++ take amount (wi_incoming (as_wire s)))) /\
  (as_posted s = [] -> as_transfers s = ∅ ->
     forall r rq, as_requests s !! r = Some rq -> rq_done rq = true).
Proof.
  intros Hok%reachable_ok. pose proof Hok as (Hc & _).
  assert (forall r rq, as_requests s !! r = Some rq -> rq_done rq = false ->
     enqueue_task r ∈ as_posted s \/
     r ∈ as_queue (rq_side rq) s /\
     exists h, head (as_queue (rq_side rq) s) = Some h /\ is_Some (as_transfers s !! h)) as Hwaits.
  { intros r rq Hr Hd. destruct (co_live s Hc r rq (conj Hr Hd)) as (_ & _ & _ & Hen & _).
    destruct (rq_enqueued rq); [right|left; apply Hen]. split; [done|].
    pose proof (sides_settled (rq_side rq) s Hok) as Hst. unfold settled in Hst.
    destruct (as_queue (rq_side rq) s) as [|h q]; [by apply not_elem_of_nil in Hen|].
    destruct Hst as (_ & _ & _ & Ht & _). by exists h. }
  split; [done|]. split.
  - intros race r amount error (Hrace & cancelled & rq & Ht & Hr & _ & Hamount).
    destruct (transfer_at_head s r cancelled rq Hok Ht Hr) as [Hat Hw]. cbn.
    destruct (transfer_handler_spec race Hrace _ r rq amount error Hat) as [H|(He & Hs & H)].
    { intros Hk He. rewrite Hk in Hamount. by apply Hamount. }
    + destruct H as (s' & -> & _ & _ & rq' & ? & ?). exists s', rq, rq'. auto.
    + destruct H as (s' & rq' & -> & _ & _ & [Hr' _] & ? & ?). exists s', rq, rq'. auto 8.
  - intros Hp Ht r rq Hr. destruct (rq_done rq) eqn:Hd; [done|].
    destruct (Hwaits r rq Hr Hd) as [Hx|(_ & h & _ & Hh)].
    + rewrite Hp in Hx. by apply not_elem_of_nil in Hx.
    + rewrite Ht, lookup_empty in Hh. by destruct Hh.
Qed.

Lemma async_stream_progress_witness :
  (forall r rq, as_requests sample_stream !! r = Some rq -> rq_done rq = false ->
     enqueue_task r ∈ as_posted sample_stream \/
     r ∈ as_queue (rq_side rq) sample_stream /\
     exists h, head (as_queue (rq_side rq) sample_stream) = Some h /\
       is_Some (as_transfers sample_stream !! h)) /\
  exists s' rq rq', handle (TransferEnds quiet 0 1 None) sample_stream = Some s' /\
    as_requests sample_stream !! 0%nat = Some rq /\ as_requests s' !! 0%nat = Some rq' /\
    (rq_done rq' = true \/
     None = @None error_code /\ rq_side rq = reading /\ is_Some (as_transfers s' !! 0%nat) /\
     rq_data rq' = rq_data rq ++ take 1 (wi_incoming (as_wire sample_stream))).
Proof.
  destruct (async_stream_progress 0 sample_stream sample_reachable) as (H1 & H2 & _).
  split; [exact H1|]. apply (H2 quiet 0%nat 1%nat None). the_transfer.
Defined.

(** ** What goes wrong

    A read that times out while a transfer that has just ended without error is
    waiting for its handler: the cancellation finds no transfer to abort, and
    the handler starts another one without asking whether the operation is
    completed. *)

Definition late_events : list event :=
  [CreateOperation 0 (mkOperation kPending (Some 10) None); Read 0 10 (mkReadOptions false 0);
   RunTask quiet; PeerSends [1; 2; 3]; Tick 10; WaitEnds 0 false; RunTask quiet;
   TransferEnds quiet 0 3 None].

Definition late_stream : AsyncStream := default (new_stream 0) (run late_events (new_stream 0)).

(** The operation has timed out and its handler has run, but the read waits for a
    transfer that nobody will cancel: no task, no timer, no handler is left. *)
Example read_outlives_timeout :
  rtc stream_step (new_stream 0) late_stream /\
  (exists op, as_operations late_stream !! 0%nat = Some op /\ completed op = true /\
     op_result op = VI_ERROR_TMO /\ cancel_handler_ op = None) /\
  (exists rq, live late_stream 0 rq /\ rq_data rq = [1; 2; 3]) /\
  as_posted late_stream = [] /\ as_waits late_stream = [] /\
  as_transfers late_stream !! 0%nat = Some false.
Proof.
  split.
  - apply (run_rtc late_events); [|next_state].
    intros [|[|[|[|[|[|[|[|n]]]]]]]] e s1 [= <-] Hs; at_state Hs; try exact I; try apply quiet_ok.
    + split; [done|]. split; [done|]. intros H. vm_compute in H. discriminate H.
    + split; [pending_operation|]. split; [by apply unused_uses|done].
    + vm_compute. discriminate.
    + the_transfer.
  - split; [eexists; split; [next_state|done]|]. split; [eexists; split; [split; next_state|done]|].
    split; [next_state|]. split; next_state.
Qed.
