(* ===== verification/TcpSession.v ===== *)
(** * Socket sessions: [backends/tcp/tcp_session.{h,cpp}]

    Connecting is a race of three completion handlers on one strand, a step
    relation; the attributes are functions on the session and its socket.  Reads
    and writes are those of the base class, [AsyncStream]. *)

From S2P Require Import Prelude Visa CText Operation BackendSession RequestChannel AsyncStream.

(** ** Connecting *)

(** The local struct [ConnectState], with the handlers that are still to come. *)
Record TcpConnectState := mkTcpConnect {
  tc_completion : option Z;
  tc_address : str;
  tc_done : bool;
  tc_open : bool;
  tc_timer : bool;
  tc_resolving : bool;
  tc_connecting : bool }.

Definition tcp_connect_error (error : error_code) : Z :=
  match error with
  | ec_access_denied => VI_ERROR_NPERMISSION
  | ec_timed_out => VI_ERROR_TMO
  | _ => VI_ERROR_RSRC_NFOUND
  end.

(** [None]: the promise has a value already. *)
Definition finish_connect (status : Z) (cs : TcpConnectState) : option TcpConnectState :=
  if tc_done cs then Some cs
  else
    guard (tc_completion cs = None);;
    Some (mkTcpConnect (Some status) (tc_address cs) true
            (if status <? VI_SUCCESS then false else tc_open cs)
            (tc_timer cs) (tc_resolving cs) (tc_connecting cs)).

(** The function posted by [connect]. *)
Definition start_connect (timeout : Z) : TcpConnectState :=
  mkTcpConnect None [] false false (negb (timeout =? VI_TMO_INFINITE)) true false.

Inductive tcp_connect_event :=
| TcpTimer (cancelled : bool)
| TcpResolved (error : option error_code)
| TcpConnected (error : option error_code) (address : str).

Definition tcp_connect_handler (e : tcp_connect_event) (cs : TcpConnectState) : option TcpConnectState :=
  match e with
  | TcpTimer cancelled =>
      let cs := mkTcpConnect (tc_completion cs) (tc_address cs) (tc_done cs) (tc_open cs) false
        (tc_resolving cs) (tc_connecting cs) in
      if cancelled then Some cs else finish_connect VI_ERROR_TMO cs
  | TcpResolved error =>
      let over connecting := mkTcpConnect (tc_completion cs) (tc_address cs) (tc_done cs) (tc_open cs)
        (tc_timer cs) false connecting in
      match error with
      | Some error => finish_connect (tcp_connect_error error) (over (tc_connecting cs))
      | None => Some (over true)
      end
  | TcpConnected error address =>
      match error with
      | Some error =>
          finish_connect (tcp_connect_error error)
            (mkTcpConnect (tc_completion cs) (tc_address cs) (tc_done cs) (tc_open cs) (tc_timer cs)
               (tc_resolving cs) false)
      | None =>
          finish_connect VI_SUCCESS
            (mkTcpConnect (tc_completion cs) address (tc_done cs) (if tc_done cs then tc_open cs else true)
               (tc_timer cs) (tc_resolving cs) false)
      end
  end.

(** A handler runs once; the timer is cancelled only by [finish_connect]. *)
Definition tcp_connect_enabled (e : tcp_connect_event) (cs : TcpConnectState) : Prop :=
  match e with
  | TcpTimer cancelled => tc_timer cs = true /\ (cancelled = true -> tc_done cs = true)
  | TcpResolved _ => tc_resolving cs = true
  | TcpConnected _ _ => tc_connecting cs = true
  end.

Definition tcp_connect_step (cs cs' : TcpConnectState) : Prop :=
  exists e, tcp_connect_enabled e cs /\ tcp_connect_handler e cs = Some cs'.

(** ** The session *)

Inductive socket_option := no_delay (on : bool) | keep_alive (on : bool).

(** The socket of the network library: setting an option fails or not. *)
Class TcpSocket (S : Type) := { socket_set_option : socket_option -> S -> bool * S }.

Section session.
  Context {S : Type} `{TcpSocket S}.

Record TcpBackendSession := mkTcp {
  ts_host : str;
  ts_port : Z;
  ts_address : str;
  ts_no_delay : Z;
  ts_keep_alive : Z;
  ts_socket : S }.

(** The end of [connect], with the session as its constructor makes it. *)
Definition tcp_connect (host : str) (port : Z) (socket : S) (cs : TcpConnectState)
  : option (Z * TcpBackendSession) :=
  status ← tc_completion cs;
  let address := if status <? VI_SUCCESS then [] else tc_address cs in
  Some (status, mkTcp host port address VI_FALSE VI_FALSE socket).

Definition tcp_create (host : str) (port : Z) (socket : S) (cs : TcpConnectState)
  : option (option TcpBackendSession * Z) :=
  '(status, session) ← tcp_connect host port socket cs;
  Some (if status <? VI_SUCCESS then None else Some session, status).

Definition tcp_clear : Z := VI_ERROR_NSUP_OPER.

Definition with_no_delay (value : Z) (s : TcpBackendSession) : TcpBackendSession :=
  mkTcp (ts_host s) (ts_port s) (ts_address s) value (ts_keep_alive s) (ts_socket s).

Definition with_keep_alive (value : Z) (s : TcpBackendSession) : TcpBackendSession :=
  mkTcp (ts_host s) (ts_port s) (ts_address s) (ts_no_delay s) value (ts_socket s).

Definition with_socket (socket : S) (s : TcpBackendSession) : TcpBackendSession :=
  mkTcp (ts_host s) (ts_port s) (ts_address s) (ts_no_delay s) (ts_keep_alive s) socket.

Definition tcp_set_attribute (attribute value : Z) (s : TcpBackendSession) : Z * TcpBackendSession :=
  if (attribute =? VI_ATTR_TCPIP_ADDR) || (attribute =? VI_ATTR_TCPIP_HOSTNAME)
     || (attribute =? VI_ATTR_TCPIP_PORT) then (VI_ERROR_ATTR_READONLY, s)
  else if negb (attribute =? VI_ATTR_TCPIP_NODELAY) && negb (attribute =? VI_ATTR_TCPIP_KEEPALIVE)
  then (VI_ERROR_NSUP_ATTR, s)
  else if negb (value =? VI_FALSE) && negb (value =? VI_TRUE) then (VI_ERROR_NSUP_ATTR_STATE, s)
  else
    let '(error, s) :=
      if attribute =? VI_ATTR_TCPIP_NODELAY then
        let '(error, socket) := socket_set_option (no_delay (value =? VI_TRUE)) (ts_socket s) in
        let s := with_socket socket s in (error, if error then s else with_no_delay value s)
      else
        let '(error, socket) := socket_set_option (keep_alive (value =? VI_TRUE)) (ts_socket s) in
        let s := with_socket socket s in (error, if error then s else with_keep_alive value s) in
    (if error : bool then VI_ERROR_IO else VI_SUCCESS, s).

Definition tcp_get_attribute (attribute : Z) (s : TcpBackendSession) : Z * option attr_value :=
  if attribute =? VI_ATTR_TCPIP_ADDR then (VI_SUCCESS, Some (attr_string (copy_string (ts_address s))))
  else if attribute =? VI_ATTR_TCPIP_HOSTNAME then (VI_SUCCESS, Some (attr_string (copy_string (ts_host s))))
  else if attribute =? VI_ATTR_TCPIP_PORT then (VI_SUCCESS, Some (attr_number (ts_port s)))
  else if attribute =? VI_ATTR_TCPIP_NODELAY then (VI_SUCCESS, Some (attr_number (ts_no_delay s)))
  else if attribute =? VI_ATTR_TCPIP_KEEPALIVE then (VI_SUCCESS, Some (attr_number (ts_keep_alive s)))
  else (VI_ERROR_NSUP_ATTR, None).

End session.
Arguments TcpBackendSession : clear implicits.

(** ** Connecting decides once *)

(** What holds while the handlers run. *)
Record connect_inv (timeout : Z) (cs : TcpConnectState) : Prop := {
  ci_result : if tc_done cs then
      exists status, tc_completion cs = Some status /\
        ((status = VI_SUCCESS /\ tc_open cs = true) \/
         (status ∈ [VI_ERROR_TMO; VI_ERROR_NPERMISSION; VI_ERROR_RSRC_NFOUND] /\ tc_open cs = false))
    else tc_completion cs = None;
  ci_goes_on : tc_done cs = false -> tc_resolving cs = true \/ tc_connecting cs = true;
  ci_timer : tc_done cs = false -> timeout ≠ VI_TMO_INFINITE -> tc_timer cs = true }.

Lemma connect_error_cases error :
  tcp_connect_error error ∈ [VI_ERROR_TMO; VI_ERROR_NPERMISSION; VI_ERROR_RSRC_NFOUND].
Proof. destruct error; set_solver. Qed.

Lemma failures_negative status :
  status ∈ [VI_ERROR_TMO; VI_ERROR_NPERMISSION; VI_ERROR_RSRC_NFOUND] -> status < VI_SUCCESS.
Proof. rewrite !elem_of_cons. intros [->|[->|[->|[]%not_elem_of_nil]]]; done. Qed.

Lemma connect_inv_step timeout cs e :
  connect_inv timeout cs -> tcp_connect_enabled e cs ->
  exists cs', tcp_connect_handler e cs = Some cs' /\ connect_inv timeout cs' /\
    (tc_done cs = true -> tc_completion cs' = tc_completion cs).
Proof.
  intros [Hres Hgo Htm] Hen.
  assert (forall status cs1, tc_done cs1 = tc_done cs -> tc_completion cs1 = tc_completion cs ->
    (tc_done cs = true -> tc_open cs1 = tc_open cs) ->
    (tc_done cs = false -> status = VI_SUCCESS /\ tc_open cs1 = true \/
     status ∈ [VI_ERROR_TMO; VI_ERROR_NPERMISSION; VI_ERROR_RSRC_NFOUND]) ->
    exists cs', finish_connect status cs1 = Some cs' /\ connect_inv timeout cs' /\
      (tc_done cs = true -> tc_completion cs' = tc_completion cs)) as Hfin.
  { intros status cs1 Ed Ec Eo Hst. unfold finish_connect. destruct (tc_done cs) eqn:E; rewrite Ed.
    - exists cs1. split; [done|]. split; [|done]. split; rewrite Ed; try done. rewrite Ec, Eo by done. exact Hres.
    - rewrite option_guard_True by congruence. eexists. split; [reflexivity|]. split; [|done].
      split; try done. cbn. exists status. split; [done|].
      destruct (Hst eq_refl) as [[-> Ho]|Hf]; [by left|right]. split; [done|].
      apply failures_negative in Hf. by apply Z.ltb_lt in Hf as ->. }
  destruct e as [cancelled|[error|]|[error|] address]; cbn in Hen |- *.
  - destruct Hen as [Ht Hc]. destruct cancelled.
    + specialize (Hc eq_refl). eexists. split; [reflexivity|]. split; [|done].
      split; cbn; rewrite Hc in *; done.
    + apply Hfin; try done. intros _. right. left.
  - apply Hfin; try done. intros _. right. apply connect_error_cases.
  - eexists. split; [reflexivity|]. split; [|done]. split; cbn; [done|by right|done].
  - apply Hfin; try done. intros _. right. apply connect_error_cases.
  - apply Hfin; cbn; try done; [by intros ->|]. intros E. rewrite E. by left.
Qed.

(** Connecting a socket ends once and with one result: no handler sets the
    result a second time or changes it; it is success with the socket open, or a
    timeout, a lack of permission or a missing resource with the socket closed;
    and until then the resolver or the connection is under way, and the timer
    is, unless the timeout is infinite. *)
Theorem tcp_connect_contract timeout cs :
  rtc tcp_connect_step (start_connect timeout) cs ->
  (forall e, tcp_connect_enabled e cs -> exists cs', tcp_connect_handler e cs = Some cs' /\
     (tc_done cs = true -> tc_completion cs' = tc_completion cs)) /\
  (if tc_done cs then
     exists status, tc_completion cs = Some status /\
       ((status = VI_SUCCESS /\ tc_open cs = true) \/
        (status ∈ [VI_ERROR_TMO; VI_ERROR_NPERMISSION; VI_ERROR_RSRC_NFOUND] /\ tc_open cs = false))
   else
     (tc_resolving cs = true \/ tc_connecting cs = true) /\
     (timeout ≠ VI_TMO_INFINITE -> tc_timer cs = true)).
Proof.
  intros Hr. assert (connect_inv timeout cs) as Hinv.
  { assert (forall a, connect_inv timeout a -> rtc tcp_connect_step a cs -> connect_inv timeout cs) as Hind.
    { clear Hr. intros a Ha Hr. induction Hr as [|a b c (e & Hen & He) _ IH]; [done|]. apply IH.
      destruct (connect_inv_step timeout a e Ha Hen) as (b' & Hb' & Hi & _). congruence. }
    apply (Hind _) in Hr; [done|]. split; cbn; [done|by left|]. intros _ Hne.
    by apply Z.eqb_neq in Hne as ->. }
  split.
  - intros e Hen. destruct (connect_inv_step timeout cs e Hinv Hen) as (cs' & ? & _ & ?). by exists cs'.
  - destruct Hinv as [Hres Hgo Htm]. destruct (tc_done cs); [exact Hres|]. split; [by apply Hgo|by apply Htm].
Qed.

(** The timer fires while the connection is under way; the connection succeeds
    afterwards. *)
Definition late_connect : TcpConnectState :=
  mkTcpConnect (Some VI_ERROR_TMO) (lit "192.0.2.1") true false false false false.

Lemma tcp_connect_contract_witness :
  (forall e, tcp_connect_enabled e late_connect -> exists cs', tcp_connect_handler e late_connect = Some cs' /\
     (tc_done late_connect = true -> tc_completion cs' = tc_completion late_connect)) /\
  (if tc_done late_connect then
     exists status, tc_completion late_connect = Some status /\
       ((status = VI_SUCCESS /\ tc_open late_connect = true) \/
        (status ∈ [VI_ERROR_TMO; VI_ERROR_NPERMISSION; VI_ERROR_RSRC_NFOUND] /\ tc_open late_connect = false))
   else
     (tc_resolving late_connect = true \/ tc_connecting late_connect = true) /\
     (2000 ≠ VI_TMO_INFINITE -> tc_timer late_connect = true)).
Proof.
  apply (tcp_connect_contract 2000).
  eapply rtc_l; [exists (TcpResolved None); split; [done|reflexivity]|].
  eapply rtc_l; [exists (TcpTimer false); split; [split; done|reflexivity]|].
  eapply rtc_l; [exists (TcpConnected None (lit "192.0.2.1")); split; [done|reflexivity]|].
  apply rtc_refl.
Defined.

(** ** Attributes *)

(** Setting an attribute succeeds and is read back, or changes no attribute. *)
Lemma tcp_set_get {S} `{TcpSocket S} attribute value (s s' : TcpBackendSession S) status :
  tcp_set_attribute attribute value s = (status, s') ->
  (forall other, other ≠ attribute \/ status ≠ VI_SUCCESS ->
     tcp_get_attribute other s' = tcp_get_attribute other s) /\
  (status = VI_SUCCESS -> tcp_get_attribute attribute s' = (VI_SUCCESS, Some (attr_number value))).
Proof.
  unfold tcp_set_attribute, tcp_get_attribute.
  destruct (_ || _ || _); [by intros [= <- <-]|].
  destruct (Z.eqb_spec attribute VI_ATTR_TCPIP_NODELAY) as [->|H1].
  - cbn [negb andb]. destruct (_ && _); [by intros [= <- <-]|].
    destruct (socket_set_option _ _) as [[] socket]; intros [= <- <-]; (split; [|done]); cbn.
    + done.
    + intros other [Hne|]; [|done]. destruct (Z.eqb_spec other VI_ATTR_TCPIP_NODELAY); done.
  - destruct (Z.eqb_spec attribute VI_ATTR_TCPIP_KEEPALIVE) as [->|H2]; cbn [negb andb]; [|by intros [= <- <-]].
    destruct (_ && _); [by intros [= <- <-]|].
    destruct (socket_set_option _ _) as [[] socket]; intros [= <- <-]; (split; [|done]); cbn.
    + done.
    + intros other [Hne|]; [|done]. destruct (Z.eqb_spec other VI_ATTR_TCPIP_KEEPALIVE); done.
Qed.
