(* ===== verification/Stream.v ===== *)
(** * Streams of bytes and ends of messages

    What the reads of the backends deliver: a byte is [Some], the end of a
    message [None].  Sessions keep what a read does not hand out in a buffer of
    bytes with a flag for the end behind them. *)

From S2P Require Import Prelude Visa BackendSession.

Definition events (data : list Z) (ends : bool) : list (option Z) :=
  (Some <$> data) ++ (if ends then [None] else []).

Lemma events_app data data' ends : events (data ++ data') ends = events data false ++ events data' ends.
Proof. unfold events. by rewrite fmap_app, app_nil_r, app_assoc. Qed.

Lemma events_nil data ends : events data ends = [] -> data = [] /\ ends = false.
Proof. unfold events. destruct data, ends; done. Qed.

Lemma events_snoc data : events data true = events data false ++ [None].
Proof. unfold events. by rewrite app_nil_r. Qed.

(** ** Termination characters *)

Definition is_termchar (options : ReadOptions) (byte : Z) : bool :=
  ro_termchar_enabled options && (byte =? ro_termchar options).

Section termchar.
  Context (options : ReadOptions).

(** [data] ends with its first termination character, or has none. *)
Definition termchar_ok (data : list Z) (found : bool) : Prop :=
  if found then ro_termchar_enabled options = true /\
    exists pre, data = pre ++ [ro_termchar options] /\ ro_termchar options ∉ pre
  else ro_termchar_enabled options = true -> ro_termchar options ∉ data.

Lemma termchar_ok_nil : termchar_ok [] false.
Proof. intros _. apply not_elem_of_nil. Qed.

Lemma termchar_ok_snoc data byte :
  termchar_ok data false -> termchar_ok (data ++ [byte]) (is_termchar options byte).
Proof.
  unfold termchar_ok, is_termchar. intros Hd. destruct (ro_termchar_enabled options); [|done]. cbn [andb].
  destruct (Z.eqb_spec byte (ro_termchar options)) as [->|Hne]; [split; [done|]; exists data; auto|].
  intros _. rewrite elem_of_app, list_elem_of_singleton. naive_solver.
Qed.

(** The status of a read that ends with [data]: why it has ended. *)
Definition read_ended (count status : Z) (data : list Z) (found ended : bool) : Prop :=
  termchar_ok data found /\ Z.of_nat (length data) <= count /\
  if found then status = VI_SUCCESS_TERM_CHAR
  else status = VI_SUCCESS_MAX_CNT /\ Z.of_nat (length data) = count \/
       status = VI_SUCCESS /\ Z.of_nat (length data) < count /\ ended = true.

End termchar.
