(* ===== verification/Io.v ===== *)
(** * Backend code as a monad

    The member functions of the backends run straight-line code with early
    returns and loops over the session, its transport and the operation they are
    given.  [io W R A] is such code: it either goes on with an [A] ([Next]) or
    has left its function with an [R] ([Return]), in a changed [W]; [None] is
    code that never gets there, because the transport never returns or because
    a loop is given less fuel than the turns it takes. *)

From S2P Require Import Prelude Visa Operation BackendSession.

Inductive outcome (W R A : Type) :=
| Next (a : A) (w : W)
| Return (r : R) (w : W).
Arguments Next {_ _ _} _ _.
Arguments Return {_ _ _} _ _.

Definition io (W R A : Type) := W -> option (outcome W R A).

Definition final {W R A} (o : outcome W R A) : W :=
  match o with Next _ w | Return _ w => w end.

Section monad.
  Context {W R : Type}.

Definition io_ret {A} (a : A) : io W R A := fun w => Some (Next a w).

Definition io_bind {A B} (m : io W R A) (k : A -> io W R B) : io W R B := fun w =>
  match m w with
  | Some (Next a w') => k a w'
  | Some (Return r w') => Some (Return r w')
  | None => None
  end.

(** [return r;] *)
Definition io_return {A} (r : R) : io W R A := fun w => Some (Return r w).

(** Reading and writing the state. *)
Definition io_gets {A} (f : W -> A) : io W R A := fun w => Some (Next (f w) w).

Definition io_modify (f : W -> W) : io W R unit := fun w => Some (Next tt (f w)).

(** A call of another function: its [return] gives the value of the call. *)
Definition io_call {A} (m : io W A A) : io W R A := fun w =>
  match m w with
  | Some (Next a w') | Some (Return a w') => Some (Next a w')
  | None => None
  end.

(** A call of a function with an output parameter: the output, or the status it
    returned without one. *)
Definition io_try {B A} (m : io W B A) : io W R (B + A) := fun w =>
  match m w with
  | Some (Next a w') => Some (Next (inr a) w')
  | Some (Return b w') => Some (Next (inl b) w')
  | None => None
  end.

(** A loop over local variables [X]: each turn gives their new values, or the
    value the loop ends with. *)
Fixpoint io_iter {X Y} (fuel : nat) (body : X -> io W R (X + Y)) (x : X) : io W R Y :=
  match fuel with
  | O => fun _ => None
  | S fuel => io_bind (body x) (fun r =>
      match r with inl x' => io_iter fuel body x' | inr y => io_ret y end)
  end.

End monad.

Notation "x <- m ;; k" := (io_bind m (fun x => k))
  (at level 100, m at next level, right associativity) : wrvisa_scope.
Notation "m ;; k" := (io_bind m (fun _ => k))
  (at level 100, right associativity) : wrvisa_scope.
Notation "'when' c 'do' m" := (if c then m else io_ret tt)
  (at level 100, c at level 99, m at level 99) : wrvisa_scope.

(** ** Calls of a backend *)

(** What a member function returns: its status, [*return_count] or the other
    output value, and the bytes stored in the caller's buffer. *)
Record reply := mkReply { rp_status : Z; rp_value : Z; rp_data : list Z }.

Definition status_only (status : Z) : reply := mkReply status 0 [].

Section calls.
  Context {B H : Type}.

(** The session and the operation of the call. *)
Abbreviation W := (B * Operation H)%type.
Abbreviation IO R A := (io W R A).

Definition run_io (m : IO reply reply) (op : Operation H) (b : B)
  : option (call_result B H) :=
  match m (b, op) with
  | Some (Next r (b', op')) | Some (Return r (b', op')) =>
      Some (mkCall (rp_status r) (rp_value r) (rp_data r) b' op')
  | None => None
  end.

Definition get {R A} (f : B -> A) : IO R A := io_gets (fun w => f w.1).
Definition modify {R} (f : B -> B) : IO R unit := io_modify (fun w => (f w.1, w.2)).
Definition operation_is {R A} (f : Operation H -> A) : IO R A := io_gets (fun w => f w.2).

(** [operation.try_complete(status)] *)
Definition complete {R} (status : Z) : IO R bool := fun w =>
  let '(won, op') := try_complete status w.2 in Some (Next won (w.1, op')).

(** A decoder that would read beyond its input has no outcome. *)
Definition decoded {R A} (o : option A) : IO R A :=
  fun w => match o with Some a => Some (Next a w) | None => None end.

(** The statuses that ask for a recovery. *)
Definition cancelled (status : Z) : bool := (status =? VI_ERROR_ABORT) || (status =? VI_ERROR_TMO).

(** [return operation.result();] *)
Definition return_result {R A} (f : Z -> R) : IO R A :=
  r <- operation_is op_result ;; io_return (f r).

(** Code run under an operation of its own, created and dropped by the caller. *)
Definition under {R A} (fresh : Operation H) (m : IO R A) : IO R A := fun w =>
  match m (w.1, fresh) with
  | Some (Next a w') => Some (Next a (w'.1, w.2))
  | Some (Return r w') => Some (Return r (w'.1, w.2))
  | None => None
  end.

End calls.

(** ** Reasoning *)

Section hoare.
  Context {W R : Type}.

(** [Q] holds of the outcome, if there is one. *)
Definition holds {A} (m : io W R A) (w : W) (Q : outcome W R A -> Prop) : Prop :=
  forall o, m w = Some o -> Q o.

Lemma holds_mono {A} (m : io W R A) w (Q Q' : outcome W R A -> Prop) :
  holds m w Q -> (forall o, Q o -> Q' o) -> holds m w Q'.
Proof. unfold holds. eauto. Qed.

Lemma holds_and {A} (m : io W R A) w (P Q : outcome W R A -> Prop) :
  holds m w P -> holds m w Q -> holds m w (fun o => P o /\ Q o).
Proof. intros HP HQ o E. split; [by apply HP|by apply HQ]. Qed.

Lemma holds_ret {A} (a : A) w (Q : outcome W R A -> Prop) : Q (Next a w) -> holds (io_ret a) w Q.
Proof. intros HQ o [= <-]. done. Qed.

Lemma holds_return {A} r w (Q : outcome W R A -> Prop) : Q (Return r w) -> holds (io_return r) w Q.
Proof. intros HQ o [= <-]. done. Qed.

Lemma holds_gets {A} (f : W -> A) w (Q : outcome W R A -> Prop) :
  Q (Next (f w) w) -> holds (io_gets f) w Q.
Proof. intros HQ o [= <-]. done. Qed.

Lemma holds_modify f w (Q : outcome W R unit -> Prop) :
  Q (Next tt (f w)) -> holds (io_modify f) w Q.
Proof. intros HQ o [= <-]. done. Qed.

Lemma holds_bind {A B} (m : io W R A) (k : A -> io W R B) w (Q : outcome W R B -> Prop) :
  holds m w (fun o => match o with Next a w' => holds (k a) w' Q | Return r w' => Q (Return r w') end) ->
  holds (io_bind m k) w Q.
Proof.
  intros Hm o. unfold io_bind. destruct (m w) as [[a w'|r w']|] eqn:E; [|intros [= <-]|done].
  - apply (Hm _ E).
  - apply (Hm _ E).
Qed.

Lemma holds_iter {X Y} (I : X -> W -> Prop) fuel (body : X -> io W R (X + Y)) (Q : outcome W R Y -> Prop) :
  (forall x w, I x w -> holds (body x) w (fun o =>
     match o with
     | Next (inl x') w' => I x' w'
     | Next (inr y) w' => Q (Next y w')
     | Return r w' => Q (Return r w')
     end)) ->
  forall x w, I x w -> holds (io_iter fuel body x) w Q.
Proof.
  intros Hbody. induction fuel as [|fuel IH]; intros x w HI; [done|]. cbn [io_iter].
  apply holds_bind. eapply holds_mono; [by apply Hbody|].
  intros [[x'|y] w'|r w'] Ho; [by apply IH|by apply holds_ret|done].
Qed.

End hoare.

Lemma holds_call {W R A} (m : io W A A) w (Q : outcome W R A -> Prop) :
  holds m w (fun o => match o with Next a w' | Return a w' => Q (Next a w') end) ->
  holds (io_call m) w Q.
Proof.
  intros Hm o. unfold io_call. destruct (m w) as [[a w'|a w']|] eqn:E; intros [= <-]; apply (Hm _ E).
Qed.

Lemma holds_try {W R A B} (m : io W B A) w (Q : outcome W R (B + A) -> Prop) :
  holds m w (fun o => match o with Next a w' => Q (Next (inr a) w') | Return b w' => Q (Next (inl b) w') end) ->
  holds (io_try m) w Q.
Proof.
  intros Hm o. unfold io_try. destruct (m w) as [[a w'|a w']|] eqn:E; intros [= <-]; apply (Hm _ E).
Qed.

(** *** Termination *)

(** A loop returns when every turn does and lowers a measure, within as much
    fuel as the measure is at the start. *)
Lemma iter_returns {W R X Y} (I : X -> W -> Prop) (measure : X -> W -> nat) (body : X -> io W R (X + Y)) :
  (forall x w, I x w -> exists o, body x w = Some o /\
     match o with
     | Next (inl x') w' => I x' w' /\ (measure x' w' < measure x w)%nat
     | _ => True
     end) ->
  forall fuel x w, I x w -> (measure x w < fuel)%nat -> is_Some (io_iter fuel body x w).
Proof.
  intros Hbody fuel. induction fuel as [|fuel IH]; intros x w HI Hm; [lia|]. cbn [io_iter].
  unfold io_bind. destruct (Hbody x w HI) as (o & -> & Ho).
  destruct o as [[x'|y] w'|r w']; [|by eexists|by eexists]. destruct Ho. apply IH; [done|lia].
Qed.

Lemma bind_returns {W R A B} (m : io W R A) (k : A -> io W R B) w :
  is_Some (m w) -> (forall a w', m w = Some (Next a w') -> is_Some (k a w')) -> is_Some (io_bind m k w).
Proof.
  intros [o Hm] Hk. unfold io_bind. rewrite Hm. destruct o as [a w'|r w']; [by apply Hk|by eexists].
Qed.

(** *** A relation every step respects *)

Section steady.
  Context {W : Type} (Rel : W -> W -> Prop) `{!PreOrder Rel}.

Definition steady {R A} (m : io W R A) : Prop := forall w o, m w = Some o -> Rel w (final o).

Lemma holds_steady {R A} (m : io W R A) w : steady m -> holds m w (fun o => Rel w (final o)).
Proof. intros Hm o. apply Hm. Qed.

Lemma steady_ret {R A} (a : A) : steady (R:=R) (io_ret a).
Proof. intros w o [= <-]. reflexivity. Qed.

Lemma steady_return {R A} (r : R) : steady (A:=A) (io_return r).
Proof. intros w o [= <-]. reflexivity. Qed.

Lemma steady_gets {R A} (f : W -> A) : steady (R:=R) (io_gets f).
Proof. intros w o [= <-]. reflexivity. Qed.

Lemma steady_modify {R} f : (forall w, Rel w (f w)) -> steady (R:=R) (io_modify f).
Proof. intros Hf w o [= <-]. apply Hf. Qed.

Lemma steady_bind {R A B} (m : io W R A) (k : A -> io W R B) :
  steady m -> (forall a, steady (k a)) -> steady (io_bind m k).
Proof.
  intros Hm Hk w o. unfold io_bind. destruct (m w) as [[a w'|r w']|] eqn:E; [|intros [= <-]|done].
  - intros Ho. etrans; [apply (Hm _ _ E)|apply (Hk _ _ _ Ho)].
  - apply (Hm _ _ E).
Qed.

Lemma steady_call {R A} (m : io W A A) : steady m -> steady (R:=R) (io_call m).
Proof.
  intros Hm w o. unfold io_call. destruct (m w) as [[a w'|a w']|] eqn:E; intros [= <-]; apply (Hm _ _ E).
Qed.

Lemma steady_try {R A B} (m : io W B A) : steady m -> steady (R:=R) (io_try m).
Proof.
  intros Hm w o. unfold io_try. destruct (m w) as [[a w'|a w']|] eqn:E; intros [= <-]; apply (Hm _ _ E).
Qed.

Lemma steady_iter {R X Y} fuel (body : X -> io W R (X + Y)) :
  (forall x, steady (body x)) -> forall x, steady (io_iter fuel body x).
Proof.
  intros Hb. induction fuel as [|fuel IH]; intros x; [done|]. cbn [io_iter].
  apply steady_bind; [done|]. intros [x'|y]; [done|apply steady_ret].
Qed.

End steady.

Section steady_calls.
  Context {B H : Type} (Rel : relation (B * Operation H)) `{!PreOrder Rel}.

Lemma steady_get {R A} f : steady Rel (get (R:=R) (A:=A) f).
Proof. apply steady_gets, _. Qed.

Lemma steady_operation_is {R A} f : steady Rel (operation_is (R:=R) (A:=A) f).
Proof. apply steady_gets, _. Qed.

Lemma steady_return_result {R A} f : steady Rel (return_result (R:=R) (A:=A) f).
Proof. apply steady_bind; [apply _|apply steady_operation_is|]. intros r. apply steady_return, _. Qed.

Lemma steady_decoded {R A} (o : option A) : steady Rel (decoded (R:=R) o).
Proof. intros w r. unfold decoded. destruct o; [|done]. intros [= <-]. reflexivity. Qed.

Lemma run_io_steady m op b r :
  steady Rel m -> run_io m op b = Some r -> Rel (b, op) (cr_backend r, cr_operation r).
Proof.
  intros Hm. unfold run_io. destruct (m (b, op)) as [[a [b' op']|a [b' op']]|] eqn:E;
    intros [= <-]; apply (Hm _ _ E).
Qed.

End steady_calls.

(** *** Operations only move forward *)

(** The operation after a call: a result never changes, nor does a deadline. *)
Definition later {H} (op op' : Operation H) : Prop :=
  keeps_result op op' /\ deadline_ op' = deadline_ op.

#[global] Instance later_preorder {H} : PreOrder (@later H).
Proof.
  split; [done|]. intros op1 op2 op3 [H1 D1] [H2 D2].
  split; [by eapply keeps_result_trans|congruence].
Qed.

Lemma later_try_complete {H} status (op : Operation H) : later op (try_complete status op).2.
Proof.
  split; [apply keeps_result_try_complete|]. unfold try_complete. by destruct (result_ op =? kPending).
Qed.

Lemma later_request_timeout {H} (op : Operation H) : later op (request_timeout op).2.
Proof.
  unfold request_timeout, complete_and_notify.
  pose proof (later_try_complete VI_ERROR_TMO op) as Hl.
  destruct (try_complete VI_ERROR_TMO op) as [[] op']; [|done]. exact Hl.
Qed.

Lemma request_timeout_completed {H} (op : Operation H) : completed (request_timeout op).2 = true.
Proof.
  unfold request_timeout, complete_and_notify. destruct (completed op) eqn:Hc.
  - by rewrite try_complete_done.
  - by rewrite try_complete_fresh.
Qed.

Lemma fails_only_request_timeout {H} (op : Operation H) : fails_only op -> fails_only (request_timeout op).2.
Proof.
  intros Hf. unfold request_timeout, complete_and_notify. destruct (completed op) eqn:Hc.
  - rewrite try_complete_done by done. exact Hf.
  - rewrite try_complete_fresh by done. intros _. reflexivity.
Qed.

(** Only failures complete the operation. *)
Definition fails_on {B H} (w w' : B * Operation H) : Prop := fails_only w.2 -> fails_only w'.2.

#[global] Instance fails_on_preorder {B H} : PreOrder (@fails_on B H).
Proof. split; unfold fails_on; [intros w; done|]. intros w1 w2 w3. auto. Qed.

Definition ops_later {B H} (w w' : B * Operation H) : Prop := later w.2 w'.2.

#[global] Instance ops_later_preorder {B H} : PreOrder (@ops_later B H).
Proof.
  split; unfold ops_later; [intros w; reflexivity|]. intros w1 w2 w3 H1 H2. by etrans.
Qed.

Section ops.
  Context {B H : Type}.

Abbreviation W := (B * Operation H)%type.

Lemma later_modify {R} f : steady ops_later (modify (B:=B) (H:=H) (R:=R) f).
Proof. apply steady_modify. intros w. unfold ops_later. reflexivity. Qed.

Lemma fails_modify {R} f : steady fails_on (modify (B:=B) (H:=H) (R:=R) f).
Proof. apply steady_modify. intros w Hf. exact Hf. Qed.

Lemma later_complete {R} status : steady ops_later (complete (B:=B) (H:=H) (R:=R) status).
Proof.
  intros w o. unfold complete. pose proof (later_try_complete status w.2) as Hl.
  destruct (try_complete status w.2) as [won op']. intros [= <-]. exact Hl.
Qed.

Lemma later_under {R A} fresh (m : io W R A) : steady ops_later (under fresh m).
Proof. intros w o. unfold under, ops_later. destruct (m _) as [[a w'|r w']|]; intros [= <-]; reflexivity. Qed.

(** Winning a completion fixes the result; losing it leaves it as it was. *)
Lemma holds_complete {R} status (w : W) (Q : outcome W R bool -> Prop) :
  (forall op', op_result op' = status -> Q (Next true (w.1, op'))) ->
  Q (Next false w) -> holds (complete (B:=B) (H:=H) (R:=R) status) w Q.
Proof.
  intros Hwon Hlost o. unfold complete. destruct w as [b op]. cbn [fst snd] in *.
  destruct (completed op) eqn:Hc.
  - rewrite try_complete_done by done. by intros [= <-].
  - rewrite try_complete_fresh by done. intros [= <-]. by apply Hwon.
Qed.

Lemma holds_return_result {R A} (f : Z -> R) (w : W) (Q : outcome W R A -> Prop) :
  Q (Return (f (op_result w.2)) w) -> holds (return_result (B:=B) (H:=H) f) w Q.
Proof. intros HQ. apply holds_bind, holds_gets, holds_return. exact HQ. Qed.

Lemma run_io_holds m op b r (Q : reply -> W -> Prop) :
  holds m (b, op) (fun o => match o with Next a w | Return a w => Q a w end) ->
  run_io (B:=B) (H:=H) m op b = Some r ->
  Q (mkReply (cr_status r) (cr_value r) (cr_data r)) (cr_backend r, cr_operation r).
Proof.
  intros Hm. unfold run_io. destruct (m (b, op)) as [[[st v d] [b' op']|[st v d] [b' op']]|] eqn:E;
    intros [= <-]; apply (Hm _ E).
Qed.

Lemma run_io_later m op b r :
  steady ops_later m -> run_io (B:=B) (H:=H) m op b = Some r -> later op (cr_operation r).
Proof.
  intros Hm Hr. exact (run_io_steady _ _ _ _ _ Hm Hr).
Qed.

End ops.

(** A relation on the session alone. *)
Definition on_state {B H} (R : B -> B -> Prop) (w w' : B * Operation H) : Prop := R w.1 w'.1.

#[global] Instance on_state_preorder {B H} (R : B -> B -> Prop) `{!PreOrder R} : PreOrder (@on_state B H R).
Proof.
  split; unfold on_state; [intros w; reflexivity|]. intros w1 w2 w3 H1 H2. by etrans.
Qed.

Section state.
  Context {B H : Type} (Rel : B -> B -> Prop) `{!PreOrder Rel}.

Lemma state_modify {R} f : (forall b, Rel b (f b)) -> steady (on_state Rel) (modify (B:=B) (H:=H) (R:=R) f).
Proof. intros Hf. apply steady_modify. intros w. apply Hf. Qed.

Lemma state_complete {R} status : steady (on_state Rel) (complete (B:=B) (H:=H) (R:=R) status).
Proof.
  intros w o. unfold complete. destruct (try_complete status w.2) as [won op'].
  intros [= <-]. unfold on_state. reflexivity.
Qed.

Lemma state_under {R A} fresh (m : io (B * Operation H) R A) :
  steady (on_state Rel) m -> steady (on_state Rel) (under fresh m).
Proof.
  intros Hm w o. unfold under, on_state. destruct (m _) as [[a w'|r w']|] eqn:E; intros [= <-];
    apply (Hm _ _ E).
Qed.

Lemma run_io_state m op b r :
  steady (on_state Rel) m -> run_io (B:=B) (H:=H) m op b = Some r -> Rel b (cr_backend r).
Proof.
  intros Hm Hr. exact (run_io_steady _ _ _ _ _ Hm Hr).
Qed.

End state.

(** ** Transports *)

(** A call gives its status, its output parameter, and the operation and the
    transport as it leaves them; [None] is a call that never returns. *)
Definition transport_call (T H X : Type) : Type := option (Z * X * Operation H * T).

(** A session that owns a transport. *)
Class OwnsTransport (S T : Type) := {
  own_transport : S -> T;
  own_with_transport : T -> S -> S;
  own_transport_with t s : own_transport (own_with_transport t s) = t;
  own_with_own s : own_with_transport (own_transport s) s = s;
  own_with_with t t' s : own_with_transport t (own_with_transport t' s) = own_with_transport t s }.

Section transports.
  Context {S T H : Type} `{OwnsTransport S T}.

Definition transfer {R X} (f : Operation H -> T -> transport_call T H X)
  : io (S * Operation H) R (Z * X) := fun w =>
  match f w.2 (own_transport w.1) with
  | Some (status, x, op', t') => Some (Next (status, x) (own_with_transport t' w.1, op'))
  | None => None
  end.

Lemma transfer_later {R X} (f : Operation H -> T -> transport_call T H X) :
  (forall op t r op' t', f op t = Some (r, op', t') -> later op op') ->
  steady ops_later (transfer (R:=R) f).
Proof.
  intros Hf w o. unfold transfer. destruct (f _ _) as [[[[status x] op'] t']|] eqn:E; [|done].
  intros [= <-]. apply (Hf _ _ _ _ _ E).
Qed.

(** Calls change the session only through its transport. *)
Lemma state_transfer (Rel : S -> S -> Prop) {R X} (f : Operation H -> T -> transport_call T H X) :
  (forall t s, Rel s (own_with_transport t s)) -> steady (on_state Rel) (transfer (R:=R) f).
Proof.
  intros Ht w o. unfold transfer. destruct (f _ _) as [[[[status x] op'] t']|] eqn:E; [|done].
  intros [= <-]. apply Ht.
Qed.

End transports.

Create HintDb wrio.
#[export] Hint Resolve later_modify later_complete later_under : wrio.

(** Shows that code only moves its operation forward. *)
Ltac steady :=
  repeat first
    [ done
    | solve [auto with wrio]
    | apply steady_ret; apply _
    | apply steady_return; apply _
    | apply steady_gets; apply _
    | apply steady_get; apply _
    | apply steady_operation_is; apply _
    | apply steady_return_result; apply _
    | apply steady_decoded; apply _
    | apply state_complete; apply _
    | apply state_under
    | apply steady_call
    | apply steady_try
    | apply steady_bind; [apply _| |intros ?]
    | apply steady_iter; [apply _|intros ?]
    | case_match ].
