(* ===== verification/Timed.v ===== *)
(** * Code that returns

    Calls of a transport take time.  [remaining t d] bounds how many of them can
    still succeed before the clock reaches [d]; code is shown to return, whatever
    the device does, when its loops turn at most as often as calls can succeed
    before the deadline of its operation. *)

From S2P Require Import Prelude Visa Operation BackendSession Io.

(** One that succeeds uses one up. *)
Definition passes {T} (remaining : T -> Z -> nat) (status : Z) (t t' : T) : Prop :=
  forall deadline, (remaining t' deadline <=
    if (VI_SUCCESS <=? status)%Z then Nat.pred (remaining t deadline) else remaining t deadline)%nat.

Lemma passes_le {T} (remaining : T -> Z -> nat) status t t' d :
  passes remaining status t t' -> (remaining t' d <= remaining t d)%nat.
Proof. intros Hp. specialize (Hp d). destruct (VI_SUCCESS <=? status); lia. Qed.

Section timed.
  Context {S T H : Type} `{OwnsTransport S T} (remaining : T -> Z -> nat) (turns : nat).

Abbreviation left_of w := (remaining (own_transport (fst w))).

(** Time goes on and deadlines stay. *)
Definition onward (w w' : S * Operation H) : Prop :=
  deadline_ w'.2 = deadline_ w.2 /\ forall d, (left_of w' d <= left_of w d)%nat.

#[export] Instance onward_preorder : PreOrder onward.
Proof.
  split; [by split|]. intros w1 w2 w3 [D1 L1] [D2 L2]. split; [congruence|].
  intros d. etrans; [apply L2|apply L1].
Qed.

Lemma onward_session s s' (op : Operation H) :
  own_transport s' = own_transport s -> onward (s, op) (s', op).
Proof. intros Ht. split; [done|]. intros d. cbn. by rewrite Ht. Qed.

Lemma onward_modify {R} f :
  (forall s, own_transport (f s) = own_transport s) -> steady onward (modify (B:=S) (H:=H) (R:=R) f).
Proof. intros Hf. apply steady_modify. intros [s op]. by apply onward_session. Qed.

Lemma onward_complete {R} status : steady onward (complete (B:=S) (H:=H) (R:=R) status).
Proof.
  intros w o. unfold complete. pose proof (later_try_complete status w.2) as Hl.
  destruct (try_complete status w.2) as [won op']. intros [= <-]. split; [apply Hl|done].
Qed.

Lemma onward_under {R A} fresh (m : io (S * Operation H) R A) : steady onward m -> steady onward (under fresh m).
Proof.
  intros Hm w o. unfold under. destruct (m _) as [[a w'|r w']|] eqn:E; intros [= <-];
    (split; [done|]; apply (Hm _ _ E)).
Qed.

(** The deadline is near enough for [turns]. *)
Definition in_time (w : S * Operation H) : Prop :=
  exists d, deadline_ w.2 = Some d /\ (left_of w d < turns)%nat.

(** Code that returns, when it starts in time if it is [timed]. *)
Definition total {R A} (timed : bool) (m : io (S * Operation H) R A) : Prop :=
  forall w, (timed = true -> in_time w) -> is_Some (m w).

Lemma in_time_onward w w' : onward w w' -> in_time w -> in_time w'.
Proof.
  intros [Hd Hl] (d & Hdl & Hlt). exists d. split; [congruence|]. eapply Nat.le_lt_trans; [apply Hl|done].
Qed.

Lemma total_bind {R A B} timed (m : io (S * Operation H) R A) (k : A -> io (S * Operation H) R B) :
  steady onward m -> total timed m -> (forall a, total timed (k a)) -> total timed (io_bind m k).
Proof.
  intros Hs Hm Hk w Hw. apply bind_returns; [by apply Hm|]. intros a w' E. apply Hk.
  intros Ht. apply (in_time_onward w); [apply (Hs _ _ E)|auto].
Qed.

Lemma total_call {R A} timed (m : io (S * Operation H) A A) : total timed m -> total timed (io_call (R:=R) m).
Proof. intros Hm w Hw. unfold io_call. destruct (Hm w Hw) as [[a w'|a w'] ->]; by eexists. Qed.

Lemma total_try {R A B} timed (m : io (S * Operation H) B A) : total timed m -> total timed (io_try (R:=R) m).
Proof. intros Hm w Hw. unfold io_try. destruct (Hm w Hw) as [[a w'|a w'] ->]; by eexists. Qed.

Lemma total_complete {R} timed status : total timed (complete (R:=R) status).
Proof. intros w _. unfold complete. destruct (try_complete _ _). by eexists. Qed.

Lemma total_weaken {R A} timed (m : io (S * Operation H) R A) : total false m -> total timed m.
Proof. intros Hm w _. by apply Hm. Qed.

(** *** Calls of the transport *)

(** A call that returns, later, with an output that satisfies [ok]. *)
Definition answers {X} (ok : X -> Prop) (call : Operation H -> T -> transport_call T H X) : Prop :=
  forall op t, exists status x op' t', call op t = Some (status, x, op', t') /\
    later op op' /\ ok x /\ passes remaining status t t'.

Lemma onward_transfer {R X} ok (call : Operation H -> T -> transport_call T H X) :
  answers ok call -> steady onward (transfer (R:=R) call).
Proof.
  intros Hf w o. unfold transfer. destruct (Hf w.2 (own_transport w.1)) as (st & x & op' & t' & -> & Hl & _ & Hp).
  intros [= <-]. split; [apply Hl|]. intros d. cbn. rewrite own_transport_with. by eapply passes_le.
Qed.

Lemma total_transfer {R X} timed ok (call : Operation H -> T -> transport_call T H X) :
  answers ok call -> total timed (transfer (R:=R) call).
Proof.
  intros Hf w _. unfold transfer. destruct (Hf w.2 (own_transport w.1)) as (st & x & op' & t' & -> & _).
  by eexists.
Qed.

(** A loop whose turns that go on use up a call of the transport. *)
Lemma total_loop {R X Y} (body : X -> io (S * Operation H) R (X + Y)) :
  (forall x, steady onward (body x)) -> (forall x, total true (body x)) ->
  (forall x w x' w' d, deadline_ w.2 = Some d -> body x w = Some (Next (inl x') w') -> (left_of w' d < left_of w d)%nat) ->
  forall x, total true (io_iter turns body x).
Proof.
  intros Hs Hb Hsp x w Hw. destruct (Hw eq_refl) as (d & Hd & Hlt). clear Hw.
  apply (iter_returns (fun _ w => deadline_ w.2 = Some d /\ (left_of w d < turns)%nat)
    (fun _ w => left_of w d)); [|done|done]. clear x w Hd Hlt. intros x w [Hd Hlt].
  assert (is_Some (body x w)) as [o Ho] by (apply Hb; intros _; by exists d).
  exists o. split; [done|]. destruct o as [[x'|y] w'|r w']; [|done|done].
  destruct (Hs _ _ _ Ho) as [Hd' _]. cbn [final] in Hd'. specialize (Hsp x w x' w' d Hd Ho).
  split; [split; [congruence|]|]; lia.
Qed.

End timed.
