(* ===== verification/Network.v ===== *)
(** * Request channels as the sessions on top of them see them

    A session owns its channels, a lock for its calls ([io_mutex_]) and a clock;
    together they are its network.  What the sessions rely on is stated as laws,
    which [RequestChannel] keeps; a call blocks its thread until it is done. *)

From S2P Require Import Prelude Visa Operation Bytes RequestChannel BackendSession Io Timed.

(** Channels are numbered by their session.  [net_exchange] gives the status, the
    response and whether the channel's cancel observer was called meanwhile;
    [net_connect] gives the status and the peer's address. *)
Class Network (N H : Type) := {
  net_create : nat -> Z -> bool -> N -> N;
  net_connect : nat -> str -> Z -> Z -> N -> option (Z * str * N);
  net_exchange : nat -> list Z -> ResponseFraming -> Operation H -> N -> transport_call N H (list Z * bool);
  net_close : nat -> N -> N;
  (** [Clock::now()] in milliseconds *)
  net_now : N -> Z * N;
  (** [io_mutex_.try_lock_for(5ms)] *)
  net_try_lock : N -> bool * N;
  (** The cancellation handlers an operation runs when it times out. *)
  net_run_handlers : list H -> N -> N }.

(** An operation only moves forward and only failures complete it; a response
    is bytes, fewer than a machine can address. *)
Class NetworkLaws (N H : Type) `{Network N H} : Prop := {
  net_exchange_later ch d f op n r op' n' : net_exchange ch d f op n = Some (r, op', n') -> later op op';
  net_exchange_fails_only ch d f op n r op' n' :
    net_exchange ch d f op n = Some (r, op', n') -> fails_only op -> fails_only op';
  net_exchange_response ch d f op n status response seen op' n' :
    net_exchange ch d f op n = Some (status, (response, seen), op', n') ->
    are_bytes response /\ Z.of_nat (length response) < 2 ^ 64 }.

(** *** Time

    [remaining n d] bounds the exchanges that can still succeed under an
    operation with deadline [d], and the turns of waiting for the lock. *)

Class NetworkTimed (N H : Type) `{Network N H} (remaining : N -> Z -> nat) : Prop := {
  net_exchange_returns ch d f op n : is_Some (deadline_ op) -> is_Some (net_exchange ch d f op n);
  net_exchange_passes ch d f op n status x op' n' dl :
    net_exchange ch d f op n = Some (status, x, op', n') ->
    (remaining n' dl <= remaining n dl)%nat /\
    (deadline_ op = Some dl -> VI_SUCCESS <= status -> (remaining n' dl < remaining n dl)%nat);
  net_connect_returns ch host port timeout n :
    timeout ≠ VI_TMO_INFINITE -> is_Some (net_connect ch host port timeout n);
  net_connect_passes ch host port timeout n status address n' dl :
    net_connect ch host port timeout n = Some (status, address, n') -> (remaining n' dl <= remaining n dl)%nat;
  net_now_passes n dl :
    (remaining (net_now n).2 dl <= remaining n dl)%nat /\ (remaining n dl = 0%nat -> dl <= (net_now n).1);
  net_try_lock_passes n dl :
    (remaining (net_try_lock n).2 dl <= remaining n dl)%nat /\
    ((net_try_lock n).1 = false -> remaining n dl ≠ 0%nat -> (remaining (net_try_lock n).2 dl < remaining n dl)%nat);
  net_handlers_pass handlers n dl : (remaining (net_run_handlers handlers n) dl <= remaining n dl)%nat;
  net_close_passes ch n dl : (remaining (net_close ch n) dl <= remaining n dl)%nat }.

(** A view of the network: the exchanges that have succeeded on channel [main],
    with their requests and responses. *)
Class NetworkView (N H : Type) `{Network N H} (main : nat) (wire : N -> list (list Z * list Z)) : Prop := {
  nw_exchange ch d f op n status response seen op' n' :
    net_exchange ch d f op n = Some (status, (response, seen), op', n') ->
    wire n' = wire n ++ (if (ch =? main)%nat && (VI_SUCCESS <=? status) then [(d, response)] else []);
  nw_now n : wire (net_now n).2 = wire n;
  nw_try_lock n : wire (net_try_lock n).2 = wire n;
  nw_handlers handlers n : wire (net_run_handlers handlers n) = wire n;
  nw_close ch n : wire (net_close ch n) = wire n }.

(** ** What both sessions share

    [hislip_session.cpp] and [vxi11_session.cpp] have their own copies. *)

Section calls.
  Context {S N H : Type} `{OwnsTransport S N} `{Network N H}.
  (** How often the loop that waits for the lock may turn. *)
  Context (turns : nat).

Abbreviation IO R A := (io (S * Operation H) R A).

Definition net_clock {R} : IO R Z := fun w =>
  let '(now, n) := net_now (own_transport w.1) in Some (Next now (own_with_transport n w.1, w.2)).

(** [Operation operation(timeout);] and what runs under it. *)
Definition under_timeout {R A} (timeout : Z) (m : IO R A) : IO R A :=
  now <- net_clock ;; under (new_operation timeout now) m.

Definition net_request_timeout {R} : IO R unit := fun w =>
  let '(_, handlers, op') := request_timeout w.2 in
  Some (Next tt (own_with_transport (net_run_handlers handlers (own_transport w.1)) w.1, op')).

Definition try_lock {R} : IO R bool := fun w =>
  let '(locked, n) := net_try_lock (own_transport w.1) in
  Some (Next locked (own_with_transport n w.1, w.2)).

Definition connect {R} (ch : nat) (host : str) (port timeout : Z) : IO R (Z * str) := fun w =>
  match net_connect ch host port timeout (own_transport w.1) with
  | Some (status, address, n) => Some (Next (status, address) (own_with_transport n w.1, w.2))
  | None => None
  end.

Definition close_channel {R} (ch : nat) : IO R unit :=
  modify (fun s => own_with_transport (net_close ch (own_transport s)) s).

(** Whole milliseconds: a remainder of less than one counts as one. *)
Definition remaining_timeout {R} : IO R Z :=
  deadline <- operation_is deadline_ ;;
  match deadline with
  | None => io_ret VI_TMO_INFINITE
  | Some deadline =>
      now <- net_clock ;;
      io_ret (if deadline <=? now then 0
              else let count := deadline - now in
                   if 2 ^ 32 - 1 <=? count then 2 ^ 32 - 2 else Z.max count 1)
  end.

(** One turn of [acquire_io]: it ends with the lock, or without. *)
Definition acquire_turn {R} (_ : unit) : IO R (unit + bool) :=
  done <- operation_is completed ;;
  if (done : bool) then io_ret (inr false)
  else
    let lock := locked <- try_lock ;; io_ret (if (locked : bool) then inr true else inl tt) in
    deadline <- operation_is deadline_ ;;
    match deadline with
    | None => lock
    | Some deadline =>
        now <- net_clock ;;
        if deadline <=? now then net_request_timeout ;; io_ret (inr false) else lock
    end.

Definition acquire_io {R} : IO R bool := io_iter turns acquire_turn tt.

(** [if (!acquire_io(operation, lock)) return operation.result();] *)
Definition with_io {A} (body : IO reply A) : IO reply A :=
  acquired <- acquire_io ;;
  if (acquired : bool) then body else return_result status_only.

(** An exchange on a channel without an observer, and on one whose observer runs
    while the exchange is cancelled, before it returns. *)
Definition plain_call {R} (ch : nat) (framing : ResponseFraming) (request : list Z) : IO R (Z * list Z) :=
  r <- transfer (net_exchange ch request framing) ;; io_ret (r.1, r.2.1).

Definition observed_call {R} (ch : nat) (observing : S -> bool) (observer : IO R unit)
    (framing : ResponseFraming) (request : list Z) : IO R (Z * list Z) :=
  r <- transfer (net_exchange ch request framing) ;;
  observed <- get observing ;;
  (when r.2.2 && observed do observer) ;;
  io_ret (r.1, r.2.1).

(** ** Steps

    A relation that every step of the shared code respects. *)

Class WaitingSteps (Rel : relation (S * Operation H)) : Prop := {
  ns_preorder :: PreOrder Rel;
  ns_clock R : steady Rel (net_clock (R:=R));
  ns_timeout R : steady Rel (net_request_timeout (R:=R));
  ns_try_lock R : steady Rel (try_lock (R:=R));
  ns_under R A fresh (m : IO R A) : steady Rel m -> steady Rel (under fresh m) }.

Class NetworkSteps (Rel : relation (S * Operation H)) : Prop := {
  ns_waiting :: WaitingSteps Rel;
  ns_exchange R ch d f : steady Rel (transfer (R:=R) (net_exchange ch d f)) }.

Section steps.
  Context (Rel : relation (S * Operation H)) `{!WaitingSteps Rel}.

#[local] Hint Resolve ns_clock ns_timeout ns_try_lock ns_under : wrio.

Lemma steps_remaining_timeout {R} : steady Rel (remaining_timeout (R:=R)).
Proof. unfold remaining_timeout. steady. Qed.

Lemma steps_under_timeout {R A} timeout (m : IO R A) : steady Rel m -> steady Rel (under_timeout timeout m).
Proof. intros Hm. unfold under_timeout. steady. Qed.

Lemma steps_acquire_turn {R} x : steady Rel (acquire_turn (R:=R) x).
Proof. unfold acquire_turn. steady. Qed.

Lemma steps_acquire_io {R} : steady Rel (acquire_io (R:=R)).
Proof. unfold acquire_io. apply steady_iter; [apply _|]. apply steps_acquire_turn. Qed.

Lemma steps_with_io {A} (body : IO reply A) : steady Rel body -> steady Rel (with_io body).
Proof. intros Hb. unfold with_io. pose proof (steps_acquire_io (R:=reply)). steady. Qed.

End steps.

Section call_steps.
  Context (Rel : relation (S * Operation H)) `{!NetworkSteps Rel}.

#[local] Hint Resolve ns_waiting ns_exchange : wrio.

Lemma steps_plain_call {R} ch framing request : steady Rel (plain_call (R:=R) ch framing request).
Proof. unfold plain_call. steady. Qed.

Lemma steps_observed_call {R} ch observing (observer : IO R unit) framing request :
  steady Rel observer -> steady Rel (observed_call ch observing observer framing request).
Proof. intros Ho. unfold observed_call. steady. Qed.

End call_steps.

(** The operation only moves forward. *)
#[export] Instance later_net_steps `{!NetworkLaws N H} : NetworkSteps ops_later.
Proof.
  split; [split; first [apply _|intros]|intros].
  5: apply transfer_later; intros op t r op' t' E; by eapply net_exchange_later.
  - intros w o. unfold net_clock. destruct (net_now _). intros [= <-]. unfold ops_later. reflexivity.
  - intros w o. unfold net_request_timeout. pose proof (later_request_timeout w.2) as Hl.
    destruct (request_timeout w.2) as [[won hs] op']. intros [= <-]. exact Hl.
  - intros w o. unfold try_lock. destruct (net_try_lock _). intros [= <-]. unfold ops_later. reflexivity.
  - apply later_under.
Qed.

(** Relations on the session that hold whatever its network does. *)
Lemma state_net_steps (Rel : relation S) `{!PreOrder Rel} :
  (forall n s, Rel s (own_with_transport n s)) -> NetworkSteps (on_state Rel).
Proof.
  intros Hn. split; [split; first [apply _|intros]|intros].
  5: by apply state_transfer.
  - intros w o. unfold net_clock. destruct (net_now _). intros [= <-]. apply Hn.
  - intros w o. unfold net_request_timeout. destruct (request_timeout w.2) as [[won hs] op'].
    intros [= <-]. apply Hn.
  - intros w o. unfold try_lock. destruct (net_try_lock _). intros [= <-]. apply Hn.
  - by apply state_under.
Qed.

(** Waiting changes nothing but the network, and nothing in a view of it. *)
Definition same_view (wire : N -> list (list Z * list Z)) (s s' : S) : Prop :=
  s' = own_with_transport (own_transport s') s /\ wire (own_transport s') = wire (own_transport s).

#[export] Instance same_view_preorder wire : PreOrder (same_view wire).
Proof.
  split.
  - intros s. split; [by rewrite own_with_own|done].
  - intros s1 s2 s3 [E1 W1] [E2 W2]. split; [|congruence].
    rewrite E2 at 1. rewrite E1. apply own_with_with.
Qed.

Lemma same_view_network wire n s :
  wire n = wire (own_transport s) -> same_view wire s (own_with_transport n s).
Proof. intros Hw. split; by rewrite own_transport_with. Qed.

Lemma same_view_steps main wire `{!NetworkView N H main wire} : WaitingSteps (on_state (same_view wire)).
Proof.
  split; first [apply _|intros].
  - intros w o. unfold net_clock. pose proof (nw_now (own_transport w.1)) as Hw. destruct (net_now _).
    intros [= <-]. by apply same_view_network.
  - intros w o. unfold net_request_timeout. destruct (request_timeout w.2) as [[won hs] op'].
    intros [= <-]. apply same_view_network, nw_handlers.
  - intros w o. unfold try_lock. pose proof (nw_try_lock (own_transport w.1)) as Hw. destruct (net_try_lock _).
    intros [= <-]. by apply same_view_network.
  - by apply state_under.
Qed.

(** Only failures complete the operation. *)
#[export] Instance fails_net_steps `{!NetworkLaws N H} : NetworkSteps fails_on.
Proof.
  split; [split; first [apply _|intros]|intros].
  5: { intros w o. unfold transfer, fails_on. destruct (net_exchange ch d f w.2 _) as [[[[st x] op'] n']|] eqn:E; [|done].
    intros [= <-]. by eapply net_exchange_fails_only. }
  - intros w o. unfold net_clock. destruct (net_now _). intros [= <-] Hf. exact Hf.
  - intros w o. unfold net_request_timeout, fails_on. pose proof (fails_only_request_timeout w.2) as Hf.
    destruct (request_timeout w.2) as [[won hs] op']. intros [= <-]. exact Hf.
  - intros w o. unfold try_lock. destruct (net_try_lock _). intros [= <-] Hf. exact Hf.
  - intros w o. unfold under. destruct (m _) as [[a w'|r w']|]; intros [= <-] Hf; exact Hf.
Qed.

(** *** Time *)

Section time.
  Context `{!NetworkLaws N H} (remaining : N -> Z -> nat) `{!NetworkTimed N H remaining}.
Abbreviation left_of w := (remaining (own_transport (S:=S) (fst w))).
Abbreviation onward := (onward (S:=S) (H:=H) remaining).
Abbreviation total := (total (S:=S) (H:=H) remaining turns).

#[export] Instance onward_net_steps : NetworkSteps onward.
Proof.
  split; [split; first [apply _|intros]|intros].
  5: { intros w o. unfold transfer. destruct (net_exchange ch d f w.2 _) as [[[[st x] op'] n']|] eqn:E; [|done].
    intros [= <-]. split; [by eapply net_exchange_later|]. intros dl. cbn. rewrite own_transport_with.
    by eapply net_exchange_passes. }
  - intros w o. unfold net_clock. pose proof (net_now_passes (own_transport w.1)) as Hp.
    destruct (net_now _) as [now n']. intros [= <-]. split; [done|]. intros d. cbn.
    rewrite own_transport_with. apply (Hp d).
  - intros w o. unfold net_request_timeout. pose proof (later_request_timeout w.2) as Hl.
    destruct (request_timeout w.2) as [[won hs] op']. intros [= <-]. split; [apply Hl|].
    intros d. cbn. rewrite own_transport_with. apply net_handlers_pass.
  - intros w o. unfold try_lock. pose proof (net_try_lock_passes (own_transport w.1)) as Hp.
    destruct (net_try_lock _) as [locked n']. intros [= <-]. split; [done|]. intros d. cbn.
    rewrite own_transport_with. apply (Hp d).
  - by apply onward_under.
Qed.

Lemma onward_close_channel {R} ch : steady onward (close_channel (R:=R) ch).
Proof.
  intros w o. cbn. intros [= <-]. split; [done|]. intros d. cbn. rewrite own_transport_with.
  apply net_close_passes.
Qed.

Lemma total_exchange {R} ch d f : total true (transfer (R:=R) (net_exchange ch d f)).
Proof.
  intros w Hw. destruct (Hw eq_refl) as (dl & Hd & _). unfold transfer.
  destruct (net_exchange_returns ch d f w.2 (own_transport w.1)) as [[[[st x] op'] n'] ->]; by eexists.
Qed.

Lemma total_clock {R} timed : total timed (net_clock (R:=R)).
Proof. intros w _. unfold net_clock. destruct (net_now _). by eexists. Qed.

Lemma total_under_timeout {R A} timed timeout (m : IO R A) :
  timeout ≠ VI_TMO_INFINITE -> (forall n, (remaining n ((net_now n).1 + timeout) < turns)%nat) ->
  total true m -> total timed (under_timeout timeout m).
Proof.
  intros Hfin Ht Hm w _. unfold under_timeout, io_bind, net_clock.
  pose proof (net_now_passes (own_transport w.1) ((net_now (own_transport w.1)).1 + timeout)) as [Hle _].
  specialize (Ht (own_transport w.1)). destruct (net_now (own_transport w.1)) as [now n]. cbn [fst snd] in *.
  unfold under, new_operation. rewrite (proj2 (Z.eqb_neq _ _)) by done. cbn [fst snd].
  destruct (Hm (own_with_transport n w.1, mkOperation kPending (Some (now + timeout)) None)) as [o ->].
  - intros _. exists (now + timeout). split; [done|]. cbn [fst]. rewrite own_transport_with. lia.
  - destruct o; by eexists.
Qed.

Lemma total_remaining_timeout {R} timed : total timed (remaining_timeout (R:=R)).
Proof.
  intros w _. unfold remaining_timeout, io_bind, operation_is, io_gets. destruct (deadline_ w.2); [|by eexists].
  unfold net_clock. destruct (net_now _). by eexists.
Qed.

Lemma total_acquire_turn {R} timed x : total timed (acquire_turn (R:=R) x).
Proof.
  intros w _. unfold acquire_turn, io_bind, operation_is, io_gets. destruct (completed w.2); [by eexists|].
  assert (forall w', is_Some (try_lock (R:=R) w')) as Hlock
    by (intros w'; unfold try_lock; destruct (net_try_lock _); by eexists).
  assert (forall w', exists b w1, try_lock (R:=R) w' = Some (Next b w1)) as Hlock'
    by (intros w'; unfold try_lock; destruct (net_try_lock _); by do 2 eexists).
  destruct (deadline_ w.2) as [dl|].
  - unfold net_clock. destruct (net_now _) as [now n']. destruct (dl <=? now).
    + unfold net_request_timeout. destruct (request_timeout _) as [[won hs] op']. by eexists.
    + destruct (Hlock' (own_with_transport n' w.1, w.2)) as (b & w1 & ->). by eexists.
  - destruct (Hlock' w) as (b & w1 & ->). by eexists.
Qed.

(** A turn that goes on has waited for the lock before the deadline. *)
Lemma acquire_turn_waits {R} x w x' w' d :
  deadline_ w.2 = Some d -> acquire_turn (R:=R) x w = Some (Next (inl x') w') -> (left_of w' d < left_of w d)%nat.
Proof.
  intros Hd. unfold acquire_turn, io_bind, operation_is, io_gets. destruct (completed w.2); [done|]. rewrite Hd.
  unfold net_clock. pose proof (net_now_passes (own_transport w.1) d) as [Hnow Hlate].
  destruct (net_now _) as [now n']. destruct (Z.leb_spec d now) as [|Hlt].
  { unfold net_request_timeout. by destruct (request_timeout _) as [[won hs] op']. }
  assert (remaining (own_transport w.1) d ≠ 0%nat) by (intros Hz; specialize (Hlate Hz); cbn in *; lia).
  unfold try_lock. cbn [fst snd] in *. rewrite own_transport_with.
  pose proof (net_try_lock_passes n' d) as [Hle Hlock]. destruct (net_try_lock n') as [locked n2].
  destruct locked; [done|]. intros [= <- <-]. cbn [fst snd] in *. rewrite own_transport_with.
  destruct (decide (remaining n' d = 0%nat)) as [Hz|Hz]; [lia|]. specialize (Hlock eq_refl Hz). lia.
Qed.

Lemma total_acquire_io {R} : total true (acquire_io (R:=R)).
Proof.
  apply total_loop.
  - intros x. apply (steps_acquire_turn onward).
  - apply total_acquire_turn.
  - apply acquire_turn_waits.
Qed.

End time.

(** ** Outcomes *)

(** A call of a channel always gives a status. *)
Definition always_next {R A} (m : IO R A) : Prop :=
  forall w, holds m w (fun o => match o with Next _ _ => True | Return _ _ => False end).

Lemma next_transfer {R X} (f : Operation H -> N -> transport_call N H X) : always_next (transfer (R:=R) f).
Proof. intros w o. unfold transfer. destruct (f _ _) as [[[[st x] op'] n']|]; by intros [= <-]. Qed.

Lemma next_clock {R} : always_next (net_clock (R:=R)).
Proof. intros w o. unfold net_clock. destruct (net_now _). by intros [= <-]. Qed.

Lemma holds_under_timeout {R A B} timeout (m : IO B A) w (Q : outcome (S * Operation H) R (B + A) -> Prop) :
  (forall w', holds m w' (fun o =>
    match o with Next a w1 => Q (Next (inr a) (w1.1, w.2)) | Return b w1 => Q (Next (inl b) (w1.1, w.2)) end)) ->
  holds (under_timeout timeout (io_try m)) w Q.
Proof.
  intros Hm. unfold under_timeout. apply holds_bind. intros o. unfold net_clock. destruct (net_now _) as [now n].
  intros [= <-] o'. unfold under, io_try. cbn [snd fst].
  destruct (m _) as [[a w'|b w']|] eqn:E; intros [= <-]; apply (Hm _ _ E).
Qed.

(** Without the lock, the operation is completed. *)
Lemma acquire_io_outcome {R} (w : S * Operation H) :
  holds (acquire_io (R:=R)) w (fun o =>
    match o with Next acquired w' => acquired = false -> completed w'.2 = true | Return _ _ => False end).
Proof.
  unfold acquire_io. apply (holds_iter (fun _ _ => True)); [|done]. clear w. intros x w _. unfold acquire_turn.
  apply holds_bind, holds_gets. destruct (completed w.2) eqn:Hc; [by apply holds_ret|].
  assert (forall w, holds (try_lock (R:=R)) w (fun o => match o with Next _ _ => True | Return _ _ => False end)) as Hlock
    by (intros w' o; unfold try_lock; destruct (net_try_lock _); by intros [= <-]).
  apply holds_bind, holds_gets. destruct (deadline_ w.2) as [dl|].
  - apply holds_bind. intros o. unfold net_clock. destruct (net_now _) as [now n]. intros [= <-].
    destruct (dl <=? now).
    + apply holds_bind. intros o. unfold net_request_timeout. pose proof (request_timeout_completed w.2) as Ht.
      cbn [fst snd]. destruct (request_timeout w.2) as [[won hs] op']. intros [= <-]. by apply holds_ret.
    + apply holds_bind. eapply holds_mono; [apply Hlock|]. intros [[] w'|r w'] Ho; [by apply holds_ret..|done].
  - apply holds_bind. eapply holds_mono; [apply Hlock|]. intros [[] w'|r w'] Ho; [by apply holds_ret..|done].
Qed.

(** Completing with a failure: the operation has failed, with that or before. *)
Lemma holds_complete_fails {R} status w (Q : outcome (S * Operation H) R bool -> Prop) :
  status < VI_SUCCESS -> fails_only w.2 ->
  (forall won op', op_result op' < VI_SUCCESS -> Q (Next won (w.1, op'))) ->
  holds (complete (B:=S) (H:=H) status) w Q.
Proof.
  intros Hst Hf HQ o. unfold complete. destruct (try_complete status w.2) as [won op'] eqn:Htry. intros [= <-].
  apply HQ. destruct (completed w.2) eqn:Hc.
  - rewrite try_complete_done in Htry by done. injection Htry as <- <-. by apply Hf.
  - rewrite try_complete_fresh in Htry by done. injection Htry as <- <-. exact Hst.
Qed.

(** Completing is won, or the operation has failed before. *)
Lemma holds_complete_either {R} status w (Q : outcome (S * Operation H) R bool -> Prop) :
  fails_only w.2 -> (forall op', op_result op' = status -> Q (Next true (w.1, op'))) ->
  (op_result w.2 < VI_SUCCESS -> Q (Next false w)) -> holds (complete (B:=S) (H:=H) status) w Q.
Proof.
  intros Hf Hwon Hlost o. unfold complete. destruct w as [s op]. cbn [fst snd] in *.
  destruct (completed op) eqn:Hc.
  - rewrite try_complete_done by done. intros [= <-]. by apply Hlost, Hf.
  - rewrite try_complete_fresh by done. intros [= <-]. by apply Hwon.
Qed.

(** Calls give a status and a response. *)
Lemma next_plain_call {R} ch framing request : always_next (plain_call (R:=R) ch framing request).
Proof.
  intros w. apply holds_bind. eapply holds_mono; [apply next_transfer|].
  intros [r w'|r w'] Ho; [by apply holds_ret|done].
Qed.

Lemma next_observed_call {R} ch observing (observer : IO R unit) framing request :
  always_next observer -> always_next (observed_call ch observing observer framing request).
Proof.
  intros Hob w. apply holds_bind. eapply holds_mono; [apply next_transfer|].
  intros [r w1|r w1] Ho; [|done]. apply holds_bind, holds_gets, holds_bind.
  destruct (_ && _); [|by apply holds_ret, holds_ret].
  eapply holds_mono; [apply Hob|]. intros [[] w2|r2 w2] Ho2; [by apply holds_ret|done].
Qed.

Lemma next_remaining_timeout {R} : always_next (remaining_timeout (R:=R)).
Proof.
  intros w. unfold remaining_timeout. apply holds_bind, holds_gets. destruct (deadline_ w.2); [|by apply holds_ret].
  apply holds_bind. eapply holds_mono; [apply next_clock|]. intros [now w1|r w1] Ho; [by apply holds_ret|done].
Qed.

(** A response is made of bytes. *)
Definition answers_bytes {R} (m : IO R (Z * list Z)) : Prop :=
  forall w, holds m w (fun o =>
    match o with Next (_, response) _ => are_bytes response /\ Z.of_nat (length response) < 2 ^ 64 | _ => True end).

Lemma plain_call_bytes `{!NetworkLaws N H} {R} ch framing request :
  answers_bytes (plain_call (R:=R) ch framing request).
Proof.
  intros w. apply holds_bind. intros o. unfold transfer.
  destruct (net_exchange _ _ _ _ _) as [[[[st [resp seen]] op'] n']|] eqn:E; [|done]. intros [= <-].
  apply holds_ret. by eapply net_exchange_response.
Qed.

Lemma observed_call_bytes `{!NetworkLaws N H} {R} ch observing (observer : IO R unit) framing request :
  answers_bytes (observed_call ch observing observer framing request).
Proof.
  intros w. apply holds_bind. intros o. unfold transfer.
  destruct (net_exchange _ _ _ _ _) as [[[[st [resp seen]] op'] n']|] eqn:E; [|done]. intros [= <-].
  apply net_exchange_response in E. apply holds_bind, holds_gets, holds_bind.
  destruct (_ && _); [|by apply holds_ret, holds_ret]. intros o _. destruct o; [by apply holds_ret|done].
Qed.

(** *** Calls seen through a view

    [Quiet] relates sessions that differ in what the observer may change. *)

Section views.
  Context `{!NetworkLaws N H} (main : nat) (wire : N -> list (list Z * list Z)) `{!NetworkView N H main wire}.
  Context (Quiet : relation S) `{!PreOrder Quiet} (Quiet_network : forall n s, Quiet s (own_with_transport n s)).

Definition calm (s s' : S) : Prop := Quiet s s' /\ wire (own_transport s') = wire (own_transport s).

#[export] Instance calm_preorder : PreOrder calm.
Proof.
  split; [by intros s; split|]. intros s1 s2 s3 [Q1 W1] [Q2 W2]. split; [by etrans|congruence].
Qed.

Lemma calm_network n s : wire n = wire (own_transport s) -> calm s (own_with_transport n s).
Proof. intros Hw. split; [apply Quiet_network|by rewrite own_transport_with]. Qed.

Lemma calm_waits : WaitingSteps (on_state calm).
Proof.
  pose proof (same_view_steps main wire) as Hs.
  assert (forall R A (m : IO R A), steady (on_state (same_view wire)) m -> steady (on_state calm) m) as Hsub.
  { intros R A m Hm w o E. destruct (Hm _ _ E) as [Heq Hw]. split; [|exact Hw]. rewrite Heq. apply Quiet_network. }
  split; first [apply _|intros].
  - apply Hsub, ns_clock.
  - apply Hsub, ns_timeout.
  - apply Hsub, ns_try_lock.
  - by apply state_under.
Qed.

(** A call on another channel. *)
Lemma calm_plain_call {R} ch framing request :
  ch ≠ main -> steady (on_state calm) (plain_call (R:=R) ch framing request).
Proof.
  intros Hch. unfold plain_call. apply steady_bind; [apply _| |intros; apply steady_ret, _].
  intros w o. unfold transfer. destruct (net_exchange _ _ _ _ _) as [[[[st [resp seen]] op'] n']|] eqn:E; [|done].
  intros [= <-]. apply calm_network. rewrite (nw_exchange _ _ _ _ _ _ _ _ _ _ E).
  by rewrite (proj2 (Nat.eqb_neq _ _)), app_nil_r.
Qed.

(** An exchange on the main channel. *)
Definition exchanged (request : list Z) (status : Z) (response : list Z) (w w' : S * Operation H) : Prop :=
  fails_on w w' /\ Quiet w.1 w'.1 /\ are_bytes response /\ Z.of_nat (length response) < 2 ^ 64 /\
  wire (own_transport w'.1) =
    wire (own_transport w.1) ++ (if VI_SUCCESS <=? status then [(request, response)] else []).

Lemma observed_call_spec {R} observing (observer : IO R unit) framing request w :
  always_next observer -> steady (on_state calm) observer -> steady fails_on observer ->
  holds (observed_call main observing observer framing request) w (fun o =>
    match o with Next (status, response) w' => exchanged request status response w w' | Return _ _ => False end).
Proof.
  intros Hnext Hcalm Hfails. unfold observed_call. apply holds_bind. intros o. unfold transfer.
  destruct (net_exchange _ _ _ _ _) as [[[[st [resp seen]] op'] n']|] eqn:E; [|done]. intros [= <-].
  assert (exchanged request st resp w (own_with_transport n' w.1, op')) as Hx.
  { split; [intros Hf; by eapply net_exchange_fails_only|]. split; [apply Quiet_network|].
    destruct (net_exchange_response _ _ _ _ _ _ _ _ _ _ E). split; [done|]. split; [done|].
    cbn [fst]. rewrite own_transport_with, (nw_exchange _ _ _ _ _ _ _ _ _ _ E). by rewrite Nat.eqb_refl. }
  apply holds_bind, holds_gets, holds_bind. cbn [fst snd]. destruct (_ && _); [|by apply holds_ret, holds_ret].
  eapply holds_mono; [apply holds_and; [apply Hnext|apply holds_and;
    [apply holds_steady, Hcalm|apply holds_steady, Hfails]]|].
  intros [[] w2|r w2] (Ho & [Hq Hw] & Hf); [|done]. apply holds_ret.
  destruct Hx as (Hf1 & Hq1 & Hb & Hl & Hw1). cbn [final fst] in *.
  split; [intros Hf0; by apply Hf, Hf1|]. split; [by etrans|]. split; [done|]. split; [done|]. by rewrite Hw.
Qed.

(** Waiting for the lock. *)
Lemma with_io_spec {A} (body : IO reply A) op s0 (Q : outcome (S * Operation H) reply A -> Prop) :
  fails_only op ->
  (forall w, fails_only w.2 -> on_state calm (s0, op) w -> holds body w Q) ->
  (forall w, fails_only w.2 -> on_state calm (s0, op) w -> completed w.2 = true ->
     Q (Return (status_only (op_result w.2)) w)) ->
  holds (with_io body) (s0, op) Q.
Proof.
  intros Hf Hbody Hno. unfold with_io. apply holds_bind. pose proof calm_waits.
  eapply holds_mono; [apply holds_and; [apply acquire_io_outcome|apply holds_and;
    [apply holds_steady, (steps_acquire_io (on_state calm))
    |apply holds_steady, (steps_acquire_io fails_on)]]|].
  intros [acquired w1|r w1] (Ho & Hc & Hf1); [|done]. specialize (Hf1 Hf). cbn in Hc, Hf1.
  destruct acquired; [by apply Hbody|]. apply holds_return_result. by apply Hno; [| |apply Ho].
Qed.

End views.

Lemma with_io_holds {A} `{!NetworkLaws N H} (body : IO reply A) op s (Q : outcome (S * Operation H) reply A -> Prop) :
  fails_only op -> (forall w, holds body w Q) ->
  (forall w, op_result w.2 < VI_SUCCESS -> Q (Return (status_only (op_result w.2)) w)) ->
  holds (with_io body) (s, op) Q.
Proof.
  intros Hf Hbody Hno. unfold with_io. apply holds_bind.
  eapply holds_mono; [apply holds_and; [apply acquire_io_outcome|apply holds_steady, (steps_acquire_io fails_on)]|].
  intros [acquired w1|r w1] (Ho & Hf1); [|done]. specialize (Hf1 Hf). cbn in Hf1.
  destruct acquired; [by apply Hbody|]. apply holds_return_result, Hno. by apply Hf1, Ho.
Qed.

(** *** Calls that return *)

Section timely.
  Context `{!NetworkLaws N H} (remaining : N -> Z -> nat) `{!NetworkTimed N H remaining}.
Abbreviation left_of w := (remaining (own_transport (S:=S) (fst w))).
Abbreviation onward := (onward (S:=S) (H:=H) remaining).
Abbreviation total := (total (S:=S) (H:=H) remaining turns).

(** A call of a channel that returns when there is a deadline, with bytes, and
    uses up an exchange when it succeeds. *)
Record timely {R} (m : IO R (Z * list Z)) : Prop := {
  timely_steady : steady onward m;
  timely_total : total true m;
  timely_bytes : answers_bytes m;
  timely_spends w status response w' d : deadline_ w.2 = Some d ->
    m w = Some (Next (status, response) w') -> VI_SUCCESS <= status -> (left_of w' d < left_of w d)%nat }.

Lemma timely_observed_call {R} ch observing (observer : IO R unit) framing request :
  steady onward observer -> total true observer -> timely (observed_call ch observing observer framing request).
Proof.
  intros Hs Ht. split.
  - apply (steps_observed_call onward), Hs.
  - unfold observed_call. apply total_bind; [apply ns_exchange|apply (total_exchange remaining)|intros r].
    apply total_bind; [apply steady_get, _|by intros w _; eexists|intros observed].
    apply total_bind; [| |by intros ? w _; eexists].
    + destruct (_ && _); [done|apply steady_ret, _].
    + destruct (_ && _); [done|by intros w _; eexists].
  - apply observed_call_bytes.
  - intros w status response w' d Hd. unfold observed_call, io_bind, transfer, get, io_gets.
    destruct (net_exchange _ _ _ _ _) as [[[[st [resp seen]] op'] n']|] eqn:E; [|done].
    pose proof (net_exchange_passes _ _ _ _ _ _ _ _ _ d E) as [_ Hlt]. cbn [fst snd] in *.
    assert (forall w1, onward (own_with_transport n' w.1, op') w1 -> VI_SUCCESS <= st -> (left_of w1 d < left_of w d)%nat) as Hon.
    { intros w1 [_ Hle] Hst. specialize (Hle d). cbn in Hle. rewrite own_transport_with in Hle. specialize (Hlt Hd Hst). lia. }
    destruct (seen && _).
    + destruct (observer _) as [[[] w1|x w1]|] eqn:Eo; [|done|done]. intros [= <- <- <-]. apply Hon, (Hs _ _ Eo).
    + intros [= <- <- <-]. by apply Hon.
Qed.

Lemma timely_plain_call {R} ch framing request : timely (plain_call (R:=R) ch framing request).
Proof.
  split.
  - apply (steps_plain_call onward).
  - unfold plain_call. apply total_bind; [apply ns_exchange|apply (total_exchange remaining)|by intros ? w _; eexists].
  - apply plain_call_bytes.
  - intros w status response w' d Hd. unfold plain_call, io_bind, transfer.
    destruct (net_exchange _ _ _ _ _) as [[[[st [resp seen]] op'] n']|] eqn:E; [|done]. intros [= <- <- <-] Hst.
    cbn. rewrite own_transport_with. by apply (net_exchange_passes _ _ _ _ _ _ _ _ _ d E).
Qed.

Lemma total_with_io {A} (body : IO reply A) : total true body -> total true (with_io body).
Proof.
  intros Hb. unfold with_io. apply total_bind; [apply (steps_acquire_io onward)|apply (total_acquire_io remaining)|].
  intros []; [done|]. intros w _. by eexists.
Qed.

End timely.

(** ** Attributes *)

Definition tcpip_set_attribute {B} (attribute value : Z) (b : B) : Z * B :=
  (if (attribute =? VI_ATTR_TCPIP_ADDR) || (attribute =? VI_ATTR_TCPIP_HOSTNAME)
      || (attribute =? VI_ATTR_TCPIP_PORT)
   then VI_ERROR_ATTR_READONLY else VI_ERROR_NSUP_ATTR, b).

Definition tcpip_get_attribute (address host : str) (port attribute : Z) : Z * option attr_value :=
  if attribute =? VI_ATTR_TCPIP_ADDR then (VI_SUCCESS, Some (attr_string (copy_string address)))
  else if attribute =? VI_ATTR_TCPIP_HOSTNAME then (VI_SUCCESS, Some (attr_string (copy_string host)))
  else if attribute =? VI_ATTR_TCPIP_PORT then (VI_SUCCESS, Some (attr_number port))
  else (VI_ERROR_NSUP_ATTR, None).

End calls.

(** ** A network that plays a script

    For the witnesses: it answers the exchanges of all its channels from one
    list, each answer with its status and whether the observer is called, and
    its clock advances by one with every call. *)

Record net_script := mkNetScript {
  sn_answers : list (Z * list Z * bool);
  sn_sent : list (nat * list Z * list Z);
  sn_clock : Z }.

Definition script_passes (n : net_script) : net_script :=
  mkNetScript (sn_answers n) (sn_sent n) (sn_clock n + 1).

Definition script_late {H} (op : Operation H) (n : net_script) : bool :=
  match deadline_ op with Some deadline => deadline <=? sn_clock n | None => false end.

Definition script_exchange {H} (ch : nat) (d : list Z) (framing : ResponseFraming) (op : Operation H)
    (n : net_script) : transport_call net_script H (list Z * bool) :=
  match sn_answers n with
  | (status, response, seen) :: rest =>
      if script_late op n then Some (VI_ERROR_TMO, ([], false), (request_timeout op).2, script_passes n)
      else
        let response := if Z.of_nat (length response) <? 2 ^ 64 then u8 <$> response else [] in
        if status <? VI_SUCCESS then
          Some (status, ([], seen), (try_complete status op).2, mkNetScript rest (sn_sent n) (sn_clock n + 1))
        else
          Some (status, (response, seen), op,
                mkNetScript rest (sn_sent n ++ [(ch, d, response)]) (sn_clock n + 1))
  | [] => Some (VI_ERROR_TMO, ([], false), (request_timeout op).2, script_passes n)
  end.

#[export] Instance script_network {H} : Network net_script H := {|
  net_create ch maximum notify n := n;
  net_connect ch host port timeout n := Some (VI_SUCCESS, host, script_passes n);
  net_exchange := script_exchange;
  net_close ch n := n;
  net_now n := (sn_clock n, script_passes n);
  net_try_lock n := (true, script_passes n);
  net_run_handlers handlers n := n |}.

Definition sn_remaining (n : net_script) (deadline : Z) : nat := Z.to_nat (deadline - sn_clock n).

(** The exchanges of one channel. *)
Definition sn_wire (main : nat) (n : net_script) : list (list Z * list Z) :=
  omap (fun '(ch, d, r) => if Nat.eqb ch main then Some (d, r) else None) (sn_sent n).

Lemma script_exchange_spec {H} ch d framing (op : Operation H) n status response seen op' n' :
  script_exchange ch d framing op n = Some (status, (response, seen), op', n') ->
  later op op' /\ (fails_only op -> fails_only op') /\ are_bytes response /\
  Z.of_nat (length response) < 2 ^ 64 /\ sn_clock n' = sn_clock n + 1 /\
  (VI_SUCCESS <= status -> script_late op n = false) /\
  sn_sent n' = sn_sent n ++ (if VI_SUCCESS <=? status then [(ch, d, response)] else []).
Proof.
  assert (fails_only op -> fails_only (request_timeout op).2) as Htmo by apply fails_only_request_timeout.
  assert (forall st, st < VI_SUCCESS -> fails_only op -> fails_only (try_complete st op).2) as Hfail.
  { intros st Hst Hf. destruct (completed op) eqn:Hc; [by rewrite try_complete_done|].
    rewrite try_complete_fresh by done. by intros _. }
  unfold script_exchange. destruct (sn_answers n) as [|[[st r] se] rest].
  - intros [= <- <- <- <- <-]. rewrite app_nil_r. by repeat split; try apply later_request_timeout; try apply Forall_nil_2.
  - destruct (script_late op n) eqn:Hlate.
    { intros [= <- <- <- <- <-]. rewrite app_nil_r.
      by repeat split; try apply later_request_timeout; try apply Forall_nil_2. }
    destruct (Z.ltb_spec st VI_SUCCESS) as [Hst|Hst].
    + intros [= <- <- <- <- <-]. cbn [sn_sent sn_clock]. rewrite (proj2 (Z.leb_gt _ _)), app_nil_r by done.
      split; [apply later_try_complete|]. split; [by apply Hfail|]. by split; [apply Forall_nil_2|].
    + intros [= <- <- <- <- <-]. cbn [sn_sent sn_clock]. rewrite (proj2 (Z.leb_le _ _)) by done.
      split; [done|]. split; [done|]. destruct (Z.ltb_spec (Z.of_nat (length r)) (2 ^ 64)).
      * split; [apply Forall_fmap, Forall_true; intros b; apply byte_u8|]. by rewrite length_fmap.
      * by split; [apply Forall_nil_2|].
Qed.

#[export] Instance script_network_laws {H} : NetworkLaws net_script H.
Proof.
  split.
  - intros ch d f op n [st [r se]] op' n' E. by apply (script_exchange_spec ch d f op n) in E as [? _].
  - intros ch d f op n [st [r se]] op' n' E. by apply (script_exchange_spec ch d f op n) in E as (_ & ? & _).
  - intros ch d f op n st r se op' n' E. by apply (script_exchange_spec ch d f op n) in E as (_ & _ & ? & ? & _).
Qed.

#[export] Instance script_network_timed {H} : NetworkTimed net_script H sn_remaining.
Proof.
  split; unfold sn_remaining; cbn; try (intros; lia).
  - intros ch d f op n _. unfold script_exchange. destruct (sn_answers n) as [|[[st r] se] rest]; [by eexists|].
    repeat case_match; by eexists.
  - intros ch d f op n st [r se] op' n' dl E.
    apply (script_exchange_spec ch d f op n) in E as (_ & _ & _ & _ & Hc & Hlate & _). rewrite Hc. split; [lia|].
    intros Hd Hst. specialize (Hlate Hst). unfold script_late in Hlate. rewrite Hd in Hlate. lia.
  - by eexists.
  - intros ch host port timeout n st address n' dl [= <- <- <-]. cbn. lia.
Qed.

#[export] Instance script_network_view {H} main : NetworkView net_script H main (sn_wire main).
Proof.
  split; [|done..]. intros ch d f op n st r se op' n' E.
  apply (script_exchange_spec ch d f op n) in E as (_ & _ & _ & _ & _ & _ & Hs). unfold sn_wire. rewrite Hs, omap_app. f_equal.
  destruct (VI_SUCCESS <=? st); cbn; by destruct (ch =? main)%nat.
Qed.
