(* ===== verification/HislipSession.v ===== *)
(** * HiSLIP sessions: [backends/hislip/hislip_session.{h,cpp}]

    A synchronous channel for messages and an asynchronous one for status, locks
    and clears.  When an exchange on the synchronous channel is cancelled, the
    channel's observer asks the device for a clear while the exchange drains;
    the call that was cancelled then completes the clear.  The loops that wait
    for a certain frame are given a number of [turns]. *)

From S2P Require Import Prelude Visa CText Operation Bytes HislipProtocol RequestChannel BackendSession Stream Io Timed Network.

(** ** Constants *)

Definition kMaximumPayload : Z := 16 * 1024 * 1024.
Definition kClientProtocolVersion : Z := 0x0100.
Definition kClientVendorId : Z := 0x5752.

(** The channels. *)
Definition synchronous : nat := 0.
Definition asynchronous : nat := 1.

(** [append_u64] and [read_u64]. *)
Definition append_u64 (value : Z) (output : list Z) : list Z :=
  foldl (fun output shift => output ++ [u8 (Z.shiftr value shift)]) output [56; 48; 40; 32; 24; 16; 8; 0].

Definition read_u64 (input : list Z) : option Z :=
  foldl (fun value index => v ← value; b ← input !! index; Some (Z.lor (u64 (Z.shiftl v 8)) b))
    (Some 0) (seq 0 8).

(** ** The session *)

Record HiSlipBackendSession (N : Type) := mkHiSlip {
  hs_network : N;
  hs_host : str;
  hs_address : str;
  hs_sub_address : str;
  hs_port : Z;
  hs_session_id : Z;
  hs_negotiated_version : Z;
  hs_next_message_id : Z;
  hs_last_sent_message_id : Z;
  hs_maximum_outgoing_payload : Z;
  hs_read_ahead : list Z;
  hs_read_ahead_end : bool;
  hs_cached_status : Z;
  hs_remote_locked : bool;
  hs_clear_requested : bool;
  hs_clear_acknowledged : bool;
  hs_clear_request_finished : bool;
  hs_observing : bool;
  hs_closed : bool }.
Arguments mkHiSlip {_} _ _ _ _ _ _ _ _ _ _ _ _ _ _ _ _ _ _ _.
Arguments hs_network {_} _.
Arguments hs_host {_} _.
Arguments hs_address {_} _.
Arguments hs_sub_address {_} _.
Arguments hs_port {_} _.
Arguments hs_session_id {_} _.
Arguments hs_negotiated_version {_} _.
Arguments hs_next_message_id {_} _.
Arguments hs_last_sent_message_id {_} _.
Arguments hs_maximum_outgoing_payload {_} _.
Arguments hs_read_ahead {_} _.
Arguments hs_read_ahead_end {_} _.
Arguments hs_cached_status {_} _.
Arguments hs_remote_locked {_} _.
Arguments hs_clear_requested {_} _.
Arguments hs_clear_acknowledged {_} _.
Arguments hs_clear_request_finished {_} _.
Arguments hs_observing {_} _.
Arguments hs_closed {_} _.

Section setters.
  Context {N : Type}.
Abbreviation Session := (HiSlipBackendSession N).

Definition hs_with_network (n : N) (s : Session) : Session :=
  mkHiSlip n (hs_host s) (hs_address s) (hs_sub_address s) (hs_port s) (hs_session_id s)
    (hs_negotiated_version s) (hs_next_message_id s) (hs_last_sent_message_id s)
    (hs_maximum_outgoing_payload s) (hs_read_ahead s) (hs_read_ahead_end s) (hs_cached_status s)
    (hs_remote_locked s) (hs_clear_requested s) (hs_clear_acknowledged s) (hs_clear_request_finished s)
    (hs_observing s) (hs_closed s).

(** What [open] learns: address, session, version, and the peer's limit. *)
Definition hs_with_peer (address : str) (id version maximum : Z) (s : Session) : Session :=
  mkHiSlip (hs_network s) (hs_host s) address (hs_sub_address s) (hs_port s) id version
    (hs_next_message_id s) (hs_last_sent_message_id s) maximum (hs_read_ahead s) (hs_read_ahead_end s)
    (hs_cached_status s) (hs_remote_locked s) (hs_clear_requested s) (hs_clear_acknowledged s)
    (hs_clear_request_finished s) (hs_observing s) (hs_closed s).

Definition hs_with_ids (next last : Z) (s : Session) : Session :=
  mkHiSlip (hs_network s) (hs_host s) (hs_address s) (hs_sub_address s) (hs_port s) (hs_session_id s)
    (hs_negotiated_version s) next last (hs_maximum_outgoing_payload s) (hs_read_ahead s)
    (hs_read_ahead_end s) (hs_cached_status s) (hs_remote_locked s) (hs_clear_requested s)
    (hs_clear_acknowledged s) (hs_clear_request_finished s) (hs_observing s) (hs_closed s).

Definition hs_with_ahead (data : list Z) (ends : bool) (s : Session) : Session :=
  mkHiSlip (hs_network s) (hs_host s) (hs_address s) (hs_sub_address s) (hs_port s) (hs_session_id s)
    (hs_negotiated_version s) (hs_next_message_id s) (hs_last_sent_message_id s)
    (hs_maximum_outgoing_payload s) data ends (hs_cached_status s) (hs_remote_locked s)
    (hs_clear_requested s) (hs_clear_acknowledged s) (hs_clear_request_finished s) (hs_observing s)
    (hs_closed s).

Definition hs_with_status (status : Z) (s : Session) : Session :=
  mkHiSlip (hs_network s) (hs_host s) (hs_address s) (hs_sub_address s) (hs_port s) (hs_session_id s)
    (hs_negotiated_version s) (hs_next_message_id s) (hs_last_sent_message_id s)
    (hs_maximum_outgoing_payload s) (hs_read_ahead s) (hs_read_ahead_end s) status (hs_remote_locked s)
    (hs_clear_requested s) (hs_clear_acknowledged s) (hs_clear_request_finished s) (hs_observing s)
    (hs_closed s).

Definition hs_with_remote_locked (locked : bool) (s : Session) : Session :=
  mkHiSlip (hs_network s) (hs_host s) (hs_address s) (hs_sub_address s) (hs_port s) (hs_session_id s)
    (hs_negotiated_version s) (hs_next_message_id s) (hs_last_sent_message_id s)
    (hs_maximum_outgoing_payload s) (hs_read_ahead s) (hs_read_ahead_end s) (hs_cached_status s) locked
    (hs_clear_requested s) (hs_clear_acknowledged s) (hs_clear_request_finished s) (hs_observing s)
    (hs_closed s).

Definition hs_with_clear (requested acknowledged finished : bool) (s : Session) : Session :=
  mkHiSlip (hs_network s) (hs_host s) (hs_address s) (hs_sub_address s) (hs_port s) (hs_session_id s)
    (hs_negotiated_version s) (hs_next_message_id s) (hs_last_sent_message_id s)
    (hs_maximum_outgoing_payload s) (hs_read_ahead s) (hs_read_ahead_end s) (hs_cached_status s)
    (hs_remote_locked s) requested acknowledged finished (hs_observing s) (hs_closed s).

(** [closed_] and whether the cancel observer is set. *)
Definition hs_with_flags (observing closed : bool) (s : Session) : Session :=
  mkHiSlip (hs_network s) (hs_host s) (hs_address s) (hs_sub_address s) (hs_port s) (hs_session_id s)
    (hs_negotiated_version s) (hs_next_message_id s) (hs_last_sent_message_id s)
    (hs_maximum_outgoing_payload s) (hs_read_ahead s) (hs_read_ahead_end s) (hs_cached_status s)
    (hs_remote_locked s) (hs_clear_requested s) (hs_clear_acknowledged s) (hs_clear_request_finished s)
    observing closed.

End setters.

#[export] Instance hs_owns {N} : OwnsTransport (HiSlipBackendSession N) N := {|
  own_transport := hs_network;
  own_with_transport := hs_with_network;
  own_transport_with n s := eq_refl;
  own_with_own s := ltac:(by destruct s);
  own_with_with n n' s := eq_refl |}.

Section hislip.
  Context {N H : Type} `{Network N H}.
  (** How often each loop that waits for a frame or for the lock may turn. *)
  Context (turns : nat).

Abbreviation Session := (HiSlipBackendSession N).
Abbreviation IO R A := (io (Session * Operation H) R A).
Abbreviation with_io := (with_io turns).

(** The constructor, and the channels it makes. *)
Definition hs_make (host sub_address : str) (port : Z) (n : N) : Session :=
  mkHiSlip (net_create asynchronous kMaximumPayload false (net_create synchronous kMaximumPayload true n))
    host [] sub_address port 0 0 0xFFFFFF00 0xFFFFFEFE (16 * 1024 * 1024) [] false 0 false false false
    false false false.

(** [close] *)
Definition hs_close_session (s : Session) : Session :=
  if hs_closed s then s
  else
    let s := hs_with_flags (hs_observing s) true s in
    let s := hs_with_network (net_close asynchronous (hs_network s)) s in
    hs_with_network (net_close synchronous (hs_network s)) s.

(** ** Exchanges

    The call of [RequestChannel::exchange] is a parameter of [exchange] and
    [exchange_expected]: on the synchronous channel it may run the observer. *)

Definition raw_exchange : Type := list Z -> IO Z (Z * list Z).

Definition hs_exchange (raw : raw_exchange) (request : list Z) : IO Z Frame :=
  r <- raw request ;;
  let '(status, bytes) := r in
  if status <? VI_SUCCESS then io_return status
  else
    decoded_frame <- decoded (decode bytes) ;;
    match decoded_frame with
    | None => modify hs_close_session ;; io_return VI_ERROR_IO
    | Some response =>
        if bool_decide (f_type response = fatal_error)
        then modify hs_close_session ;; io_return VI_ERROR_CONN_LOST
        else if bool_decide (f_type response = error) then io_return VI_ERROR_IO
        else io_ret response
    end.

(** One turn of the loop; the request is sent in the first one only. *)
Definition expected_turn (raw : raw_exchange) (expected : MessageType) (request : list Z)
  : IO Z (list Z + Frame) :=
  response <- hs_exchange raw request ;;
  if bool_decide (f_type response = expected) then io_ret (inr response)
  else if bool_decide (f_type response = async_service_request) then
    modify (hs_with_status (f_control response)) ;; io_ret (inl [])
  else if bool_decide (f_type response ∈ [data; data_end; interrupted; async_interrupted])
  then io_ret (inl [])
  else io_return VI_ERROR_IO.

Definition exchange_expected (raw : raw_exchange) (request : list Z) (expected : MessageType) : IO Z Frame :=
  io_iter turns (expected_turn raw expected) request.

Definition async_exchange : raw_exchange := plain_call asynchronous hislip_frame.

(** The clear that the observer asks for, under an operation of its own. *)
Definition request_async_clear {R} : IO R unit :=
  closed <- get hs_closed ;;
  requested <- get hs_clear_requested ;;
  if closed || requested then io_ret tt
  else
    modify (hs_with_clear true false false) ;;
    r <- under_timeout 500
           (io_try (exchange_expected async_exchange (encode async_device_clear 0 0 [])
                      async_device_clear_acknowledge)) ;;
    modify (hs_with_clear true (if r is inr _ then true else false) true).

Definition sync_call {R} (framing : ResponseFraming) (request : list Z) : IO R (Z * list Z) :=
  observed_call synchronous hs_observing request_async_clear framing request.

Definition sync_exchange : raw_exchange := sync_call hislip_frame.

(** ** Recovery *)

Definition reset_after_clear (s : Session) : Session :=
  hs_with_ahead [] false (hs_with_clear false false false (hs_with_ids 0xFFFFFF00 0xFFFFFEFE s)).

(** The observer has finished, if it was called at all, when the exchange that
    was cancelled returns: waiting for it longer changes nothing. *)
Definition complete_cancel_recovery {R} : IO R Z :=
  finished <- get hs_clear_request_finished ;;
  acknowledged <- get hs_clear_acknowledged ;;
  if negb finished || negb acknowledged then io_ret VI_ERROR_CONN_LOST
  else
    r <- under_timeout 500
           (io_try (exchange_expected sync_exchange (encode device_clear_complete 0 0 [])
                      device_clear_acknowledge)) ;;
    match r with
    | inl status => io_ret status
    | inr _ => modify reset_after_clear ;; io_ret VI_SUCCESS
    end.

(** What a call returns whose exchange has failed with [status]. *)
Definition after_failure {R} (status : Z) : IO R Z :=
  if cancelled status then
    recovery <- complete_cancel_recovery ;;
    io_ret (if recovery <? VI_SUCCESS then VI_ERROR_CONN_LOST else status)
  else io_ret status.

Definition next_message_id {R} : IO R Z :=
  id <- get hs_next_message_id ;;
  modify (hs_with_ids (u32 (id + 2)) id) ;;
  io_ret id.

(** ** Writing *)

(** The frame of a message's next part. *)
Definition write_frame (send_end : bool) (id : Z) (part rest : list Z) : list Z :=
  encode (if bool_decide (rest = []) && send_end then data_end else data) 0 id part.

(** One turn of the loop over what is left of the buffer. *)
Definition write_turn (options : WriteOptions) (left : list Z) : IO reply (list Z + unit) :=
  match left with
  | [] => io_ret (inr tt)
  | _ =>
      maximum <- get hs_maximum_outgoing_payload ;;
      let amount := Nat.min (length left) (Z.to_nat maximum) in
      id <- next_message_id ;;
      let frame := write_frame (wo_send_end options) id (take amount left) (drop amount left) in
      r <- sync_call framing_none frame ;;
      if r.1 <? VI_SUCCESS then status <- after_failure r.1 ;; io_return (status_only status)
      else io_ret (inl (drop amount left))
  end.

(** Every turn sends at least one byte. *)
Definition write_fuel (buffer : list Z) : nat := S (length buffer).

Definition hs_write_io (buffer : list Z) (options : WriteOptions) : IO reply reply :=
  with_io (
    modify (hs_with_ahead [] false) ;;
    io_iter (write_fuel buffer) (write_turn options) buffer ;;
    won <- complete VI_SUCCESS ;;
    if negb won then return_result status_only
    else io_ret (mkReply VI_SUCCESS (Z.of_nat (length buffer)) [])).

(** ** Reading *)

(** The local variables of [read]. *)
Record hs_locals := mkHsLocals { hl_data : list Z; hl_end : bool; hl_termchar : bool }.

(** The loop over the read-ahead: [data], the rest, and [termchar]. *)
Fixpoint hs_take_ahead (count : Z) (options : ReadOptions) (bytes ahead : list Z) : list Z * list Z * bool :=
  match ahead with
  | [] => (bytes, [], false)
  | byte :: rest =>
      if Z.of_nat (length bytes) <? count then
        if is_termchar options byte then (bytes ++ [byte], rest, true)
        else hs_take_ahead count options (bytes ++ [byte]) rest
      else (bytes, ahead, false)
  end.

Definition hs_read_ahead_io {R} (count : Z) (options : ReadOptions) : IO R hs_locals := fun w =>
  let s := w.1 in
  let '(bytes, ahead, termchar) := hs_take_ahead count options [] (hs_read_ahead s) in
  let ended := bool_decide (ahead = []) && hs_read_ahead_end s in
  Some (Next (mkHsLocals bytes ended termchar)
          (hs_with_ahead ahead (if ended then false else hs_read_ahead_end s) s, w.2)).

(** The loop over a payload: [data], what is kept behind the read-ahead, and
    [termchar]. *)
Fixpoint hs_consume (count : Z) (options : ReadOptions) (payload bytes kept : list Z) (termchar : bool)
  : list Z * list Z * bool :=
  match payload with
  | [] => (bytes, kept, termchar)
  | byte :: payload =>
      if (Z.of_nat (length bytes) <? count) && negb termchar then
        hs_consume count options payload (bytes ++ [byte]) kept (is_termchar options byte)
      else hs_consume count options payload bytes (kept ++ [byte]) termchar
  end.

(** Pushing the bytes back in front of the read-ahead. *)
Definition hs_restore (bytes : list Z) (s : Session) : Session :=
  hs_with_ahead (bytes ++ hs_read_ahead s) (hs_read_ahead_end s) s.

(** Keeping bytes behind the read-ahead, and the end of the message behind them. *)
Definition hs_store (kept : list Z) (is_end : bool) (s : Session) : Session :=
  hs_with_ahead (hs_read_ahead s ++ kept)
    (if is_end && bool_decide (hs_read_ahead s ++ kept ≠ []) then true else hs_read_ahead_end s) s.

(** One turn of the loop. *)
Definition hs_read_turn (count : Z) (options : ReadOptions) (l : hs_locals) : IO reply (hs_locals + hs_locals) :=
  if hl_end l || hl_termchar l || negb (Z.of_nat (length (hl_data l)) <? count) then io_ret (inr l)
  else
    r <- io_try (hs_exchange sync_exchange []) ;;
    match r with
    | inl status =>
        modify (hs_restore (hl_data l)) ;;
        status <- after_failure status ;; io_return (status_only status)
    | inr frame =>
        last <- get hs_last_sent_message_id ;;
        if negb (bool_decide (f_type frame ∈ [data; data_end])) then
          modify hs_close_session ;; io_return (status_only VI_ERROR_IO)
        else if negb (f_parameter frame =? 2 ^ 32 - 1) && negb (f_parameter frame =? last) then
          modify (hs_with_ahead [] false) ;; modify hs_close_session ;; io_return (status_only VI_ERROR_IO)
        else
          let '(bytes, kept, termchar) :=
            hs_consume count options (f_payload frame) (hl_data l) [] (hl_termchar l) in
          let is_end := bool_decide (f_type frame = data_end) in
          modify (hs_store kept is_end) ;;
          ahead <- get hs_read_ahead ;;
          io_ret (inl (mkHsLocals bytes (if is_end && bool_decide (ahead = []) then true else hl_end l) termchar))
    end.

Definition hs_read_status (count : Z) (l : hs_locals) : Z :=
  if hl_termchar l then VI_SUCCESS_TERM_CHAR
  else if Z.of_nat (length (hl_data l)) =? count then VI_SUCCESS_MAX_CNT else VI_SUCCESS.

Definition hs_read_io (count : Z) (options : ReadOptions) : IO reply reply :=
  with_io (
    l <- hs_read_ahead_io count options ;;
    l <- io_iter turns (hs_read_turn count options) l ;;
    let status := hs_read_status count l in
    won <- complete status ;;
    if negb won then modify (hs_restore (hl_data l)) ;; return_result status_only
    else io_ret (mkReply status (u32 (Z.of_nat (length (hl_data l)))) (hl_data l))).

(** ** The other operations *)

(** An exchange that fails ends the call with its status. *)
Definition expect {R} (f : Z -> R) (raw : raw_exchange) (request : list Z) (expected : MessageType) : IO R Frame :=
  r <- io_try (exchange_expected raw request expected) ;;
  match r with inl status => io_return (f status) | inr response => io_ret response end.

Definition hs_clear_io : IO reply reply :=
  with_io (
    expect status_only async_exchange (encode async_device_clear 0 0 []) async_device_clear_acknowledge ;;
    expect status_only sync_exchange (encode device_clear_complete 0 0 []) device_clear_acknowledge ;;
    modify reset_after_clear ;;
    io_ret (status_only VI_SUCCESS)).

(** [present] tells whether the [status_byte] pointer is not null. *)
Definition hs_read_stb_io (present : bool) : IO reply reply :=
  if negb present then io_return (status_only VI_ERROR_INV_PARAMETER)
  else
    with_io (
      status_message_id <- get hs_last_sent_message_id ;;
      response <- expect status_only async_exchange (encode async_status_query 0 status_message_id [])
                    async_status_response ;;
      modify (hs_with_status (f_control response)) ;;
      io_ret (mkReply VI_SUCCESS (f_control response) [])).

Definition hs_assert_trigger_io (protocol : Z) : IO reply reply :=
  if negb (protocol =? VI_TRIG_PROT_DEFAULT) then io_return (status_only VI_ERROR_INV_PROT)
  else
    with_io (
      id <- next_message_id ;;
      r <- sync_call framing_none (encode trigger 0 id []) ;;
      status <- after_failure r.1 ;;
      io_ret (status_only status)).

Definition hs_lock_io (lock_type : Z) (access_key : str) : IO reply reply :=
  with_io (
    let lock_string := if lock_type =? VI_SHARED_LOCK then uchar <$> access_key else [] in
    timeout <- remaining_timeout ;;
    response <- expect status_only async_exchange (encode async_lock 1 timeout lock_string)
                  async_lock_response ;;
    if f_control response =? 0 then io_return (status_only VI_ERROR_TMO)
    else if negb (f_control response =? 1) then io_return (status_only VI_ERROR_RSRC_LOCKED)
    else modify (hs_with_remote_locked true) ;; io_ret (status_only VI_SUCCESS)).

Definition hs_unlock_io : IO reply reply :=
  locked <- get hs_remote_locked ;;
  if negb locked then io_return (status_only VI_SUCCESS)
  else
    with_io (
      status_message_id <- get hs_last_sent_message_id ;;
      response <- expect status_only async_exchange (encode async_lock 0 status_message_id [])
                    async_lock_response ;;
      if negb (f_control response =? 1) && negb (f_control response =? 2)
      then io_return (status_only VI_ERROR_SESN_NLOCKED)
      else modify (hs_with_remote_locked false) ;; io_ret (status_only VI_SUCCESS)).

Definition hs_flush (mask : Z) (s : Session) : Z * Z * Session :=
  if negb (valid_flush_mask mask) then (VI_ERROR_INV_MASK, 0, s)
  else (VI_SUCCESS, 0,
        if negb (Z.land mask (VI_READ_BUF_DISCARD + VI_IO_IN_BUF_DISCARD) =? 0)
        then hs_with_ahead [] false s else s).

(** ** Opening *)

(** [status = connect(...); if (status < VI_SUCCESS) return status;] *)
Definition connected (ch : nat) : IO Z str :=
  host <- get hs_host ;;
  port <- get hs_port ;;
  timeout <- remaining_timeout ;;
  r <- connect ch host port timeout ;;
  if r.1 <? VI_SUCCESS then io_return r.1 else io_ret r.2.

Definition initialize_message (s : Session) : list Z :=
  encode initialize 0 (Z.lor (Z.shiftl kClientProtocolVersion 16) kClientVendorId) (uchar <$> hs_sub_address s).

Definition version_refused (version : Z) (response : Frame) : bool :=
  (version =? 0) || (kClientProtocolVersion <? version) || negb (Z.land (f_control response) 0x07 =? 0).

Definition hs_open_io : IO Z Z :=
  address <- connected synchronous ;;
  modify (fun s => hs_with_peer address (hs_session_id s) (hs_negotiated_version s) (hs_maximum_outgoing_payload s) s) ;;
  request <- get initialize_message ;;
  response <- expect id sync_exchange request initialize_response ;;
  let version := u16 (Z.shiftr (f_parameter response) 16) in
  let session_id := u16 (f_parameter response) in
  modify (fun s => hs_with_peer (hs_address s) session_id version (hs_maximum_outgoing_payload s) s) ;;
  if version_refused version response then io_return VI_ERROR_NSUP_OPER
  else
    connected asynchronous ;;
    expect id async_exchange (encode async_initialize 0 session_id []) async_initialize_response ;;
    response <- expect id async_exchange
                  (encode async_maximum_message_size 0 0 (append_u64 kMaximumPayload []))
                  async_maximum_message_size_response ;;
    if negb (length (f_payload response) =? 8)%nat then io_return VI_ERROR_IO
    else
      peer_maximum <- decoded (read_u64 (f_payload response)) ;;
      if peer_maximum =? 0 then io_return VI_ERROR_IO
      else
        modify (fun s => hs_with_peer (hs_address s) (hs_session_id s) (hs_negotiated_version s)
                           (Z.min peer_maximum kMaximumPayload) s) ;;
        modify (fun s => hs_with_flags true (hs_closed s) s) ;;
        io_ret VI_SUCCESS.

(** [create]: the session, or none when [open] fails, and [status].  A session
    that is dropped is closed by its destructor. *)
Definition hs_create (host sub_address : str) (timeout port : Z) (n : N) : option (option Session * Z * N) :=
  let s := hs_make host sub_address port n in
  let '(now, n) := net_now (hs_network s) in
  match hs_open_io (hs_with_network n s, new_operation timeout now) with
  | Some (Next status (s, _)) | Some (Return status (s, _)) =>
      if status <? VI_SUCCESS then Some (None, status, hs_network (hs_close_session s))
      else Some (Some s, status, hs_network s)
  | None => None
  end.

(** ** The backend *)

#[export] Instance hs_backend : BackendSession Session H := {|
  be_read op count options := run_io (hs_read_io count options) op;
  be_write op buffer options := run_io (hs_write_io buffer options) op;
  be_clear op := run_io hs_clear_io op;
  be_flush op mask := forward (hs_flush mask) op;
  be_read_stb op present := run_io (hs_read_stb_io present) op;
  be_assert_trigger op protocol := run_io (hs_assert_trigger_io protocol) op;
  be_usb_control := default_usb_control;
  be_lock op lock_type key := run_io (hs_lock_io lock_type key) op;
  be_unlock op := run_io hs_unlock_io op;
  be_set_attribute := tcpip_set_attribute;
  be_get_attribute attribute s := tcpip_get_attribute (hs_address s) (hs_host s) (hs_port s) attribute;
  be_close := hs_close_session;
  be_notify_cancel s := s |}.

(** ** Steps

    A relation on the session and the operation that every step of the code
    respects is respected by every member function. *)

(** How the calls change the session. *)
Inductive hs_update : (Session -> Session) -> Prop :=
| hu_close : hs_update hs_close_session
| hu_status status : hs_update (hs_with_status status)
| hu_clear_requested : hs_update (hs_with_clear true false false)
| hu_clear_finished acknowledged : hs_update (hs_with_clear true acknowledged true)
| hu_reset : hs_update reset_after_clear
| hu_drop_ahead : hs_update (hs_with_ahead [] false)
| hu_restore bytes : hs_update (hs_restore bytes)
| hu_store kept is_end : hs_update (hs_store kept is_end)
| hu_locked locked : hs_update (hs_with_remote_locked locked).

Class HislipSteps (Rel : relation (Session * Operation H)) : Prop := {
  hst_network :: NetworkSteps Rel;
  hst_update R f : hs_update f -> steady Rel (modify (R:=R) f);
  hst_message_id R : steady Rel (next_message_id (R:=R));
  hst_read_ahead R count options : steady Rel (hs_read_ahead_io (R:=R) count options) }.

Section steps.
  Context (Rel : relation (Session * Operation H)) `{!HislipSteps Rel}.

#[local] Hint Constructors hs_update : wrio.
#[local] Hint Resolve hst_network ns_waiting hst_update hst_message_id hst_read_ahead ns_exchange ns_clock ns_under steps_remaining_timeout
  steps_acquire_io : wrio.

Lemma hs_steps_exchange raw request : steady Rel (raw request) -> steady Rel (hs_exchange raw request).
Proof. intros Hraw. unfold hs_exchange. steady. Qed.

Lemma hs_steps_expected (raw : raw_exchange) request expected :
  (forall request, steady Rel (raw request)) -> steady Rel (exchange_expected raw request expected).
Proof.
  intros Hraw. unfold exchange_expected, expected_turn. steady.
Qed.

Lemma hs_steps_async request : steady Rel (async_exchange request).
Proof. apply steps_plain_call, _. Qed.
#[local] Hint Resolve hs_steps_async hs_steps_expected hs_steps_exchange : wrio.

Lemma hs_steps_request_clear {R} : steady Rel (request_async_clear (R:=R)).
Proof. unfold request_async_clear. steady. apply ns_under. steady. Qed.
#[local] Hint Resolve hs_steps_request_clear : wrio.

Lemma hs_steps_sync_call {R} framing request : steady Rel (sync_call (R:=R) framing request).
Proof. apply (steps_observed_call Rel), hs_steps_request_clear. Qed.
#[local] Hint Resolve hs_steps_sync_call : wrio.

Lemma hs_steps_sync request : steady Rel (sync_exchange request).
Proof. apply hs_steps_sync_call. Qed.
#[local] Hint Resolve hs_steps_sync : wrio.

Lemma hs_steps_recovery {R} : steady Rel (complete_cancel_recovery (R:=R)).
Proof. unfold complete_cancel_recovery. steady. apply ns_under. steady. Qed.
#[local] Hint Resolve hs_steps_recovery : wrio.

Lemma hs_steps_after_failure {R} status : steady Rel (after_failure (R:=R) status).
Proof. unfold after_failure. steady. Qed.
#[local] Hint Resolve hs_steps_after_failure : wrio.

Lemma hs_steps_with_io {A} (body : IO reply A) : steady Rel body -> steady Rel (with_io body).
Proof. apply (steps_with_io turns Rel). Qed.
#[local] Hint Resolve hs_steps_with_io : wrio.

Lemma hs_steps_expect {R} f (raw : raw_exchange) request expected :
  (forall request, steady Rel (raw request)) -> steady Rel (expect (R:=R) f raw request expected).
Proof. intros Hraw. unfold expect. steady. Qed.
#[local] Hint Resolve hs_steps_expect : wrio.

Lemma hs_steps_read_turn count options l : steady Rel (hs_read_turn count options l).
Proof. unfold hs_read_turn. steady. Qed.

Lemma hs_steps_write_turn options left : steady Rel (write_turn options left).
Proof. unfold write_turn. steady. Qed.
#[local] Hint Resolve hs_steps_read_turn hs_steps_write_turn : wrio.

Lemma hs_steps_lock lock_type key : steady Rel (hs_lock_io lock_type key).
Proof. apply hs_steps_with_io. steady. Qed.

Lemma hs_steps_unlock : steady Rel hs_unlock_io.
Proof. unfold hs_unlock_io. steady. Qed.

Lemma hs_steps_call c ro wo op s r :
  (forall R status, steady Rel (complete (R:=R) status)) ->
  backend_call c ro wo op s = Some r ->
  Rel (s, op) (cr_backend r, cr_operation r) \/
  (exists mask, c = IoFlush mask) /\ cr_operation r = op /\
    (cr_backend r = s \/ cr_backend r = hs_with_ahead [] false s).
Proof.
  intros Hcomplete Hr. destruct c as [count|buffer| |mask|present|protocol|? ? ? ? ? ?]; cbn in Hr;
    try (by injection Hr as <-; left; reflexivity).
  - left. eapply run_io_steady; [|exact Hr]. apply hs_steps_with_io. steady.
  - left. eapply run_io_steady; [|exact Hr]. apply hs_steps_with_io. steady.
  - left. eapply run_io_steady; [|exact Hr]. apply hs_steps_with_io. steady.
  - right. split; [by eexists|]. unfold hs_flush in Hr. destruct (negb (valid_flush_mask mask)).
    + injection Hr as <-. auto.
    + injection Hr as <-. cbn. case_match; auto.
  - left. eapply run_io_steady; [|exact Hr]. unfold hs_read_stb_io. steady.
  - left. eapply run_io_steady; [|exact Hr]. unfold hs_assert_trigger_io. steady.
Qed.

End steps.

(** ** The operation *)

Section laws.
  Context `{!NetworkLaws N H}.

#[export] Instance hs_later_steps : HislipSteps ops_later.
Proof.
  split; first [apply _|intros].
  - apply later_modify.
  - unfold next_message_id. steady.
  - intros w o. unfold hs_read_ahead_io. destruct (hs_take_ahead _ _ _ _) as [[bytes ahead] tc].
    intros [= <-]. unfold ops_later. reflexivity.
Qed.

#[export] Instance hs_fails_steps : HislipSteps fails_on.
Proof.
  split; first [apply _|intros].
  - apply fails_modify.
  - unfold next_message_id. steady. apply fails_modify.
  - intros w o. unfold hs_read_ahead_io. destruct (hs_take_ahead _ _ _ _) as [[bytes ahead] tc].
    intros [= <-] Hf. exact Hf.
Qed.

#[export] Instance hs_laws : BackendLaws Session H.
Proof.
  split.
  - intros c ro wo op b r Hr.
    destruct (hs_steps_call ops_later _ _ _ _ _ _ (fun R st => later_complete st) Hr) as [[Hk _]|(_ & -> & _)]; done.
  - intros op lock_type key b r Hr Hf.
    exact (run_io_steady fails_on _ _ _ _ (hs_steps_lock fails_on lock_type key) Hr Hf).
  - intros op b r Hr Hf. exact (run_io_steady fails_on _ _ _ _ (hs_steps_unlock fails_on) Hr Hf).
Qed.

End laws.

(** ** Invariants of the session *)

(** Message ids go up by two, an end of message is behind some byte, and a
    clear that was answered was asked for. *)
Definition hs_ok (s : Session) : Prop :=
  0 <= hs_last_sent_message_id s < 2 ^ 32 /\
  hs_next_message_id s = u32 (hs_last_sent_message_id s + 2) /\
  1 <= hs_maximum_outgoing_payload s <= kMaximumPayload /\
  (hs_read_ahead_end s = true -> hs_read_ahead s ≠ []) /\
  (hs_clear_acknowledged s = true -> hs_clear_request_finished s = true) /\
  (hs_clear_request_finished s = true -> hs_clear_requested s = true).

Definition hs_forward (s s' : Session) : Prop :=
  (hs_ok s -> hs_ok s') /\ (hs_closed s = true -> hs_closed s' = true) /\
  hs_maximum_outgoing_payload s' = hs_maximum_outgoing_payload s.

#[export] Instance hs_forward_preorder : PreOrder hs_forward.
Proof.
  split; [done|]. intros s1 s2 s3 (A1 & B1 & C1) (A2 & B2 & C2). split; [auto|]. split; [auto|congruence].
Qed.

Lemma hs_forward_network n s : hs_forward s (hs_with_network n s).
Proof. split; [|done]. intros Hok. exact Hok. Qed.

Lemma hs_forward_close s : hs_forward s (hs_close_session s).
Proof.
  unfold hs_close_session. destruct (hs_closed s) eqn:Hc; [reflexivity|].
  split; [|split; [cbn; congruence|done]]. intros Hok. exact Hok.
Qed.

Lemma hs_forward_update f : hs_update f -> forall s, hs_forward s (f s).
Proof.
  intros Hf s. destruct Hf; try (split; [|done]; intros (Hl & Hn & Hm & He & Ha & Hr)).
  - apply hs_forward_close.
  - by repeat (split; [done|]).
  - by repeat (split; [done|]).
  - by repeat (split; [done|]).
  - split; [cbn; lia|]. split; [reflexivity|]. by repeat (split; [done|]).
  - by repeat (split; [done|]).
  - split; [done|]. split; [done|]. split; [done|]. split; [|done]. cbn. intros Hends.
    specialize (He Hends). by destruct bytes.
  - split; [done|]. split; [done|]. split; [done|]. split; [|done]. cbn.
    case_bool_decide as Hne; [done|]. rewrite andb_false_r. intros Hends Hnil. apply app_eq_nil in Hnil as [Hnil _].
    by apply He.
  - by repeat (split; [done|]).
Qed.

Lemma hs_take_ahead_spec count options bytes ahead bytes' ahead' tc :
  hs_take_ahead count options bytes ahead = (bytes', ahead', tc) ->
  exists taken, bytes' = bytes ++ taken /\ ahead = taken ++ ahead'.
Proof.
  revert bytes. induction ahead as [|b ahead IH]; intros bytes; cbn [hs_take_ahead].
  - intros [= <- <- <-]. exists []. by rewrite app_nil_r.
  - destruct (_ <? count); [|intros [= <- <- <-]; exists []; by rewrite app_nil_r].
    destruct (is_termchar options b); [intros [= <- <- <-]; by exists [b]|].
    intros (taken & -> & ->)%IH. exists (b :: taken). by rewrite <- app_assoc.
Qed.

#[export] Instance hs_forward_steps : HislipSteps (on_state hs_forward).
Proof.
  split.
  - apply state_net_steps; [apply _|]. apply hs_forward_network.
  - intros R f Hf. apply state_modify. by apply hs_forward_update.
  - intros R w o. cbn. intros [= <-]. split; [|done]. intros (Hl & Hn & Hm & He & Ha & Hr).
    assert (0 <= hs_next_message_id w.1 < 2 ^ 32) by (rewrite Hn; apply Z.mod_pos_bound; lia).
    by repeat (split; [done|]).
  - intros R count options w o. unfold hs_read_ahead_io.
    destruct (hs_take_ahead _ _ _ _) as [[bytes ahead] tc] eqn:Ht. intros [= <-]. split; [|done].
    intros (Hl & Hn & Hm & He & Ha & Hr). split; [done|]. split; [done|]. split; [done|]. split; [|done]. cbn.
    case_bool_decide; cbn [andb]; [|done]. by destruct (hs_read_ahead_end w.1).
Qed.

(** *** Recovery *)

(** The state after a clear: nothing of the interrupted messages is left. *)
Definition hs_reset (s : Session) : Prop :=
  hs_read_ahead s = [] /\ hs_read_ahead_end s = false /\
  hs_next_message_id s = 0xFFFFFF00 /\ hs_last_sent_message_id s = 0xFFFFFEFE /\
  hs_clear_requested s = false /\ hs_clear_acknowledged s = false /\ hs_clear_request_finished s = false.

(** A function with an output parameter returns without one only to fail. *)
Definition fails_negative {A} (m : IO Z A) : Prop :=
  forall w, holds m w (fun o => match o with Next _ _ => True | Return st _ => st < VI_SUCCESS end).

Lemma next_async request : always_next (async_exchange request).
Proof. apply next_plain_call. Qed.

Lemma next_request_clear {R} : always_next (request_async_clear (R:=R)).
Proof.
  intros w. unfold request_async_clear. apply holds_bind, holds_gets, holds_bind, holds_gets.
  destruct (_ || _); [by apply holds_ret|]. apply holds_bind, holds_modify, holds_bind, holds_under_timeout.
  intros w' o _. by destruct o; apply holds_modify.
Qed.

Lemma next_sync_call {R} framing request : always_next (sync_call (R:=R) framing request).
Proof. apply next_observed_call, next_request_clear. Qed.

Lemma negative_exchange raw request : always_next (raw request) -> fails_negative (hs_exchange raw request).
Proof.
  intros Hraw w. unfold hs_exchange. apply holds_bind. eapply holds_mono; [apply Hraw|].
  intros [[status bytes] w1|r w1] Ho; [|done].
  destruct (Z.ltb_spec status VI_SUCCESS); [by apply holds_return|]. apply holds_bind. intros o. unfold decoded.
  destruct (decode bytes) as [[f|]|]; [| |done]; intros [= <-].
  - case_bool_decide; [by apply holds_bind, holds_modify, holds_return|].
    case_bool_decide; [by apply holds_return|by apply holds_ret].
  - by apply holds_bind, holds_modify, holds_return.
Qed.

Lemma negative_expected (raw : raw_exchange) request expected :
  (forall request, always_next (raw request)) -> fails_negative (exchange_expected raw request expected).
Proof.
  intros Hraw w. unfold exchange_expected. apply (holds_iter (fun _ _ => True)); [|done].
  clear w request. intros request w _. unfold expected_turn. apply holds_bind.
  eapply holds_mono; [by apply negative_exchange|]. intros [f w1|st w1] Ho; [|done].
  case_bool_decide; [by apply holds_ret|].
  case_bool_decide; [by apply holds_bind, holds_modify, holds_ret|].
  case_bool_decide; [by apply holds_ret|by apply holds_return].
Qed.

(** A recovery that succeeds leaves the session as after a clear. *)
Lemma recovery_spec {R} w :
  holds (complete_cancel_recovery (R:=R)) w (fun o =>
    match o with Next st w' => VI_SUCCESS <= st -> hs_reset w'.1 | Return _ _ => False end).
Proof.
  unfold complete_cancel_recovery. apply holds_bind, holds_gets, holds_bind, holds_gets.
  destruct (_ || _); [by apply holds_ret|]. apply holds_bind, holds_under_timeout. intros w1.
  eapply holds_mono; [apply negative_expected, next_sync_call|]. intros [f w2|st w2] Ho2.
  - apply holds_bind, holds_modify, holds_ret. intros _. by repeat (split; [done|]).
  - apply holds_ret. intros Hst. lia.
Qed.

(** What is done about a failure: a cancelled exchange is followed by a
    recovery, or is a lost connection. *)
Definition failure_handled (status status' : Z) (w w' : Session * Operation H) : Prop :=
  if cancelled status then status' = status /\ hs_reset w'.1 \/ status' = VI_ERROR_CONN_LOST
  else status' = status /\ w' = w.

Lemma after_failure_spec {R} status w :
  holds (after_failure (R:=R) status) w (fun o =>
    match o with Next status' w' => failure_handled status status' w w' | Return _ _ => False end).
Proof.
  unfold after_failure, failure_handled. destruct (cancelled status); [|by apply holds_ret].
  apply holds_bind. eapply holds_mono; [apply recovery_spec|]. intros [st w1|r w1] Ho; [|done].
  apply holds_ret. destruct (Z.ltb_spec st VI_SUCCESS); auto.
Qed.

(** ** What a read returns *)

Definition hs_events (s : Session) : list (option Z) := events (hs_read_ahead s) (hs_read_ahead_end s).

(** What a response of the synchronous channel carries. *)
Definition frame_events (response : list Z) : list (option Z) :=
  match decode response with
  | Some (Some f) =>
      if bool_decide (f_type f = data) then events (f_payload f) false
      else if bool_decide (f_type f = data_end) then events (f_payload f) true
      else []
  | _ => []
  end.

(** Steps that leave the buffers and the message ids alone. *)
Definition quiet (s s' : Session) : Prop :=
  hs_read_ahead s' = hs_read_ahead s /\ hs_read_ahead_end s' = hs_read_ahead_end s /\
  hs_next_message_id s' = hs_next_message_id s /\ hs_last_sent_message_id s' = hs_last_sent_message_id s /\
  hs_maximum_outgoing_payload s' = hs_maximum_outgoing_payload s.

Section view.
  Context `{!NetworkLaws N H} (wire : N -> list (list Z * list Z)) `{!NetworkView N H synchronous wire}.

#[local] Instance quiet_preorder : PreOrder quiet.
Proof.
  split; [done|]. intros s1 s2 s3 (A1 & B1 & C1 & D1 & E1) (A2 & B2 & C2 & D2 & E2). repeat split; congruence.
Qed.

Lemma quiet_network (n : N) (s : Session) : quiet s (own_with_transport n s).
Proof. done. Qed.

Abbreviation calm := (calm wire quiet).
Abbreviation exchanged := (exchanged wire quiet).

#[local] Instance calm_waiting : WaitingSteps (on_state calm).
Proof. exact (calm_waits synchronous wire quiet quiet_network). Qed.

Lemma calm_close s : calm s (hs_close_session s).
Proof.
  unfold hs_close_session. destruct (hs_closed s); [reflexivity|]. split; [done|]. cbn. by rewrite !nw_close.
Qed.

Lemma calm_async request : steady (on_state calm) (async_exchange request).
Proof. by apply (calm_plain_call synchronous wire quiet quiet_network). Qed.

#[local] Hint Resolve calm_async calm_close ns_clock ns_under calm_waiting : wrio.

Lemma calm_status status s : calm s (hs_with_status status s).
Proof. done. Qed.

Lemma calm_clear requested acknowledged ended s : calm s (hs_with_clear requested acknowledged ended s).
Proof. done. Qed.
#[local] Hint Resolve calm_status calm_clear : wrio.

Lemma calm_request_clear {R} : steady (on_state calm) (request_async_clear (R:=R)).
Proof.
  assert (forall R f, (forall s, calm s (f s)) -> steady (on_state calm) (modify (B:=Session) (H:=H) (R:=R) f)) as Hm
    by (intros; by apply state_modify).
  unfold request_async_clear, exchange_expected, expected_turn, hs_exchange. steady.
Qed.

Lemma sync_call_spec {R} framing request w :
  holds (sync_call (R:=R) framing request) w (fun o =>
    match o with Next (status, response) w' => exchanged request status response w w' | Return _ _ => False end).
Proof.
  apply (observed_call_spec synchronous wire quiet quiet_network); [apply next_request_clear|apply calm_request_clear|].
  apply (hs_steps_request_clear fails_on).
Qed.

(** A response of [exchange], or its failure; a response that fails carries
    nothing. *)
Lemma hs_exchange_spec request w :
  holds (hs_exchange sync_exchange request) w (fun o =>
    fails_on w (final o) /\ quiet w.1 (final o).1 /\
    match o with
    | Next f w' => exists response, decode response = Some (Some f) /\ are_bytes (f_payload f) /\
        wire (hs_network w'.1) = wire (hs_network w.1) ++ [(request, response)]
    | Return st w' => st < VI_SUCCESS /\ exists new,
        wire (hs_network w'.1) = wire (hs_network w.1) ++ new /\
        concat (frame_events ∘ snd <$> new) = []
    end).
Proof.
  unfold hs_exchange, sync_exchange. apply holds_bind. eapply holds_mono; [apply sync_call_spec|].
  intros [[status bytes] w1|r w1] Ho; [|done]. destruct Ho as (Hf & Hq & Hb & Hl & Hw).
  destruct (Z.ltb_spec status VI_SUCCESS) as [Hst|Hst].
  { rewrite (proj2 (Z.leb_gt _ _)) in Hw by done. apply holds_return.
    split; [done|]. split; [done|]. split; [done|]. by exists []. }
  rewrite (proj2 (Z.leb_le _ _)) in Hw by done.
  destruct (decode_defined bytes Hb Hl) as (r & Hdec & Hframe). rewrite Hdec.
  apply holds_bind. intros o. cbn. intros [= <-].
  assert (forall s', calm w1.1 s' -> quiet w.1 s' /\ wire (hs_network s') = wire (hs_network w.1) ++ [(request, bytes)]) as Hcalm.
  { intros s' [Hq2 Hw2]. split; [|cbn in Hw2; by rewrite Hw2].
    destruct Hq as (? & ? & ? & ? & ?), Hq2 as (? & ? & ? & ? & ?). repeat split; congruence. }
  assert (forall st (s' : Session), st < VI_SUCCESS -> calm w1.1 s' -> frame_events bytes = [] ->
    fails_on w (s', w1.2) /\ quiet w.1 s' /\ st < VI_SUCCESS /\ exists new,
      wire (hs_network s') = wire (hs_network w.1) ++ new /\ concat (frame_events ∘ snd <$> new) = []) as Hfail.
  { intros st s' Hneg Hc Hev. destruct (Hcalm s' Hc) as [Hq' Hw']. split; [exact Hf|]. split; [done|].
    split; [done|]. exists [(request, bytes)]. split; [done|]. cbn. by rewrite Hev. }
  destruct r as [f|].
  - case_bool_decide as Hfatal; [|case_bool_decide as Herror].
    + apply holds_bind, holds_modify, holds_return. apply Hfail; [done|apply calm_close|].
      unfold frame_events. by rewrite Hdec, Hfatal.
    + apply holds_return. apply (Hfail _ w1.1); [done|reflexivity|].
      unfold frame_events. by rewrite Hdec, Herror.
    + apply holds_ret. split; [done|]. split; [done|]. exists bytes. split; [done|]. split; [|done].
      by destruct (Hframe f eq_refl) as [_ (_ & _ & _ & ? & _)].
  - apply holds_bind, holds_modify, holds_return. apply Hfail; [done|apply calm_close|].
    unfold frame_events. by rewrite Hdec.
Qed.

Section reading.
  Context (count : Z) (options : ReadOptions) (s0 : Session).

(** What the session had read ahead and what it has received since is [taken],
    followed by what is kept and what is lost. *)
Definition hs_stream (taken lost : list (option Z)) (s : Session) : Prop :=
  exists new, wire (hs_network s) = wire (hs_network s0) ++ new /\
    hs_events s0 ++ concat (frame_events ∘ snd <$> new) = taken ++ hs_events s ++ lost.

Definition hs_full (l : hs_locals) : Prop :=
  Z.of_nat (length (hl_data l)) = count \/ hl_termchar l = true.

Definition hs_locals_ok (l : hs_locals) : Prop :=
  Z.of_nat (length (hl_data l)) <= count /\ termchar_ok options (hl_data l) (hl_termchar l).

Definition hs_inv (l : hs_locals) (w : Session * Operation H) : Prop :=
  fails_only w.2 /\ hs_locals_ok l /\ hs_stream (events (hl_data l) (hl_end l)) [] w.1 /\
  (hs_read_ahead_end w.1 = true -> hs_read_ahead w.1 ≠ []) /\
  (hs_full l \/ hs_read_ahead w.1 = []) /\ (hl_end l = true -> hs_read_ahead w.1 = []).

(** A read that hands out nothing: the stream is kept but for an end of
    message, or the session is closed, or it was cleared, or it is lost. *)
Definition hs_failed (rp : reply) (w : Session * Operation H) : Prop :=
  rp_status rp < VI_SUCCESS /\ rp_data rp = [] /\ rp_value rp = 0 /\
  ((exists lost, hs_stream [] lost w.1 /\ (lost = [] \/ lost = [None])) \/ hs_closed w.1 = true \/
   cancelled (rp_status rp) = true /\ hs_reset w.1 \/ rp_status rp = VI_ERROR_CONN_LOST).

(** A read that hands out the next bytes of the stream. *)
Definition hs_handed_out (rp : reply) (w : Session * Operation H) : Prop :=
  op_result w.2 = rp_status rp /\ rp_value rp = Z.of_nat (length (rp_data rp)) /\
  exists ended found, hs_stream (events (rp_data rp) ended) [] w.1 /\
    read_ended options count (rp_status rp) (rp_data rp) found ended.

Lemma hs_take_ahead_full bytes ahead bytes' ahead' tc :
  hs_locals_ok (mkHsLocals bytes false false) -> hs_take_ahead count options bytes ahead = (bytes', ahead', tc) ->
  hs_locals_ok (mkHsLocals bytes' false tc) /\ (hs_full (mkHsLocals bytes' false tc) \/ ahead' = []).
Proof.
  revert bytes. induction ahead as [|b ahead IH]; intros bytes [Hl Ht]; cbn [hs_take_ahead].
  { intros [= <- <- <-]. split; [done|by right]. }
  destruct (Z.ltb_spec (Z.of_nat (length bytes)) count) as [Hlt|Hge].
  2:{ intros [= <- <- <-]. split; [done|]. left; left. cbn in *. lia. }
  assert (hs_locals_ok (mkHsLocals (bytes ++ [b]) false (is_termchar options b))) as Hok.
  { split; cbn; [rewrite length_app; cbn; lia|]. by apply termchar_ok_snoc. }
  destruct (is_termchar options b) eqn:Htc; [intros [= <- <- <-]; split; [done|by left; right]|by apply IH].
Qed.

Lemma hs_consume_spec payload : forall bytes kept tc bytes' kept' tc',
  hs_locals_ok (mkHsLocals bytes false tc) -> (kept ≠ [] -> hs_full (mkHsLocals bytes false tc)) ->
  hs_consume count options payload bytes kept tc = (bytes', kept', tc') ->
  hs_locals_ok (mkHsLocals bytes' false tc') /\ (kept' ≠ [] -> hs_full (mkHsLocals bytes' false tc')) /\
  bytes' ++ kept' = bytes ++ kept ++ payload.
Proof.
  induction payload as [|b payload IH]; intros bytes kept tc bytes' kept' tc' [Hl Ht] Hk; cbn [hs_consume].
  { intros [= <- <- <-]. by rewrite app_nil_r. }
  cbn in Hl, Ht. destruct (_ && _) eqn:Hroom.
  - apply andb_true_iff in Hroom as [Hlt%Z.ltb_lt Htc%negb_true_iff]. subst tc.
    assert (kept = []) as ->.
    { destruct kept; [done|]. destruct Hk as [Hk|Hk]; [done| |done]. cbn in Hk. lia. }
    intros Hc. apply IH in Hc as (? & ? & Heq); [|split; cbn|done].
    + split; [done|]. split; [done|]. rewrite Heq, <- app_assoc. done.
    + rewrite length_app. cbn. lia.
    + by apply termchar_ok_snoc.
  - intros Hc. apply IH in Hc as (? & ? & Heq); [|done|].
    + split; [done|]. split; [done|]. by rewrite Heq, <- (app_assoc kept).
    + intros _. apply andb_false_iff in Hroom as [Hlt%Z.ltb_ge|Htc%negb_false_iff]; [left; cbn; lia|by right].
Qed.

Lemma hs_events_empty s :
  (hs_read_ahead_end s = true -> hs_read_ahead s ≠ []) -> hs_read_ahead s = [] ->
  hs_read_ahead_end s = false /\ hs_events s = [].
Proof.
  intros He Ha. unfold hs_events. rewrite Ha in *. destruct (hs_read_ahead_end s); [by destruct (He eq_refl)|done].
Qed.

(** Restoring keeps everything but an end of message already taken. *)
Lemma hs_restore_stream l s :
  (hs_read_ahead_end s = true -> hs_read_ahead s ≠ []) -> (hl_end l = true -> hs_read_ahead s = []) ->
  hs_stream (events (hl_data l) (hl_end l)) [] s ->
  exists lost, hs_stream [] lost (hs_restore (hl_data l) s) /\ (lost = [] \/ lost = [None]).
Proof.
  intros He Hend (new & Hw & Hs). rewrite app_nil_r in Hs.
  assert (hs_events (hs_restore (hl_data l) s) = events (hl_data l) false ++ hs_events s) as Hr
    by apply events_app.
  destruct (hl_end l) eqn:E.
  - destruct (hs_events_empty s He (Hend eq_refl)) as [_ Hempty]. exists [None]. split; [|by right].
    exists new. split; [done|]. rewrite Hs, Hr, Hempty, !app_nil_r, events_snoc. done.
  - exists []. split; [|by left]. exists new. split; [done|]. by rewrite Hs, Hr, app_nil_r.
Qed.

(** The state between the turns, after steps that carry nothing. *)
Lemma hs_stream_quiet taken s s' new :
  quiet s s' -> wire (hs_network s') = wire (hs_network s) ++ new ->
  hs_stream taken [] s ->
  exists all, wire (hs_network s') = wire (hs_network s0) ++ all /\
    hs_events s0 ++ concat (frame_events ∘ snd <$> all) =
      taken ++ hs_events s' ++ concat (frame_events ∘ snd <$> new).
Proof.
  intros (Ha & He & _) Hw (old & Hold & Hs). exists (old ++ new). split; [by rewrite Hw, Hold, app_assoc|].
  rewrite fmap_app, concat_app, app_assoc, Hs, app_nil_r. unfold hs_events. by rewrite Ha, He, app_assoc.
Qed.

Lemma hs_exchange_failed l w status w1 :
  hs_inv l w -> fails_on w w1 -> quiet w.1 w1.1 -> status < VI_SUCCESS ->
  (exists new, wire (hs_network w1.1) = wire (hs_network w.1) ++ new /\ concat (frame_events ∘ snd <$> new) = []) ->
  holds (io_bind (modify (hs_restore (hl_data l))) (fun _ =>
           status <- after_failure status ;; io_return (status_only status))) w1 (fun o =>
    match o with Next _ _ => False | Return rp w' => hs_failed rp w' end : Prop)
    (A:=hs_locals + hs_locals).
Proof.
  intros (Hf & Hl & Hs & He & Hfull & Hend) Hf1 Hq Hst (new & Hw & Hev).
  destruct (hs_stream_quiet _ _ _ _ Hq Hw Hs) as (all & Hall & Hsall). rewrite Hev, app_nil_r in Hsall.
  pose proof Hq as (Ha1 & He1 & _).
  destruct (hs_restore_stream l w1.1) as (lost & Hlost & Hl01).
  { rewrite He1, Ha1. done. }
  { rewrite Ha1. done. }
  { exists all. split; [done|]. by rewrite Hsall, app_nil_r. }
  apply holds_bind, holds_modify, holds_bind. eapply holds_mono; [apply after_failure_spec|].
  intros [st w2|r w2] Ho; [|done]. apply holds_return. cbn in Ho. unfold failure_handled in Ho.
  assert (forall x, x = status \/ x = VI_ERROR_CONN_LOST -> x < VI_SUCCESS) as Hneg
    by (intros x [-> | ->]; [done|reflexivity]).
  destruct (cancelled status) eqn:Hc.
  - destruct Ho as [[-> Hreset]| ->].
    + split; [done|]. split; [done|]. split; [done|]. right; right; left. done.
    + split; [done|]. split; [done|]. split; [done|]. by right; right; right.
  - destruct Ho as [-> ->]. split; [done|]. split; [done|]. split; [done|]. left. by exists lost.
Qed.

(** A frame that carries the payload on. *)
Lemma hs_store_inv l f response w w1 bytes kept tc :
  hs_inv l w -> hl_end l = false -> hs_read_ahead w.1 = [] ->
  fails_on w w1 -> quiet w.1 w1.1 ->
  decode response = Some (Some f) -> f_type f ∈ [data; data_end] ->
  wire (hs_network w1.1) = wire (hs_network w.1) ++ [([], response)] ->
  hs_consume count options (f_payload f) (hl_data l) [] (hl_termchar l) = (bytes, kept, tc) ->
  let is_end := bool_decide (f_type f = data_end) in
  let s' := hs_store kept is_end w1.1 in
  hs_inv (mkHsLocals bytes (if is_end && bool_decide (hs_read_ahead s' = []) then true else hl_end l) tc) (s', w1.2).
Proof.
  intros (Hf & Hl & Hs & He & _ & _) Hend Ha Hf1 Hq Hdec Hty Hw Hc is_end s'.
  destruct (hs_stream_quiet _ _ _ _ Hq Hw Hs) as (all & Hall & Hsall).
  pose proof Hq as (Ha1 & He1 & _). destruct (hs_events_empty w.1 He Ha) as [He0 _].
  rewrite Ha in Ha1. rewrite He0 in He1. unfold hs_events at 2 in Hsall. rewrite Ha1, He1 in Hsall. rewrite Hend in *.
  destruct (hs_consume_spec _ _ _ _ _ _ _ Hl ltac:(done) Hc) as (Hl' & Hfull & Hdata).
  assert (frame_events response = events (f_payload f) is_end) as Hev.
  { unfold frame_events. rewrite Hdec. unfold is_end. rewrite !elem_of_cons in Hty.
    destruct Hty as [->|[->|Hnil]]; [done|done|by apply not_elem_of_nil in Hnil]. }
  assert (hs_read_ahead s' = kept) as Hkept by (cbn; by rewrite Ha1).
  assert (hs_read_ahead_end s' = is_end && bool_decide (kept ≠ [])) as Hends
    by (cbn; rewrite Ha1, He1; cbn; by destruct (_ && _)).
  assert ((if is_end && bool_decide (hs_read_ahead s' = []) then true else false) =
    is_end && bool_decide (kept = [])) as Hle by (rewrite Hkept; by destruct (is_end && bool_decide (kept = []))).
  rewrite Hle. split; [by apply Hf1|]. split; [exact Hl'|]. split; [|split; [|split]]; cbn [hl_data hl_end].
  - exists all. split; [exact Hall|]. rewrite Hsall, app_nil_r. unfold hs_events. cbn [fst].
    rewrite Hkept, Hends. change (events [] false) with (@nil (option Z)).
    change (concat (frame_events ∘ snd <$> [([], response)])) with (frame_events response ++ []).
    cbn [app] in Hdata |- *. rewrite Hev, app_nil_r, <- events_app, <- Hdata.
    destruct is_end; cbn [andb]; [|by rewrite events_app].
    destruct (decide (kept = [])) as [Hk|Hk].
    + rewrite bool_decide_true, bool_decide_false by auto. rewrite Hk, !app_nil_r. done.
    + rewrite bool_decide_false, bool_decide_true by auto. by rewrite events_app.
  - cbn [fst]. rewrite Hkept, Hends. intros [_ Hne]%andb_true_iff. by apply bool_decide_eq_true in Hne.
  - cbn [fst]. rewrite Hkept. destruct kept; [by right|left]. by apply Hfull.
  - cbn [fst]. rewrite Hkept. intros [_ Hne]%andb_true_iff. by apply bool_decide_eq_true in Hne.
Qed.

Lemma hs_read_turn_spec l w :
  hs_inv l w ->
  holds (hs_read_turn count options l) w (fun o =>
    match o with
    | Next (inl l') w' => hs_inv l' w'
    | Next (inr l') w' => hs_inv l' w' /\ (hs_full l' \/ hl_end l' = true)
    | Return rp w' => hs_failed rp w'
    end).
Proof.
  intros Hi. pose proof Hi as (Hf & Hl & Hs & He & Hfull & Hend). unfold hs_read_turn.
  destruct (_ || _ || _) eqn:Hstop.
  { apply holds_ret. split; [done|]. rewrite !orb_true_iff, negb_true_iff, Z.ltb_ge in Hstop.
    destruct Hl as [Hl _]. unfold hs_full. destruct Hstop as [[|]|]; auto. left; left. lia. }
  rewrite !orb_false_iff, negb_false_iff, Z.ltb_lt in Hstop. destruct Hstop as [[Hnend Hntc] Hlt].
  assert (hs_read_ahead w.1 = []) as Ha by (destruct Hfull as [[?|Hx]|]; [lia|congruence|done]).
  apply holds_bind, holds_try. eapply holds_mono; [apply hs_exchange_spec|]. intros [f w1|st w1] (Hf1 & Hq & Ho).
  2:{ destruct Ho as [Hst Hnew]. eapply holds_mono; [by apply (hs_exchange_failed l w)|]. by intros [|]. }
  destruct Ho as (response & Hdec & _ & Hw). apply holds_bind, holds_gets.
  assert (forall (s' : Session) op', hs_closed s' = true -> hs_failed (status_only VI_ERROR_IO) (s', op')) as Hclosed
    by (intros; split; [done|]; split; [done|]; split; [done|]; right; by left).
  assert (forall s : Session, hs_closed (hs_close_session s) = true) as Hclose.
  { intros s. unfold hs_close_session. by destruct (hs_closed s) eqn:E. }
  case_bool_decide as Hty; cbn [negb]; [|by apply holds_bind, holds_modify, holds_return, Hclosed].
  destruct (_ && _).
  { apply holds_bind, holds_modify, holds_bind, holds_modify, holds_return. by apply Hclosed. }
  destruct (hs_consume _ _ _ _ _ _) as [[bytes kept] tc] eqn:Hc.
  apply holds_bind, holds_modify, holds_bind, holds_gets, holds_ret.
  exact (hs_store_inv l f response w w1 bytes kept tc Hi Hnend Ha Hf1 Hq Hdec Hty Hw Hc).
Qed.

Lemma hs_read_ahead_inv {R} op :
  hs_ok s0 -> fails_only op -> forall w, on_state calm (s0, op) w -> fails_only w.2 ->
  0 <= count ->
  holds (hs_read_ahead_io (R:=R) count options) w (fun o =>
    match o with Next l w' => hs_inv l w' | Return _ _ => False end).
Proof.
  intros (_ & _ & _ & He & _) Hf w [(Ha & Hae & _) Hw] Hfw Hcount. cbn in Ha, Hae, Hw. intros o.
  unfold hs_read_ahead_io. destruct (hs_take_ahead _ _ _ _) as [[bytes ahead] tc] eqn:Ht. intros [= <-].
  destruct (hs_take_ahead_full [] _ bytes ahead tc ltac:(split; [cbn; lia|apply termchar_ok_nil]) Ht)
    as [Hl Hfull].
  destruct (hs_take_ahead_spec _ _ _ _ _ _ _ Ht) as (taken & Hb & Htaken). cbn in Hb. subst taken.
  rewrite Ha in *. rewrite Hae in *.
  split; [exact Hfw|]. split; [exact Hl|]. split; [|split; [|split]].
  - exists []. split; [by rewrite app_nil_r; cbn|]. cbn [fmap list_fmap concat]. rewrite !app_nil_r.
    unfold hs_events at 1. rewrite Htaken, events_app. unfold hs_events. cbn.
    case_bool_decide as Hn; cbn [andb]; [|done]. subst ahead. destruct (hs_read_ahead_end s0); cbn; [|done].
    unfold events. by rewrite !app_nil_r.
  - cbn. case_bool_decide as Hn; cbn [andb]; [|done]. by destruct (hs_read_ahead_end s0).
  - destruct Hfull as [[Hx|Hx]|Hx]; [left; by left|left; by right|by right].
  - cbn. intros [Hn _]%andb_true_iff. by apply bool_decide_eq_true in Hn.
Qed.


End reading.

(** ** What a write sends *)

(** The frames of a message that is cut into [parts], with [left] still to come. *)
Fixpoint message_frames (send_end : bool) (id : Z) (parts : list (list Z)) (left : list Z) : list (list Z) :=
  match parts with
  | [] => []
  | part :: rest =>
      write_frame send_end id part (concat rest ++ left) :: message_frames send_end (u32 (id + 2)) rest left
  end.

Definition id_after (id : Z) (n : nat) : Z := Nat.iter n (fun i => u32 (i + 2)) id.

Lemma id_after_S id n : id_after (u32 (id + 2)) n = id_after id (S n).
Proof. apply (Nat.iter_swap n Z (fun i => u32 (i + 2))). Qed.

Lemma message_frames_snoc send_end id parts part left :
  message_frames send_end id (parts ++ [part]) left =
    message_frames send_end id parts (part ++ left) ++
    [write_frame send_end (id_after id (length parts)) part left].
Proof.
  revert id. induction parts as [|p parts IH]; intros id; [done|].
  cbn [app message_frames length]. rewrite IH, id_after_S, concat_app. cbn [concat].
  by rewrite app_nil_r, <- app_assoc.
Qed.

Section writing.
  Context (buffer : list Z) (options : WriteOptions) (s0 : Session).

Definition hs_sent (parts : list (list Z)) (left : list Z) (s : Session) : Prop :=
  exists new, wire (hs_network s) = wire (hs_network s0) ++ new /\
    fst <$> new = message_frames (wo_send_end options) (hs_next_message_id s0) parts left.

Definition hs_write_inv (left : list Z) (w : Session * Operation H) : Prop :=
  fails_only w.2 /\ hs_maximum_outgoing_payload w.1 = hs_maximum_outgoing_payload s0 /\
  hs_read_ahead w.1 = [] /\ hs_read_ahead_end w.1 = false /\
  exists parts, concat parts ++ left = buffer /\
    Forall (fun part => 1 <= Z.of_nat (length part) <= hs_maximum_outgoing_payload s0) parts /\
    hs_sent parts left w.1 /\ hs_next_message_id w.1 = id_after (hs_next_message_id s0) (length parts).

Definition hs_write_failed (rp : reply) : Prop :=
  rp_status rp < VI_SUCCESS /\ rp_value rp = 0.

Lemma hs_write_turn_spec left w :
  1 <= hs_maximum_outgoing_payload s0 -> hs_write_inv left w ->
  holds (write_turn options left) w (fun o =>
    match o with
    | Next (inl left') w' => hs_write_inv left' w' /\ (length left' < length left)%nat
    | Next (inr _) w' => left = [] /\ w' = w
    | Return rp w' => hs_write_failed rp
    end).
Proof.
  intros Hmax (Hf & Hm & Ha & Hae & parts & Hparts & Hsizes & (new & Hw & Hnew) & Hid). unfold write_turn.
  destruct left as [|b left0] eqn:Hleft; [by apply holds_ret|]. rewrite <- Hleft in *.
  assert (1 <= Z.of_nat (length left)) as Hlen by (rewrite Hleft; cbn [length]; lia).
  apply holds_bind, holds_gets. rewrite Hm. cbn zeta. set (amount := Nat.min _ _).
  assert (1 <= Z.of_nat amount <= hs_maximum_outgoing_payload s0) as Hamount by lia.
  apply holds_bind. intros o. unfold next_message_id, get, modify, io_bind, io_gets, io_modify. intros [= <-].
  cbn [fst snd]. set (s1 := hs_with_ids _ _ w.1). rewrite Hid. set (id := id_after _ _).
  apply holds_bind. eapply holds_mono; [apply sync_call_spec|]. intros [[status response] w2|r w2] Ho; [|done].
  destruct Ho as (Hf2 & (Hq1 & Hq2 & Hq3 & Hq4 & Hq5) & _ & _ & Hw2). cbn [fst snd] in *.
  destruct (Z.ltb_spec status VI_SUCCESS) as [Hst|Hst].
  { apply holds_bind. eapply holds_mono; [apply after_failure_spec|]. intros [st w3|r w3] Ho; [|done].
    apply holds_return. split; [|done]. unfold failure_handled in Ho. cbn.
    destruct (cancelled status); [|by destruct Ho as [-> _]]. by destruct Ho as [[-> _]| ->]. }
  rewrite (proj2 (Z.leb_le _ _)) in Hw2 by done. apply holds_ret. split.
  2:{ rewrite length_drop. lia. }
  split; [by apply Hf2|]. split; [by rewrite Hq5|]. split; [by rewrite Hq1|]. split; [by rewrite Hq2|].
  exists (parts ++ [take amount left]). rewrite concat_app. cbn [concat]. rewrite app_nil_r.
  split; [by rewrite <- app_assoc, take_drop|]. split; [|split].
  - apply Forall_app. split; [done|]. apply Forall_singleton. rewrite length_take. lia.
  - exists (new ++ [(write_frame (wo_send_end options) id (take amount left) (drop amount left), response)]).
    split; [by rewrite app_assoc, <- Hw|]. rewrite fmap_app, message_frames_snoc, take_drop, Hnew. done.
  - rewrite Hq3, length_app. cbn. rewrite Hid. unfold id, id_after. rewrite Nat.add_1_r. done.
Qed.

End writing.

(** A write of a HiSLIP session that reports success has cut the buffer into
    parts that the device takes and sent them, in order, as frames whose ids go
    up by two; only the last one ends the message, and only if the end is to be
    sent.  The data read ahead are dropped, and the count is the length of the
    buffer.  A write that fails reports no bytes written. *)
Theorem hislip_write_contract buffer options op s r :
  hs_ok s -> fails_only op -> run_io (hs_write_io buffer options) op s = Some r ->
  if cr_status r <? VI_SUCCESS then cr_value r = 0
  else
    cr_status r = VI_SUCCESS /\ cr_value r = Z.of_nat (length buffer) /\
    op_result (cr_operation r) = VI_SUCCESS /\ hs_events (cr_backend r) = [] /\
    exists parts, concat parts = buffer /\
      Forall (fun part => 1 <= Z.of_nat (length part) <= hs_maximum_outgoing_payload s) parts /\
      hs_sent options s parts [] (cr_backend r) /\
      hs_next_message_id (cr_backend r) = id_after (hs_next_message_id s) (length parts).
Proof.
  intros Hok Hf. apply run_io_holds with (Q := fun rp w =>
    if rp_status rp <? VI_SUCCESS then rp_value rp = 0
    else rp_status rp = VI_SUCCESS /\ rp_value rp = Z.of_nat (length buffer) /\
      op_result w.2 = VI_SUCCESS /\ hs_events w.1 = [] /\
      exists parts, concat parts = buffer /\
        Forall (fun part => 1 <= Z.of_nat (length part) <= hs_maximum_outgoing_payload s) parts /\
        hs_sent options s parts [] w.1 /\
        hs_next_message_id w.1 = id_after (hs_next_message_id s) (length parts)).
  assert (forall w : Session * Operation H, fails_only w.2 -> completed w.2 = true ->
    (op_result w.2 <? VI_SUCCESS) = true) as Hneg by (intros w Hfw Hc; by apply Z.ltb_lt, Hfw).
  unfold hs_write_io. apply (with_io_spec turns synchronous wire quiet quiet_network); [done| |].
  2:{ intros w Hfw Hw Hc. cbn [rp_status status_only]. by rewrite Hneg. }
  intros w Hfw [(_ & _ & Hid & _ & Hm) Hw]. apply holds_bind, holds_modify, holds_bind.
  apply (holds_iter (hs_write_inv buffer options s)).
  - intros left w1 Hi. eapply holds_mono; [apply (hs_write_turn_spec buffer options s); [|done]|].
    { destruct Hok as (_ & _ & ? & _). lia. }
    intros [[left'|u] w2|rp w2]; [by intros [? _]| |].
    2:{ intros [Hst Hv]. by rewrite (proj2 (Z.ltb_lt _ _)). }
    intros [-> ->]. destruct Hi as (Hf1 & _ & Ha & Hae & parts & Hparts & Hsizes & Hs & Hid1).
    apply holds_bind. intros o. unfold complete. destruct (try_complete _ w1.2) as [won op'] eqn:Htry.
    destruct (completed w1.2) eqn:Hc.
    + rewrite try_complete_done in Htry by done. injection Htry as <- <-. intros [= <-]. cbn [negb].
      apply holds_return_result. cbn [rp_status status_only snd]. by rewrite Hneg.
    + rewrite try_complete_fresh in Htry by done. injection Htry as <- <-. intros [= <-]. cbn [negb].
      apply holds_ret. cbn [rp_status rp_value fst snd]. change (VI_SUCCESS <? VI_SUCCESS) with false.
      split; [done|]. split; [done|]. split; [done|]. split; [unfold hs_events; by rewrite Ha, Hae|].
      exists parts. split; [by rewrite <- Hparts, app_nil_r|]. done.
  - split; [exact Hfw|]. split; [exact Hm|]. split; [done|]. split; [done|]. exists [].
    split; [done|]. split; [by apply Forall_nil_2|]. split; [|exact Hid]. exists [].
    split; [by rewrite app_nil_r; exact Hw|done].
Qed.

End view.

(** ** Opening *)

(** Steps that keep the invariant; unlike [hs_forward] they may change the limit. *)
Definition hs_keeps (s s' : Session) : Prop := hs_ok s -> hs_ok s'.

#[export] Instance hs_keeps_preorder : PreOrder hs_keeps.
Proof. split; unfold hs_keeps; [intros s; done|]. intros s1 s2 s3. auto. Qed.

#[export] Instance hs_keeps_steps : HislipSteps (on_state hs_keeps).
Proof.
  assert (forall R A (m : IO R A), steady (on_state hs_forward) m -> steady (on_state hs_keeps) m) as Hsub
    by (intros R A m Hm w o E; exact (proj1 (Hm _ _ E))).
  split.
  - apply state_net_steps; [apply _|]. intros n s Hok. exact Hok.
  - intros R f Hf. apply Hsub, hst_update, Hf.
  - intros R. apply Hsub, hst_message_id.
  - intros R count options. apply Hsub, hst_read_ahead.
Qed.

Lemma hs_keeps_flags observing closed s : hs_keeps s (hs_with_flags observing closed s).
Proof. intros Hok. exact Hok. Qed.

Lemma hs_keeps_peer address id version maximum s :
  1 <= maximum <= kMaximumPayload -> hs_keeps s (hs_with_peer address id version maximum s).
Proof. intros Hmax (Hl & Hn & _ & Hrest). split; [done|]. split; [done|]. split; [done|]. exact Hrest. Qed.

Lemma hs_make_ok host sub_address port n : hs_ok (hs_make host sub_address port n).
Proof. unfold hs_ok, hs_make, kMaximumPayload. cbn. repeat split; lia || done. Qed.

Lemma read_u64_byte input v : are_bytes input -> read_u64 input = Some v -> 0 <= v.
Proof.
  intros Hb. unfold read_u64. assert (forall l (o : option Z) v, (forall x, o = Some x -> 0 <= x) ->
    foldl (fun value index => v ← value; b ← input !! index; Some (Z.lor (u64 (Z.shiftl v 8)) b)) o l = Some v ->
    0 <= v) as Hfold.
  { induction l as [|i l IH]; intros o v0 Ho; cbn [foldl]; [by apply Ho|]. apply IH.
    intros x. destruct o as [y|]; [|done]. destruct (input !! i) as [b|] eqn:Hi; [|done]. cbn. intros [= <-].
    apply Z.lor_nonneg. split; [apply Z.mod_pos_bound; lia|].
    apply (Forall_lookup_1 _ _ _ _ Hb) in Hi. destruct Hi. lia. }
  intros Hv. by eapply Hfold; [|exact Hv]; intros x [= <-].
Qed.

Section opening.
  Context `{!NetworkLaws N H}.

Lemma expected_bytes raw request expected w :
  (forall request, answers_bytes (raw request)) ->
  holds (exchange_expected raw request expected) w (fun o =>
    match o with Next f _ => are_bytes (f_payload f) | _ => True end).
Proof.
  intros Hraw. unfold exchange_expected. apply (holds_iter (fun _ _ => True)); [|done]. clear w request.
  intros request w _. unfold expected_turn, hs_exchange. do 2 apply holds_bind.
  eapply holds_mono; [apply Hraw|]. intros [[status bytes] w1|r w1] Ho; [|done]. destruct Ho as [Hb Hl].
  destruct (status <? VI_SUCCESS); [by apply holds_return|]. apply holds_bind. intros o. unfold decoded.
  destruct (decode_defined bytes Hb Hl) as (r & -> & Hframe). intros [= <-].
  destruct r as [f|]; [|by apply holds_bind, holds_modify, holds_return].
  case_bool_decide; [by apply holds_bind, holds_modify, holds_return|].
  case_bool_decide; [by apply holds_return|]. apply holds_ret.
  case_bool_decide; [apply holds_ret; by destruct (Hframe f eq_refl) as [_ (_ & _ & _ & ? & _)]|].
  case_bool_decide; [by apply holds_bind, holds_modify, holds_ret|].
  case_bool_decide; [by apply holds_ret|by apply holds_return].
Qed.

(** Steps before the peer's limit is known. *)
Lemma hs_keeps_peer_now {R} (f : Session -> Session) :
  (forall s, exists address id version, f s = hs_with_peer address id version (hs_maximum_outgoing_payload s) s) ->
  steady (on_state hs_keeps) (modify (H:=H) (R:=R) f).
Proof.
  intros Hf. apply steady_modify. intros [s op] Hok. cbn in *. destruct (Hf s) as (address & id & version & ->).
  apply hs_keeps_peer; [apply Hok|done].
Qed.

#[local] Hint Resolve hst_network ns_waiting hst_update ns_exchange ns_clock steps_remaining_timeout
  hs_steps_async hs_steps_sync hs_steps_expect hs_keeps_steps : wrio.

Lemma hs_keeps_connected ch : steady (on_state hs_keeps) (connected ch).
Proof.
  unfold connected. steady. intros w o. unfold connect.
  destruct (net_connect _ _ _ _ _) as [[[st address] n']|]; [|done]. intros [= <-] Hok. exact Hok.
Qed.
#[local] Hint Resolve hs_keeps_connected : wrio.

(** The last part of [open]: the limit the peer announces is at least one byte. *)
Lemma hs_open_limit w :
  holds (response <- expect id async_exchange (encode async_maximum_message_size 0 0 (append_u64 kMaximumPayload []))
                       async_maximum_message_size_response ;;
         if negb (length (f_payload response) =? 8)%nat then io_return VI_ERROR_IO
         else
           peer_maximum <- decoded (read_u64 (f_payload response)) ;;
           if peer_maximum =? 0 then io_return VI_ERROR_IO
           else
             modify (fun s => hs_with_peer (hs_address s) (hs_session_id s) (hs_negotiated_version s)
                                (Z.min peer_maximum kMaximumPayload) s) ;;
             modify (fun s => hs_with_flags true (hs_closed s) s) ;;
             io_ret VI_SUCCESS) w (fun o => on_state hs_keeps w (final o)).
Proof.
  apply holds_bind. unfold expect. apply holds_bind, holds_try.
  eapply holds_mono; [apply holds_and; [apply expected_bytes; intros; apply plain_call_bytes|
    apply holds_steady, (hs_steps_expected (on_state hs_keeps)); intros; apply hs_steps_async, _]|].
  intros [f w1|st w1] [Hb Hk]; [|by apply holds_return]. apply holds_ret.
  destruct (negb _); [by apply holds_return|]. apply holds_bind. intros o. unfold decoded.
  destruct (read_u64 (f_payload f)) as [v|] eqn:Hv; [|done]. intros [= <-].
  apply read_u64_byte in Hv; [|done]. destruct (Z.eqb_spec v 0); [by apply holds_return|].
  apply holds_bind, holds_modify, holds_bind, holds_modify, holds_ret. intros Hok.
  apply hs_keeps_flags, hs_keeps_peer; [|by apply Hk]. unfold kMaximumPayload. cbn. lia.
Qed.

Lemma hs_open_keeps : steady (on_state hs_keeps) hs_open_io.
Proof.
  assert (forall R A (m : IO R A), (forall w, holds m w (fun o => on_state hs_keeps w (final o))) ->
    steady (on_state hs_keeps) m) as Hholds by (intros R A m Hm w o; apply Hm).
  unfold hs_open_io. apply steady_bind; [apply _|steady|intros address].
  apply steady_bind; [apply _|apply hs_keeps_peer_now; intros; by do 3 eexists|intros _].
  apply steady_bind; [apply _|steady|intros request]. apply steady_bind; [apply _|steady|intros response].
  apply steady_bind; [apply _|apply hs_keeps_peer_now; intros; by do 3 eexists|intros _].
  destruct (version_refused _ _); [apply steady_return, _|].
  apply steady_bind; [apply _|steady|intros _]. apply steady_bind; [apply _|steady|intros _].
  apply Hholds, hs_open_limit.
Qed.

Lemma hs_create_ok host sub_address timeout port n s status n' :
  hs_create host sub_address timeout port n = Some (Some s, status, n') -> hs_ok s.
Proof.
  unfold hs_create. destruct (net_now _) as [now n1]. destruct (hs_open_io _) as [o|] eqn:Ho; [|done].
  apply hs_open_keeps in Ho. assert (hs_ok (final o).1) as Hok by (apply Ho, hs_make_ok).
  destruct o as [st [s1 op]|st [s1 op]]; destruct (st <? VI_SUCCESS); intros [= <- _ _]; exact Hok.
Qed.

End opening.

(** ** Safety *)

(** Closing closes both channels, once. *)
Lemma hs_close_spec s :
  hs_closed (hs_close_session s) = true /\
  hs_close_session (hs_close_session s) = hs_close_session s /\
  (hs_closed s = false ->
   hs_network (hs_close_session s) = net_close synchronous (net_close asynchronous (hs_network s))).
Proof. unfold hs_close_session. destruct (hs_closed s) eqn:Hc; cbn; rewrite ?Hc; done. Qed.

(** Locking and unlocking keep the remote lock flag in step with the device. *)
Lemma holds_expect {R} (raw : raw_exchange) f request expected w (Q : outcome (Session * Operation H) R Frame -> Prop) :
  (forall request, always_next (raw request)) ->
  (forall response w', Q (Next response w')) -> (forall st w', st < VI_SUCCESS -> Q (Return (f st) w')) ->
  holds (expect f raw request expected) w Q.
Proof.
  intros Hraw HN HR. unfold expect. apply holds_bind, holds_try.
  eapply holds_mono; [by apply negative_expected|]. intros [f' w1|st w1] Ho; [by apply holds_ret|by apply holds_return, HR].
Qed.

Lemma hs_lock_spec `{!NetworkLaws N H} lock_type key op s r :
  fails_only op -> be_lock op lock_type key s = Some r -> VI_SUCCESS <= cr_status r ->
  cr_status r = VI_SUCCESS /\ hs_remote_locked (cr_backend r) = true.
Proof.
  intros Hf Hr. refine (run_io_holds _ op s r (fun rp w => VI_SUCCESS <= rp_status rp ->
    rp_status rp = VI_SUCCESS /\ hs_remote_locked w.1 = true) _ Hr).
  unfold hs_lock_io. apply (with_io_holds turns); [done| |intros w Hw Hst; cbn in Hst; lia].
  intros w. apply holds_bind. eapply holds_mono; [apply next_remaining_timeout|]. intros [timeout w1|r1 w1] Ho; [|done].
  apply holds_bind, holds_expect; [apply next_async| |intros st w' Hst; cbn; lia]. intros response w2.
  destruct (_ =? 0); [by apply holds_return|]. destruct (negb _); [by apply holds_return|].
  by apply holds_bind, holds_modify, holds_ret.
Qed.

Lemma hs_unlock_spec `{!NetworkLaws N H} op s r :
  fails_only op -> be_unlock op s = Some r -> VI_SUCCESS <= cr_status r ->
  cr_status r = VI_SUCCESS /\ hs_remote_locked (cr_backend r) = false.
Proof.
  intros Hf Hr. refine (run_io_holds _ op s r (fun rp w => VI_SUCCESS <= rp_status rp ->
    rp_status rp = VI_SUCCESS /\ hs_remote_locked w.1 = false) _ Hr).
  unfold hs_unlock_io. apply holds_bind, holds_gets. cbn [fst]. destruct (hs_remote_locked s) eqn:Hl; cbn [negb].
  2:{ apply holds_return. done. }
  apply (with_io_holds turns); [done| |intros w Hw Hst; cbn in Hst; lia].
  intros w. apply holds_bind, holds_gets, holds_bind, holds_expect; [apply next_async| |intros st w' Hst; cbn; lia].
  intros response w2. destruct (_ && _); [by apply holds_return|]. by apply holds_bind, holds_modify, holds_ret.
Qed.


(** ** Every call returns *)

Section termination.
  Context `{!NetworkLaws N H} (remaining : N -> Z -> nat) `{!NetworkTimed N H remaining}.
  (** The turns are enough for the operations the session makes itself. *)
  Hypothesis recovery_turns : forall n, (remaining n ((net_now n).1 + 500) < turns)%nat.

Abbreviation left_of w := (remaining (own_transport (S:=Session) (fst w))).
Abbreviation onward := (onward (S:=Session) (H:=H) remaining).
Abbreviation total := (total (S:=Session) (H:=H) remaining turns).

#[local] Instance onward_hislip : HislipSteps onward.
Proof.
  split.
  - apply _.
  - intros R f Hf. apply steady_modify. intros [s op]. split; [done|]. intros d. cbn.
    destruct Hf; try done. unfold hs_close_session. destruct (hs_closed s); [done|]. cbn.
    etrans; apply net_close_passes.
  - intros R. unfold next_message_id. steady. by apply onward_modify.
  - intros R count options w o. unfold hs_read_ahead_io. destruct (hs_take_ahead _ _ _ _) as [[bytes ahead] tc].
    intros [= <-]. by apply onward_session.
Qed.

Abbreviation timely := (timely (S:=Session) (H:=H) turns remaining).

Lemma timely_async request : timely (async_exchange request).
Proof. apply (timely_plain_call turns remaining). Qed.

#[local] Hint Resolve hst_network ns_waiting hst_update hst_message_id hst_read_ahead ns_exchange ns_clock ns_under
  steps_remaining_timeout steps_acquire_io onward_hislip hs_steps_async hs_steps_sync hs_steps_expected
  hs_steps_exchange hs_steps_request_clear hs_steps_sync_call hs_steps_recovery hs_steps_after_failure
  hs_steps_with_io hs_steps_expect hs_steps_read_turn hs_steps_write_turn total_remaining_timeout
  total_complete : wrio.
#[local] Hint Constructors hs_update : wrio.

Lemma total_hs_exchange raw request : timely (raw request) -> total true (hs_exchange raw request).
Proof.
  intros [Hs Ht Hb _] w Hw. apply bind_returns; [by apply Ht|]. intros [status response] w1 E.
  destruct (Hb _ _ E) as [Hbytes Hlen]. destruct (status <? VI_SUCCESS); [by eexists|].
  destruct (decode_defined response Hbytes Hlen) as (r & -> & _). cbn. destruct r; repeat case_match; by eexists.
Qed.

Lemma spends_hs_exchange raw request w f w' d :
  timely (raw request) -> deadline_ w.2 = Some d -> hs_exchange raw request w = Some (Next f w') ->
  (left_of w' d < left_of w d)%nat.
Proof.
  intros [Hs Ht Hb Hsp] Hd. unfold hs_exchange, io_bind. destruct (raw request w) as [[[st resp] w1|r w1]|] eqn:E; [|done..].
  destruct (Z.ltb_spec st VI_SUCCESS) as [|Hst]; [done|]. specialize (Hsp _ _ _ _ _ Hd E Hst).
  unfold decoded. destruct (decode resp) as [[g|]|]; [|done|done].
  repeat (case_bool_decide; [done|]). intros [= <- <-]. exact Hsp.
Qed.

Lemma total_expected (raw : raw_exchange) request expected :
  (forall request, timely (raw request)) -> total true (exchange_expected raw request expected).
Proof.
  intros Hraw. unfold exchange_expected. apply total_loop.
  - intros x. unfold expected_turn. pose proof (timely_steady turns remaining _ (Hraw x)). steady.
  - intros x. unfold expected_turn. pose proof (timely_steady turns remaining _ (Hraw x)).
    apply total_bind; [steady|by apply total_hs_exchange|].
    intros f w _. repeat (case_bool_decide; [by eexists|]). by eexists.
  - intros x w x' w' d Hd. unfold expected_turn. unfold io_bind at 1.
    destruct (hs_exchange raw x w) as [[f w1|st w1]|] eqn:E; [|done..].
    pose proof (spends_hs_exchange raw x w f w1 d (Hraw x) Hd E) as Hsp.
    repeat (case_bool_decide; [by intros [= <- <-]|]). done.
Qed.

Lemma total_request_clear {R} timed : total timed (request_async_clear (R:=R)).
Proof.
  unfold request_async_clear. apply total_weaken. apply total_bind; [steady|by intros ? _; eexists|intros closed].
  apply total_bind; [steady|by intros ? _; eexists|intros requested]. destruct (_ || _); [by intros ? _; eexists|].
  apply total_bind; [steady|by intros ? _; eexists|intros _].
  apply total_bind; [steady; apply ns_under; steady| |intros r].
  - apply (total_under_timeout turns remaining); [done|done|]. apply total_try, total_expected, timely_async.
  - by intros ? _; eexists.
Qed.

Lemma timely_sync_call {R} framing request : timely (sync_call (R:=R) framing request).
Proof.
  apply (timely_observed_call turns remaining); [|apply total_request_clear].
  apply (hs_steps_request_clear onward).
Qed.

Lemma timely_sync request : timely (sync_exchange request).
Proof. apply timely_sync_call. Qed.

Lemma total_recovery {R} timed : total timed (complete_cancel_recovery (R:=R)).
Proof.
  unfold complete_cancel_recovery. apply total_weaken.
  apply total_bind; [steady|by intros ? _; eexists|intros finished].
  apply total_bind; [steady|by intros ? _; eexists|intros acknowledged]. destruct (_ || _); [by intros ? _; eexists|].
  apply total_bind; [steady; apply ns_under; steady| |intros r; by destruct r; intros ? _; eexists].
  apply (total_under_timeout turns remaining); [done|done|]. apply total_try, total_expected, timely_sync.
Qed.

Lemma total_after_failure {R} timed status : total timed (after_failure (R:=R) status).
Proof.
  unfold after_failure. destruct (cancelled status); [|by intros ? _; eexists].
  apply total_bind; [steady|apply total_recovery|by intros ? ? _; eexists].
Qed.

Lemma total_expect {R} f (raw : raw_exchange) request expected :
  (forall request, timely (raw request)) -> total true (expect (R:=R) f raw request expected).
Proof.
  intros Hraw. unfold expect. pose proof (fun request => timely_steady turns remaining _ (Hraw request)) as Hs.
  apply total_bind; [steady|by apply total_try, total_expected|]. intros [st|response] w _; by eexists.
Qed.

(** Every turn of a write sends a byte. *)
Lemma write_turn_shrinks options left w :
  holds (write_turn options left) w (fun o =>
    match o with
    | Next (inl left') _ => 1 <= hs_maximum_outgoing_payload w.1 -> (length left' < length left)%nat
    | _ => True
    end).
Proof.
  unfold write_turn. destruct left as [|b left]; [by apply holds_ret|].
  apply holds_bind, holds_gets, holds_bind. intros o [= <-].
  apply holds_bind. eapply holds_mono; [apply next_sync_call|]. intros [r w1|r w1] Ho; [|done].
  destruct (r.1 <? VI_SUCCESS).
  - apply holds_bind. eapply holds_mono; [apply after_failure_spec|]. by intros [st w2|st w2] Ho2; [apply holds_return|].
  - apply holds_ret. intros Hmax. rewrite length_drop. cbn [length]. lia.
Qed.

Lemma total_write_loop options left w :
  1 <= hs_maximum_outgoing_payload w.1 -> in_time remaining turns w ->
  is_Some (io_iter (write_fuel left) (write_turn options) left w).
Proof.
  intros Hmax Hw.
  apply (iter_returns (fun _ w => 1 <= hs_maximum_outgoing_payload w.1 /\ in_time remaining turns w)
    (fun left _ => length left)); [|done|unfold write_fuel; lia].
  clear left w Hmax Hw. intros left w [Hmax Hw].
  assert (total true (write_turn options left)) as Hturn.
  { unfold write_turn. destruct left; [by intros ? _; eexists|].
    apply total_bind; [steady|by intros ? _; eexists|intros maximum].
    apply total_bind; [steady|by intros ? _; eexists|intros id].
    apply total_bind; [steady|apply (timely_total turns remaining), timely_sync_call|intros [status response]].
    destruct (_ <? _); [|by intros ? _; eexists].
    apply total_bind; [steady|apply total_after_failure|by intros ? ? _; eexists]. }
  destruct (Hturn w (fun _ => Hw)) as [o Ho]. exists o. split; [done|].
  pose proof (hs_steps_write_turn onward options left w o Ho) as Hon.
  pose proof (hs_steps_write_turn (on_state hs_forward) options left w o Ho) as (_ & _ & Hm).
  destruct o as [[left'|u] w'|rp w']; [|done|done]. cbn [final] in *.
  split; [split; [by rewrite Hm|by eapply in_time_onward]|].
  exact (write_turn_shrinks options left w _ Ho Hmax).
Qed.

Lemma total_read_turn count options l : total true (hs_read_turn count options l).
Proof.
  unfold hs_read_turn. destruct (_ || _); [by intros ? _; eexists|].
  apply total_bind; [steady|apply total_try, total_hs_exchange, timely_sync|]. intros [st|f].
  - apply total_bind; [steady|by intros ? _; eexists|intros _].
    apply total_bind; [steady|apply total_after_failure|by intros ? ? _; eexists].
  - apply total_bind; [steady|by intros ? _; eexists|]. intros last w' _.
    destruct (negb _); [by eexists|]. destruct (_ && _); [by eexists|].
    destruct (hs_consume _ _ _ _ _ _) as [[? ?] ?]. by eexists.
Qed.

(** Every turn of a read that goes on has received a message. *)
Lemma read_turn_spends count options l w l' w' d :
  deadline_ w.2 = Some d -> hs_read_turn count options l w = Some (Next (inl l') w') ->
  (left_of w' d < left_of w d)%nat.
Proof.
  intros Hd. unfold hs_read_turn. destruct (_ || _); [done|]. unfold io_bind at 1, io_try.
  destruct (hs_exchange sync_exchange [] w) as [[f w1|st w1]|] eqn:E; [| |done].
  - pose proof (spends_hs_exchange _ _ _ _ _ d (timely_sync []) Hd E) as Hsp.
    unfold io_bind, get, io_gets, modify, io_modify. destruct (negb _); [done|]. destruct (_ && _); [done|].
    destruct (hs_consume _ _ _ _ _ _) as [[? ?] ?]. intros [= <- <-]. exact Hsp.
  - unfold io_bind, modify, io_modify. by destruct (after_failure _ _) as [[? ?|? ?]|].
Qed.

Lemma total_hs_read count options : total true (hs_read_io count options).
Proof.
  apply (total_with_io turns remaining). apply total_bind; [steady| |intros l].
  { intros w _. unfold hs_read_ahead_io. destruct (hs_take_ahead _ _ _ _) as [[? ?] ?]. by eexists. }
  apply total_bind; [steady| |intros l'].
  - apply total_loop; [intros x; apply hs_steps_read_turn, _|apply total_read_turn|apply read_turn_spends].
  - intros w _. unfold io_bind, complete. destruct (try_complete _ _) as [[] ?]; by eexists.
Qed.

Lemma hs_write_returns buffer options (w : Session * Operation H) :
  hs_ok w.1 -> in_time remaining turns w -> is_Some (hs_write_io buffer options w).
Proof.
  intros Hok Hw. unfold hs_write_io, with_io. apply bind_returns.
  { apply (total_acquire_io turns remaining). done. }
  intros [] w1 E; [|by eexists].
  pose proof (steps_acquire_io turns onward _ _ E) as Hon.
  pose proof (steps_acquire_io turns (on_state hs_forward) _ _ E) as (_ & _ & Hm). cbn [final] in *.
  apply bind_returns; [by eexists|]. intros [] w2 [= <-]. apply bind_returns.
  - apply total_write_loop; [|apply (in_time_onward _ _ w); [|done]].
    + cbn. rewrite Hm. destruct Hok as (_ & _ & ? & _). cbn. lia.
    + etrans; [exact Hon|]. by apply onward_session.
  - intros u w3 _. unfold io_bind, complete. destruct (try_complete _ _) as [[] ?]; by eexists.
Qed.

(** C23: every call of a HiSLIP session whose operation has a deadline returns
    when the exchanges of its channels do, however the device answers: the
    loops that wait for a certain frame or for the end of a message end with the
    exchanges that fit before the deadline, a write has a turn for every part of
    its buffer, and no decoder reads beyond what it is given. *)
Theorem hislip_calls_return c ro wo op s :
  hs_ok s -> in_time remaining turns (s, op) ->
  is_Some (backend_call c ro wo op s) /\
  (forall lock_type key, is_Some (be_lock op lock_type key s)) /\ is_Some (be_unlock op s).
Proof.
  intros Hok Hw.
  assert (forall m, is_Some (m (s, op)) -> is_Some (run_io m op s)) as Hrun.
  { intros m [o Ho]. unfold run_io. rewrite Ho. destruct o as [r [b' op']|r [b' op']]; by eexists. }
  assert (forall m, total true m -> is_Some (run_io m op s)) as Htotal by (intros m Hm; apply Hrun, Hm; done).
  split; [|split].
  - destruct c as [count|buffer| |mask|present|protocol|? ? ? ? ? ?]; cbn [backend_call].
    + apply Htotal, total_hs_read.
    + by apply Hrun, hs_write_returns.
    + apply Htotal, (total_with_io turns remaining).
      apply total_bind; [steady|apply total_expect, timely_async|intros _].
      apply total_bind; [steady|apply total_expect, timely_sync|by intros ? ? _; eexists].
    + cbn. unfold forward. destruct (hs_flush mask s) as [[st v] s']. by eexists.
    + apply Htotal. unfold hs_read_stb_io. destruct (negb present); [by intros ? _; eexists|]. apply (total_with_io turns remaining).
      apply total_bind; [steady|by intros ? _; eexists|intros id].
      apply total_bind; [steady|apply total_expect, timely_async|by intros ? ? _; eexists].
    + apply Htotal. unfold hs_assert_trigger_io. destruct (negb _); [by intros ? _; eexists|]. apply (total_with_io turns remaining).
      apply total_bind; [steady|by intros ? _; eexists|intros id].
      apply total_bind; [steady|apply (timely_total turns remaining), timely_sync_call|intros r].
      apply total_bind; [steady|apply total_after_failure|by intros ? ? _; eexists].
    + by eexists.
  - intros lock_type key. apply Htotal, (total_with_io turns remaining).
    apply total_bind; [steady|apply (total_remaining_timeout turns remaining)|intros timeout].
    apply total_bind; [steady|apply total_expect, timely_async|]. intros f w _. repeat case_match; by eexists.
  - apply Htotal. unfold hs_unlock_io. apply total_bind; [steady|by intros ? _; eexists|intros locked].
    destruct (negb locked); [by intros ? _; eexists|]. apply (total_with_io turns remaining).
    apply total_bind; [steady|by intros ? _; eexists|intros id].
    apply total_bind; [steady|apply total_expect, timely_async|]. intros f w _. repeat case_match; by eexists.
Qed.

End termination.

End hislip.

(** ** Witnesses *)

(** A session whose device takes four bytes at a time and gives these answers. *)
Definition hs_at (answers : list (Z * list Z * bool)) : HiSlipBackendSession net_script :=
  mkHiSlip (mkNetScript answers [] 0) (lit "dut") (lit "10.0.0.2") (lit "hislip0") 4880 7 0x0100
    0xFFFFFF00 0xFFFFFEFE 4 [] false 0 false false false false true false.

Definition pending_operation : Operation unit := mkOperation kPending (Some 100) None.

Definition answer (type : MessageType) (control parameter : Z) (payload : list Z) : Z * list Z * bool :=
  (VI_SUCCESS, encode type control parameter payload, false).

Lemma hs_at_ok answers : hs_ok (hs_at answers).
Proof. unfold hs_ok, hs_at, kMaximumPayload. cbn. repeat split; lia || done. Defined.


(** Six bytes in frames of four and two. *)
Lemma hislip_write_contract_witness :
  let options := mkWriteOptions true in
  let buffer := [42; 73; 68; 78; 63; 10] in
  let s := hs_at [(VI_SUCCESS, [], false); (VI_SUCCESS, [], false)] in
  exists r, run_io (hs_write_io 501 buffer options) pending_operation s = Some r /\
    cr_status r = VI_SUCCESS /\
    fst <$> sn_wire synchronous (hs_network (cr_backend r)) =
      [encode data 0 0xFFFFFF00 [42; 73; 68; 78]; encode data_end 0 0xFFFFFF02 [63; 10]] /\
    exists parts, concat parts = buffer /\
      hs_sent (sn_wire synchronous) options s parts [] (cr_backend r).
Proof.
  intros options buffer s. destruct (run_io _ pending_operation s) as [r|] eqn:Hr; [|vm_compute in Hr; discriminate].
  exists r. split; [done|]. assert (Hr' := Hr). vm_compute in Hr'. injection Hr' as <-.
  split; [reflexivity|]. split; [reflexivity|].
  pose proof (hislip_write_contract 501 (sn_wire synchronous) buffer options pending_operation s _ (hs_at_ok _)
    ltac:(done) Hr) as Hw. clear Hr.
  destruct Hw as (_ & _ & _ & _ & parts & Hparts & _ & Hsent & _). by exists parts.
Defined.


(** A device that sends other frames while a status byte is waited for. *)
Lemma hislip_calls_return_witness :
  let s := hs_at [answer async_service_request 64 0 []; answer async_interrupted 0 0 []] in
  is_Some (@backend_call _ _ (hs_backend 501) (IoReadStb true) (mkReadOptions false 0) (mkWriteOptions true)
    pending_operation s).
Proof.
  intros s. apply (hislip_calls_return 501 sn_remaining).
  - intros n. unfold sn_remaining. cbn. lia.
  - apply hs_at_ok.
  - exists 100. split; [done|]. vm_compute. lia.
Defined.

(** ** What goes wrong *)

(** A read that was cancelled after it had taken the end of its message puts the
    bytes back, but not the end: the next read waits for more. *)
Lemma hislip_cancelled_read_loses_end :
  let options := mkReadOptions false 0 in
  let s := hs_with_ahead [65; 66] true (hs_at []) in
  let aborted := mkOperation (H := unit) VI_ERROR_ABORT None None in
  let read op s := run_io (hs_read_io 501 8 options) op s in
  (cr_data <$> read pending_operation s) = Some [65; 66] /\
  let during :=
    (l <- hs_read_ahead_io 8 options ;;
     l <- io_iter 501 (hs_read_turn 501 8 options) l ;;
     won <- complete (hs_read_status 8 l) ;;
     modify (hs_restore (hl_data l)) ;;
     io_ret (R := reply) won) (s, aborted) in
  ((fun o => hs_events (final o).1) <$> during) = Some [Some 65; Some 66] /\
  (cr_status <$> (o ← during; read pending_operation (final o).1)) = Some VI_ERROR_CONN_LOST.
Proof. vm_compute. repeat split; reflexivity. Qed.

(** An operation that is cancelled between two exchanges of a read never calls
    the observer: the device was not asked for a clear, and the call reports a
    lost connection although the channels are open. *)
Lemma hislip_abort_between_exchanges :
  let s := hs_at [answer data 0 0xFFFFFEFE [65]; (VI_ERROR_ABORT, [], false)] in
  ((fun r => (cr_status r, hs_closed (cr_backend r))) <$>
    run_io (hs_read_io 501 8 (mkReadOptions false 0)) pending_operation s) = Some (VI_ERROR_CONN_LOST, false).
Proof. vm_compute. reflexivity. Qed.

(** When the device does not answer the clear, [clear_requested_] stays set: the
    observer of a later cancellation does not ask again, and every later
    cancellation is a lost connection, whatever the device would answer. *)
Lemma hislip_clear_is_asked_once :
  let s := hs_at [(VI_ERROR_ABORT, [], true); (VI_ERROR_TMO, [], false);
                  (VI_ERROR_ABORT, [], true); answer async_device_clear_acknowledge 0 0 [];
                  answer device_clear_acknowledge 0 0 []] in
  let read s := run_io (hs_read_io 501 8 (mkReadOptions false 0)) pending_operation s in
  (r ← read s; r' ← read (cr_backend r);
   Some (cr_status r, cr_status r', hs_clear_requested (cr_backend r'),
         sn_sent (hs_network (cr_backend r')))) =
    Some (VI_ERROR_CONN_LOST, VI_ERROR_CONN_LOST, true, []).
Proof. vm_compute. reflexivity. Qed.
