(* ===== verification/Vxi11Session.v ===== *)
(** * VXI-11 sessions: [backends/vxi11/vxi11_session.{h,cpp}]

    A core channel for the calls of the link and an abort channel, which the
    observer of a cancelled core call uses to abort the call at the device.
    The port of the core channel is asked from the port mapper.  The loops that
    read and that wait for the lock are given a number of [turns]. *)

From S2P Require Import Prelude Visa CText Operation Bytes Vxi11Protocol RequestChannel BackendSession Stream Io Timed Network.

(** ** Constants *)

Definition kMaximumRpcPayload : Z := 16 * 1024 * 1024.

(** The channels. *)
Definition core : nat := 0.
Definition abort : nat := 1.
Definition portmapper : nat := 2.

Definition map_device_error (error : Z) : Z :=
  if error =? 0 then VI_SUCCESS
  else if bool_decide (error ∈ [3; 4; 6]) then VI_ERROR_CONN_LOST
  else if bool_decide (error ∈ [5; 21]) then VI_ERROR_INV_PARAMETER
  else if error =? 8 then VI_ERROR_NSUP_OPER
  else if error =? 9 then VI_ERROR_ALLOC
  else if error =? 11 then VI_ERROR_RSRC_LOCKED
  else if error =? 12 then VI_ERROR_SESN_NLOCKED
  else if error =? 15 then VI_ERROR_TMO
  else if error =? 17 then VI_ERROR_IO
  else if error =? 23 then VI_ERROR_ABORT
  else if error =? 29 then VI_ERROR_RSRC_BUSY
  else VI_ERROR_IO.

(** ** The session *)

Record Vxi11BackendSession (N : Type) := mkVxi11 {
  vx_network : N;
  vx_host : str;
  vx_address : str;
  vx_device : str;
  vx_portmapper_port : Z;
  vx_core_port : Z;
  vx_abort_port : Z;
  vx_link_id : Z;
  vx_maximum_receive_size : Z;
  vx_next_xid : Z;
  vx_abort_requested : bool;
  vx_read_ahead : list Z;
  vx_observing : bool;
  vx_closed : bool }.
Arguments mkVxi11 {_} _ _ _ _ _ _ _ _ _ _ _ _ _ _.
Arguments vx_network {_} _.
Arguments vx_host {_} _.
Arguments vx_address {_} _.
Arguments vx_device {_} _.
Arguments vx_portmapper_port {_} _.
Arguments vx_core_port {_} _.
Arguments vx_abort_port {_} _.
Arguments vx_link_id {_} _.
Arguments vx_maximum_receive_size {_} _.
Arguments vx_next_xid {_} _.
Arguments vx_abort_requested {_} _.
Arguments vx_read_ahead {_} _.
Arguments vx_observing {_} _.
Arguments vx_closed {_} _.

Section setters.
  Context {N : Type}.
Abbreviation Session := (Vxi11BackendSession N).

Definition vx_with_network (n : N) (s : Session) : Session :=
  mkVxi11 n (vx_host s) (vx_address s) (vx_device s) (vx_portmapper_port s) (vx_core_port s) (vx_abort_port s)
    (vx_link_id s) (vx_maximum_receive_size s) (vx_next_xid s) (vx_abort_requested s) (vx_read_ahead s)
    (vx_observing s) (vx_closed s).

(** Where the device is: address and ports. *)
Definition vx_with_ports (address : str) (core_port abort_port : Z) (s : Session) : Session :=
  mkVxi11 (vx_network s) (vx_host s) address (vx_device s) (vx_portmapper_port s) core_port abort_port
    (vx_link_id s) (vx_maximum_receive_size s) (vx_next_xid s) (vx_abort_requested s) (vx_read_ahead s)
    (vx_observing s) (vx_closed s).

(** The link and how much it takes at a time. *)
Definition vx_with_link (link_id maximum : Z) (s : Session) : Session :=
  mkVxi11 (vx_network s) (vx_host s) (vx_address s) (vx_device s) (vx_portmapper_port s) (vx_core_port s)
    (vx_abort_port s) link_id maximum (vx_next_xid s) (vx_abort_requested s) (vx_read_ahead s)
    (vx_observing s) (vx_closed s).

Definition vx_with_xid (xid : Z) (s : Session) : Session :=
  mkVxi11 (vx_network s) (vx_host s) (vx_address s) (vx_device s) (vx_portmapper_port s) (vx_core_port s)
    (vx_abort_port s) (vx_link_id s) (vx_maximum_receive_size s) xid (vx_abort_requested s)
    (vx_read_ahead s) (vx_observing s) (vx_closed s).

Definition vx_with_abort (requested : bool) (s : Session) : Session :=
  mkVxi11 (vx_network s) (vx_host s) (vx_address s) (vx_device s) (vx_portmapper_port s) (vx_core_port s)
    (vx_abort_port s) (vx_link_id s) (vx_maximum_receive_size s) (vx_next_xid s) requested
    (vx_read_ahead s) (vx_observing s) (vx_closed s).

Definition vx_with_ahead (ahead : list Z) (s : Session) : Session :=
  mkVxi11 (vx_network s) (vx_host s) (vx_address s) (vx_device s) (vx_portmapper_port s) (vx_core_port s)
    (vx_abort_port s) (vx_link_id s) (vx_maximum_receive_size s) (vx_next_xid s) (vx_abort_requested s)
    ahead (vx_observing s) (vx_closed s).

(** [closed_] and whether the cancel observer is set. *)
Definition vx_with_flags (observing closed : bool) (s : Session) : Session :=
  mkVxi11 (vx_network s) (vx_host s) (vx_address s) (vx_device s) (vx_portmapper_port s) (vx_core_port s)
    (vx_abort_port s) (vx_link_id s) (vx_maximum_receive_size s) (vx_next_xid s) (vx_abort_requested s)
    (vx_read_ahead s) observing closed.

End setters.

#[export] Instance vx_owns {N} : OwnsTransport (Vxi11BackendSession N) N := {|
  own_transport := vx_network;
  own_with_transport := vx_with_network;
  own_transport_with n s := eq_refl;
  own_with_own s := ltac:(by destruct s);
  own_with_with n n' s := eq_refl |}.

Section vxi11.
  Context {N H : Type} `{Network N H}.
  Context (turns : nat).

Abbreviation Session := (Vxi11BackendSession N).
Abbreviation IO R A := (io (Session * Operation H) R A).

(** The constructor, and the channels it makes. *)
Definition vx_make (host device : str) (portmapper_port : Z) (n : N) : Session :=
  mkVxi11 (net_create abort kMaximumRpcPayload false (net_create core kMaximumRpcPayload true n))
    host [] device portmapper_port 0 0 0 (1024 * 1024) 1 false [] false false.

(** ** Calls

    A call of the device gives its status, or the result of the procedure. *)

Definition next_xid {R} : IO R Z :=
  xid <- get vx_next_xid ;;
  modify (vx_with_xid (u32 (xid + 1))) ;;
  io_ret xid.

Definition program_version (program : Z) : Z :=
  if program =? kPortmapperProgram then kPortmapperVersion else kProgramVersion.

(** [raw] is [RequestChannel::exchange] on the channel of the call. *)
Definition vx_call {R} (raw : list Z -> IO R (Z * list Z)) (program procedure : Z) (arguments : list Z)
  : IO R (Z + list Z) :=
  xid <- next_xid ;;
  let request := make_rpc_call xid program (program_version program) procedure arguments in
  if bool_decide (request = []) then io_ret (inl VI_ERROR_INV_SIZE)
  else
    r <- raw request ;;
    if r.1 <? VI_SUCCESS then io_ret (inl r.1)
    else io_ret (match parse_rpc_reply r.2 xid with
                 | None => inl VI_ERROR_IO
                 | Some payload => inr payload
                 end).

Definition abort_exchange {R} : list Z -> IO R (Z * list Z) := plain_call abort rpc_record.

(** The observer asks the device to abort the call, under an operation of its own. *)
Definition request_abort {R} : IO R unit :=
  link_id <- get vx_link_id ;;
  closed <- get vx_closed ;;
  if (link_id =? 0) || closed then io_ret tt
  else
    requested <- get vx_abort_requested ;;
    modify (vx_with_abort true) ;;
    if (requested : bool) then io_ret tt
    else
      under_timeout 250 (vx_call abort_exchange kDeviceAsyncProgram kDeviceAbort (writer_u32 link_id [])) ;;
      io_ret tt.

Definition core_exchange {R} : list Z -> IO R (Z * list Z) :=
  observed_call core vx_observing request_abort rpc_record.

(** A call of the core channel that fails ends the operation with its status. *)
Definition core_call (procedure : Z) (arguments : list Z) : IO reply (list Z) :=
  r <- vx_call core_exchange kDeviceCoreProgram procedure arguments ;;
  match r with inl status => io_return (status_only status) | inr result => io_ret result end.

(** [close] *)
Definition vx_close_io {R} : IO R unit :=
  closed <- get vx_closed ;;
  if (closed : bool) then io_ret tt
  else
    observing <- get vx_observing ;;
    modify (vx_with_flags observing true) ;;
    link_id <- get vx_link_id ;;
    (when negb (link_id =? 0) do
       (under_timeout 250 (vx_call core_exchange kDeviceCoreProgram kDestroyLink (writer_u32 link_id [])) ;;
        io_ret tt)) ;;
    close_channel abort ;;
    close_channel core.

(** ** Writing *)

(** [acquire_io] *)
Definition vx_with_io {A} (body : IO reply A) : IO reply A :=
  with_io turns (modify (vx_with_abort false) ;; body).

(** The arguments of [device_write] for the next part of a message. *)
Definition write_arguments (link_id io_timeout lock_timeout : Z) (last : bool) (part : list Z) : list Z :=
  writer_opaque part
    (writer_u32 (if last then kFlagEnd else 0)
       (writer_u32 lock_timeout (writer_u32 io_timeout (writer_u32 link_id [])))).

(** Error and count of a [device_write]. *)
Definition write_result (result : list Z) : option (Z * Z) :=
  let '(error, reader) := reader_u32 (reader_of result) in
  error ← error;
  let '(written, _) := reader_u32 reader in
  written ← written;
  Some (error, written).

(** One turn of the loop over what is left of the buffer. *)
Definition vx_write_turn (options : WriteOptions) (left : list Z) : IO reply (list Z + unit) :=
  match left with
  | [] => io_ret (inr tt)
  | _ =>
      maximum <- get vx_maximum_receive_size ;;
      let amount := Nat.min (length left) (Z.to_nat maximum) in
      link_id <- get vx_link_id ;;
      io_timeout <- remaining_timeout ;;
      lock_timeout <- remaining_timeout ;;
      result <- core_call kDeviceWrite
                  (write_arguments link_id io_timeout lock_timeout
                     (bool_decide (drop amount left = []) && wo_send_end options) (take amount left)) ;;
      match write_result result with
      | None => io_return (status_only VI_ERROR_IO)
      | Some (error, written) =>
          if Z.of_nat amount <? written then io_return (status_only VI_ERROR_IO)
          else
            let status := map_device_error error in
            if status <? VI_SUCCESS then complete status ;; return_result status_only
            else if negb (written =? Z.of_nat amount) then complete VI_ERROR_IO ;; return_result status_only
            else io_ret (inl (drop amount left))
      end
  end.

(** Every turn that goes on has written at least one byte. *)
Definition vx_write_fuel (buffer : list Z) : nat := S (length buffer).

Definition vx_write_io (buffer : list Z) (options : WriteOptions) : IO reply reply :=
  vx_with_io (
    io_iter (vx_write_fuel buffer) (vx_write_turn options) buffer ;;
    won <- complete VI_SUCCESS ;;
    if negb won then return_result status_only
    else io_ret (mkReply VI_SUCCESS (Z.of_nat (length buffer)) [])).

(** ** Reading *)

(** The local variables of [read]. *)
Record vx_locals := mkVxLocals { vl_data : list Z; vl_ended : bool; vl_ended_by_termchar : bool }.

(** The loop over the read-ahead: [data] and the rest. *)
Fixpoint vx_take_ahead (count : Z) (options : ReadOptions) (bytes ahead : list Z) : list Z * list Z :=
  match ahead with
  | [] => (bytes, [])
  | byte :: rest =>
      if Z.of_nat (length bytes) <? count then
        if is_termchar options byte then (bytes ++ [byte], rest)
        else vx_take_ahead count options (bytes ++ [byte]) rest
      else (bytes, ahead)
  end.

(** [data.back() == options.termchar] *)
Definition ends_with_termchar (options : ReadOptions) (bytes : list Z) : bool :=
  match last bytes with Some byte => is_termchar options byte | None => false end.

Definition vx_read_ahead_io {R} (count : Z) (options : ReadOptions) : IO R vx_locals :=
  ahead <- get vx_read_ahead ;;
  let '(bytes, ahead) := vx_take_ahead count options [] ahead in
  modify (vx_with_ahead ahead) ;;
  let ended := ends_with_termchar options bytes in
  io_ret (mkVxLocals bytes ended ended).

(** The loop over a chunk: [data], what is kept behind the read-ahead, and
    whether a termination character was found. *)
Fixpoint vx_consume (count : Z) (options : ReadOptions) (chunk bytes kept : list Z) : list Z * list Z * bool :=
  match chunk with
  | [] => (bytes, kept, false)
  | byte :: chunk =>
      let '(bytes, kept) :=
        if Z.of_nat (length bytes) <? count then (bytes ++ [byte], kept) else (bytes, kept ++ [byte]) in
      if is_termchar options byte then (bytes, kept ++ chunk, true)
      else vx_consume count options chunk bytes kept
  end.

(** [restore_data] *)
Definition vx_restore (bytes : list Z) (s : Session) : Session := vx_with_ahead (bytes ++ vx_read_ahead s) s.

Definition vx_keep (kept : list Z) (s : Session) : Session := vx_with_ahead (vx_read_ahead s ++ kept) s.

Definition read_arguments (link_id request_size io_timeout lock_timeout : Z) (options : ReadOptions) : list Z :=
  writer_u32 (ro_termchar options)
    (writer_u32 (if ro_termchar_enabled options then kFlagTermCharSet else 0)
       (writer_u32 lock_timeout (writer_u32 io_timeout (writer_u32 request_size (writer_u32 link_id []))))).

(** Error, reason and data of a [device_read]. *)
Definition read_result (result : list Z) : option (Z * Z * list Z) :=
  let '(error, reader) := reader_u32 (reader_of result) in
  error ← error;
  let '(reason, reader) := reader_u32 reader in
  reason ← reason;
  let '(chunk, _) := reader_opaque kMaximumRpcPayload reader in
  chunk ← chunk;
  Some (error, reason, chunk).

(** Giving up: the data go back in front of the read-ahead. *)
Definition give_back {A} (l : vx_locals) (finish : IO reply A) : IO reply A :=
  modify (vx_restore (vl_data l)) ;; finish.

(** What a turn does with the answer of the device. *)
Definition vx_read_answer (count : Z) (options : ReadOptions) (l : vx_locals) (r : Z + list Z)
  : IO reply (vx_locals + vx_locals) :=
  match r with
  | inl status => give_back l (io_return (status_only status))
  | inr result =>
      match read_result result with
      | None => give_back l (io_return (status_only VI_ERROR_IO))
      | Some (error, reason, chunk) =>
          let status := map_device_error error in
          if status <? VI_SUCCESS then complete status ;; give_back l (return_result status_only)
          else if bool_decide (chunk = []) && (reason =? 0)
          then give_back l (io_return (status_only VI_ERROR_IO))
          else
            let '(bytes, kept, termchar) := vx_consume count options chunk (vl_data l) [] in
            modify (vx_keep kept) ;;
            let by_device := negb (Z.land reason kReasonTermChar =? 0) in
            io_ret (inl (mkVxLocals bytes
              (vl_ended l || termchar || negb (Z.land reason kReasonEnd =? 0) || by_device)
              (vl_ended_by_termchar l || termchar || by_device)))
      end
  end.

(** One turn of the loop. *)
Definition vx_read_turn (count : Z) (options : ReadOptions) (l : vx_locals) : IO reply (vx_locals + vx_locals) :=
  if vl_ended l || negb (Z.of_nat (length (vl_data l)) <? count) then io_ret (inr l)
  else
    maximum <- get vx_maximum_receive_size ;;
    let request_size := Z.min (count - Z.of_nat (length (vl_data l))) maximum in
    link_id <- get vx_link_id ;;
    io_timeout <- remaining_timeout ;;
    lock_timeout <- remaining_timeout ;;
    r <- vx_call core_exchange kDeviceCoreProgram kDeviceRead
           (read_arguments link_id request_size io_timeout lock_timeout options) ;;
    vx_read_answer count options l r.

Definition vx_read_status (count : Z) (l : vx_locals) : Z :=
  if vl_ended_by_termchar l then VI_SUCCESS_TERM_CHAR
  else if Z.of_nat (length (vl_data l)) =? count then VI_SUCCESS_MAX_CNT else VI_SUCCESS.

Definition vx_read_io (count : Z) (options : ReadOptions) : IO reply reply :=
  vx_with_io (
    l <- vx_read_ahead_io count options ;;
    l <- io_iter turns (vx_read_turn count options) l ;;
    let status := vx_read_status count l in
    won <- complete status ;;
    if negb won then give_back l (return_result status_only)
    else io_ret (mkReply status (u32 (Z.of_nat (length (vl_data l)))) (vl_data l))).

(** ** The other operations *)

(** The status of a procedure whose result is its error. *)
Definition error_status (result : list Z) : Z :=
  match (reader_u32 (reader_of result)).1 with Some error => map_device_error error | None => VI_ERROR_IO end.

Definition generic_call (procedure : Z) : IO reply reply :=
  vx_with_io (
    link_id <- get vx_link_id ;;
    timeout <- remaining_timeout ;;
    io_timeout <- remaining_timeout ;;
    lock_timeout <- remaining_timeout ;;
    result <- core_call procedure
                (writer_u32 lock_timeout (writer_u32 io_timeout
                   (writer_u32 (if timeout =? 0 then 0 else kFlagWaitLock) (writer_u32 link_id [])))) ;;
    io_ret (status_only (error_status result))).

Definition vx_clear_io : IO reply reply :=
  r <- io_call (generic_call kDeviceClear) ;;
  (when VI_SUCCESS <=? rp_status r do modify (vx_with_ahead [])) ;;
  io_ret r.

Definition vx_assert_trigger_io (protocol : Z) : IO reply reply :=
  if negb (protocol =? VI_TRIG_PROT_DEFAULT) then io_return (status_only VI_ERROR_INV_PROT)
  else generic_call kDeviceTrigger.

(** [present] tells whether the [status_byte] pointer is not null. *)
Definition vx_read_stb_io (present : bool) : IO reply reply :=
  if negb present then io_return (status_only VI_ERROR_INV_PARAMETER)
  else
    vx_with_io (
      link_id <- get vx_link_id ;;
      io_timeout <- remaining_timeout ;;
      lock_timeout <- remaining_timeout ;;
      result <- core_call kDeviceReadStb
                  (writer_u32 lock_timeout (writer_u32 io_timeout (writer_u32 kFlagWaitLock (writer_u32 link_id [])))) ;;
      let '(error, reader) := reader_u32 (reader_of result) in
      let '(value, _) := reader_u32 reader in
      match error, value with
      | Some error, Some value =>
          if 255 <? value then io_return (status_only VI_ERROR_IO)
          else
            let status := map_device_error error in
            io_ret (mkReply status (if VI_SUCCESS <=? status then value else 0) [])
      | _, _ => io_return (status_only VI_ERROR_IO)
      end).

Definition vx_lock_io (lock_type : Z) (access_key : str) : IO reply reply :=
  if lock_type =? VI_SHARED_LOCK then io_return (status_only VI_SUCCESS)
  else
    vx_with_io (
      link_id <- get vx_link_id ;;
      timeout <- remaining_timeout ;;
      result <- core_call kDeviceLock (writer_u32 timeout (writer_u32 kFlagWaitLock (writer_u32 link_id []))) ;;
      io_ret (status_only (error_status result))).

Definition vx_unlock_io : IO reply reply :=
  vx_with_io (
    link_id <- get vx_link_id ;;
    result <- core_call kDeviceUnlock (writer_u32 link_id []) ;;
    io_ret (status_only (error_status result))).

Definition vx_flush (mask : Z) (s : Session) : Z * Z * Session :=
  if negb (valid_flush_mask mask) then (VI_ERROR_INV_MASK, 0, s)
  else (VI_SUCCESS, 0,
        if negb (Z.land mask (VI_READ_BUF_DISCARD + VI_IO_IN_BUF_DISCARD) =? 0)
        then vx_with_ahead [] s else s).

(** [close] returns as its call of the device does, which has a deadline. *)
Definition vx_close (s : Session) : Session :=
  match vx_close_io (R:=unit) (s, mkOperation kPending None None) with
  | Some o => (final o).1
  | None => s
  end.

(** ** Opening *)

(** [status = connect(...); if (status < VI_SUCCESS) return status;] *)
Definition vx_connected (ch : nat) (port : Z) : IO Z str :=
  host <- get vx_host ;;
  timeout <- remaining_timeout ;;
  r <- connect ch host port timeout ;;
  if r.1 <? VI_SUCCESS then io_return r.1 else io_ret r.2.

Definition mapping_arguments : list Z :=
  writer_u32 0 (writer_u32 kTcpProtocol (writer_u32 kProgramVersion (writer_u32 kDeviceCoreProgram []))).

(** The port mapper is a channel of its own, closed before [open] goes on and
    by its destructor. *)
Definition core_port_io : IO Z Z :=
  modify (fun s => vx_with_network (net_create portmapper (64 * 1024) false (vx_network s)) s) ;;
  port <- get vx_portmapper_port ;;
  r <- io_try (vx_connected portmapper port) ;;
  match r with
  | inl status => close_channel portmapper ;; io_return status
  | inr _ =>
      r <- vx_call (plain_call portmapper rpc_record) kPortmapperProgram kPortmapperGetPort mapping_arguments ;;
      close_channel portmapper ;;
      match r with
      | inl status => io_return status
      | inr result =>
          match (reader_u32 (reader_of result)).1 with
          | None => io_return VI_ERROR_RSRC_NFOUND
          | Some core_port =>
              if (core_port =? 0) || (65535 <? core_port) then io_return VI_ERROR_RSRC_NFOUND else io_ret core_port
          end
      end
  end.

(** What [create_link] answered: error, abort port and maximum; the link is kept
    as soon as it is read. *)
Definition link_io (result : list Z) : IO Z (Z * Z * Z) :=
  let '(error, reader) := reader_u32 (reader_of result) in
  match error with
  | None => io_return VI_ERROR_IO
  | Some error =>
      let '(link_id, reader) := reader_u32 reader in
      match link_id with
      | None => io_return VI_ERROR_IO
      | Some link_id =>
          modify (fun s => vx_with_link link_id (vx_maximum_receive_size s) s) ;;
          let '(abort_port, reader) := reader_u32 reader in
          match abort_port with
          | None => io_return VI_ERROR_IO
          | Some abort_port =>
              if 65535 <? abort_port then io_return VI_ERROR_IO
              else
                match (reader_u32 reader).1 with
                | None => io_return VI_ERROR_IO
                | Some maximum => io_ret (error, abort_port, maximum)
                end
          end
      end
  end.

Definition vx_open_io : IO Z Z :=
  core_port <- core_port_io ;;
  modify (fun s => vx_with_ports (vx_address s) core_port (vx_abort_port s) s) ;;
  address <- vx_connected core core_port ;;
  modify (fun s => vx_with_ports address (vx_core_port s) (vx_abort_port s) s) ;;
  client_id <- next_xid ;;
  timeout <- remaining_timeout ;;
  device <- get vx_device ;;
  r <- vx_call core_exchange kDeviceCoreProgram kCreateLink
         (writer_string device (writer_u32 timeout (writer_boolean false (writer_u32 client_id [])))) ;;
  match r with
  | inl status => io_return status
  | inr result =>
      link <- link_io result ;;
      let '(error, abort_port, maximum) := link in
      modify (fun s => vx_with_ports (vx_address s) (vx_core_port s) abort_port s) ;;
      let status := map_device_error error in
      if status <? VI_SUCCESS then io_return status
      else
        (when negb (maximum =? 0) do
           modify (fun s => vx_with_link (vx_link_id s) (Z.min maximum kMaximumRpcPayload) s)) ;;
        if abort_port =? 0 then io_return VI_ERROR_IO
        else
          vx_connected abort abort_port ;;
          modify (fun s => vx_with_flags true (vx_closed s) s) ;;
          io_ret VI_SUCCESS
  end.

(** [create]: the session, or none when [open] fails, and [status].  A session
    that is dropped is closed by its destructor. *)
Definition vx_create (host device : str) (timeout portmapper_port : Z) (n : N)
  : option (option Session * Z * N) :=
  let s := vx_make host device portmapper_port n in
  let '(now, n) := net_now (vx_network s) in
  match vx_open_io (vx_with_network n s, new_operation timeout now) with
  | Some (Next status (s, _)) | Some (Return status (s, _)) =>
      if status <? VI_SUCCESS then Some (None, status, vx_network (vx_close s))
      else Some (Some s, status, vx_network s)
  | None => None
  end.

(** ** The backend *)

#[export] Instance vx_backend : BackendSession Session H := {|
  be_read op count options := run_io (vx_read_io count options) op;
  be_write op buffer options := run_io (vx_write_io buffer options) op;
  be_clear op := run_io vx_clear_io op;
  be_flush op mask := forward (vx_flush mask) op;
  be_read_stb op present := run_io (vx_read_stb_io present) op;
  be_assert_trigger op protocol := run_io (vx_assert_trigger_io protocol) op;
  be_usb_control := default_usb_control;
  be_lock op lock_type key := run_io (vx_lock_io lock_type key) op;
  be_unlock op := run_io vx_unlock_io op;
  be_set_attribute := tcpip_set_attribute;
  be_get_attribute attribute s := tcpip_get_attribute (vx_address s) (vx_host s) (vx_core_port s) attribute;
  be_close := vx_close;
  be_notify_cancel s := s |}.

(** ** Steps

    A relation on the session and the operation that every step of the code
    respects is respected by every member function. *)

(** How the calls change the session. *)
Inductive vx_update : (Session -> Session) -> Prop :=
| vu_xid xid : vx_update (vx_with_xid (u32 xid))
| vu_abort requested : vx_update (vx_with_abort requested)
| vu_ahead ahead : vx_update (vx_with_ahead ahead)
| vu_restore bytes : vx_update (vx_restore bytes)
| vu_keep kept : vx_update (vx_keep kept).

Class VxiSteps (Rel : relation (Session * Operation H)) : Prop := {
  vst_network :: NetworkSteps Rel;
  vst_update R f : vx_update f -> steady Rel (modify (R:=R) f) }.

Section steps.
  Context (Rel : relation (Session * Operation H)) `{!VxiSteps Rel}.

#[local] Hint Constructors vx_update : wrio.
#[local] Hint Resolve vst_network ns_waiting vst_update ns_exchange ns_clock ns_under
  steps_remaining_timeout steps_acquire_io steps_under_timeout : wrio.

Lemma vx_steps_call {R} (raw : list Z -> IO R (Z * list Z)) program procedure arguments :
  (forall request, steady Rel (raw request)) -> steady Rel (vx_call raw program procedure arguments).
Proof. intros Hraw. unfold vx_call, next_xid. steady. Qed.
#[local] Hint Resolve vx_steps_call : wrio.

Lemma vx_steps_abort {R} request : steady Rel (abort_exchange (R:=R) request).
Proof. apply steps_plain_call, _. Qed.
#[local] Hint Resolve vx_steps_abort : wrio.

Lemma vx_steps_request_abort {R} : steady Rel (request_abort (R:=R)).
Proof. unfold request_abort. steady. Qed.

Lemma vx_steps_core {R} request : steady Rel (core_exchange (R:=R) request).
Proof. apply (steps_observed_call Rel), vx_steps_request_abort. Qed.
#[local] Hint Resolve vx_steps_core : wrio.

Lemma vx_steps_core_call procedure arguments : steady Rel (core_call procedure arguments).
Proof. unfold core_call. steady. Qed.
#[local] Hint Resolve vx_steps_core_call : wrio.

Lemma vx_steps_with_io {A} (body : IO reply A) : steady Rel body -> steady Rel (vx_with_io body).
Proof. intros Hb. apply (steps_with_io turns Rel). steady. Qed.
#[local] Hint Resolve vx_steps_with_io : wrio.

Lemma vx_steps_read_ahead {R} count options : steady Rel (vx_read_ahead_io (R:=R) count options).
Proof. unfold vx_read_ahead_io. steady. Qed.
#[local] Hint Resolve vx_steps_read_ahead : wrio.

Lemma vx_steps_generic procedure : steady Rel (generic_call procedure).
Proof. unfold generic_call. apply vx_steps_with_io. steady. Qed.
#[local] Hint Resolve vx_steps_generic : wrio.

Lemma vx_steps_lock lock_type key : steady Rel (vx_lock_io lock_type key).
Proof. unfold vx_lock_io. destruct (_ =? _); [steady|]. apply vx_steps_with_io. steady. Qed.

Lemma vx_steps_unlock : steady Rel vx_unlock_io.
Proof. apply vx_steps_with_io. steady. Qed.

(** The calls that complete their operation. *)
Section completing.
  Context (Hcomplete : forall R status, steady Rel (complete (R:=R) status)).
#[local] Hint Resolve Hcomplete : wrio.

Lemma vx_steps_write_turn options left : steady Rel (vx_write_turn options left).
Proof. unfold vx_write_turn. steady. Qed.

Lemma vx_steps_read_turn count options l : steady Rel (vx_read_turn count options l).
Proof. unfold vx_read_turn, vx_read_answer, give_back. steady. Qed.

#[local] Hint Resolve vx_steps_read_turn vx_steps_write_turn : wrio.

Lemma vx_steps_io_call c ro wo op s r :
  backend_call c ro wo op s = Some r ->
  Rel (s, op) (cr_backend r, cr_operation r) \/
  (exists mask, c = IoFlush mask) /\ cr_operation r = op /\
    (cr_backend r = s \/ cr_backend r = vx_with_ahead [] s).
Proof.
  intros Hr. destruct c as [count|buffer| |mask|present|protocol|? ? ? ? ? ?]; cbn in Hr;
    try (by injection Hr as <-; left; reflexivity).
  - left. eapply run_io_steady; [|exact Hr]. apply vx_steps_with_io. unfold give_back. steady.
  - left. eapply run_io_steady; [|exact Hr]. apply vx_steps_with_io. steady.
  - left. eapply run_io_steady; [|exact Hr]. unfold vx_clear_io. steady.
  - right. split; [by eexists|]. unfold vx_flush in Hr. destruct (negb (valid_flush_mask mask)).
    + injection Hr as <-. auto.
    + injection Hr as <-. cbn. case_match; auto.
  - left. eapply run_io_steady; [|exact Hr]. unfold vx_read_stb_io. destruct (negb present); [steady|].
    apply vx_steps_with_io. steady.
  - left. eapply run_io_steady; [|exact Hr]. unfold vx_assert_trigger_io. steady.
Qed.

End completing.

End steps.

(** ** The operation *)

Section laws.
  Context `{!NetworkLaws N H}.

#[export] Instance vx_later_steps : VxiSteps ops_later.
Proof. split; [apply _|]. intros. apply later_modify. Qed.

#[export] Instance vx_fails_steps : VxiSteps fails_on.
Proof. split; [apply _|]. intros. apply fails_modify. Qed.

#[export] Instance vx_laws : BackendLaws Session H.
Proof.
  split.
  - intros c ro wo op b r Hr.
    destruct (vx_steps_io_call ops_later (fun R st => later_complete st) _ _ _ _ _ _ Hr) as [[Hk _]|(_ & -> & _)]; done.
  - intros op lock_type key b r Hr Hf.
    exact (run_io_steady fails_on _ _ _ _ (vx_steps_lock fails_on lock_type key) Hr Hf).
  - intros op b r Hr Hf. exact (run_io_steady fails_on _ _ _ _ (vx_steps_unlock fails_on) Hr Hf).
Qed.

End laws.

(** ** Invariants of the session *)

(** Transaction ids are 32 bits wide, and the device takes at least one byte. *)
Definition vx_ok (s : Session) : Prop :=
  0 <= vx_next_xid s < 2 ^ 32 /\ 1 <= vx_maximum_receive_size s <= kMaximumRpcPayload.

(** What calls leave alone once a session is open. *)
Definition vx_forward (s s' : Session) : Prop :=
  (vx_ok s -> vx_ok s') /\ vx_closed s' = vx_closed s /\ vx_link_id s' = vx_link_id s /\
  vx_maximum_receive_size s' = vx_maximum_receive_size s.

#[export] Instance vx_forward_preorder : PreOrder vx_forward.
Proof.
  split; [done|]. intros s1 s2 s3 (A1 & B1 & C1 & D1) (A2 & B2 & C2 & D2).
  split; [auto|]. repeat split; congruence.
Qed.

Lemma u32_range x : 0 <= u32 x < 2 ^ 32.
Proof. apply Z.mod_pos_bound. lia. Qed.

Lemma vx_forward_update f : vx_update f -> forall s, vx_forward s (f s).
Proof.
  intros Hf s. destruct Hf; try (split; [|done]; intros Hok; exact Hok).
  split; [|done]. intros [_ Hm]. split; [apply u32_range|done].
Qed.

#[export] Instance vx_forward_steps : VxiSteps (on_state vx_forward).
Proof.
  split.
  - apply state_net_steps; [apply _|]. intros n s. split; [|done]. intros Hok. exact Hok.
  - intros R f Hf. apply state_modify. by apply vx_forward_update.
Qed.

(** ** Outcomes of the calls *)

Lemma next_vx_call {R} (raw : list Z -> IO R (Z * list Z)) program procedure arguments :
  (forall request, always_next (raw request)) -> always_next (vx_call raw program procedure arguments).
Proof.
  intros Hraw w. unfold vx_call, next_xid. apply holds_bind, holds_bind, holds_gets, holds_bind, holds_modify, holds_ret.
  cbn zeta. case_bool_decide; [by apply holds_ret|]. apply holds_bind.
  eapply holds_mono; [apply Hraw|]. intros [r w1|r w1] Ho; [|done].
  destruct (_ <? _); by apply holds_ret.
Qed.

Lemma holds_under {R A} timeout (m : IO R A) w (Q : outcome (Session * Operation H) R A -> Prop) :
  always_next m -> (forall a s, Q (Next a (s, w.2))) -> holds (under_timeout timeout m) w Q.
Proof.
  intros Hm HQ. unfold under_timeout. apply holds_bind. intros o. unfold net_clock.
  destruct (net_now _) as [now n]. intros [= <-] o'. unfold under. cbn [snd fst].
  destruct (m _) as [[a w'|b w']|] eqn:E; [|destruct (Hm _ _ E)|done]. intros [= <-]. apply HQ.
Qed.

Lemma next_request_abort {R} : always_next (request_abort (R:=R)).
Proof.
  intros w. unfold request_abort. apply holds_bind, holds_gets, holds_bind, holds_gets.
  destruct (_ || _); [by apply holds_ret|]. apply holds_bind, holds_gets, holds_bind, holds_modify.
  destruct (vx_abort_requested w.1); [by apply holds_ret|]. apply holds_bind, holds_under; [|by intros; apply holds_ret].
  apply next_vx_call, next_plain_call.
Qed.

Lemma next_core {R} request : always_next (core_exchange (R:=R) request).
Proof. apply next_observed_call, next_request_abort. Qed.

(** ** What a read returns *)

(** The result of the call in an exchange of the core channel: its reply is the
    one to the transaction of its request. *)
Definition call_result_of (exchange : list Z * list Z) : option (list Z) :=
  xid ← read_be32 exchange.1 4; parse_rpc_reply exchange.2 xid.

Lemma call_result_of_call xid program version procedure arguments response :
  0 <= xid < 2 ^ 32 -> make_rpc_call xid program version procedure arguments ≠ [] ->
  call_result_of (make_rpc_call xid program version procedure arguments, response) = parse_rpc_reply response xid.
Proof.
  intros Hx. rewrite make_rpc_call_layout. destruct (_ <? _); [done|]. intros _. unfold call_result_of.
  cbn [fst snd]. rewrite (read_be32_app (be32 _) xid); done.
Qed.

(** What a [device_read] delivers. *)
Definition delivered (exchange : list Z * list Z) : list Z :=
  match call_result_of exchange ≫= read_result with
  | Some (error, _, chunk) => if map_device_error error <? VI_SUCCESS then [] else chunk
  | None => []
  end.

(** Why a [device_read] has ended, by the device. *)
Definition reason_of (exchange : list Z * list Z) : option Z :=
  (fun '(_, reason, _) => reason) <$> (call_result_of exchange ≫= read_result).

(** Steps that leave the read-ahead and the link alone. *)
Definition vx_quiet (s s' : Session) : Prop :=
  vx_read_ahead s' = vx_read_ahead s /\ vx_link_id s' = vx_link_id s /\
  vx_maximum_receive_size s' = vx_maximum_receive_size s /\ (vx_ok s -> vx_ok s').

#[export] Instance vx_quiet_preorder : PreOrder vx_quiet.
Proof.
  split; [done|]. intros s1 s2 s3 (A1 & B1 & C1 & D1) (A2 & B2 & C2 & D2). repeat split; try congruence; apply D2, D1; done.
Qed.

Lemma vx_quiet_network (n : N) (s : Session) : vx_quiet s (own_with_transport n s).
Proof. done. Qed.

Lemma vx_quiet_xid xid s : vx_quiet s (vx_with_xid (u32 xid) s).
Proof. do 3 (split; [done|]). intros [_ Hm]. split; [apply u32_range|done]. Qed.

Section view.
  Context `{!NetworkLaws N H} (wire : N -> list (list Z * list Z)) `{!NetworkView N H core wire}.

Abbreviation calm := (calm wire vx_quiet).
Abbreviation exchanged := (exchanged wire vx_quiet).

#[local] Instance vx_calm_waits : WaitingSteps (on_state calm).
Proof. exact (calm_waits core wire vx_quiet vx_quiet_network). Qed.

Lemma vx_calm_xid {R} : steady (on_state calm) (next_xid (R:=R)).
Proof.
  unfold next_xid. assert (forall xid, steady (on_state calm) (modify (B:=Session) (H:=H) (R:=R) (vx_with_xid (u32 xid)))) as Hm
    by (intros xid; apply state_modify; intros s; split; [apply vx_quiet_xid|done]).
  steady.
Qed.

Lemma vx_calm_request_abort {R} : steady (on_state calm) (request_abort (R:=R)).
Proof.
  assert (forall R, steady (on_state calm) (modify (B:=Session) (H:=H) (R:=R) (vx_with_abort true))) as Hm
    by (intros; by apply state_modify).
  assert (forall R request, steady (on_state calm) (abort_exchange (R:=R) request)) as Hx
    by (intros; by apply (calm_plain_call core wire vx_quiet vx_quiet_network)).
  pose proof @vx_calm_xid. unfold request_abort.
  do 2 (apply steady_bind; [apply _|steady|intros ?]). case_match; [steady|].
  do 2 (apply steady_bind; [apply _|steady|intros ?]). case_match; [steady|].
  apply steady_bind; [apply _| |intros; steady]. apply steps_under_timeout; [apply _|].
  unfold vx_call. steady.
Qed.

Lemma core_exchange_spec {R} request w :
  holds (core_exchange (R:=R) request) w (fun o =>
    match o with Next (status, response) w' => exchanged request status response w w' | Return _ _ => False end).
Proof.
  apply (observed_call_spec core wire vx_quiet vx_quiet_network);
    [apply next_request_abort|apply vx_calm_request_abort|apply (vx_steps_request_abort fails_on)].
Qed.

(** A call of the device has its result, or fails and delivers nothing. *)
Definition called (program procedure : Z) (arguments : list Z) (r : Z + list Z) (new : list (list Z * list Z)) : Prop :=
  match r with
  | inl status => status < VI_SUCCESS /\ concat (delivered <$> new) = []
  | inr payload => exists xid response, 0 <= xid < 2 ^ 32 /\ are_bytes payload /\
      new = [(make_rpc_call xid program (program_version program) procedure arguments, response)] /\
      Forall (fun exchange => call_result_of exchange = Some payload) new
  end.

Lemma core_call_result {R} program procedure arguments w :
  vx_ok w.1 ->
  holds (vx_call (core_exchange (R:=R)) program procedure arguments) w (fun o =>
    match o with
    | Next r w' => fails_on w w' /\ vx_quiet w.1 w'.1 /\ exists new,
        wire (vx_network w'.1) = wire (vx_network w.1) ++ new /\ called program procedure arguments r new
    | Return _ _ => False
    end).
Proof.
  intros Hok. unfold vx_call, next_xid. apply holds_bind, holds_bind, holds_gets, holds_bind, holds_modify, holds_ret.
  cbn zeta. set (xid := vx_next_xid w.1). set (request := make_rpc_call _ _ _ _ _).
  set (w0 := (vx_with_xid (u32 (xid + 1)) w.1, w.2)).
  assert (vx_quiet w.1 w0.1) as Hq0 by apply vx_quiet_xid.
  case_bool_decide as Hempty.
  { apply holds_ret. split; [by intros Hf|]. split; [done|]. exists []. by rewrite app_nil_r. }
  apply holds_bind. eapply holds_mono; [apply core_exchange_spec|]. intros [[status response] w1|r w1] Ho; [|done].
  destruct Ho as (Hf & Hq & Hb & Hl & Hw). cbn [fst snd].
  assert (vx_quiet w.1 w1.1) as Hq1 by (etrans; [exact Hq0|exact Hq]).
  assert (call_result_of (request, response) = parse_rpc_reply response xid) as Hparse
    by (apply call_result_of_call; [apply Hok|done]).
  destruct (Z.ltb_spec status VI_SUCCESS) as [Hst|Hst].
  { rewrite (proj2 (Z.leb_gt _ _)) in Hw by done. apply holds_ret. split; [exact Hf|]. split; [done|].
    exists []. split; [exact Hw|]. done. }
  rewrite (proj2 (Z.leb_le _ _)) in Hw by done. apply holds_ret. split; [exact Hf|]. split; [done|].
  exists [(request, response)]. split; [exact Hw|]. destruct (parse_rpc_reply response xid) as [payload|] eqn:Hp.
  - exists xid, response. split; [apply Hok|]. split; [|split; [done|by apply Forall_singleton]].
    by apply (parsed_bytes _ _ _ Hb Hp).
  - split; [done|]. unfold delivered. cbn. by rewrite Hparse.
Qed.

Lemma holds_timeout {R A} (k : Z -> IO R A) w (Q : outcome (Session * Operation H) R A -> Prop) :
  (forall timeout w', fails_on w w' -> calm w.1 w'.1 -> holds (k timeout) w' Q) ->
  holds (io_bind remaining_timeout k) w Q.
Proof.
  intros Hk. apply holds_bind.
  eapply holds_mono; [apply holds_and; [apply next_remaining_timeout|apply holds_and;
    [apply holds_steady, (steps_remaining_timeout (on_state calm))
    |apply holds_steady, (steps_remaining_timeout fails_on)]]|].
  intros [timeout w'|r w'] (Ho & Hc & Hf); [|done]. by apply Hk.
Qed.

Section reading.
  Context (count : Z) (options : ReadOptions) (s0 : Session).

(** What the session had read ahead and what its device has delivered since is
    [taken], followed by what is kept. *)
Definition vx_stream (new : list (list Z * list Z)) (taken : list Z) (s : Session) : Prop :=
  wire (vx_network s) = wire (vx_network s0) ++ new /\
  vx_read_ahead s0 ++ concat (delivered <$> new) = taken ++ vx_read_ahead s.

(** The last exchange has ended for this reason. *)
Definition device_says (flag : Z) (new : list (list Z * list Z)) : Prop :=
  exists exchange reason, last new = Some exchange /\ reason_of exchange = Some reason /\ Z.land reason flag ≠ 0.

(** Why a read ends with VI_SUCCESS_TERM_CHAR: the data end with the character,
    the device says so, or the character is behind the data. *)
Definition termchar_reason (new : list (list Z * list Z)) (bytes ahead : list Z) : Prop :=
  ends_with_termchar options bytes = true \/ device_says kReasonTermChar new \/
  Z.of_nat (length bytes) = count /\ exists byte, byte ∈ ahead /\ is_termchar options byte = true.

Definition vx_data_ok (bytes : list Z) : Prop :=
  Z.of_nat (length bytes) <= count /\ termchar_ok options bytes (ends_with_termchar options bytes).

Definition vx_ended_ok (l : vx_locals) (new : list (list Z * list Z)) (ahead : list Z) : Prop :=
  (ends_with_termchar options (vl_data l) = true -> vl_ended_by_termchar l = true) /\
  (vl_ended_by_termchar l = true -> vl_ended l = true /\ termchar_reason new (vl_data l) ahead) /\
  (vl_ended l = true -> vl_ended_by_termchar l = true \/ device_says kReasonEnd new) /\
  (Z.of_nat (length (vl_data l)) = count \/ vl_ended l = true \/ ahead = []).

Definition vx_inv (l : vx_locals) (w : Session * Operation H) : Prop :=
  fails_only w.2 /\ vx_ok w.1 /\ vx_data_ok (vl_data l) /\
  exists new, vx_stream new (vl_data l) w.1 /\ vx_ended_ok l new (vx_read_ahead w.1).

(** A read that hands out nothing has lost nothing. *)
Definition vx_failed (rp : reply) (w : Session * Operation H) : Prop :=
  rp_status rp < VI_SUCCESS /\ rp_data rp = [] /\ rp_value rp = 0 /\ exists new, vx_stream new [] w.1.

(** A read that hands out the next bytes of the stream. *)
Definition vx_handed_out (rp : reply) (w : Session * Operation H) : Prop :=
  op_result w.2 = rp_status rp /\ rp_value rp = Z.of_nat (length (rp_data rp)) /\ vx_data_ok (rp_data rp) /\
  exists new, vx_stream new (rp_data rp) w.1 /\
    (rp_status rp = VI_SUCCESS_TERM_CHAR /\ termchar_reason new (rp_data rp) (vx_read_ahead w.1) \/
     ends_with_termchar options (rp_data rp) = false /\
     (rp_status rp = VI_SUCCESS_MAX_CNT /\ Z.of_nat (length (rp_data rp)) = count \/
      rp_status rp = VI_SUCCESS /\ Z.of_nat (length (rp_data rp)) < count /\ device_says kReasonEnd new)).

Lemma ends_with_snoc bytes b : ends_with_termchar options (bytes ++ [b]) = is_termchar options b.
Proof. unfold ends_with_termchar. by rewrite last_snoc. Qed.

Lemma ends_with_none bytes : termchar_ok options bytes false -> ends_with_termchar options bytes = false.
Proof.
  unfold ends_with_termchar, termchar_ok, is_termchar. destruct (last bytes) as [b|] eqn:Hl; [|done].
  destruct (ro_termchar_enabled options); [|done]. intros Hn. cbn. apply Z.eqb_neq. intros ->.
  apply last_Some in Hl as [pre ->]. apply Hn; [done|]. rewrite elem_of_app, list_elem_of_singleton. auto.
Qed.

Lemma vx_take_ahead_spec ahead : forall bytes bytes' ahead',
  Z.of_nat (length bytes) <= count -> termchar_ok options bytes false ->
  vx_take_ahead count options bytes ahead = (bytes', ahead') ->
  vx_data_ok bytes' /\ bytes' ++ ahead' = bytes ++ ahead /\
  (Z.of_nat (length bytes') = count \/ ends_with_termchar options bytes' = true \/ ahead' = []).
Proof.
  induction ahead as [|b ahead IH]; intros bytes bytes' ahead' Hl Ht; cbn [vx_take_ahead].
  { intros [= <- <-]. split; [split; [done|by rewrite ends_with_none]|auto]. }
  destruct (Z.ltb_spec (Z.of_nat (length bytes)) count) as [Hlt|Hge].
  2:{ intros [= <- <-]. split; [split; [done|by rewrite ends_with_none]|]. split; [done|]. left. lia. }
  pose proof (termchar_ok_snoc options bytes b Ht) as Hs.
  assert (Z.of_nat (length (bytes ++ [b])) <= count) as Hl' by (rewrite length_app; cbn; lia).
  destruct (is_termchar options b) eqn:Htc.
  - intros [= <- <-]. unfold vx_data_ok. rewrite ends_with_snoc, Htc. rewrite <- app_assoc. auto.
  - intros (Hd & He & Hf)%IH; [|done|done]. by rewrite He, <- app_assoc.
Qed.

Lemma vx_consume_spec chunk : forall bytes kept bytes' kept' tc,
  Z.of_nat (length bytes) <= count -> termchar_ok options bytes false ->
  (kept ≠ [] -> Z.of_nat (length bytes) = count) ->
  vx_consume count options chunk bytes kept = (bytes', kept', tc) ->
  vx_data_ok bytes' /\ bytes' ++ kept' = bytes ++ kept ++ chunk /\
  (ends_with_termchar options bytes' = true -> tc = true) /\
  (tc = true -> ends_with_termchar options bytes' = true \/
     Z.of_nat (length bytes') = count /\ exists byte, byte ∈ kept' /\ is_termchar options byte = true) /\
  (kept' ≠ [] -> Z.of_nat (length bytes') = count \/ tc = true).
Proof.
  induction chunk as [|b chunk IH]; intros bytes kept bytes' kept' tc Hl Ht Hk; cbn [vx_consume].
  { intros [= <- <- <-]. rewrite app_nil_r. unfold vx_data_ok. rewrite (ends_with_none bytes) by done.
    repeat split; auto; done. }
  destruct (Z.ltb_spec (Z.of_nat (length bytes)) count) as [Hlt|Hge].
  - assert (kept = []) as -> by (destruct kept; [done|]; specialize (Hk ltac:(done)); lia).
    pose proof (termchar_ok_snoc options bytes b Ht) as Hs.
    assert (Z.of_nat (length (bytes ++ [b])) <= count) as Hl' by (rewrite length_app; cbn; lia).
    destruct (is_termchar options b) eqn:Htc.
    + intros [= <- <- <-]. unfold vx_data_ok. rewrite ends_with_snoc, Htc, <- app_assoc. auto 10.
    + intros (Hd & He & Hrest)%IH; [|done..]. rewrite He, <- app_assoc. auto.
  - destruct (is_termchar options b) eqn:Htc.
    + intros [= <- <- <-]. unfold vx_data_ok. rewrite (ends_with_none bytes) by done. split; [done|].
      split; [by rewrite <- app_assoc|]. split; [done|]. split; [|auto]. intros _. right. split; [lia|].
      exists b. split; [|done]. rewrite !elem_of_app, list_elem_of_singleton. auto.
    + intros (Hd & He & Hrest)%IH; [|done..|lia]. rewrite He, <- (app_assoc kept). auto.
Qed.

(** What follows steps that keep the session quiet and deliver [more]. *)
Lemma vx_stream_quiet new more taken s s' :
  vx_quiet s s' -> wire (vx_network s') = wire (vx_network s) ++ more -> vx_stream new taken s ->
  wire (vx_network s') = wire (vx_network s0) ++ new ++ more /\
  vx_read_ahead s0 ++ concat (delivered <$> new ++ more) =
    taken ++ vx_read_ahead s' ++ concat (delivered <$> more).
Proof.
  intros (Ha & _) Hw [Hold Hs]. split; [by rewrite Hw, Hold, app_assoc|].
  by rewrite fmap_app, concat_app, app_assoc, Hs, Ha, <- app_assoc.
Qed.

(** Giving up, when nothing more was delivered. *)
Lemma give_back_spec {A} l (w w1 : Session * Operation H) new more (finish : IO reply A) :
  vx_stream new (vl_data l) w.1 -> vx_quiet w.1 w1.1 ->
  wire (vx_network w1.1) = wire (vx_network w.1) ++ more -> concat (delivered <$> more) = [] ->
  (forall w', vx_stream (new ++ more) [] w'.1 -> w'.2 = w1.2 -> holds finish w' (fun o =>
     match o with Next _ _ => False | Return rp w'' =>
       rp_status rp < VI_SUCCESS /\ rp_data rp = [] /\ rp_value rp = 0 /\ w''.1 = w'.1 end)) ->
  holds (give_back l finish) w1 (fun o => match o with Next _ _ => False | Return rp w' => vx_failed rp w' end).
Proof.
  intros Hs Hq Hw Hnone Hfin. destruct (vx_stream_quiet _ _ _ _ _ Hq Hw Hs) as [Hw' Hs'].
  rewrite Hnone, app_nil_r in Hs'. apply holds_bind, holds_modify.
  assert (vx_stream (new ++ more) [] (vx_restore (vl_data l) w1.1)) as Hstream by (split; [exact Hw'|by rewrite Hs']).
  eapply holds_mono; [by apply Hfin|]. intros [a w'|rp w'] Ho; [done|].
  destruct Ho as (Hst & Hd & Hv & Heq). split; [done|]. split; [done|]. split; [done|]. exists (new ++ more).
  by rewrite Heq.
Qed.

Lemma finish_with {A} status (w : Session * Operation H) :
  status < VI_SUCCESS ->
  holds (io_return (A:=A) (status_only status)) w (fun o =>
    match o with Next _ _ => False | Return rp w'' =>
      rp_status rp < VI_SUCCESS /\ rp_data rp = [] /\ rp_value rp = 0 /\ w''.1 = w.1 end).
Proof. intros Hst. by apply holds_return. Qed.

Lemma finish_with_result {A} (w : Session * Operation H) :
  op_result w.2 < VI_SUCCESS ->
  holds (return_result (A:=A) status_only) w (fun o =>
    match o with Next _ _ => False | Return rp w'' =>
      rp_status rp < VI_SUCCESS /\ rp_data rp = [] /\ rp_value rp = 0 /\ w''.1 = w.1 end).
Proof. intros Hst. by apply holds_return_result. Qed.

Lemma device_says_one flag exchange new result error reason chunk :
  call_result_of exchange = Some result -> read_result result = Some (error, reason, chunk) ->
  Z.land reason flag ≠ 0 -> device_says flag (new ++ [exchange]).
Proof.
  intros Hc Hr Hf. exists exchange, reason. split; [by rewrite last_snoc|]. split; [|done].
  unfold reason_of. rewrite Hc. cbn. by rewrite Hr.
Qed.

(** A turn that keeps a chunk. *)
Lemma vx_keep_inv l w w1 new exchange result error reason chunk bytes kept tc :
  vx_inv l w -> vl_ended l = false -> Z.of_nat (length (vl_data l)) < count ->
  vx_stream new (vl_data l) w.1 -> vx_ended_ok l new (vx_read_ahead w.1) ->
  fails_on w w1 -> vx_quiet w.1 w1.1 -> wire (vx_network w1.1) = wire (vx_network w.1) ++ [exchange] ->
  call_result_of exchange = Some result -> read_result result = Some (error, reason, chunk) ->
  VI_SUCCESS <= map_device_error error ->
  vx_consume count options chunk (vl_data l) [] = (bytes, kept, tc) ->
  let by_device := negb (Z.land reason kReasonTermChar =? 0) in
  vx_inv (mkVxLocals bytes
            (vl_ended l || tc || negb (Z.land reason kReasonEnd =? 0) || by_device)
            (vl_ended_by_termchar l || tc || by_device)) (vx_keep kept w1.1, w1.2).
Proof.
  intros (Hf & Hok & [Hl Ht] & _) Hnend Hlt Hs (Hfound & Hby & Hend & Hfull) Hf1 Hq Hw Hres Hread Hst Hc by_device.
  assert (vl_ended_by_termchar l = false) as Hnby by (destruct (vl_ended_by_termchar l); [by destruct (Hby eq_refl); congruence|done]).
  assert (ends_with_termchar options (vl_data l) = false) as Hnf by (destruct (ends_with_termchar _ _); [specialize (Hfound eq_refl); congruence|done]).
  rewrite Hnf in Ht. assert (vx_read_ahead w.1 = []) as Ha by (destruct Hfull as [?|[?|?]]; [lia|congruence|done]).
  destruct (vx_consume_spec chunk _ _ _ _ _ Hl Ht ltac:(done) Hc) as (Hdata & Hb & Htc1 & Htc2 & Hkept).
  destruct (vx_stream_quiet _ _ _ _ _ Hq Hw Hs) as [Hw' Hs'].
  assert (vx_read_ahead w1.1 = []) as Ha1 by (destruct Hq as (-> & _); done).
  rewrite Hnend, Hnby. cbn [orb]. split; [by apply Hf1|]. split; [by apply Hq|]. split; [exact Hdata|].
  exists (new ++ [exchange]). split.
  - split; [exact Hw'|]. rewrite Hs'. cbn [fst vx_keep vx_with_ahead vx_read_ahead fmap list_fmap concat].
    rewrite Ha1. cbn [app vl_data] in Hb |- *. rewrite Hb. unfold delivered. rewrite Hres. cbn. rewrite Hread, app_nil_r.
    by rewrite (proj2 (Z.ltb_ge _ _)).
  - assert (vx_read_ahead (vx_keep kept w1.1) = kept) as Hk by (cbn; by rewrite Ha1).
    cbn [fst]. rewrite Hk. unfold vx_ended_ok. cbn [vl_data vl_ended vl_ended_by_termchar]. split; [|split; [|split]].
    + intros Hfd. by rewrite Htc1.
    + intros [Htc|Hdev]%orb_true_iff.
      * rewrite Htc. split; [done|]. destruct (Htc2 Htc) as [?|?]; [by left|by right; right].
      * split; [by rewrite Hdev, orb_true_r|]. right; left. unfold by_device in Hdev.
        apply negb_true_iff, Z.eqb_neq in Hdev. by eapply device_says_one.
    + intros [[Htc|Hdev]%orb_true_iff|Hdev]%orb_true_iff; [rewrite Htc; by left|right|rewrite Hdev, orb_true_r; by left].
      apply negb_true_iff, Z.eqb_neq in Hdev. by eapply device_says_one.
    + destruct kept as [|b kept]; [auto|]. destruct (Hkept ltac:(done)) as [?|Htc]; [auto|]. rewrite Htc. auto.
Qed.

Lemma vx_inv_calm l w w' : fails_on w w' -> calm w.1 w'.1 -> vx_inv l w -> vx_inv l w'.
Proof.
  intros Hf1 [Hq Hw] (Hf & Hok & Hd & new & [Hold Hs] & Hwhy). pose proof Hq as (Ha & _ & _ & Hok').
  split; [auto|]. split; [auto|]. split; [done|]. exists new. unfold vx_stream. rewrite Ha.
  split; [|done]. split; [|done]. rewrite <- Hold. exact Hw.
Qed.

(** The call of a turn. *)
Lemma vx_read_call_spec l w r w1 new more :
  vx_inv l w -> vl_ended l = false -> Z.of_nat (length (vl_data l)) < count ->
  vx_stream new (vl_data l) w.1 -> vx_ended_ok l new (vx_read_ahead w.1) ->
  fails_on w w1 -> vx_quiet w.1 w1.1 -> wire (vx_network w1.1) = wire (vx_network w.1) ++ more ->
  forall arguments, called kDeviceCoreProgram kDeviceRead arguments r more ->
  holds (vx_read_answer count options l r) w1 (fun o =>
    match o with
    | Next (inl l') w' => vx_inv l' w'
    | Next (inr l') w' => False
    | Return rp w' => vx_failed rp w'
    end).
Proof.
  intros Hi Hnend Hlt Hs Hwhy Hf1 Hq Hw arguments Hc. pose proof Hi as (Hf & _). unfold vx_read_answer.
  assert (forall finish : IO reply (vx_locals + vx_locals), concat (delivered <$> more) = [] ->
    (forall w', w'.2 = w1.2 -> holds finish w' (fun o =>
       match o with Next _ _ => False | Return rp w'' =>
         rp_status rp < VI_SUCCESS /\ rp_data rp = [] /\ rp_value rp = 0 /\ w''.1 = w'.1 end)) ->
    holds (give_back l finish) w1 (fun o =>
      match o with Next (inl l') w' => vx_inv l' w' | Next (inr _) _ => False | Return rp w' => vx_failed rp w' end)) as Hgive.
  { intros finish Hnone Hfin. eapply holds_mono; [by apply (give_back_spec l w w1 new more); auto|]. by intros [|]. }
  destruct r as [status|result]; cbn [called] in Hc.
  { destruct Hc as [Hst Hnone]. apply Hgive; [done|]. intros w' _. by apply finish_with. }
  destruct Hc as (xid & response & _ & _ & Hmore & Hres). subst more. rewrite Forall_singleton in Hres.
  set (exchange := (_, response)) in *.
  destruct (read_result result) as [[[error reason] chunk]|] eqn:Hread.
  2:{ apply Hgive; [unfold delivered; cbn; rewrite Hres; cbn; by rewrite Hread|]. intros w' _. by apply finish_with. }
  cbn zeta. destruct (Z.ltb_spec (map_device_error error) VI_SUCCESS) as [Hst|Hst].
  - apply holds_bind, holds_complete_fails; [done|by apply Hf1|]. intros won op' Hop.
    assert (concat (delivered <$> [exchange]) = []) as Hnone.
    { unfold delivered. cbn. rewrite Hres. cbn. rewrite Hread. by rewrite (proj2 (Z.ltb_lt _ _)). }
    eapply holds_mono; [apply (give_back_spec l w (w1.1, op') new [exchange]); [done..|]|by intros [|]].
    intros w' _ Hop'. apply finish_with_result. by rewrite Hop'.
  - destruct (bool_decide (chunk = []) && _) eqn:Hempty.
    { apply andb_true_iff in Hempty as [->%bool_decide_eq_true _].
      apply Hgive; [|intros w' _; by apply finish_with]. unfold delivered. cbn. rewrite Hres. cbn. rewrite Hread.
      by destruct (_ <? _). }
    destruct (vx_consume _ _ _ _ _) as [[bytes kept] tc] eqn:Hcons.
    apply holds_bind, holds_modify, holds_ret. by eapply vx_keep_inv.
Qed.

Lemma vx_read_turn_spec l w :
  vx_inv l w ->
  holds (vx_read_turn count options l) w (fun o =>
    match o with
    | Next (inl l') w' => vx_inv l' w'
    | Next (inr l') w' => vx_inv l' w' /\ (Z.of_nat (length (vl_data l')) = count \/ vl_ended l' = true)
    | Return rp w' => vx_failed rp w'
    end).
Proof.
  intros Hi. pose proof Hi as (Hf & Hok & [Hl Ht] & new & Hs & Hwhy). unfold vx_read_turn.
  destruct (vl_ended l) eqn:Hend; cbn [orb]; [apply holds_ret; auto|].
  destruct (Z.ltb_spec (Z.of_nat (length (vl_data l))) count) as [Hlt|Hge]; cbn [negb].
  2:{ apply holds_ret. split; [done|]. left. lia. }
  apply holds_bind, holds_gets. cbn zeta. apply holds_bind, holds_gets.
  apply holds_timeout. intros io_timeout w1 Hf1 Hc1. apply holds_timeout. intros lock_timeout w2 Hf2 Hc2.
  apply (vx_inv_calm l w w1) in Hi; [|done|done]. apply (vx_inv_calm l w1 w2) in Hi; [|done|done].
  clear Hf1 Hf2 Hc1 Hc2 Hf Hok Hl Ht new Hs Hwhy. pose proof Hi as (_ & Hok & _ & new & Hs & Hwhy).
  apply holds_bind. eapply holds_mono; [by apply core_call_result|].
  intros [r w3|rp w3] Ho; [|done]. destruct Ho as (Hf3 & Hq & more & Hw & Hcalled).
  eapply holds_mono; [by eapply (vx_read_call_spec l w2 r w3 new more)|]. by intros [[|]|].
Qed.

(** C24: what a read of a VXI-11 session does with what its device delivers.  A
    read that reports success hands out the next bytes of the stream, at most
    [count] and up to the first termination character, and its status says why
    it has ended: the character, in or behind the data, or the device's word for
    it; the count; or the end of the message.  What is not handed out is kept.
    A read that fails hands out nothing and loses nothing. *)
Theorem vxi11_read_contract op r :
  0 < count < 2 ^ 32 -> vx_ok s0 -> fails_only op ->
  run_io (vx_read_io count options) op s0 = Some r ->
  let rp := mkReply (cr_status r) (cr_value r) (cr_data r) in
  let w := (cr_backend r, cr_operation r) in
  vx_failed rp w \/ vx_handed_out rp w.
Proof.
  intros Hcount Hok Hf. apply run_io_holds with (Q := fun rp w => vx_failed rp w \/ vx_handed_out rp w).
  assert (forall w, on_state calm (s0, op) w -> vx_stream [] [] w.1) as Hcalm.
  { intros w [(Ha & _) Hw]. split; [by rewrite app_nil_r|]. cbn. rewrite app_nil_r. by symmetry. }
  unfold vx_read_io, vx_with_io. apply (with_io_spec turns core wire vx_quiet vx_quiet_network); [done| |].
  2:{ intros w Hfw Hw Hc. left. split; [by apply Hfw|]. split; [done|]. split; [done|]. exists []. by apply Hcalm. }
  intros w Hfw Hw. apply holds_bind, holds_modify, holds_bind, holds_bind, holds_gets. cbn [fst vx_read_ahead vx_with_abort].
  destruct (vx_take_ahead _ _ _ _) as [bytes ahead] eqn:Htake.
  apply vx_take_ahead_spec in Htake as (Hd & Hb & Hfull); [|cbn; lia|apply termchar_ok_nil].
  apply holds_bind, holds_modify, holds_ret, holds_bind.
  apply (holds_iter (fun l w => vx_inv l w)).
  - intros l w1 Hi. eapply holds_mono; [by apply vx_read_turn_spec|]. intros [[l1|l1] w2|rp w2]; [done| |by left].
    intros [(Hf1 & _ & Hdl & new & Hs & Hfound & Hby & Hend & _) Hdone]. apply holds_bind, holds_complete_either; [done| |].
    + intros op' Hop. cbn [negb fst]. apply holds_ret. right. split; [done|]. cbn [rp_value rp_data rp_status fst].
      unfold u32. rewrite Z.mod_small by (destruct Hdl; lia). split; [done|]. split; [done|]. exists new. split; [exact Hs|].
      unfold vx_read_status. destruct (vl_ended_by_termchar l1) eqn:Ht; [left; split; [done|by apply Hby]|right].
      split; [by destruct (ends_with_termchar options (vl_data l1)); [specialize (Hfound eq_refl)|]|].
      destruct (Z.eqb_spec (Z.of_nat (length (vl_data l1))) count) as [|Hne]; [by left|right]. split; [done|].
      split; [destruct Hdl; lia|]. destruct Hdone as [?|He]; [done|]. by destruct (Hend He).
    + intros Hneg. cbn [negb]. apply holds_bind, holds_modify, holds_return_result. left.
      split; [done|]. split; [done|]. split; [done|]. exists new. destruct Hs as [Hw1 Hs]. split; [exact Hw1|exact Hs].
  - destruct (Hcalm w Hw) as [Hw0 Hs0]. pose proof Hw as [(_ & _ & _ & Hok') _]. split; [exact Hfw|].
    split; [by apply Hok'|]. split; [exact Hd|]. exists []. split.
    + split; [exact Hw0|]. cbn [fst vx_with_ahead vx_read_ahead vl_data]. by rewrite Hs0, Hb.
    + unfold vx_ended_ok. cbn [vl_data vl_ended vl_ended_by_termchar fst vx_read_ahead vx_with_ahead].
      split; [done|]. split; [intros Ht; split; [done|by left]|]. split; [auto|]. exact Hfull.
Qed.



End reading.

(** ** What a write sends *)

(** The device has taken [part] of a message on the link. *)
Definition part_written (last : bool) (link_id : Z) (part : list Z) (exchange : list Z * list Z) : Prop :=
  exists xid io_timeout lock_timeout result,
    exchange.1 = make_rpc_call xid kDeviceCoreProgram kProgramVersion kDeviceWrite
                   (write_arguments link_id io_timeout lock_timeout last part) /\
    call_result_of exchange = Some result /\ write_result result = Some (0, Z.of_nat (length part)).

(** A message that is cut into [parts], with [left] still to come. *)
Fixpoint message_written (send_end : bool) (link_id : Z) (parts : list (list Z)) (left : list Z)
    (new : list (list Z * list Z)) : Prop :=
  match parts, new with
  | [], [] => True
  | part :: rest, exchange :: new =>
      part_written (bool_decide (concat rest ++ left = []) && send_end) link_id part exchange /\
      message_written send_end link_id rest left new
  | _, _ => False
  end.

Lemma message_written_snoc send_end link_id parts part left exchange : forall new,
  message_written send_end link_id parts (part ++ left) new ->
  part_written (bool_decide (left = []) && send_end) link_id part exchange ->
  message_written send_end link_id (parts ++ [part]) left (new ++ [exchange]).
Proof.
  induction parts as [|p parts IH]; intros [|e new]; cbn [app message_written]; try done.
  intros [Hp Hm] Hx. split; [|by apply IH]. rewrite concat_app. cbn [concat].
  by rewrite app_nil_r, <- app_assoc.
Qed.

Lemma map_device_error_success error : VI_SUCCESS <= map_device_error error -> error = 0.
Proof.
  unfold map_device_error. destruct (Z.eqb_spec error 0) as [|_]; [done|]. intros Hst. exfalso. revert Hst.
  apply Z.lt_nge. repeat (case_match; [reflexivity|]). reflexivity.
Qed.

Section writing.
  Context (buffer : list Z) (options : WriteOptions) (s0 : Session).

Definition vx_sent (parts : list (list Z)) (left : list Z) (s : Session) : Prop :=
  exists new, wire (vx_network s) = wire (vx_network s0) ++ new /\
    message_written (wo_send_end options) (vx_link_id s0) parts left new.

Definition vx_write_inv (left : list Z) (w : Session * Operation H) : Prop :=
  fails_only w.2 /\ vx_ok w.1 /\ vx_quiet s0 w.1 /\
  exists parts, concat parts ++ left = buffer /\
    Forall (fun part => 1 <= Z.of_nat (length part) <= vx_maximum_receive_size s0) parts /\ vx_sent parts left w.1.

Definition vx_write_failed (rp : reply) : Prop := rp_status rp < VI_SUCCESS /\ rp_value rp = 0.

Lemma vx_write_inv_calm left w w' : fails_on w w' -> calm w.1 w'.1 -> vx_write_inv left w -> vx_write_inv left w'.
Proof.
  intros Hf1 [Hq Hw] (Hf & Hok & Hq0 & parts & Hb & Hsz & new & Hold & Hm). split; [auto|]. split; [by apply Hq|].
  split; [by etrans|]. exists parts. split; [done|]. split; [done|]. exists new. split; [|done].
  rewrite <- Hold. exact Hw.
Qed.

Lemma vx_write_turn_spec left w :
  vx_ok s0 -> vx_write_inv left w ->
  holds (vx_write_turn options left) w (fun o =>
    match o with
    | Next (inl left') w' => vx_write_inv left' w'
    | Next (inr _) w' => left = [] /\ w' = w
    | Return rp w' => vx_write_failed rp
    end).
Proof.
  intros Hok0 Hi. unfold vx_write_turn. destruct left as [|b left0] eqn:Hleft; [by apply holds_ret|].
  rewrite <- Hleft in *. assert (1 <= Z.of_nat (length left)) as Hlen by (rewrite Hleft; cbn [length]; lia).
  clear b left0 Hleft. apply holds_bind, holds_gets. cbn zeta. apply holds_bind, holds_gets.
  pose proof Hi as (_ & _ & (_ & Hlink & Hmax & _) & _). rewrite Hlink, Hmax. set (amount := Nat.min _ _).
  assert (1 <= Z.of_nat amount <= vx_maximum_receive_size s0) as Hamount by (destruct Hok0; lia).
  apply holds_timeout. intros io_timeout w1 Hf1 Hc1. apply holds_timeout. intros lock_timeout w2 Hf2 Hc2.
  apply (vx_write_inv_calm left w w1) in Hi; [|done|done]. apply (vx_write_inv_calm left w1 w2) in Hi; [|done|done].
  pose proof Hi as (Hf & Hok & Hq0 & parts & Hb & Hsz & new & Hold & Hm).
  set (last := bool_decide _ && _). unfold core_call. apply holds_bind, holds_bind.
  eapply holds_mono; [by apply core_call_result|]. intros [r w3|rp w3] Ho; [|done].
  destruct Ho as (Hf3 & Hq & more & Hw & Hcalled). destruct r as [status|result].
  { apply holds_return. by destruct Hcalled as [Hst _]. }
  apply holds_ret. destruct Hcalled as (xid & response & _ & _ & -> & Hres). rewrite Forall_singleton in Hres.
  destruct (write_result result) as [[error written]|] eqn:Hwr; [|by apply holds_return].
  destruct (_ <? written); [by apply holds_return|]. specialize (Hf3 Hf).
  assert (forall st, st < VI_SUCCESS -> holds (complete (R:=reply) st ;; return_result (A:=list Z + unit) status_only) w3
    (fun o => match o with Next _ _ => False | Return rp _ => vx_write_failed rp end)) as Hfail.
  { intros st Hst. apply holds_bind, holds_complete_fails; [done|done|]. intros won op' Hop.
    apply holds_return_result. done. }
  destruct (Z.ltb_spec (map_device_error error) VI_SUCCESS) as [Hst|Hst].
  { eapply holds_mono; [by apply Hfail|]. by intros [[|]|]. }
  apply map_device_error_success in Hst. subst error.
  destruct (Z.eqb_spec written (Z.of_nat amount)) as [->|]; cbn [negb].
  2:{ eapply holds_mono; [by apply Hfail|]. by intros [[|]|]. }
  apply holds_ret. split; [done|]. split; [by apply Hq|]. split; [by etrans|].
  exists (parts ++ [take amount left]). rewrite concat_app. cbn [concat]. rewrite app_nil_r.
  split; [by rewrite <- app_assoc, take_drop|]. split.
  { apply Forall_app. split; [done|]. apply Forall_singleton. rewrite length_take. lia. }
  exists (new ++ [(make_rpc_call xid kDeviceCoreProgram (program_version kDeviceCoreProgram) kDeviceWrite
     (write_arguments (vx_link_id s0) io_timeout lock_timeout last (take amount left)), response)]).
  split; [by rewrite Hw, Hold, app_assoc|]. apply message_written_snoc; [by rewrite take_drop|].
  exists xid, io_timeout, lock_timeout, result. split; [done|]. split; [done|].
  rewrite Hwr, length_take. do 3 f_equal. lia.
Qed.

End writing.

(** A write of a VXI-11 session that reports success has cut the buffer into
    parts that the device takes and sent them in order on its link; only the
    last one is marked as the end of the message, and only if the end is to be
    sent, and the device has confirmed every byte of every part.  The data read
    ahead are left alone.  A write that fails reports no bytes written. *)
Theorem vxi11_write_contract buffer options op s r :
  vx_ok s -> fails_only op -> run_io (vx_write_io buffer options) op s = Some r ->
  if cr_status r <? VI_SUCCESS then cr_value r = 0
  else
    cr_status r = VI_SUCCESS /\ cr_value r = Z.of_nat (length buffer) /\
    op_result (cr_operation r) = VI_SUCCESS /\ vx_read_ahead (cr_backend r) = vx_read_ahead s /\
    exists parts, concat parts = buffer /\
      Forall (fun part => 1 <= Z.of_nat (length part) <= vx_maximum_receive_size s) parts /\
      vx_sent options s parts [] (cr_backend r).
Proof.
  intros Hok Hf. apply run_io_holds with (Q := fun rp w =>
    if rp_status rp <? VI_SUCCESS then rp_value rp = 0
    else rp_status rp = VI_SUCCESS /\ rp_value rp = Z.of_nat (length buffer) /\
      op_result w.2 = VI_SUCCESS /\ vx_read_ahead w.1 = vx_read_ahead s /\
      exists parts, concat parts = buffer /\
        Forall (fun part => 1 <= Z.of_nat (length part) <= vx_maximum_receive_size s) parts /\
        vx_sent options s parts [] w.1).
  unfold vx_write_io, vx_with_io. apply (with_io_spec turns core wire vx_quiet vx_quiet_network); [done| |].
  2:{ intros w Hfw Hw Hc. cbn [rp_status status_only]. by rewrite (proj2 (Z.ltb_lt _ _) (Hfw Hc)). }
  intros w Hfw [Hq Hw]. apply holds_bind, holds_modify, holds_bind.
  apply (holds_iter (vx_write_inv buffer options s)).
  - intros left w1 Hi. eapply holds_mono; [by apply (vx_write_turn_spec buffer options s)|].
    intros [[left'|u] w2|rp w2]; [done| |].
    2:{ intros [Hst Hv]. by rewrite (proj2 (Z.ltb_lt _ _)). }
    intros [-> ->]. destruct Hi as (Hf1 & _ & (Ha & _) & parts & Hb & Hsz & Hs).
    apply holds_bind, holds_complete_either; [done| |].
    + intros op' Hop. cbn [negb]. apply holds_ret. cbn [rp_status rp_value fst snd].
      change (VI_SUCCESS <? VI_SUCCESS) with false. rewrite app_nil_r in Hb.
      split; [done|]. split; [done|]. split; [done|]. split; [exact Ha|]. by exists parts.
    + intros Hneg. cbn [negb]. apply holds_return_result. cbn [rp_status status_only snd].
      by rewrite (proj2 (Z.ltb_lt _ _)).
  - split; [exact Hfw|]. split; [by apply Hq|]. split; [exact Hq|]. exists []. split; [done|].
    split; [by apply Forall_nil_2|]. exists []. split; [by rewrite app_nil_r; exact Hw|done].
Qed.

End view.

(** ** Opening *)

(** A session as [open] leaves it. *)
Definition vx_opened (s : Session) : Prop :=
  vx_ok s /\ 1 <= vx_core_port s <= 65535 /\ 1 <= vx_abort_port s <= 65535 /\
  vx_observing s = true /\ vx_closed s = false.

(** Steps that keep the invariant, the ports and the flags. *)
Definition vx_keeps (s s' : Session) : Prop :=
  (vx_ok s -> vx_ok s') /\ vx_core_port s' = vx_core_port s /\ vx_abort_port s' = vx_abort_port s /\
  vx_observing s' = vx_observing s /\ vx_closed s' = vx_closed s.

#[export] Instance vx_keeps_preorder : PreOrder vx_keeps.
Proof.
  split; [done|]. intros s1 s2 s3 (A1 & B1 & C1 & D1 & E1) (A2 & B2 & C2 & D2 & E2).
  split; [auto|]. repeat split; congruence.
Qed.

Lemma vx_keeps_network n s : vx_keeps s (vx_with_network n s).
Proof. split; [|done]. intros Hok. exact Hok. Qed.

#[export] Instance vx_keeps_steps : VxiSteps (on_state vx_keeps).
Proof.
  split.
  - apply state_net_steps; [apply _|]. apply vx_keeps_network.
  - intros R f Hf. apply state_modify. intros s. destruct (vx_forward_update f Hf s) as (Hok & _).
    split; [exact Hok|]. by destruct Hf.
Qed.

Section opening.
  Context `{!NetworkLaws N H}.

(** What an answer of [call] is. *)
Definition answer_ok (r : Z + list Z) : Prop :=
  match r with inl status => status < VI_SUCCESS | inr payload => are_bytes payload end.

Lemma vx_call_answer {R} (raw : list Z -> IO R (Z * list Z)) program procedure arguments w :
  (forall request, always_next (raw request)) -> (forall request, answers_bytes (raw request)) ->
  (forall request, steady (on_state vx_keeps) (raw request)) ->
  holds (vx_call raw program procedure arguments) w (fun o =>
    match o with Next r w' => answer_ok r /\ vx_keeps w.1 w'.1 | Return _ _ => False end).
Proof.
  intros Hnext Hbytes Hsteady.
  eapply holds_mono; [apply (holds_and _ _ (fun o => match o with Next r _ => answer_ok r | Return _ _ => False end));
    [|apply holds_steady, (vx_steps_call (on_state vx_keeps)), Hsteady]|].
  2:{ intros [r w'|r w'] [Ho Hk]; [exact (conj Ho Hk)|done]. }
  unfold vx_call, next_xid. apply holds_bind, holds_bind, holds_gets, holds_bind, holds_modify, holds_ret.
  cbn zeta. case_bool_decide; [by apply holds_ret|]. apply holds_bind.
  eapply holds_mono; [apply holds_and; [apply Hnext|apply Hbytes]|]. intros [[st resp] w1|r w1] [Ho Hb]; [|done].
  cbn [fst snd]. destruct (Z.ltb_spec st VI_SUCCESS); [by apply holds_ret|]. apply holds_ret.
  destruct (parse_rpc_reply resp _) as [payload|] eqn:Hp; [|done]. destruct Hb as [Hb _].
  by apply (parsed_bytes _ _ _ Hb Hp).
Qed.

Lemma reader_u32_range bytes n v r :
  are_bytes bytes -> reader_u32 (mkReader bytes n) = (Some v, r) -> 0 <= v < 2 ^ 32 /\ exists m, r = mkReader bytes m.
Proof.
  intros Hb Hr. assert (n <= length bytes)%nat as Hn.
  { unfold reader_u32 in Hr. cbn [xr_bytes xr_offset] in Hr. destruct (Nat.ltb_spec (length bytes - n) 4); [done|lia]. }
  pose proof (reader_u32_spec bytes n Hb Hn) as Hs. rewrite Hr in Hs. destruct Hs as (Hv & _ & -> & _). eauto.
Qed.

Definition opening {A} (w : Session * Operation H) (Q : A -> Session -> Prop)
    (o : outcome (Session * Operation H) Z A) : Prop :=
  match o with Next a w' => Q a w'.1 | Return status _ => status < VI_SUCCESS end.

Lemma vx_connected_spec ch port w : holds (vx_connected ch port) w (opening w (fun _ s' => vx_keeps w.1 s')).
Proof.
  unfold vx_connected. apply holds_bind, holds_gets, holds_bind.
  eapply holds_mono; [apply holds_and; [apply next_remaining_timeout|
    apply holds_steady, (steps_remaining_timeout (on_state vx_keeps))]|].
  intros [timeout w1|r w1] [Ho Hk]; [|done]. apply holds_bind. intros o. unfold connect.
  destruct (net_connect _ _ _ _ _) as [[[st address] n']|]; [|done]. intros [= <-]. cbn [fst].
  destruct (Z.ltb_spec st VI_SUCCESS); [by apply holds_return|]. apply holds_ret. cbn.
  etrans; [exact Hk|]. apply vx_keeps_network.
Qed.

Lemma core_port_spec w :
  holds core_port_io w (opening w (fun port s' => vx_keeps w.1 s' /\ 1 <= port <= 65535)).
Proof.
  unfold core_port_io. apply holds_bind, holds_modify, holds_bind, holds_gets, holds_bind, holds_try.
  eapply holds_mono; [apply vx_connected_spec|]. intros [address w1|st w1] Ho; cbn in Ho.
  2:{ by apply holds_bind, holds_modify, holds_return. }
  apply holds_bind. eapply holds_mono; [apply vx_call_answer; intros|].
  { apply next_plain_call. }
  { apply plain_call_bytes. }
  { apply (steps_plain_call (on_state vx_keeps)). }
  intros [r w2|r w2] Hr; [|done]. destruct Hr as [Hr Hk]. apply holds_bind, holds_modify.
  destruct r as [st|result]; [by apply holds_return|]. cbn in Hr.
  destruct (reader_u32 (reader_of result)) as [[port|] r] eqn:Hread; cbn [fst]; [|by apply holds_return].
  apply reader_u32_range in Hread as [Hp _]; [|done].
  destruct (_ || _) eqn:Hbad; [by apply holds_return|]. apply orb_false_iff in Hbad as [Hz%Z.eqb_neq Hm%Z.ltb_ge].
  apply holds_ret. split; [|lia]. cbn.
  etrans; [|apply vx_keeps_network]. etrans; [|exact Hk]. etrans; [|exact Ho]. apply vx_keeps_network.
Qed.

Lemma link_spec result w :
  are_bytes result ->
  holds (link_io result) w (opening w (fun link s' => vx_keeps w.1 s' /\
    0 <= link.1.2 <= 65535 /\ 0 <= link.2)).
Proof.
  intros Hb. unfold link_io, reader_of.
  destruct (reader_u32 _) as [[error|] r1] eqn:H1; [|by apply holds_return].
  apply reader_u32_range in H1 as [_ [m1 ->]]; [|done].
  destruct (reader_u32 _) as [[link|] r2] eqn:H2; [|by apply holds_return].
  apply reader_u32_range in H2 as [_ [m2 ->]]; [|done]. apply holds_bind, holds_modify.
  destruct (reader_u32 _) as [[port|] r3] eqn:H3; [|by apply holds_return].
  apply reader_u32_range in H3 as [Hport [m3 ->]]; [|done].
  destruct (Z.ltb_spec 65535 port); [by apply holds_return|].
  destruct (reader_u32 _) as [[maximum|] r4] eqn:H4; cbn [fst]; [|by apply holds_return].
  apply reader_u32_range in H4 as [Hmax _]; [|done]. apply holds_ret. cbn.
  split; [by split|]. lia.
Qed.

Lemma vx_open_spec w :
  vx_ok w.1 -> vx_closed w.1 = false -> holds vx_open_io w (opening w (fun _ => vx_opened)).
Proof.
  intros Hok Hclosed. unfold vx_open_io. apply holds_bind. eapply holds_mono; [apply core_port_spec|].
  intros [port w1|st w1] Ho; [|exact Ho]. destruct Ho as [(K1 & _ & _ & _ & C1) Hport].
  apply holds_bind, holds_modify, holds_bind. eapply holds_mono; [apply vx_connected_spec|].
  intros [address w2|st w2] Ho; [|exact Ho]. destruct Ho as (K2 & P2 & _ & _ & C2). cbn in K2, P2, C2.
  apply holds_bind, holds_modify. unfold next_xid.
  apply holds_bind, holds_bind, holds_gets, holds_bind, holds_modify, holds_ret, holds_bind.
  eapply holds_mono; [apply holds_and; [apply next_remaining_timeout|
    apply holds_steady, (steps_remaining_timeout (on_state vx_keeps))]|].
  intros [timeout w3|r w3] [Ho (K3 & P3 & _ & _ & C3)]; [|done]. cbn in K3, P3, C3.
  apply holds_bind, holds_gets, holds_bind. eapply holds_mono; [apply vx_call_answer; intros|].
  { apply next_core. }
  { apply observed_call_bytes. }
  { apply (vx_steps_core (on_state vx_keeps)). }
  intros [r w4|r w4] Hr; [|done]. destruct Hr as [Hr (K4 & P4 & _ & _ & C4)].
  destruct r as [st|result]; [by apply holds_return|]. apply holds_bind.
  eapply holds_mono; [by apply link_spec|]. intros [[[error abort_port] maximum] w5|st w5] Hl; [|exact Hl].
  destruct Hl as [(K5 & P5 & _ & _ & C5) [Habort Hmax]]. cbn [fst snd] in *.
  apply holds_bind, holds_modify. cbn zeta.
  destruct (Z.ltb_spec (map_device_error error) VI_SUCCESS); [by apply holds_return|]. apply holds_bind.
  set (s6 := vx_with_ports _ _ abort_port w5.1).
  assert (vx_ok s6) as Hok6.
  { assert (vx_ok w5.1) as Hok5; [|exact Hok5]. apply K5, K4, K3. split; [apply u32_range|].
    apply K2. by apply K1. }
  assert (vx_core_port s6 = port) as Hport6 by (cbn; congruence).
  assert (vx_closed s6 = false) as Hclosed6 by (cbn; congruence).
  assert (forall w, vx_ok w.1 -> vx_core_port w.1 = port -> vx_abort_port w.1 = abort_port -> vx_closed w.1 = false ->
    holds (if abort_port =? 0 then io_return VI_ERROR_IO
           else vx_connected abort abort_port ;; modify (fun s => vx_with_flags true (vx_closed s) s) ;; io_ret VI_SUCCESS)
      w (opening w (fun _ => vx_opened))) as Hend.
  { clear - Hport Habort. intros w Hok Hp Ha Hc. destruct (Z.eqb_spec abort_port 0); [by apply holds_return|].
    apply holds_bind. eapply holds_mono; [apply vx_connected_spec|].
    intros [address w1|st w1] Ho; [|exact Ho]. destruct Ho as (K & P & A & _ & C).
    apply holds_bind, holds_modify, holds_ret. split; [by apply K|]. cbn. split; [lia|]. split; [lia|]. by split; [|congruence]. }
  destruct (Z.eqb_spec maximum 0); cbn [negb].
  - by apply holds_ret, (Hend (s6, w5.2)).
  - apply holds_modify, (Hend (vx_with_link (vx_link_id s6) (Z.min maximum kMaximumRpcPayload) s6, w5.2)); [|done..].
    split; [apply Hok6|]. unfold kMaximumRpcPayload. cbn. lia.
Qed.

Lemma vx_create_opened host device timeout port n s status n' :
  vx_create host device timeout port n = Some (Some s, status, n') -> vx_opened s.
Proof.
  unfold vx_create. destruct (net_now _) as [now n1]. destruct (vx_open_io _) as [o|] eqn:Ho; [|done].
  apply vx_open_spec in Ho; [|split; [cbn; lia|unfold kMaximumRpcPayload; cbn; lia]|done].
  destruct o as [st [s1 op]|st [s1 op]]; destruct (Z.ltb_spec st VI_SUCCESS); intros [= <- _ _]; cbn in Ho; [exact Ho|lia].
Qed.

End opening.

(** ** Safety *)

(** A lock or unlock that succeeds has the device's word for it. *)
Definition device_agrees (procedure : Z) (s s' : Session) (wire : N -> list (list Z * list Z)) : Prop :=
  exists exchange result, wire (vx_network s') = wire (vx_network s) ++ [exchange] /\
    (exists xid arguments, exchange.1 = make_rpc_call xid kDeviceCoreProgram kProgramVersion procedure arguments) /\
    call_result_of exchange = Some result /\ (reader_u32 (reader_of result)).1 = Some 0.

Lemma error_status_success result :
  VI_SUCCESS <= error_status result -> error_status result = VI_SUCCESS /\ (reader_u32 (reader_of result)).1 = Some 0.
Proof.
  unfold error_status. destruct (reader_u32 (reader_of result)).1 as [error|]; [|intros Hst; exfalso; apply Hst; reflexivity].
  intros ->%map_device_error_success. done.
Qed.

Section locking.
  Context `{!NetworkLaws N H} (wire : N -> list (list Z * list Z)) `{!NetworkView N H core wire}.

Lemma core_call_agrees procedure arguments (s0 : Session) w :
  vx_ok w.1 -> wire (vx_network w.1) = wire (vx_network s0) ->
  holds (result <- core_call procedure arguments ;; io_ret (status_only (error_status result))) w (fun o =>
    match o with Next rp w' | Return rp w' => VI_SUCCESS <= rp_status rp ->
      rp_status rp = VI_SUCCESS /\ device_agrees procedure s0 w'.1 wire end).
Proof.
  intros Hok Hw0. unfold core_call. apply holds_bind, holds_bind.
  eapply holds_mono; [by apply (core_call_result wire)|]. intros [r w1|rp w1] Ho; [|done].
  destruct Ho as (_ & _ & new & Hw & Hcalled). destruct r as [st|result].
  { apply holds_return. destruct Hcalled as [Hst _]. cbn. lia. }
  destruct Hcalled as (xid & response & _ & _ & -> & Hres). rewrite Forall_singleton in Hres.
  apply holds_ret, holds_ret. intros [Hst Hz]%error_status_success. split; [exact Hst|].
  eexists _, result. split; [by rewrite Hw, Hw0|]. split; [by eexists _, _|]. done.
Qed.

Lemma vx_lock_spec lock_type key op s r :
  lock_type ≠ VI_SHARED_LOCK -> vx_ok s -> fails_only op -> be_lock op lock_type key s = Some r ->
  VI_SUCCESS <= cr_status r -> cr_status r = VI_SUCCESS /\ device_agrees kDeviceLock s (cr_backend r) wire.
Proof.
  intros Hl Hok Hf Hr. refine (run_io_holds _ op s r (fun rp w => VI_SUCCESS <= rp_status rp ->
    rp_status rp = VI_SUCCESS /\ device_agrees kDeviceLock s w.1 wire) _ Hr).
  unfold vx_lock_io. rewrite (proj2 (Z.eqb_neq _ _)) by done. unfold vx_with_io.
  apply (with_io_spec turns core wire vx_quiet vx_quiet_network); [done| |].
  2:{ intros w Hfw _ Hc Hst. specialize (Hfw Hc). cbn in Hst. lia. }
  intros w Hfw [Hq Hw]. apply holds_bind, holds_modify, holds_bind, holds_gets. cbn [fst].
  apply (holds_timeout wire). intros timeout w1 _ [Hq1 Hw1].
  apply (core_call_agrees kDeviceLock _ s).
  - apply Hq1. by apply Hq.
  - etrans; [exact Hw1|exact Hw].
Qed.

Lemma vx_unlock_spec op s r :
  vx_ok s -> fails_only op -> be_unlock op s = Some r -> VI_SUCCESS <= cr_status r ->
  cr_status r = VI_SUCCESS /\ device_agrees kDeviceUnlock s (cr_backend r) wire.
Proof.
  intros Hok Hf Hr. refine (run_io_holds _ op s r (fun rp w => VI_SUCCESS <= rp_status rp ->
    rp_status rp = VI_SUCCESS /\ device_agrees kDeviceUnlock s w.1 wire) _ Hr).
  unfold vx_unlock_io, vx_with_io. apply (with_io_spec turns core wire vx_quiet vx_quiet_network); [done| |].
  2:{ intros w Hfw _ Hc Hst. specialize (Hfw Hc). cbn in Hst. lia. }
  intros w Hfw [Hq Hw]. apply holds_bind, holds_modify, holds_bind, holds_gets.
  apply (core_call_agrees kDeviceUnlock _ s); [by apply Hq|exact Hw].
Qed.

(** C25: the state a VXI-11 session goes through: it opens with ports and a link
    that make sense, whatever the port mapper and the device answer; every call
    keeps the transaction ids and the limit in range and the link as it is; an
    exclusive lock or an unlock succeeds only with the device's word for it, and
    a shared lock without asking the device. *)
Theorem vxi11_session_safety s op :
  vx_ok s -> fails_only op ->
  (forall c ro wo r, backend_call c ro wo op s = Some r -> vx_forward s (cr_backend r) /\ vx_ok (cr_backend r)) /\
  (forall lock_type key r, be_lock op lock_type key s = Some r -> vx_ok (cr_backend r) /\
     if lock_type =? VI_SHARED_LOCK then r = mkCall VI_SUCCESS 0 [] s op
     else VI_SUCCESS <= cr_status r ->
       cr_status r = VI_SUCCESS /\ device_agrees kDeviceLock s (cr_backend r) wire) /\
  (forall r, be_unlock op s = Some r -> vx_ok (cr_backend r) /\
     (VI_SUCCESS <= cr_status r ->
        cr_status r = VI_SUCCESS /\ device_agrees kDeviceUnlock s (cr_backend r) wire)) /\
  (forall host device timeout port n s' status n',
     vx_create host device timeout port n = Some (Some s', status, n') -> vx_opened s').
Proof.
  intros Hok Hf. assert (forall s', vx_forward s s' -> vx_ok s') as Hfw by (intros s' [Hs _]; auto).
  split; [|split; [|split]].
  - intros c ro wo r Hr. assert (vx_forward s (cr_backend r)) as Hs; [|by auto].
    destruct (vx_steps_io_call (on_state vx_forward) ltac:(intros; apply state_complete, _) _ _ _ _ _ _ Hr)
      as [Hs|(_ & _ & [->| ->])]; [exact Hs|reflexivity|apply (vx_forward_update _ (vu_ahead []))].
  - intros lock_type key r Hr. split.
    + apply Hfw, (run_io_steady (on_state vx_forward) _ _ _ _ (vx_steps_lock _ lock_type key) Hr).
    + destruct (Z.eqb_spec lock_type VI_SHARED_LOCK) as [->|Hl]; [|by apply (vx_lock_spec lock_type key op s)].
      cbn in Hr. by injection Hr as <-.
  - intros r Hr. split; [|by apply (vx_unlock_spec op s)].
    apply Hfw, (run_io_steady (on_state vx_forward) _ _ _ _ (vx_steps_unlock _) Hr).
  - intros. by eapply vx_create_opened.
Qed.

End locking.

(** ** Every call returns *)

Section termination.
  Context `{!NetworkLaws N H} (remaining : N -> Z -> nat) `{!NetworkTimed N H remaining}.
  (** The turns are enough for the operations the session makes itself. *)
  Hypothesis abort_turns : forall n, (remaining n ((net_now n).1 + 250) < turns)%nat.

Abbreviation left_of w := (remaining (own_transport (S:=Session) (fst w))).
Abbreviation onward := (onward (S:=Session) (H:=H) remaining).
Abbreviation total := (total (S:=Session) (H:=H) remaining turns).
Abbreviation timely := (timely (S:=Session) (H:=H) turns remaining).

#[local] Instance onward_vxi11 : VxiSteps onward.
Proof.
  split; [apply _|]. intros R f Hf. apply steady_modify. intros [s op]. split; [done|]. intros d. by destruct Hf.
Qed.

Lemma onward_vx_complete {R} status : steady onward (complete (R:=R) status).
Proof. apply onward_complete. Qed.

#[local] Hint Resolve vst_network ns_waiting vst_update ns_exchange ns_clock ns_under steps_remaining_timeout
  steps_acquire_io steps_under_timeout onward_vxi11 vx_steps_call vx_steps_abort vx_steps_request_abort vx_steps_core
  vx_steps_core_call vx_steps_with_io vx_steps_read_ahead vx_steps_generic vx_steps_read_turn vx_steps_write_turn
  onward_vx_complete : wrio.
#[local] Hint Constructors vx_update : wrio.

Lemma total_vx_call {R} (raw : list Z -> IO R (Z * list Z)) program procedure arguments :
  (forall request, timely (raw request)) -> total true (vx_call raw program procedure arguments).
Proof.
  intros Hraw. pose proof (fun request => timely_steady turns remaining _ (Hraw request)) as Hs.
  unfold vx_call, next_xid. apply total_bind; [steady|by intros ? _; eexists|intros xid]. cbn zeta.
  case_bool_decide; [by intros ? _; eexists|].
  apply total_bind; [steady|by apply (timely_total turns remaining)|intros r w _]. destruct (_ <? _); by eexists.
Qed.

(** A call that succeeds has used up an exchange. *)
Lemma vx_call_spends {R} (raw : list Z -> IO R (Z * list Z)) program procedure arguments w payload w' d :
  (forall request, timely (raw request)) -> deadline_ w.2 = Some d ->
  vx_call raw program procedure arguments w = Some (Next (inr payload) w') -> (left_of w' d < left_of w d)%nat.
Proof.
  intros Hraw Hd. unfold vx_call, next_xid, get, modify, io_bind, io_gets, io_modify, io_ret. cbn [fst snd].
  case_bool_decide; [done|].
  destruct (raw _ _) as [[[st resp] w1|r w1]|] eqn:E; [|done..]. cbn [fst snd].
  destruct (Z.ltb_spec st VI_SUCCESS); [done|]. intros [= _ <-].
  
  by apply (timely_spends turns remaining _ (Hraw _) (vx_with_xid (u32 (vx_next_xid w.1 + 1)) w.1, w.2) _ _ _ d Hd E).
Qed.

Lemma total_request_abort {R} timed : total timed (request_abort (R:=R)).
Proof.
  unfold request_abort. apply total_weaken.
  do 2 (apply total_bind; [steady|by intros ? _; eexists|intros ?]). destruct (_ || _); [by intros ? _; eexists|].
  do 2 (apply total_bind; [steady|by intros ? _; eexists|intros ?]). case_match; [by intros ? _; eexists|].
  apply total_bind; [apply steps_under_timeout, vx_steps_call; [apply _|apply _|apply vx_steps_abort, _]| |by intros ? ? _; eexists].
  apply (total_under_timeout turns remaining); [done|done|]. apply total_vx_call. intros request.
  apply (timely_plain_call turns remaining).
Qed.

Lemma timely_core {R} request : timely (core_exchange (R:=R) request).
Proof. apply (timely_observed_call turns remaining); [apply vx_steps_request_abort, _|apply total_request_abort]. Qed.

Lemma total_core_call procedure arguments : total true (core_call procedure arguments).
Proof.
  unfold core_call. apply total_bind; [steady|apply total_vx_call, timely_core|]. intros [st|result] w _; by eexists.
Qed.

Lemma total_vx_with_io {A} (body : IO reply A) : total true body -> total true (vx_with_io body).
Proof.
  intros Hb. apply (total_with_io turns remaining). apply total_bind; [steady|by intros ? _; eexists|done].
Qed.

Lemma total_timeout {R} timed : total timed (remaining_timeout (R:=R)).
Proof. apply (total_remaining_timeout turns remaining). Qed.

(** One of the components of a call: a step on the session, the clock, the core channel. *)
Ltac vx_total :=
  repeat first
    [ apply total_core_call | apply total_timeout | apply total_complete
    | apply total_bind; [steady| |intros ?]
    | solve [intros ? _; by eexists] | case_match ].

Lemma total_complete_result {A} timed status :
  total timed (complete status ;; return_result (A:=A) status_only).
Proof. apply total_bind; [apply onward_complete|apply total_complete|by intros ? ? _; eexists]. Qed.

Lemma total_read_answer timed count options l r : total timed (vx_read_answer count options l r).
Proof.
  assert (forall A (m : IO reply A), total timed m -> total timed (give_back l m)) as Hgive.
  { intros A m Hm. apply total_bind; [steady|by intros ? _; eexists|done]. }
  unfold vx_read_answer. destruct r as [st|result]; [apply Hgive; by intros ? _; eexists|].
  destruct (read_result result) as [[[error reason] chunk]|]; [|apply Hgive; by intros ? _; eexists]. cbn zeta.
  destruct (_ <? _).
  { apply total_bind; [apply onward_complete|apply total_complete|intros _]. apply Hgive. by intros ? _; eexists. }
  destruct (_ && _); [apply Hgive; by intros ? _; eexists|].
  destruct (vx_consume _ _ _ _ _) as [[? ?] ?]. intros ? _. by eexists.
Qed.

Lemma total_vx_read_turn count options l : total true (vx_read_turn count options l).
Proof.
  unfold vx_read_turn. destruct (_ || _); [by intros ? _; eexists|].
  apply total_bind; [steady|by intros ? _; eexists|intros maximum]. cbn zeta.
  apply total_bind; [steady|by intros ? _; eexists|intros link].
  do 2 (apply total_bind; [steady|apply total_timeout|intros ?]).
  apply total_bind; [steady|apply total_vx_call, timely_core|intros r]. apply total_read_answer.
Qed.

Lemma timeout_onward {R} w timeout w' : remaining_timeout (R:=R) w = Some (Next timeout w') -> onward w w'.
Proof. intros E. exact (steps_remaining_timeout onward _ _ E). Qed.

(** Every turn of a read that goes on has received an answer. *)
Lemma vx_read_turn_spends count options l w l' w' d :
  deadline_ w.2 = Some d -> vx_read_turn count options l w = Some (Next (inl l') w') ->
  (left_of w' d < left_of w d)%nat.
Proof.
  intros Hd. unfold vx_read_turn. destruct (_ || _); [done|]. unfold get, io_gets. unfold io_bind at 1 2 3. cbn zeta.
  destruct (remaining_timeout w) as [[t1 w1|]|] eqn:E1; [|done..]. apply timeout_onward in E1 as [D1 L1].
  unfold io_bind at 1. destruct (remaining_timeout w1) as [[t2 w2|]|] eqn:E2; [|done..]. apply timeout_onward in E2 as [D2 L2].
  unfold io_bind at 1. destruct (vx_call _ _ _ _ w2) as [[r w3|]|] eqn:E3; [|done..].
  unfold vx_read_answer. destruct r as [st|result]; [done|].
  apply (vx_call_spends _ _ _ _ _ _ _ d) in E3; [|apply timely_core|congruence]. specialize (L1 d). specialize (L2 d). cbn zeta.
  destruct (read_result result) as [[[error reason] chunk]|]; [|done].
  destruct (_ <? _); [unfold give_back, io_bind, complete; by destruct (try_complete _ _)|].
  destruct (_ && _); [done|]. destruct (vx_consume _ _ _ _ _) as [[bytes kept] tc].
  unfold io_bind, modify, io_modify, io_ret. intros [= _ <-]. cbn in *. lia.
Qed.

Lemma total_vx_read count options : total true (vx_read_io count options).
Proof.
  apply total_vx_with_io. apply total_bind; [steady| |intros l].
  { intros w _. unfold vx_read_ahead_io, get, io_bind, io_gets. destruct (vx_take_ahead _ _ _ _). by eexists. }
  apply total_bind; [steady| |intros l'].
  - apply total_loop; [intros x; apply vx_steps_read_turn; [apply _|intros; apply onward_complete]
      |apply total_vx_read_turn|apply vx_read_turn_spends].
  - intros w _. unfold io_bind, complete. destruct (try_complete _ _) as [[] ?]; by eexists.
Qed.

Lemma total_vx_write_turn options left : total true (vx_write_turn options left).
Proof.
  unfold vx_write_turn. destruct left; [by intros ? _; eexists|].
  apply total_bind; [steady|by intros ? _; eexists|intros maximum]. cbn zeta.
  apply total_bind; [steady|by intros ? _; eexists|intros link].
  do 2 (apply total_bind; [steady|apply total_timeout|intros ?]).
  apply total_bind; [steady|apply total_core_call|intros result].
  destruct (write_result result) as [[error written]|]; [|by intros ? _; eexists].
  destruct (_ <? written); [by intros ? _; eexists|]. destruct (_ <? _); [apply total_complete_result|].
  destruct (negb _); [apply total_complete_result|by intros ? _; eexists].
Qed.

(** Every turn of a write that goes on has sent a byte. *)
Lemma vx_write_turn_shrinks options left w left' w' :
  1 <= vx_maximum_receive_size w.1 -> vx_write_turn options left w = Some (Next (inl left') w') ->
  (length left' < length left)%nat.
Proof.
  intros Hmax. unfold vx_write_turn. destruct left as [|b left]; [done|]. unfold get, io_gets. unfold io_bind at 1 2. cbn zeta.
  unfold io_bind at 1. destruct (remaining_timeout w) as [[t1 w1|]|]; [|done..].
  unfold io_bind at 1. destruct (remaining_timeout w1) as [[t2 w2|]|]; [|done..].
  unfold io_bind at 1. destruct (core_call _ _ w2) as [[result w3|]|]; [|done..].
  destruct (write_result result) as [[error written]|]; [|done]. destruct (_ <? written); [done|].
  assert (forall st, (complete (R:=reply) st ;; return_result (A:=list Z + unit) status_only) w3 = Some (Next (inl left') w') -> False) as Hno.
  { intros st. unfold io_bind, complete. by destruct (try_complete _ _). }
  destruct (_ <? _); [by intros ?%Hno|]. destruct (negb _); [by intros ?%Hno|].
  assert (1 <= Nat.min (length (b :: left)) (Z.to_nat (vx_maximum_receive_size w.1)))%nat as Ha by (cbn [length]; lia).
  clear Hno. revert Ha. generalize (Nat.min (length (b :: left)) (Z.to_nat (vx_maximum_receive_size w.1))). intros amount Ha.
  unfold io_ret. intros Heq. injection Heq as <- _. rewrite length_drop. cbn [length]. lia.
Qed.

Lemma vx_write_returns buffer options (w : Session * Operation H) :
  vx_ok w.1 -> in_time remaining turns w -> is_Some (vx_write_io buffer options w).
Proof.
  intros Hok Hw. unfold vx_write_io, vx_with_io, with_io. apply bind_returns.
  { apply (total_acquire_io turns remaining). done. }
  intros [] w1 E; [|by eexists].
  pose proof (steps_acquire_io turns onward _ _ E) as Hon.
  pose proof (steps_acquire_io turns (on_state vx_forward) _ _ E) as (Hok1 & _). cbn [final] in *.
  apply bind_returns; [by eexists|]. intros [] w2 [= <-]. apply bind_returns.
  - apply (iter_returns (fun _ w => vx_ok w.1 /\ in_time remaining turns w) (fun left _ => length left));
      [|split; [by apply Hok1|]|unfold vx_write_fuel; lia].
    + intros left w' [Hok' Hw']. destruct (total_vx_write_turn options left w' (fun _ => Hw')) as [o Ho].
      exists o. split; [done|].
      pose proof (vx_steps_write_turn onward ltac:(intros; apply onward_complete) options left w' o Ho) as Hon'.
      pose proof (vx_steps_write_turn (on_state vx_forward) ltac:(intros; apply state_complete, _) options left w' o Ho) as (Hf' & _).
      destruct o as [[left'|u] w''|rp w'']; [|done|done]. cbn [final] in *.
      split; [split; [by apply Hf'|by eapply in_time_onward]|].
      apply (vx_write_turn_shrinks options left w' left' w''); [apply Hok'|done].
    + apply (in_time_onward _ _ w); [|done]. etrans; [exact Hon|]. by apply onward_session.
  - intros u w3 _. unfold io_bind, complete. destruct (try_complete _ _) as [[] ?]; by eexists.
Qed.

Lemma total_generic procedure : total true (generic_call procedure).
Proof. apply total_vx_with_io. vx_total. Qed.

(** Closing returns, and leaves the session closed for good. *)
Lemma vx_close_returns {R} w : exists s' op', vx_close_io (R:=R) w = Some (Next tt (s', op')) /\ vx_closed s' = true.
Proof.
  destruct w as [s op]. unfold vx_close_io, get, modify, io_bind, io_gets, io_modify. cbn [fst snd].
  destruct (vx_closed s) eqn:Hc; [by eexists _, _|]. cbn [fst snd].
  set (s1 := vx_with_flags _ true s).
  assert (forall s2 op2, vx_closed s2 = true -> exists s' op',
    (close_channel abort ;; close_channel (R:=R) core) (s2, op2) = Some (Next tt (s', op')) /\ vx_closed s' = true) as Hend
    by (intros s2 op2 Hs2; eexists _, _; split; [reflexivity|exact Hs2]).
  destruct (negb _); [|by apply (Hend s1)].
  assert (total false (under_timeout (R:=R) 250 (vx_call core_exchange kDeviceCoreProgram kDestroyLink
    (writer_u32 (vx_link_id s1) [])))) as Ht.
  { apply (total_under_timeout turns remaining); [done|done|]. apply total_vx_call, timely_core. }
  destruct (Ht (s1, op) ltac:(done)) as [o Ho]. rewrite Ho.
  assert (on_state vx_forward (s1, op) (final o)) as Hfw.
  { refine (steps_under_timeout (on_state vx_forward) 250 _ _ _ _ Ho).
    apply vx_steps_call; [apply _|]. apply vx_steps_core, _. }
  assert (always_next (under_timeout (R:=R) 250 (vx_call core_exchange kDeviceCoreProgram kDestroyLink
    (writer_u32 (vx_link_id s1) [])))) as Hnext.
  { intros w. apply holds_under; [|done]. apply next_vx_call, next_core. }
  specialize (Hnext _ _ Ho). destruct o as [r [s2 op2]|]; [|done]. apply Hend.
  destruct Hfw as (_ & Hcl & _). cbn in Hcl. by rewrite Hcl.
Qed.

(** Every call of a VXI-11 session whose operation has a deadline returns when
    the exchanges of its channels do, however the device answers: a read has a
    turn for every answer that fits before the deadline, even for answers that
    bring no byte, a write for every part of its buffer, and no decoder reads
    beyond what it is given.  Closing returns, closes the session for good, and
    closing again changes nothing. *)
Theorem vxi11_calls_return c ro wo op s :
  vx_ok s -> in_time remaining turns (s, op) ->
  is_Some (backend_call c ro wo op s) /\
  (forall lock_type key, is_Some (be_lock op lock_type key s)) /\ is_Some (be_unlock op s) /\
  vx_closed (vx_close s) = true /\ vx_close (vx_close s) = vx_close s.
Proof.
  intros Hok Hw.
  assert (forall m, is_Some (m (s, op)) -> is_Some (run_io m op s)) as Hrun.
  { intros m [o Ho]. unfold run_io. rewrite Ho. destruct o as [r [b' op']|r [b' op']]; by eexists. }
  assert (forall m, total true m -> is_Some (run_io m op s)) as Htotal by (intros m Hm; apply Hrun, Hm; done).
  split; [|split; [|split]].
  - destruct c as [count|buffer| |mask|present|protocol|? ? ? ? ? ?]; cbn [backend_call].
    + apply Htotal, total_vx_read.
    + by apply Hrun, vx_write_returns.
    + apply Htotal. unfold vx_clear_io. apply total_bind; [steady|apply total_call, total_generic|intros r].
      vx_total.
    + cbn. unfold forward. destruct (vx_flush mask s) as [[st v] s']. by eexists.
    + apply Htotal. unfold vx_read_stb_io. destruct (negb present); [by intros ? _; eexists|].
      apply total_vx_with_io. vx_total.
    + apply Htotal. unfold vx_assert_trigger_io. destruct (negb _); [by intros ? _; eexists|]. apply total_generic.
    + by eexists.
  - intros lock_type key. apply Htotal. unfold vx_lock_io. destruct (_ =? _); [by intros ? _; eexists|].
    apply total_vx_with_io. vx_total.
  - apply Htotal, total_vx_with_io. vx_total.
  - assert (vx_closed (vx_close s) = true) as Hc.
    { unfold vx_close. by destruct (vx_close_returns (R:=unit) (s, mkOperation kPending None None)) as (s' & op' & -> & ?). }
    split; [done|]. generalize dependent (vx_close s). intros s1 Hc. unfold vx_close, vx_close_io, get, io_bind, io_gets.
    cbn [fst]. by rewrite Hc.
Qed.

End termination.

End vxi11.

(** ** Witnesses *)

(** A session whose device takes four bytes at a time and gives these answers. *)
Definition vx_at (answers : list (Z * list Z * bool)) : Vxi11BackendSession net_script :=
  mkVxi11 (mkNetScript answers [] 0) (lit "dut") (lit "10.0.0.3") (lit "inst0") 111 1024 1025 7 4 5 false [] true false.

Definition pending_operation : Operation unit := mkOperation kPending (Some 100) None.

(** The accepted reply to a call. *)
Definition reply_to (xid : Z) (payload : list Z) : Z * list Z * bool :=
  (VI_SUCCESS, be32 xid ++ be32 1 ++ be32 0 ++ be32 0 ++ be32 0 ++ be32 0 ++ payload, false).

Definition read_reply (xid error reason : Z) (chunk : list Z) : Z * list Z * bool :=
  reply_to xid (writer_opaque chunk (writer_u32 reason (writer_u32 error []))).

Lemma vx_at_ok answers : vx_ok (vx_at answers).
Proof. unfold vx_ok, vx_at, kMaximumRpcPayload. cbn. lia. Defined.

(** A message in two chunks, whose termination character is in the second. *)
Lemma vxi11_read_contract_witness :
  let options := mkReadOptions true 10 in
  let s := vx_at [read_reply 5 0 kReasonRequestedCount [65; 66; 67; 68]; read_reply 6 0 kReasonEnd [10; 69]] in
  exists r, run_io (vx_read_io 501 8 options) pending_operation s = Some r /\
    cr_data r = [65; 66; 67; 68; 10] /\ vx_read_ahead (cr_backend r) = [69] /\
    let rp := mkReply (cr_status r) (cr_value r) (cr_data r) in
    let w := (cr_backend r, cr_operation r) in
    vx_failed (sn_wire core) s rp w \/ vx_handed_out (sn_wire core) 8 options s rp w.
Proof.
  intros options s. destruct (run_io _ pending_operation s) as [r|] eqn:Hr; [|vm_compute in Hr; discriminate].
  exists r. split; [done|]. assert (Hr' := Hr). vm_compute in Hr'. injection Hr' as <-.
  split; [reflexivity|]. split; [reflexivity|].
  exact (vxi11_read_contract 501 (sn_wire core) 8 options s pending_operation _ ltac:(lia) (vx_at_ok _) ltac:(done) Hr).
Defined.

(** Six bytes in parts of four and two. *)
Lemma vxi11_write_contract_witness :
  let options := mkWriteOptions true in
  let buffer := [42; 73; 68; 78; 63; 10] in
  let s := vx_at [reply_to 5 (be32 0 ++ be32 4); reply_to 6 (be32 0 ++ be32 2)] in
  exists r, run_io (vx_write_io 501 buffer options) pending_operation s = Some r /\
    cr_status r = VI_SUCCESS /\
    exists parts, concat parts = buffer /\ vx_sent (sn_wire core) options s parts [] (cr_backend r).
Proof.
  intros options buffer s. destruct (run_io _ pending_operation s) as [r|] eqn:Hr; [|vm_compute in Hr; discriminate].
  exists r. split; [done|]. assert (Hr' := Hr). vm_compute in Hr'. injection Hr' as <-. split; [reflexivity|].
  destruct (vxi11_write_contract 501 (sn_wire core) buffer options pending_operation s _ (vx_at_ok _) ltac:(done) Hr)
    as (_ & _ & _ & _ & parts & Hparts & _ & Hsent). by exists parts.
Defined.

(** A session that opens, and an exclusive lock the device grants. *)
Lemma vxi11_session_safety_witness :
  let s := vx_at [reply_to 5 (be32 0)] in
  (exists r, @be_lock _ _ (vx_backend 501) pending_operation VI_EXCLUSIVE_LOCK [] s = Some r /\
     cr_status r = VI_SUCCESS /\ device_agrees kDeviceLock s (cr_backend r) (sn_wire core)) /\
  exists opened status n',
    @vx_create _ unit _ (lit "dut") (lit "inst0") 1000 111
      (mkNetScript [reply_to 1 (be32 1024); reply_to 3 (be32 0 ++ be32 7 ++ be32 1025 ++ be32 0)] [] 0) =
      Some (Some opened, status, n') /\ vx_opened opened.
Proof.
  intros s. destruct (vxi11_session_safety 501 (sn_wire core) s pending_operation (vx_at_ok _) ltac:(done))
    as (_ & Hlock & _ & Hcreate). split.
  - destruct (be_lock _ _ _ s) as [r|] eqn:Hr; [|vm_compute in Hr; discriminate].
    exists r. split; [done|]. destruct (Hlock _ _ _ Hr) as [_ Hl]. clear Hlock Hcreate.
    assert (Hr' := Hr). vm_compute in Hr'. injection Hr' as <-. exact (Hl ltac:(done)).
  - destruct (vx_create _ _ _ _ _) as [[[[opened|] status] n']|] eqn:Hc;
      [|vm_compute in Hc; discriminate|vm_compute in Hc; discriminate].
    exists opened, status, n'. split; [done|]. exact (Hcreate _ _ _ _ _ _ _ _ Hc).
Defined.

(** A device that answers reads with nothing, for the requested count. *)
Lemma vxi11_calls_return_witness :
  let s := vx_at [read_reply 5 0 kReasonRequestedCount []; read_reply 6 0 kReasonRequestedCount []] in
  is_Some (@backend_call _ _ (vx_backend 501) (IoRead 8) (mkReadOptions false 0) (mkWriteOptions true)
    pending_operation s) /\ vx_closed (vx_close (H:=unit) s) = true.
Proof.
  intros s. assert (forall n : net_script, (sn_remaining n ((net_now (H:=unit) n).1 + 250) < 501)%nat) as Ht
    by (intros n; unfold sn_remaining; cbn; lia).
  destruct (vxi11_calls_return 501 sn_remaining Ht
    (IoRead 8) (mkReadOptions false 0) (mkWriteOptions true) pending_operation s (vx_at_ok _)) as (Hr & _ & _ & Hc & _).
  - exists 100. split; [done|]. vm_compute. lia.
  - split; [exact Hr|exact Hc].
Defined.

(** ** What goes wrong *)

(** A shared lock is granted without asking the device, but unlocking always asks
    it: the device, which holds no lock for the link, refuses. *)
Lemma vxi11_shared_unlock_is_refused :
  let s := vx_at [reply_to 5 (be32 12)] in
  (r ← @be_lock _ _ (vx_backend 501) pending_operation VI_SHARED_LOCK (lit "key") s;
   r' ← @be_unlock _ _ (vx_backend 501) pending_operation (cr_backend r);
   Some (cr_status r, length (sn_sent (vx_network (cr_backend r))), cr_status r')) =
    Some (VI_SUCCESS, 0%nat, VI_ERROR_SESN_NLOCKED).
Proof. vm_compute. reflexivity. Qed.

(** A read that is cancelled after its message has ended puts the bytes back
    without the end: the next read asks the device for more. *)
Lemma vxi11_cancelled_read_loses_end :
  let options := mkReadOptions false 0 in
  let s := vx_at [read_reply 5 0 kReasonEnd [65; 66]] in
  let aborted := mkOperation (H := unit) VI_ERROR_ABORT None None in
  let read op s := run_io (vx_read_io 501 8 options) op s in
  ((fun r => (cr_status r, cr_data r)) <$> read pending_operation s) = Some (VI_SUCCESS, [65; 66]) /\
  let during :=
    (l <- vx_read_ahead_io 8 options ;;
     l <- io_iter 501 (vx_read_turn 8 options) l ;;
     won <- complete (vx_read_status 8 l) ;;
     modify (vx_restore (vl_data l)) ;;
     io_ret (R := reply) won) (s, aborted) in
  ((fun o => vx_read_ahead (final o).1) <$> during) = Some [65; 66] /\
  (cr_status <$> (o ← during; read pending_operation (final o).1)) = Some VI_ERROR_TMO.
Proof. vm_compute. repeat split; reflexivity. Qed.

(** A termination character behind the requested bytes makes the read report it,
    though the data it returns do not end with it. *)
Lemma vxi11_termchar_behind_data :
  let s := vx_at [read_reply 5 0 kReasonRequestedCount [65; 66; 10]] in
  ((fun r => (cr_status r, cr_data r, vx_read_ahead (cr_backend r))) <$>
    run_io (vx_read_io 501 2 (mkReadOptions true 10)) pending_operation s) =
    Some (VI_SUCCESS_TERM_CHAR, [65; 66], [10]).
Proof. vm_compute. reflexivity. Qed.
