(* ===== verification/MockSession.v ===== *)
(** * The mock instrument: [backends/mock/mock_session.{h,cpp}]

    A queue of bytes that echoes what is written and answers an identification
    query.  The queue and the operation are shared with other threads, so a
    blocking read takes the schedule of its evaluations of the wait predicate. *)

From S2P Require Import Prelude Visa CText Operation Bytes BackendSession.

Section mock.
  Context {H : Type}.

Abbreviation Op := (Operation H).

Record MockBackendSession := mkMock { incoming_ : list Z }.

(** ** Reading *)

(** One evaluation of the predicate [ready]: the queue and the operation as the
    other threads have left them, and whether the deadline has passed. *)
Record mock_evaluation := mkMockEvaluation {
  me_expired : bool;
  me_incoming : list Z;
  me_operation : Op }.

Definition mock_ready (op : Op) (incoming : list Z) : bool :=
  completed op || negb (bool_decide (incoming = [])).

(** The outer loop of [read]: [None] is a call still waiting. *)
Fixpoint mock_wait (schedule : list mock_evaluation) : option (Op * list Z) :=
  match schedule with
  | [] => None
  | ev :: schedule =>
      let op := me_operation ev in
      if mock_ready op (me_incoming ev) then Some (op, me_incoming ev)
      else if bool_decide (deadline_ op = None) then mock_wait schedule
      else if me_expired ev then Some ((try_complete VI_ERROR_TMO op).2, me_incoming ev)
      else mock_wait schedule
  end.

(** The rest of [read], with the mutex held. *)
Definition mock_read_ready (op : Op) (count : Z) (options : ReadOptions) (incoming : list Z)
  : call_result MockBackendSession H :=
  if completed op then mkCall (op_result op) 0 [] (mkMock incoming) op
  else
    let limit := Z.to_nat count in
    let available := Nat.min limit (length incoming) in
    let found := if ro_termchar_enabled options
                 then find_termchar (ro_termchar options) (take available incoming) else None in
    let amount := default available found in
    let status := if found is Some _ then VI_SUCCESS_TERM_CHAR
                  else if Nat.eqb amount limit then VI_SUCCESS_MAX_CNT else VI_SUCCESS in
    let '(won, op') := try_complete status op in
    if negb won then mkCall (op_result op') 0 [] (mkMock incoming) op'
    else mkCall status (u32 (Z.of_nat amount)) (take amount incoming)
           (mkMock (drop amount incoming)) op'.

Definition mock_read (schedule : list mock_evaluation) (count : Z) (options : ReadOptions)
  : option (call_result MockBackendSession H) :=
  '(op, incoming) ← mock_wait schedule;
  Some (mock_read_ready op count options incoming).

(** ** Writing *)

Definition bytes (text : str) : list Z := uchar <$> text.

(** Trailing carriage returns and line feeds removed. *)
Fixpoint strip_reversed (text : list Z) : list Z :=
  match text with
  | b :: rest => if (b =? 13) || (b =? 10) then strip_reversed rest else text
  | [] => []
  end.

Definition strip_newlines (text : list Z) : list Z := rev (strip_reversed (rev text)).

Definition mock_identity : list Z :=
  bytes (lit "WEBREAL,WRVISA-MOCK,0001,0.6") ++ [10].

Definition mock_response (buffer : list Z) : list Z :=
  if bool_decide (strip_newlines buffer = bytes (lit "*IDN?")) then mock_identity else buffer.

Definition mock_write (op : Op) (buffer : list Z) (options : WriteOptions)
    (b : MockBackendSession) : call_result MockBackendSession H :=
  let '(won, op') := try_complete VI_SUCCESS op in
  if negb won then mkCall (op_result op') 0 [] b op'
  else mkCall VI_SUCCESS (Z.of_nat (length buffer)) []
         (mkMock (incoming_ b ++ mock_response buffer)) op'.

(** ** The other operations *)

Definition mock_clear (b : MockBackendSession) : Z * Z * MockBackendSession :=
  (VI_SUCCESS, 0, mkMock []).

Definition mock_flush (mask : Z) (b : MockBackendSession) : Z * Z * MockBackendSession :=
  if negb (valid_flush_mask mask) then (VI_ERROR_INV_MASK, 0, b)
  else if negb (Z.land mask (VI_READ_BUF_DISCARD + VI_IO_IN_BUF_DISCARD) =? 0)
  then (VI_SUCCESS, 0, mkMock [])
  else (VI_SUCCESS, 0, b).

(** [present] tells whether the [status] pointer is not null. *)
Definition mock_read_stb (present : bool) (b : MockBackendSession) : Z * Z * MockBackendSession :=
  if negb present then (VI_ERROR_INV_PARAMETER, 0, b) else (VI_SUCCESS, 0, b).

Definition mock_assert_trigger (protocol : Z) (b : MockBackendSession)
  : Z * Z * MockBackendSession :=
  (if protocol =? VI_TRIG_PROT_DEFAULT then VI_SUCCESS else VI_ERROR_INV_PROT, 0, b).

(** The backend of a session used by one thread at a time: a read finds the
    queue as it is, or waits out its deadline. *)
#[export] Instance mock_backend : BackendSession MockBackendSession H := {|
  be_read op count options b :=
    mock_read [mkMockEvaluation true (incoming_ b) op] count options;
  be_write op buffer options b := Some (mock_write op buffer options b);
  be_clear := forward mock_clear;
  be_flush op mask := forward (mock_flush mask) op;
  be_read_stb op present := forward (mock_read_stb present) op;
  be_assert_trigger op protocol := forward (mock_assert_trigger protocol) op;
  be_usb_control := default_usb_control;
  be_lock := default_lock;
  be_unlock := default_unlock;
  be_set_attribute := default_set_attribute;
  be_get_attribute := default_get_attribute;
  be_close := default_close;
  be_notify_cancel b := b |}.

(** ** Sequences of calls *)

(** Each call runs under an operation of its own, in whatever state other
    threads have left it when the call takes the mutex. *)
Inductive mock_call :=
| CallWrite (op : Op) (buffer : list Z) (options : WriteOptions)
| CallRead (op : Op) (count : Z) (options : ReadOptions).

Definition mock_call_step (c : mock_call) (b : MockBackendSession)
  : call_result MockBackendSession H :=
  match c with
  | CallWrite op buffer options => mock_write op buffer options b
  | CallRead op count options => mock_read_ready op count options (incoming_ b)
  end.

(** What a call that reports success adds to the stream of responses. *)
Definition call_response (c : mock_call) : list Z :=
  match c with
  | CallWrite op buffer _ => if completed op then [] else mock_response buffer
  | CallRead _ _ _ => []
  end.

(** The bytes the reads of a sequence of calls return, and the final state. *)
Fixpoint mock_run (calls : list mock_call) (b : MockBackendSession) : list Z * MockBackendSession :=
  match calls with
  | [] => ([], b)
  | c :: calls =>
      let r := mock_call_step c b in
      let '(data, b') := mock_run calls (cr_backend r) in
      (cr_data r ++ data, b')
  end.

(** ** Lemmas *)

Lemma mock_read_conserves op count options incoming :
  let r := mock_read_ready op count options incoming in
  cr_data r ++ incoming_ (cr_backend r) = incoming.
Proof.
  unfold mock_read_ready. destruct (completed op) eqn:Hc; [done|].
  rewrite try_complete_fresh by done. simpl. apply take_drop.
Qed.

Lemma mock_write_appends op buffer options b :
  incoming_ (cr_backend (mock_write op buffer options b)) =
    incoming_ b ++ call_response (CallWrite op buffer options) /\
  cr_data (mock_write op buffer options b) = [].
Proof.
  unfold mock_write. simpl. destruct (completed op) eqn:Hc.
  - rewrite try_complete_done by done. simpl. by rewrite app_nil_r.
  - by rewrite try_complete_fresh.
Qed.

(** ** Properties *)

(** What a read returns: it takes a prefix of the queue of at most [count]
    bytes and reports its length; a call whose operation was cancelled or timed
    out takes nothing and reports that status; otherwise the operation is
    completed with the reported status, which is [VI_SUCCESS_TERM_CHAR] exactly
    when the prefix ends at the first termination character,
    [VI_SUCCESS_MAX_CNT] when it has [count] bytes and no termination
    character, [VI_SUCCESS] when it is the whole shorter queue. *)
Theorem mock_read_spec op count options incoming :
  0 < count < 2 ^ 32 ->
  let r := mock_read_ready op count options incoming in
  let data := cr_data r in
  let tc := ro_termchar options in
  data ++ incoming_ (cr_backend r) = incoming /\
  cr_value r = Z.of_nat (length data) /\ cr_value r <= count /\
  (completed op = true -> cr_status r = op_result op /\ data = [] /\ cr_operation r = op) /\
  (completed op = false ->
     op_result (cr_operation r) = cr_status r /\
     ((cr_status r = VI_SUCCESS_TERM_CHAR /\ ro_termchar_enabled options = true /\
        exists pre, data = pre ++ [tc] /\ tc ∉ pre) \/
      ((ro_termchar_enabled options = true -> tc ∉ data) /\
        (cr_status r = VI_SUCCESS_MAX_CNT /\ Z.of_nat (length data) = count \/
         cr_status r = VI_SUCCESS /\ data = incoming /\ Z.of_nat (length data) < count)))).
Proof.
  intros Hcount r data tc. split; [apply mock_read_conserves|]. subst data tc.
  unfold mock_read_ready in *. destruct (completed op) eqn:Hc; [split; [done|]; split; [simpl; lia|done]|].
  subst r. rewrite try_complete_fresh by done. cbn [negb cr_data cr_value cr_status cr_operation].
  set (available := Nat.min (Z.to_nat count) (length incoming)).
  set (found := if ro_termchar_enabled options then _ else None).
  assert (forall n, found = Some n -> (n <= available)%nat /\ ro_termchar_enabled options = true /\
    exists pre, take n incoming = pre ++ [ro_termchar options] /\ ro_termchar options ∉ pre) as Hfound.
  { intros n Hn. subst found. destruct (ro_termchar_enabled options); [|done].
    apply find_termchar_Some in Hn as (pre & Ht & Hin & Hl). rewrite length_take in Hl.
    split; [lia|]. split; [done|]. exists pre. by rewrite take_take, Nat.min_l in Ht by lia. }
  assert (default available found <= available)%nat as Hle
    by (destruct found as [n|]; [by apply Hfound|done]).
  assert (length (take (default available found) incoming) = default available found) as Hlen
    by (rewrite length_take; lia).
  rewrite Hlen. unfold u32. rewrite Z.mod_small by lia.
  split; [done|]. split; [lia|]. split; [done|]. intros _. split; [done|].
  destruct found as [n|] eqn:Hf.
  - left. simpl. destruct (Hfound n eq_refl) as (_ & ? & ?). done.
  - right. simpl in *. split.
    + intros Hen. subst found. rewrite Hen in Hf. by apply find_termchar_None.
    + destruct (Nat.eqb_spec available (Z.to_nat count)); [left; split; [done|lia]|].
      right. split; [done|]. split; [apply take_ge; lia|lia].
Qed.

(** The mock is a reliable byte stream: whatever sequence of writes and
    reads is made, in whatever state each call's operation is, the responses to
    the accepted writes come out of the reads in order, each byte once; what
    has not been read is what is still queued. *)
Theorem mock_stream calls b :
  incoming_ b ++ concat (map call_response calls) =
    (mock_run calls b).1 ++ incoming_ (mock_run calls b).2.
Proof.
  revert b. induction calls as [|c calls IH]; intros b; simpl; [by rewrite app_nil_r|].
  specialize (IH (cr_backend (mock_call_step c b))).
  destruct (mock_run calls _) as [data b']. simpl in *. rewrite <- app_assoc, <- IH.
  rewrite !app_assoc. f_equal. destruct c as [op buffer options|op count options]; simpl.
  - pose proof (mock_write_appends op buffer options b) as [-> ->]. done.
  - rewrite app_nil_r. symmetry. apply mock_read_conserves.
Qed.

(** The laws of the interface. *)
#[export] Instance mock_laws : BackendLaws MockBackendSession H.
Proof.
  split.
  - intros c ro wo op b r Hr. destruct c; simpl in Hr;
      try (by eapply forward_keeps_result); try (by injection Hr as <-).
    + unfold mock_read in Hr. simpl in Hr.
      assert (forall op1, keeps_result op1 (cr_operation (mock_read_ready op1 count ro (incoming_ b)))) as Hk.
      { intros op1. unfold mock_read_ready. destruct (completed op1) eqn:Hc; [done|].
        rewrite try_complete_fresh by done. intros Hc2. by rewrite Hc in Hc2. }
      destruct (mock_ready op (incoming_ b)); [injection Hr as <-; apply Hk|].
      case_bool_decide; [done|]. injection Hr as <-.
      eapply keeps_result_trans; [apply keeps_result_try_complete|apply Hk].
    + injection Hr as <-. unfold mock_write.
      pose proof (keeps_result_try_complete VI_SUCCESS op) as Hk.
      destruct (try_complete VI_SUCCESS op) as [[] op']; exact Hk.
  - intros op lock_type key b r [= <-] Hf. exact Hf.
  - intros op b r [= <-] Hf. exact Hf.
Qed.

End mock.

Arguments mock_evaluation H : clear implicits.
Arguments mock_call H : clear implicits.

(** ** Witness *)

Lemma mock_read_spec_witness :
  let op := mkOperation (H := unit) kPending None None in
  let r := mock_read_ready op 10 (mkReadOptions true 10) [65; 10; 66] in
  cr_data r = [65; 10] /\ cr_status r = VI_SUCCESS_TERM_CHAR /\ cr_value r <= 10.
Proof.
  intros op r. split; [reflexivity|]. split; [reflexivity|].
  apply (mock_read_spec op 10 (mkReadOptions true 10) [65; 10; 66]). lia.
Defined.
