(* ===== verification/GpibSession.v ===== *)
(** * GPIB sessions: [backends/gpib/gpib_session.{h,cpp}], [gpib_transport.h]

    The session reads a stream of bytes and END marks from its transport and
    keeps what a read does not hand out.  The transport is a type class: its
    implementations own the controller. *)

From S2P Require Import Prelude Visa Operation Bytes BackendSession Stream Io.

Record GpibCapabilities := mkGpibCapabilities {
  gc_send_end : bool;
  gc_device_clear : bool;
  gc_trigger : bool;
  gc_serial_poll : bool }.

(** A call gives its status, its output parameters, and the operation and the
    transport as it leaves them. *)
Class GpibTransport (T H : Type) := {
  gt_capabilities : T -> GpibCapabilities;
  gt_read : Operation H -> Z -> T -> option (Z * (list Z * bool) * Operation H * T);
  gt_write : Operation H -> list Z -> bool -> T -> option (Z * Z * Operation H * T);
  gt_clear : Operation H -> T -> option (Z * unit * Operation H * T);
  gt_trigger : Operation H -> T -> option (Z * unit * Operation H * T);
  gt_serial_poll : Operation H -> T -> option (Z * Z * Operation H * T);
  gt_discard_read_buffer : T -> T;
  gt_cancel : T -> T;
  gt_close : T -> T }.

(** No call changes the result of an operation that has completed. *)
Class GpibTransportLaws (T H : Type) `{GpibTransport T H} : Prop := {
  gt_read_later op n t r op' t' : gt_read op n t = Some (r, op', t') -> later op op';
  gt_write_later op d e t r op' t' : gt_write op d e t = Some (r, op', t') -> later op op';
  gt_clear_later op t r op' t' : gt_clear op t = Some (r, op', t') -> later op op';
  gt_trigger_later op t r op' t' : gt_trigger op t = Some (r, op', t') -> later op op';
  gt_serial_poll_later op t r op' t' : gt_serial_poll op t = Some (r, op', t') -> later op op' }.

(** [clear] and [trigger] as the base class defines them, and [serial_poll],
    which leaves [status_byte] as the session initialised it. *)
Definition gpib_unsupported {H T} (op : Operation H) (t : T) : option (Z * unit * Operation H * T) :=
  Some (VI_ERROR_NSUP_OPER, tt, op, t).

Definition gpib_no_poll {H T} (op : Operation H) (t : T) : option (Z * Z * Operation H * T) :=
  Some (VI_ERROR_NSUP_OPER, 0, op, t).

Record GpibBackendSession (T : Type) := mkGpib {
  gb_transport : T;
  gb_capabilities : GpibCapabilities;
  gb_read_ahead : list Z;
  gb_read_ahead_end : bool }.
Arguments mkGpib {_} _ _ _ _.
Arguments gb_transport {_} _.
Arguments gb_capabilities {_} _.
Arguments gb_read_ahead {_} _.
Arguments gb_read_ahead_end {_} _.

Section gpib.
  Context {T H : Type} `{GpibTransport T H}.

Abbreviation Session := (GpibBackendSession T).
Abbreviation IO R A := (io (Session * Operation H) R A).

Definition gpib_make (t : T) : Session := mkGpib t (gt_capabilities t) [] false.

Definition gb_with_transport (t : T) (s : Session) : Session :=
  mkGpib t (gb_capabilities s) (gb_read_ahead s) (gb_read_ahead_end s).

Definition gb_with_ahead (data : list Z) (e : bool) (s : Session) : Session :=
  mkGpib (gb_transport s) (gb_capabilities s) data e.

(** A call of the transport, under the operation of the session's call. *)
Definition gpib_transfer {R X} (f : Operation H -> T -> option (Z * X * Operation H * T)) : IO R (Z * X) :=
  fun w =>
    match f w.2 (gb_transport w.1) with
    | Some (status, x, op', t') => Some (Next (status, x) (gb_with_transport t' w.1, op'))
    | None => None
    end.

Definition restore_read_ahead (data : list Z) (e : bool) (s : Session) : Session :=
  gb_with_ahead (data ++ gb_read_ahead s) (if e then true else gb_read_ahead_end s) s.

(** ** Reading *)

(** The local variables of [read]. *)
Record gpib_locals := mkGpibLocals { gl_received : list Z; gl_end : bool }.

(** The part of a turn that fetches bytes: the new locals, or [inr] when the
    loop is left because an END mark was all there was. *)
Definition gpib_fetch (count : Z) (l : gpib_locals) : IO reply (gpib_locals + gpib_locals) :=
  ahead <- get gb_read_ahead ;;
  ahead_end <- get gb_read_ahead_end ;;
  let received := gl_received l in
  let maximum := count - Z.of_nat (length received) in
  match ahead with
  | [] =>
      if (ahead_end : bool) then
        modify (gb_with_ahead [] false) ;; io_ret (inr (mkGpibLocals received true))
      else
        r <- gpib_transfer (fun op => gt_read op maximum) ;;
        let '(status, (chunk, chunk_end)) := r in
        if status <? VI_SUCCESS then
          modify (restore_read_ahead received (gl_end l)) ;; io_return (status_only status)
        else if (maximum <? Z.of_nat (length chunk)) || (bool_decide (chunk = []) && negb chunk_end) then
          modify (restore_read_ahead received (gl_end l)) ;; io_return (status_only VI_ERROR_IO)
        else io_ret (inl (mkGpibLocals (received ++ chunk) chunk_end))
  | _ =>
      let amount := Nat.min (Z.to_nat maximum) (length ahead) in
      let rest := drop amount ahead in
      let e := bool_decide (rest = []) && ahead_end in
      modify (gb_with_ahead rest (if e then false else ahead_end)) ;;
      io_ret (inl (mkGpibLocals (received ++ take amount ahead) (gl_end l || e)))
  end.

(** One turn of the loop; it ends with the locals and [amount] when a
    termination character was found. *)
Definition gpib_turn (count : Z) (options : ReadOptions) (l : gpib_locals)
  : IO reply (gpib_locals + gpib_locals * option nat) :=
  if negb (Z.of_nat (length (gl_received l)) <? count) || gl_end l then io_ret (inr (l, None))
  else
    fetched <- gpib_fetch count l ;;
    match fetched with
    | inr l => io_ret (inr (l, None))
    | inl l =>
        if ro_termchar_enabled options then
          match find_termchar (ro_termchar options) (gl_received l) with
          | Some amount => io_ret (inr (l, Some amount))
          | None => io_ret (inl l)
          end
        else io_ret (inl l)
    end.

(** A turn leaves the loop or receives a byte, and [count] bytes end it. *)
Definition gpib_read_fuel (count : Z) : nat := Z.to_nat count + 2.

Definition gpib_read_io (count : Z) (options : ReadOptions) : IO reply reply :=
  done <- operation_is completed ;;
  if (done : bool) then return_result status_only
  else
    result <- io_iter (gpib_read_fuel count) (gpib_turn count options) (mkGpibLocals [] false) ;;
    let '(l, found) := result in
    let received := gl_received l in
    let amount := default (length received) found in
    let completion_status :=
      if found is Some _ then VI_SUCCESS_TERM_CHAR
      else if Z.of_nat amount =? count then VI_SUCCESS_MAX_CNT else VI_SUCCESS in
    won <- complete completion_status ;;
    if negb won then
      modify (restore_read_ahead received (gl_end l)) ;; return_result status_only
    else
      (when Nat.ltb amount (length received) do
         modify (restore_read_ahead (drop amount received) (gl_end l))) ;;
      io_ret (mkReply completion_status (u32 (Z.of_nat amount)) (take amount received)).

Definition gpib_read (op : Operation H) (count : Z) (options : ReadOptions) (s : Session)
  : option (call_result Session H) := run_io (gpib_read_io count options) op s.

(** ** The other operations *)

Definition gpib_write_io (buffer : list Z) (options : WriteOptions) : IO reply reply :=
  caps <- get gb_capabilities ;;
  if wo_send_end options && negb (gc_send_end caps) then io_return (status_only VI_ERROR_NSUP_OPER)
  else
    done <- operation_is completed ;;
    if (done : bool) then return_result status_only
    else
      r <- gpib_transfer (fun op => gt_write op buffer (wo_send_end options)) ;;
      let '(status, transferred) := r in
      if status <? VI_SUCCESS then io_return (status_only status)
      else if negb (transferred =? Z.of_nat (length buffer)) then io_return (status_only VI_ERROR_IO)
      else
        won <- complete status ;;
        if negb won then return_result status_only
        else io_ret (mkReply status (u32 transferred) []).

Definition gpib_discard (s : Session) : Session :=
  gb_with_ahead [] false (gb_with_transport (gt_discard_read_buffer (gb_transport s)) s).

Definition gpib_clear_io : IO reply reply :=
  caps <- get gb_capabilities ;;
  if negb (gc_device_clear caps) then io_return (status_only VI_ERROR_NSUP_OPER)
  else
    done <- operation_is completed ;;
    if (done : bool) then return_result status_only
    else
      r <- gpib_transfer gt_clear ;;
      (when VI_SUCCESS <=? r.1 do modify gpib_discard) ;;
      io_ret (status_only r.1).

Definition flush_locked (mask : Z) : IO reply reply :=
  if negb (valid_flush_mask mask) then io_return (status_only VI_ERROR_INV_MASK)
  else
    (when negb (Z.land mask (VI_READ_BUF_DISCARD + VI_IO_IN_BUF_DISCARD) =? 0) do modify gpib_discard) ;;
    io_ret (status_only VI_SUCCESS).

Definition gpib_flush_io (mask : Z) : IO reply reply :=
  if negb (valid_flush_mask mask) then io_return (status_only VI_ERROR_INV_MASK)
  else
    done <- operation_is completed ;;
    if (done : bool) then return_result status_only else flush_locked mask.

(** [present] tells whether the [status] pointer is not null. *)
Definition gpib_read_stb_io (present : bool) : IO reply reply :=
  if negb present then io_return (status_only VI_ERROR_INV_PARAMETER)
  else
    caps <- get gb_capabilities ;;
    if negb (gc_serial_poll caps) then io_return (status_only VI_ERROR_NSUP_OPER)
    else
      done <- operation_is completed ;;
      if (done : bool) then return_result status_only
      else
        r <- gpib_transfer gt_serial_poll ;;
        let '(result, value) := r in
        if result <? VI_SUCCESS then io_return (status_only result)
        else
          won <- complete result ;;
          if negb won then return_result status_only else io_ret (mkReply result value []).

Definition gpib_assert_trigger_io (protocol : Z) : IO reply reply :=
  if negb (protocol =? VI_TRIG_PROT_DEFAULT) then io_return (status_only VI_ERROR_INV_PROT)
  else
    caps <- get gb_capabilities ;;
    if negb (gc_trigger caps) then io_return (status_only VI_ERROR_NSUP_OPER)
    else
      done <- operation_is completed ;;
      if (done : bool) then return_result status_only
      else r <- gpib_transfer gt_trigger ;; io_ret (status_only r.1).

#[export] Instance gpib_backend : BackendSession Session H := {|
  be_read := gpib_read;
  be_write op buffer options := run_io (gpib_write_io buffer options) op;
  be_clear op := run_io gpib_clear_io op;
  be_flush op mask := run_io (gpib_flush_io mask) op;
  be_read_stb op present := run_io (gpib_read_stb_io present) op;
  be_assert_trigger op protocol := run_io (gpib_assert_trigger_io protocol) op;
  be_usb_control := default_usb_control;
  be_lock := default_lock;
  be_unlock := default_unlock;
  be_set_attribute := default_set_attribute;
  be_get_attribute := default_get_attribute;
  be_close s := gb_with_transport (gt_close (gb_transport s)) s;
  be_notify_cancel s := gb_with_transport (gt_cancel (gb_transport s)) s |}.

(** ** The operation *)

Section laws.
  Context `{!GpibTransportLaws T H}.

Lemma gpib_transfer_later {R X} (f : Operation H -> T -> option (Z * X * Operation H * T)) :
  (forall op t r op' t', f op t = Some (r, op', t') -> later op op') ->
  steady ops_later (gpib_transfer (R:=R) f).
Proof.
  intros Hf w o. unfold gpib_transfer. destruct (f _ _) as [[[[status x] op'] t']|] eqn:E; [|done].
  intros [= <-]. apply (Hf _ _ _ _ _ E).
Qed.

Lemma gpib_read_later count options : steady ops_later (gpib_read_io count options).
Proof.
  unfold gpib_read_io, gpib_turn, gpib_fetch. steady.
  apply gpib_transfer_later. intros. by eapply gt_read_later.
Qed.

#[export] Instance gpib_laws : BackendLaws Session H.
Proof.
  split.
  - intros c ro wo op b r Hr.
    assert (forall m, steady ops_later m -> run_io m op b = Some r -> keeps_result op (cr_operation r))
      as Hrun by (intros m Hm Hrun; by apply (run_io_later m op b r)).
    destruct c; cbn in Hr; try (by injection Hr as <-); eapply Hrun in Hr; try done.
    + apply gpib_read_later.
    + unfold gpib_write_io. steady. apply gpib_transfer_later. intros. by eapply gt_write_later.
    + unfold gpib_clear_io. steady. apply gpib_transfer_later. intros. by eapply gt_clear_later.
    + unfold gpib_flush_io, flush_locked. steady.
    + unfold gpib_read_stb_io. steady. apply gpib_transfer_later. intros. by eapply gt_serial_poll_later.
    + unfold gpib_assert_trigger_io. steady. apply gpib_transfer_later. intros. by eapply gt_trigger_later.
  - intros op lock_type key b r [= <-] Hf. exact Hf.
  - intros op b r [= <-] Hf. exact Hf.
Qed.

End laws.

(** ** What a read returns *)

Definition ahead_events (s : Session) : list (option Z) :=
  events (gb_read_ahead s) (gb_read_ahead_end s).

(** What a successful transfer within its limits delivers. *)
Definition gpib_delivered (maximum status : Z) (chunk : list Z) (e : bool) : list (option Z) :=
  if (status <? VI_SUCCESS) || (maximum <? Z.of_nat (length chunk))
     || (bool_decide (chunk = []) && negb e)
  then [] else events chunk e.

Lemma restore_events data e s :
  (e = true -> ahead_events s = []) ->
  ahead_events (restore_read_ahead data e s) = events data e ++ ahead_events s.
Proof.
  unfold ahead_events, restore_read_ahead, gb_with_ahead. cbn [gb_read_ahead gb_read_ahead_end].
  rewrite events_app. intros He. destruct e; [|done].
  specialize (He eq_refl). rewrite He. apply events_nil in He as [-> _].
  unfold events. by rewrite !app_nil_r.
Qed.

Section reading.
  (** A view of what the transport has delivered so far. *)
  Context (wire : T -> list (option Z)).
  Hypothesis wire_read : forall op n t status chunk e op' t',
    gt_read op n t = Some (status, (chunk, e), op', t') ->
    wire t' = wire t ++ gpib_delivered n status chunk e.

Section one_read.
  Context (s0 : Session) (count : Z) (options : ReadOptions).

(** The events before the call and those delivered since are [taken] followed
    by what is kept. *)
Definition conserved (taken : list (option Z)) (s : Session) : Prop :=
  exists new, wire (gb_transport s) = wire (gb_transport s0) ++ new /\
    ahead_events s0 ++ new = taken ++ ahead_events s.

Definition gpib_inv (l : gpib_locals) (w : Session * Operation H) : Prop :=
  conserved (events (gl_received l) (gl_end l)) w.1 /\
  (gl_end l = true -> ahead_events w.1 = []) /\
  Z.of_nat (length (gl_received l)) <= count.

Definition gpib_failed (r : reply) (w : Session * Operation H) : Prop :=
  rp_status r < VI_SUCCESS /\ rp_data r = [] /\ rp_value r = 0 /\ conserved [] w.1.

Lemma conserved_start : conserved [] s0.
Proof. exists []. by rewrite !app_nil_r. Qed.

Lemma gpib_inv_start op : 0 <= count -> gpib_inv (mkGpibLocals [] false) (s0, op).
Proof. intros Hcount. split; [apply conserved_start|done]. Qed.

Lemma gpib_inv_restore l w :
  gpib_inv l w -> conserved [] (restore_read_ahead (gl_received l) (gl_end l) w.1).
Proof.
  intros ((new & Hw & Hc) & He & _). exists new. split; [done|]. by rewrite restore_events.
Qed.

Lemma gpib_fetch_ahead l w :
  gpib_inv l w -> gl_end l = false -> Z.of_nat (length (gl_received l)) < count ->
  gb_read_ahead w.1 ≠ [] ->
  holds (gpib_fetch count l) w (fun o =>
    match o with
    | Next (inl l') w' => gpib_inv l' w' /\ (length (gl_received l) < length (gl_received l'))%nat
    | _ => False
    end).
Proof.
  intros ((new & Hw & Hc) & _ & Hlen) He Hlt Hne. unfold gpib_fetch.
  apply holds_bind, holds_gets. apply holds_bind, holds_gets.
  destruct (gb_read_ahead w.1) as [|a ahead'] eqn:Ha; [done|].
  set (ahead := a :: ahead') in *. set (amount := Nat.min _ _).
  assert (0 < amount <= length ahead)%nat as Hamount by (unfold amount, ahead; cbn [length]; lia).
  assert (amount <= Z.to_nat (count - Z.of_nat (length (gl_received l))))%nat as Hmax by (unfold amount; lia).
  clearbody amount. rewrite He in *.
  apply holds_bind, holds_modify, holds_ret. cbn [gl_received gl_end fst].
  rewrite length_app, length_take. split; [|lia]. split; [|split].
  - exists new. split; [done|]. rewrite Hc. unfold ahead_events. rewrite Ha.
    unfold gb_with_ahead. cbn [gb_read_ahead gb_read_ahead_end fst gl_received gl_end orb].
    rewrite events_app, <- app_assoc. f_equal.
    rewrite <- (take_drop amount ahead) at 1. rewrite events_app.
    unfold events. rewrite !app_nil_r, <- app_assoc. f_equal.
    case_bool_decide as Hr; [|done]. rewrite Hr. by destruct (gb_read_ahead_end w.1).
  - unfold ahead_events. cbn. case_bool_decide as Hr; [|done]. cbn. intros ->. by rewrite Hr.
  - cbn [gl_received]. rewrite length_app, length_take. lia.
Qed.

Lemma gpib_fetch_transport l w :
  gpib_inv l w -> gl_end l = false -> Z.of_nat (length (gl_received l)) < count ->
  gb_read_ahead w.1 = [] ->
  holds (gpib_fetch count l) w (fun o =>
    match o with
    | Next (inl l') w' => gpib_inv l' w' /\
        ((length (gl_received l) < length (gl_received l'))%nat \/
         gl_end l' = true /\ gl_received l' = gl_received l)
    | Next (inr l') w' => gpib_inv l' w' /\ gl_end l' = true /\ gl_received l' = gl_received l
    | Return r w' => gpib_failed r w'
    end).
Proof.
  intros ((new & Hw & Hc) & _ & Hlen) He Hlt Ha. unfold gpib_fetch.
  apply holds_bind, holds_gets. apply holds_bind, holds_gets. rewrite Ha.
  destruct (gb_read_ahead_end w.1) eqn:Hae.
  { apply holds_bind, holds_modify, holds_ret. cbn. rewrite He in Hc. split; [|done]. split; [|done].
    exists new. split; [done|]. rewrite Hc. unfold ahead_events. rewrite Ha, Hae. unfold events.
    cbn. by rewrite !app_nil_r. }
  assert (ahead_events w.1 = []) as Hempty by (unfold ahead_events; by rewrite Ha, Hae).
  apply holds_bind. intros o. unfold gpib_transfer.
  destruct (gt_read _ _ _) as [[[[status [chunk e]] op'] t']|] eqn:Hr; [|done]. intros [= <-].
  pose proof (wire_read _ _ _ _ _ _ _ _ Hr) as Hdel. unfold gpib_delivered in Hdel.
  set (s1 := gb_with_transport t' w.1).
  assert (ahead_events s1 = []) as Hempty1 by done.
  assert (gpib_delivered (count - Z.of_nat (length (gl_received l))) status chunk e = [] ->
    gpib_inv l (s1, op')) as Hfail.
  { intros Hd. split; [|split; [by rewrite He|done]]. exists new. split.
    - cbn. rewrite Hdel. unfold gpib_delivered in Hd. rewrite Hd, app_nil_r. done.
    - cbn [fst]. by rewrite Hc, Hempty, Hempty1. }
  unfold gpib_delivered in Hfail.
  destruct (Z.ltb_spec status VI_SUCCESS) as [Hst|Hst]; cbn [orb] in Hfail, Hdel.
  { apply holds_bind, holds_modify, holds_return. split; [done|]. split; [done|]. split; [done|].
    by apply (gpib_inv_restore l (s1, op')), Hfail. }
  destruct (_ || _) eqn:Hbad.
  { apply holds_bind, holds_modify, holds_return. split; [done|]. split; [done|]. split; [done|].
    by apply (gpib_inv_restore l (s1, op')), Hfail. }
  apply holds_ret. apply orb_false_iff in Hbad as [Hmax Hne]. apply Z.ltb_ge in Hmax.
  cbn [gl_received gl_end]. rewrite length_app. split.
  - split; [|split; [done|cbn [gl_received]; rewrite length_app; lia]].
    exists (new ++ events chunk e). cbn [fst]. split; [by rewrite app_assoc, <- Hw, <- Hdel|].
    cbn [gl_received gl_end].
    by rewrite app_assoc, Hc, Hempty, Hempty1, He, !app_nil_r, events_app.
  - destruct chunk; [|left; cbn [length]; lia]. right. cbn in Hne.
    apply negb_false_iff in Hne. by rewrite app_nil_r.
Qed.

Lemma gpib_fetch_spec l w :
  gpib_inv l w -> gl_end l = false -> Z.of_nat (length (gl_received l)) < count ->
  holds (gpib_fetch count l) w (fun o =>
    match o with
    | Next (inl l') w' => gpib_inv l' w' /\
        ((length (gl_received l) < length (gl_received l'))%nat \/
         gl_end l' = true /\ gl_received l' = gl_received l)
    | Next (inr l') w' => gpib_inv l' w' /\ gl_end l' = true /\ gl_received l' = gl_received l
    | Return r w' => gpib_failed r w'
    end).
Proof.
  intros Hi He Hlt. destruct (decide (gb_read_ahead w.1 = [])); [by apply gpib_fetch_transport|].
  eapply holds_mono; [by apply gpib_fetch_ahead|]. intros [[l'|l'] w'|r w']; [|done|done].
  intros [? ?]. auto.
Qed.

Definition no_termchar (data : list Z) : Prop :=
  ro_termchar_enabled options = true -> ro_termchar options ∉ data.

(** The loop has ended with these locals. *)
Definition gpib_done (l : gpib_locals) (found : option nat) (w : Session * Operation H) : Prop :=
  gpib_inv l w /\
  match found with
  | Some amount => ro_termchar_enabled options = true /\
      find_termchar (ro_termchar options) (gl_received l) = Some amount
  | None => no_termchar (gl_received l) /\
      (Z.of_nat (length (gl_received l)) = count \/ gl_end l = true)
  end.

Lemma gpib_turn_spec l w :
  gpib_inv l w -> no_termchar (gl_received l) ->
  holds (gpib_turn count options l) w (fun o =>
    match o with
    | Next (inl l') w' => gpib_inv l' w' /\ no_termchar (gl_received l') /\ gl_end l = false /\
        ((length (gl_received l) < length (gl_received l'))%nat \/
         gl_end l' = true /\ gl_received l' = gl_received l)
    | Next (inr (l', found)) w' => gpib_done l' found w'
    | Return r w' => gpib_failed r w'
    end).
Proof.
  intros Hi Hn. unfold gpib_turn. pose proof Hi as (_ & _ & Hlen).
  destruct (gl_end l) eqn:He; [rewrite orb_true_r; apply holds_ret; split; [done|]; split; [done|]; by right|].
  destruct (Z.ltb_spec (Z.of_nat (length (gl_received l))) count) as [Hlt|Hge]; cbn [negb orb].
  2:{ apply holds_ret. split; [done|]. split; [done|]. left. lia. }
  apply holds_bind. eapply holds_mono; [by apply gpib_fetch_spec|].
  intros [[l'|l'] w'|r w']; [| |done].
  - intros [Hi' Hp]. destruct (ro_termchar_enabled options) eqn:Hen.
    + destruct (find_termchar _ _) as [amount|] eqn:Hf; apply holds_ret; [done|].
      apply find_termchar_None in Hf. split; [done|]. split; [by intros _|]. done.
    + apply holds_ret. split; [done|]. split; [|done]. intros Hen'. by rewrite Hen in Hen'.
  - intros (Hi' & He' & Heq). apply holds_ret. split; [done|]. rewrite Heq. auto.
Qed.

(** A call that hands out nothing keeps everything. *)
Definition gpib_refused (r : reply) (w : Session * Operation H) : Prop :=
  rp_data r = [] /\ rp_value r = 0 /\ conserved [] w.1 /\
  (rp_status r < VI_SUCCESS \/ rp_status r = op_result w.2).

(** A call that succeeds: its operation has its status, and its data are the
    next bytes of the stream, up to a termination character, [count] bytes or
    an END mark. *)
Definition gpib_handed_out (r : reply) (w : Session * Operation H) : Prop :=
  op_result w.2 = rp_status r /\ rp_value r = Z.of_nat (length (rp_data r)) /\ rp_value r <= count /\
  exists ended, conserved (events (rp_data r) ended) w.1 /\
    (rp_status r = VI_SUCCESS_TERM_CHAR /\ ro_termchar_enabled options = true /\
       (exists pre, rp_data r = pre ++ [ro_termchar options] /\ ro_termchar options ∉ pre) \/
     no_termchar (rp_data r) /\
       (rp_status r = VI_SUCCESS_MAX_CNT /\ rp_value r = count \/
        rp_status r = VI_SUCCESS /\ rp_value r < count /\ ended = true)).

Lemma conserved_split (l : gpib_locals) (w : Session * Operation H) amount :
  gpib_inv l w -> (amount < length (gl_received l))%nat ->
  conserved (events (take amount (gl_received l)) false)
    (restore_read_ahead (drop amount (gl_received l)) (gl_end l) w.1).
Proof.
  intros ((new & Hw & Hc) & He & _) Hlt. exists new. split; [done|].
  rewrite restore_events by done. rewrite Hc, app_assoc. f_equal.
  by rewrite <- events_app, take_drop.
Qed.

Lemma gpib_finish_spec l found w :
  0 < count < 2 ^ 32 -> gpib_done l found w ->
  forall status (amount : nat),
  amount = default (length (gl_received l)) found ->
  status = (if found is Some _ then VI_SUCCESS_TERM_CHAR
            else if Z.of_nat amount =? count then VI_SUCCESS_MAX_CNT else VI_SUCCESS) ->
  forall op', op_result op' = status ->
  let s' := if Nat.ltb amount (length (gl_received l))
            then restore_read_ahead (drop amount (gl_received l)) (gl_end l) w.1 else w.1 in
  gpib_handed_out (mkReply status (u32 (Z.of_nat amount)) (take amount (gl_received l))) (s', op').
Proof.
  intros Hcount [Hi Hd] status amount Ha Hst op' Hop s'. pose proof Hi as (Hc & He & Hlen).
  assert (amount <= length (gl_received l))%nat as Hle.
  { subst amount. destruct found as [n|]; [|done]. destruct Hd as [_ Hf].
    apply find_termchar_Some in Hf as (_ & _ & _ & ?). done. }
  assert (length (take amount (gl_received l)) = amount) as Hl by (rewrite length_take; lia).
  assert (u32 (Z.of_nat amount) = Z.of_nat amount) as Hu by (unfold u32; apply Z.mod_small; lia).
  split; [done|]. cbn [rp_value rp_data rp_status fst]. rewrite Hl, Hu. split; [done|]. split; [lia|].
  exists (if Nat.ltb amount (length (gl_received l)) then false else gl_end l). split.
  { subst s'. destruct (Nat.ltb_spec amount (length (gl_received l))) as [Hlt|Hge].
    - by apply conserved_split.
    - rewrite take_ge by lia. exact Hc. }
  destruct found as [n|]; subst status; cbn in Ha.
  - subst amount. destruct Hd as [Hen Hf]. apply find_termchar_Some in Hf as (pre & Ht & Hin & _).
    left. split; [done|]. split; [done|]. by exists pre.
  - right. destruct Hd as [Hno Hend]. rewrite take_ge by lia. split; [done|].
    destruct (Z.eqb_spec (Z.of_nat amount) count); [by left|]. right.
    destruct Hend as [|Hend]; [lia|]. split; [done|]. split; [lia|].
    by rewrite (proj2 (Nat.ltb_ge _ _)) by lia.
Qed.

End one_read.
(** Every turn that goes on has received a byte or an END mark. *)
Lemma gpib_loop_returns count options s l w :
  (forall op n t, is_Some (gt_read op n t)) ->
  gpib_inv s count l w -> no_termchar options (gl_received l) ->
  is_Some (io_iter (gpib_read_fuel count) (gpib_turn count options) l w).
Proof.
  intros Htotal Hi Hn.
  apply (iter_returns (fun l w => gpib_inv s count l w /\ no_termchar options (gl_received l))
    (fun l _ => Z.to_nat (count - Z.of_nat (length (gl_received l))) + if gl_end l then 0 else 1)%nat);
    [|done|unfold gpib_read_fuel; destruct (gl_end l); lia].
  clear l w Hi Hn. intros l w [Hi Hn].
  assert (is_Some (gpib_turn count options l w)) as [o Ho].
  { unfold gpib_turn. destruct (_ || _); [by eexists|]. apply bind_returns.
    - unfold gpib_fetch. apply bind_returns; [by eexists|]. intros ahead w1 [= <- <-].
      apply bind_returns; [by eexists|]. intros ahead_end w1 [= <- <-].
      destruct (gb_read_ahead w.1); [|by eexists]. destruct (gb_read_ahead_end w.1); [by eexists|].
      apply bind_returns; [|intros [status [chunk e]] w1 _; repeat case_match; by eexists].
      unfold gpib_transfer. destruct (Htotal w.2 (count - Z.of_nat (length (gl_received l))) (gb_transport w.1))
        as [[[[status x] op'] t'] ->]. by eexists.
    - intros [l'|l'] w1 _; repeat case_match; by eexists. }
  exists o. split; [done|]. pose proof (gpib_turn_spec s count options l w Hi Hn o Ho) as Hspec.
  destruct o as [[l'|[l' found]] w'|r w']; [|done|done]. destruct Hspec as (Hi' & Hn' & He & Hp).
  split; [done|]. rewrite He. destruct Hi' as (_ & _ & Hlen').
  destruct Hp as [Hlt|[-> ->]]; [|lia]. destruct (gl_end l'); lia.
Qed.

Lemma gpib_read_returns op count options s :
  0 < count < 2 ^ 32 -> (forall op n t, is_Some (gt_read op n t)) ->
  is_Some (gpib_read op count options s).
Proof.
  intros Hcount Htotal. unfold gpib_read, run_io.
  assert (is_Some (gpib_read_io count options (s, op))) as [o ->];
    [|destruct o as [rp [b op']|rp [b op']]; by eexists].
  apply bind_returns; [by eexists|]. intros done w [= <- <-]. destruct (completed op); [by eexists|].
  apply bind_returns.
  - apply (gpib_loop_returns count options s); [done| |intros _; apply not_elem_of_nil].
    apply gpib_inv_start. lia.
  - intros [l found] w' _. unfold io_bind at 1, complete. destruct (try_complete _ _) as [[] op'].
    + cbn [negb]. destruct (Nat.ltb _ _); by eexists.
    + by eexists.
Qed.

(** What a read of a GPIB session does with the stream of bytes and END
    marks.  A read that reports success hands out the next bytes of the stream,
    up to the first termination character, up to [count] bytes or up to an END
    mark, as its status says, and the operation has that status; a read that
    fails, or whose operation is cancelled or times out, hands out nothing.
    Either way no byte and no END mark that the transport has delivered is lost
    or reordered: what is not handed out is kept.  The call returns if the
    transport does. *)
Theorem gpib_read_contract op count options s :
  0 < count < 2 ^ 32 ->
  (forall r, gpib_read op count options s = Some r ->
     let rp := mkReply (cr_status r) (cr_value r) (cr_data r) in
     let w := (cr_backend r, cr_operation r) in
     gpib_refused s rp w \/ gpib_handed_out s count options rp w) /\
  ((forall op n t, is_Some (gt_read op n t)) -> is_Some (gpib_read op count options s)).
Proof.
  intros Hcount. assert (gpib_inv s count (mkGpibLocals [] false) (s, op)) as Hinit
    by (apply gpib_inv_start; lia).
  split.
  - intros r. apply run_io_holds with (Q := fun rp w => gpib_refused s rp w \/ gpib_handed_out s count options rp w).
    unfold gpib_read_io. apply holds_bind, holds_gets.
    assert (forall w, conserved s [] w.1 -> gpib_refused s (status_only (op_result w.2)) w) as Hres
      by (intros w Hw; split; [done|]; split; [done|]; split; [done|]; by right).
    destruct (completed (s, op).2).
    { apply holds_return_result. left. apply Hres, conserved_start. }
    apply holds_bind.
    apply (holds_iter (fun l w => gpib_inv s count l w /\ no_termchar options (gl_received l))).
    2:{ split; [done|]. intros _. apply not_elem_of_nil. }
    intros l w [Hi Hn]. eapply holds_mono; [by apply gpib_turn_spec|].
    intros [[l'|[l' found]] w'|rp w']; [by intros (? & ? & _)| |].
    2:{ intros (? & ? & ? & ?). left. by split; [|split; [|split; [|left]]]. }
    intros Hd. pose proof (gpib_finish_spec s count options l' found w' Hcount Hd _ _ eq_refl eq_refl) as Hfin.
    apply holds_bind, holds_complete.
    + intros op' Hop. specialize (Hfin op' Hop). cbn [negb fst].
      apply holds_bind. destruct (Nat.ltb _ _).
      * apply holds_modify, holds_ret. right. exact Hfin.
      * apply holds_ret, holds_ret. right. exact Hfin.
    + cbn [negb]. apply holds_bind, holds_modify, holds_return_result. left. apply Hres.
      apply (gpib_inv_restore s count l' w'). apply Hd.
  - intros Htotal. apply gpib_read_returns; done.
Qed.

End reading.

End gpib.

(** ** Witness: a transport that plays a script *)

Record gpib_script := mkScript {
  sc_chunks : list (list Z * bool);
  sc_seen : list (option Z) }.

Definition script_read {H} (op : Operation H) (maximum : Z) (t : gpib_script)
  : option (Z * (list Z * bool) * Operation H * gpib_script) :=
  match sc_chunks t with
  | [] => Some (VI_ERROR_TMO, ([], false), op, t)
  | (chunk, e) :: rest =>
      Some (VI_SUCCESS, (chunk, e), op,
            mkScript rest (sc_seen t ++ gpib_delivered maximum VI_SUCCESS chunk e))
  end.

Definition script_transport {H} : GpibTransport gpib_script H := {|
  gt_capabilities _ := mkGpibCapabilities true true true true;
  gt_read := script_read;
  gt_write op d _ t := Some (VI_SUCCESS, Z.of_nat (length d), op, t);
  gt_clear := gpib_unsupported;
  gt_trigger := gpib_unsupported;
  gt_serial_poll := gpib_no_poll;
  gt_discard_read_buffer t := t;
  gt_cancel t := t;
  gt_close t := t |}.

Lemma script_wire {H} (op : Operation H) n t status chunk e op' t' :
  script_read op n t = Some (status, (chunk, e), op', t') ->
  sc_seen t' = sc_seen t ++ gpib_delivered n status chunk e.
Proof.
  unfold script_read. destruct (sc_chunks t) as [|[c b] rest]; intros [= <- <- <- <- <-].
  - symmetry. apply app_nil_r.
  - done.
Qed.

Lemma gpib_read_contract_witness :
  let _ := @script_transport unit in
  let op := mkOperation (H := unit) kPending None None in
  let options := mkReadOptions true 10 in
  let s := gpib_make (mkScript [([65; 66], false); ([67; 10; 68], true)] []) in
  exists r, gpib_read op 100 options s = Some r /\
    cr_data r = [65; 66; 67; 10] /\ gb_read_ahead (cr_backend r) = [68] /\
    (gpib_refused sc_seen s (mkReply (cr_status r) (cr_value r) (cr_data r)) (cr_backend r, cr_operation r) \/
     gpib_handed_out sc_seen s 100 options (mkReply (cr_status r) (cr_value r) (cr_data r))
       (cr_backend r, cr_operation r)).
Proof.
  intros tr op options s.
  destruct (gpib_read op 100 options s) as [r|] eqn:Hr; [|vm_compute in Hr; discriminate].
  exists r. split; [done|].
  assert (Hr' := Hr). vm_compute in Hr'. injection Hr' as <-.
  split; [reflexivity|]. split; [reflexivity|].
  apply (@gpib_read_contract _ _ (@script_transport unit) sc_seen (@script_wire unit) op 100 options s);
    [lia|exact Hr].
Defined.
