(* ===== verification/Prologix.v ===== *)
(** * Prologix controllers: [backends/gpib/prologix_provider.{h,cpp}]

    A GPIB adapter on a serial or TCP line that all the sessions of its
    instruments share.  The controller lets one transaction at a time through its
    gate; it opens and initialises the line when needed, remembers the address
    and the END setting the adapter has, and drops the line after a failure.
    The line itself ([PrologixIo]) is a type class of blocking calls. *)

From S2P Require Import Prelude Visa CText Operation Bytes BackendSession Stream Io.
From S2P Require Import ResourceParser GpibSession.

Inductive PrologixConnectionKind := prologix_serial | prologix_tcp.

#[global] Instance PrologixConnectionKind_eq_dec : EqDecision PrologixConnectionKind.
Proof. solve_decision. Defined.

#[global] Program Instance PrologixConnectionKind_countable : Countable PrologixConnectionKind :=
  inj_countable' (fun k => match k with prologix_serial => true | prologix_tcp => false end)
    (fun b : bool => if b then prologix_serial else prologix_tcp) _.
Next Obligation. by intros []. Qed.

Record PrologixConfiguration := mkPrologixConfiguration {
  px_connection : PrologixConnectionKind;
  px_endpoint : str;
  px_tcp_port : Z;
  px_eot_char : Z;
  px_read_timeout_ms : Z;
  px_maximum_response_size : Z }.

Definition kVersionLimit : Z := 256.

Definition ascii_bytes (value : str) : list Z := uchar <$> value.

(** The address as the adapter's commands have it. *)
Definition address_suffix (resource : ResourceDescriptor) : str :=
  to_string (rd_gpib_primary_address resource) ++
  (if rd_gpib_has_secondary_address resource
   then lit " " ++ to_string (u32 (96 + rd_gpib_secondary_address resource)) else []).

Definition same_configuration (left right : PrologixConfiguration) : bool :=
  bool_decide (px_connection left = px_connection right) &&
  bool_decide (px_endpoint left = px_endpoint right) &&
  (px_tcp_port left =? px_tcp_port right) && (px_eot_char left =? px_eot_char right) &&
  (px_read_timeout_ms left =? px_read_timeout_ms right) &&
  (px_maximum_response_size left =? px_maximum_response_size right).

(** ** The line

    The [bool] of a call tells whether another thread has cancelled the running
    transaction ([PrologixController::cancel]) before the call returned. *)
Class PrologixIo (D H : Type) := {
  pi_connect : Operation H -> D -> transport_call D H bool;
  pi_write : list Z -> Operation H -> D -> transport_call D H bool;
  pi_read_until : Z -> Z -> Z -> Operation H -> D -> transport_call D H (list Z * bool);
  pi_cancel : D -> D;
  pi_close : D -> D;
  (** [Operation::Clock::now()] in milliseconds *)
  pi_now : D -> Z * D;
  (** The cancellation handlers an operation runs when it times out. *)
  pi_run_handlers : list H -> D -> D }.

(** An operation only moves forward, and only failures complete it. *)
Class PrologixIoLaws (D H : Type) `{PrologixIo D H} : Prop := {
  pi_connect_later op d r op' d' : pi_connect op d = Some (r, op', d') -> later op op';
  pi_write_later data op d r op' d' : pi_write data op d = Some (r, op', d') -> later op op';
  pi_read_later delimiter limit idle op d r op' d' :
    pi_read_until delimiter limit idle op d = Some (r, op', d') -> later op op';
  pi_connect_fails op d r op' d' : pi_connect op d = Some (r, op', d') -> fails_only op -> fails_only op';
  pi_write_fails data op d r op' d' :
    pi_write data op d = Some (r, op', d') -> fails_only op -> fails_only op';
  pi_read_fails delimiter limit idle op d r op' d' :
    pi_read_until delimiter limit idle op d = Some (r, op', d') -> fails_only op -> fails_only op' }.

(** ** The controller *)

Record PrologixController (D : Type) := mkController {
  pc_configuration : PrologixConfiguration;
  pc_io : D;
  next_owner_ : Z;
  active_owner_ : Z;
  reconnect_required_ : bool;
  initialized_ : bool;
  current_address_ : option str;
  current_send_end_ : option bool }.
Arguments mkController {_} _ _ _ _ _ _ _ _.
Arguments pc_configuration {_} _.
Arguments pc_io {_} _.
Arguments next_owner_ {_} _.
Arguments active_owner_ {_} _.
Arguments reconnect_required_ {_} _.
Arguments initialized_ {_} _.
Arguments current_address_ {_} _.
Arguments current_send_end_ {_} _.

(** Everything but [pc_io], for the setters below. *)
Definition pc_with_io {D} (io : D) (c : PrologixController D) : PrologixController D :=
  mkController (pc_configuration c) io (next_owner_ c) (active_owner_ c) (reconnect_required_ c)
    (initialized_ c) (current_address_ c) (current_send_end_ c).
Definition pc_with_active {D} (owner : Z) (c : PrologixController D) : PrologixController D :=
  mkController (pc_configuration c) (pc_io c) (next_owner_ c) owner (reconnect_required_ c)
    (initialized_ c) (current_address_ c) (current_send_end_ c).
Definition pc_with_reconnect {D} (b : bool) (c : PrologixController D) : PrologixController D :=
  mkController (pc_configuration c) (pc_io c) (next_owner_ c) (active_owner_ c) b
    (initialized_ c) (current_address_ c) (current_send_end_ c).
Definition pc_with_adapter {D} (ready : bool) (address : option str) (send_end : option bool)
    (c : PrologixController D) : PrologixController D :=
  mkController (pc_configuration c) (pc_io c) (next_owner_ c) (active_owner_ c)
    (reconnect_required_ c) ready address send_end.

#[global] Program Instance controller_owns D : OwnsTransport (PrologixController D) D :=
  {| own_transport := pc_io; own_with_transport := pc_with_io |}.
Solve All Obligations with by intros; repeat match goal with c : PrologixController _ |- _ => destruct c end.

Definition make_controller {D} (configuration : PrologixConfiguration) (io : D) : PrologixController D :=
  mkController configuration io 1 0 false false None None.

Definition allocate_owner {D} (c : PrologixController D) : Z * PrologixController D :=
  (next_owner_ c,
   mkController (pc_configuration c) (pc_io c) (u64 (next_owner_ c + 1)) (active_owner_ c)
     (reconnect_required_ c) (initialized_ c) (current_address_ c) (current_send_end_ c)).

(** [text.find(needle) != npos] on the bytes of a line. *)
Fixpoint starts_at (needle bytes : list Z) : bool :=
  match needle, bytes with
  | [], _ => true
  | x :: needle, y :: bytes => (x =? y) && starts_at needle bytes
  | _ :: _, [] => false
  end.

Fixpoint find_bytes (needle bytes : list Z) : bool :=
  starts_at needle bytes || match bytes with [] => false | _ :: bytes => find_bytes needle bytes end.

(** [if (!line.empty() && line.back() == '\r') line.pop_back();] *)
Definition without_cr (line : list Z) : list Z :=
  match last line with Some 13 => removelast line | _ => line end.

Definition kEscape : Z := 0x1b.

(** The escaped data and the newline of [write]. *)
Definition needs_escape (value : Z) : bool :=
  (value =? 13) || (value =? 10) || (value =? kEscape) || (value =? 43).

Definition escape (value : Z) : list Z :=
  if needs_escape value then [kEscape; value] else [value].

Definition encode_data (data : list Z) : list Z := mjoin (escape <$> data) ++ [10].

Definition initialization (configuration : PrologixConfiguration) : str :=
  lit "++savecfg 0" ++ [chr 10] ++ lit "++mode 1" ++ [chr 10] ++ lit "++auto 0" ++ [chr 10]
  ++ lit "++eos 3" ++ [chr 10] ++ lit "++eot_char " ++ to_string (px_eot_char configuration)
  ++ [chr 10] ++ lit "++eot_enable 1" ++ [chr 10] ++ lit "++read_tmo_ms "
  ++ to_string (px_read_timeout_ms configuration) ++ [chr 10] ++ lit "++ver" ++ [chr 10].

Section controller.
  Context {D H : Type} `{PrologixIo D H}.
  (** How often a waiting thread is woken, and what the other threads do until
      the gate is reached (turn 0) and until each of its wake-ups. *)
  Context (turns : nat).
  Context (elsewhere : nat -> PrologixController D * Operation H -> PrologixController D * Operation H).

Abbreviation Controller := (PrologixController D).
Abbreviation IO R A := (io (Controller * Operation H) R A).

(** *** Calls of the line *)

Definition mark_cancelled {R} (seen : bool) : IO R unit :=
  when seen do modify (pc_with_reconnect true).

Definition io_connect {R} : IO R Z :=
  r <- transfer pi_connect ;; mark_cancelled r.2 ;; io_ret r.1.

Definition io_write {R} (data : list Z) : IO R Z :=
  r <- transfer (pi_write data) ;; mark_cancelled r.2 ;; io_ret r.1.

Definition io_read_until {R} (delimiter maximum_size : Z) : IO R (Z * list Z) :=
  configuration <- get pc_configuration ;;
  r <- transfer (pi_read_until delimiter maximum_size (px_read_timeout_ms configuration)) ;;
  mark_cancelled r.2.2 ;; io_ret (r.1, r.2.1).

(** *** The gate *)

Definition others {R} (turn : nat) : IO R unit := fun w => Some (Next tt (elsewhere turn w)).

Definition gate_timeout {R} : IO R unit := fun w =>
  let '(_, handlers, op') := request_timeout w.2 in
  Some (Next tt (pc_with_io (pi_run_handlers handlers (pc_io w.1)) w.1, op')).

Definition deadline_passed {R} : IO R bool :=
  deadline <- operation_is deadline_ ;;
  match deadline with
  | None => io_ret false
  | Some deadline => fun w =>
      let '(now, d) := pi_now (pc_io w.1) in Some (Next (deadline <=? now) (pc_with_io d w.1, w.2))
  end.

Definition gate_turn {R} (turn : nat) : IO R (nat + unit) :=
  active <- get active_owner_ ;;
  done <- operation_is completed ;;
  if (active =? 0) || (done : bool) then io_ret (inr tt)
  else
    passed <- deadline_passed ;;
    if (passed : bool) then gate_timeout ;; io_ret (inr tt)
    else others turn ;; io_ret (inl (S turn)).

Definition acquire {R} (owner : Z) : IO R bool :=
  others 0 ;;
  passed <- deadline_passed ;;
  if (passed : bool) then gate_timeout ;; io_ret false
  else
    io_iter turns gate_turn 1%nat ;;
    done <- operation_is completed ;;
    if (done : bool) then io_ret false else modify (pc_with_active owner) ;; io_ret true.

Definition release (owner : Z) (c : Controller) : Controller :=
  if active_owner_ c =? owner then pc_with_active 0 c else c.

Definition cancel (owner : Z) (c : Controller) : Controller :=
  if active_owner_ c =? owner then pc_with_io (pi_cancel (pc_io c)) (pc_with_reconnect true c) else c.

(** *** Transactions *)

Definition invalidate (c : Controller) : Controller :=
  pc_with_reconnect false (pc_with_io (pi_close (pc_io c)) (pc_with_adapter false None None c)).

(** [if (status < VI_SUCCESS) return status;] *)
Definition checked (call : IO Z Z) : IO Z unit :=
  status <- call ;; if status <? VI_SUCCESS then io_return status else io_ret tt.

Definition ensure_ready : IO Z Z :=
  ready <- get initialized_ ;;
  if (ready : bool) then io_return VI_SUCCESS
  else
    configuration <- get pc_configuration ;;
    checked io_connect ;;
    checked (io_write (ascii_bytes (initialization configuration))) ;;
    r <- io_read_until 10 kVersionLimit ;;
    if r.1 <? VI_SUCCESS then io_return r.1
    else
      let text := without_cr r.2 in
      if negb (find_bytes (ascii_bytes (lit "Prologix")) text)
         || negb (find_bytes (ascii_bytes (lit "GPIB")) text)
      then io_return VI_ERROR_IO
      else modify (fun c => pc_with_reconnect false (pc_with_adapter true None None c)) ;; io_ret VI_SUCCESS.

Definition transact (owner : Z) (function : IO reply reply) : IO reply reply :=
  acquired <- acquire owner ;;
  if negb acquired then return_result status_only
  else
    required <- get reconnect_required_ ;;
    (when required do modify invalidate) ;;
    status <- io_call ensure_ready ;;
    r <- (if VI_SUCCESS <=? status then io_call function else io_ret (status_only status)) ;;
    required <- get reconnect_required_ ;;
    (when (rp_status r <? VI_SUCCESS) || required do modify invalidate) ;;
    done <- operation_is completed ;;
    result <- operation_is op_result ;;
    modify (release owner) ;;
    io_ret (if (done : bool) then mkReply result (rp_value r) (rp_data r) else r).

Definition write_command {R} (command : str) : IO R Z := io_write (ascii_bytes command).

Definition command_line (text : str) : str := lit "++" ++ text ++ [chr 10].

Definition select_address (resource : ResourceDescriptor) : IO Z Z :=
  let address := address_suffix resource in
  current <- get current_address_ ;;
  if bool_decide (current = Some address) then io_return VI_SUCCESS
  else
    status <- write_command (command_line (lit "addr " ++ address)) ;;
    (when VI_SUCCESS <=? status do
       modify (fun c => pc_with_adapter (initialized_ c) (Some address) (current_send_end_ c) c)) ;;
    io_ret status.

(** The same check in a function that returns more than a status. *)
Definition checked_reply (call : IO reply Z) : IO reply unit :=
  status <- call ;; if status <? VI_SUCCESS then io_return (status_only status) else io_ret tt.

Definition as_reply (call : IO reply Z) : IO reply reply := status <- call ;; io_ret (status_only status).

Definition controller_open (owner : Z) : IO reply reply :=
  transact owner (io_ret (status_only VI_SUCCESS)).

Definition read_body (resource : ResourceDescriptor) : IO reply reply :=
  checked_reply (io_call (select_address resource)) ;;
  checked_reply (write_command (command_line (lit "read eoi"))) ;;
  configuration <- get pc_configuration ;;
  r <- io_read_until (px_eot_char configuration) (px_maximum_response_size configuration) ;;
  io_ret (mkReply r.1 0 r.2).

Definition controller_read (owner : Z) (resource : ResourceDescriptor) : IO reply reply :=
  transact owner (read_body resource).

(** [data.size() > (max_size() - 1) / 2], with the [max_size()] of a vector of bytes. *)
Definition data_too_long (data : list Z) : bool := ((2 ^ 63 - 1 - 1) / 2 <? Z.of_nat (length data)).

Definition select_send_end (send_end : bool) : IO reply unit :=
  current <- get current_send_end_ ;;
  if bool_decide (current = Some send_end) then io_ret tt
  else
    checked_reply (write_command (command_line (if send_end then lit "eoi 1" else lit "eoi 0"))) ;;
    modify (fun c => pc_with_adapter (initialized_ c) (current_address_ c) (Some send_end) c).

Definition write_body (resource : ResourceDescriptor) (data : list Z) (send_end : bool) : IO reply reply :=
  checked_reply (io_call (select_address resource)) ;;
  select_send_end send_end ;;
  if data_too_long data then io_return (status_only VI_ERROR_INV_SIZE)
  else as_reply (io_write (encode_data data)).

Definition controller_write (owner : Z) (resource : ResourceDescriptor) (data : list Z) (send_end : bool)
  : IO reply reply :=
  transact owner (write_body resource data send_end).

Definition clear_body (resource : ResourceDescriptor) : IO reply reply :=
  checked_reply (io_call (select_address resource)) ;;
  as_reply (write_command (command_line (lit "clr"))).

Definition controller_clear (owner : Z) (resource : ResourceDescriptor) : IO reply reply :=
  transact owner (clear_body resource).

Definition trigger_body (resource : ResourceDescriptor) : IO reply reply :=
  as_reply (write_command (command_line (lit "trg " ++ address_suffix resource))).

Definition controller_trigger (owner : Z) (resource : ResourceDescriptor) : IO reply reply :=
  transact owner (trigger_body resource).

(** The number of a serial poll's answer: its bytes are read as characters. *)
Definition poll_value (line : list Z) : option Z :=
  let text := chr <$> without_cr line in
  if bool_decide (text = []) then None
  else match from_chars 10 (2 ^ 32 - 1) text with
       | Some (value, []) => if 255 <? value then None else Some value
       | _ => None
       end.

Definition poll_body (resource : ResourceDescriptor) : IO reply reply :=
  checked_reply (write_command (command_line (lit "spoll " ++ address_suffix resource))) ;;
  r <- io_read_until 10 8 ;;
  if r.1 <? VI_SUCCESS then io_return (status_only r.1)
  else match poll_value r.2 with
       | None => io_return (status_only VI_ERROR_IO)
       | Some value => io_ret (mkReply VI_SUCCESS (u8 value) [])
       end.

Definition controller_serial_poll (owner : Z) (resource : ResourceDescriptor) : IO reply reply :=
  transact owner (poll_body resource).

(** ** Transports *)

Record PrologixTransport := mkPrologixTransport {
  pt_controller : Controller;
  pt_resource : ResourceDescriptor;
  pt_owner : Z;
  pt_closed : bool;
  pt_response : list Z;
  pt_response_end : bool }.

Definition pt_with_controller (c : Controller) (t : PrologixTransport) : PrologixTransport :=
  mkPrologixTransport c (pt_resource t) (pt_owner t) (pt_closed t) (pt_response t) (pt_response_end t).
Definition pt_with_response (response : list Z) (e : bool) (t : PrologixTransport) : PrologixTransport :=
  mkPrologixTransport (pt_controller t) (pt_resource t) (pt_owner t) (pt_closed t) response e.

Definition make_transport (c : Controller) (resource : ResourceDescriptor) (owner : Z) : PrologixTransport :=
  mkPrologixTransport c resource owner false [] false.

Definition call_controller (call : Z -> ResourceDescriptor -> IO reply reply) (op : Operation H)
    (t : PrologixTransport) : option (reply * Operation H * PrologixTransport) :=
  match call (pt_owner t) (pt_resource t) (pt_controller t, op) with
  | Some (Next r (c, op')) | Some (Return r (c, op')) => Some (r, op', pt_with_controller c t)
  | None => None
  end.

(** The bytes that are there, and the END behind the last one. *)
Definition hand_out (maximum_size : Z) (op : Operation H) (t : PrologixTransport)
  : option (Z * (list Z * bool) * Operation H * PrologixTransport) :=
  let amount := Nat.min (Z.to_nat maximum_size) (length (pt_response t)) in
  let rest := drop amount (pt_response t) in
  let e := bool_decide (rest = []) && pt_response_end t in
  Some (VI_SUCCESS, (take amount (pt_response t), e), op,
        pt_with_response rest (if e then false else pt_response_end t) t).

Definition prologix_read (op : Operation H) (maximum_size : Z) (t : PrologixTransport)
  : option (Z * (list Z * bool) * Operation H * PrologixTransport) :=
  if pt_closed t then Some (VI_ERROR_CONN_LOST, ([], false), op, t)
  else if completed op then Some (op_result op, ([], false), op, t)
  else
    if bool_decide (pt_response t = []) then
      match call_controller controller_read op t with
      | None => None
      | Some (r, op', t') =>
          if rp_status r <? VI_SUCCESS then Some (rp_status r, ([], false), op', t')
          else hand_out maximum_size op' (pt_with_response (rp_data r) true t')
      end
    else hand_out maximum_size op t.

Definition prologix_write (op : Operation H) (data : list Z) (send_end : bool) (t : PrologixTransport)
  : option (Z * Z * Operation H * PrologixTransport) :=
  if pt_closed t then Some (VI_ERROR_CONN_LOST, 0, op, t)
  else
    match call_controller (fun owner resource => controller_write owner resource data send_end) op t with
    | None => None
    | Some (r, op', t') =>
        Some (rp_status r, if VI_SUCCESS <=? rp_status r then Z.of_nat (length data) else 0, op', t')
    end.

Definition prologix_clear (op : Operation H) (t : PrologixTransport)
  : option (Z * unit * Operation H * PrologixTransport) :=
  if pt_closed t then Some (VI_ERROR_CONN_LOST, tt, op, t)
  else
    match call_controller controller_clear op t with
    | None => None
    | Some (r, op', t') =>
        Some (rp_status r, tt, op', if VI_SUCCESS <=? rp_status r then pt_with_response [] false t' else t')
    end.

Definition prologix_trigger (op : Operation H) (t : PrologixTransport)
  : option (Z * unit * Operation H * PrologixTransport) :=
  if pt_closed t then Some (VI_ERROR_CONN_LOST, tt, op, t)
  else
    match call_controller controller_trigger op t with
    | None => None
    | Some (r, op', t') => Some (rp_status r, tt, op', t')
    end.

(** [status_byte] keeps what the session initialised it with on a failure. *)
Definition prologix_serial_poll (op : Operation H) (t : PrologixTransport)
  : option (Z * Z * Operation H * PrologixTransport) :=
  if pt_closed t then Some (VI_ERROR_CONN_LOST, 0, op, t)
  else
    match call_controller controller_serial_poll op t with
    | None => None
    | Some (r, op', t') => Some (rp_status r, rp_value r, op', t')
    end.

Definition prologix_cancel (t : PrologixTransport) : PrologixTransport :=
  pt_with_controller (cancel (pt_owner t) (pt_controller t)) t.

Definition prologix_close (t : PrologixTransport) : PrologixTransport :=
  if pt_closed t then t
  else prologix_cancel (mkPrologixTransport (pt_controller t) (pt_resource t) (pt_owner t) true
                          (pt_response t) (pt_response_end t)).

#[export] Instance prologix_transport : GpibTransport PrologixTransport H := {|
  gt_capabilities t := mkGpibCapabilities true true true true;
  gt_read := prologix_read;
  gt_write := prologix_write;
  gt_clear := prologix_clear;
  gt_trigger := prologix_trigger;
  gt_serial_poll := prologix_serial_poll;
  gt_discard_read_buffer := pt_with_response [] false;
  gt_cancel := prologix_cancel;
  gt_close := prologix_close |}.

(** ** Providers *)

(** [PrologixProvider::open] of the provider of [board], on its controller. *)
Definition provider_open (board : Z) (resource : ResourceDescriptor) (timeout : Z) (c : Controller)
  : option (option PrologixTransport * Z * Controller) :=
  if negb (bool_decide (rd_kind resource = gpib_instr)) || negb (rd_interface_number resource =? board)
  then Some (None, VI_ERROR_RSRC_NFOUND, c)
  else
    let '(owner, c) := allocate_owner c in
    let '(now, d) := pi_now (pc_io c) in
    match controller_open owner (pc_with_io d c, new_operation timeout now) with
    | Some (Next r (c', _)) | Some (Return r (c', _)) =>
        Some (if rp_status r <? VI_SUCCESS then None else Some (make_transport c' resource owner),
              rp_status r, c')
    | None => None
    end.

End controller.

Definition provider_discover : list str := [].

(** ** Requests

    The transactions of the controller, by what they ask of the instrument. *)

Inductive request :=
| read_response
| write_data (data : list Z) (send_end : bool)
| device_clear
| device_trigger
| poll_status.

Section requests.
  Context {D H : Type} `{PrologixIo D H}.

Definition body_of (resource : ResourceDescriptor) (q : request)
  : io (PrologixController D * Operation H) reply reply :=
  match q with
  | read_response => read_body resource
  | write_data data send_end => write_body resource data send_end
  | device_clear => clear_body resource
  | device_trigger => trigger_body resource
  | poll_status => poll_body resource
  end.

End requests.

(** ** The transport *)

Section transport_laws.
  Context {D H : Type} `{PrologixIo D H} `{!PrologixIoLaws D H}.
  Context (turns : nat).
  Context (elsewhere : nat -> PrologixController D * Operation H -> PrologixController D * Operation H).
  Hypothesis elsewhere_later : forall n w, later w.2 (elsewhere n w).2.

#[local] Hint Resolve pi_connect_later pi_write_later pi_read_later : wrio.
#[local] Hint Extern 1 (steady ops_later (transfer _)) => apply transfer_later; eauto with wrio : wrio.

Lemma later_gate_timeout {R} : steady ops_later (gate_timeout (D:=D) (H:=H) (R:=R)).
Proof.
  intros w o. unfold gate_timeout. pose proof (later_request_timeout w.2) as Hl.
  destruct (request_timeout w.2) as [[won hs] op']. intros [= <-]. exact Hl.
Qed.

Lemma later_others {R} n : steady ops_later (others elsewhere (R:=R) n).
Proof. intros w o [= <-]. apply elsewhere_later. Qed.

Lemma later_deadline_passed {R} : steady ops_later (deadline_passed (D:=D) (H:=H) (R:=R)).
Proof.
  unfold deadline_passed. steady. intros w o. destruct (pi_now _). intros [= <-]. unfold ops_later. reflexivity.
Qed.

#[local] Hint Resolve later_gate_timeout later_others later_deadline_passed : wrio.

Lemma later_acquire {R} owner : steady ops_later (acquire turns elsewhere (R:=R) owner).
Proof. unfold acquire, gate_turn. steady. Qed.

Lemma later_ready : steady ops_later (ensure_ready (D:=D) (H:=H)).
Proof. unfold ensure_ready, checked, io_connect, io_write, io_read_until, mark_cancelled. steady. Qed.

Lemma later_body resource q : steady ops_later (body_of (D:=D) (H:=H) resource q).
Proof.
  destruct q; cbn [body_of]; unfold read_body, write_body, clear_body, trigger_body, poll_body, checked_reply,
    as_reply, write_command, select_send_end, checked_reply, write_command, select_address, write_command,
    io_write, io_read_until, mark_cancelled; steady.
Qed.

#[local] Hint Resolve later_acquire later_ready : wrio.

Lemma later_transact owner body :
  steady ops_later body -> steady ops_later (transact turns elsewhere owner body).
Proof. intros Hb. unfold transact. steady. Qed.

Lemma later_call (call : Z -> ResourceDescriptor -> io (PrologixController D * Operation H) reply reply) op t r op' t' :
  (forall owner resource, steady ops_later (call owner resource)) ->
  call_controller call op t = Some (r, op', t') -> later op op'.
Proof.
  intros Hc. unfold call_controller.
  destruct (call _ _ _) as [[a [c o]|a [c o]]|] eqn:E; intros [= <- <- <-]; apply (Hc _ _ _ _ E).
Qed.

Lemma later_request owner resource q :
  steady ops_later (transact turns elsewhere owner (body_of resource q)).
Proof. apply later_transact, later_body. Qed.

#[export] Instance prologix_laws : @GpibTransportLaws (PrologixTransport (D:=D)) H (prologix_transport turns elsewhere).
Proof.
  split; cbn.
  - intros op n t r op' t'. unfold prologix_read. destruct (pt_closed t); [by intros [= _ <- _]|].
    destruct (completed op); [by intros [= _ <- _]|]. case_bool_decide; [|by intros [= _ <- _]].
    destruct (call_controller _ _ _) as [[[r1 op1] t1]|] eqn:E; [|done]. apply later_call in E;
      [|intros; apply (later_request _ _ read_response)].
    destruct (_ <? _); by intros [= _ <- _].
  - intros op d e t r op' t'. unfold prologix_write. destruct (pt_closed t); [by intros [= _ <- _]|].
    destruct (call_controller _ _ _) as [[[r1 op1] t1]|] eqn:E; [|done]. apply later_call in E;
      [|intros; apply (later_request _ _ (write_data d e))]. by intros [= _ <- _].
  - intros op t r op' t'. unfold prologix_clear. destruct (pt_closed t); [by intros [= _ <- _]|].
    destruct (call_controller _ _ _) as [[[r1 op1] t1]|] eqn:E; [|done]. apply later_call in E;
      [|intros; apply (later_request _ _ device_clear)]. by intros [= _ <- _].
  - intros op t r op' t'. unfold prologix_trigger. destruct (pt_closed t); [by intros [= _ <- _]|].
    destruct (call_controller _ _ _) as [[[r1 op1] t1]|] eqn:E; [|done]. apply later_call in E;
      [|intros; apply (later_request _ _ device_trigger)]. by intros [= _ <- _].
  - intros op t r op' t'. unfold prologix_serial_poll. destruct (pt_closed t); [by intros [= _ <- _]|].
    destruct (call_controller _ _ _) as [[[r1 op1] t1]|] eqn:E; [|done]. apply later_call in E;
      [|intros; apply (later_request _ _ poll_status)]. by intros [= _ <- _].
Qed.

(** C30: a read of the transport hands out the beginning of the response it
    holds, or of a new one from the controller if it holds none, at most as many
    bytes as asked for; the END goes with the last byte, once; the rest is kept,
    and a failed read takes nothing. *)
Theorem prologix_read_contract op maximum_size t status data e op' t' :
  0 <= maximum_size ->
  prologix_read turns elsewhere op maximum_size t = Some (status, (data, e), op', t') ->
  (status < VI_SUCCESS -> data = [] /\ e = false /\
     events (pt_response t') (pt_response_end t') = events (pt_response t) (pt_response_end t)) /\
  (VI_SUCCESS <= status -> completed op = false ->
     Z.of_nat (length data) <= maximum_size /\
     exists response ends,
       events response ends = events data e ++ events (pt_response t') (pt_response_end t') /\
       (pt_response t <> [] /\ response = pt_response t /\ ends = pt_response_end t /\ op' = op \/
        pt_response t = [] /\ ends = true /\
        exists r t1, call_controller (controller_read turns elsewhere) op t = Some (r, op', t1) /\
          VI_SUCCESS <= rp_status r /\ rp_data r = response)).
Proof.
  intros Hmax. unfold prologix_read. destruct (pt_closed t) eqn:Hclosed.
  { intros [= <- <- <- <- <-]. split; [done|]. by intros ?. }
  destruct (completed op) eqn:Hc; [by intros [= <- <- <- <- <-]|].
  assert (forall op1 t1, hand_out maximum_size op1 t1 = Some (status, (data, e), op', t') ->
    status = VI_SUCCESS /\ op' = op1 /\ Z.of_nat (length data) <= maximum_size /\
    events (pt_response t1) (pt_response_end t1) = events data e ++ events (pt_response t') (pt_response_end t')) as Hout.
  { intros op1 t1. unfold hand_out. set (amount := Nat.min _ _). intros [= <- <- <- <- <-]. cbn.
    split; [done|]. split; [done|]. split; [rewrite length_take; unfold amount; lia|].
    rewrite <- (take_drop amount (pt_response t1)) at 1. unfold events. rewrite fmap_app.
    case_bool_decide as Hr; [rewrite Hr|]; destruct (pt_response_end t1); cbn; by rewrite ?app_nil_r, <- ?app_assoc. }
  case_bool_decide as Hempty.
  - destruct (call_controller _ _ _) as [[[r op1] t1]|] eqn:E; [|done].
    assert (pt_response t1 = pt_response t /\ pt_response_end t1 = pt_response_end t) as [Hr1 He1].
    { unfold call_controller in E. destruct (controller_read _ _ _ _ _) as [[a [c o]|a [c o]]|]; [by injection E as <- <- <-|by injection E as <- <- <-|done]. }
    destruct (Z.ltb_spec (rp_status r) VI_SUCCESS) as [Hst|Hst].
    + intros [= <- <- <- <- <-]. rewrite Hr1, He1. split; [done|]. lia.
    + intros (-> & -> & Hlen & Hev)%Hout. split; [done|]. intros _ _. split; [done|]. cbn in Hev.
      exists (rp_data r), true. split; [done|]. right. split; [done|]. split; [done|]. by exists r, t1.
  - intros (-> & -> & Hlen & Hev)%Hout. split; [done|]. intros _ _. split; [done|].
    exists (pt_response t), (pt_response_end t). split; [done|]. by left.
Qed.

End transport_laws.

(** ** Returning *)

Section returning.
  Context {D H : Type} `{PrologixIo D H} `{!PrologixIoLaws D H}.
  Context (turns : nat).
  Context (elsewhere : nat -> PrologixController D * Operation H -> PrologixController D * Operation H).

(** Calls of the line end by the deadline of their operation, and the transaction
    that keeps the gate busy comes closer to its end with every wake-up. *)
Record Patient (busy : PrologixController D * Operation H -> nat) : Prop := {
  connect_returns op d : is_Some (deadline_ op) -> is_Some (pi_connect op d);
  write_returns data op d : is_Some (deadline_ op) -> is_Some (pi_write data op d);
  read_returns delimiter limit idle op d :
    is_Some (deadline_ op) -> is_Some (pi_read_until delimiter limit idle op d);
  patient_later n w : later w.2 (elsewhere n w).2;
  patient_turn n w : active_owner_ w.1 <> 0 -> completed w.2 = false -> (busy (elsewhere n w) < busy w)%nat;
  patient_bound w : (busy (elsewhere 0 w) < turns)%nat;
  patient_now c op : busy (pc_with_io (pi_now (pc_io c)).2 c, op) = busy (c, op) }.

Context (busy : PrologixController D * Operation H -> nat) (patient : Patient busy).

Definition ends {R A} (m : io (PrologixController D * Operation H) R A) : Prop :=
  forall w, is_Some (deadline_ w.2) -> is_Some (m w).

Lemma ends_bind {R A B} (m : io _ R A) (k : A -> io _ R B) :
  steady ops_later m -> ends m -> (forall a, ends (k a)) -> ends (io_bind m k).
Proof.
  intros Hs Hm Hk w Hd. apply bind_returns; [by apply Hm|]. intros a w' E. apply Hk.
  destruct (Hs _ _ E) as [_ Heq]. cbn in Heq. by rewrite Heq.
Qed.

Lemma ends_call {R A} (m : io _ A A) : ends m -> ends (io_call (R:=R) m).
Proof. intros Hm w Hd. unfold io_call. destruct (Hm w Hd) as [[a w'|a w'] ->]; by eexists. Qed.

Lemma ends_now {R A} (m : io _ R A) : (forall w, is_Some (m w)) -> ends m.
Proof. by intros Hm w _. Qed.

Lemma ends_transfer {R X} (f : Operation H -> D -> transport_call D H X) :
  (forall op d, is_Some (deadline_ op) -> is_Some (f op d)) -> ends (transfer (R:=R) f).
Proof.
  intros Hf w Hd. unfold transfer. destruct (Hf w.2 (own_transport w.1) Hd) as [[[[st x] op'] d'] ->]. by eexists.
Qed.

#[local] Hint Resolve pi_connect_later pi_write_later pi_read_later : wrio.
#[local] Hint Resolve later_gate_timeout later_deadline_passed later_ready : wrio.
#[local] Hint Extern 1 (steady ops_later (transfer _)) => apply transfer_later; eauto with wrio : wrio.

Lemma patient_others {R} n : steady ops_later (others elsewhere (R:=R) n).
Proof. apply later_others. apply patient. Qed.

Lemma patient_acquire {R} owner : steady ops_later (acquire turns elsewhere (R:=R) owner).
Proof. apply later_acquire. apply patient. Qed.

#[local] Hint Resolve patient_others patient_acquire : wrio.

Ltac ending :=
  repeat first
    [ done
    | apply ends_transfer; intros; by apply patient
    | apply ends_call
    | apply ends_bind; [steady| |intros ?]
    | case_match
    | by apply ends_now; intros ?; eexists ].

Lemma ends_ready : ends (ensure_ready (D:=D) (H:=H)).
Proof. unfold ensure_ready, checked, io_connect, io_write, io_read_until, mark_cancelled. ending. Qed.

Lemma ends_body resource q : ends (body_of (D:=D) (H:=H) resource q).
Proof.
  destruct q; cbn [body_of]; unfold read_body, write_body, clear_body, trigger_body, poll_body, checked_reply,
    as_reply, write_command, select_send_end, checked_reply, write_command, select_address, write_command,
    io_write, io_read_until, mark_cancelled; ending.
Qed.

Lemma ends_deadline_passed {R} : ends (deadline_passed (D:=D) (H:=H) (R:=R)).
Proof. unfold deadline_passed. ending. apply ends_now. intros w. destruct (pi_now _). by eexists. Qed.

Lemma ends_gate_timeout {R} : ends (gate_timeout (D:=D) (H:=H) (R:=R)).
Proof. apply ends_now. intros w. unfold gate_timeout. destruct (request_timeout _) as [[? ?] ?]. by eexists. Qed.

Lemma passed_state {R} w o :
  deadline_passed (D:=D) (H:=H) (R:=R) w = Some o ->
  exists b w', o = Next b w' /\ w'.2 = w.2 /\ active_owner_ w'.1 = active_owner_ w.1 /\ busy w' = busy w.
Proof.
  unfold deadline_passed, io_bind, operation_is, io_gets, io_ret. destruct w as [c op]. cbn [fst snd]. destruct (deadline_ op).
  - pose proof (patient_now busy patient c op) as Hb. cbn [fst snd]. destruct (pi_now (pc_io c)) as [now d].
    intros [= <-]. by eexists _, _.
  - intros [= <-]. by eexists _, _.
Qed.

Lemma gate_turn_goes_on {R} n w n' w' :
  gate_turn elsewhere (R:=R) n w = Some (Next (inl n') w') -> (busy w' < busy w)%nat.
Proof.
  unfold gate_turn. unfold io_bind at 1 2, get, operation_is, io_gets.
  destruct (_ || _) eqn:Hready; [done|]. apply orb_false_iff in Hready as [Ha%Z.eqb_neq Hc].
  unfold io_bind at 1. destruct (deadline_passed w) as [o|] eqn:E; [|done].
  apply passed_state in E as (b & w1 & -> & Hop & Hact & Hbusy). destruct b.
  - unfold io_bind, gate_timeout. destruct (request_timeout _) as [[? ?] ?]. done.
  - unfold io_bind, others, io_ret. intros [= <- <-]. rewrite <- Hbusy. apply (patient_turn busy patient).
    + by rewrite Hact.
    + by rewrite Hop.
Qed.

Lemma ends_gate_turn {R} n : ends (gate_turn elsewhere (R:=R) n).
Proof.
  unfold gate_turn. pose proof (@ends_deadline_passed R). pose proof (@ends_gate_timeout R). ending.
Qed.

Lemma later_gate_turn {R} n : steady ops_later (gate_turn elsewhere (R:=R) n).
Proof. unfold gate_turn. steady. Qed.

Lemma gate_returns {R} w :
  is_Some (deadline_ w.2) -> (busy w < turns)%nat -> is_Some (io_iter turns (gate_turn elsewhere (R:=R)) 1%nat w).
Proof.
  intros Hd Hb. apply (iter_returns (fun _ w => is_Some (deadline_ w.2)) (fun _ w => busy w)); [|done|done].
  clear w Hd Hb. intros n w Hd. destruct (ends_gate_turn (R:=R) n w Hd) as [o Ho]. exists o. split; [done|].
  destruct o as [[n'|[]] w'|r w']; [|done|done]. split; [|by eapply gate_turn_goes_on].
  destruct (later_gate_turn n _ _ Ho) as [_ Heq]. cbn in Heq. by rewrite Heq.
Qed.

Lemma ends_acquire {R} owner : ends (acquire turns elsewhere (R:=R) owner).
Proof.
  intros w Hd. unfold acquire. unfold io_bind at 1, others.
  pose proof (patient_bound busy patient w) as Hb. destruct (patient_later busy patient 0 w) as [_ Heq].
  rewrite <- Heq in Hd. set (w1 := elsewhere 0 w) in *. clearbody w1. clear w Heq.
  unfold io_bind at 1. destruct (ends_deadline_passed (R:=R) w1 Hd) as [o Ho]. rewrite Ho.
  apply passed_state in Ho as (b & w2 & -> & Hop & _ & Hbusy). destruct b.
  - pose proof (@ends_gate_timeout R) as Hg. apply ends_bind; [steady|done|intros ?; by apply ends_now; eexists|].
    by rewrite Hop.
  - apply bind_returns; [apply gate_returns; [by rewrite Hop|lia]|]. intros [] w3 _.
    unfold io_bind, operation_is, io_gets. destruct (completed w3.2); by eexists.
Qed.

(** Every transaction of the controller returns: calls of the line end by
    the deadline, and the wait at the gate ends with the transactions in front. *)
Theorem prologix_requests_return owner resource q c op :
  is_Some (deadline_ op) ->
  exists r c' op', run_io (transact turns elsewhere owner (body_of resource q)) op c =
    Some (mkCall (rp_status r) (rp_value r) (rp_data r) c' op').
Proof.
  intros Hd. pose proof (ends_body resource q) as Hbody. pose proof ends_ready as Hready.
  pose proof (later_body resource q (D:=D) (H:=H)) as Hlater.
  assert (ends (transact turns elsewhere owner (body_of resource q))) as He.
  { unfold transact. pose proof (@ends_acquire reply owner). ending. }
  unfold run_io. destruct (He (c, op) Hd) as [[r [c' op']|r [c' op']] ->]; by exists r, c', op'.
Qed.

End returning.
