(* ===== verification/PrologixPool.v ===== *)
(** * The pool of Prologix controllers: [make_prologix_provider] of
      [backends/gpib/prologix_provider.cpp]

    Process-wide: one controller for each endpoint, while somebody owns it. *)

From S2P Require Import Prelude Visa Prologix.

(** ** The pool of controllers

    Controllers are shared by endpoint while somebody owns them; [live] tells
    which weak pointers of the pool can still be locked. *)

Abbreviation ControllerKey := (PrologixConnectionKind * str * Z)%type.

Record ControllerPool := mkPool {
  pool_controllers : gmap ControllerKey nat;
  pool_configurations : list PrologixConfiguration }.

Record PrologixProvider := mkPrologixProvider { pp_board : Z; pp_controller : nat }.

Definition controller_key (configuration : PrologixConfiguration) : ControllerKey :=
  (px_connection configuration, px_endpoint configuration, px_tcp_port configuration).

Definition make_prologix_provider (live : nat -> bool) (board : Z) (configuration : PrologixConfiguration)
    (pool : ControllerPool) : option PrologixProvider * Z * ControllerPool :=
  let key := controller_key configuration in
  let fresh (m : gmap ControllerKey nat) :=
    let controller := length (pool_configurations pool) in
    (Some (mkPrologixProvider board controller), VI_SUCCESS,
     mkPool (<[key := controller]> m) (pool_configurations pool ++ [configuration])) in
  match pool_controllers pool !! key with
  | Some controller =>
      if live controller then
        match pool_configurations pool !! controller with
        | Some current =>
            if same_configuration current configuration
            then (Some (mkPrologixProvider board controller), VI_SUCCESS, pool)
            else (None, VI_ERROR_RSRC_BUSY, pool)
        | None => fresh (delete key (pool_controllers pool))
        end
      else fresh (delete key (pool_controllers pool))
  | None => fresh (pool_controllers pool)
  end.

(** ** The pool *)

(** A program's calls: which controllers are alive at each of them, the board
    and the configuration. *)
Fixpoint pool_run (calls : list ((nat -> bool) * Z * PrologixConfiguration)) (pool : ControllerPool)
  : ControllerPool :=
  match calls with
  | [] => pool
  | (live, board, configuration) :: calls =>
      pool_run calls (make_prologix_provider live board configuration pool).2
  end.

(** Controllers that have died stay dead. *)
Fixpoint only_die (lives : list (nat -> bool)) : Prop :=
  match lives with
  | live :: ((live' :: _) as lives) => (forall i, live' i = true -> live i = true) /\ only_die lives
  | _ => True
  end.

(** Every live controller is the one its endpoint is listed with. *)
Record pool_ok (live : nat -> bool) (pool : ControllerPool) : Prop := {
  pool_key key i : pool_controllers pool !! key = Some i ->
    exists configuration, pool_configurations pool !! i = Some configuration /\ controller_key configuration = key;
  pool_live i configuration : pool_configurations pool !! i = Some configuration -> live i = true ->
    pool_controllers pool !! controller_key configuration = Some i }.

Lemma same_configuration_eq a b : same_configuration a b = true <-> a = b.
Proof.
  unfold same_configuration. rewrite !andb_true_iff, !bool_decide_eq_true, !Z.eqb_eq.
  destruct a, b; cbn. split; [intros (((((-> & ->) & ->) & ->) & ->) & ->); done|by intros [= -> -> -> -> -> ->]].
Qed.

Lemma fresh_pool_ok (live : nat -> bool) (configuration : PrologixConfiguration) (pool : ControllerPool) (m : gmap ControllerKey nat) :
  (forall i c, pool_configurations pool !! i = Some c -> live i = true -> controller_key c <> controller_key configuration) ->
  m = pool_controllers pool \/ m = delete (controller_key configuration) (pool_controllers pool) ->
  pool_ok live pool ->
  forall live', (forall i, (i < length (pool_configurations pool))%nat -> live' i = true -> live i = true) ->
  pool_ok live' (mkPool (<[controller_key configuration := length (pool_configurations pool)]> m)
                  (pool_configurations pool ++ [configuration])).
Proof.
  intros Hother Hm [K L] live' Hdie.
  assert (forall key i, key <> controller_key configuration -> m !! key = Some i <-> pool_controllers pool !! key = Some i) as Hmk.
  { intros key i Hne. destruct Hm as [->| ->]; [done|]. by rewrite lookup_delete_ne by done. }
  split; cbn [pool_controllers pool_configurations].
  - intros key i. destruct (decide (key = controller_key configuration)) as [->|Hne].
    + rewrite lookup_insert_eq. intros [= <-]. exists configuration. by rewrite list_lookup_middle.
    + rewrite lookup_insert_ne, Hmk by done. intros (c & Hc & Hk)%K. exists c. split; [|done]. by apply lookup_app_l_Some.
  - intros i c Hc Hl. apply lookup_app_Some in Hc as [Hc|[Hge Hc]].
    + pose proof (Hdie _ (lookup_lt_Some _ _ _ Hc) Hl) as Hl'. pose proof (Hother _ _ Hc Hl').
      rewrite lookup_insert_ne, Hmk by done. by apply L.
    + apply list_lookup_singleton_Some in Hc as [Hz <-]. rewrite lookup_insert_eq. f_equal. lia.
Qed.

(** The pool keeps one controller for each endpoint.  A provider for an
    endpoint with a live controller shares it if the configurations agree, and is
    refused as busy if they do not; otherwise there is a new controller with the
    configuration asked for; and no two live controllers have one endpoint. *)
Theorem prologix_pool_shares calls live board configuration :
  only_die ((fun call => call.1.1) <$> calls ++ [(live, board, configuration)]) ->
  let pool := pool_run calls (mkPool ∅ []) in
  (forall i j ci cj, pool_configurations pool !! i = Some ci -> pool_configurations pool !! j = Some cj ->
     live i = true -> live j = true -> controller_key ci = controller_key cj -> i = j) /\
  match make_prologix_provider live board configuration pool with
  | (Some provider, status, pool') =>
      status = VI_SUCCESS /\ pp_board provider = board /\
      pool_configurations pool' !! pp_controller provider = Some configuration /\
      (live (pp_controller provider) = true /\ pool' = pool \/
       pp_controller provider = length (pool_configurations pool) /\
       forall i c, pool_configurations pool !! i = Some c -> live i = true ->
         controller_key c <> controller_key configuration)
  | (None, status, pool') =>
      status = VI_ERROR_RSRC_BUSY /\ pool' = pool /\
      exists i c, pool_configurations pool !! i = Some c /\ live i = true /\
        controller_key c = controller_key configuration /\ c <> configuration
  end.
Proof.
  assert (forall calls live0 pool, pool_ok live0 pool ->
    only_die (live0 :: ((fun call => call.1.1) <$> calls ++ [(live, board, configuration)])) ->
    pool_ok live (pool_run calls pool)) as Hrun.
  { clear calls. induction calls as [|[[live1 board1] c1] calls IH]; intros live0 pool Hok Hdie.
    { cbn in Hdie |- *. destruct Hok as [K L]. split; [done|]. intros i c Hc Hl. apply (L i c Hc). by apply Hdie. }
    destruct Hdie as [Hd Hdie]. cbn [pool_run].
    assert (pool_ok live1 pool) as Hok1. { destruct Hok as [K L]. split; [done|]. intros i c Hc Hl. apply (L i c Hc), Hd, Hl. }
    assert (forall live2 : nat -> bool, (forall i, live2 i = true -> live1 i = true) ->
      pool_ok live2 (make_prologix_provider live1 board1 c1 pool).2) as Hmake.
    { intros live2 Hd2. assert (pool_ok live2 pool) as Hok2.
      { destruct Hok1 as [K L]. split; [done|]. intros i c Hc Hl. apply (L i c Hc), Hd2, Hl. }
      unfold make_prologix_provider. destruct (pool_controllers pool !! controller_key c1) as [i|] eqn:Hi.
      - destruct (live1 i) eqn:Hl; [destruct (pool_configurations pool !! i) as [c|] eqn:Hc; [by case_match|]|].
        + destruct (pool_key _ _ Hok1 _ _ Hi) as (c & Hc' & _). congruence.
        + apply (fresh_pool_ok live1); [|by right|done|by auto].
          intros j c Hc Hlj Hk. pose proof (pool_live _ _ Hok1 _ _ Hc Hlj) as Hj. rewrite Hk, Hi in Hj.
          injection Hj as <-. congruence.
      - apply (fresh_pool_ok live1); [|by left|done|by auto].
        intros j c Hc Hlj Hk. pose proof (pool_live _ _ Hok1 _ _ Hc Hlj) as Hj. by rewrite Hk, Hi in Hj. }
    apply (IH live1); [by apply Hmake|done]. }
  intros Hdie pool. assert (pool_ok live pool) as Hok.
  { destruct calls as [|[[live1 b1] c1] calls]; [by split|].
    apply (Hrun ((live1, b1, c1) :: calls) (fun _ => true)); [by split|]. by split. }
  clear Hrun Hdie. clearbody pool. split.
  { intros i j ci cj Hi Hj Li Lj Hk. apply (pool_live _ _ Hok) in Hi, Hj; [|done..]. congruence. }
  unfold make_prologix_provider. destruct (pool_controllers pool !! controller_key configuration) as [i|] eqn:Hi.
  - destruct (pool_key _ _ Hok _ _ Hi) as (c & Hc & Hk). destruct (live i) eqn:Hl.
    + rewrite Hc. destruct (same_configuration c configuration) eqn:Hs.
      * apply same_configuration_eq in Hs as ->. split; [done|]. split; [done|]. split; [done|]. by left.
      * split; [done|]. split; [done|]. exists i, c. split; [done|]. split; [done|]. split; [done|].
        intros ->. by rewrite (proj2 (same_configuration_eq _ _)) in Hs.
    + split; [done|]. split; [done|]. cbn. rewrite list_lookup_middle by done. split; [done|]. right. split; [done|].
      intros j c' Hc' Hlj Hk'. apply (pool_live _ _ Hok) in Hc'; [|done]. rewrite Hk', Hi in Hc'. injection Hc' as <-. congruence.
  - split; [done|]. split; [done|]. cbn. rewrite list_lookup_middle by done. split; [done|]. right. split; [done|].
    intros j c' Hc' Hlj Hk'. apply (pool_live _ _ Hok) in Hc'; [|done]. by rewrite Hk', Hi in Hc'.
Qed.

Lemma prologix_pool_shares_witness :
  let a := mkPrologixConfiguration prologix_tcp (lit "10.0.0.9") 1234 0 500 4096 in
  let b := mkPrologixConfiguration prologix_tcp (lit "10.0.0.9") 1234 10 500 4096 in
  (make_prologix_provider (fun _ => true) 0 b (pool_run [((fun _ => true), 0, a)] (mkPool ∅ []))).1.2 = VI_ERROR_RSRC_BUSY /\
  exists i c, pool_configurations (pool_run [((fun _ => true), 0, a)] (mkPool ∅ [])) !! i = Some c /\ c <> b.
Proof.
  intros a b. split; [vm_compute; reflexivity|].
  pose proof (prologix_pool_shares [((fun _ => true), 0, a)] (fun _ => true) 0 b ltac:(by split)) as [_ Hm].
  change (make_prologix_provider _ _ _ _) with
    (None : option PrologixProvider, VI_ERROR_RSRC_BUSY, pool_run [((fun _ : nat => true), 0, a)] (mkPool ∅ [])) in Hm.
  destruct Hm as (_ & _ & i & c & Hc & _ & _ & Hne). by exists i, c.
Defined.
