(* ===== verification/PrologixBus.v ===== *)
(** * What a Prologix adapter is told

    The bytes a controller sends, read as the adapter reads them, and the proof
    that every transaction reaches the instrument of its session. *)

From S2P Require Import Prelude Visa CText Operation Bytes BackendSession Stream Io.
From S2P Require Import ResourceParser GpibSession Prologix.

(** ** What the adapter is told

    The bytes sent on a connection, read the way they are meant: lines end with
    an unescaped newline; a line that begins with two unescaped plus signs is a
    command, any other line is data for the instrument. *)

Inductive message := command_message (text : list Z) | data_message (bytes : list Z).

Fixpoint scan_lines (escaped : bool) (line : list (Z * bool)) (bytes : list Z)
  : list (list (Z * bool)) * (bool * list (Z * bool)) :=
  match bytes with
  | [] => ([], (escaped, line))
  | b :: bytes =>
      if escaped then scan_lines false (line ++ [(b, true)]) bytes
      else if b =? kEscape then scan_lines true line bytes
      else if b =? 10 then
        let '(lines, rest) := scan_lines false [] bytes in (line :: lines, rest)
      else scan_lines false (line ++ [(b, false)]) bytes
  end.

Definition classify (line : list (Z * bool)) : message :=
  match line with
  | (a, false) :: (b, false) :: text =>
      if (a =? 43) && (b =? 43) then command_message text.*1 else data_message line.*1
  | _ => data_message line.*1
  end.

(** The messages of bytes that end with a line. *)
Definition messages (bytes : list Z) : option (list message) :=
  match scan_lines false [] bytes with
  | (lines, (false, [])) => Some (classify <$> lines)
  | _ => None
  end.

(** What happens on the bus, and to which address. *)
Inductive bus_event :=
| bus_data (address : option (list Z)) (send_end : option bool) (bytes : list Z)
| bus_read (address : option (list Z))
| bus_clear (address : option (list Z))
| bus_trigger (address : list Z)
| bus_poll (address : list Z).

(** The settings of the adapter. *)
Record adapter := mkAdapter { ad_address : option (list Z); ad_send_end : option bool }.

Definition fresh_adapter : adapter := mkAdapter None None.

Definition after (token text : list Z) : option (list Z) :=
  if bool_decide (take (length token) text = token) then Some (drop (length token) text) else None.

Definition bus_step (m : message) (ad : adapter) : list bus_event * adapter :=
  match m with
  | data_message bytes => ([bus_data (ad_address ad) (ad_send_end ad) bytes], ad)
  | command_message text =>
      match after (ascii_bytes (lit "addr ")) text, after (ascii_bytes (lit "trg ")) text,
            after (ascii_bytes (lit "spoll ")) text with
      | Some address, _, _ => ([], mkAdapter (Some address) (ad_send_end ad))
      | _, Some address, _ => ([bus_trigger address], ad)
      | _, _, Some address => ([bus_poll address], ad)
      | None, None, None =>
          if bool_decide (text = ascii_bytes (lit "eoi 1")) then ([], mkAdapter (ad_address ad) (Some true))
          else if bool_decide (text = ascii_bytes (lit "eoi 0")) then ([], mkAdapter (ad_address ad) (Some false))
          else if bool_decide (text = ascii_bytes (lit "read eoi")) then ([bus_read (ad_address ad)], ad)
          else if bool_decide (text = ascii_bytes (lit "clr")) then ([bus_clear (ad_address ad)], ad)
          else ([], ad)
      end
  end.

Fixpoint bus_steps (ms : list message) (ad : adapter) : list bus_event * adapter :=
  match ms with
  | [] => ([], ad)
  | m :: ms =>
      let '(es, ad1) := bus_step m ad in
      let '(es', ad2) := bus_steps ms ad1 in (es ++ es', ad2)
  end.

(** What a new adapter has done after these bytes. *)
Definition bus (bytes : list Z) : option (list bus_event * adapter) :=
  (fun ms => bus_steps ms fresh_adapter) <$> messages bytes.

(** *** Lines *)

Lemma scan_lines_app bytes bytes' : forall escaped line,
  scan_lines escaped line (bytes ++ bytes') =
  let '(lines, (e, l)) := scan_lines escaped line bytes in
  let '(lines', rest) := scan_lines e l bytes' in (lines ++ lines', rest).
Proof.
  induction bytes as [|b bytes IH]; intros escaped line; cbn [app scan_lines].
  { by destruct (scan_lines escaped line bytes'). }
  destruct escaped; [apply IH|]. destruct (b =? kEscape); [apply IH|].
  destruct (b =? 10); [|apply IH]. rewrite IH.
  destruct (scan_lines false [] bytes) as [lines [e l]]. by destruct (scan_lines e l bytes').
Qed.

Lemma messages_app bytes bytes' ms :
  messages bytes = Some ms -> messages (bytes ++ bytes') = app ms <$> messages bytes'.
Proof.
  unfold messages. rewrite scan_lines_app.
  destruct (scan_lines false [] bytes) as [lines [[] [|]]]; try done. intros [= <-].
  destruct (scan_lines false [] bytes') as [lines' [[] [|]]]; try done. cbn. by rewrite fmap_app.
Qed.

Lemma bus_steps_app ms ms' ad :
  bus_steps (ms ++ ms') ad =
  let '(es, ad1) := bus_steps ms ad in let '(es', ad2) := bus_steps ms' ad1 in (es ++ es', ad2).
Proof.
  revert ad. induction ms as [|m ms IH]; intros ad; cbn; [by destruct (bus_steps ms' ad)|].
  destruct (bus_step m ad) as [es ad1]. rewrite IH. destruct (bus_steps ms ad1) as [es1 ad2].
  destruct (bus_steps ms' ad2). by rewrite app_assoc.
Qed.

(** One more message. *)
Lemma bus_snoc sent es ad bytes m :
  bus sent = Some (es, ad) -> messages bytes = Some [m] ->
  bus (sent ++ bytes) = Some (es ++ (bus_step m ad).1, (bus_step m ad).2).
Proof.
  unfold bus. intros Hs Hm. destruct (messages sent) as [ms|] eqn:Hms; [|done].
  rewrite (messages_app _ _ _ Hms), Hm. cbn in Hs |- *. injection Hs as Hs.
  rewrite bus_steps_app, Hs. cbn. destruct (bus_step m ad). by rewrite app_nil_r.
Qed.

(** Text that needs no escape. *)
Definition plain_text (text : list Z) : Prop := Forall (fun b => b <> kEscape /\ b <> 10) text.

Definition plain_tokens (text : list Z) : list (Z * bool) := (fun b => (b, false)) <$> text.

Definition data_tokens (data : list Z) : list (Z * bool) := (fun b => (b, needs_escape b)) <$> data.

Arguments plain_tokens : simpl never.
Arguments data_tokens : simpl never.

Lemma plain_tokens_bytes text : (plain_tokens text).*1 = text.
Proof. unfold plain_tokens. rewrite <- list_fmap_compose. apply list_fmap_id. Qed.

Lemma data_tokens_bytes data : (data_tokens data).*1 = data.
Proof. unfold data_tokens. rewrite <- list_fmap_compose. apply list_fmap_id. Qed.

Lemma scan_plain text rest line :
  plain_text text -> scan_lines false line (text ++ rest) = scan_lines false (line ++ plain_tokens text) rest.
Proof.
  intros Ht. revert line. induction Ht as [|b text [He Hn] Ht IH]; intros line; cbn.
  { by rewrite app_nil_r. }
  rewrite (proj2 (Z.eqb_neq _ _) He), (proj2 (Z.eqb_neq _ _) Hn), IH. by rewrite <- app_assoc.
Qed.

Lemma ascii_bytes_app s t : ascii_bytes (s ++ t) = ascii_bytes s ++ ascii_bytes t.
Proof. apply fmap_app. Qed.

Lemma messages_command text :
  plain_text (ascii_bytes text) ->
  messages (ascii_bytes (command_line text)) = Some [command_message (ascii_bytes text)].
Proof.
  intros Ht. unfold messages, command_line. rewrite !ascii_bytes_app.
  rewrite (scan_plain (ascii_bytes (lit "++"))) by (repeat constructor; done).
  change ([] ++ plain_tokens (ascii_bytes (lit "++"))) with [(43, false); (43, false)].
  change (ascii_bytes [chr 10]) with [10].
  rewrite scan_plain by done. cbn. by rewrite plain_tokens_bytes.
Qed.

Lemma scan_escaped data rest line :
  scan_lines false line (mjoin (escape <$> data) ++ rest) = scan_lines false (line ++ data_tokens data) rest.
Proof.
  revert line. induction data as [|b data IH]; intros line; cbn; [by rewrite app_nil_r|].
  change (data_tokens (b :: data)) with ([(b, needs_escape b)] ++ data_tokens data).
  unfold escape at 1. destruct (needs_escape b) eqn:Hb; cbn.
  - rewrite IH. by rewrite <- app_assoc.
  - unfold needs_escape in Hb. rewrite !orb_false_iff in Hb. destruct Hb as [[[_ Hn] He] _].
    rewrite He, Hn, IH. by rewrite <- app_assoc.
Qed.

Lemma classify_data data : classify (data_tokens data) = data_message data.
Proof.
  rewrite <- (data_tokens_bytes data) at 2. destruct data as [|a [|b data]]; [done|unfold data_tokens; cbn; by destruct (needs_escape a)|].
  unfold data_tokens. cbn [fmap list_fmap]. cbn [classify]. unfold needs_escape at 1.
  destruct (Z.eqb_spec a 43) as [->|]; [done|]. by destruct (_ || _), (needs_escape b).
Qed.

(** Data sent to an instrument arrives as one line of data, whatever its bytes:
    no byte of it ends the line, starts a command or is lost. *)
Lemma prologix_data_line data : messages (encode_data data) = Some [data_message data].
Proof.
  unfold messages, encode_data. rewrite scan_escaped. cbn. by rewrite classify_data.
Qed.

(** *** Commands *)

Lemma uchar_digit d : 0 <= d < 10 -> uchar (digit_char d) = 48 + d.
Proof. intros Hd. unfold digit_char. rewrite (proj2 (Z.ltb_lt _ _)) by lia. apply uchar_chr. lia. Qed.

Lemma plain_app s t : plain_text s -> plain_text t -> plain_text (s ++ t).
Proof. intros. by apply Forall_app. Qed.

Lemma plain_to_string z : 0 <= z -> plain_text (ascii_bytes (to_string z)).
Proof.
  intros Hz. unfold to_string, print. generalize (S (Z.to_nat (Z.log2 z))) as fuel. intros fuel.
  revert z Hz. induction fuel as [|fuel IH]; intros z Hz; [constructor|]. cbn [print_fuel].
  destruct (Z.ltb_spec z 10).
  - repeat constructor; rewrite uchar_digit by lia; unfold kEscape; lia.
  - rewrite ascii_bytes_app. apply plain_app; [apply IH, Z.div_pos; lia|].
    pose proof (Z.mod_pos_bound z 10 ltac:(lia)).
    repeat constructor; rewrite uchar_digit by lia; unfold kEscape; lia.
Qed.

Lemma after_app token text : after token (token ++ text) = Some text.
Proof. unfold after. by rewrite take_app_length, drop_app_length, bool_decide_eq_true_2. Qed.

Lemma step_addr address ad :
  bus_step (command_message (ascii_bytes (lit "addr ") ++ address)) ad = ([], mkAdapter (Some address) (ad_send_end ad)).
Proof. unfold bus_step. by rewrite after_app. Qed.

Lemma step_trg address ad :
  bus_step (command_message (ascii_bytes (lit "trg ") ++ address)) ad = ([bus_trigger address], ad).
Proof. unfold bus_step. rewrite after_app. by destruct address. Qed.

Lemma step_spoll address ad :
  bus_step (command_message (ascii_bytes (lit "spoll ") ++ address)) ad = ([bus_poll address], ad).
Proof. unfold bus_step. rewrite after_app. reflexivity. Qed.

Lemma step_eoi (b : bool) ad :
  bus_step (command_message (ascii_bytes (if b then lit "eoi 1" else lit "eoi 0"))) ad =
  ([], mkAdapter (ad_address ad) (Some b)).
Proof. by destruct b. Qed.

Lemma step_read ad : bus_step (command_message (ascii_bytes (lit "read eoi"))) ad = ([bus_read (ad_address ad)], ad).
Proof. done. Qed.

Lemma step_clr ad : bus_step (command_message (ascii_bytes (lit "clr"))) ad = ([bus_clear (ad_address ad)], ad).
Proof. done. Qed.

(** The initialisation configures the adapter and touches no instrument. *)
Lemma bus_initialization configuration :
  0 <= px_eot_char configuration -> 0 <= px_read_timeout_ms configuration ->
  bus (ascii_bytes (initialization configuration)) = Some ([], fresh_adapter).
Proof.
  intros He Ht.
  set (texts := [lit "savecfg 0"; lit "mode 1"; lit "auto 0"; lit "eos 3";
    lit "eot_char " ++ to_string (px_eot_char configuration); lit "eot_enable 1";
    lit "read_tmo_ms " ++ to_string (px_read_timeout_ms configuration); lit "ver"]).
  assert (initialization configuration = mjoin (command_line <$> texts)) as ->.
  { unfold initialization, texts, command_line. cbn [fmap list_fmap mjoin list_join].
    rewrite <- !app_assoc. reflexivity. }
  assert (Forall (fun text => plain_text (ascii_bytes text)) texts) as Hp.
  { unfold texts. repeat constructor; rewrite ?ascii_bytes_app; try apply plain_app;
      try (by apply plain_to_string); repeat constructor; done. }
  assert (forall l, Forall (fun text => plain_text (ascii_bytes text)) l ->
    messages (ascii_bytes (mjoin (command_line <$> l))) = Some ((fun text => command_message (ascii_bytes text)) <$> l)) as Hm.
  { induction 1 as [|text l Htext _ IH]; [done|].
    change (mjoin (command_line <$> text :: l)) with (command_line text ++ mjoin (command_line <$> l)).
    rewrite ascii_bytes_app. erewrite messages_app by (by apply messages_command).
    by rewrite IH. }
  unfold bus. rewrite (Hm _ Hp). unfold texts. cbn [fmap list_fmap option_fmap option_map].
  rewrite !ascii_bytes_app. generalize (ascii_bytes (to_string (px_eot_char configuration))) as x.
  generalize (ascii_bytes (to_string (px_read_timeout_ms configuration))) as y. intros y x. reflexivity.
Qed.

(** ** Every transaction reaches its instrument *)

Class PrologixWire (D H : Type) `{PrologixIo D H} (sent : D -> list Z) : Prop := {
  pw_connect op d status seen op' d' :
    pi_connect op d = Some (status, seen, op', d') -> VI_SUCCESS <= status -> sent d' = [];
  pw_write data op d status seen op' d' :
    pi_write data op d = Some (status, seen, op', d') -> VI_SUCCESS <= status -> sent d' = sent d ++ data;
  pw_read delimiter limit idle op d r op' d' :
    pi_read_until delimiter limit idle op d = Some (r, op', d') -> sent d' = sent d;
  pw_close d : sent (pi_close d) = sent d;
  pw_now d : sent (pi_now d).2 = sent d;
  pw_handlers handlers d : sent (pi_run_handlers handlers d) = sent d }.

Definition event_of (q : request) (address : list Z) : bus_event :=
  match q with
  | read_response => bus_read (Some address)
  | write_data data send_end => bus_data (Some address) (Some send_end) data
  | device_clear => bus_clear (Some address)
  | device_trigger => bus_trigger address
  | poll_status => bus_poll address
  end.

Section addressing.
  Context {D H : Type} `{PrologixIo D H} `{!PrologixIoLaws D H} (sent : D -> list Z) `{!PrologixWire D H sent}.
  Context (turns : nat).
  Context (elsewhere : nat -> PrologixController D * Operation H -> PrologixController D * Operation H).
  Implicit Types (c : PrologixController D) (w : PrologixController D * Operation H).

(** What was sent on the connection amounts to [es], and the controller knows
    the settings the adapter has. *)
Definition told (es : list bus_event) c : Prop :=
  initialized_ c = true /\
  bus (sent (pc_io c)) = Some (es, mkAdapter (ascii_bytes <$> current_address_ c) (current_send_end_ c)).

Definition synced c : Prop := initialized_ c = true -> exists es, told es c.

(** The invariant of the gate. *)
Definition gate_ok c : Prop :=
  (active_owner_ c = 0 -> synced c) /\
  0 <= px_eot_char (pc_configuration c) /\ 0 <= px_read_timeout_ms (pc_configuration c).

Definition same_settings c c' : Prop :=
  pc_configuration c' = pc_configuration c /\ active_owner_ c' = active_owner_ c /\
  initialized_ c' = initialized_ c /\ current_address_ c' = current_address_ c /\
  current_send_end_ c' = current_send_end_ c.

Lemma told_same es c c' : same_settings c c' -> sent (pc_io c') = sent (pc_io c) -> told es c -> told es c'.
Proof. intros (_ & _ & Hi & Ha & He) Hs. unfold told. by rewrite Hi, Ha, He, Hs. Qed.

Lemma mark_same seen c : same_settings c (if seen : bool then pc_with_reconnect true c else c) /\
  pc_io (if seen then pc_with_reconnect true c else c) = pc_io c.
Proof. by destruct seen. Qed.

Lemma holds_mark {R} seen w (Q : outcome _ R unit -> Prop) :
  Q (Next tt (if seen : bool then pc_with_reconnect true w.1 else w.1, w.2)) -> holds (mark_cancelled seen) w Q.
Proof. unfold mark_cancelled. intros HQ. destruct w, seen; [by apply holds_modify|by apply holds_ret]. Qed.

Lemma io_write_spec {R} data w :
  holds (io_write (R:=R) data) w (fun o =>
    match o with
    | Next status w' => same_settings w.1 w'.1 /\
        (VI_SUCCESS <= status -> sent (pc_io w'.1) = sent (pc_io w.1) ++ data)
    | Return _ _ => False
    end).
Proof.
  unfold io_write. apply holds_bind. intros o. unfold transfer.
  destruct (pi_write _ _ _) as [[[[status seen] op'] d']|] eqn:E; [|done]. intros [= <-].
  apply holds_bind, holds_mark, holds_ret. cbn [fst snd].
  destruct (mark_same seen (pc_with_io d' w.1)) as [Hs Hio]. split; [exact Hs|].
  intros Hst. cbn in Hio |- *. rewrite Hio. cbn. by apply (pw_write _ _ _ _ _ _ _ E).
Qed.

Lemma io_read_spec {R} delimiter limit w :
  holds (io_read_until (R:=R) delimiter limit) w (fun o =>
    match o with
    | Next _ w' => same_settings w.1 w'.1 /\ sent (pc_io w'.1) = sent (pc_io w.1)
    | Return _ _ => False
    end).
Proof.
  unfold io_read_until. apply holds_bind, holds_gets, holds_bind. intros o. unfold transfer.
  destruct (pi_read_until _ _ _ _ _) as [[[[status [data seen]] op'] d']|] eqn:E; [|done]. intros [= <-].
  apply holds_bind, holds_mark, holds_ret. cbn [fst snd].
  destruct (mark_same seen (pc_with_io d' w.1)) as [Hs Hio]. split; [exact Hs|].
  cbn in Hio |- *. rewrite Hio. cbn. by apply (pw_read _ _ _ _ _ _ _ _ E).
Qed.

(** *** The bodies of the transactions *)

Lemma address_plain resource :
  0 <= rd_gpib_primary_address resource -> plain_text (ascii_bytes (address_suffix resource)).
Proof.
  intros Ha. unfold address_suffix. rewrite ascii_bytes_app. apply plain_app; [by apply plain_to_string|].
  destruct (rd_gpib_has_secondary_address resource); [|constructor]. rewrite ascii_bytes_app.
  apply plain_app; [repeat constructor; done|]. apply plain_to_string. unfold u32. apply Z.mod_pos_bound. lia.
Qed.

(** [text] goes out as a command. *)
Lemma command_spec {R} text es w :
  plain_text (ascii_bytes text) -> told es w.1 ->
  holds (write_command (R:=R) (command_line text)) w (fun o =>
    match o with
    | Next status w' => same_settings w.1 w'.1 /\
        (VI_SUCCESS <= status ->
         let '(events, ad) := bus_step (command_message (ascii_bytes text))
                                (mkAdapter (ascii_bytes <$> current_address_ w.1) (current_send_end_ w.1)) in
         bus (sent (pc_io w'.1)) = Some (es ++ events, ad))
    | Return _ _ => False
    end).
Proof.
  intros Hp [Hi Hb]. unfold write_command. eapply holds_mono; [apply io_write_spec|].
  intros [status w'|]; [|done]. intros [Hs Hsent]. split; [done|]. intros Hst.
  pose proof (bus_snoc _ _ _ _ _ Hb (messages_command text Hp)) as Hn. rewrite <- Hsent in Hn by done.
  by destruct (bus_step _ _).
Qed.

(** A command without effect on the settings. *)
Lemma plain_command_spec {R} text es e w :
  plain_text (ascii_bytes text) -> told es w.1 ->
  (forall ad, ad_address ad = ascii_bytes <$> current_address_ w.1 ->
     bus_step (command_message (ascii_bytes text)) ad = ([e], ad)) ->
  holds (write_command (R:=R) (command_line text)) w (fun o =>
    match o with
    | Next status w' => same_settings w.1 w'.1 /\ (VI_SUCCESS <= status -> told (es ++ [e]) w'.1)
    | Return _ _ => False
    end).
Proof.
  intros Hp Ht He. eapply holds_mono; [by apply command_spec|].
  intros [status w'|]; [|done]. intros [Hs Hsent]. split; [done|]. intros Hst. specialize (Hsent Hst).
  rewrite He in Hsent by done. destruct Hs as (_ & _ & Hi & Ha & Hse). unfold told. rewrite Hi, Ha, Hse.
  split; [apply Ht|done].
Qed.

Lemma select_spec resource es w :
  0 <= rd_gpib_primary_address resource -> told es w.1 ->
  holds (select_address resource) w (fun o =>
    match o with
    | Next status w' | Return status w' =>
        VI_SUCCESS <= status -> told es w'.1 /\ current_address_ w'.1 = Some (address_suffix resource)
    end).
Proof.
  intros Ha Ht. unfold select_address. apply holds_bind, holds_gets.
  case_bool_decide as Hc; [by apply holds_return|].
  apply holds_bind. eapply holds_mono.
  { apply command_spec; [|done]. rewrite ascii_bytes_app. apply plain_app; [repeat constructor; done|by apply address_plain]. }
  intros [status w'|]; [|done]. intros [Hs Hsent]. apply holds_bind.
  destruct (Z.leb_spec VI_SUCCESS status) as [Hst|Hst]; [|by apply holds_ret, holds_ret; intros ?; lia].
  apply holds_modify, holds_ret. intros _. cbn. split; [|done].
  specialize (Hsent Hst). rewrite ascii_bytes_app, step_addr, app_nil_r in Hsent. cbn in Hsent.
  destruct Hs as (_ & _ & Hi & _ & Hse). unfold told. cbn. rewrite Hi, Hse. split; [apply Ht|done].
Qed.

(** What a body promises. *)
Definition addressed (l : list bus_event) (m : io (PrologixController D * Operation H) reply reply) : Prop :=
  forall es w, told es w.1 ->
  holds m w (fun o =>
    match o with
    | Next r w' | Return r w' => VI_SUCCESS <= rp_status r -> told (es ++ l) w'.1
    end).

Lemma holds_checked_reply (call : io (PrologixController D * Operation H) reply Z) w
    (Q : outcome _ reply unit -> Prop) :
  holds call w (fun o =>
    match o with
    | Next status w' => (VI_SUCCESS <= status -> Q (Next tt w')) /\
                        (status < VI_SUCCESS -> Q (Return (status_only status) w'))
    | Return r w' => Q (Return r w')
    end) -> holds (checked_reply call) w Q.
Proof.
  intros Hc. unfold checked_reply. apply holds_bind. eapply holds_mono; [exact Hc|].
  intros [status w'|r w']; [|done]. intros [Hok Hbad].
  destruct (Z.ltb_spec status VI_SUCCESS); [apply holds_return|apply holds_ret]; auto.
Qed.

Lemma holds_selected resource es w {A} (k : unit -> io (PrologixController D * Operation H) reply A)
    (Q : outcome _ reply A -> Prop) :
  0 <= rd_gpib_primary_address resource -> told es w.1 ->
  (forall w', told es w'.1 -> current_address_ w'.1 = Some (address_suffix resource) -> holds (k tt) w' Q) ->
  (forall r w', rp_status r < VI_SUCCESS -> Q (Return r w')) ->
  holds (io_bind (checked_reply (io_call (select_address resource))) k) w Q.
Proof.
  intros Ha Ht Hk Hr. apply holds_bind, holds_checked_reply, holds_call.
  eapply holds_mono; [by apply select_spec|].
  intros [status w'|status w'] Hs; (split; [intros [Ht' Hc]%Hs; by apply Hk|intros Hst; by apply Hr]).
Qed.

Lemma holds_command e text es w {A} (k : unit -> io (PrologixController D * Operation H) reply A)
    (Q : outcome _ reply A -> Prop) :
  plain_text (ascii_bytes text) -> told es w.1 ->
  (forall ad, ad_address ad = ascii_bytes <$> current_address_ w.1 ->
     bus_step (command_message (ascii_bytes text)) ad = ([e], ad)) ->
  (forall w', told (es ++ [e]) w'.1 -> holds (k tt) w' Q) ->
  (forall r w', rp_status r < VI_SUCCESS -> Q (Return r w')) ->
  holds (io_bind (checked_reply (write_command (command_line text))) k) w Q.
Proof.
  intros Hp Ht He Hk Hr. apply holds_bind, holds_checked_reply.
  eapply holds_mono; [by apply plain_command_spec|].
  intros [status w'|status w']; [|done]. intros [_ Hs]. split; [intros Ht'%Hs; by apply Hk|intros Hst; by apply Hr].
Qed.

Lemma holds_last_command e text es w :
  plain_text (ascii_bytes text) -> told es w.1 ->
  (forall ad, ad_address ad = ascii_bytes <$> current_address_ w.1 ->
     bus_step (command_message (ascii_bytes text)) ad = ([e], ad)) ->
  holds (as_reply (write_command (command_line text))) w (fun o =>
    match o with
    | Next r w' | Return r w' => VI_SUCCESS <= rp_status r -> told (es ++ [e]) w'.1
    end).
Proof.
  intros Hp Ht He. unfold as_reply. apply holds_bind. eapply holds_mono; [by apply plain_command_spec|].
  intros [status w'|status w']; [|done]. intros [_ Hs]. by apply holds_ret.
Qed.

Lemma plain_lit (text : str) :
  forallb (fun x => negb (uchar x =? kEscape) && negb (uchar x =? 10)) text = true ->
  plain_text (ascii_bytes text).
Proof.
  induction text as [|x text IH]; [constructor|]. cbn [forallb]. rewrite !andb_true_iff, !negb_true_iff, !Z.eqb_neq.
  intros [[H1 H2] Hf]. constructor; [done|by apply IH].
Qed.

Lemma send_end_spec send_end es w :
  told es w.1 -> current_address_ w.1 <> None ->
  holds (select_send_end send_end) w (fun o =>
    match o with
    | Next _ w' => told es w'.1 /\ current_address_ w'.1 = current_address_ w.1 /\
        current_send_end_ w'.1 = Some send_end
    | Return r _ => rp_status r < VI_SUCCESS
    end).
Proof.
  intros Ht _. unfold select_send_end. apply holds_bind, holds_gets.
  case_bool_decide as Hc; [by apply holds_ret|].
  apply holds_bind, holds_checked_reply. eapply holds_mono.
  { apply command_spec; [|done]. destruct send_end; by apply plain_lit. }
  intros [status w'|status w']; [|done]. intros [(_ & _ & Hi & Ha & _) Hs].
  split; [|done]. intros Hst%Hs. apply holds_modify. cbn. split; [|done]. unfold told. cbn. rewrite Hi, Ha.
  split; [apply Ht|]. rewrite step_eoi, app_nil_r in Hst. exact Hst.
Qed.

Lemma body_addressed resource q :
  0 <= rd_gpib_primary_address resource ->
  addressed [event_of q (ascii_bytes (address_suffix resource))] (body_of resource q).
Proof.
  intros Ha es w Ht. pose proof (address_plain resource Ha) as Hp.
  destruct q as [|data send_end| | |]; cbn [body_of event_of].
  - apply (holds_selected resource es); [done|done| |by intros r w' ? ?; lia]. intros w1 Ht1 Hc.
    apply (holds_command (bus_read (Some (ascii_bytes (address_suffix resource)))) (lit "read eoi") es);
      [by apply plain_lit|done| | |by intros r w' ? ?; lia].
    { intros ad Had. by rewrite step_read, Had, Hc. }
    intros w2 Ht2. apply holds_bind, holds_gets, holds_bind. eapply holds_mono; [apply io_read_spec|].
    intros [r w3|]; [|done]. intros [Hs Hsent]. apply holds_ret. intros _. by apply (told_same _ w2.1).
  - apply (holds_selected resource es); [done|done| |by intros r w' ? ?; lia]. intros w1 Ht1 Hc.
    apply holds_bind. eapply holds_mono; [by apply (send_end_spec send_end es); [|rewrite Hc]|].
    intros [[] w2|r w2]; [|by intros ? ?; lia]. intros (Ht2 & Hc2 & Hse).
    destruct (data_too_long data); [by apply holds_return|].
    unfold as_reply. apply holds_bind. eapply holds_mono; [apply io_write_spec|].
    intros [status w3|]; [|done]. intros [(_ & _ & Hi & Ha3 & Hse3) Hsent]. apply holds_ret. intros Hst.
    destruct Ht2 as [Hi2 Hb2]. pose proof (bus_snoc _ _ _ _ _ Hb2 (prologix_data_line data)) as Hb3.
    rewrite <- Hsent in Hb3 by done. rewrite Hc2, Hc, Hse in Hb3. unfold told.
    by rewrite Hi, Ha3, Hse3, Hc2, Hc, Hse, Hi2.
  - apply (holds_selected resource es); [done|done| |by intros r w' ? ?; lia]. intros w1 Ht1 Hc.
    apply (holds_last_command _ (lit "clr")); [by apply plain_lit|done|].
    intros ad Had. by rewrite step_clr, Had, Hc.
  - apply (holds_last_command _ (lit "trg " ++ address_suffix resource)); [|done|].
    + rewrite ascii_bytes_app. by apply plain_app; [apply plain_lit|].
    + intros ad _. rewrite ascii_bytes_app. apply step_trg.
  - apply (holds_command (bus_poll (ascii_bytes (address_suffix resource))) (lit "spoll " ++ address_suffix resource) es);
      [|done| | |by intros r w' ? ?; lia].
    + rewrite ascii_bytes_app. by apply plain_app; [apply plain_lit|].
    + intros ad _. rewrite ascii_bytes_app. apply step_spoll.
    + intros w2 Ht2. apply holds_bind. eapply holds_mono; [apply io_read_spec|].
      intros [[status line] w3|]; [|done]. intros [Hs Hsent]. cbn [fst snd].
      destruct (status <? VI_SUCCESS); [by apply holds_return; intros ?; apply (told_same _ w2.1)|].
      destruct (poll_value line); [apply holds_ret|apply holds_return]; intros _; by apply (told_same _ w2.1).
Qed.

(** *** Transactions *)

Definition config_ok c : Prop :=
  0 <= px_eot_char (pc_configuration c) /\ 0 <= px_read_timeout_ms (pc_configuration c).

(** The other threads respect the gate: they leave it open only on a controller
    that knows the adapter's settings, and their failures are failures. *)
Class Courteous : Prop := {
  others_gate n w : gate_ok w.1 -> gate_ok (elsewhere n w).1;
  others_later n w : later w.2 (elsewhere n w).2;
  others_fail n w : fails_only w.2 -> fails_only (elsewhere n w).2 }.

Context `{!Courteous}.

Lemma gate_ok_io d c : sent d = sent (pc_io c) -> gate_ok c -> gate_ok (pc_with_io d c).
Proof.
  intros Hs [Hg Hc]. split; [|done]. intros Ha Hi. destruct (Hg Ha Hi) as [es Ht]. exists es.
  by apply (told_same _ c).
Qed.

Lemma passed_spec {R} w :
  gate_ok w.1 -> fails_only w.2 ->
  holds (deadline_passed (R:=R)) w (fun o =>
    match o with
    | Next _ w' => gate_ok w'.1 /\ w'.2 = w.2 /\ active_owner_ w'.1 = active_owner_ w.1
    | Return _ _ => False
    end).
Proof.
  intros Hg Hf. unfold deadline_passed. apply holds_bind, holds_gets.
  destruct (deadline_ w.2); [|by apply holds_ret]. intros o.
  pose proof (pw_now (pc_io w.1)) as Hn. destruct (pi_now (pc_io w.1)) as [now d]. intros [= <-]. cbn.
  split; [|done]. by apply gate_ok_io.
Qed.

Lemma timeout_spec {R} w :
  gate_ok w.1 -> fails_only w.2 ->
  holds (gate_timeout (R:=R)) w (fun o =>
    match o with
    | Next _ w' => gate_ok w'.1 /\ fails_only w'.2 /\ completed w'.2 = true
    | Return _ _ => False
    end).
Proof.
  intros Hg Hf o. unfold gate_timeout. pose proof (request_timeout_completed w.2) as Hc.
  pose proof (fails_only_request_timeout w.2 Hf) as Hf'.
  destruct (request_timeout w.2) as [[won hs] op']. intros [= <-]. cbn.
  split; [|done]. apply gate_ok_io; [apply pw_handlers|done].
Qed.

Lemma acquire_spec {R} owner w :
  gate_ok w.1 -> fails_only w.2 ->
  holds (acquire turns elsewhere (R:=R) owner) w (fun o =>
    match o with
    | Next true w' => synced w'.1 /\ config_ok w'.1 /\ fails_only w'.2
    | Next false w' => gate_ok w'.1 /\ fails_only w'.2 /\ completed w'.2 = true
    | Return _ _ => False
    end).
Proof.
  intros Hg Hf. unfold acquire. apply holds_bind. intros o [= <-].
  pose proof (others_gate 0 w Hg) as Hg1. pose proof (others_fail 0 w Hf) as Hf1.
  set (w1 := elsewhere 0 w) in *. clearbody w1. clear w Hg Hf.
  apply holds_bind. eapply holds_mono; [by apply passed_spec|].
  intros [[] w2|]; [| |done]; intros (Hg2 & Hop & _); rewrite <- Hop in Hf1.
  { apply holds_bind. eapply holds_mono; [by apply timeout_spec|]. intros [[] w3|]; [|done].
    intros (? & ? & ?). by apply holds_ret. }
  apply holds_bind. eapply holds_mono.
  { apply (holds_iter (fun _ w => gate_ok w.1 /\ fails_only w.2) turns _ (fun o =>
      match o with
      | Next _ w' => gate_ok w'.1 /\ fails_only w'.2 /\ (active_owner_ w'.1 = 0 \/ completed w'.2 = true)
      | Return _ _ => False
      end)); [|done]. intros n w [Hg Hf]. unfold gate_turn. apply holds_bind, holds_gets, holds_bind, holds_gets.
    destruct (_ || _) eqn:Hready.
    - apply holds_ret. split; [done|]. split; [done|]. apply orb_true_iff in Hready as [?%Z.eqb_eq|?]; auto.
    - apply holds_bind. eapply holds_mono; [by apply passed_spec|].
      intros [[] w4|]; [| |done]; intros (Hg4 & Hop4 & _); rewrite <- Hop4 in Hf.
      + apply holds_bind. eapply holds_mono; [by apply timeout_spec|]. intros [[] w5|]; [|done].
        intros (? & ? & ?). apply holds_ret. auto.
      + apply holds_bind. intros o [= <-]. apply holds_ret. split; [by apply others_gate|by apply others_fail]. }
  intros [[] w3|]; [|done]. intros (Hg3 & Hf3 & Hwhy). apply holds_bind, holds_gets.
  destruct (completed w3.2) eqn:Hc; [by apply holds_ret|]. destruct Hwhy as [Ha|]; [|congruence].
  apply holds_bind, holds_modify, holds_ret. cbn. split; [|by split; [apply Hg3|]].
  intros Hi. destruct (proj1 Hg3 Ha Hi) as [es Ht]. exists es. exact Ht.
Qed.

Lemma io_connect_spec {R} w :
  holds (io_connect (R:=R)) w (fun o =>
    match o with
    | Next status w' => same_settings w.1 w'.1 /\ (VI_SUCCESS <= status -> sent (pc_io w'.1) = [])
    | Return _ _ => False
    end).
Proof.
  unfold io_connect. apply holds_bind. intros o. unfold transfer.
  destruct (pi_connect _ _) as [[[[status seen] op'] d']|] eqn:E; [|done]. intros [= <-].
  apply holds_bind, holds_mark, holds_ret. cbn [fst snd].
  destruct (mark_same seen (pc_with_io d' w.1)) as [Hs Hio]. split; [exact Hs|].
  intros Hst. cbn in Hio |- *. rewrite Hio. cbn. by apply (pw_connect _ _ _ _ _ _ E).
Qed.

(** The line is ready: it was, or it is new. *)
Lemma line_ready_spec w :
  synced w.1 -> config_ok w.1 ->
  holds ensure_ready w (fun o =>
    match o with
    | Next status w' | Return status w' => VI_SUCCESS <= status -> exists es, told es w'.1
    end).
Proof.
  intros Hs [He Ht]. unfold ensure_ready. apply holds_bind, holds_gets.
  destruct (initialized_ w.1) eqn:Hi; [apply holds_return; intros _; by apply Hs|].
  apply holds_bind, holds_gets. unfold checked. apply holds_bind, holds_bind.
  eapply holds_mono; [apply io_connect_spec|]. intros [status w1|]; [|done]. intros [Hs1 Hsent1].
  destruct (Z.ltb_spec status VI_SUCCESS) as [|Hst]; [apply holds_return; intros ?; lia|]. specialize (Hsent1 Hst).
  apply holds_ret, holds_bind, holds_bind. eapply holds_mono; [apply io_write_spec|].
  intros [status2 w2|]; [|done]. intros [Hs2 Hsent2].
  destruct (Z.ltb_spec status2 VI_SUCCESS) as [|Hst2]; [apply holds_return; intros ?; lia|]. specialize (Hsent2 Hst2).
  apply holds_ret, holds_bind. eapply holds_mono; [apply io_read_spec|].
  intros [[status3 version] w3|]; [|done]. intros [Hs3 Hsent3]. cbn [fst snd].
  destruct (Z.ltb_spec status3 VI_SUCCESS); [apply holds_return; intros ?; lia|].
  destruct (_ || _); [apply holds_return; by intros ?|].
  apply holds_bind, holds_modify, holds_ret. intros _. exists []. unfold told. cbn. split; [done|].
  rewrite Hsent3, Hsent2, Hsent1. by apply bus_initialization.
Qed.

(** *** The configuration is fixed, failures are failures *)

Definition kept (w w' : PrologixController D * Operation H) : Prop :=
  pc_configuration w'.1 = pc_configuration w.1 /\ fails_on w w'.

#[local] Instance kept_preorder : PreOrder kept.
Proof.
  split; [by split|]. intros w1 w2 w3 [C1 F1] [C2 F2]. split; [congruence|]. intros Hf. by apply F2, F1.
Qed.

Lemma kept_modify {R} f : (forall c, pc_configuration (f c) = pc_configuration c) ->
  steady kept (modify (H:=H) (R:=R) f).
Proof. intros Hf. apply steady_modify. intros w. split; [apply Hf|]. by intros ?. Qed.

Lemma kept_transfer {R X} (f : Operation H -> D -> transport_call D H X) :
  (forall op d r op' d', f op d = Some (r, op', d') -> fails_only op -> fails_only op') ->
  steady kept (transfer (R:=R) f).
Proof.
  intros Hf w o. unfold transfer. destruct (f _ _) as [[[[st x] op'] d']|] eqn:E; [|done]. intros [= <-].
  split; [done|]. intros Hop. by apply (Hf _ _ _ _ _ E).
Qed.

Lemma kept_mark {R} seen : steady kept (mark_cancelled (H:=H) (R:=R) seen).
Proof. unfold mark_cancelled. destruct seen; [by apply kept_modify|apply steady_ret; apply _]. Qed.

#[local] Hint Resolve kept_mark kept_modify pi_connect_fails pi_write_fails pi_read_fails : wrio.
#[local] Hint Extern 1 (steady kept (transfer _)) => apply kept_transfer; eauto with wrio : wrio.

Lemma kept_write {R} data : steady kept (io_write (R:=R) data).
Proof. unfold io_write. steady. Qed.
Lemma kept_connect {R} : steady kept (io_connect (R:=R)).
Proof. unfold io_connect. steady. Qed.
Lemma kept_read {R} delimiter limit : steady kept (io_read_until (R:=R) delimiter limit).
Proof. unfold io_read_until. steady. Qed.

#[local] Hint Resolve kept_write kept_connect kept_read : wrio.

Lemma kept_ready : steady kept ensure_ready.
Proof. unfold ensure_ready, checked. steady. Qed.

Lemma kept_body resource q : steady kept (body_of resource q).
Proof.
  assert (steady kept (select_address resource)) as Hs by (unfold select_address, write_command; steady).
  destruct q; cbn [body_of]; unfold read_body, write_body, clear_body, trigger_body, poll_body,
    checked_reply, as_reply, write_command, select_send_end, write_command, checked_reply; steady.
Qed.

Lemma invalidate_synced c : synced (invalidate c).
Proof. done. Qed.

Lemma release_io owner c : pc_io (release owner c) = pc_io c.
Proof. unfold release. by case_match. Qed.

Lemma release_gate owner c : synced c -> config_ok c -> gate_ok (release owner c).
Proof. unfold release. intros Hs Hc. case_match; by split. Qed.

(** What a transaction promises. *)
Definition transaction_ok (l : list bus_event) (r : reply) w : Prop :=
  gate_ok w.1 /\ fails_only w.2 /\
  (VI_SUCCESS <= rp_status r -> exists es ad, bus (sent (pc_io w.1)) = Some (es ++ l, ad)).

Lemma transact_end owner l r w :
  config_ok w.1 -> fails_only w.2 -> (VI_SUCCESS <= rp_status r -> exists es, told (es ++ l) w.1) ->
  holds (required <- get reconnect_required_ ;;
    (when (rp_status r <? VI_SUCCESS) || required do modify invalidate) ;;
    done <- operation_is completed ;;
    result <- operation_is op_result ;;
    modify (release owner) ;;
    io_ret (R:=reply) (if (done : bool) then mkReply result (rp_value r) (rp_data r) else r)) w (fun o =>
    match o with Next r w' | Return r w' => transaction_ok l r w' end).
Proof.
  intros Hc Hf Ht. apply holds_bind, holds_gets, holds_bind.
  set (Q := fun (o : outcome (PrologixController D * Operation H) reply unit) => match o with
    | Next _ w' => config_ok w'.1 /\ w'.2 = w.2 /\ synced w'.1 /\ pc_io w'.1 = pc_io w.1 \/
        config_ok w'.1 /\ w'.2 = w.2 /\ synced w'.1 /\ sent (pc_io w'.1) = sent (pc_io w.1) | Return _ _ => False end).
  assert (holds (when (rp_status r <? VI_SUCCESS) || reconnect_required_ w.1 do modify invalidate) w Q) as HQ.
  { destruct (_ || _) eqn:Hbad.
    - apply holds_modify. right. cbn. split; [done|]. split; [done|]. split; [done|]. apply pw_close.
    - apply holds_ret. left. split; [done|]. split; [done|]. split; [|done].
      apply orb_false_iff in Hbad as [Hst%Z.ltb_ge _]. destruct (Ht Hst) as [es Ht']. by exists (es ++ l). }
  eapply holds_mono; [exact HQ|]. intros [[] w1|]; [|done]. intros Hw1.
  apply holds_bind, holds_gets, holds_bind, holds_gets, holds_bind, holds_modify, holds_ret.
  assert (config_ok w1.1 /\ w1.2 = w.2 /\ synced w1.1 /\ sent (pc_io w1.1) = sent (pc_io w.1)) as (Hc1 & Hop & Hs1 & Hio).
  { destruct Hw1 as [(? & ? & ? & ->)|]; done. }
  split; [by apply release_gate|]. split; [cbn; by rewrite Hop|]. cbn [fst]. rewrite release_io, Hio.
  destruct (completed w1.2) eqn:Hdone; cbn [rp_status].
  - intros Hst. exfalso. rewrite Hop in Hdone, Hst. apply Hf in Hdone. lia.
  - intros Hst. destruct (Ht Hst) as (es & _ & Hb). eauto.
Qed.

Lemma transact_spec owner l body w :
  gate_ok w.1 -> fails_only w.2 -> addressed l body -> steady kept body ->
  holds (transact turns elsewhere owner body) w (fun o =>
    match o with Next r w' | Return r w' => transaction_ok l r w' end).
Proof.
  intros Hg Hf Hbody Hkept. unfold transact. apply holds_bind. eapply holds_mono; [by apply acquire_spec|].
  intros [[] w1|]; [| |done].
  2:{ intros (Hg1 & Hf1 & Hc1). apply holds_return_result. split; [done|]. split; [done|]. cbn. intros Hst.
      apply Hf1 in Hc1. lia. }
  intros (Hs1 & Hc1 & Hf1). apply holds_bind, holds_gets, holds_bind.
  set (Q := fun (o : outcome (PrologixController D * Operation H) reply unit) => match o with
    | Next _ w' => synced w'.1 /\ config_ok w'.1 /\ fails_only w'.2 | Return _ _ => False end).
  assert (holds (when reconnect_required_ w1.1 do modify invalidate) w1 Q) as HQ.
  { destruct (reconnect_required_ w1.1); [by apply holds_modify|by apply holds_ret]. }
  eapply holds_mono; [exact HQ|]. intros [[] w2|]; [|done]. intros (Hs2 & Hc2 & Hf2).
  apply holds_bind, holds_call. eapply holds_mono.
  { apply holds_and; [by apply line_ready_spec|]. apply (holds_steady kept), kept_ready. }
  assert (forall status w3, (VI_SUCCESS <= status -> exists es, told es w3.1) /\ kept w2 w3 ->
    holds (r <- (if VI_SUCCESS <=? status then io_call body else io_ret (status_only status)) ;;
      required <- get reconnect_required_ ;;
      (when (rp_status r <? VI_SUCCESS) || required do modify invalidate) ;;
      done <- operation_is completed ;;
      result <- operation_is op_result ;;
      modify (release owner) ;;
      io_ret (if (done : bool) then mkReply result (rp_value r) (rp_data r) else r)) w3
      (fun o => match o with Next r w' | Return r w' => transaction_ok l r w' end)) as Hrest.
  { intros status w3 (Ht & Hk1 & Hk2). assert (config_ok w3.1) as Hc3 by (unfold config_ok; by rewrite Hk1).
    specialize (Hk2 Hf2). apply holds_bind. destruct (Z.leb_spec VI_SUCCESS status) as [Hst|Hst].
    - destruct (Ht Hst) as [es Hes]. apply holds_call. eapply holds_mono.
      { apply holds_and; [by apply (Hbody es)|]. by apply (holds_steady kept). }
      intros [r w4|r w4] (Ht4 & Hk3 & Hk4); (cbn in Hk3; apply transact_end;
        [unfold config_ok; by rewrite Hk3|by apply Hk4|by intros Hr; exists es; apply Ht4]).
    - apply holds_ret. apply transact_end; [done|done|]. cbn. lia. }
  intros [status w3|status w3]; apply Hrest.
Qed.

(** C29: when a transaction of a Prologix controller succeeds, the last thing
    the adapter has done on the bus is what was asked for, with the address of
    the session's own instrument (and with its END setting), however many
    sessions share the adapter and whatever happened to it before; whether it
    succeeds or not, the controller passes the gate on knowing the adapter's
    settings, or with the line closed. *)
Theorem prologix_requests_reach_address owner resource q w o :
  0 <= rd_gpib_primary_address resource -> gate_ok w.1 -> fails_only w.2 ->
  transact turns elsewhere owner (body_of resource q) w = Some o ->
  match o with
  | Next r w' | Return r w' =>
      transaction_ok [event_of q (ascii_bytes (address_suffix resource))] r w'
  end.
Proof.
  intros Ha Hg Hf Ho. apply (transact_spec owner _ (body_of resource q) w Hg Hf); [|apply kept_body|exact Ho].
  by apply body_addressed.
Qed.

(** Opening makes the line ready and does nothing on the bus. *)
Lemma open_spec owner w :
  gate_ok w.1 -> fails_only w.2 ->
  holds (controller_open turns elsewhere owner) w (fun o =>
    match o with Next r w' | Return r w' => transaction_ok [] r w' end).
Proof.
  intros Hg Hf. apply transact_spec; [done|done| |apply steady_ret; apply _].
  intros es w1 Ht. apply holds_ret. intros _. by rewrite app_nil_r.
Qed.

End addressing.

