(* ===== verification/PrologixScript.v ===== *)
(** * A scripted line

    A line whose adapter answers from a script, for concrete runs: every write
    succeeds, a read gives the next answer, or times out when there is none. *)

From S2P Require Import Prelude Visa CText Operation Bytes BackendSession Stream Io.
From S2P Require Import ResourceParser GpibSession Prologix PrologixBus.

Record script := mkScript {
  sc_answers : list (list Z);
  sc_sent : list Z;
  sc_clock : Z }.

Abbreviation Handler := unit.

#[export] Instance script_line : PrologixIo script Handler := {|
  pi_connect op d := Some (VI_SUCCESS, false, op, mkScript (sc_answers d) [] (sc_clock d));
  pi_write data op d := Some (VI_SUCCESS, false, op, mkScript (sc_answers d) (sc_sent d ++ data) (sc_clock d));
  pi_read_until _ _ _ op d :=
    match sc_answers d with
    | answer :: answers => Some (VI_SUCCESS, (answer, false), op, mkScript answers (sc_sent d) (sc_clock d))
    | [] => let '(_, _, op') := request_timeout op in Some (op_result op', ([], false), op', d)
    end;
  pi_cancel d := d;
  pi_close d := d;
  pi_now d := (sc_clock d, mkScript (sc_answers d) (sc_sent d) (sc_clock d + 1));
  pi_run_handlers _ d := d |}.

#[export] Instance script_laws : PrologixIoLaws script Handler.
Proof.
  assert (forall delimiter limit idle op d r op' d',
    pi_read_until delimiter limit idle op d = Some (r, op', d') -> op' = op \/ op' = (request_timeout op).2) as Hr.
  { intros delimiter limit idle op d r op' d'. cbn. destruct (sc_answers d); [|intros [= _ <- _]; by left].
    destruct (request_timeout op) as [[won hs] op1]. intros [= _ <- _]. by right. }
  split.
  - by intros op d r op' d' [= _ <- _].
  - by intros data op d r op' d' [= _ <- _].
  - intros delimiter limit idle op d r op' d' [->| ->]%Hr; [reflexivity|apply later_request_timeout].
  - by intros op d r op' d' [= _ <- _].
  - by intros data op d r op' d' [= _ <- _].
  - intros delimiter limit idle op d r op' d' [->| ->]%Hr; [done|apply fails_only_request_timeout].
Qed.

#[export] Instance script_wire : PrologixWire script Handler sc_sent.
Proof.
  split; try done.
  - by intros op d status seen op' d' [= _ _ _ <-] _.
  - by intros data op d status seen op' d' [= _ _ _ <-] _.
  - intros delimiter limit idle op d r op' d'. cbn. destruct (sc_answers d); [|by intros [= _ _ <-]].
    destruct (request_timeout op) as [[won hs] op1]. by intros [= _ _ <-].
Qed.

(** Another session that holds the gate until the first wake-up. *)
Definition leaves_gate (n : nat) (w : PrologixController script * Operation Handler)
  : PrologixController script * Operation Handler := (pc_with_active 0 w.1, w.2).

Definition gate_busy (w : PrologixController script * Operation Handler) : nat :=
  if active_owner_ w.1 =? 0 then 0%nat else 1%nat.

Lemma leaves_patient : Patient 2 leaves_gate gate_busy.
Proof.
  split.
  - by eexists.
  - by eexists.
  - intros delimiter limit idle op d _. cbn. destruct (sc_answers d); [|by eexists].
    destruct (request_timeout op) as [[? ?] ?]. by eexists.
  - intros n w. reflexivity.
  - intros n [c op] Ha _. unfold gate_busy, leaves_gate. cbn in *. rewrite (proj2 (Z.eqb_neq _ _) Ha). lia.
  - intros w. unfold gate_busy, leaves_gate. cbn. lia.
  - done.
Qed.

(** Nobody else uses the adapter. *)
Definition alone (n : nat) (w : PrologixController script * Operation Handler) := w.

#[export] Instance alone_courteous : Courteous sc_sent alone.
Proof. by split; unfold alone. Qed.

(** ** Witnesses *)

Definition answering (answers : list (list Z)) : PrologixController script :=
  make_controller (mkPrologixConfiguration prologix_tcp (lit "10.0.0.9") 1234 0 500 4096)
    (mkScript answers [] 0).

Definition instrument : ResourceDescriptor :=
  default (descriptor gpib_instr VI_INTF_GPIB 0 INSTR [] [] 0 [] tp_none) (parse_resource (lit "GPIB0::5::3")).

Definition version : list Z := ascii_bytes (lit "Prologix GPIB-ETHERNET Controller").

Definition fresh_operation : Operation Handler := new_operation 1000 0.

Lemma prologix_requests_reach_address_witness :
  exists r w', transact 2 alone 1 (body_of instrument (write_data [43; 10; 65] true)) (answering [version], fresh_operation)
      = Some (Next r w') /\ rp_status r = VI_SUCCESS /\
    exists es ad, bus (sc_sent (pc_io w'.1)) =
      Some (es ++ [bus_data (Some (ascii_bytes (lit "5 99"))) (Some true) [43; 10; 65]], ad).
Proof.
  destruct (transact 2 alone 1 (body_of instrument (write_data [43; 10; 65] true)) (answering [version], fresh_operation))
    as [o|] eqn:Ho; [|vm_compute in Ho; discriminate].
  pose proof (prologix_requests_reach_address sc_sent 2 alone 1 instrument (write_data [43; 10; 65] true)
    (answering [version], fresh_operation) o ltac:(vm_compute; discriminate) ltac:(by repeat split) ltac:(done) Ho) as Hok.
  destruct o as [r w'|r w']; [|vm_compute in Ho; discriminate].
  exists r, w'. split; [done|].
  assert (rp_status r = VI_SUCCESS) as Hst by (vm_compute in Ho; injection Ho as <- <-; reflexivity).
  split; [done|]. destruct Hok as (_ & _ & Hb). apply Hb. by rewrite Hst.
Defined.

Lemma prologix_read_contract_witness :
  let t := make_transport (answering [version; [1; 2; 3]]) instrument 1 in
  exists status data e op' t', prologix_read 2 alone fresh_operation 2 t = Some (status, (data, e), op', t') /\
    status = VI_SUCCESS /\ data = [1; 2] /\ e = false /\ pt_response t' = [3] /\
    Z.of_nat (length data) <= 2.
Proof.
  intros t. destruct (prologix_read 2 alone fresh_operation 2 t) as [[[[status [data e]] op'] t']|] eqn:Hr;
    [|vm_compute in Hr; discriminate].
  exists status, data, e, op', t'. split; [done|].
  destruct (prologix_read_contract 2 alone fresh_operation 2 t status data e op' t' ltac:(lia) Hr) as [_ Hok].
  assert (status = VI_SUCCESS /\ data = [1; 2] /\ e = false /\ pt_response t' = [3]) as (-> & -> & -> & Ht).
  { vm_compute in Hr. injection Hr as <- <- <- <- <-. done. }
  do 4 (split; [done|]). by apply Hok.
Defined.

Lemma prologix_requests_return_witness :
  exists r c' op', run_io (transact 2 leaves_gate 1 (body_of instrument device_clear)) fresh_operation
      (pc_with_active 7 (answering [version])) =
    Some (mkCall (rp_status r) (rp_value r) (rp_data r) c' op').
Proof.
  apply (prologix_requests_return 2 leaves_gate gate_busy leaves_patient 1 instrument device_clear). by eexists.
Defined.
