(* ===== verification/UsbTransport.v ===== *)
(** * The USB transport interface: [backends/usb/usb_transport.h]

    What the USB sessions call.  Implementations own endpoints and interface
    claims; the clock is part of their world. *)

From S2P Require Import Prelude Visa Operation Bytes Io Timed.

Record UsbControlRequest := mkUsbControlRequest {
  uc_request_type : Z;
  uc_request : Z;
  uc_value : Z;
  uc_index : Z }.

Record UsbInterfaceInfo := mkUsbInterfaceInfo {
  ui_interface_number : Z;
  ui_bulk_out_endpoint : Z;
  ui_bulk_in_endpoint : Z;
  ui_interrupt_in_endpoint : Z;
  ui_bulk_in_max_packet_size : Z;
  ui_usb488 : bool;
  ui_alternate_setting : Z;
  ui_interrupt_out_endpoint : Z }.

(** [UsbInterfaceInfo{}], the [interface_info] of the base class. *)
Definition no_interface : UsbInterfaceInfo := mkUsbInterfaceInfo 0 0 0 0 0 false 0 0.

Definition usb_call (T H X : Type) : Type := transport_call T H X.

Class UsbTransport (T H : Type) := {
  ut_interface_info : T -> UsbInterfaceInfo;
  ut_bulk_out : Operation H -> list Z -> T -> usb_call T H Z;
  ut_bulk_in : Operation H -> Z -> T -> usb_call T H (list Z);
  ut_control_in : Operation H -> UsbControlRequest -> Z -> T -> usb_call T H (list Z);
  ut_control_out : Operation H -> UsbControlRequest -> list Z -> T -> usb_call T H Z;
  ut_interrupt_in : Operation H -> Z -> T -> usb_call T H (list Z);
  ut_interrupt_out : Operation H -> list Z -> T -> usb_call T H Z;
  ut_clear_halt : Operation H -> Z -> T -> usb_call T H unit;
  ut_cancel : T -> T;
  ut_close : T -> T;
  (** [Clock::now()] in milliseconds *)
  ut_now : T -> Z * T;
  (** The cancellation handlers an operation runs when it times out. *)
  ut_run_handlers : list H -> T -> T }.

(** The defaults of the base class. *)
Definition usb_unsupported {T H X} (x : X) (op : Operation H) (t : T) : usb_call T H X :=
  Some (VI_ERROR_NSUP_OPER, x, op, t).

(** No call changes the result of an operation that has completed. *)
Class UsbTransportLaws (T H : Type) `{UsbTransport T H} : Prop := {
  ut_bulk_out_later op d t r op' t' : ut_bulk_out op d t = Some (r, op', t') -> later op op';
  ut_bulk_in_later op n t r op' t' : ut_bulk_in op n t = Some (r, op', t') -> later op op';
  ut_control_in_later op q n t r op' t' : ut_control_in op q n t = Some (r, op', t') -> later op op';
  ut_control_out_later op q d t r op' t' : ut_control_out op q d t = Some (r, op', t') -> later op op';
  ut_interrupt_in_later op n t r op' t' : ut_interrupt_in op n t = Some (r, op', t') -> later op op';
  ut_interrupt_out_later op d t r op' t' : ut_interrupt_out op d t = Some (r, op', t') -> later op op';
  ut_clear_halt_later op e t r op' t' : ut_clear_halt op e t = Some (r, op', t') -> later op op' }.

(** *** Time

    [remaining t deadline] bounds the transfers that can still succeed before
    the clock reaches [deadline]: one that succeeds uses one up, and the clock
    has reached the deadline when none is left.  Every call returns, and what
    the device sends is bytes. *)

Class UsbTransportTimed (T H : Type) `{UsbTransport T H} (remaining : T -> Z -> nat) : Prop := {
  ut_bulk_out_returns op d t : exists status n op' t',
    ut_bulk_out op d t = Some (status, n, op', t') /\ passes remaining status t t';
  ut_bulk_in_returns op n t : exists status d op' t',
    ut_bulk_in op n t = Some (status, d, op', t') /\ are_bytes d /\ passes remaining status t t';
  ut_control_in_returns op q n t : exists status d op' t',
    ut_control_in op q n t = Some (status, d, op', t') /\ are_bytes d /\ passes remaining status t t';
  ut_interrupt_in_returns op n t : exists status d op' t',
    ut_interrupt_in op n t = Some (status, d, op', t') /\ are_bytes d /\ passes remaining status t t';
  ut_clear_halt_returns op e t : exists status op' t',
    ut_clear_halt op e t = Some (status, tt, op', t') /\ passes remaining status t t';
  ut_now_passes t deadline :
    (remaining (ut_now t).2 deadline <= remaining t deadline)%nat /\
    (remaining t deadline = 0%nat -> deadline <= (ut_now t).1);
  ut_handlers_pass handlers t deadline : (remaining (ut_run_handlers handlers t) deadline <= remaining t deadline)%nat;
  ut_close_passes t deadline : (remaining (ut_close t) deadline <= remaining t deadline)%nat }.

(** ** Calls from a session *)

Section calls.
  Context {S T H : Type} `{OwnsTransport S T}.

Definition clock_now `{UsbTransport T H} {R} : io (S * Operation H) R Z := fun w =>
  let '(now, t') := ut_now (own_transport w.1) in Some (Next now (own_with_transport t' w.1, w.2)).

(** [operation.request_timeout()], running the handler it takes. *)
Definition request_timeout_io `{UsbTransport T H} {R} : io (S * Operation H) R unit := fun w =>
  let '(_, handlers, op') := request_timeout w.2 in
  Some (Next tt (own_with_transport (ut_run_handlers handlers (own_transport w.1)) w.1, op')).

Lemma clock_now_later `{UsbTransport T H} {R} : steady ops_later (clock_now (R:=R)).
Proof. intros w o. unfold clock_now. destruct (ut_now _). intros [= <-]. unfold ops_later. reflexivity. Qed.

Lemma request_timeout_later `{UsbTransport T H} {R} : steady ops_later (request_timeout_io (R:=R)).
Proof.
  intros w o. unfold request_timeout_io. pose proof (later_request_timeout w.2) as Hl.
  destruct (request_timeout w.2) as [[won hs] op']. intros [= <-]. exact Hl.
Qed.

(** Calls change the session only through its transport. *)
Section state.
  Context (Rel : S -> S -> Prop).
  Hypothesis state_transport : forall t s, Rel s (own_with_transport t s).

Lemma state_clock_now `{UsbTransport T H} {R} : steady (on_state Rel) (clock_now (R:=R)).
Proof. intros w o. unfold clock_now. destruct (ut_now _). intros [= <-]. apply state_transport. Qed.

Lemma state_request_timeout `{UsbTransport T H} {R} :
  steady (on_state Rel) (request_timeout_io (R:=R)).
Proof.
  intros w o. unfold request_timeout_io. destruct (request_timeout w.2) as [[won hs] op'].
  intros [= <-]. apply state_transport.
Qed.

End state.

End calls.

#[export] Hint Resolve clock_now_later request_timeout_later : wrio.

(** Shows that a transfer only moves its operation forward. *)
Ltac transfers :=
  steady; try (apply transfer_later; intros;
    first [by eapply ut_bulk_out_later|by eapply ut_bulk_in_later|by eapply ut_control_in_later
          |by eapply ut_control_out_later|by eapply ut_interrupt_in_later
          |by eapply ut_interrupt_out_later|by eapply ut_clear_halt_later]).

(** ** A transport that plays a script

    For the witnesses: it answers input transfers from lists of responses, takes
    all output, and its clock advances by one with every call. *)

Record usb_script := mkUsbScript {
  us_interface : UsbInterfaceInfo;
  us_bulk : list (list Z);
  us_control : list (list Z);
  us_seen : list (Z * list Z);
  us_clock : Z }.

(** Answers with the first of [responses], or fails with [status]. *)
Definition script_in {H} (responses : list (list Z)) (status : Z) (rest : list (list Z) -> usb_script)
    (seen : list Z -> usb_script -> usb_script) (op : Operation H) : usb_call usb_script H (list Z) :=
  match responses with
  | [] => Some (status, [], op, rest [])
  | d :: others => let d := u8 <$> d in Some (VI_SUCCESS, d, op, seen d (rest others))
  end.

Definition script_bulk_in {H} (op : Operation H) (n : Z) (t : usb_script) : usb_call usb_script H (list Z) :=
  script_in (us_bulk t) VI_ERROR_TMO
    (fun others => mkUsbScript (us_interface t) others (us_control t) (us_seen t) (us_clock t + 1))
    (fun d t => mkUsbScript (us_interface t) (us_bulk t) (us_control t) (us_seen t ++ [(n, d)]) (us_clock t))
    op.

Definition script_control_in {H} (op : Operation H) (q : UsbControlRequest) (n : Z) (t : usb_script)
  : usb_call usb_script H (list Z) :=
  script_in (us_control t) VI_ERROR_IO
    (fun others => mkUsbScript (us_interface t) (us_bulk t) others (us_seen t) (us_clock t + 1))
    (fun _ t => t) op.

Definition script_tick (t : usb_script) : usb_script :=
  mkUsbScript (us_interface t) (us_bulk t) (us_control t) (us_seen t) (us_clock t + 1).

Definition script_usb {H} : UsbTransport usb_script H := {|
  ut_interface_info := us_interface;
  ut_bulk_out op d t := Some (VI_SUCCESS, Z.of_nat (length d), op, script_tick t);
  ut_bulk_in := script_bulk_in;
  ut_control_in := script_control_in;
  ut_control_out op q d := usb_unsupported 0 op;
  ut_interrupt_in op n := usb_unsupported [] op;
  ut_interrupt_out op d := usb_unsupported 0 op;
  ut_clear_halt op e t := Some (VI_SUCCESS, tt, op, script_tick t);
  ut_cancel t := t;
  ut_close t := t;
  ut_now t := (us_clock t, script_tick t);
  ut_run_handlers _ t := t |}.

Lemma script_bulk_spec {H} (op : Operation H) n t status d op' t' :
  script_bulk_in op n t = Some (status, d, op', t') ->
  op' = op /\ are_bytes d /\ us_clock t' = us_clock t + 1 /\
  us_seen t' = us_seen t ++ (if status <? VI_SUCCESS then [] else [(n, d)]).
Proof.
  unfold script_bulk_in, script_in. destruct (us_bulk t) as [|d' rest]; intros [= <- <- <- <-].
  - split; [done|]. split; [apply Forall_nil_2|]. split; [done|]. by rewrite app_nil_r.
  - split; [done|]. split; [|done]. apply Forall_fmap, Forall_true. intros b. apply byte_u8.
Qed.

Lemma script_control_spec {H} (op : Operation H) q n t status d op' t' :
  script_control_in op q n t = Some (status, d, op', t') ->
  op' = op /\ are_bytes d /\ us_clock t' = us_clock t + 1.
Proof.
  unfold script_control_in, script_in. destruct (us_control t) as [|d' rest]; intros [= <- <- <- <-].
  - split; [done|]. split; [apply Forall_nil_2|done].
  - split; [done|]. split; [|done]. apply Forall_fmap, Forall_true. intros b. apply byte_u8.
Qed.

#[export] Instance script_laws {H} : @UsbTransportLaws usb_script H script_usb.
Proof.
  split; cbn; unfold usb_unsupported; 
    try (intros; match goal with E : Some _ = Some _ |- _ => injection E as <- <- <- end; reflexivity).
  - intros op n t [status d] op' t' E. by apply script_bulk_spec in E as [-> _].
  - intros op q n t [status d] op' t' E. by apply (script_control_spec op q n t) in E as [-> _].
Qed.

(** The script's clock reaches a deadline in as many calls as it has
    milliseconds left. *)
Definition script_remaining (t : usb_script) (deadline : Z) : nat := Z.to_nat (deadline - us_clock t).

#[export] Instance script_timed {H} : @UsbTransportTimed usb_script H script_usb script_remaining.
Proof.
  assert (forall status t t', us_clock t' = us_clock t \/ us_clock t' = us_clock t + 1 ->
    (VI_SUCCESS <= status -> us_clock t' = us_clock t + 1) -> passes script_remaining status t t') as Hpass.
  { intros status t t' Hc Hs deadline. unfold script_remaining. destruct (Z.leb_spec VI_SUCCESS status); lia. }
  split.
  - intros op d t. do 4 eexists. split; [reflexivity|]. apply Hpass; [by right|done].
  - intros op n t. destruct (ut_bulk_in op n t) as [[[[status d] op'] t']|] eqn:E;
      [|cbn in E; unfold script_bulk_in, script_in in E; by destruct (us_bulk t)].
    pose proof (script_bulk_spec op n t status d op' t' E) as (_ & Hd & Hc & _).
    do 4 eexists. split; [reflexivity|]. split; [done|]. apply Hpass; [by right|done].
  - intros op q n t. destruct (ut_control_in op q n t) as [[[[status d] op'] t']|] eqn:E;
      [|cbn in E; unfold script_control_in, script_in in E; by destruct (us_control t)].
    pose proof (script_control_spec op q n t status d op' t' E) as (_ & Hd & Hc).
    do 4 eexists. split; [reflexivity|]. split; [done|]. apply Hpass; [by right|done].
  - intros op n t. do 4 eexists. split; [reflexivity|]. split; [apply Forall_nil_2|]. by apply Hpass; [left|].
  - intros op e t. do 3 eexists. split; [reflexivity|]. apply Hpass; [by right|done].
  - intros t deadline. unfold script_remaining. cbn. lia.
  - done.
  - done.
Qed.
