(* ===== verification/UsbtmcSession.v ===== *)
(** * USBTMC sessions: [backends/usb/usbtmc_session.{h,cpp}]

    Messages over the bulk endpoints, the USB488 control requests, and the
    recovery of a transfer that was cancelled.  The loops that poll the device
    are given a number of [turns]. *)

From S2P Require Import Prelude Visa Operation Bytes BackendSession Stream Io Timed UsbTransport UsbtmcProtocol.

(** ** Constants and requests *)

Definition kClassInterfaceIn : Z := 0xa1.
Definition kClassEndpointIn : Z := 0xa2.
Definition kInitiateAbortBulkOut : Z := 1.
Definition kCheckAbortBulkOut : Z := 2.
Definition kInitiateAbortBulkIn : Z := 3.
Definition kCheckAbortBulkIn : Z := 4.
Definition kInitiateClear : Z := 5.
Definition kCheckClear : Z := 6.
Definition kGetCapabilities : Z := 7.
Definition kReadStatusByte : Z := 128.
Definition kRecoveryTimeout : Z := 500.

Definition interface_request (request value : Z) (interface : UsbInterfaceInfo) : UsbControlRequest :=
  mkUsbControlRequest kClassInterfaceIn request value (ui_interface_number interface).

Definition endpoint_request (request value endpoint : Z) : UsbControlRequest :=
  mkUsbControlRequest kClassEndpointIn request value endpoint.

(** ** The session *)

Record UsbTmcBackendSession (T : Type) := mkUsbTmc {
  ut_transport : T;
  ut_interface : UsbInterfaceInfo;
  ut_read_ahead : list Z;
  ut_read_ahead_ends_message : bool;
  ut_capabilities_loaded : bool;
  ut_trigger_supported : bool;
  ut_usable : bool;
  ut_next_tag : Z;
  ut_next_status_tag : Z }.
Arguments mkUsbTmc {_} _ _ _ _ _ _ _ _ _.
Arguments ut_transport {_} _.
Arguments ut_interface {_} _.
Arguments ut_read_ahead {_} _.
Arguments ut_read_ahead_ends_message {_} _.
Arguments ut_capabilities_loaded {_} _.
Arguments ut_trigger_supported {_} _.
Arguments ut_usable {_} _.
Arguments ut_next_tag {_} _.
Arguments ut_next_status_tag {_} _.

Section setters.
  Context {T : Type}.
Abbreviation Session := (UsbTmcBackendSession T).

Definition tmc_with_transport (t : T) (s : Session) : Session :=
  mkUsbTmc t (ut_interface s) (ut_read_ahead s) (ut_read_ahead_ends_message s)
    (ut_capabilities_loaded s) (ut_trigger_supported s) (ut_usable s) (ut_next_tag s)
    (ut_next_status_tag s).

Definition tmc_with_ahead (data : list Z) (ends : bool) (s : Session) : Session :=
  mkUsbTmc (ut_transport s) (ut_interface s) data ends (ut_capabilities_loaded s)
    (ut_trigger_supported s) (ut_usable s) (ut_next_tag s) (ut_next_status_tag s).

Definition tmc_with_capabilities (trigger : bool) (s : Session) : Session :=
  mkUsbTmc (ut_transport s) (ut_interface s) (ut_read_ahead s) (ut_read_ahead_ends_message s) true
    trigger (ut_usable s) (ut_next_tag s) (ut_next_status_tag s).

Definition tmc_with_usable (usable : bool) (s : Session) : Session :=
  mkUsbTmc (ut_transport s) (ut_interface s) (ut_read_ahead s) (ut_read_ahead_ends_message s)
    (ut_capabilities_loaded s) (ut_trigger_supported s) usable (ut_next_tag s) (ut_next_status_tag s).

Definition tmc_with_tags (tag status_tag : Z) (s : Session) : Session :=
  mkUsbTmc (ut_transport s) (ut_interface s) (ut_read_ahead s) (ut_read_ahead_ends_message s)
    (ut_capabilities_loaded s) (ut_trigger_supported s) (ut_usable s) tag status_tag.

End setters.

#[export] Instance tmc_owns {T} : OwnsTransport (UsbTmcBackendSession T) T := {|
  own_transport := ut_transport;
  own_with_transport := tmc_with_transport;
  own_transport_with t s := eq_refl;
  own_with_own s := match s with mkUsbTmc _ _ _ _ _ _ _ _ _ => eq_refl end;
  own_with_with t t' s := eq_refl |}.

Section tmc.
  Context {T H : Type} `{UsbTransport T H}.
  (** How often each loop that polls the device may turn. *)
  Context (turns : nat).

Abbreviation Session := (UsbTmcBackendSession T).
Abbreviation IO R A := (io (Session * Operation H) R A).

Definition tmc_make (t : T) : Session :=
  mkUsbTmc t (ut_interface_info t) [] false false false true 1 2.

Definition operation_ready {R} : IO R bool :=
  done <- operation_is completed ;;
  if (done : bool) then io_ret false
  else
    deadline <- operation_is deadline_ ;;
    match deadline with
    | None => io_ret true
    | Some deadline =>
        now <- clock_now ;;
        if deadline <=? now then request_timeout_io ;; io_ret false else io_ret true
    end.

(** [while (operation_ready(operation)) body;] *)
Definition poll {R} (body : IO R unit) : IO R unit :=
  io_iter turns (fun _ : unit =>
    ready <- operation_ready ;;
    if (ready : bool) then body ;; io_ret (inl tt) else io_ret (inr tt)) tt.

(** ... and [return operation.result();] *)
Definition while_ready (body : IO Z unit) : IO Z Z := poll body ;; return_result id.

(** The output of a transfer, or a [return] with its status. *)
Definition received {R X} (f : Z -> R) (call : Operation H -> T -> usb_call T H X) : IO R X :=
  r <- transfer call ;;
  let '(status, response) := r in
  if status <? VI_SUCCESS then io_return (f status) else io_ret response.

Definition next_tag {R} : IO R Z :=
  tag <- get ut_next_tag ;;
  let next := u8 (tag + 1) in
  modify (fun s => tmc_with_tags (if next =? 0 then 1 else next) (ut_next_status_tag s) s) ;;
  io_ret tag.

Definition next_status_tag {R} : IO R Z :=
  tag <- get ut_next_status_tag ;;
  let next := u8 (tag + 1) in
  modify (fun s => tmc_with_tags (ut_next_tag s) (if 127 <? next then 2 else next) s) ;;
  io_ret tag.

Definition tmc_restore_read_ahead (data : list Z) (s : Session) : Session :=
  tmc_with_ahead (data ++ ut_read_ahead s) (ut_read_ahead_ends_message s) s.

Definition tmc_clear_ahead (s : Session) : Session := tmc_with_ahead [] false s.

Definition valid_interface (s : Session) : bool :=
  let i := ut_interface s in
  negb (ui_bulk_out_endpoint i =? 0) && (Z.land (ui_bulk_out_endpoint i) 0x80 =? 0)
  && negb (Z.land (ui_bulk_in_endpoint i) 0x80 =? 0) && negb (ui_bulk_in_max_packet_size i =? 0)
  && ((ui_interrupt_in_endpoint i =? 0) || negb (Z.land (ui_interrupt_in_endpoint i) 0x80 =? 0)).

Definition mark_unusable (s : Session) : Session :=
  tmc_with_transport (ut_close (ut_transport s)) (tmc_with_usable false s).

(** ** Control requests *)

Definition ensure_capabilities : IO Z Z :=
  loaded <- get ut_capabilities_loaded ;;
  if (loaded : bool) then io_return VI_SUCCESS
  else
    valid <- get valid_interface ;;
    interface <- get ut_interface ;;
    if negb valid || negb (ui_usb488 interface) then io_return VI_ERROR_NSUP_OPER
    else
      response <- received id (fun op =>
        ut_control_in op (interface_request kGetCapabilities 0 interface) 24) ;;
      d <- decoded (decode_capabilities response true (mkCapabilities 0 false false false false)) ;;
      let '(accepted, capabilities) := d in
      if negb accepted || negb (cap_status capabilities =? kStatusSuccess)
         || negb (cap_usb488 capabilities)
         || (cap_usb488_service_request capabilities && (ui_interrupt_in_endpoint interface =? 0))
      then io_return VI_ERROR_IO
      else
        modify (tmc_with_capabilities (cap_usb488_trigger capabilities)) ;;
        io_ret VI_SUCCESS.

Definition drain_bulk_in : IO Z Z :=
  valid <- get valid_interface ;;
  interface <- get ut_interface ;;
  if negb valid then io_return VI_ERROR_NSUP_OPER
  else
    let size := ui_bulk_in_max_packet_size interface in
    while_ready (
      discarded <- received id (fun op => ut_bulk_in op size) ;;
      if size <? Z.of_nat (length discarded) then io_return VI_ERROR_IO
      else if Z.of_nat (length discarded) <? size then io_return VI_SUCCESS
      else io_ret tt).

(** The drain inside the loops of the other requests. *)
Definition drain_if (fifo : bool) : IO Z unit :=
  if fifo then
    status <- io_call drain_bulk_in ;;
    if status <? VI_SUCCESS then io_return status else io_ret tt
  else io_ret tt.

(** [clear_halt] of the bulk-out endpoint, as the value of a function. *)
Definition clear_bulk_out : IO Z unit :=
  interface <- get ut_interface ;;
  r <- transfer (fun op => ut_clear_halt op (ui_bulk_out_endpoint interface)) ;;
  io_return r.1.

Definition protocol_clear : IO Z Z :=
  valid <- get valid_interface ;;
  interface <- get ut_interface ;;
  if negb valid then io_return VI_ERROR_NSUP_OPER
  else
    response <- received id (fun op =>
      ut_control_in op (interface_request kInitiateClear 0 interface) 1) ;;
    d <- decoded (decode_initiate_clear response 0) ;;
    if negb d.1 || negb (d.2 =? kStatusSuccess) then io_return VI_ERROR_IO
    else
      while_ready (
        response <- received id (fun op =>
          ut_control_in op (interface_request kCheckClear 0 interface) 2) ;;
        d <- decoded (decode_check_clear response (split_of_status 0)) ;;
        let '(accepted, clear_status) := d in
        if negb accepted then io_return VI_ERROR_IO
        else if ss_status clear_status =? kStatusSuccess then clear_bulk_out
        else if negb (ss_status clear_status =? kStatusPending) then io_return VI_ERROR_IO
        else drain_if (ss_bulk_in_fifo_bytes clear_status)).

(** The request that starts an abort, common to both directions. *)
Definition initiate_abort (request tag endpoint : Z) : IO Z unit :=
  response <- received id (fun op => ut_control_in op (endpoint_request request tag endpoint) 2) ;;
  d <- decoded (decode_initiate_abort response tag 0) ;;
  if negb d.1 || negb (d.2 =? kStatusSuccess) then io_return VI_ERROR_IO else io_ret tt.

Definition abort_bulk_out (tag : Z) : IO Z Z :=
  valid <- get valid_interface ;;
  interface <- get ut_interface ;;
  if negb valid then io_return VI_ERROR_NSUP_OPER
  else
    initiate_abort kInitiateAbortBulkOut tag (ui_bulk_out_endpoint interface) ;;
    while_ready (
      response <- received id (fun op =>
        ut_control_in op (endpoint_request kCheckAbortBulkOut 0 (ui_bulk_out_endpoint interface)) 8) ;;
      d <- decoded (decode_check_abort_bulk_out response (split_of_status 0)) ;;
      let '(accepted, abort_status) := d in
      if negb accepted then io_return VI_ERROR_IO
      else if ss_status abort_status =? kStatusSuccess then clear_bulk_out
      else if negb (ss_status abort_status =? kStatusPending) then io_return VI_ERROR_IO
      else io_ret tt).

Definition abort_bulk_in (tag : Z) : IO Z Z :=
  valid <- get valid_interface ;;
  interface <- get ut_interface ;;
  if negb valid then io_return VI_ERROR_NSUP_OPER
  else
    initiate_abort kInitiateAbortBulkIn tag (ui_bulk_in_endpoint interface) ;;
    drain_if true ;;
    while_ready (
      response <- received id (fun op =>
        ut_control_in op (endpoint_request kCheckAbortBulkIn 0 (ui_bulk_in_endpoint interface)) 8) ;;
      d <- decoded (decode_check_abort_bulk_in response (split_of_status 0)) ;;
      let '(accepted, abort_status) := d in
      if negb accepted then io_return VI_ERROR_IO
      else if ss_status abort_status =? kStatusSuccess then io_return VI_SUCCESS
      else if negb (ss_status abort_status =? kStatusPending) then io_return VI_ERROR_IO
      else drain_if (ss_bulk_in_fifo_bytes abort_status)).

(** A request under an [Operation] of its own. *)
Definition under_recovery {R} (m : IO Z Z) : IO R Z :=
  now <- clock_now ;; under (new_operation kRecoveryTimeout now) (io_call m).

Definition recover_cancelled_transfer {R} (bulk_in : bool) (tag : Z) : IO R bool :=
  abort_status <- under_recovery (if bulk_in then abort_bulk_in tag else abort_bulk_out tag) ;;
  if VI_SUCCESS <=? abort_status then modify tmc_clear_ahead ;; io_ret true
  else
    clear_status <- under_recovery protocol_clear ;;
    if VI_SUCCESS <=? clear_status then modify tmc_clear_ahead ;; io_ret true
    else modify mark_unusable ;; io_ret false.

(** ** Writing *)

(** [if (!operation.try_complete(status)) status = operation.result();] *)
Definition complete_or_result {R} (status : Z) : IO R Z :=
  won <- complete status ;;
  if (won : bool) then io_ret status else operation_is op_result.

Definition tmc_write_io (buffer : list Z) (options : WriteOptions) : IO reply reply :=
  let count := Z.of_nat (length buffer) in
  usable <- get ut_usable ;;
  valid <- get valid_interface ;;
  done <- operation_is completed ;;
  if count =? 0 then io_return (status_only VI_ERROR_INV_PARAMETER)
  else if negb usable then io_return (status_only VI_ERROR_CONN_LOST)
  else if negb valid then io_return (status_only VI_ERROR_NSUP_OPER)
  else if (done : bool) then return_result status_only
  else
    tag <- next_tag ;;
    match encode_dev_dep_msg_out tag buffer (wo_send_end options) with
    | None => io_return (status_only VI_ERROR_INV_SIZE)
    | Some frame =>
        r <- transfer (fun op => ut_bulk_out op frame) ;;
        let '(status, transferred) := r in
        let status := if (VI_SUCCESS <=? status) && negb (transferred =? Z.of_nat (length frame))
                      then VI_ERROR_IO else status in
        if cancelled status then
          status <- complete_or_result status ;;
          recover_cancelled_transfer false tag ;;
          io_return (status_only status)
        else
          (when status =? VI_ERROR_CONN_LOST do modify mark_unusable) ;;
          won <- complete status ;;
          if negb won then return_result status_only
          else io_ret (mkReply status (if VI_SUCCESS <=? status then count else 0) [])
    end.

(** ** Reading *)

(** The local variables [collected], [end_of_message] and [found_termchar]. *)
Record tmc_locals := mkTmcLocals {
  tl_collected : list Z;
  tl_end_of_message : bool;
  tl_found_termchar : bool }.

(** The loop of [consume]: the locals, the bytes to store behind the read-ahead. *)
Fixpoint consume_bytes (count : Z) (options : ReadOptions) (bytes : list Z) (l : tmc_locals)
    (stored : list Z) : tmc_locals * list Z :=
  match bytes with
  | [] => (l, stored)
  | byte :: bytes =>
      if (Z.of_nat (length (tl_collected l)) =? count) || tl_found_termchar l
      then consume_bytes count options bytes l (stored ++ [byte])
      else
        consume_bytes count options bytes
          (mkTmcLocals (tl_collected l ++ [byte]) (tl_end_of_message l)
             (tl_found_termchar l || is_termchar options byte)) stored
  end.

Definition tmc_consume {R} (count : Z) (options : ReadOptions) (bytes : list Z) (message_ends : bool)
    (l : tmc_locals) : IO R tmc_locals :=
  let '(l, stored) := consume_bytes count options bytes l [] in
  let stored_trailing := bool_decide (stored ≠ []) in
  modify (fun s => tmc_with_ahead (ut_read_ahead s ++ stored)
                     (if message_ends && stored_trailing then true
                      else ut_read_ahead_ends_message s) s) ;;
  io_ret (mkTmcLocals (tl_collected l)
            (if message_ends && negb stored_trailing then true else tl_end_of_message l)
            (tl_found_termchar l)).

(** The loop that reads from the read-ahead. *)
Fixpoint take_ahead (count : Z) (options : ReadOptions) (ahead : list Z) (ends : bool) (l : tmc_locals)
  : tmc_locals * list Z * bool :=
  match ahead with
  | [] => (l, [], ends)
  | byte :: ahead' =>
      if negb (Z.of_nat (length (tl_collected l)) <? count) || tl_found_termchar l
      then (l, ahead, ends)
      else
        let at_end := bool_decide (ahead' = []) && ends in
        take_ahead count options ahead' (if at_end then false else ends)
          (mkTmcLocals (tl_collected l ++ [byte])
             (if at_end then true else tl_end_of_message l)
             (tl_found_termchar l || is_termchar options byte))
  end.

Definition read_from_ahead {R} (count : Z) (options : ReadOptions) : IO R tmc_locals := fun w =>
  let '(l, ahead, ends) := take_ahead count options (ut_read_ahead w.1)
    (ut_read_ahead_ends_message w.1) (mkTmcLocals [] false false) in
  Some (Next l (tmc_with_ahead ahead ends w.1, w.2)).

(** How the main loop ended: [status], [failed_bulk_in],
    [cancellation_during_transfer] and [active_tag]. *)
Record tmc_exit := mkTmcExit {
  te_status : Z;
  te_failed_bulk_in : bool;
  te_cancellation : bool;
  te_active_tag : Z }.

(** One turn of the main loop; [active_tag] is carried along. *)
Definition tmc_turn (count : Z) (options : ReadOptions) (x : tmc_locals * Z)
  : IO reply (tmc_locals * Z + tmc_locals * tmc_exit) :=
  let '(l, active_tag) := x in
  if negb (Z.of_nat (length (tl_collected l)) <? count) || tl_found_termchar l || tl_end_of_message l
  then io_ret (inr (l, mkTmcExit VI_SUCCESS false false active_tag))
  else
    let remaining := count - Z.of_nat (length (tl_collected l)) in
    tag <- next_tag ;;
    match encode_request_dev_dep_msg_in tag (u32 remaining) (ro_termchar_enabled options)
            (ro_termchar options) with
    | None => io_ret (inr (l, mkTmcExit VI_ERROR_INV_SIZE false false tag))
    | Some request =>
        r <- transfer (fun op => ut_bulk_out op request) ;;
        let '(status, transferred) := r in
        if (status <? VI_SUCCESS) || negb (transferred =? Z.of_nat (length request)) then
          io_ret (inr (l, mkTmcExit (if VI_SUCCESS <=? status then VI_ERROR_IO else status) false
                            (cancelled status) tag))
        else
          interface <- get ut_interface ;;
          let maximum_response := kHeaderSize + remaining + ui_bulk_in_max_packet_size interface in
          r <- transfer (fun op => ut_bulk_in op maximum_response) ;;
          let '(status, response) := r in
          if status <? VI_SUCCESS then
            io_ret (inr (l, mkTmcExit status true (cancelled status) tag))
          else if Z.of_nat (length response) =? maximum_response then
            io_ret (inr (l, mkTmcExit VI_ERROR_IO true false tag))
          else
            m <- decoded (decode_dev_dep_msg_in response tag remaining
                            (ui_bulk_in_max_packet_size interface - 1)) ;;
            match m with
            | None => io_ret (inr (l, mkTmcExit VI_ERROR_IO true false tag))
            | Some message =>
                if bool_decide (dd_payload message = []) && negb (dd_end_of_message message)
                then io_ret (inr (l, mkTmcExit VI_ERROR_IO true false tag))
                else
                  l <- tmc_consume count options (dd_payload message) (dd_end_of_message message) l ;;
                  io_ret (inl (l, tag))
            end
    end.

(** A turn that goes on has collected a byte or the end of the message. *)
Definition tmc_read_fuel (count : Z) : nat := Z.to_nat count + 2.

(** [status] after the loop. *)
Definition tmc_read_status (count : Z) (l : tmc_locals) (status : Z) : Z :=
  if VI_SUCCESS <=? status then
    if tl_found_termchar l then VI_SUCCESS_TERM_CHAR
    else if Z.of_nat (length (tl_collected l)) =? count then VI_SUCCESS_MAX_CNT
    else if negb (tl_end_of_message l) then VI_ERROR_IO else status
  else status.

(** The end of [read], from [operation.try_complete(status)]. *)
Definition tmc_read_end (l : tmc_locals) (e : tmc_exit) (status : Z) : IO reply reply :=
  status <- complete_or_result status ;;
  if cancelled status then
    if te_cancellation e && negb (te_active_tag e =? 0) then
      recover_cancelled_transfer (te_failed_bulk_in e) (te_active_tag e) ;;
      io_return (status_only status)
    else modify (tmc_restore_read_ahead (tl_collected l)) ;; io_return (status_only status)
  else if status =? VI_ERROR_CONN_LOST then modify mark_unusable ;; io_return (status_only status)
  else if status <? VI_SUCCESS then
    modify (tmc_restore_read_ahead (tl_collected l)) ;; io_return (status_only status)
  else io_ret (mkReply status (u32 (Z.of_nat (length (tl_collected l)))) (tl_collected l)).

Definition tmc_read_io (count : Z) (options : ReadOptions) : IO reply reply :=
  usable <- get ut_usable ;;
  valid <- get valid_interface ;;
  done <- operation_is completed ;;
  if count =? 0 then io_return (status_only VI_ERROR_INV_PARAMETER)
  else if negb usable then io_return (status_only VI_ERROR_CONN_LOST)
  else if negb valid then io_return (status_only VI_ERROR_NSUP_OPER)
  else if (done : bool) then return_result status_only
  else
    l <- read_from_ahead count options ;;
    result <- io_iter (tmc_read_fuel count) (tmc_turn count options) (l, 0) ;;
    let '(l, e) := result in
    tmc_read_end l e (tmc_read_status count l (te_status e)).

(** ** The other operations *)

Definition tmc_flush (mask : Z) (s : Session) : Z * Z * Session :=
  if negb (valid_flush_mask mask) then (VI_ERROR_INV_MASK, 0, s)
  else (VI_SUCCESS, 0,
        if negb (Z.land mask (VI_READ_BUF_DISCARD + VI_IO_IN_BUF_DISCARD) =? 0)
        then tmc_clear_ahead s else s).

Definition tmc_clear_io : IO reply reply :=
  usable <- get ut_usable ;;
  if negb usable then io_return (status_only VI_ERROR_CONN_LOST)
  else
    status <- io_call protocol_clear ;;
    (if VI_SUCCESS <=? status then modify tmc_clear_ahead
     else when negb (status =? VI_ERROR_NSUP_OPER) do modify mark_unusable) ;;
    io_ret (status_only status).

(** The loop of [read_stb] that waits for the status byte of [tag]. *)
Definition await_status_byte (tag : Z) : IO reply reply :=
  poll (
    response <- received status_only (fun op => ut_interrupt_in op 2) ;;
    d <- decoded (decode_interrupt_status_byte response (0, 0)) ;;
    let '(accepted, (response_tag, status_byte)) := d in
    if negb accepted then io_return (status_only VI_ERROR_IO)
    else if response_tag =? tag then io_return (mkReply VI_SUCCESS status_byte [])
    else io_ret tt) ;;
  return_result status_only.

Definition tmc_read_stb_io (present : bool) : IO reply reply :=
  usable <- get ut_usable ;;
  if negb present then io_return (status_only VI_ERROR_INV_PARAMETER)
  else if negb usable then io_return (status_only VI_ERROR_CONN_LOST)
  else
    result <- io_call ensure_capabilities ;;
    if result <? VI_SUCCESS then io_return (status_only result)
    else
      tag <- next_status_tag ;;
      interface <- get ut_interface ;;
      response <- received status_only (fun op =>
        ut_control_in op (interface_request kReadStatusByte tag interface) 3) ;;
      let has_interrupt := negb (ui_interrupt_in_endpoint interface =? 0) in
      d <- decoded (decode_read_status_byte response tag has_interrupt (0, 0)) ;;
      let '(accepted, (device_status, status_byte)) := d in
      if negb accepted then io_return (status_only VI_ERROR_IO)
      else if device_status =? kStatusInterruptInBusy then io_return (status_only VI_ERROR_RSRC_BUSY)
      else if negb (device_status =? kStatusSuccess) then io_return (status_only VI_ERROR_IO)
      else if negb has_interrupt then io_return (mkReply VI_SUCCESS status_byte [])
      else await_status_byte tag.

Definition tmc_assert_trigger_io (protocol : Z) : IO reply reply :=
  usable <- get ut_usable ;;
  if negb (protocol =? VI_TRIG_PROT_DEFAULT) then io_return (status_only VI_ERROR_INV_PROT)
  else if negb usable then io_return (status_only VI_ERROR_CONN_LOST)
  else
    status <- io_call ensure_capabilities ;;
    if status <? VI_SUCCESS then io_return (status_only status)
    else
      supported <- get ut_trigger_supported ;;
      if negb supported then io_return (status_only VI_ERROR_NSUP_OPER)
      else
        tag <- next_tag ;;
        match encode_usb488_trigger tag with
        | None => io_return (status_only VI_ERROR_IO)
        | Some frame =>
            r <- transfer (fun op => ut_bulk_out op frame) ;;
            let '(status, transferred) := r in
            let status := if (VI_SUCCESS <=? status) && negb (transferred =? Z.of_nat (length frame))
                          then VI_ERROR_IO else status in
            if cancelled status then
              status <- complete_or_result status ;;
              recover_cancelled_transfer false tag ;;
              io_return (status_only status)
            else
              (when status =? VI_ERROR_CONN_LOST do modify mark_unusable) ;;
              io_ret (status_only status)
        end.

#[export] Instance tmc_backend : BackendSession Session H := {|
  be_read op count options := run_io (tmc_read_io count options) op;
  be_write op buffer options := run_io (tmc_write_io buffer options) op;
  be_clear op := run_io tmc_clear_io op;
  be_flush op mask := forward (tmc_flush mask) op;
  be_read_stb op present := run_io (tmc_read_stb_io present) op;
  be_assert_trigger op protocol := run_io (tmc_assert_trigger_io protocol) op;
  be_usb_control := default_usb_control;
  be_lock := default_lock;
  be_unlock := default_unlock;
  be_set_attribute := default_set_attribute;
  be_get_attribute := default_get_attribute;
  be_close s := tmc_with_transport (ut_close (ut_transport s)) s;
  be_notify_cancel s := tmc_with_transport (ut_cancel (ut_transport s)) s |}.

(** ** Steps

    A relation on the session and the operation that every step of the code
    respects is respected by every member function. *)

Class StepRelation (Rel : relation (Session * Operation H)) : Prop := {
  sr_preorder :: PreOrder Rel;
  sr_bulk_out R d : steady Rel (transfer (R:=R) (fun op => ut_bulk_out op d));
  sr_bulk_in R n : steady Rel (transfer (R:=R) (fun op => ut_bulk_in op n));
  sr_control_in R q n : steady Rel (transfer (R:=R) (fun op => ut_control_in op q n));
  sr_interrupt_in R n : steady Rel (transfer (R:=R) (fun op => ut_interrupt_in op n));
  sr_clear_halt R e : steady Rel (transfer (R:=R) (fun op => ut_clear_halt op e));
  sr_clock R : steady Rel (clock_now (R:=R));
  sr_timeout R : steady Rel (request_timeout_io (R:=R));
  sr_complete R status : steady Rel (complete (R:=R) status);
  sr_under R A fresh (m : IO R A) : steady Rel m -> steady Rel (under fresh m);
  sr_next_tag R : steady Rel (next_tag (R:=R));
  sr_next_status_tag R : steady Rel (next_status_tag (R:=R));
  sr_capabilities R trigger : steady Rel (modify (R:=R) (tmc_with_capabilities trigger));
  sr_clear_ahead R : steady Rel (modify (R:=R) tmc_clear_ahead);
  sr_restore R data : steady Rel (modify (R:=R) (tmc_restore_read_ahead data));
  sr_mark_unusable R : steady Rel (modify (R:=R) mark_unusable);
  sr_read_from_ahead R count options : steady Rel (read_from_ahead (R:=R) count options);
  sr_consume R count options bytes ends l : steady Rel (tmc_consume (R:=R) count options bytes ends l) }.

Section steps.
  Context (Rel : relation (Session * Operation H)) `{!StepRelation Rel}.

#[local] Hint Resolve sr_bulk_out sr_bulk_in sr_control_in sr_interrupt_in sr_clear_halt sr_clock
  sr_timeout sr_complete sr_under sr_next_tag sr_next_status_tag sr_capabilities sr_clear_ahead
  sr_restore sr_mark_unusable sr_read_from_ahead sr_consume : wrio.

Lemma steps_received {R X} f (call : Operation H -> T -> usb_call T H X) :
  steady Rel (transfer (R:=R) call) -> steady Rel (received (R:=R) f call).
Proof. intros Hc. unfold received. steady. Qed.
#[local] Hint Resolve steps_received : wrio.

Lemma steps_operation_ready {R} : steady Rel (operation_ready (R:=R)).
Proof. unfold operation_ready. steady. Qed.
#[local] Hint Resolve steps_operation_ready : wrio.

Lemma steps_while_ready body : steady Rel body -> steady Rel (while_ready body).
Proof. intros Hbody. unfold while_ready, poll. steady. Qed.
#[local] Hint Resolve steps_while_ready : wrio.

Lemma steps_ensure_capabilities : steady Rel ensure_capabilities.
Proof. unfold ensure_capabilities. steady. Qed.
#[local] Hint Resolve steps_ensure_capabilities : wrio.

Lemma steps_drain_bulk_in : steady Rel drain_bulk_in.
Proof. unfold drain_bulk_in, while_ready, poll. steady. Qed.
#[local] Hint Resolve steps_drain_bulk_in : wrio.

Lemma steps_drain_if fifo : steady Rel (drain_if fifo).
Proof. unfold drain_if. steady. Qed.
#[local] Hint Resolve steps_drain_if : wrio.

Lemma steps_protocol_clear : steady Rel protocol_clear.
Proof. unfold protocol_clear, while_ready, poll, clear_bulk_out. steady. Qed.
#[local] Hint Resolve steps_protocol_clear : wrio.

Lemma steps_abort_bulk_out tag : steady Rel (abort_bulk_out tag).
Proof. unfold abort_bulk_out, initiate_abort, while_ready, poll, clear_bulk_out. steady. Qed.
#[local] Hint Resolve steps_abort_bulk_out : wrio.

Lemma steps_abort_bulk_in tag : steady Rel (abort_bulk_in tag).
Proof. unfold abort_bulk_in, initiate_abort, while_ready, poll. steady. Qed.
#[local] Hint Resolve steps_abort_bulk_in : wrio.

Lemma steps_under_recovery {R} m : steady Rel m -> steady Rel (under_recovery (R:=R) m).
Proof. intros Hm. unfold under_recovery. steady. apply sr_under. steady. Qed.
#[local] Hint Resolve steps_under_recovery : wrio.

Lemma steps_recover {R} bulk_in tag : steady Rel (recover_cancelled_transfer (R:=R) bulk_in tag).
Proof. unfold recover_cancelled_transfer. destruct bulk_in; steady. Qed.
#[local] Hint Resolve steps_recover : wrio.

Lemma steps_complete_or_result {R} status : steady Rel (complete_or_result (R:=R) status).
Proof. unfold complete_or_result. steady. Qed.
#[local] Hint Resolve steps_complete_or_result : wrio.

Lemma steps_turn count options x : steady Rel (tmc_turn count options x).
Proof. unfold tmc_turn. steady. Qed.
#[local] Hint Resolve steps_turn : wrio.

(** The session and the operation after a call that is not a flush. *)
Lemma steps_call c ro wo op s r :
  backend_call c ro wo op s = Some r ->
  Rel (s, op) (cr_backend r, cr_operation r) \/
  (exists mask, c = IoFlush mask) /\ cr_operation r = op /\
    (cr_backend r = s \/ cr_backend r = tmc_clear_ahead s).
Proof.
  intros Hr.
  destruct c as [count|buffer| |mask|present|protocol|? ? ? ? ? ?]; cbn in Hr;
    try (by injection Hr as <-; left; reflexivity); try (left; eapply run_io_steady; [|exact Hr]; clear Hr).
  - unfold tmc_read_io, tmc_read_end. steady.
  - unfold tmc_write_io. steady.
  - unfold tmc_clear_io. steady.
  - right. split; [by eexists|]. unfold tmc_flush in Hr. destruct (negb (valid_flush_mask mask)).
    + injection Hr as <-. auto.
    + injection Hr as <-. cbn. case_match; auto.
  - unfold tmc_read_stb_io, await_status_byte, poll. steady.
  - unfold tmc_assert_trigger_io. steady.
Qed.

End steps.

(** ** The operation *)

Section laws.
  Context `{!UsbTransportLaws T H}.

#[export] Instance later_steps : StepRelation (@ops_later Session H).
Proof.
  split; first [apply _|intros; try (by auto with wrio); try (by transfers)].
  - intros w o. unfold read_from_ahead. destruct (take_ahead _ _ _ _ _) as [[l ahead] ends].
    intros [= <-]. unfold ops_later. reflexivity.
  - unfold tmc_consume. steady.
Qed.

#[export] Instance tmc_laws : BackendLaws Session H.
Proof.
  split.
  - intros c ro wo op b r Hr. destruct (steps_call ops_later _ _ _ _ _ _ Hr) as [[Hk _]|(_ & -> & _)]; done.
  - intros op lock_type key b r [= <-] Hf. exact Hf.
  - intros op b r [= <-] Hf. exact Hf.
Qed.

End laws.

(** ** Invariants of the session *)

(** Tags are what the protocol allows, and an END mark is behind some byte. *)
Definition tmc_ok (s : Session) : Prop :=
  1 <= ut_next_tag s <= 255 /\ 2 <= ut_next_status_tag s <= 127 /\
  (ut_read_ahead_ends_message s = true -> ut_read_ahead s ≠ []).

Definition tmc_forward (s s' : Session) : Prop :=
  (tmc_ok s -> tmc_ok s') /\ (ut_usable s = false -> ut_usable s' = false).

#[export] Instance tmc_forward_preorder : PreOrder tmc_forward.
Proof. split; [done|]. intros s1 s2 s3 [A1 B1] [A2 B2]. split; auto. Qed.

Section forward.
Lemma forward_modify {R} f :
  (forall s, tmc_forward s (f s)) -> steady (on_state tmc_forward) (modify (H:=H) (R:=R) f).
Proof. intros Hf. by apply state_modify. Qed.

Lemma u8_next z : 0 <= z <= 255 -> u8 (z + 1) = if z =? 255 then 0 else z + 1.
Proof. intros Hz. unfold u8. destruct (Z.eqb_spec z 255) as [->|]; [done|]. apply Z.mod_small. lia. Qed.

Lemma next_tag_forward {R} : steady (on_state tmc_forward) (next_tag (R:=R)).
Proof.
  intros w o. cbn. intros [= <-]. split; [|done]. intros (Ht & Hs & He). split; [|done].
  cbn. rewrite u8_next by lia. destruct (Z.eqb_spec (ut_next_tag w.1) 255); [done|].
  destruct (Z.eqb_spec (ut_next_tag w.1 + 1) 0); lia.
Qed.

Lemma next_status_tag_forward {R} : steady (on_state tmc_forward) (next_status_tag (R:=R)).
Proof.
  intros w o. cbn. intros [= <-]. split; [|done]. intros (Ht & Hs & He). split; [done|]. split; [|done].
  cbn. rewrite u8_next by lia. destruct (Z.eqb_spec (ut_next_status_tag w.1) 255); [lia|].
  destruct (Z.ltb_spec 127 (ut_next_status_tag w.1 + 1)); lia.
Qed.

Lemma clear_ahead_forward s : tmc_forward s (tmc_clear_ahead s).
Proof. split; [|done]. intros (? & ? & ?). done. Qed.

Lemma restore_forward data s : tmc_forward s (tmc_restore_read_ahead data s).
Proof.
  split; [|done]. intros (? & ? & He). split; [done|]. split; [done|]. cbn. intros Hends.
  specialize (He Hends). by destruct data.
Qed.

Lemma mark_unusable_forward s : tmc_forward s (mark_unusable s).
Proof. split; [|done]. intros (? & ? & ?). done. Qed.

Lemma capabilities_forward trigger s : tmc_forward s (tmc_with_capabilities trigger s).
Proof. split; [|done]. intros (? & ? & ?). done. Qed.

Lemma take_ahead_nonempty count options ahead ends l l' ahead' ends' :
  (ends = true -> ahead ≠ []) -> take_ahead count options ahead ends l = (l', ahead', ends') ->
  ends' = true -> ahead' ≠ [].
Proof.
  revert ends l. induction ahead as [|b ahead IH]; intros ends l Hok; cbn [take_ahead].
  - intros [= <- <- <-] Hends. by specialize (Hok Hends).
  - destruct (_ || _); [by intros [= <- <- <-]|]. apply IH. case_bool_decide as Hn; [|done].
    rewrite Hn. by destruct ends.
Qed.

Lemma read_from_ahead_forward {R} count options :
  steady (on_state tmc_forward) (read_from_ahead (R:=R) count options).
Proof.
  intros w o. unfold read_from_ahead. destruct (take_ahead _ _ _ _ _) as [[l ahead] ends] eqn:E.
  intros [= <-]. split; [|done]. intros (? & ? & He). split; [done|]. split; [done|].
  by eapply take_ahead_nonempty.
Qed.

Lemma consume_forward {R} count options bytes ends l :
  steady (on_state tmc_forward) (tmc_consume (R:=R) count options bytes ends l).
Proof.
  unfold tmc_consume. destruct (consume_bytes count options bytes l []) as [l' stored].
  apply steady_bind; [apply _| |intros _; apply steady_ret, _].
  apply forward_modify. intros s. split; [|done]. intros (? & ? & He). split; [done|]. split; [done|].
  unfold tmc_with_ahead. cbn [ut_read_ahead ut_read_ahead_ends_message].
  intros Hends Heq. apply app_eq_nil in Heq as [Ha ->].
  rewrite bool_decide_false in Hends by auto. rewrite andb_false_r in Hends. by apply (He Hends).
Qed.

#[export] Instance forward_steps : StepRelation (on_state (H:=H) tmc_forward).
Proof.
  split; first [apply _|intros].
  1-5: by apply state_transfer.
  - by apply state_clock_now.
  - by apply state_request_timeout.
  - by apply state_complete, _.
  - by apply state_under.
  - apply next_tag_forward.
  - apply next_status_tag_forward.
  - apply forward_modify, capabilities_forward.
  - apply forward_modify, clear_ahead_forward.
  - apply forward_modify, restore_forward.
  - apply forward_modify, mark_unusable_forward.
  - apply read_from_ahead_forward.
  - apply consume_forward.
Qed.

Lemma tmc_call_forward c ro wo op s r :
  backend_call c ro wo op s = Some r -> tmc_forward s (cr_backend r).
Proof.
  intros Hr. destruct (steps_call (on_state tmc_forward) _ _ _ _ _ _ Hr) as [Hrel|(_ & _ & [->| ->])].
  - exact Hrel.
  - reflexivity.
  - apply clear_ahead_forward.
Qed.

End forward.

(** *** Recovery *)

Lemma under_recovery_next {R} m w o :
  under_recovery (R:=R) m w = Some o -> exists status w', o = Next status w'.
Proof.
  unfold under_recovery, io_bind, clock_now. destruct (ut_now _) as [now t']. unfold under, io_call.
  destruct (m _) as [[a w'|a w']|]; intros [= <-]; by do 2 eexists.
Qed.

(** After a recovery the session is in step with the device, or unusable. *)
Definition recovered (ok : bool) (s : Session) : Prop :=
  if ok then ut_read_ahead s = [] /\ ut_read_ahead_ends_message s = false
  else ut_usable s = false /\ exists t, ut_transport s = ut_close t.

Lemma recover_spec {R} bulk_in tag w o :
  recover_cancelled_transfer (R:=R) bulk_in tag w = Some o ->
  exists ok w', o = Next ok w' /\ recovered ok w'.1.
Proof.
  unfold recover_cancelled_transfer. unfold io_bind at 1.
  destruct (under_recovery _ w) as [o1|] eqn:E1; [|done].
  destruct (under_recovery_next _ _ _ E1) as (st & w1 & ->).
  destruct (VI_SUCCESS <=? st); [intros [= <-]; by exists true; eexists|].
  unfold io_bind at 1. destruct (under_recovery _ w1) as [o2|] eqn:E2; [|done].
  destruct (under_recovery_next _ _ _ E2) as (st2 & w2 & ->).
  destruct (VI_SUCCESS <=? st2); intros [= <-]; [by exists true; eexists|].
  exists false. eexists. split; [reflexivity|]. split; [done|]. by eexists.
Qed.

(** A session that was found unusable refuses: it touches neither its state nor
    the device. *)
Lemma unusable_refuses c ro wo op s r :
  ut_usable s = false -> backend_call c ro wo op s = Some r ->
  match c with
  | IoFlush _ => ut_transport (cr_backend r) = ut_transport s
  | _ => cr_backend r = s /\ cr_status r < VI_SUCCESS /\ cr_data r = []
  end.
Proof.
  intros Hu Hr. destruct c; cbn in Hr; try (by injection Hr as <-).
  - unfold run_io, tmc_read_io, io_bind, get, operation_is, io_gets in Hr. cbn in Hr. rewrite Hu in Hr.
    destruct (count =? 0); by injection Hr as <-.
  - unfold run_io, tmc_write_io, io_bind, get, operation_is, io_gets in Hr. cbn in Hr. rewrite Hu in Hr.
    destruct (Z.of_nat (length buffer) =? 0); by injection Hr as <-.
  - unfold run_io, tmc_clear_io, io_bind, get, io_gets in Hr. cbn in Hr. rewrite Hu in Hr.
    by injection Hr as <-.
  - unfold tmc_flush in Hr. destruct (negb _); [by injection Hr as <-|]. injection Hr as <-.
    cbn. by case_match.
  - unfold run_io, tmc_read_stb_io, io_bind, get, io_gets in Hr. cbn in Hr. rewrite Hu in Hr.
    destruct present; by injection Hr as <-.
  - unfold run_io, tmc_assert_trigger_io, io_bind, get, io_gets in Hr. cbn in Hr. rewrite Hu in Hr.
    destruct (protocol =? VI_TRIG_PROT_DEFAULT); by injection Hr as <-.
Qed.


(** ** What a read returns *)

Definition tmc_ahead (s : Session) : list (option Z) :=
  events (ut_read_ahead s) (ut_read_ahead_ends_message s).

(** What a response of the bulk-in endpoint carries. *)
Definition response_events (response : list Z) : list (option Z) :=
  match decode_dev_dep_msg_in response (default 0 (response !! 1%nat)) kMaximumPayload
          (Z.of_nat (length response)) with
  | Some (Some m) => events (dd_payload m) (dd_end_of_message m)
  | _ => []
  end.

Lemma response_events_decoded response tag max align m :
  are_bytes response -> decode_dev_dep_msg_in response tag max align = Some (Some m) ->
  response_events response = events (dd_payload m) (dd_end_of_message m).
Proof.
  intros Hb Hd. unfold response_events, decode_dev_dep_msg_in in *.
  destruct (decode_message_spec response kDevDepMsgIn tag max align false Hb) as (r & Hr & Hspec).
  rewrite Hr in Hd. injection Hd as ->. destruct (proj1 (Hspec m) eq_refl) as (Ht & Hnz & Hl & al & Heq & Ha).
  assert (default 0 (response !! 1%nat) = tag) as -> by (rewrite Heq, <- Ht; done).
  destruct (decode_message_spec response kDevDepMsgIn tag kMaximumPayload (Z.of_nat (length response))
    false Hb) as (r & Hr' & Hspec'). rewrite Hr'. assert (r = Some m) as ->; [|done].
  apply Hspec'. split; [done|]. split; [done|]. split; [lia|]. exists al. split; [done|].
  rewrite Heq, length_app. lia.
Qed.

Section reading.
  Context (count : Z) (options : ReadOptions).

(** The locals while bytes are being collected. *)
Definition locals_ok (l : tmc_locals) : Prop :=
  Z.of_nat (length (tl_collected l)) <= count /\ termchar_ok options (tl_collected l) (tl_found_termchar l).

(** Nothing is left to collect. *)
Definition full (l : tmc_locals) : Prop :=
  Z.of_nat (length (tl_collected l)) = count \/ tl_found_termchar l = true.

Lemma consume_bytes_spec bytes : forall l stored l' stored',
  locals_ok l -> (stored ≠ [] -> full l) -> consume_bytes count options bytes l stored = (l', stored') ->
  locals_ok l' /\ (stored' ≠ [] -> full l') /\
  tl_collected l' ++ stored' = tl_collected l ++ stored ++ bytes /\
  tl_end_of_message l' = tl_end_of_message l.
Proof.
  induction bytes as [|b bytes IH]; intros l stored l' stored' Hl Hs; cbn [consume_bytes].
  { intros [= <- <-]. by rewrite app_nil_r. }
  destruct ((_ =? _) || _) eqn:Hfull.
  - intros Hc. apply IH in Hc as (? & ? & Heq & ?); [|done|].
    + rewrite Heq, <- (app_assoc stored). done.
    + intros _. apply orb_true_iff in Hfull as [Hf|Hf]; [left; by apply Z.eqb_eq|by right].
  - apply orb_false_iff in Hfull as [Hf1 Hf2]. apply Z.eqb_neq in Hf1. destruct Hl as [Hlen Ht].
    assert (stored = []) as ->.
    { destruct stored; [done|]. destruct Hs as [Hs|Hs]; [done|lia|by rewrite Hs in Hf2]. }
    intros Hc. apply IH in Hc as (? & ? & Heq & ?); [|split; cbn|done].
    + cbn in Heq |- *. rewrite Heq, <- app_assoc. done.
    + rewrite length_app. cbn. lia.
    + rewrite Hf2 in *. cbn. by apply termchar_ok_snoc.
Qed.

Lemma take_ahead_spec ahead : forall ends l l' ahead' ends',
  locals_ok l -> (ends = true -> ahead ≠ []) -> tl_end_of_message l = false ->
  take_ahead count options ahead ends l = (l', ahead', ends') ->
  locals_ok l' /\ (ends' = true -> ahead' ≠ []) /\ (full l' \/ ahead' = []) /\
  (tl_end_of_message l' = true -> ahead' = []) /\
  events (tl_collected l) false ++ events ahead ends =
    events (tl_collected l') (tl_end_of_message l') ++ events ahead' ends'.
Proof.
  induction ahead as [|b ahead IH]; intros ends l l' ahead' ends' Hl He Hm; cbn [take_ahead].
  { intros [= <- <- <-]. rewrite Hm. split; [done|]. split; [done|]. split; [by right|]. done. }
  destruct (negb _ || _) eqn:Hstop.
  { intros [= <- <- <-]. rewrite Hm. split; [done|]. split; [done|]. split; [|done]. left.
    apply orb_true_iff in Hstop as [Hf|Hf]; [left|by right]. apply negb_true_iff, Z.ltb_ge in Hf.
    destruct Hl. lia. }
  apply orb_false_iff in Hstop as [Hf1 Hf2]. apply negb_false_iff, Z.ltb_lt in Hf1. destruct Hl as [Hlen Ht].
  assert (locals_ok (mkTmcLocals (tl_collected l ++ [b]) false (is_termchar options b))) as Hl'.
  { split; cbn; [rewrite length_app; cbn; lia|]. rewrite Hf2 in Ht. by apply termchar_ok_snoc. }
  rewrite Hf2, Hm. cbn [orb].
  assert (forall e, events (tl_collected l) false ++ events (b :: ahead) e =
    events (tl_collected l ++ [b]) false ++ events ahead e) as Hev.
  { intros e. rewrite events_app, <- app_assoc. done. }
  rewrite Hev. case_bool_decide as Hn; cbn [andb].
  - subst ahead. destruct ends; cbn [take_ahead]; intros [= <- <- <-]; cbn.
    + split; [exact Hl'|]. split; [done|]. split; [by right|]. split; [done|].
      unfold events. by rewrite !app_nil_r.
    + split; [exact Hl'|]. split; [done|]. split; [by right|]. done.
  - intros Hc. apply IH in Hc; [|done|done|done]. exact Hc.
Qed.

(** A view of the transport: the responses its bulk-in endpoint has given. *)
Context (wire : T -> list (list Z)).
Hypothesis wire_bulk_in : forall op n t status d op' t',
  ut_bulk_in op n t = Some (status, d, op', t') ->
  wire t' = wire t ++ (if status <? VI_SUCCESS then [] else [d]) /\
  (VI_SUCCESS <= status -> are_bytes d) /\ (fails_only op -> fails_only op').
Hypothesis wire_bulk_out : forall op d t status n op' t',
  ut_bulk_out op d t = Some (status, n, op', t') ->
  wire t' = wire t /\ (fails_only op -> fails_only op').

Context (s0 : Session).

(** What the session had read ahead and what it has received since is what the
    locals hold and what is still read ahead; [rejected] was no response to the
    request. *)
Definition tmc_stream (l : tmc_locals) (rejected : list (list Z)) (s : Session) : Prop :=
  exists responses, wire (ut_transport s) = wire (ut_transport s0) ++ responses ++ rejected /\
    tmc_ahead s0 ++ concat (response_events <$> responses) =
      events (tl_collected l) (tl_end_of_message l) ++ tmc_ahead s.

Definition tmc_inv (l : tmc_locals) (w : Session * Operation H) : Prop :=
  fails_only w.2 /\ locals_ok l /\ tmc_stream l [] w.1 /\
  (ut_read_ahead_ends_message w.1 = true -> ut_read_ahead w.1 ≠ []) /\
  (full l \/ ut_read_ahead w.1 = []) /\ (tl_end_of_message l = true -> ut_read_ahead w.1 = []).

Definition tmc_exited (l : tmc_locals) (e : tmc_exit) (w : Session * Operation H) : Prop :=
  fails_only w.2 /\ locals_ok l /\
  (ut_read_ahead_ends_message w.1 = true -> ut_read_ahead w.1 ≠ []) /\
  (tl_end_of_message l = true -> ut_read_ahead w.1 = []) /\
  exists rejected, tmc_stream l rejected w.1 /\
    if VI_SUCCESS <=? te_status e
    then te_status e = VI_SUCCESS /\ rejected = [] /\ (full l \/ tl_end_of_message l = true)
    else (length rejected <= 1)%nat /\ tl_end_of_message l = false.

Lemma tmc_stream_transport l rejected t s :
  wire t = wire (ut_transport s) -> tmc_stream l rejected s -> tmc_stream l rejected (tmc_with_transport t s).
Proof. intros Hw (responses & Hr & He). exists responses. split; [by rewrite <- Hr|done]. Qed.

Lemma tmc_ahead_empty s :
  (ut_read_ahead_ends_message s = true -> ut_read_ahead s ≠ []) -> ut_read_ahead s = [] ->
  ut_read_ahead_ends_message s = false /\ tmc_ahead s = [].
Proof.
  intros He Ha. unfold tmc_ahead. rewrite Ha in *.
  destruct (ut_read_ahead_ends_message s); [by destruct (He eq_refl)|done].
Qed.

Lemma consume_spec {R} response m l w :
  fails_only w.2 -> locals_ok l -> tl_end_of_message l = false ->
  ut_read_ahead w.1 = [] -> ut_read_ahead_ends_message w.1 = false ->
  response_events response = events (dd_payload m) (dd_end_of_message m) ->
  tmc_stream l [response] w.1 ->
  holds (tmc_consume (R:=R) count options (dd_payload m) (dd_end_of_message m) l) w (fun o =>
    match o with
    | Next l' w' => tmc_inv l' w'
    | Return _ _ => False
    end).
Proof.
  intros Hf Hl Hend Ha Hae Hev (responses & Hw & Hs). unfold tmc_consume.
  destruct (consume_bytes _ _ _ _ _) as [l' stored] eqn:Hc.
  pose proof (consume_bytes_spec _ _ _ _ _ Hl ltac:(done) Hc) as (Hl' & Hfull & Hdata & Hend').
  rewrite Hend in Hend'. cbn [app] in Hdata.
  apply holds_bind, holds_modify, holds_ret. cbn [tl_collected tl_end_of_message].
  rewrite Ha, Hae, Hend'. cbn [app].
  split; [done|]. split; [exact Hl'|]. split; [|split; [|split]].
  - exists (responses ++ [response]). split; [by rewrite app_nil_r; exact Hw|].
    rewrite fmap_app, concat_app, app_assoc, Hs, Hend. unfold tmc_ahead. rewrite Ha, Hae.
    cbn [fst tmc_with_ahead ut_read_ahead ut_read_ahead_ends_message tl_collected tl_end_of_message].
    cbn [fmap list_fmap concat]. rewrite Hev, !app_nil_r.
    rewrite <- events_app, <- Hdata.
    case_bool_decide as Hst; cbn [negb].
    + rewrite andb_true_r, andb_false_r, events_app. by destruct (dd_end_of_message m).
    + subst stored. rewrite andb_false_r, andb_true_r, !app_nil_r.
      by destruct (dd_end_of_message m).
  - cbn. case_bool_decide; [done|]. by rewrite andb_false_r.
  - destruct stored as [|b stored]; [by right|left]. apply Hfull. done.
  - cbn. case_bool_decide as Hst; cbn [negb]; [by rewrite andb_false_r|done].
Qed.

Lemma tmc_turn_spec l active_tag w :
  tmc_inv l w ->
  holds (tmc_turn count options (l, active_tag)) w (fun o =>
    match o with
    | Next (inl (l', _)) w' => tmc_inv l' w'
    | Next (inr (l', e)) w' => tmc_exited l' e w'
    | Return _ _ => False
    end).
Proof.
  intros (Hf & Hl & Hs & He & Hfull & Hend). unfold tmc_turn.
  destruct (_ || _ || _) eqn:Hstop.
  { apply holds_ret. split; [done|]. split; [done|]. split; [done|]. split; [done|].
    exists []. split; [done|]. cbn. split; [done|]. split; [done|].
    rewrite !orb_true_iff, negb_true_iff, Z.ltb_ge in Hstop. destruct Hl as [Hl _]. unfold full.
    destruct Hstop as [[|]|]; auto. left; left. lia. }
  rewrite !orb_false_iff, negb_false_iff, Z.ltb_lt in Hstop. destruct Hstop as [[Hlt Hfound] Hnend].
  assert (ut_read_ahead w.1 = []) as Ha by (destruct Hfull as [[?|Hx]|]; [lia|congruence|done]).
  destruct (tmc_ahead_empty _ He Ha) as [Hae _].
  apply holds_bind. intros o1. cbn. intros [= <-].
  set (s1 := tmc_with_tags _ _ w.1). assert (tmc_stream l [] s1) as Hs1 by exact Hs.
  assert (forall status failed canc rejected s op', status < VI_SUCCESS -> (length rejected <= 1)%nat ->
    fails_only op' -> tmc_stream l rejected s -> ut_read_ahead s = [] ->
    ut_read_ahead_ends_message s = false ->
    tmc_exited l (mkTmcExit status failed canc (ut_next_tag w.1)) (s, op')) as Hexit.
  { intros status failed canc rejected s op' Hst Hr Hf' Hs' Ha' He'. split; [done|]. split; [done|].
    cbn. rewrite Ha', He'. split; [done|]. split; [done|]. exists rejected. split; [done|].
    by rewrite (proj2 (Z.leb_gt _ _)). }
  destruct (encode_request_dev_dep_msg_in _ _ _ _) as [request|];
    [|apply holds_ret; by apply (Hexit _ _ _ []); [|cbn; lia|..]].
  apply holds_bind. intros o2. unfold transfer.
  destruct (ut_bulk_out _ _ _) as [[[[status n] op2] t2]|] eqn:Hout; [|done]. intros [= <-].
  destruct (wire_bulk_out _ _ _ _ _ _ _ Hout) as [Hw2 Hf2].
  set (s2 := own_with_transport t2 s1). assert (tmc_stream l [] s2) as Hs2 by by apply tmc_stream_transport.
  destruct (Z.ltb_spec status VI_SUCCESS) as [Hst|Hst]; cbn [orb].
  { rewrite (proj2 (Z.leb_gt VI_SUCCESS status)) by done. apply holds_ret. apply (Hexit _ _ _ []); auto. }
  destruct (negb _).
  { rewrite (proj2 (Z.leb_le VI_SUCCESS status)) by done. apply holds_ret. apply (Hexit _ _ _ []); auto. done. }
  apply holds_bind, holds_gets. cbn zeta. set (maximum := _ + _ + _).
  apply holds_bind. intros o3. cbn [fst snd].
  destruct (ut_bulk_in _ _ _) as [[[[status' d] op3] t3]|] eqn:Hin; [|done]. intros [= <-].
  destruct (wire_bulk_in _ _ _ _ _ _ _ Hin) as (Hw3 & Hb & Hf3).
  set (s3 := own_with_transport t3 s2).
  destruct (Z.ltb_spec status' VI_SUCCESS) as [Hst'|Hst'].
  { apply holds_ret. apply (Hexit _ _ _ []); auto. apply tmc_stream_transport; [|done].
    rewrite Hw3. apply app_nil_r. }
  assert (tmc_stream l [d] s3) as Hs3.
  { destruct Hs2 as (responses & Hr2 & He2). exists responses. split; [|done].
    rewrite app_nil_r in Hr2. rewrite app_assoc, <- Hr2. exact Hw3. }
  assert (forall status'' failed, status'' < VI_SUCCESS ->
    tmc_exited l (mkTmcExit status'' failed false (ut_next_tag w.1)) (s3, op3)) as Hreject.
  { intros status'' failed Hst''. apply (Hexit _ _ _ [d]); auto. }
  destruct (_ =? maximum); [apply holds_ret; by apply Hreject|].
  apply holds_bind. intros o4. unfold decoded.
  destruct (decode_dev_dep_msg_in _ _ _ _) as [[m|]|] eqn:Hd; [| |done]; intros [= <-];
    [|apply holds_ret; by apply Hreject].
  destruct (bool_decide _ && _) eqn:Hnone; [apply holds_ret; by apply Hreject|].
  apply holds_bind. eapply holds_mono.
  - apply (consume_spec d m l (s3, op3)); auto.
    by eapply response_events_decoded; [auto|].
  - intros [l' w'|r w'] Ho; [|done]. by apply holds_ret.
Qed.

(** A read that hands out nothing: the stream is kept but for an END mark, the
    session is unusable, or it was brought back in step with the device. *)
Definition tmc_kept (s : Session) : Prop :=
  exists responses rejected lost,
    wire (ut_transport s) = wire (ut_transport s0) ++ responses ++ rejected /\
    (length rejected <= 1)%nat /\
    tmc_ahead s0 ++ concat (response_events <$> responses) = tmc_ahead s ++ lost /\
    (lost = [] \/ lost = [None]).

Definition tmc_failed (rp : reply) (w : Session * Operation H) : Prop :=
  rp_status rp < VI_SUCCESS /\ rp_data rp = [] /\ rp_value rp = 0 /\
  (tmc_kept w.1 \/ ut_usable w.1 = false \/ cancelled (rp_status rp) = true /\ tmc_ahead w.1 = []).

(** A read that hands out the next bytes of the stream. *)
Definition tmc_handed_out (rp : reply) (w : Session * Operation H) : Prop :=
  op_result w.2 = rp_status rp /\ rp_value rp = Z.of_nat (length (rp_data rp)) /\ rp_value rp <= count /\
  exists ended found, tmc_stream (mkTmcLocals (rp_data rp) ended found) [] w.1 /\
    termchar_ok options (rp_data rp) found /\
    (found = true /\ rp_status rp = VI_SUCCESS_TERM_CHAR \/
     found = false /\
       (rp_status rp = VI_SUCCESS_MAX_CNT /\ rp_value rp = count \/
        rp_status rp = VI_SUCCESS /\ rp_value rp < count /\ ended = true)).

Lemma tmc_kept_restore l rejected s :
  (ut_read_ahead_ends_message s = true -> ut_read_ahead s ≠ []) ->
  (tl_end_of_message l = true -> ut_read_ahead s = []) ->
  (length rejected <= 1)%nat -> tmc_stream l rejected s ->
  tmc_kept (tmc_restore_read_ahead (tl_collected l) s).
Proof.
  intros He Hend Hr (responses & Hw & Hs).
  assert (tmc_ahead (tmc_restore_read_ahead (tl_collected l) s) =
    events (tl_collected l) false ++ tmc_ahead s) as Hrestore by (unfold tmc_ahead; apply events_app).
  destruct (tl_end_of_message l) eqn:E.
  - destruct (tmc_ahead_empty s He (Hend eq_refl)) as [_ Hempty].
    exists responses, rejected, [None]. split; [done|]. split; [done|]. split; [|by right].
    rewrite Hs, Hrestore, Hempty, app_nil_r. unfold events. by rewrite !app_nil_r.
  - exists responses, rejected, []. split; [done|]. split; [done|]. split; [|by left].
    by rewrite Hs, Hrestore, app_nil_r.
Qed.

Lemma holds_complete_or_result {R} status (w : Session * Operation H)
    (Q : outcome (Session * Operation H) R Z -> Prop) :
  (forall op', op_result op' = status -> Q (Next status (w.1, op'))) ->
  (completed w.2 = true -> Q (Next (op_result w.2) w)) ->
  holds (complete_or_result (R:=R) status) w Q.
Proof.
  intros Hwon Hlost. unfold complete_or_result. apply holds_bind. intros o. unfold complete.
  destruct w as [s op]. cbn [fst snd] in *. destruct (completed op) eqn:Hc.
  - rewrite try_complete_done by done. intros [= <-]. apply holds_gets. by apply Hlost.
  - rewrite try_complete_fresh by done. intros [= <-]. apply holds_ret. by apply Hwon.
Qed.

Lemma tmc_read_end_spec l e w :
  0 < count < 2 ^ 32 -> tmc_exited l e w ->
  holds (tmc_read_end l e (tmc_read_status count l (te_status e))) w (fun o =>
    match o with Next rp w' | Return rp w' => tmc_failed rp w' \/ tmc_handed_out rp w' end).
Proof.
  intros Hcount (Hf & [Hlen Hterm] & He & Hend & rejected & Hs & Hst).
  set (final := tmc_read_status count l (te_status e)).
  assert ((length rejected <= 1)%nat) as Hrej.
  { destruct (VI_SUCCESS <=? te_status e); [|apply Hst]. destruct Hst as (_ & -> & _). cbn. lia. }
  pose proof (tmc_kept_restore l rejected w.1 He Hend Hrej Hs) as Hkept.
  assert (final < VI_SUCCESS \/ forall op', op_result op' = final ->
    tmc_handed_out (mkReply final (u32 (Z.of_nat (length (tl_collected l)))) (tl_collected l)) (w.1, op'))
    as Hfinal.
  { unfold final, tmc_read_status. destruct (Z.leb_spec VI_SUCCESS (te_status e)); [right|left; lia].
    destruct Hst as (Hok & -> & Hdone). intros op' Hop. unfold u32. rewrite Z.mod_small by lia.
    split; [done|]. split; [done|]. split; [done|].
    exists (tl_end_of_message l), (tl_found_termchar l). cbn [fst rp_data rp_status rp_value].
    split; [by destruct l|]. split; [done|]. destruct (tl_found_termchar l) eqn:E; [by left|right].
    split; [done|]. destruct (Z.eqb_spec (Z.of_nat (length (tl_collected l))) count) as [|Hne]; [by left|].
    destruct Hdone as [[?|?]|Hd]; [done|congruence|]. right. rewrite Hd. cbn [negb].
    split; [done|]. split; [lia|done]. }
  unfold tmc_read_end. apply holds_bind.
  assert (forall status op', (status < VI_SUCCESS \/ status = final /\ op_result op' = final) ->
    holds (if cancelled status then
        if te_cancellation e && negb (te_active_tag e =? 0) then
          recover_cancelled_transfer (te_failed_bulk_in e) (te_active_tag e) ;;
          io_return (status_only status)
        else modify (tmc_restore_read_ahead (tl_collected l)) ;; io_return (status_only status)
      else if status =? VI_ERROR_CONN_LOST then modify mark_unusable ;; io_return (status_only status)
      else if status <? VI_SUCCESS then
        modify (tmc_restore_read_ahead (tl_collected l)) ;; io_return (status_only status)
      else io_ret (mkReply status (u32 (Z.of_nat (length (tl_collected l)))) (tl_collected l))) (w.1, op')
      (fun o => match o with Next rp w' | Return rp w' => tmc_failed rp w' \/ tmc_handed_out rp w' end))
    as Hrest.
  { intros status op' Hstatus.
    assert (forall s op'', status < VI_SUCCESS -> tmc_kept s \/ ut_usable s = false \/
      cancelled status = true /\ tmc_ahead s = [] -> tmc_failed (status_only status) (s, op'')) as Hfail
      by (intros s op'' ? ?; split; [done|]; split; [done|]; split; done).
    destruct (cancelled status) eqn:Hcan.
    - assert (status < VI_SUCCESS) as Hneg.
      { unfold cancelled in Hcan. apply orb_true_iff in Hcan as [Hx|Hx]; apply Z.eqb_eq in Hx; by rewrite Hx. }
      destruct (_ && _).
      + apply holds_bind. intros o Ho. destruct (recover_spec _ _ _ _ Ho) as (ok & [s' op''] & -> & Hrec).
        apply holds_return. left. apply Hfail; [done|]. right. destruct ok.
        * right. split; [done|]. destruct Hrec as [Ha Hb]. cbn in Ha, Hb. unfold tmc_ahead. cbn. by rewrite Ha, Hb.
        * left. apply Hrec.
      + apply holds_bind, holds_modify, holds_return. left. apply Hfail; [done|by left].
    - destruct (Z.eqb_spec status VI_ERROR_CONN_LOST) as [->|].
      { apply holds_bind, holds_modify, holds_return. left. apply Hfail; [done|right; by left]. }
      destruct (Z.ltb_spec status VI_SUCCESS) as [Hneg|Hpos].
      { apply holds_bind, holds_modify, holds_return. left. apply Hfail; [done|by left]. }
      apply holds_ret. right. destruct Hstatus as [|[-> Hop]]; [lia|].
      destruct Hfinal as [|Hfinal]; [lia|]. by apply Hfinal. }
  apply holds_complete_or_result.
  - intros op' Hop. apply Hrest. by right.
  - intros Hdone. destruct w as [s op]. apply Hrest. left. by apply Hf.
Qed.

Lemma read_from_ahead_inv {R} op :
  fails_only op -> 0 < count -> (ut_read_ahead_ends_message s0 = true -> ut_read_ahead s0 ≠ []) ->
  holds (read_from_ahead (R:=R) count options) (s0, op) (fun o =>
    match o with Next l w => tmc_inv l w | Return _ _ => False end).
Proof.
  intros Hf Hcount He o. unfold read_from_ahead. destruct (take_ahead _ _ _ _ _) as [[l ahead] ends] eqn:E.
  intros [= <-]. cbn [fst snd] in *.
  apply take_ahead_spec in E as (Hl & He' & Hfull & Hend & Hev); [| |done|done].
  2:{ split; cbn; [lia|]. intros _. apply not_elem_of_nil. }
  split; [done|]. split; [done|]. split; [|split; [done|split; done]].
  exists []. split; [by rewrite !app_nil_r|]. cbn [fmap list_fmap concat]. by rewrite app_nil_r.
Qed.

(** C18: what a read of a USBTMC session does with the stream of bytes and ends
    of messages that the device's responses make.  A read that succeeds hands
    out the next bytes of the stream, up to the first termination character, up
    to [count] bytes or up to the end of a message, as its status says; its
    operation has that status and what follows is kept in order.  A read that
    fails hands out nothing; it keeps every byte it has accepted, and only a
    lost connection or a cancelled transfer (after which the device is told to
    abort) drop what was received. *)
Theorem usbtmc_read_contract op r :
  0 < count < 2 ^ 32 -> tmc_ok s0 -> fails_only op ->
  run_io (tmc_read_io count options) op s0 = Some r ->
  tmc_failed (mkReply (cr_status r) (cr_value r) (cr_data r)) (cr_backend r, cr_operation r) \/
  tmc_handed_out (mkReply (cr_status r) (cr_value r) (cr_data r)) (cr_backend r, cr_operation r).
Proof.
  intros Hcount (_ & _ & He) Hf.
  apply (run_io_holds _ _ _ _ (fun rp w => tmc_failed rp w \/ tmc_handed_out rp w)).
  unfold tmc_read_io. do 3 apply holds_bind, holds_gets.
  assert (forall status, status < VI_SUCCESS -> tmc_failed (status_only status) (s0, op)) as Hrefuse.
  { intros status Hst. split; [done|]. split; [done|]. split; [done|]. left. exists [], [], [].
    rewrite !app_nil_r. split; [done|]. split; [cbn; lia|]. split; [done|by left]. }
  repeat (case_match; [apply holds_return; left; by apply Hrefuse|]). cbn [fst snd] in *.
  destruct (completed op) eqn:Hdone.
  { apply holds_return_result. left. by apply Hrefuse, Hf. }
  apply holds_bind. eapply holds_mono; [by apply read_from_ahead_inv; [|lia|]|].
  intros [l w|? ?]; [|done]. intros Hinv. apply holds_bind.
  apply (holds_iter (fun x w => tmc_inv x.1 w)); [|done].
  clear l w Hinv. intros [l tag] w Hinv. eapply holds_mono; [by apply tmc_turn_spec|].
  intros [[[l' tag']|[l' e]] w'|? ?]; [done| |done].
  intros Hex. by apply tmc_read_end_spec.
Qed.

End reading.

(** ** Every call returns *)

Section termination.
  Context `{!UsbTransportLaws T H} (remaining : T -> Z -> nat) `{!UsbTransportTimed T H remaining}.

Abbreviation left_of w := (remaining (own_transport (S:=Session) (fst w))).
Abbreviation answers := (answers (H:=H) remaining).
Abbreviation onward := (onward (S:=Session) (H:=H) remaining).
Abbreviation in_time := (in_time (S:=Session) (H:=H) remaining turns).
Abbreviation total := (total (S:=Session) (H:=H) remaining turns).

Lemma answers_bulk_out d : answers (fun _ => True) (fun op => ut_bulk_out op d).
Proof.
  intros op t. destruct (ut_bulk_out_returns op d t) as (st & n & op' & t' & E & Hp). do 4 eexists.
  split; [exact E|]. split; [by eapply ut_bulk_out_later|done].
Qed.

Lemma answers_bulk_in n : answers are_bytes (fun op => ut_bulk_in op n).
Proof.
  intros op t. destruct (ut_bulk_in_returns op n t) as (st & d & op' & t' & E & Hp). do 4 eexists.
  split; [exact E|]. split; [by eapply ut_bulk_in_later|done].
Qed.

Lemma answers_control_in q n : answers are_bytes (fun op => ut_control_in op q n).
Proof.
  intros op t. destruct (ut_control_in_returns op q n t) as (st & d & op' & t' & E & Hp). do 4 eexists.
  split; [exact E|]. split; [by eapply ut_control_in_later|done].
Qed.

Lemma answers_interrupt_in n : answers are_bytes (fun op => ut_interrupt_in op n).
Proof.
  intros op t. destruct (ut_interrupt_in_returns op n t) as (st & d & op' & t' & E & Hp). do 4 eexists.
  split; [exact E|]. split; [by eapply ut_interrupt_in_later|done].
Qed.

Lemma answers_clear_halt e : answers (fun _ => True) (fun op => ut_clear_halt op e).
Proof.
  intros op t. destruct (ut_clear_halt_returns op e t) as (st & op' & t' & E & Hp). do 4 eexists.
  split; [exact E|]. split; [by eapply ut_clear_halt_later|done].
Qed.

#[local] Instance onward_steps : StepRelation onward.
Proof.
  split; first [apply _|intros].
  - by eapply onward_transfer, answers_bulk_out.
  - by eapply onward_transfer, answers_bulk_in.
  - by eapply onward_transfer, answers_control_in.
  - by eapply onward_transfer, answers_interrupt_in.
  - by eapply onward_transfer, answers_clear_halt.
  - intros w o. unfold clock_now. pose proof (ut_now_passes (own_transport w.1)) as Hp.
    destruct (ut_now _) as [now t']. intros [= <-]. split; [done|]. intros d. apply (Hp d).
  - intros w o. unfold request_timeout_io. pose proof (later_request_timeout w.2) as Hl.
    destruct (request_timeout w.2) as [[won hs] op']. intros [= <-]. split; [apply Hl|].
    intros d. apply ut_handlers_pass.
  - apply onward_complete.
  - by apply onward_under.
  - intros w o [= <-]. by apply onward_session.
  - intros w o [= <-]. by apply onward_session.
  - by apply onward_modify.
  - by apply onward_modify.
  - by apply onward_modify.
  - intros w o [= <-]. split; [done|]. intros d. apply ut_close_passes.
  - intros w o. unfold read_from_ahead. destruct (take_ahead _ _ _ _ _) as [[l ahead] e].
    intros [= <-]. by apply onward_session.
  - unfold tmc_consume. destruct (consume_bytes _ _ _ _ _) as [l' stored].
    apply steady_bind; [apply _|by apply onward_modify|]. intros _. apply steady_ret, _.
Qed.

Lemma total_typed {R A} timed (r : option (bool * A)) ok : typed r ok -> total timed (decoded (R:=R) r).
Proof. intros (accepted & a & -> & _) w _. by eexists. Qed.

Lemma onward_received {R X} f ok (call : Operation H -> T -> usb_call T H X) :
  answers ok call -> steady onward (received (R:=R) f call).
Proof. intros Hc. by eapply steps_received, onward_transfer; [apply _|]. Qed.

Lemma total_received {R X B} timed f ok (call : Operation H -> T -> usb_call T H X) (k : X -> IO R B) :
  answers ok call -> (forall x, ok x -> total timed (k x)) ->
  total timed (io_bind (received f call) k).
Proof.
  intros Hc Hk w Hw. pose proof (onward_received (R:=R) f ok call Hc w) as Hon.
  unfold received, transfer, io_bind in *.
  destruct (Hc w.2 (own_transport w.1)) as (st & x & op' & t' & E & _ & Hx & _). rewrite E in *.
  destruct (st <? VI_SUCCESS); [by eexists|]. apply Hk; [done|].
  intros Ht. eapply in_time_onward; [|by apply Hw]. apply (Hon _ eq_refl).
Qed.

Lemma ready_spec {R} w d :
  deadline_ w.2 = Some d ->
  exists ready w', operation_ready (R:=R) w = Some (Next ready w') /\ onward w w' /\
    (ready = true -> left_of w d ≠ 0%nat).
Proof.
  intros Hd.
  assert (exists ready w', operation_ready (R:=R) w = Some (Next ready w') /\
    (ready = true -> left_of w d ≠ 0%nat)) as (ready & w' & E & Hr).
  2:{ exists ready, w'. split; [done|]. split; [|done].
      apply (steps_operation_ready onward _ _ E). }
  unfold operation_ready, io_bind, operation_is, io_gets.
  destruct (completed w.2); [by do 2 eexists|]. rewrite Hd. unfold clock_now.
  pose proof (ut_now_passes (own_transport w.1) d) as [_ Hnow].
  destruct (ut_now _) as [now t']. cbn [fst] in Hnow.
  destruct (Z.leb_spec d now) as [Hle|Hgt].
  - unfold request_timeout_io. cbn [fst snd]. destruct (request_timeout w.2) as [[won hs] op']. by do 2 eexists.
  - do 2 eexists. split; [done|]. intros _ Hz. apply Hnow in Hz. lia.
Qed.

(** A loop that polls the device returns when each turn that goes on has a
    transfer that succeeds. *)
Definition spends {R A} (m : IO R A) : Prop := forall w a w' d,
  m w = Some (Next a w') -> (left_of w' d <= Nat.pred (left_of w d))%nat.

Lemma spends_received {R X A} f ok (call : Operation H -> T -> usb_call T H X) (k : X -> IO R A) :
  answers ok call -> (forall x, steady onward (k x)) -> spends (io_bind (received f call) k).
Proof.
  intros Hc Hk w a w' d. unfold received, transfer, io_bind.
  destruct (Hc w.2 (own_transport w.1)) as (st & x & op' & t' & -> & _ & _ & Hp).
  destruct (Z.ltb_spec st VI_SUCCESS) as [|Hst]; [done|]. intros Ho.
  destruct (Hk _ _ _ Ho) as [_ Hl]. specialize (Hl d). cbn [final fst own_with_transport tmc_owns] in Hl.
  specialize (Hp d). rewrite (proj2 (Z.leb_le _ _)) in Hp by done.
  etrans; [exact Hl|exact Hp].
Qed.

Lemma total_poll {R} (body : IO R unit) :
  steady onward body -> total true body -> spends body -> total true (poll body).
Proof.
  intros Hs Hbody Hsp w Hw. destruct (Hw eq_refl) as (d & Hd & Hlt). clear Hw. unfold poll.
  apply (iter_returns (fun _ w => deadline_ w.2 = Some d /\ (left_of w d < turns)%nat)
    (fun _ w => left_of w d)); [|done|done]. clear w Hd Hlt. intros _ w [Hd Hlt].
  destruct (ready_spec (R:=R) w d Hd) as (ready & w1 & Hr & Hon & Hz). unfold io_bind at 1. rewrite Hr.
  destruct ready; [|by eexists]. specialize (Hz eq_refl). destruct Hon as [Hd1 Hl1].
  assert (is_Some (body w1)) as [o Ho].
  { apply Hbody. intros _. exists d. split; [congruence|]. specialize (Hl1 d). lia. }
  unfold io_bind. rewrite Ho. destruct o as [[] w2|r w2]; [|by eexists]. eexists. split; [reflexivity|].
  specialize (Hsp _ _ _ d Ho). destruct (Hs _ _ Ho) as [Hd2 _]. cbn [final] in Hd2. specialize (Hl1 d).
  split; [split; [congruence|]|]; lia.
Qed.

(** *** The loop of a read *)

Section progress.
  Context (count : Z) (options : ReadOptions).

Lemma consume_bytes_grows bytes : forall l stored,
  (length (tl_collected l) <= length (tl_collected (consume_bytes count options bytes l stored).1))%nat.
Proof.
  induction bytes as [|b bytes IH]; intros l stored; cbn [consume_bytes]; [done|].
  destruct (_ || _); [apply IH|]. etrans; [|apply IH]. cbn. rewrite length_app. lia.
Qed.

Lemma consume_bytes_progress b bytes l stored :
  Z.of_nat (length (tl_collected l)) < count -> tl_found_termchar l = false ->
  (length (tl_collected l) <
   length (tl_collected (consume_bytes count options (b :: bytes) l stored).1))%nat.
Proof.
  intros Hl Hf. cbn [consume_bytes]. rewrite (proj2 (Z.eqb_neq _ _)) by lia. rewrite Hf. cbn [orb].
  eapply Nat.lt_le_trans; [|apply consume_bytes_grows]. cbn. rewrite length_app. cbn. lia.
Qed.

(** A turn that goes on has collected a byte, or the end of the message. *)
Definition progress (l l' : tmc_locals) : Prop :=
  Z.of_nat (length (tl_collected l)) < count /\ tl_end_of_message l = false /\
  ((length (tl_collected l) < length (tl_collected l'))%nat \/
   tl_end_of_message l' = true /\ tl_collected l' = tl_collected l).

Lemma tmc_turn_progress l tag w :
  holds (tmc_turn count options (l, tag)) w (fun o =>
    match o with Next (inl (l', _)) _ => progress l l' | _ => True end).
Proof.
  unfold tmc_turn. destruct (_ || _ || _) eqn:Hstop; [by apply holds_ret|].
  rewrite !orb_false_iff, negb_false_iff, Z.ltb_lt in Hstop. destruct Hstop as [[Hlt Hfound] Hnend].
  apply holds_bind. intros o1. cbn. intros [= <-].
  destruct (encode_request_dev_dep_msg_in _ _ _ _) as [request|]; [|by apply holds_ret].
  apply holds_bind. intros o2. unfold transfer.
  destruct (ut_bulk_out _ _ _) as [[[[status n] op2] t2]|]; [|done]. intros [= <-].
  destruct (_ || _); [by apply holds_ret|]. apply holds_bind, holds_gets. cbn zeta.
  apply holds_bind. intros o3. cbn [fst snd].
  destruct (ut_bulk_in _ _ _) as [[[[status' d] op3] t3]|]; [|done]. intros [= <-].
  destruct (status' <? VI_SUCCESS); [by apply holds_ret|]. destruct (_ =? _); [by apply holds_ret|].
  apply holds_bind. intros o4. unfold decoded.
  destruct (decode_dev_dep_msg_in _ _ _ _) as [[m|]|]; [| |done]; intros [= <-]; [|by apply holds_ret].
  destruct (bool_decide _ && _) eqn:Hnone; [by apply holds_ret|].
  apply holds_bind. unfold tmc_consume. destruct (consume_bytes _ _ _ _ _) as [l' stored] eqn:Hc.
  apply holds_bind, holds_modify, holds_ret. apply holds_ret. split; [done|]. split; [done|].
  cbn [tl_collected tl_end_of_message]. destruct (dd_payload m) as [|b payload].
  - cbn [consume_bytes] in Hc. injection Hc as <- <-. rewrite bool_decide_true in Hnone by done.
    cbn [andb] in Hnone. apply negb_false_iff in Hnone as ->. by right.
  - left. pose proof (consume_bytes_progress b payload l [] Hlt Hfound) as Hg. by rewrite Hc in Hg.
Qed.

End progress.

(** *** The member functions *)

#[local] Hint Resolve answers_bulk_out answers_bulk_in answers_control_in answers_interrupt_in
  answers_clear_halt : wrio.
#[local] Hint Resolve onward_steps steps_operation_ready sr_next_tag sr_next_status_tag sr_complete sr_clock sr_capabilities sr_clear_ahead
  sr_restore sr_mark_unusable sr_read_from_ahead sr_consume steps_while_ready steps_drain_bulk_in steps_drain_if steps_protocol_clear
  steps_abort_bulk_out steps_abort_bulk_in steps_recover steps_complete_or_result
  steps_ensure_capabilities steps_turn total_complete : wrio.

Ltac onwards := steady; try (by eapply onward_transfer; auto with wrio);
  try (by eapply onward_received; auto with wrio).

Ltac totally :=
  repeat first
    [ solve [auto with wrio]
    | (by intros ? _; eexists)
    | apply total_call
    | eapply total_transfer; solve [auto with wrio]
    | eapply total_received; [solve [auto with wrio]|intros ? ?]
    | apply total_bind; [solve [onwards]| |intros ?]
    | case_match ].

Lemma total_next_tag {R} timed : total timed (next_tag (R:=R)).
Proof. intros w _. unfold next_tag, io_bind, get, io_gets. by eexists. Qed.

Lemma total_next_status_tag {R} timed : total timed (next_status_tag (R:=R)).
Proof. intros w _. unfold next_status_tag, io_bind, get, io_gets. by eexists. Qed.

Lemma total_read_from_ahead {R} timed count options :
  total timed (read_from_ahead (R:=R) count options).
Proof.
  intros w _. unfold read_from_ahead. destruct (take_ahead _ _ _ _ _) as [[l ahead] ends]. by eexists.
Qed.
#[local] Hint Resolve total_next_tag total_next_status_tag total_read_from_ahead : wrio.

Lemma total_while_ready f call (k : list Z -> IO Z unit) :
  answers are_bytes call -> (forall x, steady onward (k x)) ->
  (forall x, are_bytes x -> total true (k x)) ->
  total true (while_ready (io_bind (received f call) k)).
Proof.
  intros Hc Hs Hk. assert (steady onward (io_bind (received f call) k)) as Hbody.
  { apply steady_bind; [apply _|by eapply onward_received|done]. }
  unfold while_ready. apply total_bind; [|apply total_poll|intros _; totally].
  - unfold poll. onwards.
  - exact Hbody.
  - by eapply total_received.
  - by eapply spends_received.
Qed.

Lemma total_drain : total true drain_bulk_in.
Proof.
  unfold drain_bulk_in. do 2 (apply total_bind; [onwards|totally|intros ?]). case_match; [totally|].
  apply total_while_ready; [auto with wrio|intros; onwards|intros; totally].
Qed.
#[local] Hint Resolve total_drain : wrio.

Lemma total_drain_if fifo : total true (drain_if fifo).
Proof. unfold drain_if. totally. Qed.
#[local] Hint Resolve total_drain_if : wrio.

Lemma is_byte_0 : is_byte 0.
Proof. unfold is_byte. lia. Qed.
#[local] Hint Resolve is_byte_0 split_of_status_ok initiate_clear_typed initiate_abort_typed
  check_clear_typed check_abort_bulk_out_typed check_abort_bulk_in_typed : wrio.

Lemma total_decoded {R A B} timed (r : option (bool * A)) ok (k : bool * A -> IO R B) :
  typed r ok -> (forall d, total timed (k d)) -> total timed (io_bind (decoded r) k).
Proof. intros Hr Hk. apply total_bind; [onwards|by eapply total_typed|done]. Qed.

Ltac totally_decoded :=
  repeat first
    [ solve [totally]
    | eapply total_decoded; [solve [auto with wrio]|intros ?]
    | eapply total_received; [solve [auto with wrio]|intros ? ?]
    | apply total_while_ready; [solve [auto with wrio]|intros; onwards; fail|intros ? ?]
    | apply total_bind; [solve [onwards]| |intros ?]
    | case_match ].

Lemma steps_clear_bulk_out : steady onward clear_bulk_out.
Proof. unfold clear_bulk_out. onwards. Qed.
#[local] Hint Resolve steps_clear_bulk_out : wrio.

Lemma total_clear_bulk_out : total true clear_bulk_out.
Proof. unfold clear_bulk_out. totally. Qed.
#[local] Hint Resolve total_clear_bulk_out : wrio.

Lemma total_protocol_clear : total true protocol_clear.
Proof. unfold protocol_clear. totally_decoded. Qed.
#[local] Hint Resolve total_protocol_clear : wrio.

Lemma steps_initiate_abort request tag endpoint : steady onward (initiate_abort request tag endpoint).
Proof. unfold initiate_abort. onwards. Qed.
#[local] Hint Resolve steps_initiate_abort : wrio.

Lemma total_abort_bulk_out tag : total true (abort_bulk_out tag).
Proof. unfold abort_bulk_out, initiate_abort. totally_decoded. Qed.
#[local] Hint Resolve total_abort_bulk_out : wrio.

Lemma total_abort_bulk_in tag : total true (abort_bulk_in tag).
Proof. unfold abort_bulk_in, initiate_abort. totally_decoded. Qed.
#[local] Hint Resolve total_abort_bulk_in : wrio.

Lemma total_ensure_capabilities timed : total timed ensure_capabilities.
Proof.
  unfold ensure_capabilities. do 2 (try (apply total_bind; [onwards|totally|intros ?])).
  case_match; [totally|]. do 2 (apply total_bind; [onwards|totally|intros ?]). case_match; [totally|].
  eapply total_received; [auto with wrio|]. intros response Hb.
  apply total_bind; [onwards| |intros; totally].
  destruct (decode_capabilities_spec response true (mkCapabilities 0 false false false false) Hb)
    as (accepted & caps & -> & _). intros w _. by eexists.
Qed.
#[local] Hint Resolve total_ensure_capabilities : wrio.

Lemma total_await_status_byte tag : total true (await_status_byte tag).
Proof.
  assert (byte_pair (0, 0)) as Hz by by split; apply is_byte_0.
  unfold await_status_byte. apply total_bind; [unfold poll; onwards|apply total_poll|intros ?; totally].
  - onwards.
  - eapply total_received; [auto with wrio|]. intros response Hb.
    eapply total_decoded; [by apply interrupt_status_byte_typed|]. intros [accepted [rt sb]]. totally.
  - eapply spends_received; [auto with wrio|]. intros response. onwards.
Qed.
#[local] Hint Resolve total_await_status_byte : wrio.

Lemma total_read_stb present : total true (tmc_read_stb_io present).
Proof.
  assert (byte_pair (0, 0)) as Hz by by split; apply is_byte_0.
  unfold tmc_read_stb_io. apply total_bind; [onwards|totally|intros ?].
  do 2 (case_match; [totally|]). apply total_bind; [onwards|totally|intros ?]. case_match; [totally|].
  apply total_bind; [auto with wrio|totally|intros tag]. apply total_bind; [onwards|totally|intros interface].
  eapply total_received; [auto with wrio|]. intros response Hb. cbn zeta.
  eapply total_decoded; [by apply read_status_byte_typed|]. intros [accepted [ds sb]]. totally.
Qed.

Section with_recovery.
  Hypothesis recovery_fits : forall t,
    (remaining (ut_now t).2 ((ut_now t).1 + kRecoveryTimeout)%Z < turns)%nat.

Lemma total_under_recovery {R} timed m : total true m -> total timed (under_recovery (R:=R) m).
Proof.
  intros Hm w _. unfold under_recovery, io_bind, clock_now.
  pose proof (recovery_fits (own_transport w.1)) as Hfit. destruct (ut_now _) as [now t'] eqn:E.
  cbn [fst snd] in Hfit. unfold under, io_call. cbn [fst snd].
  destruct (Hm (own_with_transport t' w.1, new_operation kRecoveryTimeout now)) as [[a w'|a w'] ->];
    [intros _; exists (now + kRecoveryTimeout); done|by eexists|by eexists].
Qed.
#[local] Hint Resolve total_under_recovery : wrio.

Lemma onward_under_recovery {R} m : steady onward m -> steady onward (under_recovery (R:=R) m).
Proof. apply steps_under_recovery. apply _. Qed.
#[local] Hint Resolve onward_under_recovery : wrio.

Lemma total_recover {R} timed bulk_in tag : total timed (recover_cancelled_transfer (R:=R) bulk_in tag).
Proof. unfold recover_cancelled_transfer. destruct bulk_in; totally. Qed.
#[local] Hint Resolve total_recover : wrio.

Lemma total_complete_or_result {R} timed status : total timed (complete_or_result (R:=R) status).
Proof. unfold complete_or_result. totally. Qed.
#[local] Hint Resolve total_complete_or_result : wrio.

Lemma total_turn timed count options x : total timed (tmc_turn count options x).
Proof.
  unfold tmc_turn. destruct x as [l tag]. destruct (_ || _ || _); [totally|]. cbn zeta.
  apply total_bind; [onwards|totally|intros a]. case_match; [|totally].
  apply total_bind; [onwards|totally|intros [status n]]. destruct (_ || _); [totally|].
  apply total_bind; [onwards|totally|intros a0].
  intros w _. unfold io_bind at 1, transfer.
  destruct (answers_bulk_in (kHeaderSize + (count - Z.of_nat (length (tl_collected l)))
    + ui_bulk_in_max_packet_size a0) w.2 (own_transport w.1)) as (st & d & op' & t' & -> & _ & Hb & _).
  case_match; [by eexists|]. case_match; [by eexists|].
  unfold io_bind at 1, decoded, decode_dev_dep_msg_in.
  destruct (decode_message_spec d kDevDepMsgIn a (count - Z.of_nat (length (tl_collected l)))
    (ui_bulk_in_max_packet_size a0 - 1) false Hb) as (r & -> & _).
  destruct r; [|by eexists]. case_match; [by eexists|]. unfold tmc_consume, io_bind, modify.
  destruct (consume_bytes _ _ _ _ _). by eexists.
Qed.

Lemma total_read_loop count options l tag w :
  is_Some (io_iter (tmc_read_fuel count) (tmc_turn count options) (l, tag) w).
Proof.
  apply (iter_returns (fun _ _ => True)
    (fun x _ => Z.to_nat (count - Z.of_nat (length (tl_collected x.1))) +
      if tl_end_of_message x.1 then 0 else 1)%nat); [|done|].
  2:{ unfold tmc_read_fuel. cbn [fst]. destruct (tl_end_of_message l); lia. }
  clear l tag w. intros [l tag] w _. destruct (total_turn false count options (l, tag) w ltac:(done)) as [o Ho].
  exists o. split; [done|]. pose proof (tmc_turn_progress count options l tag w o Ho) as Hp.
  destruct o as [[[l' tag']|y] w'|r w']; [|done|done]. split; [done|]. cbn [fst].
  destruct Hp as (Hlt & -> & [Hg|[-> ->]]); destruct (tl_end_of_message l'); lia.
Qed.

(** Every call of a USBTMC session returns when the transport's calls do
    and time passes: the loop of a read turns at most [count + 1] times, since
    each turn that goes on collects a byte or the end of the message, and the
    loops that poll the device during a clear, a recovery or a wait for the
    status byte end with the transfers that fit before their deadline, however
    the device answers; no decoder reads beyond the bytes it is given. *)
Theorem usbtmc_calls_return c ro wo op s :
  (c = IoClear \/ (exists present, c = IoReadStb present) -> in_time (s, op)) ->
  is_Some (backend_call c ro wo op s).
Proof.
  intros Htime.
  assert (forall timed m, total timed m -> (timed = true -> in_time (s, op)) -> is_Some (run_io m op s)) as Hrun.
  { intros timed m Hm Ht. unfold run_io. destruct (Hm (s, op) Ht) as [[r [b' op']|r [b' op']] ->]; by eexists. }
  destruct c as [count|buffer| |mask|present|protocol|? ? ? ? ? ?]; cbn [backend_call].
  - apply (Hrun false); [|done]. unfold tmc_read_io. do 3 (apply total_bind; [onwards|totally|intros ?]).
    repeat (case_match; [totally|]). apply total_bind; [onwards|totally|intros l].
    apply total_bind; [onwards| |intros [l' e]].
    + intros w _. apply total_read_loop.
    + unfold tmc_read_end. totally.
  - apply (Hrun false); [|done]. unfold tmc_write_io. totally.
  - apply (Hrun true); [|auto]. unfold tmc_clear_io. totally.
  - cbn. unfold forward. destruct (tmc_flush mask s) as [[st v] s']. by eexists.
  - apply (Hrun true); [|eauto]. by apply total_read_stb.
  - apply (Hrun false); [|done]. unfold tmc_assert_trigger_io. totally.
  - by eexists.
Qed.

End with_recovery.

End termination.

End tmc.

(** ** Witnesses and a counterexample *)

Definition tmc_interface : UsbInterfaceInfo := mkUsbInterfaceInfo 0 0x01 0x81 0 64 true 0 0.

(** A session at a device that will give these answers. *)
Definition tmc_at (bulk control : list (list Z)) (ahead : list Z) (ends : bool)
  : UsbTmcBackendSession usb_script :=
  mkUsbTmc (mkUsbScript tmc_interface bulk control [] 0) tmc_interface ahead ends false false true 1 2.

Definition pending_operation : Operation unit := mkOperation kPending (Some 100) None.


Definition abc_response : list Z := message_bytes kDevDepMsgIn (mkDevDepMessage 1 true [65; 66; 10; 67]).

Lemma usbtmc_read_contract_witness :
  let _ := @script_usb unit in
  let wire t := snd <$> us_seen t in
  let options := mkReadOptions true 10 in
  let s := tmc_at [abc_response] [] [] false in
  exists r, run_io (tmc_read_io 501 8 options) pending_operation s = Some r /\
    cr_data r = [65; 66; 10] /\ tmc_ahead (cr_backend r) = [Some 67; None] /\
    (tmc_failed wire s (mkReply (cr_status r) (cr_value r) (cr_data r)) (cr_backend r, cr_operation r) \/
     tmc_handed_out 8 options wire s (mkReply (cr_status r) (cr_value r) (cr_data r))
       (cr_backend r, cr_operation r)).
Proof.
  intros tr wire options s.
  destruct (run_io (tmc_read_io 501 8 options) pending_operation s) as [r|] eqn:Hr;
    [|vm_compute in Hr; discriminate].
  exists r. split; [done|]. assert (Hr' := Hr). vm_compute in Hr'. injection Hr' as <-.
  split; [reflexivity|]. split; [reflexivity|].
  apply (@usbtmc_read_contract _ _ tr 501 8 options wire) with (op := pending_operation).
  - intros op n t status d op' t' E. destruct (script_bulk_spec _ _ _ _ _ _ _ E) as (-> & Hd & _ & Hs).
    split; [|done]. unfold wire. rewrite Hs, fmap_app. by destruct (status <? VI_SUCCESS).
  - intros op d t status n op' t' [= <- <- <- <-]. done.
  - lia.
  - split; [cbn; lia|]. split; [cbn; lia|done].
  - done.
  - exact Hr.
Defined.

Lemma usbtmc_calls_return_witness :
  let _ := @script_usb unit in
  is_Some (@backend_call _ _ (tmc_backend 501) IoClear (mkReadOptions false 0) (mkWriteOptions true)
    pending_operation (tmc_at [] [[1]; [2; 0]; [2; 0]; [1; 0]] [65] false)).
Proof.
  intros tr. apply (@usbtmc_calls_return _ _ tr 501 _ script_remaining _).
  - intros t. unfold script_remaining. cbn. unfold kRecoveryTimeout. lia.
  - intros _. exists 100. split; [done|]. vm_compute. lia.
Defined.

(** A cancelled read puts the bytes of a complete message back, but not its END
    mark: the next read waits for more although the message had ended. *)
Lemma usbtmc_cancelled_read_loses_end :
  let _ := @script_usb unit in
  let options := mkReadOptions false 0 in
  let cancelled_operation := mkOperation (H := unit) VI_ERROR_ABORT None None in
  let s := tmc_at [] [[1; 1]; [1]; [1; 0]] [65; 66] true in
  let read op s := run_io (tmc_read_io 501 8 options) op s in
  (cr_data <$> read pending_operation s) = Some [65; 66] /\
  let during := tmc_read_end 501 (mkTmcLocals [65; 66] true false) (mkTmcExit VI_SUCCESS false false 0)
                  VI_SUCCESS (tmc_clear_ahead s, cancelled_operation) in
  ((fun o => (ut_read_ahead (final o).1, ut_read_ahead_ends_message (final o).1)) <$> during) =
    Some ([65; 66], false) /\
  (cr_status <$> (o ← during; read pending_operation (final o).1)) = Some VI_ERROR_TMO.
Proof. vm_compute. repeat split; reflexivity. Qed.
