(* ===== verification/ResourceManager.v ===== *)
(** * Resource managers and find lists: [core/objects.{h,cpp}]

    The classes [ResourceManager] and [FindListObject].  A GPIB provider is
    kept, never looked into, so its type is a parameter; the ports and the GPIB
    and USB resources found on the platform are arguments of the constructor. *)

From stdpp Require Import sorting.
From S2P Require Import Prelude Visa CText ResourceParser.

(** ** Names *)

Definition folded_name (value : str) : str := upper value.

Definition alias_character (c : ascii) : bool :=
  isalnum c || (c =? "_")%char || (c =? "-")%char || (c =? ".")%char.

Definition valid_alias (alias : str) : bool :=
  if bool_decide (alias = []) || (VI_FIND_BUFLEN <=? Z.of_nat (length alias))
     || bool_decide (is_Some (parse_resource alias))
  then false
  else forallb alias_character alias.

(** [std::string::operator<], which compares unsigned characters. *)
Fixpoint str_leb (a b : str) : bool :=
  match a, b with
  | [], _ => true
  | _ :: _, [] => false
  | x :: a, y :: b => (uchar x <? uchar y) || ((uchar x =? uchar y) && str_leb a b)
  end.

Definition str_le (a b : str) : Prop := str_leb a b = true.

#[global] Instance str_le_dec a b : Decision (str_le a b).
Proof. unfold str_le. apply _. Defined.

(** [std::unique] followed by [erase]. *)
Fixpoint unique {A} `{EqDecision A} (l : list A) : list A :=
  match l with
  | x :: (y :: _) as tail => if bool_decide (x = y) then unique tail else x :: unique tail
  | _ => l
  end.

(** ** Data *)

Inductive UsbTransferType := transfer_none | transfer_bulk | transfer_interrupt.

#[global] Instance UsbTransferType_eq_dec : EqDecision UsbTransferType.
Proof. solve_decision. Defined.

Record UsbRawConfiguration := mkUsbRawConfiguration {
  raw_alternate_setting : Z;
  raw_read_transfer_type : UsbTransferType;
  raw_read_endpoint : Z;
  raw_write_transfer_type : UsbTransferType;
  raw_write_endpoint : Z }.

Definition TcpipProtocol_code (p : TcpipProtocol) : Z :=
  match p with tp_none => 0 | tp_vxi11 => 1 | tp_hislip => 2 | tp_unsupported => 3 end.

#[global] Program Instance TcpipProtocol_countable : Countable TcpipProtocol :=
  inj_countable' TcpipProtocol_code
    (fun z => if z =? 0 then tp_none else if z =? 1 then tp_vxi11
              else if z =? 2 then tp_hislip else tp_unsupported) _.
Next Obligation. by intros []. Qed.

Record AliasEntry := mkAliasEntry { ae_display_name : str; ae_resource : ResourceDescriptor }.

Record ResolvedResource := mkResolvedResource {
  rr_descriptor : ResourceDescriptor;
  rr_alias : str }.

Section manager.
  Context {Provider : Type}.

Record ResourceManager := mkResourceManager {
  children_ : gset Z;
  serial_paths_ : gmap Z str;
  gpib_resources_ : list str;
  gpib_providers_ : gmap Z Provider;
  usb_resources_ : list str;
  tcpip_service_ports_ : gmap (str * TcpipProtocol) Z;
  aliases_ : gmap str AliasEntry;
  aliases_by_resource_ : gmap str str;
  usb_raw_configurations_ : gmap str UsbRawConfiguration;
  rm_closed_ : bool }.

(** The results of [discover_serial_ports], [discover_gpib_resources] and
    [discover_usb_resources]. *)
Definition new_resource_manager (serial : gmap Z str) (gpib usb : list str) : ResourceManager :=
  mkResourceManager ∅ serial gpib ∅ usb ∅ ∅ ∅ ∅ false.

Definition with_children (children : gset Z) (closed : bool) (rm : ResourceManager)
  : ResourceManager :=
  mkResourceManager children (serial_paths_ rm) (gpib_resources_ rm) (gpib_providers_ rm)
    (usb_resources_ rm) (tcpip_service_ports_ rm) (aliases_ rm) (aliases_by_resource_ rm)
    (usb_raw_configurations_ rm) closed.

(** ** Children *)

Definition add_child (child : Z) (rm : ResourceManager) : bool * ResourceManager :=
  if rm_closed_ rm then (false, rm)
  else (true, with_children ({[child]} ∪ children_ rm) (rm_closed_ rm) rm).

Definition remove_child (child : Z) (rm : ResourceManager) : ResourceManager :=
  with_children (children_ rm ∖ {[child]}) (rm_closed_ rm) rm.

Definition take_children (rm : ResourceManager) : list Z * ResourceManager :=
  (elements (children_ rm), with_children ∅ true rm).

(** ** Configuration *)

Definition set_serial_path (interface_number : Z) (path : str) (rm : ResourceManager)
  : bool * ResourceManager :=
  if rm_closed_ rm || bool_decide (path = []) then (false, rm)
  else (true, mkResourceManager (children_ rm) (<[interface_number := path]> (serial_paths_ rm))
          (gpib_resources_ rm) (gpib_providers_ rm) (usb_resources_ rm)
          (tcpip_service_ports_ rm) (aliases_ rm) (aliases_by_resource_ rm)
          (usb_raw_configurations_ rm) (rm_closed_ rm)).

Definition serial_path (interface_number : Z) (rm : ResourceManager) : option str :=
  if rm_closed_ rm then None else serial_paths_ rm !! interface_number.

(** [provider = None] is the null pointer. *)
Definition set_gpib_provider (board : Z) (provider : option Provider) (rm : ResourceManager)
  : bool * ResourceManager :=
  match provider with
  | None => (false, rm)
  | Some p =>
      if rm_closed_ rm then (false, rm)
      else (true, mkResourceManager (children_ rm) (serial_paths_ rm) (gpib_resources_ rm)
              (<[board := p]> (gpib_providers_ rm)) (usb_resources_ rm)
              (tcpip_service_ports_ rm) (aliases_ rm) (aliases_by_resource_ rm)
              (usb_raw_configurations_ rm) (rm_closed_ rm))
  end.

Definition gpib_provider (board : Z) (rm : ResourceManager) : option Provider :=
  if rm_closed_ rm then None else gpib_providers_ rm !! board.

Definition set_tcpip_service_port (host : str) (protocol : TcpipProtocol) (port : Z)
    (rm : ResourceManager) : bool * ResourceManager :=
  if rm_closed_ rm || bool_decide (host = []) || (port =? 0)
     || bool_decide (protocol = tp_none) || bool_decide (protocol = tp_unsupported)
  then (false, rm)
  else (true, mkResourceManager (children_ rm) (serial_paths_ rm) (gpib_resources_ rm)
          (gpib_providers_ rm) (usb_resources_ rm)
          (<[(host, protocol) := port]> (tcpip_service_ports_ rm)) (aliases_ rm)
          (aliases_by_resource_ rm) (usb_raw_configurations_ rm) (rm_closed_ rm)).

Definition tcpip_service_port (host : str) (protocol : TcpipProtocol) (rm : ResourceManager)
  : option Z :=
  if rm_closed_ rm then None else tcpip_service_ports_ rm !! (host, protocol).

Definition set_usb_raw_configuration (resource : str) (configuration : UsbRawConfiguration)
    (rm : ResourceManager) : bool * ResourceManager :=
  if rm_closed_ rm then (false, rm)
  else (true, mkResourceManager (children_ rm) (serial_paths_ rm) (gpib_resources_ rm)
          (gpib_providers_ rm) (usb_resources_ rm) (tcpip_service_ports_ rm) (aliases_ rm)
          (aliases_by_resource_ rm)
          (<[resource := configuration]> (usb_raw_configurations_ rm)) (rm_closed_ rm)).

Definition usb_raw_configuration (resource : str) (rm : ResourceManager)
  : option UsbRawConfiguration :=
  if rm_closed_ rm then None else usb_raw_configurations_ rm !! resource.

(** ** Aliases *)

Definition resource_key (d : ResourceDescriptor) : str := folded_name (rd_canonical_name d).

Definition with_aliases (aliases : gmap str AliasEntry) (by_resource : gmap str str)
    (rm : ResourceManager) : ResourceManager :=
  mkResourceManager (children_ rm) (serial_paths_ rm) (gpib_resources_ rm)
    (gpib_providers_ rm) (usb_resources_ rm) (tcpip_service_ports_ rm) aliases by_resource
    (usb_raw_configurations_ rm) (rm_closed_ rm).

Definition set_resource_alias (alias : str) (resource : ResourceDescriptor)
    (rm : ResourceManager) : bool * ResourceManager :=
  if negb (valid_alias alias) then (false, rm)
  else
    let alias_key := folded_name alias in
    let key := resource_key resource in
    if rm_closed_ rm then (false, rm)
    else
      let by_resource :=
        match aliases_ rm !! alias_key with
        | Some old => delete (resource_key (ae_resource old)) (aliases_by_resource_ rm)
        | None => aliases_by_resource_ rm
        end in
      let aliases :=
        match by_resource !! key with
        | Some old => delete old (aliases_ rm)
        | None => aliases_ rm
        end in
      (true, with_aliases (<[alias_key := mkAliasEntry alias resource]> aliases)
               (<[key := alias_key]> by_resource) rm).

Definition resolve_resource (name : str) (rm : ResourceManager) : option ResolvedResource :=
  match parse_resource name with
  | Some direct =>
      if rm_closed_ rm then None
      else
        let alias :=
          match aliases_by_resource_ rm !! resource_key direct with
          | Some key => match aliases_ rm !! key with
                        | Some found => ae_display_name found
                        | None => []
                        end
          | None => []
          end in
        Some (mkResolvedResource direct alias)
  | None =>
      if rm_closed_ rm then None
      else match aliases_ rm !! folded_name name with
           | Some found => Some (mkResolvedResource (ae_resource found) (ae_display_name found))
           | None => None
           end
  end.

(** ** Discovery *)

Definition serial_resource (number : Z) : str := lit "ASRL" ++ to_string number ++ lit "::INSTR".

Definition discoverable_resources (rm : ResourceManager) : list str :=
  if rm_closed_ rm then []
  else
    let resources := (serial_resource <$> (map_to_list (serial_paths_ rm)).*1)
                     ++ gpib_resources_ rm ++ usb_resources_ rm in
    unique (merge_sort str_le resources).

End manager.

Arguments ResourceManager Provider : clear implicits.

(** ** Find lists *)

(** [parent_] is a weak pointer: the identity of the manager object. *)
Record FindListObject := mkFindList {
  fl_parent : nat;
  fl_parent_handle : Z;
  fl_handle : Z;
  fl_matches : list str;
  fl_index : nat;
  fl_closed : bool }.

Definition new_find_list (parent : nat) (parent_handle : Z) (matches : list str) : FindListObject :=
  mkFindList parent parent_handle VI_NULL matches 1 false.

Definition find_list_next (fl : FindListObject) : option str * FindListObject :=
  if fl_closed fl || Nat.leb (length (fl_matches fl)) (fl_index fl) then (None, fl)
  else (fl_matches fl !! fl_index fl,
        mkFindList (fl_parent fl) (fl_parent_handle fl) (fl_handle fl) (fl_matches fl)
          (S (fl_index fl)) (fl_closed fl)).

(** [close], without the removal from the parent. *)
Definition find_list_close (fl : FindListObject) : FindListObject :=
  mkFindList (fl_parent fl) (fl_parent_handle fl) (fl_handle fl) [] (fl_index fl) true.

(** Repeated [next] calls until one fails, [fuel] times at most. *)
Fixpoint find_list_drain (fuel : nat) (fl : FindListObject) : list str * FindListObject :=
  match fuel with
  | O => ([], fl)
  | S fuel =>
      match find_list_next fl with
      | (Some name, fl') =>
          let '(names, fl'') := find_list_drain fuel fl' in (name :: names, fl'')
      | (None, fl') => ([], fl')
      end
  end.

(** ** Sequences of calls on a manager *)

Inductive rm_call (Provider : Type) :=
| RmAddChild (child : Z)
| RmRemoveChild (child : Z)
| RmTakeChildren
| RmSetSerialPath (interface_number : Z) (path : str)
| RmSetGpibProvider (board : Z) (provider : option Provider)
| RmSetTcpipServicePort (host : str) (protocol : TcpipProtocol) (port : Z)
| RmSetUsbRawConfiguration (resource : str) (configuration : UsbRawConfiguration)
| RmSetResourceAlias (alias : str) (resource : ResourceDescriptor).
Arguments RmAddChild {_} _.
Arguments RmRemoveChild {_} _.
Arguments RmTakeChildren {_}.
Arguments RmSetSerialPath {_} _ _.
Arguments RmSetGpibProvider {_} _ _.
Arguments RmSetTcpipServicePort {_} _ _ _.
Arguments RmSetUsbRawConfiguration {_} _ _.
Arguments RmSetResourceAlias {_} _ _.

Section proofs.
Context {Provider : Type}.
Implicit Types rm : ResourceManager Provider.

Definition rm_apply (c : rm_call Provider) rm : ResourceManager Provider :=
  match c with
  | RmAddChild child => (add_child child rm).2
  | RmRemoveChild child => remove_child child rm
  | RmTakeChildren => (take_children rm).2
  | RmSetSerialPath n path => (set_serial_path n path rm).2
  | RmSetGpibProvider board provider => (set_gpib_provider board provider rm).2
  | RmSetTcpipServicePort host protocol port => (set_tcpip_service_port host protocol port rm).2
  | RmSetUsbRawConfiguration resource c => (set_usb_raw_configuration resource c rm).2
  | RmSetResourceAlias alias resource => (set_resource_alias alias resource rm).2
  end.

(** ** The two alias maps *)

(** They are each other's inverse. *)
Definition aliases_ok (aliases : gmap str AliasEntry) (by_resource : gmap str str) : Prop :=
  (forall k e, aliases !! k = Some e ->
     k = folded_name (ae_display_name e) /\ valid_alias (ae_display_name e) = true /\
     by_resource !! resource_key (ae_resource e) = Some k) /\
  (forall r k, by_resource !! r = Some k ->
     exists e, aliases !! k = Some e /\ resource_key (ae_resource e) = r).

Definition rm_ok rm : Prop := aliases_ok (aliases_ rm) (aliases_by_resource_ rm).

Lemma set_resource_alias_ok alias resource rm :
  rm_ok rm -> rm_ok (set_resource_alias alias resource rm).2.
Proof.
  intros [H1 H2]. unfold set_resource_alias.
  destruct (valid_alias alias) eqn:Hv; [|done]. simpl. case_match; [done|].
  set (alias_key := folded_name alias). set (key := resource_key resource).
  set (by_resource := match aliases_ rm !! alias_key with Some old => _ | None => _ end).
  set (aliases := match by_resource !! key with Some old => _ | None => _ end).
  assert (forall r k, by_resource !! r = Some k <->
    aliases_by_resource_ rm !! r = Some k /\ k ≠ alias_key) as Hby.
  { intros r k. subst by_resource. destruct (aliases_ rm !! alias_key) as [old|] eqn:Hold.
    - rewrite lookup_delete_Some. split.
      + intros [Ha Hb]. split; [done|]. intros ->. apply H2 in Hb as (e & He & <-).
        rewrite Hold in He. by simplify_eq.
      + intros [Hr Hk]. split; [|done]. intros <-. apply H1 in Hold as (_ & _ & Hr2).
        rewrite Hr in Hr2. by simplify_eq.
    - split; [|by intros [? _]]. intros Hr. split; [done|]. intros ->.
      apply H2 in Hr as (e & He & _). by rewrite Hold in He. }
  assert (forall k e, k ≠ alias_key -> (aliases !! k = Some e <->
    aliases_ rm !! k = Some e /\ resource_key (ae_resource e) ≠ key)) as Hal.
  { intros k e Hk. subst aliases. destruct (by_resource !! key) as [old|] eqn:Hold.
    - apply Hby in Hold as [Hold _]. rewrite lookup_delete_Some. split.
      + intros [Ha Hb]. split; [done|]. intros Heq. apply H1 in Hb as (_ & _ & Hb).
        rewrite Heq, Hold in Hb. by simplify_eq.
      + intros [Ha Hb]. split; [|done]. intros ->. apply H2 in Hold as (e2 & He2 & Hk2).
        rewrite Ha in He2. by simplify_eq.
    - split; [|by intros [? _]]. intros He. split; [done|]. intros Heq.
      apply H1 in He as (_ & _ & He). rewrite Heq in He.
      assert (by_resource !! key = Some k) as Hk2 by (by apply Hby). by rewrite Hold in Hk2. }
  split.
  - intros k e. simpl. rewrite lookup_insert. case_decide as Hk.
    + intros [= <-]. simpl. subst k. split; [done|]. split; [done|]. by rewrite lookup_insert_eq.
    + intros He. apply Hal in He as [He Hne]; [|done]. apply H1 in He as (-> & ? & Hr).
      split; [done|]. split; [done|]. rewrite lookup_insert_ne by done. by apply Hby.
  - intros r k. simpl. rewrite lookup_insert. case_decide as Hr.
    + intros [= <-]. eexists. rewrite lookup_insert_eq. split; [done|]. by subst r.
    + intros Hk. apply Hby in Hk as [Hk Hne]. apply H2 in Hk as (e & He & <-).
      exists e. split; [|done]. rewrite lookup_insert_ne by done. apply Hal; [done|].
      by split.
Qed.

Lemma rm_apply_ok c rm : rm_ok rm -> rm_ok (rm_apply c rm).
Proof.
  intros Hok. destruct c as [child|child| |n path|board [p|]|host protocol port|resource config
    |alias resource]; simpl; try done; try by apply set_resource_alias_ok.
  all: unfold add_child, set_serial_path, set_tcpip_service_port, set_usb_raw_configuration;
    case_match; done.
Qed.

Lemma rm_run_ok calls serial gpib usb :
  rm_ok (fold_right rm_apply (new_resource_manager serial gpib usb) calls).
Proof.
  induction calls as [|c calls IH]; simpl; [|by apply rm_apply_ok].
  split; intros k e He; simpl in He; by rewrite lookup_empty in He.
Qed.

(** ** The order of discovery *)

#[export] Instance str_le_total : Total str_le.
Proof.
  intros a. unfold str_le. induction a as [|x a IH]; intros [|y b]; simpl; auto.
  destruct (Z.ltb_spec (uchar x) (uchar y)), (Z.ltb_spec (uchar y) (uchar x)); auto.
  assert (uchar x = uchar y) as -> by lia. rewrite Z.eqb_refl. apply IH.
Qed.

#[export] Instance str_le_trans : Transitive str_le.
Proof.
  intros a. unfold str_le. induction a as [|x a IH]; intros [|y b] [|z c]; simpl; auto; try done.
  destruct (Z.ltb_spec (uchar x) (uchar y)), (Z.ltb_spec (uchar y) (uchar z)),
    (Z.ltb_spec (uchar x) (uchar z)), (Z.eqb_spec (uchar x) (uchar y)),
    (Z.eqb_spec (uchar y) (uchar z)), (Z.eqb_spec (uchar x) (uchar z)); simpl; auto; try lia.
  apply IH.
Qed.

#[export] Instance str_le_antisym : AntiSymm eq str_le.
Proof.
  intros a. unfold str_le. induction a as [|x a IH]; intros [|y b]; simpl; auto; try done.
  destruct (Z.ltb_spec (uchar x) (uchar y)), (Z.ltb_spec (uchar y) (uchar x)),
    (Z.eqb_spec (uchar x) (uchar y)), (Z.eqb_spec (uchar y) (uchar x)); simpl; try done; try lia.
  intros Hab Hba. f_equal; [by apply uchar_inj|by apply IH].
Qed.

Lemma unique_elem {A} `{EqDecision A} (l : list A) x : x ∈ unique l <-> x ∈ l.
Proof.
  induction l as [|y [|z l] IH]; [done|done|].
  change (unique (y :: z :: l)) with (if bool_decide (y = z) then unique (z :: l)
    else y :: unique (z :: l)).
  case_bool_decide as Heq; [rewrite IH; subst; set_solver|].
  rewrite !elem_of_cons, IH, elem_of_cons. done.
Qed.

Definition str_lt (a b : str) : Prop := str_le a b /\ a ≠ b.

Lemma unique_strict {A} `{EqDecision A} (R : relation A) `{!AntiSymm (=) R} (l : list A) :
  StronglySorted R l -> StronglySorted (fun a b => R a b /\ a ≠ b) (unique l).
Proof.
  induction l as [|y [|z l] IH]; intros Hs; [constructor|repeat constructor|].
  inversion Hs as [|? ? Hs' Hall]; subst.
  change (unique (y :: z :: l)) with (if bool_decide (y = z) then unique (z :: l)
    else y :: unique (z :: l)).
  case_bool_decide as Heq; [by apply IH|]. constructor; [by apply IH|].
  apply Forall_forall. intros x Hx. rewrite unique_elem in Hx. split.
  - by apply (proj1 (Forall_forall _ _) Hall).
  - intros ->. apply elem_of_cons in Hx as [Hx|Hx]; [done|].
    inversion Hs' as [|? ? _ Hall']; subst. rewrite Forall_forall in Hall, Hall'.
    apply Heq, (anti_symm R); [apply Hall, elem_of_cons; by left|by apply Hall'].
Qed.

Lemma unique_sorted l : StronglySorted str_le l -> StronglySorted str_lt (unique l).
Proof. apply (unique_strict str_le). Qed.

(** ** Properties *)

(** Aliases and resources are kept one to one, whatever calls were made
    before: after an alias is set, the alias, in any letter case, resolves to the
    resource, and every name of the resource reports the alias; the alias the
    resource had before is gone, every other alias and every other resource
    resolves as it did, except that the resource the alias stood for has none. *)
Theorem resource_alias_resolution calls serial gpib usb alias resource rm' :
  let rm := fold_right rm_apply (new_resource_manager serial gpib usb) calls in
  set_resource_alias alias resource rm = (true, rm') ->
  parse_resource alias = None /\
  (forall name, parse_resource name = None -> folded_name name = folded_name alias ->
     resolve_resource name rm' = Some (mkResolvedResource resource alias)) /\
  (forall name d, parse_resource name = Some d -> resource_key d = resource_key resource ->
     resolve_resource name rm' = Some (mkResolvedResource d alias)) /\
  (forall name, parse_resource name = None -> folded_name name ≠ folded_name alias ->
     resolve_resource name rm' =
       (r ← resolve_resource name rm;
        if decide (resource_key (rr_descriptor r) = resource_key resource)
        then None else Some r)) /\
  (forall name d, parse_resource name = Some d -> resource_key d ≠ resource_key resource ->
     exists old, resolve_resource name rm = Some (mkResolvedResource d old) /\
       resolve_resource name rm' = Some (mkResolvedResource d
         (if decide (folded_name old = folded_name alias) then [] else old))).
Proof.
  intros rm Hset. pose proof (rm_run_ok calls serial gpib usb) as Hok. fold rm in Hok.
  clearbody rm. destruct Hok as [H1 H2].
  assert (parse_resource alias = None) as Hparse.
  { unfold set_resource_alias, valid_alias in Hset.
    destruct (parse_resource alias); [|done].
    rewrite (bool_decide_true (is_Some _)), orb_true_r in Hset by eauto. done. }
  split; [done|].
  assert (alias ≠ []) as Hne by (by intros ->; unfold set_resource_alias in Hset).
  unfold set_resource_alias in Hset.
  destruct (valid_alias alias); [|done]. simpl in Hset.
  destruct (rm_closed_ rm) eqn:Hopen; [done|]. injection Hset as <-.
  unfold resolve_resource. cbn [with_aliases rm_closed_ aliases_ aliases_by_resource_].
  rewrite Hopen. split; [|split; [|split]].
  - intros name -> ->. by rewrite lookup_insert_eq.
  - intros name d -> ->. by rewrite lookup_insert_eq, lookup_insert_eq.
  - intros name -> Hfold. rewrite lookup_insert_ne by done.
    set (by_resource := match aliases_ rm !! folded_name alias with Some old => _ | None => _ end).
    destruct (aliases_ rm !! folded_name name) as [e|] eqn:He; simpl.
    + assert (by_resource !! resource_key (ae_resource e) = Some (folded_name name)) as Hby.
      { pose proof (H1 _ _ He) as (_ & _ & Hr). subst by_resource.
        destruct (aliases_ rm !! folded_name alias) as [old|] eqn:Hold; [|done].
        rewrite lookup_delete_ne; [done|]. intros Heq. apply H1 in Hold as (_ & _ & Hold).
        rewrite Heq, Hr in Hold. by simplify_eq. }
      case_decide as Hk.
      * rewrite Hk in Hby. by rewrite Hby, lookup_delete_eq.
      * destruct (by_resource !! resource_key resource) as [old|] eqn:Hold; [|by rewrite He].
        rewrite lookup_delete_ne; [by rewrite He|]. intros ->.
        assert (aliases_by_resource_ rm !! resource_key resource = Some (folded_name name)) as Hr.
        { subst by_resource. destruct (aliases_ rm !! folded_name alias); [|done].
          by apply lookup_delete_Some in Hold as [_ ?]. }
        apply H2 in Hr as (e2 & He2 & Hk2). rewrite He in He2. by simplify_eq.
    + destruct (by_resource !! resource_key resource) as [old|]; [|by rewrite He].
      rewrite lookup_delete. case_decide; by rewrite ?He.
  - intros name d Hd Hk. rewrite Hd. eexists. split; [done|].
    rewrite lookup_insert_ne by done. f_equal. f_equal.
    destruct (aliases_by_resource_ rm !! resource_key d) as [k|] eqn:Hr.
    + pose proof (H2 _ _ Hr) as (e & He & Hke). rewrite He.
      pose proof (H1 _ _ He) as (Hkd & _ & _). rewrite <- Hkd.
      case_decide as Hsame.
      * subst k. rewrite Hsame in He. rewrite He, Hke, lookup_delete_eq. done.
      * set (by_resource := match aliases_ rm !! folded_name alias with Some old => _ | None => _ end).
        assert (by_resource !! resource_key d = Some k) as Hby.
        { subst by_resource. destruct (aliases_ rm !! folded_name alias) as [old|] eqn:Hold; [|done].
          rewrite lookup_delete_ne; [done|]. intros Heq. apply H1 in Hold as (_ & _ & Hold).
          rewrite Heq, Hr in Hold. by simplify_eq. }
        rewrite Hby. rewrite lookup_insert_ne by done.
        destruct (by_resource !! resource_key resource) as [old|] eqn:Hold; [|by rewrite He].
        rewrite lookup_delete_ne; [by rewrite He|]. intros ->.
        assert (aliases_by_resource_ rm !! resource_key resource = Some k) as Hr2.
        { subst by_resource. destruct (aliases_ rm !! folded_name alias); [|done].
          by apply lookup_delete_Some in Hold as [_ ?]. }
        apply H2 in Hr2 as (e2 & He2 & Hk2). rewrite He in He2. congruence.
    + set (by_resource := match aliases_ rm !! folded_name alias with Some old => _ | None => _ end).
      assert (by_resource !! resource_key d = None) as ->.
      { subst by_resource. destruct (aliases_ rm !! folded_name alias); [|done].
        rewrite lookup_delete. by case_decide. }
      by case_decide.
Qed.

(** Discovery lists, in strictly increasing order and so without
    repetition, exactly the serial ports and the GPIB and USB resources known to
    the manager, and nothing once it is closed. *)
Theorem discoverable_resources_spec rm :
  StronglySorted str_lt (discoverable_resources rm) /\
  forall name, name ∈ discoverable_resources rm <->
    rm_closed_ rm = false /\
    ((exists number, is_Some (serial_paths_ rm !! number) /\ name = serial_resource number) \/
     name ∈ gpib_resources_ rm \/ name ∈ usb_resources_ rm).
Proof.
  unfold discoverable_resources. destruct (rm_closed_ rm).
  - split; [constructor|]. intros name. rewrite elem_of_nil. by split; [|intros [? _]].
  - split; [apply unique_sorted, StronglySorted_merge_sort; apply _|]. intros name.
    rewrite unique_elem, merge_sort_Permutation, !elem_of_app, list_elem_of_fmap.
    split.
    + intros [(number & -> & Hn)|Hn]; (split; [done|]); [left|by right].
      apply list_elem_of_fmap in Hn as ([n path] & -> & Hn).
      apply elem_of_map_to_list in Hn. exists n. by rewrite Hn.
    + intros [_ [(number & [path Hp] & ->)|Hn]]; [left|by right].
      exists number. split; [done|]. apply list_elem_of_fmap. exists (number, path).
      split; [done|]. by apply elem_of_map_to_list.
Qed.

End proofs.

Lemma find_list_drain_from fuel fl :
  fl_closed fl = false -> (length (fl_matches fl) <= fl_index fl + fuel)%nat ->
  exists fl', find_list_drain fuel fl = (drop (fl_index fl) (fl_matches fl), fl') /\
    find_list_next fl' = (None, fl').
Proof.
  revert fl. induction fuel as [|fuel IH]; intros fl Hc Hl; simpl.
  - exists fl. rewrite drop_ge by lia. split; [done|]. unfold find_list_next.
    by rewrite Hc, (proj2 (Nat.leb_le _ _)) by lia.
  - unfold find_list_next at 1. rewrite Hc. simpl.
    destruct (Nat.leb_spec (length (fl_matches fl)) (fl_index fl)) as [Hge|Hlt].
    + exists fl. rewrite drop_ge by lia. split; [done|]. unfold find_list_next.
      by rewrite Hc, (proj2 (Nat.leb_le _ _)) by lia.
    + destruct (lookup_lt_is_Some_2 _ _ Hlt) as [name Hname]. rewrite Hname.
      set (fl1 := mkFindList _ _ _ _ _ _).
      destruct (IH fl1) as (fl' & Hd & Hn); [done|simpl; lia|]. rewrite Hd.
      exists fl'. split; [|done]. simpl. by rewrite (drop_S _ _ _ Hname).
Qed.

(** A find list hands out every match exactly once: [viFindRsrc] returns
    the first match itself, repeated [viFindNext] calls return the others in
    order, and then none, for good.  A closed list returns nothing. *)
Theorem find_list_enumerates parent handle name names fuel :
  (length names <= fuel)%nat ->
  let fl := new_find_list parent handle (name :: names) in
  exists fl', find_list_drain fuel fl = (names, fl') /\ find_list_next fl' = (None, fl') /\
    find_list_next (find_list_close fl) = (None, find_list_close fl).
Proof.
  intros Hf fl. destruct (find_list_drain_from fuel fl) as (fl' & Hd & Hn);
    [done|simpl; lia|].
  exists fl'. rewrite Hd. by rewrite Hn.
Qed.

(** ** Witnesses *)

Lemma resource_alias_resolution_witness :
  let d := descriptor asrl_instr VI_INTF_ASRL 3 INSTR (lit "ASRL3::INSTR") [] 0 [] tp_none in
  let rm := new_resource_manager (Provider := unit) ∅ [] [] in
  let rm' := (set_resource_alias (lit "Scope") d rm).2 in
  set_resource_alias (lit "Scope") d rm = (true, rm') /\
  resolve_resource (lit "sCOPE") rm' = Some (mkResolvedResource d (lit "Scope")).
Proof.
  intros d rm rm'. assert (set_resource_alias (lit "Scope") d rm = (true, rm')) as Hset
    by (vm_compute; reflexivity).
  split; [exact Hset|].
  destruct (resource_alias_resolution [] ∅ [] [] (lit "Scope") d rm' Hset) as (_ & Hcase & _).
  apply Hcase; vm_compute; reflexivity.
Defined.

Lemma find_list_enumerates_witness :
  (length [lit "B"; lit "C"] <= 2)%nat /\
  exists fl', find_list_drain 2 (new_find_list 0 1 [lit "A"; lit "B"; lit "C"]) =
    ([lit "B"; lit "C"], fl').
Proof.
  split; [simpl; lia|].
  destruct (find_list_enumerates 0 1 (lit "A") [lit "B"; lit "C"] 2 ltac:(simpl; lia))
    as (fl' & Hd & _).
  exists fl'. exact Hd.
Defined.
