(* ===== verification/SerialDiscovery.v ===== *)
(** * Serial ports of the platform: [platform/serial_discovery.{h,cpp}]

    The numbers that serial ports get, as compiled for Linux.  The listing of
    [/dev] is an argument: the names it has before it ends or fails. *)

From stdpp Require Import sorting.
From S2P Require Import Prelude CText ResourceManager.

(** ** Names *)

Definition starts_with (prefix value : str) : bool := bool_decide (take (length prefix) value = prefix).

Definition max_number : Z := 65535.

(** The loop over the digits; a number beyond [ViUInt16] ends it. *)
Fixpoint decimal_loop (parsed : Z) (digits : str) : option Z :=
  match digits with
  | [] => Some parsed
  | character :: digits =>
      if negb (isdigit character) then None
      else
        let parsed := parsed * 10 + (uchar character - 48) in
        if max_number <? parsed then None else decimal_loop parsed digits
  end.

Definition decimal_suffix (value prefix : str) : option Z :=
  if negb (starts_with prefix value) || (length value =? length prefix)%nat then None
  else decimal_loop 0 (drop (length prefix) value).

Definition serial_candidate (name : str) : bool :=
  starts_with (lit "ttyS") name || starts_with (lit "ttyUSB") name || starts_with (lit "ttyACM") name ||
  starts_with (lit "ttyAMA") name || starts_with (lit "rfcomm") name.

Definition dev_path (name : str) : str := lit "/dev/" ++ name.

(** [filesystem::path::filename]: what follows the last separator. *)
Fixpoint filename_from (current path : str) : str :=
  match path with
  | [] => current
  | c :: path => filename_from (if (c =? "/")%char then [] else current ++ [c]) path
  end.

Definition filename (path : str) : str := filename_from [] path.

Definition platform_serial_path (input : str) : str := input.

(** ** Numbers *)

(** The first loop: ports named [ttyS] and a number that is not taken get it.  The
    numbers assigned are the keys of the result. *)
Definition assign_suffix (acc : gmap Z str * list str) (path : str) : gmap Z str * list str :=
  let '(result, unassigned) := acc in
  match decimal_suffix (filename path) (lit "ttyS") with
  | Some number =>
      if decide (is_Some (result !! number)) then (result, unassigned ++ [path])
      else (<[number := path]> result, unassigned)
  | None => (result, unassigned ++ [path])
  end.

(** The search for a free number; there are [fuel] taken ones at most. *)
Fixpoint next_candidate (fuel : nat) (assigned : gmap Z str) (candidate : Z) : Z :=
  match fuel with
  | O => candidate
  | S fuel =>
      if (candidate <=? max_number) && bool_decide (is_Some (assigned !! candidate))
      then next_candidate fuel assigned (candidate + 1) else candidate
  end.

(** The second loop: the others get the smallest free numbers. *)
Fixpoint assign_rest (result : gmap Z str) (candidate : Z) (unassigned : list str) : gmap Z str :=
  match unassigned with
  | [] => result
  | path :: unassigned =>
      let candidate := next_candidate (size result) result candidate in
      if max_number <? candidate then result
      else assign_rest (<[candidate := path]> result) (candidate + 1) unassigned
  end.

Definition serial_paths (names : list str) : list str :=
  unique (merge_sort str_le (dev_path <$> filter serial_candidate names)).

Definition discover_serial_ports (names : list str) : gmap Z str :=
  let '(result, unassigned) := foldl assign_suffix (∅, []) (serial_paths names) in
  assign_rest result 0 unassigned.

(** ** What the numbers are *)

Example numbers_of_ports :
  discover_serial_ports [lit "ttyUSB0"; lit "ttyS1"; lit "null"; lit "ttyS01"; lit "ttyS0"] =
  {[ 0 := lit "/dev/ttyS0"; 1 := lit "/dev/ttyS01"; 2 := lit "/dev/ttyS1"; 3 := lit "/dev/ttyUSB0" ]}.
Proof. vm_compute. reflexivity. Qed.

(** What both loops keep: the numbers are in range, each path has one number, and
    the paths are those that have been seen. *)
Record numbering (seen : list str) (result : gmap Z str) (unassigned : list str) : Prop := {
  nu_range n path : result !! n = Some path -> 0 <= n <= max_number;
  nu_once n m path : result !! n = Some path -> result !! m = Some path -> n = m;
  nu_apart n path : result !! n = Some path -> path ∉ unassigned;
  nu_nodup : NoDup unassigned;
  nu_seen path : path ∈ seen <-> path ∈ unassigned \/ exists n, result !! n = Some path }.

Lemma decimal_loop_range digits : forall parsed n,
  0 <= parsed <= max_number -> decimal_loop parsed digits = Some n -> 0 <= n <= max_number.
Proof.
  induction digits as [|c digits IH]; cbn; intros parsed n Hp; [intros [= <-]; done|].
  destruct (isdigit c) eqn:Hc; [|done]. cbn. destruct (Z.ltb_spec max_number (parsed * 10 + (uchar c - 48))); [done|].
  apply IH. unfold isdigit, between in Hc. lia.
Qed.

Lemma decimal_suffix_range value prefix n : decimal_suffix value prefix = Some n -> 0 <= n <= max_number.
Proof.
  unfold decimal_suffix. destruct (_ || _); [done|]. apply decimal_loop_range. unfold max_number. lia.
Qed.

(** A path gets a free number. *)
Lemma numbering_insert seen result unassigned path n :
  numbering seen result unassigned -> path ∉ seen -> 0 <= n <= max_number -> result !! n = None ->
  numbering (seen ++ [path]) (<[n := path]> result) unassigned.
Proof.
  intros [Hr Ho Ha Hn Hs] Hp Hrange Hfree.
  assert (forall m, result !! m = Some path -> False) as Hnew by (intros m Hm; apply Hp, Hs; right; by exists m).
  split; try done.
  - intros m x [[<- _]|[_ Hx]]%lookup_insert_Some; [done|by eapply Hr].
  - intros m k x [[<- <-]|[_ Hx]]%lookup_insert_Some [[<- Hy]|[_ Hy]]%lookup_insert_Some; try done.
    + by destruct (Hnew k).
    + subst x. by destruct (Hnew m).
    + by eapply Ho.
  - intros m x [[_ <-]|[_ Hx]]%lookup_insert_Some; [|by eapply Ha].
    intros Hx. apply Hp, Hs. by left.
  - intros x. rewrite elem_of_app, list_elem_of_singleton, Hs. split.
    + intros [[?|[m Hm]]| ->]; [by left| |right; exists n; by rewrite lookup_insert_eq].
      right. exists m. rewrite lookup_insert_ne; [done|]. intros ->. congruence.
    + intros [?|[m [[_ <-]|[_ Hm]]%lookup_insert_Some]]; [by left; left|by right|left; right; by exists m].
Qed.

Lemma numbering_later seen result unassigned path :
  numbering seen result unassigned -> path ∉ seen ->
  numbering (seen ++ [path]) result (unassigned ++ [path]).
Proof.
  intros [Hr Ho Ha Hn Hs] Hp. split; try done.
  - intros n x Hx. rewrite elem_of_app, list_elem_of_singleton. intros [Hin| ->]; [by apply (Ha n x)|].
    apply Hp, Hs. right. by exists n.
  - apply NoDup_app. split; [done|]. split; [|apply NoDup_singleton].
    intros x Hx ->%list_elem_of_singleton. apply Hp, Hs. by left.
  - intros x. rewrite !elem_of_app, list_elem_of_singleton, Hs. tauto.
Qed.

Lemma assign_suffix_numbering paths : forall seen acc,
  NoDup (seen ++ paths) -> numbering seen acc.1 acc.2 ->
  numbering (seen ++ paths) (foldl assign_suffix acc paths).1 (foldl assign_suffix acc paths).2.
Proof.
  induction paths as [|path paths IH]; intros seen [result unassigned] Hn Hnu; [by rewrite app_nil_r|].
  assert (path ∉ seen) as Hp.
  { apply NoDup_app in Hn as (_ & Hd & _). intros Hx. apply (Hd path Hx). left. }
  cbn [foldl]. rewrite cons_middle, app_assoc in *. apply IH; [done|]. cbn in *.
  destruct (decimal_suffix _ _) as [n|] eqn:Hs; [|by apply numbering_later].
  destruct (decide _) as [Hx|Hx]; [by apply numbering_later|].
  apply numbering_insert; try done; [by eapply decimal_suffix_range|].
  destruct (result !! n) eqn:E; [|done]. destruct Hx. by eexists.
Qed.

(** A number below those taken can always be found in time. *)
Lemma next_candidate_spec fuel : forall (assigned : gmap Z str) (candidate : Z),
  (size (filter (fun p : Z * str => (candidate <= p.1)%Z) assigned) <= fuel)%nat ->
  let c := next_candidate fuel assigned candidate in
  candidate <= c /\ (c <= max_number -> assigned !! c = None) /\
  (forall n, candidate <= n < c -> is_Some (assigned !! n)).
Proof.
  induction fuel as [|fuel IH]; intros assigned candidate Hsize; cbn.
  - split; [lia|]. split; [|lia]. intros _. destruct (assigned !! candidate) as [x|] eqn:E; [|done].
    assert (filter (fun p : Z * str => (candidate <= p.1)%Z) assigned = ∅) as He
      by (apply map_size_empty_inv; lia).
    assert (filter (fun p : Z * str => (candidate <= p.1)%Z) assigned !! candidate = Some x) as Hx
      by (apply map_lookup_filter_Some; split; [done|cbn; lia]).
    by rewrite He, lookup_empty in Hx.
  - destruct (Z.leb_spec candidate max_number) as [Hle|Hgt]; cbn; [|split; [lia|]; split; lia].
    case_bool_decide as Hx.
    + destruct (IH assigned (candidate + 1)) as (H1 & H2 & H3).
      { destruct Hx as [x Hx].
        assert (filter (fun p : Z * str => (candidate <= p.1)%Z) assigned =
          <[candidate := x]> (filter (fun p : Z * str => candidate + 1 <= p.1) assigned)) as He.
        { apply map_eq. intros n. destruct (decide (n = candidate)) as [->|Hne].
          - rewrite lookup_insert_eq. apply map_lookup_filter_Some. split; [done|cbn; lia].
          - rewrite lookup_insert_ne by done. apply option_eq. intros y.
            rewrite !map_lookup_filter_Some. cbn. split; intros [? ?]; (split; [done|lia]). }
        rewrite He, map_size_insert_None in Hsize; [lia|].
        apply map_lookup_filter_None. right. cbn. intros y _. lia. }
      split; [lia|]. split; [done|]. intros n Hn. destruct (decide (n = candidate)) as [->|]; [done|].
      apply H3. lia.
    + split; [lia|]. split; [|lia]. intros _. destruct (assigned !! candidate) eqn:E; [|done].
      destruct Hx. by eexists.
Qed.

Lemma next_candidate_enough (assigned : gmap Z str) (candidate : Z) :
  let c := next_candidate (size assigned) assigned candidate in
  candidate <= c /\ (c <= max_number -> assigned !! c = None) /\
  (forall n, candidate <= n < c -> is_Some (assigned !! n)).
Proof. apply next_candidate_spec. apply map_size_filter. Qed.

(** There are no more numbers than paths. *)
Lemma numbering_size seen result unassigned :
  numbering seen result unassigned -> (size result + length unassigned <= length seen)%nat.
Proof.
  intros [_ Ho Ha Hn Hs]. rewrite <- length_map_to_list, <- (length_fmap snd), <- length_app.
  apply submseteq_length, NoDup_submseteq.
  - apply NoDup_app. split; [|split; [|done]].
    + apply NoDup_fmap_2_strong; [|apply NoDup_map_to_list].
      intros [n x] [m y] Hx%elem_of_map_to_list Hy%elem_of_map_to_list. cbn. intros ->. f_equal. by eapply Ho.
    + intros x ([n y] & -> & Hx%elem_of_map_to_list)%list_elem_of_fmap. by eapply Ha.
  - intros x. rewrite elem_of_app, Hs. intros [([n y] & -> & Hx%elem_of_map_to_list)%list_elem_of_fmap|]; [|by left].
    right. by exists n.
Qed.

Lemma all_numbers_taken (result : gmap Z str) :
  (forall n, 0 <= n <= max_number -> is_Some (result !! n)) -> max_number < Z.of_nat (size result).
Proof.
  intros Hall. rewrite <- size_dom.
  assert (Z.of_nat (size (list_to_set (seqZ 0 (max_number + 1)) : gset Z)) = max_number + 1) as He.
  { rewrite size_list_to_set by apply NoDup_seqZ. rewrite length_seqZ. by apply Z2Nat.id. }
  enough (size (list_to_set (seqZ 0 (max_number + 1)) : gset Z) <= size (dom result))%nat by lia.
  apply subseteq_size. intros n Hn%elem_of_list_to_set%elem_of_seqZ. apply elem_of_dom, Hall. lia.
Qed.

(** The second loop keeps the numbers that are given, and numbers every other
    path while there are numbers. *)
Lemma assign_rest_numbering unassigned : forall seen result candidate,
  numbering seen result unassigned -> 0 <= candidate ->
  (forall n, 0 <= n < candidate -> n <= max_number -> is_Some (result !! n)) ->
  exists left, numbering seen (assign_rest result candidate unassigned) left /\
    result ⊆ assign_rest result candidate unassigned /\
    (Z.of_nat (length seen) <= max_number + 1 -> left = []).
Proof.
  induction unassigned as [|path unassigned IH]; intros seen result candidate Hnu Hc Htaken; cbn.
  { by exists []. }
  destruct (next_candidate_enough result candidate) as (Hle & Hfree & Hbetween). cbn zeta in *.
  set (c := next_candidate _ _ _) in *.
  destruct (Z.ltb_spec max_number c) as [Hgt|Hin].
  - exists (path :: unassigned). split; [done|]. split; [done|]. intros Hlen.
    pose proof (numbering_size _ _ _ Hnu) as Hsize. cbn in Hsize.
    pose proof (all_numbers_taken result) as Hall. exfalso. enough (max_number < Z.of_nat (size result)) by lia.
    apply Hall. intros n Hn. destruct (Z.ltb_spec n candidate); [apply Htaken; lia|apply Hbetween; lia].
  - destruct (IH seen (<[c := path]> result) (c + 1)) as (rest & Hrest & Hsub & Hdone).
    + destruct Hnu as [Hr Ho Ha Hn Hs]. apply NoDup_cons in Hn as [Hpn Hn].
      split; try done.
      * intros n x [[<- _]|[_ Hx]]%lookup_insert_Some; [lia|by eapply Hr].
      * assert (forall m, result !! m = Some path -> False) as Hnew by (intros m Hm; apply (Ha m path Hm); left).
        intros n m x [[<- <-]|[_ Hx]]%lookup_insert_Some [[<- Hy]|[_ Hy]]%lookup_insert_Some; try done.
        -- by destruct (Hnew m).
        -- subst x. by destruct (Hnew n).
        -- by eapply Ho.
      * intros n x [[_ <-]|[_ Hx]]%lookup_insert_Some; [done|]. intros Hxu. apply (Ha n x Hx). by right.
      * intros x. rewrite Hs, elem_of_cons. split.
        -- intros [[->|?]|[n Hn']]; [right; exists c; by rewrite lookup_insert_eq|by left|].
           right. exists n. rewrite lookup_insert_ne; [done|]. intros <-. rewrite Hfree in Hn' by done. done.
        -- intros [?|[n [[_ <-]|[_ Hn']]%lookup_insert_Some]]; [by left; right|by left; left|right; by exists n].
    + lia.
    + intros n Hn Hmax. destruct (decide (n = c)) as [->|]; [by rewrite lookup_insert_eq|].
      rewrite lookup_insert_ne by done.
      destruct (Z.ltb_spec n candidate); [apply Htaken; lia|apply Hbetween; lia].
    + exists rest. split; [done|]. split; [|done]. etrans; [|exact Hsub]. apply insert_subseteq. by apply Hfree.
Qed.

(** A path whose name gives a number has it, unless another path of the same
    number comes first. *)
Lemma assign_suffix_keeps paths : forall acc n path,
  acc.1 !! n = Some path -> (foldl assign_suffix acc paths).1 !! n = Some path.
Proof.
  induction paths as [|x paths IH]; intros [result unassigned] n path Hn; [done|]. cbn [foldl]. apply IH.
  cbn in *. destruct (decimal_suffix _ _) as [m|]; [|done]. destruct (decide _) as [|Hx]; [done|]. cbn.
  rewrite lookup_insert_ne; [done|]. intros ->. destruct Hx. by rewrite Hn.
Qed.

Lemma assign_suffix_takes paths : forall acc n path,
  (forall m x, acc.1 !! m = Some x -> decimal_suffix (filename x) (lit "ttyS") = Some m) ->
  path ∈ paths -> decimal_suffix (filename path) (lit "ttyS") = Some n ->
  exists x, (foldl assign_suffix acc paths).1 !! n = Some x /\
    decimal_suffix (filename x) (lit "ttyS") = Some n.
Proof.
  induction paths as [|y paths IH]; intros acc n path Hacc Hin Hn; [by apply not_elem_of_nil in Hin|].
  cbn [foldl]. apply elem_of_cons in Hin as [<-|Hin].
  - assert (exists x, (assign_suffix acc path).1 !! n = Some x /\
      decimal_suffix (filename x) (lit "ttyS") = Some n) as (x & Hx & Hs).
    { destruct acc as [result unassigned]. unfold assign_suffix. rewrite Hn. destruct (decide _) as [[x Hx]|]; cbn [fst].
      - exists x. split; [done|]. by apply Hacc.
      - exists path. by rewrite lookup_insert_eq. }
    exists x. split; [by apply assign_suffix_keeps|done].
  - apply (IH _ n path); [|done|done]. destruct acc as [result unassigned]. unfold assign_suffix.
    intros m x. destruct (decimal_suffix (filename y) _) as [k|] eqn:Hk; [|apply Hacc].
    destruct (decide _); [apply Hacc|]. cbn [fst]. intros [[<- <-]|[_ Hx]]%lookup_insert_Some; [done|by apply Hacc].
Qed.

(** ** The numbers of the ports *)

Lemma serial_paths_elem names path :
  path ∈ serial_paths names <-> exists name, name ∈ names /\ serial_candidate name = true /\ path = dev_path name.
Proof.
  unfold serial_paths. rewrite unique_elem, merge_sort_Permutation, list_elem_of_fmap. split.
  - intros (name & -> & [Hc%Is_true_true Hn]%list_elem_of_filter). by exists name.
  - intros (name & Hn & Hc & ->). exists name. split; [done|]. apply list_elem_of_filter. split; [|done].
    by apply Is_true_true.
Qed.

Lemma serial_paths_sorted names : StronglySorted str_lt (serial_paths names).
Proof. apply unique_sorted, StronglySorted_merge_sort; apply _. Qed.

Lemma serial_paths_nodup names : NoDup (serial_paths names).
Proof.
  pose proof (serial_paths_sorted names) as Hs. induction Hs as [|x l _ IH Hall]; [apply NoDup_nil_2|].
  apply NoDup_cons. split; [|done]. intros Hx. rewrite Forall_forall in Hall.
  by destruct (Hall x Hx).
Qed.

(** The order in which the directory lists its entries does not matter. *)
Lemma discover_permutation names names' : names ≡ₚ names' -> discover_serial_ports names = discover_serial_ports names'.
Proof.
  intros Hp. unfold discover_serial_ports, serial_paths.
  assert (merge_sort str_le (dev_path <$> filter serial_candidate names) =
    merge_sort str_le (dev_path <$> filter serial_candidate names')) as ->; [|done].
  apply (StronglySorted_unique str_le); try (apply StronglySorted_merge_sort; apply _).
  rewrite !merge_sort_Permutation. by rewrite Hp.
Qed.

(** Discovery numbers the serial ports without ambiguity: every number is a
    16-bit number and belongs to one port of the directory, and no port has two;
    a port whose name is [ttyS] and a number never loses that number to a port of
    another kind; up to 65536 ports all get a number; and the order in which the
    directory lists them is irrelevant. *)
Theorem serial_numbering names :
  let ports := discover_serial_ports names in
  (forall n path, ports !! n = Some path -> 0 <= n <= max_number /\
     exists name, name ∈ names /\ serial_candidate name = true /\ path = dev_path name) /\
  (forall n m path, ports !! n = Some path -> ports !! m = Some path -> n = m) /\
  (forall name n, name ∈ names -> serial_candidate name = true ->
     decimal_suffix (filename (dev_path name)) (lit "ttyS") = Some n ->
     exists path, ports !! n = Some path /\ decimal_suffix (filename path) (lit "ttyS") = Some n) /\
  (Z.of_nat (length (serial_paths names)) <= max_number + 1 ->
     forall name, name ∈ names -> serial_candidate name = true -> exists n, ports !! n = Some (dev_path name)) /\
  (forall names', names ≡ₚ names' -> discover_serial_ports names' = ports).
Proof.
  cbn zeta. pose proof (assign_suffix_numbering (serial_paths names) [] (∅, [])) as Hnu.
  pose proof (assign_suffix_takes (serial_paths names) (∅, [])) as Htakes. cbn [app fst snd] in *.
  assert (numbering [] ∅ []) as Hempty.
  { split; try done; [apply NoDup_nil_2|]. intros x. split; [intros []%not_elem_of_nil|].
    by intros [[]%not_elem_of_nil|[n Hn]]. }
  specialize (Hnu (serial_paths_nodup names) Hempty).
  assert (discover_serial_ports names =
    let acc := foldl assign_suffix (∅, []) (serial_paths names) in assign_rest acc.1 0 acc.2) as ->.
  { unfold discover_serial_ports. by destruct (foldl _ _ _). }
  cbn zeta. set (acc := foldl _ _ _) in *.
  destruct (assign_rest_numbering acc.2 (serial_paths names) acc.1 0 Hnu) as (rest & Hrest & Hsub & Hdone); [lia|lia|].
  set (ports := assign_rest _ _ _) in *. split; [|split; [|split; [|split]]].
  - intros n path Hn. split; [by eapply nu_range|]. apply serial_paths_elem, (nu_seen _ _ _ Hrest). right. by exists n.
  - apply Hrest.
  - intros name n Hin Hc Hs. destruct (Htakes n (dev_path name)) as (x & Hx & Hsx); try done.
    { apply serial_paths_elem. by exists name. }
    exists x. split; [|done]. by eapply lookup_weaken.
  - intros Hlen name Hin Hc. rewrite (Hdone Hlen) in Hrest.
    destruct (proj1 (nu_seen _ _ _ Hrest (dev_path name))) as [[]%not_elem_of_nil|?]; [|done].
    apply serial_paths_elem. by exists name.
  - intros names' Hp. rewrite <- (discover_permutation names names' Hp). unfold discover_serial_ports. fold acc. unfold ports. by destruct acc.
Qed.
