(* ===== verification/SerialSession.v ===== *)
(** * Serial sessions: [backends/serial/serial_session.{h,cpp}]

    Opening and configuring a port, attributes and [flush], as compiled for a
    POSIX system.  Each function passed to [on_stream] is run at once, since its
    caller waits for it.  Reads and writes are those of the base class,
    [AsyncStream]. *)

From S2P Require Import Prelude Visa CText Operation BackendSession RequestChannel AsyncStream SerialDiscovery.

(** ** The port *)

Inductive parity_type := parity_none | parity_odd | parity_even.
Inductive stop_type := stop_one | stop_onepointfive | stop_two.
Inductive flow_type := flow_none | flow_software | flow_hardware.

Inductive port_option :=
| baud_rate (value : Z)
| character_size (value : Z)
| parity_option (value : parity_type)
| stop_bits (value : stop_type)
| flow_control (value : flow_type).

Inductive tc_queue := TCIFLUSH | TCOFLUSH | TCIOFLUSH.

(** [asio::serial_port] and [tcflush]: what fails gives an error. *)
Class SerialPort (P : Type) := {
  port_open : str -> P -> option error_code * P;
  port_set_option : port_option -> P -> option error_code * P;
  port_close : P -> P;
  port_tcflush : tc_queue -> P -> bool * P }.

(** The settings of an open port. *)
Record port_settings := mkSettings {
  set_baud : Z;
  set_bits : Z;
  set_parity : parity_type;
  set_stop : stop_type;
  set_flow : flow_type }.

Definition apply_option (option : port_option) (p : port_settings) : port_settings :=
  match option with
  | baud_rate value => mkSettings value (set_bits p) (set_parity p) (set_stop p) (set_flow p)
  | character_size value => mkSettings (set_baud p) value (set_parity p) (set_stop p) (set_flow p)
  | parity_option value => mkSettings (set_baud p) (set_bits p) value (set_stop p) (set_flow p)
  | stop_bits value => mkSettings (set_baud p) (set_bits p) (set_parity p) value (set_flow p)
  | flow_control value => mkSettings (set_baud p) (set_bits p) (set_parity p) (set_stop p) value
  end.

(** What the session relies on: [settings] is [None] for a closed port; an option
    takes effect or leaves the port as it was. *)
Class SerialPortLaws (P : Type) `{SerialPort P} := {
  settings : P -> option port_settings;
  open_ok path p p' : port_open path p = (None, p') -> is_Some (settings p');
  open_fails path p e p' : port_open path p = (Some e, p') -> settings p' = None;
  option_ok option p p' : port_set_option option p = (None, p') ->
    settings p' = apply_option option <$> settings p;
  option_fails option p e p' : port_set_option option p = (Some e, p') -> settings p' = settings p;
  close_closes p : settings (port_close p) = None;
  tcflush_keeps queue p : settings (port_tcflush queue p).2 = settings p }.

Definition map_open_error (error : error_code) : Z :=
  match error with ec_access_denied => VI_ERROR_NPERMISSION | _ => VI_ERROR_RSRC_NFOUND end.

(** ** The session *)

Section session.
  Context {P : Type} `{SerialPort P}.

Record SerialBackendSession := mkSerial {
  sr_native_path : str;
  sr_baud : Z;
  sr_data_bits : Z;
  sr_parity : Z;
  sr_stop_bits : Z;
  sr_flow_control : Z;
  sr_port : P;
  sr_stream : AsyncStream.AsyncStream }.

Definition with_port (port : P) (s : SerialBackendSession) : SerialBackendSession :=
  mkSerial (sr_native_path s) (sr_baud s) (sr_data_bits s) (sr_parity s) (sr_stop_bits s)
    (sr_flow_control s) port (sr_stream s).

Definition with_stream (stream : AsyncStream.AsyncStream) (s : SerialBackendSession) : SerialBackendSession :=
  mkSerial (sr_native_path s) (sr_baud s) (sr_data_bits s) (sr_parity s) (sr_stop_bits s)
    (sr_flow_control s) (sr_port s) stream.

Definition make_serial (native_path : str) (port : P) (stream : AsyncStream.AsyncStream) : SerialBackendSession :=
  mkSerial native_path 9600 8 VI_ASRL_PAR_NONE VI_ASRL_STOP_ONE VI_ASRL_FLOW_NONE port stream.

(** Options that are set one after the other until one fails. *)
Fixpoint set_options (options : list port_option) (port : P) : option error_code * P :=
  match options with
  | [] => (None, port)
  | option :: options =>
      let '(error, port) := port_set_option option port in
      match error with Some _ => (error, port) | None => set_options options port end
  end.

Definition open_options (s : SerialBackendSession) : list port_option :=
  [baud_rate (sr_baud s); character_size (sr_data_bits s); parity_option parity_none;
   stop_bits stop_one; flow_control flow_none].

Definition serial_open (s : SerialBackendSession) : Z * SerialBackendSession :=
  let '(error, port) := port_open (platform_serial_path (sr_native_path s)) (sr_port s) in
  match error with
  | Some error => (map_open_error error, with_port port s)
  | None =>
      let '(error, port) := set_options (open_options s) port in
      match error with
      | Some _ => (VI_ERROR_IO, with_port (port_close port) s)
      | None => (VI_SUCCESS, with_port port s)
      end
  end.

Definition serial_create (native_path : str) (port : P) (stream : AsyncStream.AsyncStream)
  : option SerialBackendSession * Z :=
  let '(status, s) := serial_open (make_serial native_path port stream) in
  (if status <? VI_SUCCESS then None else Some s, status).

(** The port's queue is flushed. *)
Definition tcflush (queue : tc_queue) (s : SerialBackendSession) : Z * SerialBackendSession :=
  let '(flushed, port) := port_tcflush queue (sr_port s) in
  (if flushed then VI_SUCCESS else VI_ERROR_IO, with_port port s).

Definition serial_clear : SerialBackendSession -> Z * SerialBackendSession := tcflush TCIOFLUSH.

Definition has_flag (mask flags : Z) : bool := negb (Z.land mask flags =? 0).

Definition serial_flush (mask : Z) (s : SerialBackendSession) : Z * SerialBackendSession :=
  match AsyncStream.flush mask with
  | inl status => (status, s)
  | inr f =>
      let '(buffered, stream) := run_function f (sr_stream s) in
      let s := with_stream stream s in
      if buffered <? VI_SUCCESS then (buffered, s)
      else
        let discard_input := has_flag mask (Z.lor VI_READ_BUF_DISCARD VI_IO_IN_BUF_DISCARD) in
        let discard_output := has_flag mask (Z.lor VI_WRITE_BUF_DISCARD VI_IO_OUT_BUF_DISCARD) in
        if negb discard_input && negb discard_output then (VI_SUCCESS, s)
        else
          tcflush (if discard_input && discard_output then TCIOFLUSH
                   else if discard_input then TCIFLUSH else TCOFLUSH) s
  end.

(** The functions of [set_attribute]: the option, and the member once it is set. *)
Definition try_option (option : port_option) (record : SerialBackendSession -> SerialBackendSession)
    (s : SerialBackendSession) : Z * SerialBackendSession :=
  let '(error, port) := port_set_option option (sr_port s) in
  let s := with_port port s in
  match error with
  | Some _ => (VI_ERROR_NSUP_ATTR_STATE, s)
  | None => (VI_SUCCESS, record s)
  end.

Definition with_baud (value : Z) (s : SerialBackendSession) : SerialBackendSession :=
  mkSerial (sr_native_path s) (u32 value) (sr_data_bits s) (sr_parity s) (sr_stop_bits s)
    (sr_flow_control s) (sr_port s) (sr_stream s).
Definition with_data_bits (value : Z) (s : SerialBackendSession) : SerialBackendSession :=
  mkSerial (sr_native_path s) (sr_baud s) (u16 value) (sr_parity s) (sr_stop_bits s)
    (sr_flow_control s) (sr_port s) (sr_stream s).
Definition with_parity (value : Z) (s : SerialBackendSession) : SerialBackendSession :=
  mkSerial (sr_native_path s) (sr_baud s) (sr_data_bits s) (u16 value) (sr_stop_bits s)
    (sr_flow_control s) (sr_port s) (sr_stream s).
Definition with_stop_bits (value : Z) (s : SerialBackendSession) : SerialBackendSession :=
  mkSerial (sr_native_path s) (sr_baud s) (sr_data_bits s) (sr_parity s) (u16 value)
    (sr_flow_control s) (sr_port s) (sr_stream s).
Definition with_flow_control (value : Z) (s : SerialBackendSession) : SerialBackendSession :=
  mkSerial (sr_native_path s) (sr_baud s) (sr_data_bits s) (sr_parity s) (sr_stop_bits s)
    (u16 value) (sr_port s) (sr_stream s).

Definition parity_of (value : Z) : option parity_type :=
  if value =? VI_ASRL_PAR_NONE then Some parity_none
  else if value =? VI_ASRL_PAR_ODD then Some parity_odd
  else if value =? VI_ASRL_PAR_EVEN then Some parity_even
  else None.

Definition stop_of (value : Z) : option stop_type :=
  if value =? VI_ASRL_STOP_ONE then Some stop_one
  else if value =? VI_ASRL_STOP_ONE5 then Some stop_onepointfive
  else if value =? VI_ASRL_STOP_TWO then Some stop_two
  else None.

Definition flow_of (value : Z) : option flow_type :=
  if value =? VI_ASRL_FLOW_NONE then Some flow_none
  else if value =? VI_ASRL_FLOW_XON_XOFF then Some flow_software
  else if value =? VI_ASRL_FLOW_RTS_CTS then Some flow_hardware
  else None.

Definition serial_set_attribute (attribute value : Z) (s : SerialBackendSession)
  : Z * SerialBackendSession :=
  if attribute =? VI_ATTR_ASRL_BAUD then
    if (value =? 0) || (2 ^ 32 - 1 <? value) then (VI_ERROR_NSUP_ATTR_STATE, s)
    else try_option (baud_rate (u32 value)) (with_baud value) s
  else if attribute =? VI_ATTR_ASRL_DATA_BITS then
    if (value <? 5) || (8 <? value) then (VI_ERROR_NSUP_ATTR_STATE, s)
    else try_option (character_size (u32 value)) (with_data_bits value) s
  else if attribute =? VI_ATTR_ASRL_PARITY then
    match parity_of value with
    | None => (VI_ERROR_NSUP_ATTR_STATE, s)
    | Some option => try_option (parity_option option) (with_parity value) s
    end
  else if attribute =? VI_ATTR_ASRL_STOP_BITS then
    match stop_of value with
    | None => (VI_ERROR_NSUP_ATTR_STATE, s)
    | Some option => try_option (stop_bits option) (with_stop_bits value) s
    end
  else if attribute =? VI_ATTR_ASRL_FLOW_CNTRL then
    match flow_of value with
    | None => (VI_ERROR_NSUP_ATTR_STATE, s)
    | Some option => try_option (flow_control option) (with_flow_control value) s
    end
  else (VI_ERROR_NSUP_ATTR, s).

Definition serial_get_attribute (attribute : Z) (s : SerialBackendSession) : Z * option attr_value :=
  if attribute =? VI_ATTR_ASRL_BAUD then (VI_SUCCESS, Some (attr_number (sr_baud s)))
  else if attribute =? VI_ATTR_ASRL_DATA_BITS then (VI_SUCCESS, Some (attr_number (sr_data_bits s)))
  else if attribute =? VI_ATTR_ASRL_PARITY then (VI_SUCCESS, Some (attr_number (sr_parity s)))
  else if attribute =? VI_ATTR_ASRL_STOP_BITS then (VI_SUCCESS, Some (attr_number (sr_stop_bits s)))
  else if attribute =? VI_ATTR_ASRL_FLOW_CNTRL then (VI_SUCCESS, Some (attr_number (sr_flow_control s)))
  else (VI_ERROR_NSUP_ATTR, None).

(** ** Calls as data *)

Inductive serial_call :=
| SerialSet (attribute value : Z)
| SerialClear
| SerialFlush (mask : Z).

Definition serial_step (s : SerialBackendSession) (c : serial_call) : SerialBackendSession :=
  match c with
  | SerialSet attribute value => (serial_set_attribute attribute value s).2
  | SerialClear => (serial_clear s).2
  | SerialFlush mask => (serial_flush mask s).2
  end.

(** ** The attributes are the settings of the port *)

Context `{!SerialPortLaws P}.

(** The settings that the members stand for. *)
Definition tracks (s : SerialBackendSession) : Prop :=
  exists p, settings (sr_port s) = Some p /\
    sr_baud s = set_baud p /\ 0 < sr_baud s < 2 ^ 32 /\
    sr_data_bits s = set_bits p /\ 5 <= sr_data_bits s <= 8 /\
    parity_of (sr_parity s) = Some (set_parity p) /\
    stop_of (sr_stop_bits s) = Some (set_stop p) /\
    flow_of (sr_flow_control s) = Some (set_flow p).

Lemma set_options_ok options : forall p port,
  set_options options port = (None, p) ->
  settings p = foldl (fun acc option => apply_option option <$> acc) (settings port) options.
Proof.
  induction options as [|o options IH]; cbn; intros p port; [by intros [= ->]|].
  destruct (port_set_option o port) as [[e|] port'] eqn:E; [done|]. intros Hs.
  by rewrite (IH _ _ Hs), (option_ok _ _ _ E).
Qed.

Lemma try_option_tracks option record (s : SerialBackendSession) :
  tracks s ->
  (forall port, settings port = apply_option option <$> settings (sr_port s) ->
     tracks (record (with_port port s))) ->
  tracks (try_option option record s).2.
Proof.
  intros Ht Hr. unfold try_option. destruct (port_set_option option (sr_port s)) as [[e|] port] eqn:E; cbn.
  - destruct Ht as (p & Hp & Hrest). exists p. split; [|exact Hrest]. cbn. by rewrite (option_fails _ _ _ _ E).
  - apply Hr. by apply option_ok.
Qed.

Lemma tcflush_tracks queue s : tracks s -> tracks (tcflush queue s).2.
Proof.
  intros (p & Hp & Hrest). unfold tcflush. pose proof (tcflush_keeps queue (sr_port s)) as Hk.
  destruct (port_tcflush queue (sr_port s)) as [flushed port]. exists p. split; [|exact Hrest]. cbn in *.
  by rewrite Hk.
Qed.

Lemma parity_small value p : parity_of value = Some p -> u16 value = value.
Proof. unfold parity_of. repeat (case_match; [intros _; rewrite (proj1 (Z.eqb_eq _ _) ltac:(eassumption)); done|]). done. Qed.

Lemma stop_small value p : stop_of value = Some p -> u16 value = value.
Proof. unfold stop_of. repeat (case_match; [intros _; rewrite (proj1 (Z.eqb_eq _ _) ltac:(eassumption)); done|]). done. Qed.

Lemma flow_small value p : flow_of value = Some p -> u16 value = value.
Proof. unfold flow_of. repeat (case_match; [intros _; rewrite (proj1 (Z.eqb_eq _ _) ltac:(eassumption)); done|]). done. Qed.

Lemma set_attribute_tracks attribute value s :
  0 <= value -> tracks s -> tracks (serial_set_attribute attribute value s).2.
Proof.
  intros Hv Ht. pose proof Ht as (p & Hp & Hb & Hbr & Hd & Hdr & Hpa & Hst & Hfl). unfold serial_set_attribute.
  destruct (attribute =? VI_ATTR_ASRL_BAUD).
  { destruct (Z.eqb_spec value 0); [done|]. destruct (Z.ltb_spec (2 ^ 32 - 1) value); [done|]. cbn [orb].
    assert (u32 value = value) as Hu by (unfold u32; apply Z.mod_small; lia).
    apply try_option_tracks; [done|]. intros port Hs. rewrite Hp in Hs. eexists. split; [exact Hs|].
    cbn. rewrite Hu. repeat split; auto; lia. }
  destruct (attribute =? VI_ATTR_ASRL_DATA_BITS).
  { destruct (Z.ltb_spec value 5); [done|]. destruct (Z.ltb_spec 8 value); [done|]. cbn [orb].
    assert (u32 value = value) as Hu by (unfold u32; apply Z.mod_small; lia).
    assert (u16 value = value) as Hu' by (unfold u16; apply Z.mod_small; lia).
    apply try_option_tracks; [done|]. intros port Hs. rewrite Hp in Hs. eexists. split; [exact Hs|].
    cbn. rewrite Hu, Hu'. repeat split; auto; lia. }
  destruct (attribute =? VI_ATTR_ASRL_PARITY).
  { destruct (parity_of value) as [o|] eqn:E; [|done]. apply try_option_tracks; [done|]. intros port Hs.
    rewrite Hp in Hs. eexists. split; [exact Hs|]. cbn. rewrite (parity_small _ _ E). auto 10. }
  destruct (attribute =? VI_ATTR_ASRL_STOP_BITS).
  { destruct (stop_of value) as [o|] eqn:E; [|done]. apply try_option_tracks; [done|]. intros port Hs.
    rewrite Hp in Hs. eexists. split; [exact Hs|]. cbn. rewrite (stop_small _ _ E). auto 10. }
  destruct (attribute =? VI_ATTR_ASRL_FLOW_CNTRL); [|done].
  destruct (flow_of value) as [o|] eqn:E; [|done]. apply try_option_tracks; [done|]. intros port Hs.
  rewrite Hp in Hs. eexists. split; [exact Hs|]. cbn. rewrite (flow_small _ _ E). auto 10.
Qed.

Lemma flush_tracks mask s : tracks s -> tracks (serial_flush mask s).2.
Proof.
  intros Ht. unfold serial_flush. destruct (AsyncStream.flush mask) as [status|f]; [done|].
  destruct (run_function f (sr_stream s)) as [buffered stream].
  assert (tracks (with_stream stream s)) as Ht1 by exact Ht.
  destruct (buffered <? VI_SUCCESS); [done|]. destruct (_ && _); [done|]. by apply tcflush_tracks.
Qed.

(** An open session has the settings of a new one; a failed one has no open port. *)
Lemma serial_open_spec path port stream status s :
  serial_open (make_serial path port stream) = (status, s) ->
  if status <? VI_SUCCESS then settings (sr_port s) = None
  else settings (sr_port s) = Some (mkSettings 9600 8 parity_none stop_one flow_none) /\ tracks s.
Proof.
  unfold serial_open. destruct (port_open _ _) as [[e|] p1] eqn:E1.
  - intros [= <- <-]. cbn [sr_port with_port]. replace (map_open_error e <? VI_SUCCESS) with true by (by destruct e).
    by apply (open_fails _ _ _ _ E1).
  - destruct (set_options (open_options (make_serial path port stream)) p1) as [[e|] p2] eqn:E2; intros [= <- <-]; cbn; [apply close_closes|].
    pose proof (set_options_ok _ _ _ E2) as Hs. destruct (open_ok _ _ _ E1) as [p Hp]. rewrite Hp in Hs.
    cbn in Hs. split; [exact Hs|]. eexists. split; [exact Hs|]. cbn. repeat split; lia.
Qed.

Lemma try_option_get option record (s s' : SerialBackendSession) status :
  try_option option record s = (status, s') ->
  status = VI_SUCCESS /\ (exists port, s' = record (with_port port s)) \/
  status = VI_ERROR_NSUP_ATTR_STATE /\ exists port, s' = with_port port s.
Proof.
  unfold try_option. destruct (port_set_option _ _) as [[e|] port]; intros [= <- <-]; [right|left];
    (split; [done|by eexists]).
Qed.

(** Setting an attribute succeeds and is read back, or changes no attribute. *)
Lemma serial_set_get attribute value s s' status :
  0 <= value -> serial_set_attribute attribute value s = (status, s') ->
  (forall other, other ≠ attribute \/ status ≠ VI_SUCCESS ->
     serial_get_attribute other s' = serial_get_attribute other s) /\
  (status = VI_SUCCESS -> serial_get_attribute attribute s' = (VI_SUCCESS, Some (attr_number value))).
Proof.
  intros Hv. unfold serial_set_attribute.
  assert (forall record : SerialBackendSession -> SerialBackendSession, forall option,
    (forall port other, other ≠ attribute ->
       serial_get_attribute other (record (with_port port s)) = serial_get_attribute other s) ->
    (forall port, serial_get_attribute attribute (record (with_port port s)) =
       (VI_SUCCESS, Some (attr_number value))) ->
    try_option option record s = (status, s') ->
    (forall other, other ≠ attribute \/ status ≠ VI_SUCCESS ->
       serial_get_attribute other s' = serial_get_attribute other s) /\
    (status = VI_SUCCESS -> serial_get_attribute attribute s' = (VI_SUCCESS, Some (attr_number value)))) as Htry.
  { intros record o Hother Hself [[-> [port ->]]|[-> [port ->]]]%try_option_get.
    - split; [|intros _; apply Hself]. intros other [Hne|]; [by apply Hother|done].
    - split; [|done]. intros other _. reflexivity. }
  assert (forall st : Z, st ≠ VI_SUCCESS -> (st, s) = (status, s') ->
    (forall other, other ≠ attribute \/ status ≠ VI_SUCCESS ->
       serial_get_attribute other s' = serial_get_attribute other s) /\
    (status = VI_SUCCESS -> serial_get_attribute attribute s' = (VI_SUCCESS, Some (attr_number value)))) as Hno.
  { intros st Hne [= <- <-]. split; [done|intros ->; done]. }
  unfold serial_get_attribute in *.
  destruct (Z.eqb_spec attribute VI_ATTR_ASRL_BAUD) as [->|].
  { destruct (Z.eqb_spec value 0); [by apply Hno|]. destruct (Z.ltb_spec (2 ^ 32 - 1) value); [by apply Hno|].
    apply Htry; [|intros port; cbn; unfold u32; by rewrite Z.mod_small by lia].
    intros port other Hne. cbn. by destruct (Z.eqb_spec other VI_ATTR_ASRL_BAUD). }
  destruct (Z.eqb_spec attribute VI_ATTR_ASRL_DATA_BITS) as [->|].
  { destruct (Z.ltb_spec value 5); [by apply Hno|]. destruct (Z.ltb_spec 8 value); [by apply Hno|].
    apply Htry; [|intros port; cbn; unfold u16; by rewrite Z.mod_small by lia].
    intros port other Hne. cbn. by destruct (Z.eqb_spec other VI_ATTR_ASRL_DATA_BITS). }
  destruct (Z.eqb_spec attribute VI_ATTR_ASRL_PARITY) as [->|].
  { destruct (parity_of value) as [o|] eqn:E; [|by apply Hno].
    apply Htry; [|intros port; cbn; by rewrite (parity_small _ _ E)].
    intros port other Hne. cbn. by destruct (Z.eqb_spec other VI_ATTR_ASRL_PARITY). }
  destruct (Z.eqb_spec attribute VI_ATTR_ASRL_STOP_BITS) as [->|].
  { destruct (stop_of value) as [o|] eqn:E; [|by apply Hno].
    apply Htry; [|intros port; cbn; by rewrite (stop_small _ _ E)].
    intros port other Hne. cbn. by destruct (Z.eqb_spec other VI_ATTR_ASRL_STOP_BITS). }
  destruct (Z.eqb_spec attribute VI_ATTR_ASRL_FLOW_CNTRL) as [->|]; [|by apply Hno].
  destruct (flow_of value) as [o|] eqn:E; [|by apply Hno].
  apply Htry; [|intros port; cbn; by rewrite (flow_small _ _ E)].
  intros port other Hne. cbn. by destruct (Z.eqb_spec other VI_ATTR_ASRL_FLOW_CNTRL).
Qed.

(** The values of attributes are unsigned. *)
Definition call_ok (c : serial_call) : Prop :=
  match c with SerialSet _ value => 0 <= value | _ => True end.

(** C34: the attributes of a serial session are the settings of its port: a new
    session has set the port to 9600 baud, eight data bits, no parity, one stop
    bit and no flow control, or has closed it again; after any calls the
    attributes still say how the port is set; and setting an attribute succeeds
    and reads back, or changes no attribute. *)
Theorem serial_attributes_track_port path port stream s status calls :
  serial_open (make_serial path port stream) = (status, s) -> Forall call_ok calls ->
  if status <? VI_SUCCESS then settings (sr_port s) = None
  else
    settings (sr_port s) = Some (mkSettings 9600 8 parity_none stop_one flow_none) /\
    let s' := foldl serial_step s calls in
    tracks s' /\
    forall attribute value s2 st, 0 <= value -> serial_set_attribute attribute value s' = (st, s2) ->
      tracks s2 /\
      (forall other, other ≠ attribute \/ st ≠ VI_SUCCESS ->
         serial_get_attribute other s2 = serial_get_attribute other s') /\
      (st = VI_SUCCESS -> serial_get_attribute attribute s2 = (VI_SUCCESS, Some (attr_number value))).
Proof.
  intros Hopen%serial_open_spec Hcalls. destruct (status <? VI_SUCCESS); [done|].
  destruct Hopen as [Hset Ht]. split; [done|]. cbn zeta.
  assert (tracks (foldl serial_step s calls)) as Ht'.
  { clear Hset. revert s Ht. induction Hcalls as [|c calls Hc _ IH]; intros s Ht; [done|]. apply IH.
    destruct c as [attribute value| |mask]; cbn.
    - by apply set_attribute_tracks.
    - by apply tcflush_tracks.
    - by apply flush_tracks. }
  split; [done|]. intros attribute value s2 st Hv Hs. split; [|by apply serial_set_get].
  pose proof (set_attribute_tracks attribute value _ Hv Ht') as H2. by rewrite Hs in H2.
Qed.

End session.
Arguments SerialBackendSession : clear implicits.

(** ** A port for the witness: one that refuses rates above 115200 *)

#[export] Instance sample_port : SerialPort (option port_settings) := {
  port_open path p := (None, Some (mkSettings 0 0 parity_even stop_two flow_none));
  port_set_option option p :=
    match option with
    | baud_rate value => if 115200 <? value then (Some ec_other, p) else (None, apply_option option <$> p)
    | _ => (None, apply_option option <$> p)
    end;
  port_close p := None;
  port_tcflush queue p := (true, p) }.

#[export] Instance sample_port_laws : SerialPortLaws (option port_settings).
Proof.
  refine {| settings := fun p => p |}; cbn.
  - intros path p p' [= <-]. by eexists.
  - done.
  - intros [value| | | |] p p'; try (by intros [= <-]). destruct (115200 <? value); [done|by intros [= <-]].
  - intros [value| | | |] p e p'; try done. destruct (115200 <? value); [by intros [= <- <-]|done].
  - done.
  - done.
Defined.

Definition sample_serial : SerialBackendSession (option port_settings) :=
  (serial_open (make_serial (lit "/dev/ttyS0") None (new_stream 0))).2.

Lemma serial_attributes_track_port_witness :
  sr_baud (foldl serial_step sample_serial
    [SerialSet VI_ATTR_ASRL_BAUD 19200; SerialSet VI_ATTR_ASRL_BAUD 921600; SerialFlush 64]) = 19200 /\
  if VI_SUCCESS <? VI_SUCCESS then settings (sr_port sample_serial) = None
  else
    settings (sr_port sample_serial) = Some (mkSettings 9600 8 parity_none stop_one flow_none) /\
    let s' := foldl serial_step sample_serial
      [SerialSet VI_ATTR_ASRL_BAUD 19200; SerialSet VI_ATTR_ASRL_BAUD 921600; SerialFlush 64] in
    tracks s' /\
    forall attribute value s2 st, 0 <= value -> serial_set_attribute attribute value s' = (st, s2) ->
      tracks s2 /\
      (forall other, other ≠ attribute \/ st ≠ VI_SUCCESS ->
         serial_get_attribute other s2 = serial_get_attribute other s') /\
      (st = VI_SUCCESS -> serial_get_attribute attribute s2 = (VI_SUCCESS, Some (attr_number value))).
Proof.
  split; [reflexivity|].
  apply (serial_attributes_track_port (lit "/dev/ttyS0") None (new_stream 0)); [reflexivity|].
  repeat constructor; cbn; lia.
Defined.
