(* ===== verification/Providers.v ===== *)
(** * Transport providers: [backends/usb/usb_provider.{h,cpp}],
      [backends/gpib/gpib_provider.{h,cpp}]

    Process-wide registries of providers, the registration objects that own
    their entries, and the search through the registered providers.  A provider
    is an abstract class, here a type class over the type of the objects and the
    world their calls change. *)

From stdpp Require Import sorting.
From S2P Require Import Prelude Visa CText ResourceParser ResourceManager.

(** ** Registries *)

Section registry.
  Context {P : Type}.

(** The [std::map] in the order of its keys. *)
Record RegistryState := mkRegistry {
  next_id : Z;
  providers : list (Z * P) }.

Definition registry : RegistryState := mkRegistry 1 [].

Fixpoint emplace (id : Z) (provider : P) (m : list (Z * P)) : list (Z * P) :=
  match m with
  | [] => [(id, provider)]
  | (k, q) :: m' =>
      if id <? k then (id, provider) :: m
      else if id =? k then m
      else (k, q) :: emplace id provider m'
  end.

Definition provider_snapshot (st : RegistryState) : list P := (providers st).*2.

Definition unregister_provider (id : Z) (st : RegistryState) : RegistryState :=
  mkRegistry (next_id st) (filter (fun e => e.1 <> id) (providers st)).

(** *** Registration objects

    A registration is its [id_]; 0 owns nothing. *)

Definition is_registered (id : Z) : bool := negb (id =? 0).

Definition reset_registration (id : Z) (st : RegistryState) : Z * RegistryState :=
  (0, if is_registered id then unregister_provider id st else st).

(** [None] is the null pointer. *)
Definition register_provider (provider : option P) (st : RegistryState) : Z * RegistryState :=
  match provider with
  | None => (0, st)
  | Some p => (next_id st, mkRegistry (u64 (next_id st + 1)) (emplace (next_id st) p (providers st)))
  end.

(** [std::exchange(other.id_, 0)] *)
Definition take_registration (other : Z) : Z * Z := (other, 0).

(** What a program does with registrations.  Every object has a slot; a
    destroyed one leaves its slot empty, and no program uses it again. *)
Record Client := mkClient {
  cl_registry : RegistryState;
  cl_slots : list (option Z) }.

Inductive client_call :=
| construct
| register (provider : option P)
| move_construct (from : nat)
| move_assign (to from : nat)
| reset (object : nat)
| destroy (object : nat).

Definition client : Client := mkClient registry [].

Definition object_at (i : nat) (c : Client) : option Z := mjoin (cl_slots c !! i).

Definition client_step (call : client_call) (c : Client) : option Client :=
  match call with
  | construct => Some (mkClient (cl_registry c) (cl_slots c ++ [Some 0]))
  | register provider =>
      let '(id, st) := register_provider provider (cl_registry c) in
      Some (mkClient st (cl_slots c ++ [Some id]))
  | move_construct from =>
      other ← object_at from c;
      let '(id, rest) := take_registration other in
      Some (mkClient (cl_registry c) (<[from := Some rest]> (cl_slots c) ++ [Some id]))
  | move_assign to from =>
      this ← object_at to c;
      other ← object_at from c;
      if Nat.eqb to from then Some c
      else
        let '(_, st) := reset_registration this (cl_registry c) in
        let '(id, rest) := take_registration other in
        Some (mkClient st (<[to := Some id]> (<[from := Some rest]> (cl_slots c))))
  | reset object =>
      this ← object_at object c;
      let '(id, st) := reset_registration this (cl_registry c) in
      Some (mkClient st (<[object := Some id]> (cl_slots c)))
  | destroy object =>
      this ← object_at object c;
      let '(_, st) := reset_registration this (cl_registry c) in
      Some (mkClient st (<[object := None]> (cl_slots c)))
  end.

Fixpoint client_run (calls : list client_call) (c : Client) : option Client :=
  match calls with
  | [] => Some c
  | call :: calls => c' ← client_step call c; client_run calls c'
  end.

End registry.

Arguments RegistryState P : clear implicits.
Arguments Client P : clear implicits.
Arguments client_call P : clear implicits.

(** ** Providers *)

(** A call gives what it returns, or the exception it leaves with. *)
Definition opened (T : Type) : Type := result (option T * Z).

Class UsbProvider (P T W : Type) := {
  up_discover : P -> W -> option (list str) * W;
  up_open : P -> ResourceDescriptor -> Z -> Z -> W -> opened T * W;
  up_open_raw : P -> ResourceDescriptor -> UsbRawConfiguration -> Z -> Z -> W -> opened T * W;
  up_destroy : T -> W -> W }.

(** [open_raw] of a provider that does not override it. *)
Definition no_open_raw {T W} (resource : ResourceDescriptor) (configuration : UsbRawConfiguration)
    (timeout status : Z) (w : W) : opened T * W :=
  (Ok (None, VI_ERROR_RSRC_NFOUND), w).

Class GpibProvider (P T W : Type) := {
  gp_discover : P -> W -> option (list str) * W;
  gp_open : P -> ResourceDescriptor -> Z -> Z -> W -> opened T * W;
  gp_destroy : T -> W -> W }.

(** ** Searching the providers *)

Section search.
  Context {P T W : Type}.

(** *** Discovery; [None] is a provider that throws. *)

Definition accepted (wanted : list ResourceKind) (name : str) : option str :=
  parsed ← parse_resource name;
  if bool_decide (rd_kind parsed ∈ wanted) then Some (rd_canonical_name parsed) else None.

Fixpoint discover_loop (discover : P -> W -> option (list str) * W) (wanted : list ResourceKind)
    (ps : list P) (resources : list str) (w : W) : list str * W :=
  match ps with
  | [] => (resources, w)
  | p :: ps =>
      match discover p w with
      | (Some names, w') =>
          discover_loop discover wanted ps (resources ++ omap (accepted wanted) names) w'
      | (None, w') => discover_loop discover wanted ps resources w'
      end
  end.

Definition discover_resources (discover : P -> W -> option (list str) * W)
    (wanted : list ResourceKind) (st : RegistryState P) (w : W) : list str * W :=
  let '(resources, w') := discover_loop discover wanted (provider_snapshot st) [] w in
  (unique (merge_sort str_le resources), w').

(** *** Opening *)

Fixpoint open_loop (open : P -> Z -> W -> opened T * W) (destroy : T -> W -> W)
    (ps : list P) (deferred_status : Z) (w : W) : opened T * W :=
  match ps with
  | [] => (Ok (None, deferred_status), w)
  | p :: ps =>
      match open p VI_ERROR_RSRC_NFOUND w with
      | (Throw e, w') => (Throw e, w')
      | (Ok (Some transport, status), w') =>
          if status <? VI_SUCCESS then (Ok (None, status), destroy transport w')
          else (Ok (Some transport, status), w')
      | (Ok (None, status), w') =>
          if VI_SUCCESS <=? status then (Ok (None, VI_ERROR_SYSTEM_ERROR), w')
          else
            open_loop open destroy ps
              (if negb (status =? VI_ERROR_RSRC_NFOUND)
                  && (deferred_status =? VI_ERROR_RSRC_NFOUND)
               then status else deferred_status) w'
      end
  end.

Definition open_transport (open : P -> Z -> W -> opened T * W) (destroy : T -> W -> W)
    (st : RegistryState P) (w : W) : opened T * W :=
  let ps := provider_snapshot st in
  if bool_decide (ps = []) then (Ok (None, VI_ERROR_NSUP_OPER), w)
  else open_loop open destroy ps VI_ERROR_RSRC_NFOUND w.

End search.

(** ** The two registries *)

Section usb.
  Context {P T W : Type} `{UsbProvider P T W}.

(** The process: its USB registry, and whether the static registration of
    [ensure_libusb_provider_registered] has been made. *)
Record UsbProcess := mkUsbProcess {
  usb_registry : RegistryState P;
  libusb_registration : option Z }.

(** [create] is the provider of the build, [None] in one without libusb. *)
Context (create : option P).

Definition ensure_libusb_provider_registered (g : UsbProcess) : UsbProcess :=
  match create, libusb_registration g with
  | Some provider, None =>
      let '(id, st) := register_provider (Some provider) (usb_registry g) in
      mkUsbProcess st (Some id)
  | _, _ => g
  end.

Definition register_usb_provider (provider : option P) (g : UsbProcess) : Z * UsbProcess :=
  let '(id, st) := register_provider provider (usb_registry g) in
  (id, mkUsbProcess st (libusb_registration g)).

Definition discover_usb_resources (g : UsbProcess) (w : W) : list str * UsbProcess * W :=
  let g := ensure_libusb_provider_registered g in
  let '(resources, w') := discover_resources up_discover [usb_instr; usb_raw] (usb_registry g) w in
  (resources, g, w').

Definition open_usb_transport (resource : ResourceDescriptor) (timeout : Z) (g : UsbProcess) (w : W)
  : opened T * UsbProcess * W :=
  let g := ensure_libusb_provider_registered g in
  let '(r, w') := open_transport (fun p => up_open p resource timeout) up_destroy (usb_registry g) w in
  (r, g, w').

Definition open_usb_raw_transport (resource : ResourceDescriptor)
    (configuration : UsbRawConfiguration) (timeout : Z) (g : UsbProcess) (w : W)
  : opened T * UsbProcess * W :=
  let g := ensure_libusb_provider_registered g in
  let '(r, w') := open_transport (fun p => up_open_raw p resource configuration timeout)
                    up_destroy (usb_registry g) w in
  (r, g, w').

End usb.

Arguments UsbProcess P : clear implicits.

Section gpib.
  Context {P T W : Type} `{GpibProvider P T W}.

Definition register_gpib_provider (provider : option P) (st : RegistryState P)
  : Z * RegistryState P :=
  register_provider provider st.

Definition discover_gpib_resources (st : RegistryState P) (w : W) : list str * W :=
  discover_resources gp_discover [gpib_instr; gpib_intfc] st w.

Definition open_gpib_transport (resource : ResourceDescriptor) (timeout : Z)
    (st : RegistryState P) (w : W) : opened T * W :=
  open_transport (fun p => gp_open p resource timeout) gp_destroy st w.

End gpib.

(** ** Ownership *)

Section ownership.
Context {P : Type}.
Implicit Types (st : RegistryState P) (f : nat -> option Z).

Definition upd (i : nat) (x : option Z) f : nat -> option Z :=
  fun j => if decide (j = i) then x else f j.

Definition empty_at f (i : nat) : Prop := f i = None \/ f i = Some 0.

(** Every entry belongs to exactly one registration object, and holds the
    provider that was given with its number. *)
Record owned (given : list P) st f : Prop := {
  owned_next : next_id st = 1 + Z.of_nat (length given);
  owned_sorted : StronglySorted Z.lt (providers st).*1;
  owned_entries id p : (id, p) ∈ providers st <->
    1 <= id /\ given !! Z.to_nat (id - 1) = Some p /\ exists i, f i = Some id;
  owned_range i id : f i = Some id -> 0 <= id < next_id st;
  owned_once i j id : id <> 0 -> f i = Some id -> f j = Some id -> i = j }.

Lemma owned_ext given st f f' : (forall i, f i = f' i) -> owned given st f -> owned given st f'.
Proof.
  intros Hf [N S E R U]. split; [done..| | |].
  - intros id p. rewrite E. by setoid_rewrite Hf.
  - intros i id. rewrite <- Hf. apply R.
  - intros i j id. rewrite <- !Hf. apply U.
Qed.

Lemma emplace_keys id (p : P) m :
  Forall (fun k => k < id) m.*1 -> emplace id p m = m ++ [(id, p)].
Proof.
  induction m as [|[k q] m IH]; intros Hall; [done|]. cbn in Hall |- *.
  apply Forall_cons in Hall as [Hk Hall].
  destruct (Z.ltb_spec id k); [lia|]. destruct (Z.eqb_spec id k); [lia|]. by rewrite IH.
Qed.

Lemma sorted_snoc l x : StronglySorted Z.lt l -> Forall (fun k => k < x) l -> StronglySorted Z.lt (l ++ [x]).
Proof.
  induction 1 as [|y l Hs IH Hy]; intros Hall; cbn; [by repeat constructor|].
  apply Forall_cons in Hall as [Hx Hall]. constructor; [by apply IH|].
  apply Forall_app. by split; [|constructor].
Qed.

Lemma filter_sorted id (m : list (Z * P)) :
  StronglySorted Z.lt m.*1 -> StronglySorted Z.lt (filter (fun e => e.1 <> id) m).*1.
Proof.
  induction m as [|[k q] m IH]; [done|]. cbn. inversion 1 as [|? ? Hs Hall]; subst.
  destruct (decide (k <> id)); cbn; [|by apply IH]. constructor; [by apply IH|].
  rewrite Forall_fmap, Forall_forall in Hall |- *.
  intros e He. apply list_elem_of_filter in He as [_ He]. by apply Hall.
Qed.

Lemma owned_keys given st f id p : owned given st f -> (id, p) ∈ providers st -> 1 <= id < next_id st.
Proof. intros O He. apply (owned_entries _ _ _ O) in He as (Hid & _ & i & Hi). apply (owned_range _ _ _ O) in Hi. lia. Qed.

Lemma owned_null given st f i : owned given st f -> empty_at f i -> owned given st (upd i (Some 0) f).
Proof.
  intros O Hi. destruct O as [N S E R U]. unfold upd, empty_at in *. split; [done..| | |].
  - intros id p. rewrite E. split; intros (Hid & Hp & j & Hj); (split; [done|]; split; [done|]; exists j).
    + case_decide; [|done]. subst j. naive_solver lia.
    + case_decide; [|done]. injection Hj as <-. lia.
  - intros j id. case_decide; [|apply R]. intros [= <-]. lia.
  - intros j k id Hid. repeat case_decide; try congruence. by apply U.
Qed.

Lemma owned_register given st f i p :
  owned given st f -> empty_at f i -> Z.of_nat (length (given ++ [p])) < 2 ^ 64 - 1 ->
  owned (given ++ [p]) (register_provider (Some p) st).2 (upd i (Some (next_id st)) f).
Proof.
  intros O Hi Hlen. rewrite length_app in Hlen. cbn in Hlen.
  assert (Forall (fun k => k < next_id st) (providers st).*1) as Hlt.
  { apply Forall_fmap, Forall_forall. intros [k q] Hkq. apply (owned_keys _ _ _ k q O) in Hkq. cbn. lia. }
  destruct O as [N S E R U].
  assert (u64 (next_id st + 1) = next_id st + 1) as Hwrap by (unfold u64; rewrite Z.mod_small; lia).
  unfold register_provider. cbn [snd]. rewrite emplace_keys, Hwrap by done.
  unfold upd, empty_at in *. split; cbn [next_id providers].
  - rewrite length_app. cbn. lia.
  - rewrite fmap_app. by apply sorted_snoc.
  - intros id q. rewrite elem_of_app, list_elem_of_singleton, E, lookup_app. split.
    + intros [(Hid & Hq & j & Hj)|[= -> ->]].
      * rewrite Hq. split; [done|]. split; [done|]. exists j. case_decide; [|done]. naive_solver lia.
      * split; [lia|]. replace (Z.to_nat (next_id st - 1)) with (length given) by lia.
        rewrite lookup_ge_None_2, Nat.sub_diag by lia. split; [done|]. exists i. by case_decide.
    + intros (Hid & Hq & j & Hj). case_decide; [injection Hj as <-|].
      * right. replace (Z.to_nat (next_id st - 1)) with (length given) in Hq by lia.
        rewrite lookup_ge_None_2, Nat.sub_diag in Hq by lia. by injection Hq as ->.
      * left. split; [done|]. split; [|by exists j]. apply R in Hj.
        destruct (given !! Z.to_nat (id - 1)) eqn:Hg; [done|]. apply lookup_ge_None in Hg. lia.
  - intros j id. case_decide; [intros [= <-]; lia|]. intros Hj. apply R in Hj. lia.
  - intros j k id Hid. repeat case_decide; subst; try done; intros Hj Hl.
    + injection Hj as <-. apply R in Hl. lia.
    + injection Hl as <-. apply R in Hj. lia.
    + by apply (U j k id).
Qed.

Lemma owned_release given st f i this x :
  owned given st f -> f i = Some this -> x = None \/ x = Some 0 ->
  owned given (reset_registration this st).2 (upd i x f).
Proof.
  intros O Hi Hx. unfold reset_registration, is_registered. cbn [snd]. destruct O as [N S E R U].
  assert (forall j id, id <> 0 -> upd i x f j = Some id <-> f j = Some id /\ id <> this) as Hupd.
  { intros j id Hid. unfold upd. case_decide as Hj; [subst j|].
    - rewrite Hi. split; [intros ->|intros [[= ->] ?]]; naive_solver.
    - split; [|naive_solver]. intros Hf. split; [done|]. intros ->. by apply Hj, (U j i this). }
  assert (forall j id, upd i x f j = Some id -> 0 <= id < next_id st) as Hrange.
  { intros j id. unfold upd. case_decide; [|apply R]. destruct Hx as [->| ->]; [done|].
    intros [= <-]. lia. }
  assert (forall j k id, id <> 0 -> upd i x f j = Some id -> upd i x f k = Some id -> j = k) as Honce.
  { intros j k id Hid [Hj _]%Hupd [Hk _]%Hupd; [|done..]. by apply (U j k id). }
  destruct (Z.eqb_spec this 0) as [->|Hthis]; cbn [negb].
  - split; [done..| |done|done]. intros id p. rewrite E.
    split; intros (Hid & Hp & j & Hj); (split; [done|]; split; [done|]; exists j).
    + apply Hupd; [lia|]. split; [done|lia].
    + apply Hupd in Hj as [Hj _]; [done|lia].
  - split; cbn [unregister_provider next_id providers]; [done|by apply filter_sorted| |done|done].
    intros id p. rewrite list_elem_of_filter, E. cbn.
    split; [intros (Hne & Hid & Hp & j & Hj)|intros (Hid & Hp & j & Hj)].
    + split; [done|]. split; [done|]. exists j. apply Hupd; [lia|done].
    + apply Hupd in Hj as [Hj Hne]; [|lia]. split; [done|]. split; [done|]. split; [done|]. by exists j.
Qed.

Lemma owned_move given st f to from id :
  owned given st f -> empty_at f to -> to <> from -> f from = Some id ->
  owned given st (upd to (Some id) (upd from (Some 0) f)).
Proof.
  intros O Hto Hne Hfrom. destruct O as [N S E R U]. unfold empty_at in Hto.
  assert (forall j k, k <> 0 -> upd to (Some id) (upd from (Some 0) f) j = Some k ->
    exists i, f i = Some k /\ (k = id /\ j = to /\ i = from \/ k <> id /\ i = j)) as Hback.
  { intros j k Hk. unfold upd. repeat case_decide; subst.
    - intros [= <-]. exists from. split; [done|]. by left.
    - intros [= <-]. done.
    - intros Hj. exists j. split; [done|]. right. split; [|done]. intros ->. by apply (U j from id) in Hj. }
  split; [done..| | |].
  - intros k p. rewrite E. split; intros (Hk & Hp & j & Hj); (split; [done|]; split; [done|]).
    + destruct (decide (k = id)) as [->|]; [exists to; unfold upd; by case_decide|].
      exists j. unfold upd. repeat case_decide; subst; try done; naive_solver lia.
    + apply Hback in Hj as (i & Hi & _); [by exists i|lia].
  - intros j k. unfold upd. repeat case_decide; [intros [= <-]; by apply (R from)|intros [= <-]; lia|apply R].
  - intros j l k Hk (i & Hi & Hc)%Hback (i' & Hi' & Hc')%Hback; [|done..]. naive_solver.
Qed.

(** The providers registered by a program, in order. *)
Definition given_by (calls : list (client_call P)) : list P :=
  omap (fun call => match call with register provider => provider | _ => None end) calls.

Abbreviation at_ c := (fun i => object_at i c).

Lemma object_at_snoc st slots x i :
  object_at i (mkClient st (slots ++ [x]) : Client P) =
  upd (length slots) x (fun j => mjoin (slots !! j)) i.
Proof.
  unfold object_at, upd. cbn. case_decide as Hi; [subst i; by rewrite list_lookup_middle|].
  destruct (decide (i < length slots)%nat).
  - by rewrite lookup_app_l.
  - by rewrite !lookup_ge_None_2 by (rewrite ?length_app; cbn; lia).
Qed.

Lemma object_at_insert st slots j x i :
  is_Some (slots !! j) ->
  object_at i (mkClient st (<[j := x]> slots) : Client P) = upd j x (fun k => mjoin (slots !! k)) i.
Proof.
  intros Hj. unfold object_at, upd. cbn. case_decide as Hi; [subst i|by rewrite list_lookup_insert_ne].
  by rewrite list_lookup_insert_eq by (apply lookup_lt_is_Some_1; eauto).
Qed.

Lemma object_slot i (c : Client P) id : object_at i c = Some id -> is_Some (cl_slots c !! i).
Proof. unfold object_at. by destruct (cl_slots c !! i). Qed.

Lemma fresh_slot (c : Client P) : empty_at (at_ c) (length (cl_slots c)).
Proof. left. unfold object_at. by rewrite lookup_ge_None_2. Qed.

Lemma client_step_owned given call (c c' : Client P) :
  owned given (cl_registry c) (at_ c) -> client_step call c = Some c' ->
  Z.of_nat (length (given ++ given_by [call])) < 2 ^ 64 - 1 ->
  owned (given ++ given_by [call]) (cl_registry c') (at_ c').
Proof.
  intros O Hr Hlen. destruct call as [|[p|]|from|to from|i|i]; cbn [given_by omap list_omap] in *;
    rewrite ?app_nil_r in *; cbn in Hr.
  - injection Hr as <-. eapply owned_ext; [intros i; symmetry; apply object_at_snoc|].
    apply owned_null; [done|apply fresh_slot].
  - injection Hr as <-. eapply owned_ext; [intros i; symmetry; apply object_at_snoc|].
    apply (owned_register given (cl_registry c)); [done|apply fresh_slot|done].
  - injection Hr as <-. eapply owned_ext; [intros i; symmetry; apply object_at_snoc|].
    apply owned_null; [done|apply fresh_slot].
  - destruct (object_at from c) as [other|] eqn:Hf; [|done]. injection Hr as <-.
    pose proof (object_slot _ _ _ Hf) as Hs. pose proof (lookup_lt_is_Some_1 _ _ Hs) as Hlt.
    eapply owned_ext; [|apply (owned_move _ _ _ (length (cl_slots c)) from other O (fresh_slot c)); [lia|done]].
    intros i. cbn beta. rewrite object_at_snoc, length_insert. unfold upd. case_decide; [done|].
    symmetry. apply (object_at_insert (cl_registry c) (cl_slots c) from (Some 0) i Hs).
  - destruct (object_at to c) as [this|] eqn:Ht; [|done]. cbn in Hr.
    destruct (object_at from c) as [other|] eqn:Hf; [|done]. cbn in Hr.
    destruct (Nat.eqb_spec to from) as [|Hne]; [by injection Hr as <-|]. injection Hr as <-.
    pose proof (object_slot _ _ _ Ht) as Hst. pose proof (object_slot _ _ _ Hf) as Hsf.
    pose proof (owned_release _ _ _ to this (Some 0) O Ht (or_intror eq_refl)) as O'.
    eapply owned_ext; [|apply (owned_move _ _ _ to from other O');
      [right; unfold upd; by case_decide|done|unfold upd; by case_decide]].
    intros i. cbn beta. rewrite object_at_insert by (rewrite list_lookup_insert_ne; done).
    unfold upd at 1 4. case_decide; [done|].
    pose proof (object_at_insert (cl_registry c) _ from (Some 0) i Hsf) as Hi.
    unfold object_at at 1 in Hi. cbn in Hi. rewrite Hi. unfold upd. by repeat case_decide.
  - destruct (object_at i c) as [this|] eqn:Hi; [|done]. injection Hr as <-.
    eapply owned_ext; [|apply (owned_release _ _ _ i this (Some 0) O Hi); by right].
    intros j. symmetry. apply object_at_insert. by eapply object_slot.
  - destruct (object_at i c) as [this|] eqn:Hi; [|done]. injection Hr as <-.
    eapply owned_ext; [|apply (owned_release _ _ _ i this None O Hi); by left].
    intros j. symmetry. apply object_at_insert. by eapply object_slot.
Qed.

Lemma client_run_owned calls : forall given (c c' : Client P),
  owned given (cl_registry c) (at_ c) -> client_run calls c = Some c' ->
  Z.of_nat (length (given ++ given_by calls)) < 2 ^ 64 - 1 ->
  owned (given ++ given_by calls) (cl_registry c') (at_ c').
Proof.
  induction calls as [|call calls IH]; intros given c c' O Hr Hlen; cbn [client_run] in Hr.
  { injection Hr as <-. unfold given_by. cbn. by rewrite app_nil_r. }
  destruct (client_step call c) as [c1|] eqn:Hc; [|done].
  assert (given_by (call :: calls) = given_by [call] ++ given_by calls) as Hg.
  { unfold given_by. cbn. by destruct call as [|[]| | | |]. }
  rewrite Hg, app_assoc in *. apply (IH _ c1); [|done|done].
  apply (client_step_owned given call c); [done|done|]. rewrite length_app in Hlen. lia.
Qed.

(** C26: whatever a program does with its registrations (construct, register,
    move, assign, reset, destroy), a provider is in the registry as long as
    exactly one live registration object owns its number, and the registry keeps
    the providers in the order of registration.  (Fewer than [2^64 - 1]
    registrations: the counter of the numbers wraps around after that.) *)
Theorem registrations_own_providers calls (c : Client P) :
  client_run calls client = Some c -> Z.of_nat (length (given_by calls)) < 2 ^ 64 - 1 ->
  owned (given_by calls) (cl_registry c) (at_ c).
Proof.
  intros Hr Hlen. apply (client_run_owned calls [] client c); [|done|done].
  assert (forall i, object_at i (client : Client P) = None) as Hn by (by intros i).
  split; cbn; [done|constructor| | |].
  - intros id p. split; [by intros ?%not_elem_of_nil|]. intros (_ & _ & i & Hi). by rewrite Hn in Hi.
  - intros i id Hi. by rewrite Hn in Hi.
  - intros i j id _ Hi. by rewrite Hn in Hi.
Qed.

End ownership.

(** ** Searching *)

Section searching.
Context {P T W : Type}.
Implicit Types (ps : list P) (w : W).

(** What the providers answer, each called in the world its predecessor left. *)
Fixpoint answers (discover : P -> W -> option (list str) * W) ps w : list (option (list str)) * W :=
  match ps with
  | [] => ([], w)
  | p :: ps =>
      let '(a, w1) := discover p w in
      let '(l, w2) := answers discover ps w1 in (a :: l, w2)
  end.

Lemma discover_loop_answers discover wanted ps : forall resources w,
  discover_loop discover wanted ps resources w =
  (resources ++ mjoin ((fun a => omap (accepted wanted) (default [] a)) <$> (answers discover ps w).1),
   (answers discover ps w).2).
Proof.
  induction ps as [|p ps IH]; intros resources w; cbn; [by rewrite app_nil_r|].
  destruct (discover p w) as [[names|] w1]; rewrite IH; destruct (answers discover ps w1); cbn;
    by rewrite <- ?app_assoc.
Qed.

Lemma accepted_spec wanted name c :
  accepted wanted name = Some c <->
  exists d, parse_resource name = Some d /\ rd_kind d ∈ wanted /\ rd_canonical_name d = c.
Proof.
  unfold accepted. destruct (parse_resource name) as [d|]; cbn; [|naive_solver].
  case_bool_decide; naive_solver.
Qed.

(** Discovery asks every registered provider in turn, whether or not
    another one throws, and returns in strictly increasing order exactly the
    canonical names of the wanted resources among their answers. *)
Theorem discover_resources_spec discover wanted (st : RegistryState P) w :
  let '(said, w') := answers discover (provider_snapshot st) w in
  let '(resources, w'') := discover_resources discover wanted st w in
  w'' = w' /\ StronglySorted str_lt resources /\
  (length said = length (providers st)) /\
  forall c, c ∈ resources <->
    exists names name d, Some names ∈ said /\ name ∈ names /\
      parse_resource name = Some d /\ rd_kind d ∈ wanted /\ rd_canonical_name d = c.
Proof.
  unfold discover_resources. rewrite discover_loop_answers. cbn [app].
  assert (length (answers discover (provider_snapshot st) w).1 = length (providers st)) as Hlen.
  { unfold provider_snapshot. generalize (providers st) as l. intros l. revert w.
    induction l as [|[k p] l IH]; intros w; [done|]. cbn. destruct (discover p w) as [a w1].
    specialize (IH w1). destruct (answers discover _ w1). cbn in *. lia. }
  destruct (answers discover _ w) as [said w'] eqn:Ha. cbn in Hlen |- *.
  split; [done|]. split; [apply unique_sorted, StronglySorted_merge_sort; apply _|]. split; [done|].
  intros c. rewrite unique_elem, merge_sort_Permutation, list_elem_of_join.
  setoid_rewrite list_elem_of_fmap. split.
  - intros (l & Hc & [names|] & -> & Hn); [|by apply not_elem_of_nil in Hc].
    apply list_elem_of_omap in Hc as (name & Hname & (d & Hd)%accepted_spec).
    exists names, name, d. naive_solver.
  - intros (names & name & d & Hs & Hn & Hd). exists (omap (accepted wanted) names).
    split; [|by exists (Some names)]. apply list_elem_of_omap. exists name. split; [done|].
    apply accepted_spec. by exists d.
Qed.

(** [p] does not have the resource, or cannot open it. *)
Definition declines (open : P -> Z -> W -> opened T * W) (p : P) (status : Z) w w' : Prop :=
  open p VI_ERROR_RSRC_NFOUND w = (Ok (None, status), w') /\ status < VI_SUCCESS.

Inductive all_decline (open : P -> Z -> W -> opened T * W) : list P -> list Z -> W -> W -> Prop :=
| decline_nil w : all_decline open [] [] w w
| decline_cons p ps status statuses w w1 w2 :
    declines open p status w w1 -> all_decline open ps statuses w1 w2 ->
    all_decline open (p :: ps) (status :: statuses) w w2.

(** The first failure that is more than an unknown resource. *)
Definition first_failure (statuses : list Z) : Z :=
  default VI_ERROR_RSRC_NFOUND (head (filter (fun status => status <> VI_ERROR_RSRC_NFOUND) statuses)).

(** What the provider that decides says. *)
Inductive decides (open : P -> Z -> W -> opened T * W) (destroy : T -> W -> W) (p : P) w :
  opened T -> W -> Prop :=
| decides_open transport status w' :
    open p VI_ERROR_RSRC_NFOUND w = (Ok (Some transport, status), w') -> VI_SUCCESS <= status ->
    decides open destroy p w (Ok (Some transport, status)) w'
| decides_refuse transport status w' :
    open p VI_ERROR_RSRC_NFOUND w = (Ok (Some transport, status), w') -> status < VI_SUCCESS ->
    decides open destroy p w (Ok (None, status)) (destroy transport w')
| decides_nothing status w' :
    open p VI_ERROR_RSRC_NFOUND w = (Ok (None, status), w') -> VI_SUCCESS <= status ->
    decides open destroy p w (Ok (None, VI_ERROR_SYSTEM_ERROR)) w'
| decides_throw e w' :
    open p VI_ERROR_RSRC_NFOUND w = (Throw e, w') -> decides open destroy p w (Throw e) w'.

Lemma open_loop_outcome open destroy ps : forall deferred w,
  (exists statuses w', all_decline open ps statuses w w' /\
    open_loop open destroy ps deferred w =
    (Ok (None, if deferred =? VI_ERROR_RSRC_NFOUND then first_failure statuses else deferred), w')) \/
  (exists before p after statuses w1 r w', ps = before ++ p :: after /\
    all_decline open before statuses w w1 /\ decides open destroy p w1 r w' /\
    open_loop open destroy ps deferred w = (r, w')).
Proof.
  induction ps as [|p ps IH]; intros deferred w; cbn [open_loop].
  { left. exists [], w. split; [constructor|]. destruct (Z.eqb_spec deferred VI_ERROR_RSRC_NFOUND) as [->|]; done. }
  assert (forall r w', decides open destroy p w r w' ->
    exists before p' after statuses w1 r' w'', p :: ps = before ++ p' :: after /\
      all_decline open before statuses w w1 /\ decides open destroy p' w1 r' w'' /\ (r, w') = (r', w'')) as Hnow.
  { intros r w' Hd. exists [], p, ps, [], w, r, w'. split; [done|]. split; [constructor|done]. }
  destruct (open p VI_ERROR_RSRC_NFOUND w) as [[[[t|] status]|e] w1] eqn:Ho.
  - right. destruct (Z.ltb_spec status VI_SUCCESS); apply Hnow; by econstructor.
  - destruct (Z.leb_spec VI_SUCCESS status) as [|Hs]; [right; apply Hnow; by econstructor|].
    set (deferred' := if _ && _ then status else deferred).
    destruct (IH deferred' w1) as [(statuses & w' & Hd & ->)|
      (before & q & after & statuses & w2 & r & w' & -> & Hd & Hq & ->)].
    + left. exists (status :: statuses), w'. split; [by econstructor|]. do 2 f_equal. f_equal.
      unfold deferred', first_failure. rewrite filter_cons.
      destruct (Z.eqb_spec deferred VI_ERROR_RSRC_NFOUND) as [->|Hdef].
      * destruct (Z.eqb_spec status VI_ERROR_RSRC_NFOUND) as [->|Hst]; cbn [negb andb].
        -- by rewrite Z.eqb_refl, decide_False by tauto.
        -- rewrite (proj2 (Z.eqb_neq _ _) Hst), decide_True by done. done.
      * rewrite andb_false_r. by rewrite (proj2 (Z.eqb_neq _ _) Hdef).
    + right. exists (p :: before), q, after, (status :: statuses), w2, r, w'.
      split; [done|]. split; [by econstructor|done].
  - right. apply Hnow. by constructor.
Qed.

(** C27: opening asks the providers in the order of registration.  Nobody
    registered is its own error; if all decline, the status is the first failure
    that is not an unknown resource; otherwise the first provider that does not
    decline decides.  A transport comes with a success, no transport with an
    error. *)
Theorem open_transport_spec open destroy (st : RegistryState P) w r w' :
  open_transport open destroy st w = (r, w') ->
  match r with
  | Ok (Some _, status) => VI_SUCCESS <= status
  | Ok (None, status) => status < VI_SUCCESS
  | Throw _ => True
  end /\
  ((provider_snapshot st = [] /\ r = Ok (None, VI_ERROR_NSUP_OPER) /\ w' = w) \/
   (exists statuses, provider_snapshot st <> [] /\
     all_decline open (provider_snapshot st) statuses w w' /\
     r = Ok (None, first_failure statuses)) \/
   (exists before p after statuses w1, provider_snapshot st = before ++ p :: after /\
     all_decline open before statuses w w1 /\ decides open destroy p w1 r w')).
Proof.
  unfold open_transport. case_bool_decide as He; [intros [= <- <-]; split; [done|by left]|].
  destruct (open_loop_outcome open destroy (provider_snapshot st) VI_ERROR_RSRC_NFOUND w)
    as [(statuses & w1 & Hd & ->)|(before & p & after & statuses & w1 & r1 & w2 & Hps & Hd & Hp & ->)];
    intros [= <- <-].
  - split; [|right; left; by exists statuses].
    assert (Forall (fun status => status < VI_SUCCESS) statuses) as Hall.
    { clear He. induction Hd as [|q qs s ss u u1 u2 [_ Hs]]; by constructor. }
    unfold first_failure. destruct (filter _ statuses) as [|s l] eqn:Hf; [done|].
    assert (s ∈ filter (fun status => status <> VI_ERROR_RSRC_NFOUND) statuses) as Hs by (rewrite Hf; left).
    apply list_elem_of_filter in Hs as [_ Hs]. by apply (proj1 (Forall_forall _ _) Hall).
  - split; [by destruct Hp|]. right. right. by exists before, p, after, statuses, w1.
Qed.

End searching.

(** The static registration is made once. *)
Lemma ensure_registered_once {P} create (g : UsbProcess P) :
  ensure_libusb_provider_registered create (ensure_libusb_provider_registered create g) =
  ensure_libusb_provider_registered create g.
Proof. unfold ensure_libusb_provider_registered. by destruct create, (libusb_registration g) eqn:E; cbn; rewrite ?E. Qed.

(** ** Witnesses *)

(** Two providers; the first throws in [discover]. *)
Definition two_providers : RegistryState bool :=
  mkRegistry 3 [(1, true); (2, false)].

Lemma registrations_own_providers_witness :
  exists c : Client bool,
    client_run [register (Some true); register (Some false); construct; move_assign 2 0;
               register (Some true); destroy 1; move_assign 3 2] client = Some c /\
    provider_snapshot (cl_registry c) = [true] /\ object_at 3 c = Some 1 /\
    owned [true; false; true] (cl_registry c) (fun i => object_at i c).
Proof.
  eexists. split; [vm_compute; reflexivity|]. split; [reflexivity|]. split; [reflexivity|].
  apply (registrations_own_providers
    [register (Some true); register (Some false); construct; move_assign 2 0;
     register (Some true); destroy 1; move_assign 3 2]); [vm_compute; reflexivity|reflexivity].
Defined.

Lemma open_transport_spec_witness :
  let open := fun (p : bool) (_ : Z) (w : nat) =>
    (if p then Ok (None, VI_ERROR_NPERMISSION) else Ok (Some tt, VI_SUCCESS) : opened unit, S w) in
  open_transport open (fun _ w => w) two_providers 0%nat = (Ok (Some tt, VI_SUCCESS), 2%nat) /\
  exists before p after, provider_snapshot two_providers = before ++ p :: after.
Proof.
  intros open. split; [vm_compute; reflexivity|].
  destruct (open_transport_spec open (fun _ w => w) two_providers 0%nat (Ok (Some tt, VI_SUCCESS)) 2%nat
    ltac:(vm_compute; reflexivity)) as [_ [(Hn & _)|[(st & _ & _ & Hr)|(b & p & a & _ & _ & Hs & _)]]].
  - discriminate.
  - discriminate.
  - by exists b, p, a.
Defined.
