(* ===== verification/InterfaceArbiter.v ===== *)
(** * Interface leases: [UsbInterfaceLease], [UsbInterfaceArbiter] of
      [backends/usb/usb_provider.{h,cpp}]

    Connections to one interface share one claim: the arbiter keeps a weak
    pointer to the lease of each identity, and the lease calls its release
    function when its last owner goes or when it is invalidated.  Leases live in
    a heap with their owners counted; every thread inside this code is the list
    of the actions it still has to do, and threads take turns in any order. *)

From stdpp Require Import sorting.
From S2P Require Import Prelude Visa ResourceManager.

(** [ls_release]: the function has not been moved out of [release_].
    [ls_calls] counts its calls. *)
Record Lease := mkLease {
  ls_identity : str;
  ls_owners : nat;
  ls_release : bool;
  ls_calls : nat }.

Inductive action :=
| invalidate_lease (i : nat)
| call_release (i : nat)
| drop_owner (i : nat).

#[global] Instance action_eq_dec : EqDecision action.
Proof. solve_decision. Defined.

(** [held]: the owners outside this code. *)
Record Arbiter := mkArbiter {
  leases_ : gmap str nat;
  heap : list Lease;
  held : list nat;
  threads : list (list action) }.

Definition no_leases : Arbiter := mkArbiter ∅ [] [] [].

Definition with_heap (h : list Lease) (a : Arbiter) : Arbiter :=
  mkArbiter (leases_ a) h (held a) (threads a).
Definition with_threads (ts : list (list action)) (a : Arbiter) : Arbiter :=
  mkArbiter (leases_ a) (heap a) (held a) ts.
Definition with_leases (m : gmap str nat) (a : Arbiter) : Arbiter :=
  mkArbiter m (heap a) (held a) (threads a).
Definition with_held (l : list nat) (a : Arbiter) : Arbiter :=
  mkArbiter (leases_ a) (heap a) l (threads a).

Definition with_owners (n : nat) (l : Lease) : Lease :=
  mkLease (ls_identity l) n (ls_release l) (ls_calls l).

(** ** Leases *)

(** [weak.lock()]: a new owner, unless the last one has gone. *)
Definition lock_weak (i : nat) (a : Arbiter) : option Arbiter :=
  l ← heap a !! i;
  if Nat.eqb (ls_owners l) 0 then None
  else Some (with_heap (<[i := with_owners (S (ls_owners l)) l]> (heap a)) a).

(** One action, and what its thread has to do before it goes on.
    [invalidate_lease]: take the function under the mutex of the lease, then
    call it.  [drop_owner]: the last owner runs the destructor. *)
Definition run_action (x : action) (a : Arbiter) : option (list action * Arbiter) :=
  match x with
  | invalidate_lease i =>
      l ← heap a !! i;
      if ls_release l
      then Some ([call_release i],
                 with_heap (<[i := mkLease (ls_identity l) (ls_owners l) false (ls_calls l)]> (heap a)) a)
      else Some ([], a)
  | call_release i =>
      l ← heap a !! i;
      Some ([], with_heap (<[i := mkLease (ls_identity l) (ls_owners l) (ls_release l) (S (ls_calls l))]>
                             (heap a)) a)
  | drop_owner i =>
      l ← heap a !! i;
      match ls_owners l with
      | O => None
      | S n => Some (if Nat.eqb n 0 then [invalidate_lease i] else [],
                     with_heap (<[i := with_owners n l]> (heap a)) a)
      end
  end.

(** ** The arbiter

    Each function up to the end of its critical section is one step.  In
    [acquire], [claim()] runs under the mutex of the arbiter: leases can lose
    owners meanwhile, but a lease found dead stays dead. *)

(** [claim]: the status [claim()] returns, if it is called. *)
Definition acquire (identity : str) (has_claim has_release : bool) (claim : Z) (a : Arbiter)
  : option nat * Z * Arbiter :=
  if bool_decide (identity = []) || negb has_claim || negb has_release
  then (None, VI_ERROR_INV_PARAMETER, a)
  else
    match leases_ a !! identity ≫= (fun i => (fun a' => (i, a')) <$> lock_weak i a) with
    | Some (i, a') => (Some i, VI_SUCCESS, with_held (i :: held a') a')
    | None =>
        let a1 := with_leases (delete identity (leases_ a)) a in
        if claim <? VI_SUCCESS then (None, claim, a1)
        else
          let i := length (heap a1) in
          (Some i, claim,
           mkArbiter (<[identity := i]> (leases_ a1)) (heap a1 ++ [mkLease identity 1 true 0])
             (i :: held a1) (threads a1))
    end.

Definition spawn (todo : list action) (a : Arbiter) : Arbiter :=
  with_threads (threads a ++ [todo]) a.

Definition invalidate (identity : str) (a : Arbiter) : Arbiter :=
  match leases_ a !! identity with
  | None => a
  | Some i =>
      let a1 := with_leases (delete identity (leases_ a)) a in
      match lock_weak i a1 with
      | Some a2 => spawn [invalidate_lease i; drop_owner i] a2
      | None => a1
      end
  end.

(** The locks of [invalidate_all], in the order of the map. *)
Fixpoint lock_all (l : list nat) (a : Arbiter) : list nat * Arbiter :=
  match l with
  | [] => ([], a)
  | i :: l =>
      match lock_weak i a with
      | Some a1 => let '(live, a2) := lock_all l a1 in (i :: live, a2)
      | None => lock_all l a
      end
  end.

Definition leases_in_order (m : gmap str nat) : list nat :=
  omap (fun identity => m !! identity) (merge_sort str_le (elements (dom m))).

Definition invalidate_all (a : Arbiter) : Arbiter :=
  let '(live, a1) := lock_all (leases_in_order (leases_ a)) a in
  spawn (map invalidate_lease live ++ map drop_owner live) (with_leases ∅ a1).

(** ** Steps *)

Fixpoint remove_one (i : nat) (l : list nat) : option (list nat) :=
  match l with
  | [] => None
  | j :: l => if Nat.eqb i j then Some l else (fun l' => j :: l') <$> remove_one i l
  end.

Inductive arbiter_event :=
| on_acquire (identity : str) (has_claim has_release : bool) (claim : Z)
| on_copy (i : nat)
| on_let_go (i : nat)
| on_invalidate (identity : str)
| on_invalidate_all
| on_thread (t : nat).

Definition arbiter_step (e : arbiter_event) (a : Arbiter) : option Arbiter :=
  match e with
  | on_acquire identity has_claim has_release claim =>
      Some (acquire identity has_claim has_release claim a).2
  | on_copy i =>
      if bool_decide (i ∈ held a)
      then a' ← lock_weak i a; Some (with_held (i :: held a') a') else None
  | on_let_go i => l ← remove_one i (held a); Some (spawn [drop_owner i] (with_held l a))
  | on_invalidate identity => Some (invalidate identity a)
  | on_invalidate_all => Some (invalidate_all a)
  | on_thread t =>
      match threads a !! t with
      | Some (x :: rest) =>
          '(first, a') ← run_action x a;
          Some (with_threads (<[t := first ++ rest]> (threads a')) a')
      | _ => None
      end
  end.

Fixpoint arbiter_run (es : list arbiter_event) (a : Arbiter) : option Arbiter :=
  match es with
  | [] => Some a
  | e :: es => a' ← arbiter_step e a; arbiter_run es a'
  end.

(** ** Accounts *)

Definition occurs (x : action) (todo : list action) : nat := length (filter (fun y => y = x) todo).

Definition pending (x : action) (a : Arbiter) : nat := sum_list_with (occurs x) (threads a).

Definition copies (i : nat) (l : list nat) : nat := length (filter (fun j => j = i) l).

Arguments occurs : simpl never.
Arguments copies : simpl never.

(** Every owner is outside, on its way ([extra]) or a drop to come; the release
    function is in place, about to be called, or has been called. *)
Record accounted (extra : nat) (i : nat) (l : Lease) (a : Arbiter) : Prop := mkAccounted {
  acc_owners : ls_owners l = (extra + copies i (held a) + pending (drop_owner i) a)%nat;
  acc_calls : (Nat.b2n (ls_release l) + pending (call_release i) a + ls_calls l = 1)%nat;
  acc_kept : ls_release l = true ->
    (0 < pending (invalidate_lease i) a)%nat \/
    (0 < ls_owners l)%nat /\ leases_ a !! ls_identity l = Some i;
  acc_clean : leases_ a !! ls_identity l = Some i -> (0 < ls_owners l)%nat ->
    pending (invalidate_lease i) a = 0%nat /\ ls_release l = true }.

Record arbiter_inv (extra : nat -> nat) (a : Arbiter) : Prop := mkInv {
  inv_accounted i l : heap a !! i = Some l -> accounted (extra i) i l a;
  inv_table identity i : leases_ a !! identity = Some i ->
    exists l, heap a !! i = Some l /\ ls_identity l = identity;
  inv_heap i : (0 < copies i (held a) + pending (drop_owner i) a + pending (invalidate_lease i) a
                + pending (call_release i) a)%nat -> is_Some (heap a !! i) }.

Abbreviation arbiter_ok := (arbiter_inv (fun _ => 0%nat)).

Lemma occurs_nil x : occurs x [] = 0%nat.
Proof. done. Qed.

Lemma occurs_cons x y todo : occurs x (y :: todo) = ((if decide (y = x) then 1 else 0) + occurs x todo)%nat.
Proof. unfold occurs. rewrite filter_cons. by case_decide. Qed.

Lemma occurs_app x t1 t2 : occurs x (t1 ++ t2) = (occurs x t1 + occurs x t2)%nat.
Proof. unfold occurs. by rewrite filter_app, length_app. Qed.

Lemma copies_cons i j l : copies i (j :: l) = ((if decide (j = i) then 1 else 0) + copies i l)%nat.
Proof. unfold copies. rewrite filter_cons. by case_decide. Qed.

Lemma remove_one_copies i l l' :
  remove_one i l = Some l' -> forall j, copies j l = ((if decide (i = j) then 1 else 0) + copies j l')%nat.
Proof.
  revert l'. induction l as [|k l IH]; intros l'; [done|]. cbn [remove_one].
  destruct (Nat.eqb_spec i k) as [->|Hne]; [intros [= <-] j; by rewrite copies_cons|].
  destruct (remove_one i l) as [l1|]; [|done]. intros [= <-] j. rewrite !copies_cons, (IH l1 eq_refl j). lia.
Qed.

Lemma copies_elem i l : i ∈ l -> (0 < copies i l)%nat.
Proof.
  induction l as [|j l IH]; [by intros ?%not_elem_of_nil|].
  rewrite copies_cons. intros [->|Hi]%elem_of_cons; [rewrite decide_True by done; lia|]. apply IH in Hi. lia.
Qed.

Lemma pending_spawn x todo a : pending x (spawn todo a) = (pending x a + occurs x todo)%nat.
Proof. unfold pending, spawn. cbn. rewrite sum_list_with_app. cbn. lia. Qed.

(** *** Taking references *)

Lemma lock_weak_some i a a' :
  lock_weak i a = Some a' ->
  exists l, heap a !! i = Some l /\ (0 < ls_owners l)%nat /\
    a' = with_heap (<[i := with_owners (S (ls_owners l)) l]> (heap a)) a.
Proof.
  unfold lock_weak. destruct (heap a !! i) as [l|]; [|done]. cbn.
  destruct (Nat.eqb_spec (ls_owners l) 0); [done|]. intros [= <-]. exists l. split; [done|]. split; [lia|done].
Qed.

Lemma lock_weak_leases i m a : lock_weak i (with_leases m a) = with_leases m <$> lock_weak i a.
Proof. unfold lock_weak. cbn. destruct (heap a !! i); [|done]. cbn. by destruct (Nat.eqb _ _). Qed.

Lemma lock_weak_none i l a : lock_weak i a = None -> heap a !! i = Some l -> ls_owners l = 0%nat.
Proof. unfold lock_weak. intros Hn Hl. rewrite Hl in Hn. cbn in Hn. by destruct (Nat.eqb_spec (ls_owners l) 0). Qed.

Lemma lock_weak_inv extra i a a' :
  arbiter_inv extra a -> lock_weak i a = Some a' ->
  arbiter_inv (fun j => ((if decide (j = i) then 1 else 0) + extra j)%nat) a'.
Proof.
  intros [A Tb Hp] (l & Hl & Ho & ->)%lock_weak_some. unfold with_heap.
  split; cbn [heap leases_ held threads].
  - intros j l'. case_decide as Hj.
    + subst j. rewrite list_lookup_insert_eq by (by eapply lookup_lt_Some). intros [= <-].
      destruct (A _ _ Hl) as [O C K Cl].
      split; cbn [with_owners ls_owners ls_release ls_calls ls_identity held leases_]; [|done| |].
      * unfold pending in *. cbn [threads]. lia.
      * intros Hr. destruct (K Hr) as [|[? ?]]; [by left|]. right. split; [lia|done].
      * intros Ht _. by apply Cl.
    + rewrite list_lookup_insert_ne by done. intros Hl'. destruct (A _ _ Hl') as [O C K Cl]. by split.
  - intros identity j Hj. destruct (Tb _ _ Hj) as (l' & Hl' & Hid). destruct (decide (j = i)) as [->|].
    + rewrite list_lookup_insert_eq by (by eapply lookup_lt_Some). eexists. split; [done|].
      rewrite Hl in Hl'. by injection Hl' as <-.
    + rewrite list_lookup_insert_ne by done. by exists l'.
  - intros j Hj. rewrite lookup_lt_is_Some, length_insert. by apply lookup_lt_is_Some, Hp.
Qed.

Lemma hold_inv extra i a :
  arbiter_inv (fun j => ((if decide (j = i) then 1 else 0) + extra j)%nat) a -> is_Some (heap a !! i) ->
  arbiter_inv extra (with_held (i :: held a) a).
Proof.
  intros [A Tb Hp] Hi. split; unfold with_held; cbn [heap leases_ held threads].
  - intros j l Hl. destruct (A _ _ Hl) as [O C K Cl]. split; cbn [heap leases_ held threads]; [|done..].
    rewrite copies_cons. unfold pending in *. cbn [threads]. repeat case_decide; subst; (done || lia).
  - apply Tb.
  - intros j. rewrite copies_cons. case_decide; [by subst|]. apply Hp.
Qed.

(** Forgetting a lease that nobody owns. *)
Lemma forget_dead extra identity i a :
  arbiter_inv extra a -> leases_ a !! identity = Some i -> lock_weak i a = None ->
  arbiter_inv extra (with_leases (delete identity (leases_ a)) a).
Proof.
  intros [A Tb Hp] Hi Hw. destruct (Tb _ _ Hi) as (li & Hli & Hid).
  pose proof (lock_weak_none _ _ _ Hw Hli) as Hdead.
  split; unfold with_leases; cbn [heap leases_ held threads].
  - intros j l Hl. destruct (A _ _ Hl) as [O C K Cl]. split; cbn [heap leases_ held threads]; [done|done| |].
    + intros Hr. destruct (K Hr) as [|[Ho Ht]]; [by left|]. destruct (decide (ls_identity l = identity)) as [He|].
      * rewrite He, Hi in Ht. injection Ht as ->. rewrite Hli in Hl. injection Hl as ->. lia.
      * right. by rewrite lookup_delete_ne.
    + rewrite lookup_delete_Some. intros [_ Ht]. by apply Cl.
  - intros id j [_ Hj]%lookup_delete_Some. by apply Tb.
  - apply Hp.
Qed.

(** Leases leave the table and [todo] begins, which drops the owners on their way. *)
Lemma retire (extra : nat -> nat) (m : gmap str nat) todo a :
  arbiter_inv extra a -> m ⊆ leases_ a ->
  (forall i, occurs (drop_owner i) todo = extra i /\ occurs (call_release i) todo = 0%nat) ->
  (forall i l, heap a !! i = Some l ->
     (leases_ a !! ls_identity l = Some i -> m !! ls_identity l <> Some i ->
      (0 < occurs (invalidate_lease i) todo)%nat \/ ls_owners l = 0%nat) /\
     (m !! ls_identity l = Some i -> occurs (invalidate_lease i) todo = 0%nat)) ->
  (forall i, (0 < occurs (invalidate_lease i) todo + occurs (drop_owner i) todo)%nat -> is_Some (heap a !! i)) ->
  arbiter_ok (spawn todo (with_leases m a)).
Proof.
  intros [A Tb Hp] Hm Hd Hg Hi. split.
  - intros i l Hl. destruct (A _ _ Hl) as [O C K Cl]. destruct (Hg _ _ Hl) as [Hout Hin].
    destruct (Hd i) as [Hdi Hci]. cbn in Hl.
    split; rewrite ?pending_spawn; unfold spawn, with_threads, with_leases, pending in *;
      cbn [heap leases_ held threads] in *; [lia|lia| |].
    + intros Hr. destruct (K Hr) as [|[Ho Ht]]; [left; lia|].
      destruct (decide (m !! ls_identity l = Some i)); [by right|].
      destruct (Hout Ht) as [|]; [done|left; lia|lia].
    + intros Ht Ho. destruct Cl as [Hz Hr]; [by apply (lookup_weaken m)|done|]. rewrite (Hin Ht). split; [lia|done].
  - intros identity i Hi'. apply (Tb identity). by apply (lookup_weaken m).
  - intros i. rewrite !pending_spawn. destruct (Hd i) as [Hdi Hci]. rewrite Hci. cbn.
    intros Hpos. destruct (decide (0 < occurs (invalidate_lease i) todo + occurs (drop_owner i) todo)%nat) as [|Hz];
      [by apply Hi|]. apply Hp. unfold pending in *. cbn in *. lia.
Qed.

(** *** The steps *)

Lemma ok_start : arbiter_ok no_leases.
Proof. split; [done|by intros ? ? ?|]. intros i. unfold copies, pending. cbn. lia. Qed.

Lemma table_unique a identity identity' i extra :
  arbiter_inv extra a -> leases_ a !! identity = Some i -> leases_ a !! identity' = Some i ->
  identity = identity'.
Proof.
  intros I H1 H2. apply (inv_table _ _ I) in H1 as (l1 & Hl1 & <-). apply (inv_table _ _ I) in H2 as (l2 & Hl2 & <-).
  congruence.
Qed.

Lemma claim_inv identity a :
  arbiter_ok a -> leases_ a !! identity = None ->
  arbiter_ok (mkArbiter (<[identity := length (heap a)]> (leases_ a))
                (heap a ++ [mkLease identity 1 true 0]) (length (heap a) :: held a) (threads a)).
Proof.
  intros [A Tb Hp] Hn.
  assert (forall i, (0 < copies i (held a) + pending (drop_owner i) a + pending (invalidate_lease i) a
                      + pending (call_release i) a)%nat -> i <> length (heap a)) as Hnew.
  { intros i Hi ->. apply Hp, lookup_lt_is_Some in Hi. lia. }
  split; cbn [heap leases_ held threads].
  - intros i l Hl. rewrite lookup_app in Hl. destruct (heap a !! i) as [l'|] eqn:Hi.
    + injection Hl as <-. pose proof (lookup_lt_Some _ _ _ Hi) as Hlt. destruct (A _ _ Hi) as [O C K Cl].
      split; cbn [heap leases_ held threads]; rewrite ?copies_cons, ?decide_False by lia; try done.
      * intros Hr. destruct (K Hr) as [|[Ho Ht]]; [by left|]. right.
        rewrite lookup_insert_ne; [done|]. intros He. by rewrite <- He, Hn in Ht.
      * intros Ht. apply Cl. rewrite lookup_insert_ne in Ht; [done|].
        intros He. rewrite <- He, lookup_insert_eq in Ht. injection Ht as <-. lia.
    + apply list_lookup_singleton_Some in Hl as [Hz <-]. apply lookup_ge_None in Hi.
      assert (i = length (heap a)) as -> by lia.
      specialize (Hnew (length (heap a))). unfold pending in *. cbn [threads] in *.
      split; cbn [ls_owners ls_release ls_calls ls_identity held leases_ threads Nat.b2n];
        rewrite ?copies_cons, ?lookup_insert_eq; unfold pending; cbn [threads];
        try (rewrite decide_True by done); [|lia|by right; split; [lia|]|].
      * destruct (decide (0 < copies (length (heap a)) (held a) +
          sum_list_with (occurs (drop_owner (length (heap a)))) (threads a))%nat); [|lia].
        exfalso. apply Hnew; [lia|done].
      * intros _ _. split; [|done].
        destruct (sum_list_with (occurs (invalidate_lease (length (heap a)))) (threads a)) eqn:Hz'; [done|].
        exfalso. apply Hnew; [lia|done].
  - intros id i Hi. destruct (decide (id = identity)) as [->|].
    + rewrite lookup_insert_eq in Hi. injection Hi as <-.
      exists (mkLease identity 1 true 0). by rewrite lookup_app_r, Nat.sub_diag by lia.
    + rewrite lookup_insert_ne in Hi by done. destruct (Tb _ _ Hi) as (l & Hl & Hid). exists l.
      split; [|done]. by apply lookup_app_l_Some.
  - intros i. rewrite copies_cons. intros Hi. rewrite lookup_lt_is_Some, length_app. cbn.
    case_decide as Hd; [lia|]. cbn in Hi. apply Hp, lookup_lt_is_Some in Hi. lia.
Qed.

Lemma acquire_ok identity has_claim has_release claim a :
  arbiter_ok a -> arbiter_ok (acquire identity has_claim has_release claim a).2.
Proof.
  intros I. unfold acquire. case_match; [done|].
  destruct (leases_ a !! identity) as [i|] eqn:Hi; cbn.
  - destruct (lock_weak i a) as [a'|] eqn:Hw; cbn.
    + apply hold_inv; [by apply (lock_weak_inv _ _ _ _ I)|].
      apply lock_weak_some in Hw as (l & Hl & _ & ->). cbn.
      rewrite list_lookup_insert_eq by (by eapply lookup_lt_Some). done.
    + pose proof (forget_dead _ _ _ _ I Hi Hw) as I'. case_match; [done|].
      apply (claim_inv identity _ I'). apply lookup_delete_eq.
  - assert (with_leases (delete identity (leases_ a)) a = a) as Hsame.
    { rewrite delete_id by done. by destruct a. }
    rewrite delete_id by done. case_match; cbn [snd]; [by rewrite delete_id in Hsame by done; rewrite Hsame|].
    by apply claim_inv.
Qed.

Lemma invalidate_ok identity a : arbiter_ok a -> arbiter_ok (invalidate identity a).
Proof.
  intros I. unfold invalidate. destruct (leases_ a !! identity) as [i|] eqn:Hi; [|done].
  set (m := delete identity (leases_ a)).
  rewrite lock_weak_leases. destruct (fmap _ _) as [a2|] eqn:Hw.
  - destruct (lock_weak i a) as [a1|] eqn:Hw1; [|done]. injection Hw as <-.
    pose proof (lock_weak_inv _ _ _ _ I Hw1) as I1.
    apply lock_weak_some in Hw1 as (l & Hl & Ho & ->).
    apply (retire _ m [invalidate_lease i; drop_owner i] _ I1).
    + apply delete_subseteq.
    + intros j. rewrite !occurs_cons, !occurs_nil. repeat case_decide; simplify_eq; by split.
    + intros j lj Hj. rewrite !occurs_cons, occurs_nil. cbn in Hj |- *. split.
      * intros Ht Hm. left. destruct (decide (ls_identity lj = identity)) as [He|Hne].
        -- rewrite He, Hi in Ht. injection Ht as <-. rewrite decide_True by done. lia.
        -- exfalso. apply Hm. unfold m. by rewrite lookup_delete_ne.
      * unfold m. rewrite lookup_delete_Some. intros [Hne Ht]. rewrite decide_False; [done|].
        intros [= <-]. apply Hne. by apply (table_unique a _ _ i _ I).
    + intros j. rewrite !occurs_cons, !occurs_nil. cbn. intros Hj. rewrite lookup_lt_is_Some, length_insert.
      repeat case_decide; simplify_eq; try (by eapply lookup_lt_Some). cbn in Hj. lia.
  - apply (forget_dead _ _ i _ I Hi). by destruct (lock_weak i a).
Qed.

Lemma inv_ext extra extra' a : (forall i, extra i = extra' i) -> arbiter_inv extra a -> arbiter_inv extra' a.
Proof. intros He [A Tb Hp]. split; [|done..]. intros i l Hl. rewrite <- He. by apply A. Qed.

Lemma occurs_map (f : nat -> action) `{!Inj eq eq f} i l : occurs (f i) (map f l) = copies i l.
Proof.
  induction l as [|j l IH]; [done|]. cbn [map]. rewrite occurs_cons, copies_cons, IH. f_equal.
  repeat case_decide; simplify_eq; done.
Qed.

Lemma occurs_map_other x (f : nat -> action) l : (forall j, f j <> x) -> occurs x (map f l) = 0%nat.
Proof.
  intros Hf. induction l as [|j l IH]; [done|]. cbn [map]. by rewrite occurs_cons, IH, decide_False.
Qed.

#[local] Instance invalidate_lease_inj : Inj eq eq invalidate_lease.
Proof. by intros i j [= ->]. Qed.
#[local] Instance drop_owner_inj : Inj eq eq drop_owner.
Proof. by intros i j [= ->]. Qed.

Record locked (extra : nat -> nat) (l live : list nat) (a a1 : Arbiter) : Prop := {
  locked_inv : arbiter_inv (fun j => (copies j live + extra j)%nat) a1;
  locked_table : leases_ a1 = leases_ a;
  locked_heap i : is_Some (heap a !! i) -> is_Some (heap a1 !! i);
  locked_dead i li : heap a !! i = Some li -> ls_owners li = 0%nat -> heap a1 !! i = Some li;
  locked_all i li : i ∈ l -> heap a1 !! i = Some li -> i ∈ live \/ ls_owners li = 0%nat;
  locked_live i : i ∈ live -> is_Some (heap a1 !! i) }.

Lemma lock_all_locked l : forall extra live a a1,
  arbiter_inv extra a -> Forall (fun i => is_Some (heap a !! i)) l ->
  lock_all l a = (live, a1) -> locked extra l live a a1.
Proof.
  induction l as [|i l IH]; intros extra live a a1 I Hl; cbn [lock_all].
  { intros [= <- <-]. split; [exact I|done|done|done|..]; by intros ? ?%not_elem_of_nil || by intros ? ? ?%not_elem_of_nil. }
  apply Forall_cons in Hl as [[li Hli] Hl]. destruct (lock_weak i a) as [a'|] eqn:Hw.
  - destruct (lock_all l a') as [live' a2] eqn:Ha. intros [= <- <-].
    pose proof (lock_weak_inv _ _ _ _ I Hw) as I'.
    apply lock_weak_some in Hw as (li' & Hli' & Ho & ->).
    assert (forall j, is_Some (heap a !! j) ->
      is_Some (heap (with_heap (<[i:=with_owners (S (ls_owners li')) li']> (heap a)) a) !! j)) as Hsome.
    { intros j Hj. cbn. by rewrite lookup_lt_is_Some, length_insert, <- lookup_lt_is_Some. }
    destruct (IH _ _ _ _ I' ltac:(eapply Forall_impl; [exact Hl|apply Hsome]) Ha) as [I2 Ht Hp Hd Hall Hlive].
    split.
    + eapply inv_ext; [|exact I2]. intros j. cbn. rewrite copies_cons. repeat case_decide; simplify_eq; lia.
    + done.
    + intros j Hj. by apply Hp, Hsome.
    + intros j lj Hj Hz. apply Hd; [|done]. cbn. rewrite list_lookup_insert_ne; [done|].
      intros <-. rewrite Hj in Hli'. injection Hli' as ->. lia.
    + intros j lj [->|Hj]%elem_of_cons Hlj; [left; left|]. destruct (Hall _ _ Hj Hlj); [left; by right|by right].
    + intros j [->|Hj]%elem_of_cons; [|by apply Hlive]. apply Hp, Hsome. by exists li.
  - intros Ha. destruct (IH _ _ _ _ I Hl Ha) as [I2 Ht Hp Hd Hall Hlive].
    split; [done..| |done]. intros j lj [->|Hj]%elem_of_cons Hlj; [|by apply Hall]. right.
    pose proof (lock_weak_none _ _ _ Hw Hli) as Hz. rewrite (Hd _ _ Hli Hz) in Hlj. by injection Hlj as <-.
Qed.

Lemma leases_in_order_elem m i : i ∈ leases_in_order m <-> exists identity, m !! identity = Some i.
Proof.
  unfold leases_in_order. rewrite list_elem_of_omap. setoid_rewrite merge_sort_Permutation.
  setoid_rewrite elem_of_elements. setoid_rewrite elem_of_dom. split.
  - intros (identity & _ & Hi). by exists identity.
  - intros (identity & Hi). by exists identity.
Qed.

Lemma invalidate_all_ok a : arbiter_ok a -> arbiter_ok (invalidate_all a).
Proof.
  intros I. unfold invalidate_all. destruct (lock_all _ a) as [live a1] eqn:Ha.
  apply (lock_all_locked _ _ _ _ _ I) in Ha as [I1 Ht Hp Hd Hall Hlive].
  2:{ apply Forall_forall. intros i (identity & Hi)%leases_in_order_elem.
      apply (inv_table _ _ I) in Hi as (l & Hl & _). by exists l. }
  assert (forall i, occurs (invalidate_lease i) (map invalidate_lease live ++ map drop_owner live) = copies i live) as Hinv.
  { intros i. rewrite occurs_app, (occurs_map invalidate_lease), occurs_map_other by done. lia. }
  apply (retire _ ∅ _ _ I1).
  - apply map_empty_subseteq.
  - intros i. rewrite !occurs_app, (occurs_map drop_owner), !occurs_map_other by done. split; lia.
  - intros i l Hl. rewrite Hinv. split; [|done]. intros Htab _. rewrite Ht in Htab.
    destruct (Hall i l) as [Hin|]; [|done|left; by apply copies_elem|by right].
    apply leases_in_order_elem. by exists (ls_identity l).
  - intros i. rewrite Hinv, occurs_app, (occurs_map drop_owner), occurs_map_other by done.
    intros Hpos. apply Hlive. destruct (decide (i ∈ live)) as [|Hn]; [done|]. exfalso.
    assert (copies i live = 0%nat) as Hz; [|lia]. clear -Hn.
    induction live as [|j live IH]; [done|]. rewrite copies_cons. apply not_elem_of_cons in Hn as [Hne Hn].
    rewrite decide_False by done. by apply IH.
Qed.

Lemma pending_thread t x rest first y a :
  threads a !! t = Some (x :: rest) ->
  (sum_list_with (occurs y) (<[t := first ++ rest]> (threads a)) + (if decide (x = y) then 1 else 0) =
   pending y a + occurs y first)%nat.
Proof.
  intros Ht. pose proof (sum_list_with_insert (occurs y) _ _ _ (first ++ rest) Ht) as Hs.
  rewrite occurs_app, occurs_cons in Hs. unfold pending. case_decide; lia.
Qed.

Lemma thread_some t x rest a :
  threads a !! t = Some (x :: rest) -> (0 < pending x a)%nat.
Proof.
  intros Ht. pose proof (pending_thread t x rest [] x a Ht) as Hp. rewrite decide_True in Hp by done.
  rewrite occurs_nil in Hp. lia.
Qed.

(** One lease changes and one thread goes on: the other leases do not notice. *)
Lemma thread_inv t x rest first i l' a :
  arbiter_ok a -> threads a !! t = Some (x :: rest) -> is_Some (heap a !! i) ->
  (forall j y, j <> i -> y = invalidate_lease j \/ y = call_release j \/ y = drop_owner j ->
     occurs y first = 0%nat /\ x <> y) ->
  (forall l, heap a !! i = Some l -> ls_identity l' = ls_identity l) ->
  accounted 0 i l' (mkArbiter (leases_ a) (<[i := l']> (heap a)) (held a) (<[t := first ++ rest]> (threads a))) ->
  arbiter_ok (mkArbiter (leases_ a) (<[i := l']> (heap a)) (held a) (<[t := first ++ rest]> (threads a))).
Proof.
  intros [A Tb Hp] Ht Hi Hother Hid Hacc.
  assert (forall j y, j <> i -> y = invalidate_lease j \/ y = call_release j \/ y = drop_owner j ->
    sum_list_with (occurs y) (<[t := first ++ rest]> (threads a)) = pending y a) as Hsame.
  { intros j y Hj Hy. destruct (Hother j y Hj Hy) as [Hf Hx].
    pose proof (pending_thread t x rest first y a Ht) as He. rewrite decide_False in He by done. lia. }
  split; cbn [leases_ heap held threads].
  - intros j l. destruct (decide (j = i)) as [->|Hj].
    + rewrite list_lookup_insert_eq by (by apply lookup_lt_is_Some_1). by intros [= <-].
    + rewrite list_lookup_insert_ne by done. intros Hl. destruct (A _ _ Hl) as [O C K Cl].
      split; unfold pending; cbn [leases_ heap held threads]; rewrite (Hsame j) by tauto; done.
  - intros identity j Hj. destruct (Tb _ _ Hj) as (l & Hl & <-). destruct (decide (j = i)) as [->|].
    + exists l'. rewrite list_lookup_insert_eq by (by apply lookup_lt_is_Some_1). split; [done|by apply Hid].
    + exists l. by rewrite list_lookup_insert_ne.
  - intros j. rewrite lookup_lt_is_Some, length_insert. destruct (decide (j = i)) as [->|Hj].
    + intros _. by apply lookup_lt_is_Some.
    + unfold pending. cbn [threads]. rewrite !(Hsame j) by tauto. intros Hpos. by apply lookup_lt_is_Some, Hp.
Qed.

Lemma thread_step_ok t x rest first a a' :
  arbiter_ok a -> threads a !! t = Some (x :: rest) -> run_action x a = Some (first, a') ->
  arbiter_ok (with_threads (<[t := first ++ rest]> (threads a')) a').
Proof.
  intros I Ht Hr. pose proof (thread_some _ _ _ _ Ht) as Hpos.
  destruct x as [i|i|i]; cbn [run_action] in Hr; destruct (heap a !! i) as [l|] eqn:Hl; try done; cbn in Hr;
    destruct (inv_accounted _ _ I _ _ Hl) as [O C K Cl];
    pose proof (fun y first => pending_thread t _ rest first y a Ht) as Hpt.
  - assert (leases_ a !! ls_identity l = Some i -> (0 < ls_owners l)%nat -> False) as Hnot.
    { intros H1 H2. destruct (Cl H1 H2). lia. }
    destruct (ls_release l) eqn:Hrel; injection Hr as <- <-.
    + unfold with_threads, with_heap. cbn [leases_ heap held threads].
      apply (thread_inv t (invalidate_lease i) rest); [done|done|by exists l| |intros ? Hl'; by rewrite Hl in Hl'; injection Hl' as <-|].
      * intros j y Hj Hy. rewrite occurs_cons, occurs_nil. destruct Hy as [->|[->| ->]]; split;
          rewrite ?decide_False; congruence || lia.
      * pose proof (Hpt (drop_owner i) [call_release i]) as P1. pose proof (Hpt (call_release i) [call_release i]) as P2.
        rewrite occurs_cons, occurs_nil, !decide_False in P1 by done.
        rewrite occurs_cons, occurs_nil, decide_False, decide_True in P2 by done.
        split; unfold pending; cbn in *; [lia|lia|done|]. intros H1 H2. by destruct (Hnot H1 H2).
    + assert (with_threads (<[t := [] ++ rest]> (threads a)) a =
        mkArbiter (leases_ a) (<[i := l]> (heap a)) (held a) (<[t := [] ++ rest]> (threads a))) as ->
        by (by rewrite (list_insert_id (heap a) i l)).
      apply (thread_inv t (invalidate_lease i) rest); [done|done|by exists l| |intros ? Hl'; by rewrite Hl in Hl'; injection Hl' as <-|].
      * intros j y Hj Hy. rewrite occurs_nil. destruct Hy as [->|[->| ->]]; split; congruence.
      * pose proof (Hpt (drop_owner i) []) as P1. pose proof (Hpt (call_release i) []) as P2.
        rewrite occurs_nil, decide_False in P1 by done. rewrite occurs_nil, decide_False in P2 by done.
        split; unfold pending; cbn in *; rewrite ?Hrel; cbn; [lia|lia|done|]. intros H1 H2. by destruct (Hnot H1 H2).
  - injection Hr as <- <-.
    unfold with_threads, with_heap. cbn [leases_ heap held threads].
    apply (thread_inv t (call_release i) rest); [done|done|by exists l| |intros ? Hl'; by rewrite Hl in Hl'; injection Hl' as <-|].
    + intros j y Hj Hy. rewrite occurs_nil. destruct Hy as [->|[->| ->]]; split; congruence.
    + pose proof (Hpt (drop_owner i) []) as P1. pose proof (Hpt (call_release i) []) as P2.
      pose proof (Hpt (invalidate_lease i) []) as P3.
      rewrite occurs_nil, decide_False in P1 by done. rewrite occurs_nil, decide_False in P3 by done.
      rewrite occurs_nil, decide_True in P2 by done. rewrite !Nat.add_0_r in P1. rewrite !Nat.add_0_r in P3. split; unfold pending; cbn in *; rewrite ?P3, ?P1; [lia|lia| |].
      * intros Hrel. destruct (K Hrel) as [|]; [left; lia|by right].
      * intros H1 H2. destruct (Cl H1 H2). split; [lia|done].
  - destruct (ls_owners l) as [|n] eqn:Ho; [done|]. injection Hr as <- <-.
    unfold with_threads, with_heap. cbn [leases_ heap held threads].
    apply (thread_inv t (drop_owner i) rest); [done|done|by exists l| |intros ? Hl'; by rewrite Hl in Hl'; injection Hl' as <-|].
    + intros j y Hj Hy. split; [|destruct Hy as [->|[->| ->]]; congruence].
      destruct (Nat.eqb_spec n 0); [|apply occurs_nil]. rewrite occurs_cons, occurs_nil.
      destruct Hy as [->|[->| ->]]; rewrite decide_False; congruence || lia.
    + set (first := if Nat.eqb n 0 then [invalidate_lease i] else []).
      pose proof (Hpt (drop_owner i) first) as P1. pose proof (Hpt (call_release i) first) as P2.
      pose proof (Hpt (invalidate_lease i) first) as P3.
      rewrite decide_True in P1 by done. rewrite decide_False in P2 by done. rewrite decide_False in P3 by done.
      assert (occurs (drop_owner i) first = 0%nat /\ occurs (call_release i) first = 0%nat /\
        occurs (invalidate_lease i) first = if Nat.eqb n 0 then 1%nat else 0%nat) as (F1 & F2 & F3).
      { unfold first. destruct (Nat.eqb n 0); rewrite ?occurs_cons, ?occurs_nil; repeat case_decide; done. }
      rewrite F1 in P1. rewrite F2 in P2. rewrite F3 in P3.
      split; unfold pending; cbn in *; [lia|lia| |].
      * intros Hrel. destruct (Nat.eqb_spec n 0); [left; lia|]. destruct (K Hrel) as [|[_ ?]]; [left; lia|right].
        split; [lia|done].
      * intros H1 H2. destruct (Nat.eqb_spec n 0); [lia|]. destruct Cl as [Hz Hrel]; [done|lia|]. split; [lia|done].
Qed.

Lemma let_go_ok i l a :
  arbiter_ok a -> remove_one i (held a) = Some l -> arbiter_ok (spawn [drop_owner i] (with_held l a)).
Proof.
  intros I Hl. pose proof (remove_one_copies _ _ _ Hl) as Hc.
  assert (arbiter_inv (fun j => (if decide (i = j) then 1 else 0)%nat) (with_held l a)) as I1.
  { destruct I as [A Tb Hp]. split; [|done|].
    - intros j lj Hj. destruct (A _ _ Hj) as [O C K Cl]. rewrite Hc in O. by split; [cbn; unfold pending in *; cbn; lia|..].
    - intros j Hj. apply Hp. rewrite Hc. unfold pending in *. cbn in *. lia. }
  replace (with_held l a) with (with_leases (leases_ a) (with_held l a)) by (by destruct a).
  apply (retire _ _ _ _ I1); [done| | |].
  - intros j. rewrite !occurs_cons, !occurs_nil. repeat case_decide; simplify_eq; by split.
  - intros j lj Hj. by split.
  - intros j. rewrite !occurs_cons, !occurs_nil. cbn. intros Hpos. apply (inv_heap _ _ I). rewrite Hc.
    repeat case_decide; simplify_eq; lia.
Qed.

Lemma arbiter_step_ok e a a' : arbiter_ok a -> arbiter_step e a = Some a' -> arbiter_ok a'.
Proof.
  intros I. destruct e as [identity hc hr claim|i|i|identity| |t]; cbn [arbiter_step].
  - intros [= <-]. by apply acquire_ok.
  - case_bool_decide as Hi; [|done]. destruct (lock_weak i a) as [a1|] eqn:Hw; [|done]. intros [= <-].
    apply hold_inv; [by apply (lock_weak_inv _ _ _ _ I)|].
    apply lock_weak_some in Hw as (l & Hl & _ & ->). cbn.
    rewrite list_lookup_insert_eq by (by eapply lookup_lt_Some). done.
  - destruct (remove_one i (held a)) as [l|] eqn:Hl; [|done]. intros [= <-]. by apply let_go_ok.
  - intros [= <-]. by apply invalidate_ok.
  - intros [= <-]. by apply invalidate_all_ok.
  - destruct (threads a !! t) as [[|x rest]|] eqn:Ht; [done| |done].
    destruct (run_action x a) as [[first a1]|] eqn:Hr; [|done]. intros [= <-]. by eapply thread_step_ok.
Qed.

Lemma arbiter_run_ok es : forall a a', arbiter_ok a -> arbiter_run es a = Some a' -> arbiter_ok a'.
Proof.
  induction es as [|e es IH]; intros a a' I; cbn; [by intros [= <-]|].
  destruct (arbiter_step e a) as [a1|] eqn:He; [|done]. apply IH. by eapply arbiter_step_ok.
Qed.

(** ** What the arbiter promises *)

(** The lease is owned and nobody is about to invalidate it. *)
Definition usable (i : nat) (l : Lease) (a : Arbiter) : Prop :=
  heap a !! i = Some l /\ (0 < ls_owners l)%nat /\ ls_release l = true /\
  pending (invalidate_lease i) a = 0%nat.

Definition at_rest (a : Arbiter) : Prop := Forall (fun todo => todo = []) (threads a).

Lemma usable_in_table i l a : arbiter_ok a -> usable i l a -> leases_ a !! ls_identity l = Some i.
Proof.
  intros I (Hl & Ho & Hr & Hz). destruct (inv_accounted _ _ I _ _ Hl) as [_ _ K _].
  destruct (K Hr) as [|[_ Ht]]; [lia|done].
Qed.

Lemma rest_pending x a : at_rest a -> pending x a = 0%nat.
Proof. unfold at_rest, pending. induction 1 as [|todo ts ->]; [done|]. by cbn. Qed.

(** C28: however threads interleave, a claim of an interface is released at
    most once; two leases of one identity that are both usable are the same
    lease; acquiring an identity with a usable lease shares that lease and claims
    nothing.  Once no thread is inside this code, the claim of a lease has been
    released, exactly once, unless somebody owns it and it has not been
    invalidated. *)
Theorem interface_lease_safety es a :
  arbiter_run es no_leases = Some a ->
  (forall i l, heap a !! i = Some l ->
     (ls_calls l <= 1)%nat /\ (ls_release l = true -> ls_calls l = 0%nat)) /\
  (forall i j li lj, usable i li a -> usable j lj a -> ls_identity li = ls_identity lj -> i = j) /\
  (forall i l claim, usable i l a -> ls_identity l <> [] ->
     exists a', acquire (ls_identity l) true true claim a = (Some i, VI_SUCCESS, a') /\
       length (heap a') = length (heap a)) /\
  (at_rest a -> forall i l, heap a !! i = Some l ->
     ls_owners l = copies i (held a) /\
     (usable i l a /\ ls_calls l = 0%nat \/ ~ usable i l a /\ ls_calls l = 1%nat)).
Proof.
  intros Hr. pose proof (arbiter_run_ok es _ _ ok_start Hr) as I.
  repeat split.
  - destruct (inv_accounted _ _ I _ _ H) as [_ C _ _]. lia.
  - intros Hrel. destruct (inv_accounted _ _ I _ _ H) as [_ C _ _]. rewrite Hrel in C. cbn in C. lia.
  - intros i j li lj Hi%(usable_in_table _ _ _ I) Hj%(usable_in_table _ _ _ I) He. congruence.
  - intros i l claim Hu Hne. pose proof (usable_in_table _ _ _ I Hu) as Ht. destruct Hu as (Hl & Ho & _).
    unfold acquire. rewrite bool_decide_eq_false_2 by done. cbn. rewrite Ht. cbn. unfold lock_weak.
    rewrite Hl. cbn. destruct (Nat.eqb_spec (ls_owners l) 0); [lia|]. cbn.
    eexists. split; [done|]. cbn. apply length_insert.
  - destruct (inv_accounted _ _ I _ _ H0) as [O _ _ _]. rewrite (rest_pending _ _ H) in O. lia.
  - destruct (inv_accounted _ _ I _ _ H0) as [O C K Cl]. rewrite (rest_pending (call_release i) _ H) in C.
    unfold usable. rewrite (rest_pending _ _ H) in *. destruct (ls_release l) eqn:Hrel; cbn in C.
    + left. split; [|lia]. destruct (K eq_refl) as [|[? ?]]; [lia|done].
    + right. split; [|lia]. by intros (_ & _ & ? & _).
Qed.

(** *** Threads finish *)

Definition weight (x : action) : nat :=
  match x with invalidate_lease _ => 2 | call_release _ => 1 | drop_owner _ => 3 end.

Definition work (a : Arbiter) : nat := sum_list_with (sum_list_with weight) (threads a).

Lemma thread_works t x rest a :
  arbiter_ok a -> threads a !! t = Some (x :: rest) ->
  exists a', arbiter_step (on_thread t) a = Some a' /\ (work a' < work a)%nat.
Proof.
  intros I Ht. pose proof (thread_some _ _ _ _ Ht) as Hpos.
  assert (exists first a1, run_action x a = Some (first, a1) /\ threads a1 = threads a /\
    (sum_list_with weight first < weight x)%nat) as (first & a1 & Hx & Hsame & Hw).
  { assert (is_Some (heap a !! match x with invalidate_lease i | call_release i | drop_owner i => i end)) as [l Hl].
    { apply (inv_heap _ _ I). destruct x; lia. }
    destruct x as [i|i|i]; cbn [run_action]; rewrite Hl; cbn.
    - destruct (ls_release l); do 2 eexists; (split; [done|]); (split; [done|]); cbn; lia.
    - do 2 eexists. split; [done|]. split; [done|]. cbn. lia.
    - destruct (inv_accounted _ _ I _ _ Hl) as [O _ _ _]. destruct (ls_owners l) as [|n]; [lia|].
      do 2 eexists. split; [done|]. split; [done|]. destruct (Nat.eqb n 0); cbn; lia. }
  cbn [arbiter_step]. rewrite Ht, Hx. cbn. eexists. split; [done|]. unfold work. cbn.
  rewrite Hsame. pose proof (sum_list_with_insert (sum_list_with weight) _ _ _ (first ++ rest) Ht) as Hs.
  rewrite sum_list_with_app in Hs. cbn in Hs. lia.
Qed.

(** From every reachable state, the threads inside this code finish, and
    no thread is ever stuck: any schedule of them reaches rest within [work]
    steps. *)
Theorem interface_threads_finish es a :
  arbiter_run es no_leases = Some a ->
  exists ts a', arbiter_run (map on_thread ts) a = Some a' /\ at_rest a' /\ (length ts <= work a)%nat /\
    forall t x rest, threads a !! t = Some (x :: rest) ->
      exists a1, arbiter_step (on_thread t) a = Some a1 /\ (work a1 < work a)%nat.
Proof.
  intros Hr. pose proof (arbiter_run_ok es _ _ ok_start Hr) as I. clear Hr es.
  assert (forall n a, (work a <= n)%nat -> arbiter_ok a ->
    exists ts a', arbiter_run (map on_thread ts) a = Some a' /\ at_rest a' /\ (length ts <= work a)%nat) as Hall.
  { clear a I. induction n as [n IH] using lt_wf_ind. intros a Hn I.
    destruct (decide (Forall (fun todo => todo = []) (threads a))) as [Hrest|Hbusy].
    - exists [], a. split; [done|]. split; [done|]. cbn. lia.
    - apply not_Forall_Exists in Hbusy; [|apply _]. apply Exists_exists in Hbusy as (todo & Hin & Hne).
      destruct todo as [|x rest]; [by destruct Hne|]. apply list_elem_of_lookup in Hin as [t Ht].
      destruct (thread_works _ _ _ _ I Ht) as (a1 & Hs & Hw).
      destruct (IH (work a1)) with (a := a1) as (ts & a' & Hr & Hrest & Hlen); [lia|done|by eapply arbiter_step_ok|].
      exists (t :: ts), a'. cbn [map arbiter_run]. rewrite Hs. cbn. split; [done|]. split; [done|]. lia. }
  destruct (Hall (work a) a) as (ts & a' & H1 & H2 & H3); [done|done|]. exists ts, a'.
  split; [done|]. split; [done|]. split; [done|]. intros t x rest Ht. by eapply thread_works.
Qed.

(** ** What goes wrong *)

(** The last owner has gone but its thread has not called the release function
    yet: [acquire] forgets the dying lease and claims the interface while the
    old claim is still in place. *)
Example claim_overlaps_dying_lease :
  exists a, arbiter_run [on_acquire (lit "dev") true true VI_SUCCESS; on_let_go 0; on_thread 0;
                         on_acquire (lit "dev") true true VI_SUCCESS] no_leases = Some a /\
    (ls_calls <$> heap a) = [0%nat; 0%nat] /\ (ls_owners <$> heap a) = [0%nat; 1%nat].
Proof. eexists. split; [vm_compute; reflexivity|]. split; reflexivity. Qed.

(** ** Witnesses *)

(** Two owners of one lease, one invalidation while they hold it. *)
Definition lease_schedule : list arbiter_event :=
  [on_acquire (lit "dev") true true VI_SUCCESS; on_acquire (lit "dev") true true VI_ERROR_RSRC_BUSY;
   on_invalidate (lit "dev"); on_acquire (lit "dev") true true VI_SUCCESS; on_let_go 0; on_thread 0;
   on_thread 1; on_thread 0; on_thread 0; on_let_go 0; on_thread 2; on_thread 2].

Lemma interface_lease_safety_witness :
  exists a, arbiter_run lease_schedule no_leases = Some a /\ at_rest a /\
    (ls_calls <$> heap a !! 0%nat) = Some 1%nat /\ usable 1 (mkLease (lit "dev") 1 true 0) a.
Proof.
  destruct (arbiter_run lease_schedule no_leases) as [a|] eqn:Hr; [|vm_compute in Hr; discriminate].
  exists a. split; [done|]. destruct (interface_lease_safety lease_schedule a Hr) as (_ & _ & _ & Hrest).
  vm_compute in Hr. injection Hr as <-.
  specialize (Hrest ltac:(repeat constructor) 0%nat _ eq_refl).
  split; [repeat constructor|]. split; [|repeat split; constructor].
  destruct Hrest as [_ [[(_ & _ & Hu & _) _]|[_ ?]]]; [discriminate|reflexivity].
Defined.

Lemma interface_threads_finish_witness :
  exists a, arbiter_run (take 5 lease_schedule) no_leases = Some a /\
    exists ts a', arbiter_run (map on_thread ts) a = Some a' /\ at_rest a'.
Proof.
  destruct (arbiter_run (take 5 lease_schedule) no_leases) as [a|] eqn:Hr; [|vm_compute in Hr; discriminate].
  exists a. split; [done|].
  destruct (interface_threads_finish (take 5 lease_schedule) a Hr) as (ts & a' & H1 & H2 & _).
  by exists ts, a'.
Defined.
