(* ===== verification/UsbRawSession.v ===== *)
(** * Raw USB sessions: [backends/usb/usb_raw_session.{h,cpp}]

    Transfers on the endpoints the application configured.  What a read has
    received beyond a termination character is kept for the next read. *)

From S2P Require Import Prelude Visa Operation Bytes BackendSession Io UsbTransport ResourceManager.

Record UsbRawBackendSession (T : Type) := mkUsbRaw {
  ur_transport : T;
  ur_configuration : UsbRawConfiguration;
  ur_interface : UsbInterfaceInfo;
  ur_read_ahead : list Z }.
Arguments mkUsbRaw {_} _ _ _ _.
Arguments ur_transport {_} _.
Arguments ur_configuration {_} _.
Arguments ur_interface {_} _.
Arguments ur_read_ahead {_} _.

Definition transfer_matches (type : UsbTransferType) (endpoint : Z) (interface : UsbInterfaceInfo)
    (input : bool) : bool :=
  match type with
  | transfer_none => endpoint =? 0
  | transfer_bulk => endpoint =? (if input then ui_bulk_in_endpoint interface
                                  else ui_bulk_out_endpoint interface)
  | transfer_interrupt => endpoint =? (if input then ui_interrupt_in_endpoint interface
                                       else ui_interrupt_out_endpoint interface)
  end.

Definition raw_with_transport {T} (t : T) (s : UsbRawBackendSession T) : UsbRawBackendSession T :=
  mkUsbRaw t (ur_configuration s) (ur_interface s) (ur_read_ahead s).

Definition raw_with_ahead {T} (data : list Z) (s : UsbRawBackendSession T) : UsbRawBackendSession T :=
  mkUsbRaw (ur_transport s) (ur_configuration s) (ur_interface s) data.

#[export] Instance raw_owns {T} : OwnsTransport (UsbRawBackendSession T) T := {|
  own_transport := ur_transport;
  own_with_transport := raw_with_transport;
  own_transport_with t s := eq_refl;
  own_with_own s := match s with mkUsbRaw _ _ _ _ => eq_refl end;
  own_with_with t t' s := eq_refl |}.

Section raw.
  Context {T H : Type} `{UsbTransport T H}.

Abbreviation Session := (UsbRawBackendSession T).
Abbreviation IO R A := (io (Session * Operation H) R A).

Definition raw_make (t : T) (configuration : UsbRawConfiguration) : Session :=
  mkUsbRaw t configuration (ut_interface_info t) [].

Definition valid_configuration (s : Session) : bool :=
  let c := ur_configuration s in
  let i := ur_interface s in
  (ui_interface_number i <=? 255) && (ui_alternate_setting i =? raw_alternate_setting c)
  && transfer_matches (raw_read_transfer_type c) (raw_read_endpoint c) i true
  && transfer_matches (raw_write_transfer_type c) (raw_write_endpoint c) i false.

(** ** Reading *)

(** The bytes a read starts from: what is left over, or one transfer. *)
Definition raw_receive (count : Z) : IO reply (list Z) :=
  c <- get ur_configuration ;;
  ahead <- get ur_read_ahead ;;
  if bool_decide (ahead ≠ []) then
    let amount := Nat.min (Z.to_nat count) (length ahead) in
    modify (raw_with_ahead (drop amount ahead)) ;; io_ret (take amount ahead)
  else
    r <- match raw_read_transfer_type c with
         | transfer_bulk => transfer (fun op => ut_bulk_in op count)
         | transfer_interrupt => transfer (fun op => ut_interrupt_in op count)
         | transfer_none => io_ret (VI_ERROR_NSUP_OPER, [])
         end ;;
    let '(status, received) := r in
    if status <? VI_SUCCESS then io_return (status_only status)
    else if count <? Z.of_nat (length received) then io_return (status_only VI_ERROR_IO)
    else io_ret received.

(** The rest of [read], from the bytes received. *)
Definition raw_hand_out (count : Z) (options : ReadOptions) (received : list Z) : IO reply reply :=
  let found := if ro_termchar_enabled options
               then find_termchar (ro_termchar options) received else None in
  let status := if found is Some _ then VI_SUCCESS_TERM_CHAR
                else if Z.of_nat (length received) =? count then VI_SUCCESS_MAX_CNT
                else VI_SUCCESS in
  let amount := default (length received) found in
  won <- complete status ;;
  if negb won then
    modify (fun s => raw_with_ahead (received ++ ur_read_ahead s) s) ;; return_result status_only
  else
    modify (fun s => raw_with_ahead (ur_read_ahead s ++ drop amount received) s) ;;
    io_ret (mkReply status (u32 (Z.of_nat amount)) (take amount received)).

Definition raw_read_io (count : Z) (options : ReadOptions) : IO reply reply :=
  valid <- get valid_configuration ;;
  c <- get ur_configuration ;;
  if negb valid then io_return (status_only VI_ERROR_INV_PARAMETER)
  else if bool_decide (raw_read_transfer_type c = transfer_none)
  then io_return (status_only VI_ERROR_NSUP_OPER)
  else received <- raw_receive count ;; raw_hand_out count options received.

(** ** The other operations *)

Definition raw_write_io (buffer : list Z) : IO reply reply :=
  valid <- get valid_configuration ;;
  c <- get ur_configuration ;;
  if negb valid then io_return (status_only VI_ERROR_INV_PARAMETER)
  else if bool_decide (raw_write_transfer_type c = transfer_none)
  then io_return (status_only VI_ERROR_NSUP_OPER)
  else
    r <- match raw_write_transfer_type c with
         | transfer_bulk => transfer (fun op => ut_bulk_out op buffer)
         | transfer_interrupt => transfer (fun op => ut_interrupt_out op buffer)
         | transfer_none => io_ret (VI_ERROR_NSUP_OPER, 0)
         end ;;
    let '(status, transferred) := r in
    if VI_SUCCESS <=? status then
      if negb (transferred =? Z.of_nat (length buffer)) then io_return (status_only VI_ERROR_IO)
      else
        won <- complete status ;;
        if negb won then return_result status_only
        else io_ret (mkReply status (u32 transferred) [])
    else io_ret (status_only status).

(** [clear_halt] of one endpoint, if there is one: whether it was cleared. *)
Definition clear_endpoint (endpoint : Z) : IO reply bool :=
  if endpoint =? 0 then io_ret false
  else
    r <- transfer (fun op => ut_clear_halt op endpoint) ;;
    if r.1 <? VI_SUCCESS then io_return (status_only r.1) else io_ret true.

Definition raw_clear_io : IO reply reply :=
  valid <- get valid_configuration ;;
  c <- get ur_configuration ;;
  if negb valid then io_return (status_only VI_ERROR_INV_PARAMETER)
  else
    input <- clear_endpoint (raw_read_endpoint c) ;;
    output <- clear_endpoint (raw_write_endpoint c) ;;
    io_ret (status_only (if input || output then VI_SUCCESS else VI_ERROR_NSUP_OPER)).

Definition raw_flush (mask : Z) (s : Session) : Z * Z * Session :=
  if negb (valid_flush_mask mask) then (VI_ERROR_INV_MASK, 0, s)
  else (VI_SUCCESS, 0,
        if negb (Z.land mask (VI_READ_BUF_DISCARD + VI_IO_IN_BUF_DISCARD) =? 0)
        then raw_with_ahead [] s else s).

Definition raw_usb_control_io (request_type request value index : Z) (data : list Z) (count : Z)
  : IO reply reply :=
  valid <- get valid_configuration ;;
  if negb valid then io_return (status_only VI_ERROR_INV_PARAMETER)
  else
    let setup := mkUsbControlRequest request_type request value index in
    if negb (Z.land request_type 0x80 =? 0) then
      r <- transfer (fun op => ut_control_in op setup count) ;;
      let '(status, response) := r in
      if status <? VI_SUCCESS then io_return (status_only status)
      else if count <? Z.of_nat (length response) then io_return (status_only VI_ERROR_IO)
      else
        won <- complete status ;;
        if negb won then return_result status_only
        else io_ret (mkReply status (u32 (Z.of_nat (length response))) response)
    else
      r <- transfer (fun op => ut_control_out op setup (take (Z.to_nat count) data)) ;;
      let '(status, transferred) := r in
      if VI_SUCCESS <=? status then
        if count <? transferred then io_return (status_only VI_ERROR_IO)
        else
          won <- complete status ;;
          if negb won then return_result status_only
          else io_ret (mkReply status (u32 transferred) [])
      else io_ret (status_only status).

#[export] Instance raw_backend : BackendSession Session H := {|
  be_read op count options := run_io (raw_read_io count options) op;
  be_write op buffer options := run_io (raw_write_io buffer) op;
  be_clear op := run_io raw_clear_io op;
  be_flush op mask := forward (raw_flush mask) op;
  be_read_stb op present := forward (fun s => (VI_ERROR_NSUP_OPER, 0, s)) op;
  be_assert_trigger op protocol := forward (fun s => (VI_ERROR_NSUP_OPER, 0, s)) op;
  be_usb_control op request_type request value index data count :=
    run_io (raw_usb_control_io request_type request value index data count) op;
  be_lock := default_lock;
  be_unlock := default_unlock;
  be_set_attribute := default_set_attribute;
  be_get_attribute := default_get_attribute;
  be_close s := raw_with_transport (ut_close (ur_transport s)) s;
  be_notify_cancel s := raw_with_transport (ut_cancel (ur_transport s)) s |}.

(** ** The operation *)

Section laws.
  Context `{!UsbTransportLaws T H}.

#[export] Instance raw_laws : BackendLaws Session H.
Proof.
  split.
  - intros c ro wo op b r Hr.
    assert (forall m, steady ops_later m -> run_io m op b = Some r -> keeps_result op (cr_operation r))
      as Hrun by (intros m Hm Hrun; by apply (run_io_later m op b r)).
    destruct c; cbn in Hr; try (by injection Hr as <-); try (by eapply forward_keeps_result);
      eapply Hrun in Hr; try done; clear Hr Hrun.
    + unfold raw_read_io, raw_receive, raw_hand_out. transfers.
    + unfold raw_write_io. transfers.
    + unfold raw_clear_io, clear_endpoint. transfers.
    + unfold raw_usb_control_io. transfers.
  - intros op lock_type key b r [= <-] Hf. exact Hf.
  - intros op b r [= <-] Hf. exact Hf.
Qed.

End laws.
(** ** What a read returns *)

Section reading.
  (** A view of the bytes the endpoints have delivered to reads so far. *)
  Context (wire : T -> list Z).
  Hypothesis wire_bulk_in : forall op n t status d op' t',
    ut_bulk_in op n t = Some (status, d, op', t') ->
    wire t' = wire t ++ (if (status <? VI_SUCCESS) || (n <? Z.of_nat (length d)) then [] else d).
  Hypothesis wire_interrupt_in : forall op n t status d op' t',
    ut_interrupt_in op n t = Some (status, d, op', t') ->
    wire t' = wire t ++ (if (status <? VI_SUCCESS) || (n <? Z.of_nat (length d)) then [] else d).

(** [rest] is what a read leaves in the read-ahead, [received] what it takes
    from there or from the device. *)
Definition raw_received (count : Z) (s0 : Session) (received rest : list Z) (s : Session) : Prop :=
  exists new, wire (ur_transport s) = wire (ur_transport s0) ++ new /\
    ur_read_ahead s0 ++ new = received ++ rest /\ ur_read_ahead s = rest /\
    Z.of_nat (length received) <= count /\
    (Z.of_nat (length (ur_read_ahead s0)) <= count -> rest = []).

Definition raw_kept (s0 s : Session) : Prop :=
  exists new, wire (ur_transport s) = wire (ur_transport s0) ++ new /\
    ur_read_ahead s = ur_read_ahead s0 ++ new.

(** The outcome of [raw_receive] in a state [w]. *)
Definition raw_receive_post (count : Z) (w : Session * Operation H)
    (o : outcome (Session * Operation H) reply (list Z)) : Prop :=
  match o with
  | Next received w' => exists rest, raw_received count w.1 received rest w'.1
  | Return rp w' => rp_status rp < VI_SUCCESS /\ rp_data rp = [] /\ rp_value rp = 0 /\ raw_kept w.1 w'.1
  end.

Lemma raw_transfer_spec count (f : Operation H -> T -> usb_call T H (list Z)) w :
  (forall op t status d op' t', f op t = Some (status, d, op', t') ->
     wire t' = wire t ++ (if (status <? VI_SUCCESS) || (count <? Z.of_nat (length d)) then [] else d)) ->
  ur_read_ahead w.1 = [] ->
  holds (r <- transfer f ;;
    let '(status, received) := r in
    if status <? VI_SUCCESS then io_return (status_only status)
    else if count <? Z.of_nat (length received) then io_return (status_only VI_ERROR_IO)
    else io_ret received) w (raw_receive_post count w).
Proof.
  intros Hf Ha. apply holds_bind. intros o. unfold transfer.
  destruct (f _ _) as [[[[status d] op'] t']|] eqn:E; [|done]. intros [= <-].
  apply Hf in E. cbn [own_transport raw_owns own_with_transport] in E |- *.
  assert (wire t' = wire (ur_transport w.1) -> raw_kept w.1 (raw_with_transport t' w.1)) as Hkept.
  { intros Hw. exists []. by rewrite !app_nil_r. }
  destruct (Z.ltb_spec status VI_SUCCESS) as [Hst|Hst]; cbn [orb] in E.
  { rewrite app_nil_r in E. apply holds_return. by split; [|split; [|split; [|apply Hkept]]]. }
  destruct (Z.ltb_spec count (Z.of_nat (length d))) as [Hl|Hl].
  { rewrite app_nil_r in E. apply holds_return. by split; [|split; [|split; [|apply Hkept]]]. }
  apply holds_ret. exists [], d. cbn. rewrite Ha, app_nil_r. split; [done|]. split; [done|].
  split; [done|]. split; [lia|done].
Qed.

Lemma raw_receive_spec count w :
  0 < count -> raw_read_transfer_type (ur_configuration w.1) ≠ transfer_none ->
  holds (raw_receive count) w (raw_receive_post count w).
Proof.
  intros Hc Ht. unfold raw_receive. apply holds_bind, holds_gets. apply holds_bind, holds_gets.
  case_bool_decide as Ha.
  - apply holds_bind, holds_modify, holds_ret. set (ahead := ur_read_ahead w.1).
    set (amount := Nat.min (Z.to_nat count) (length ahead)).
    exists (drop amount ahead), []. cbn. fold ahead. rewrite !app_nil_r, take_drop.
    split; [done|]. split; [done|]. split; [done|]. rewrite length_take. split; [unfold amount; lia|].
    intros Hl. apply drop_ge. unfold amount. lia.
  - destruct (raw_read_transfer_type _); [done| |].
    + apply raw_transfer_spec; [|done]. intros. by eapply wire_bulk_in.
    + apply raw_transfer_spec; [|done]. intros. by eapply wire_interrupt_in.
Qed.

(** Why a read ended. *)
Definition raw_ended (count : Z) (options : ReadOptions) (status : Z) (data : list Z) : Prop :=
  (status = VI_SUCCESS_TERM_CHAR /\ ro_termchar_enabled options = true /\
     exists pre, data = pre ++ [ro_termchar options] /\ ro_termchar options ∉ pre) \/
  ((ro_termchar_enabled options = true -> ro_termchar options ∉ data) /\
     status = if Z.of_nat (length data) =? count then VI_SUCCESS_MAX_CNT else VI_SUCCESS).

(** A read that hands out nothing, and one that hands out [data]. *)
Definition raw_refused (s0 : Session) (rp : reply) (w : Session * Operation H) : Prop :=
  rp_data rp = [] /\ rp_value rp = 0 /\ raw_kept s0 w.1 /\
  (rp_status rp < VI_SUCCESS \/ rp_status rp = op_result w.2).

Definition raw_handed_out (s0 : Session) (count : Z) (options : ReadOptions) (rp : reply)
    (w : Session * Operation H) : Prop :=
  op_result w.2 = rp_status rp /\ rp_value rp = Z.of_nat (length (rp_data rp)) /\ rp_value rp <= count /\
  raw_ended count options (rp_status rp) (rp_data rp) /\
  exists new tail rest, wire (ur_transport w.1) = wire (ur_transport s0) ++ new /\
    ur_read_ahead s0 ++ new = rp_data rp ++ tail ++ rest /\ ur_read_ahead w.1 = rest ++ tail /\
    (Z.of_nat (length (ur_read_ahead s0)) <= count -> rest = []) /\
    (rp_status rp ≠ VI_SUCCESS_TERM_CHAR -> tail = []).

Lemma raw_hand_out_spec s0 count options received rest w :
  0 < count < 2 ^ 32 -> raw_received count s0 received rest w.1 ->
  holds (raw_hand_out count options received) w (fun o =>
    match o with Next rp w' | Return rp w' =>
      raw_refused s0 rp w' \/ raw_handed_out s0 count options rp w' end).
Proof.
  intros Hcount (new & Hw & Hnew & Hrest & Hlen & Hfit). unfold raw_hand_out.
  set (found := if ro_termchar_enabled options then _ else None).
  assert (forall n, found = Some n -> ro_termchar_enabled options = true /\ (n <= length received)%nat /\
    exists pre, take n received = pre ++ [ro_termchar options] /\ ro_termchar options ∉ pre) as Hfound.
  { intros n. unfold found. destruct (ro_termchar_enabled options); [|done].
    intros (pre & ? & ? & ?)%find_termchar_Some. split; [done|]. split; [done|]. by exists pre. }
  assert (found = None -> ro_termchar_enabled options = true -> ro_termchar options ∉ received) as Hnone.
  { unfold found. intros Hf Hen. rewrite Hen in Hf. by apply find_termchar_None. }
  clearbody found. apply holds_bind, holds_complete.
  - intros op' Hop. cbn [negb]. apply holds_bind, holds_modify, holds_ret. right.
    assert (default (length received) found <= length received)%nat as Hle
      by (destruct found as [n|]; [by apply Hfound|done]).
    assert (length (take (default (length received) found) received) = default (length received) found)
      as Hl by (rewrite length_take; lia).
    assert (u32 (Z.of_nat (default (length received) found)) = Z.of_nat (default (length received) found))
      as Hu by (unfold u32; apply Z.mod_small; lia).
    split; [done|]. cbn [rp_value rp_data rp_status fst]. rewrite Hu, Hl. split; [done|].
    split; [lia|]. split.
    { destruct found as [n|]; cbn [default from_option id].
      - left. destruct (Hfound n eq_refl) as (? & _ & ?). done.
      - right. rewrite take_ge by done. auto. }
    exists new, (drop (default (length received) found) received), rest.
    split; [done|]. split; [by rewrite app_assoc, take_drop|].
    split; [cbn; by rewrite Hrest|]. split; [done|]. intros Hst. destruct found as [n|]; [done|].
    by apply drop_ge.
  - cbn [negb]. apply holds_bind, holds_modify, holds_return_result. left.
    split; [done|]. split; [done|]. split; [|by right]. exists new. split; [done|].
    cbn. by rewrite Hrest, Hnew.
Qed.

(** What a read of a raw USB session returns.  A read that fails, or whose
    operation was cancelled or timed out, hands out nothing and keeps every
    byte the device has delivered.  A read that succeeds hands out the next
    bytes, up to [count] or the first termination character, as its status
    says, and keeps the others in their order; except that when a termination
    character is found in a read-ahead longer than [count], the bytes between
    the termination character and [count] are queued behind the bytes that
    follow them. *)
Theorem usb_raw_read_contract op count options s r :
  0 < count < 2 ^ 32 -> run_io (raw_read_io count options) op s = Some r ->
  let rp := mkReply (cr_status r) (cr_value r) (cr_data r) in
  let w := (cr_backend r, cr_operation r) in
  (raw_refused s rp w \/ raw_handed_out s count options rp w) /\
  (Z.of_nat (length (ur_read_ahead s)) <= count \/ cr_status r ≠ VI_SUCCESS_TERM_CHAR ->
     exists new, wire (ur_transport (cr_backend r)) = wire (ur_transport s) ++ new /\
       ur_read_ahead s ++ new = cr_data r ++ ur_read_ahead (cr_backend r)).
Proof.
  intros Hcount Hr rp w.
  assert (raw_refused s rp w \/ raw_handed_out s count options rp w) as Hpost.
  { apply (run_io_holds _ _ _ _ (fun rp w => raw_refused s rp w \/ raw_handed_out s count options rp w)) in Hr;
      [done|]. unfold raw_read_io. apply holds_bind, holds_gets. apply holds_bind, holds_gets.
    assert (forall st w', st < VI_SUCCESS -> w'.1 = s -> raw_refused s (status_only st) w') as Hrefuse.
    { intros st w' Hst Hw. split; [done|]. split; [done|]. split; [|by left]. exists [].
      by rewrite Hw, !app_nil_r. }
    destruct (negb _); [apply holds_return; left; by apply Hrefuse|].
    case_bool_decide as Ht; [apply holds_return; left; by apply Hrefuse|].
    apply holds_bind. eapply holds_mono; [by apply raw_receive_spec; [lia|]|].
    intros [received w'|rp' w'].
    - intros [rest Hrest]. by apply (raw_hand_out_spec s count options received rest).
    - intros (? & ? & ? & ?). left. split; [done|]. split; [done|]. split; [done|]. by left. }
  split; [exact Hpost|]. intros Hfit. destruct Hpost as [(Hd & _ & (new & Hw & Ha) & _)|Hout].
  - exists new. split; [done|]. cbn in Hd, Ha. by rewrite Hd, Ha.
  - destruct Hout as (_ & _ & _ & _ & new & tail & rest & Hw & Hs & Ha & Hr1 & Hr2).
    exists new. split; [done|]. cbn in *. rewrite Hs, Ha. f_equal.
    destruct Hfit as [Hfit|Hst]; [rewrite (Hr1 Hfit)|rewrite (Hr2 Hst)]; by rewrite ?app_nil_r.
Qed.
End reading.

End raw.

(** ** Witness and counterexample *)

Definition bulk_configuration : UsbRawConfiguration :=
  mkUsbRawConfiguration 0 transfer_bulk 0x81 transfer_bulk 0x01.

Definition bulk_interface : UsbInterfaceInfo := mkUsbInterfaceInfo 0 0x01 0x81 0 64 false 0 0.

Definition script_accepted (seen : list (Z * list Z)) : list Z :=
  concat ((fun p => if p.1 <? Z.of_nat (length p.2) then [] else p.2) <$> seen).

Lemma script_bulk_wire {H} (op : Operation H) n t status d op' t' :
  script_bulk_in op n t = Some (status, d, op', t') ->
  script_accepted (us_seen t') = script_accepted (us_seen t) ++
    (if (status <? VI_SUCCESS) || (n <? Z.of_nat (length d)) then [] else d).
Proof.
  intros (_ & _ & _ & ->)%script_bulk_spec. unfold script_accepted. rewrite fmap_app, concat_app. f_equal.
  destruct (status <? VI_SUCCESS); [done|]. cbn. by rewrite app_nil_r.
Qed.

Lemma usb_raw_read_contract_witness :
  let _ := @script_usb unit in
  let op := mkOperation (H := unit) kPending None None in
  let options := mkReadOptions true 10 in
  let s := mkUsbRaw (mkUsbScript bulk_interface [[65; 66; 10; 67]] [] [] 0) bulk_configuration
             bulk_interface [] in
  exists r, run_io (raw_read_io 8 options) op s = Some r /\
    cr_data r = [65; 66; 10] /\ ur_read_ahead (cr_backend r) = [67] /\
    exists new, script_accepted (us_seen (ur_transport (cr_backend r))) =
        script_accepted (us_seen (ur_transport s)) ++ new /\
      ur_read_ahead s ++ new = cr_data r ++ ur_read_ahead (cr_backend r).
Proof.
  intros tr op options s.
  destruct (run_io (raw_read_io 8 options) op s) as [r|] eqn:Hr; [|vm_compute in Hr; discriminate].
  exists r. split; [done|]. assert (Hr' := Hr). vm_compute in Hr'. injection Hr' as <-.
  split; [reflexivity|]. split; [reflexivity|].
  refine (proj2 (@usb_raw_read_contract _ _ (@script_usb unit) (fun t => script_accepted (us_seen t))
    (@script_bulk_wire unit) _ op 8 options s _ _ Hr) _); [|lia|left; vm_compute; discriminate].
  intros op0 n t status d op' t' [= <- <- <- <-]. symmetry. apply app_nil_r.
Defined.

(** A read of four bytes from the read-ahead [66; 10; 67; 68; 69; 70] hands out
    the line [66; 10], and the next one gets the bytes 69, 70 before 67, 68. *)
Lemma usb_raw_read_reorders :
  let _ := @script_usb unit in
  let op := mkOperation (H := unit) kPending None None in
  let options := mkReadOptions true 10 in
  let s := mkUsbRaw (mkUsbScript bulk_interface [] [] [] 0) bulk_configuration bulk_interface
             [66; 10; 67; 68; 69; 70] in
  let first := run_io (raw_read_io 4 options) op s in
  cr_data <$> first = Some [66; 10] /\
  cr_data <$> (r ← first; run_io (raw_read_io 4 options) op (cr_backend r)) = Some [69; 70; 67; 68].
Proof. vm_compute. split; reflexivity. Qed.
