(* ===== verification/LibusbDescriptors.v ===== *)
(** * USB descriptors: the first part of [backends/usb/libusb_provider.{h,cpp}]

    Which interfaces of a device a session can use, and what they are called.
    Descriptors are data as libusb gives them; the rest of libusb is in the
    files that call it. *)

From stdpp Require Import sorting.
From S2P Require Import Prelude Visa CText ResourceParser ResourceManager UsbTransport UsbRawSession.

(** ** Descriptors *)

(** [libusb_endpoint_descriptor], [libusb_interface_descriptor] and the
    interfaces of a [libusb_config_descriptor], each with its alternate settings:
    the members this code reads. *)
Record libusb_endpoint := mkLibusbEndpoint {
  bEndpointAddress : Z;
  bmAttributes : Z;
  wMaxPacketSize : Z }.

Record libusb_interface := mkLibusbInterface {
  bInterfaceNumber : Z;
  bAlternateSetting : Z;
  bInterfaceClass : Z;
  bInterfaceSubClass : Z;
  bInterfaceProtocol : Z;
  li_endpoint : list libusb_endpoint }.

Definition libusb_config : Type := list (list libusb_interface).

Record EndpointDescriptor := mkEndpoint {
  ed_address : Z;
  ed_attributes : Z;
  ed_maximum_packet_size : Z }.

Record InterfaceDescriptor := mkInterface {
  id_number : Z;
  id_alternate_setting : Z;
  id_interface_class : Z;
  id_interface_subclass : Z;
  id_interface_protocol : Z;
  id_endpoints : list EndpointDescriptor }.

Definition convert_endpoint (e : libusb_endpoint) : EndpointDescriptor :=
  mkEndpoint (bEndpointAddress e) (bmAttributes e) (u16 (Z.land (wMaxPacketSize e) 0x07ff)).

Definition convert_interface (d : libusb_interface) : InterfaceDescriptor :=
  mkInterface (bInterfaceNumber d) (bAlternateSetting d) (bInterfaceClass d) (bInterfaceSubClass d)
    (bInterfaceProtocol d) (convert_endpoint <$> li_endpoint d).

(** ** USBTMC interfaces *)

Definition kApplicationClass : Z := 0xfe.
Definition kUsbTmcSubclass : Z := 0x03.
Definition kDirectionIn : Z := 0x80.
Definition kTransferTypeMask : Z := 0x03.
Definition kBulk : Z := 0x02.
Definition kInterrupt : Z := 0x03.

Definition transfer_type (e : EndpointDescriptor) : Z := Z.land (ed_attributes e) kTransferTypeMask.
Definition is_input (address : Z) : bool := negb (Z.land address kDirectionIn =? 0).

Definition with_bulk_in (address size : Z) (i : UsbInterfaceInfo) : UsbInterfaceInfo :=
  mkUsbInterfaceInfo (ui_interface_number i) (ui_bulk_out_endpoint i) address
    (ui_interrupt_in_endpoint i) size (ui_usb488 i) (ui_alternate_setting i) (ui_interrupt_out_endpoint i).
Definition with_bulk_out (address : Z) (i : UsbInterfaceInfo) : UsbInterfaceInfo :=
  mkUsbInterfaceInfo (ui_interface_number i) address (ui_bulk_in_endpoint i)
    (ui_interrupt_in_endpoint i) (ui_bulk_in_max_packet_size i) (ui_usb488 i) (ui_alternate_setting i)
    (ui_interrupt_out_endpoint i).
Definition with_interrupt_in (address : Z) (i : UsbInterfaceInfo) : UsbInterfaceInfo :=
  mkUsbInterfaceInfo (ui_interface_number i) (ui_bulk_out_endpoint i) (ui_bulk_in_endpoint i)
    address (ui_bulk_in_max_packet_size i) (ui_usb488 i) (ui_alternate_setting i) (ui_interrupt_out_endpoint i).
Definition with_interrupt_out (address : Z) (i : UsbInterfaceInfo) : UsbInterfaceInfo :=
  mkUsbInterfaceInfo (ui_interface_number i) (ui_bulk_out_endpoint i) (ui_bulk_in_endpoint i)
    (ui_interrupt_in_endpoint i) (ui_bulk_in_max_packet_size i) (ui_usb488 i) (ui_alternate_setting i) address.

(** The body of the loop over the endpoints. *)
Definition inspect_endpoint (result : UsbInterfaceInfo) (e : EndpointDescriptor) : option UsbInterfaceInfo :=
  let type := transfer_type e in
  let input := is_input (ed_address e) in
  if (type =? kBulk) && input then
    if negb (ui_bulk_in_endpoint result =? 0) || (ed_maximum_packet_size e =? 0) then None
    else Some (with_bulk_in (ed_address e) (ed_maximum_packet_size e) result)
  else if (type =? kBulk) && negb input then
    if negb (ui_bulk_out_endpoint result =? 0) then None
    else Some (with_bulk_out (ed_address e) result)
  else if (type =? kInterrupt) && input then
    if negb (ui_interrupt_in_endpoint result =? 0) then None
    else Some (with_interrupt_in (ed_address e) result)
  else Some result.

Fixpoint inspect_endpoints (result : UsbInterfaceInfo) (es : list EndpointDescriptor)
  : option UsbInterfaceInfo :=
  match es with
  | [] => Some result
  | e :: es => result ← inspect_endpoint result e; inspect_endpoints result es
  end.

Definition inspect_interface (d : InterfaceDescriptor) : option UsbInterfaceInfo :=
  if negb (id_interface_class d =? kApplicationClass)
     || negb (id_interface_subclass d =? kUsbTmcSubclass)
     || (1 <? id_interface_protocol d)
  then None
  else
    result ← inspect_endpoints
      (mkUsbInterfaceInfo (id_number d) 0 0 0 0 (id_interface_protocol d =? 1) (id_alternate_setting d) 0)
      (id_endpoints d);
    if (ui_bulk_in_endpoint result =? 0) || (ui_bulk_out_endpoint result =? 0) then None
    else Some result.

(** ** Raw interfaces *)

(** An endpoint of the type [type] at [address]. *)
Definition endpoint_matches (type address : Z) (e : EndpointDescriptor) : bool :=
  (ed_address e =? address) && (transfer_type e =? type) && negb (ed_maximum_packet_size e =? 0).

Definition select_endpoint (endpoints : list EndpointDescriptor) (type : UsbTransferType) (address : Z)
    (input : bool) (result : UsbInterfaceInfo) : option UsbInterfaceInfo :=
  if bool_decide (type = transfer_none) then if address =? 0 then Some result else None
  else if negb (Bool.eqb (is_input address) input) || (Z.land address 0x0f =? 0) then None
  else
    let expected := if bool_decide (type = transfer_bulk) then kBulk else kInterrupt in
    match list_find (fun e => Is_true (endpoint_matches expected address e)) endpoints with
    | None => None
    | Some (_, found) =>
        Some (if bool_decide (type = transfer_bulk) then
                if input then with_bulk_in address (ed_maximum_packet_size found) result
                else with_bulk_out address result
              else if input then with_interrupt_in address result
              else with_interrupt_out address result)
    end.

Definition inspect_raw_interface (d : InterfaceDescriptor) (c : UsbRawConfiguration)
  : option UsbInterfaceInfo :=
  if negb (id_alternate_setting d =? raw_alternate_setting c) then None
  else
    let result := mkUsbInterfaceInfo (id_number d) 0 0 0 0 false (id_alternate_setting d) 0 in
    result ← select_endpoint (id_endpoints d) (raw_read_transfer_type c) (raw_read_endpoint c) true result;
    select_endpoint (id_endpoints d) (raw_write_transfer_type c) (raw_write_endpoint c) false result.

(** ** Errors *)

Definition map_error (error : Z) (opening : bool) : Z :=
  if error =? 0 then VI_SUCCESS
  else if error =? -2 then VI_ERROR_INV_PARAMETER
  else if error =? -3 then VI_ERROR_NPERMISSION
  else if error =? -4 then if opening then VI_ERROR_RSRC_NFOUND else VI_ERROR_CONN_LOST
  else if error =? -5 then if opening then VI_ERROR_RSRC_NFOUND else VI_ERROR_IO
  else if error =? -6 then VI_ERROR_RSRC_BUSY
  else if error =? -7 then VI_ERROR_TMO
  else if error =? -11 then VI_ERROR_ALLOC
  else if error =? -12 then VI_ERROR_NSUP_OPER
  else VI_ERROR_IO.

(** ** Devices

    [None] is a device whose active configuration cannot be read. *)

Definition inspect_device (config : option libusb_config) : list UsbInterfaceInfo :=
  match config with
  | None => []
  | Some interfaces =>
      omap (fun d => inspect_interface (convert_interface d)) (concat interfaces)
  end.

Definition raw_interface_numbers (config : option libusb_config) : list Z :=
  match config with
  | None => []
  | Some interfaces => unique (merge_sort Z.le (bInterfaceNumber <$> concat interfaces))
  end.

(** The first altsetting with the number that suits the configuration. *)
Fixpoint find_raw (interface_number : Z) (c : UsbRawConfiguration) (ds : list libusb_interface)
  : option UsbInterfaceInfo :=
  match ds with
  | [] => None
  | d :: ds =>
      if negb (bInterfaceNumber d =? interface_number) then find_raw interface_number c ds
      else
        match inspect_raw_interface (convert_interface d) c with
        | Some inspected => Some inspected
        | None => find_raw interface_number c ds
        end
  end.

Definition inspect_raw_device (config : option libusb_config) (interface_number : Z)
    (c : UsbRawConfiguration) : option UsbInterfaceInfo :=
  interfaces ← config; find_raw interface_number c (concat interfaces).

(** ** Names *)

Definition resource_name (vendor product : Z) (serial : str) (interface_number : Z)
    (resource_class : str) : option str :=
  let name := lit "USB0::0x" ++ setw0 4 (upper_hex vendor) ++ lit "::0x" ++
    setw0 4 (upper_hex product) ++ colons ++ serial ++ colons ++ to_string interface_number ++
    colons ++ resource_class in
  parsed ← parse_resource name;
  if negb (bool_decide (rd_kind parsed = usb_instr)) && negb (bool_decide (rd_kind parsed = usb_raw))
  then None
  else Some (rd_canonical_name parsed).

(** ** What an inspection accepts *)

Definition is_bulk_in (e : EndpointDescriptor) : bool := (transfer_type e =? kBulk) && is_input (ed_address e).
Definition is_bulk_out (e : EndpointDescriptor) : bool :=
  (transfer_type e =? kBulk) && negb (is_input (ed_address e)).
Definition is_interrupt_in (e : EndpointDescriptor) : bool :=
  (transfer_type e =? kInterrupt) && is_input (ed_address e).

Definition endpoints_of (f : EndpointDescriptor -> bool) (es : list EndpointDescriptor)
  : list EndpointDescriptor := filter (fun e => Is_true (f e)) es.

(** Writing addresses into a member that must not be taken: 0 is free. *)
Fixpoint fill (current : Z) (es : list EndpointDescriptor) : option Z :=
  match es with
  | [] => Some current
  | e :: es => if current =? 0 then fill (ed_address e) es else None
  end.

Lemma endpoints_of_cons f e es :
  endpoints_of f (e :: es) = if f e then e :: endpoints_of f es else endpoints_of f es.
Proof. unfold endpoints_of. rewrite filter_cons. by destruct (f e). Qed.

Lemma endpoints_of_elem f es e : e ∈ endpoints_of f es <-> f e = true /\ e ∈ es.
Proof. unfold endpoints_of. by rewrite list_elem_of_filter, Is_true_true. Qed.

Lemma is_input_nonzero address : is_input address = true -> address ≠ 0.
Proof. by intros H ->. Qed.

(** The loop fills three members independently. *)
Lemma inspect_endpoints_spec es : forall i r,
  inspect_endpoints i es = Some r <->
  exists out in_ int,
    fill (ui_bulk_out_endpoint i) (endpoints_of is_bulk_out es) = Some out /\
    fill (ui_bulk_in_endpoint i) (endpoints_of is_bulk_in es) = Some in_ /\
    fill (ui_interrupt_in_endpoint i) (endpoints_of is_interrupt_in es) = Some int /\
    Forall (fun e => ed_maximum_packet_size e ≠ 0) (endpoints_of is_bulk_in es) /\
    r = mkUsbInterfaceInfo (ui_interface_number i) out in_ int
          (from_option ed_maximum_packet_size (ui_bulk_in_max_packet_size i) (last (endpoints_of is_bulk_in es)))
          (ui_usb488 i) (ui_alternate_setting i) (ui_interrupt_out_endpoint i).
Proof.
  induction es as [|e es IH]; intros i r; cbn [inspect_endpoints].
  { split; [intros [= <-]|].
    - destruct i. by do 3 eexists.
    - by intros (out & in_ & int & [= <-] & [= <-] & [= <-] & _ & ->); destruct i. }
  rewrite !endpoints_of_cons. unfold inspect_endpoint, is_bulk_in, is_bulk_out, is_interrupt_in.
  destruct (is_input (ed_address e)) eqn:Hin; destruct (Z.eqb_spec (transfer_type e) kBulk) as [Hb|Hb];
    try rewrite Hb; cbn [andb negb].
  - change (kBulk =? kInterrupt) with false. cbn [andb].
    cbn [fill]. destruct (ui_bulk_in_endpoint i =? 0) eqn:H0; cbn [negb orb].
    2: { split; [done|]. by intros (? & ? & ? & _ & ? & _). }
    destruct (Z.eqb_spec (ed_maximum_packet_size e) 0) as [Hm|Hm].
    { split; [done|]. intros (? & ? & ? & _ & _ & _ & Hall & _). by inversion Hall. }
    cbn [mbind option_bind]. rewrite IH. cbn.
    split; intros (out & in_ & int & H1 & H2 & H3 & H4 & ->); exists out, in_, int; repeat (split; [done|]).
    + split; [by constructor|]. rewrite last_cons. by destruct (last _).
    + inversion H4; subst. split; [done|]. rewrite last_cons. by destruct (last _).
  - rewrite andb_true_r. destruct (transfer_type e =? kInterrupt); cbn [fill].
    + destruct (ui_interrupt_in_endpoint i =? 0); cbn [negb].
      2: { split; [done|]. by intros (? & ? & ? & _ & _ & ? & _). }
      cbn [mbind option_bind]. by rewrite IH.
    + cbn [mbind option_bind]. by rewrite IH.
  - rewrite andb_false_r. cbn [fill].
    destruct (ui_bulk_out_endpoint i =? 0); cbn [negb].
    2: { split; [done|]. by intros (? & ? & ? & ? & _). }
    cbn [mbind option_bind]. by rewrite IH.
  - rewrite andb_false_r. cbn [mbind option_bind]. by rewrite IH.
Qed.

Lemma fill_spec es a :
  a ≠ 0 -> fill 0 es = Some a <->
  exists zs e, es = zs ++ [e] /\ Forall (fun e => ed_address e = 0) zs /\ ed_address e = a.
Proof.
  intros Ha. induction es as [|e es IH]; cbn [fill].
  - split; [congruence|]. by intros ([] & x & ? & _).
  - change (0 =? 0) with true. cbv iota. destruct (Z.eq_dec (ed_address e) 0) as [He|He].
    + rewrite He, IH. split.
      * intros (zs & x & -> & Hz & Hx). exists (e :: zs), x. split; [done|]. split; [by constructor|done].
      * intros ([|z zs] & x & [= <- Hes] & Hz & Hx); [congruence|].
        exists zs, x. inversion Hz; subst. done.
    + destruct es as [|e2 es]; cbn [fill].
      * split; [intros [= <-]; by exists [], e|]. intros ([|z [|]] & x & Hes & Hz & Hx); by simplify_eq/=.
      * rewrite (proj2 (Z.eqb_neq _ _) He). split; [done|].
        intros ([|z zs] & x & Hes & Hz & Hx); simplify_eq/=. by inversion Hz.
Qed.

Lemma fill_inputs es a :
  Forall (fun e => ed_address e ≠ 0) es ->
  fill 0 es = Some a <-> (es = [] /\ a = 0) \/ (exists e, es = [e] /\ ed_address e = a).
Proof.
  intros Hne. destruct es as [|e [|e2 es]]; cbn [fill].
  - split; [intros [= <-]; by left|]. by intros [[_ ->]|(x & ? & _)].
  - split; [intros [= <-]; right; by exists e|]. by intros [[? _]|(e' & [= ->] & <-)].
  - change (0 =? 0) with true. cbv iota. apply Forall_cons in Hne as [He _].
    rewrite (proj2 (Z.eqb_neq _ _) He). split; [done|]. by intros [[? _]|(e' & ? & _)].
Qed.

Lemma inputs_nonzero f es :
  (forall e, f e = true -> is_input (ed_address e) = true) ->
  Forall (fun e => ed_address e ≠ 0) (endpoints_of f es).
Proof.
  intros Hf. apply Forall_forall. intros e [He _]%endpoints_of_elem. by apply is_input_nonzero, Hf.
Qed.

Lemma inspect_interface_number d r : inspect_interface d = Some r -> ui_interface_number r = id_number d.
Proof.
  unfold inspect_interface. destruct (_ || _); [done|]. intros (i & Hi & Hr)%bind_Some. destruct (_ || _); [done|].
  injection Hr as <-. by apply inspect_endpoints_spec in Hi as (? & ? & ? & _ & _ & _ & _ & ->).
Qed.

(** An interface is accepted for USBTMC exactly when it has the class, the
    subclass and a protocol of 0 or 1, one bulk endpoint in, of nonzero packet
    size, one bulk endpoint out (those at address 0 do not count before it) and
    at most one interrupt endpoint in; what the session then uses are those
    endpoints, and none of them is the control endpoint 0. *)
Lemma inspect_interface_spec d r :
  let es := id_endpoints d in
  inspect_interface d = Some r <->
  id_interface_class d = kApplicationClass /\ id_interface_subclass d = kUsbTmcSubclass /\
  id_interface_protocol d <= 1 /\
  exists e_in e_out unused e_int,
    endpoints_of is_bulk_in es = [e_in] /\ ed_maximum_packet_size e_in ≠ 0 /\
    endpoints_of is_bulk_out es = unused ++ [e_out] /\ Forall (fun e => ed_address e = 0) unused /\
    ed_address e_out ≠ 0 /\
    endpoints_of is_interrupt_in es = option_list e_int /\
    r = mkUsbInterfaceInfo (id_number d) (ed_address e_out) (ed_address e_in)
          (from_option ed_address 0 e_int) (ed_maximum_packet_size e_in)
          (id_interface_protocol d =? 1) (id_alternate_setting d) 0.
Proof.
  cbn zeta. unfold inspect_interface. destruct (_ || _ || _) eqn:Hclass.
  { split; [done|]. intros (H1 & H2 & H3 & _). rewrite H1, H2, !Z.eqb_refl in Hclass. cbn in Hclass. lia. }
  apply orb_false_elim in Hclass as [[Hc Hs]%orb_false_elim Hp].
  apply negb_false_iff, Z.eqb_eq in Hc, Hs. apply Z.ltb_ge in Hp.
  assert (forall es, Forall (fun e => ed_address e ≠ 0) (endpoints_of is_bulk_in es)) as Hins.
  { intros es. apply inputs_nonzero. unfold is_bulk_in. intros e [_ He]%andb_prop. done. }
  assert (forall es, Forall (fun e => ed_address e ≠ 0) (endpoints_of is_interrupt_in es)) as Hints.
  { intros es. apply inputs_nonzero. unfold is_interrupt_in. intros e [_ He]%andb_prop. done. }
  split.
  - intros (i & Hi & Hr)%bind_Some. split; [done|]. split; [done|]. split; [done|].
    apply inspect_endpoints_spec in Hi as (out & in_ & int & Ho & Hin & Hint & Hm & ->). cbn in Hr, Ho, Hin, Hint.
    destruct (Z.eqb_spec in_ 0) as [|Hin0]; [done|]. destruct (Z.eqb_spec out 0) as [|Hout0]; [done|].
    injection Hr as <-. apply fill_inputs in Hin as [[_ ?]|(e_in & Ein & <-)]; [done| |done].
    apply fill_spec in Ho as (zs & e_out & Eout & Hz & <-); [|done].
    rewrite Ein in Hm |- *. apply Forall_cons in Hm as [Hm _].
    apply fill_inputs in Hint as [[Eint ->]|(e_int & Eint & <-)]; [| |done].
    + by exists e_in, e_out, zs, None.
    + by exists e_in, e_out, zs, (Some e_int).
  - intros (_ & _ & _ & e_in & e_out & zs & e_int & Ein & Hm & Eout & Hz & Ho & Eint & ->).
    assert (ed_address e_in ≠ 0) as Hi0.
    { specialize (Hins (id_endpoints d)). rewrite Ein in Hins. by inversion Hins. }
    apply bind_Some. eexists. split.
    + apply inspect_endpoints_spec. cbn. exists (ed_address e_out), (ed_address e_in), (from_option ed_address 0 e_int).
      split; [apply fill_spec; [done|]; by exists zs, e_out|].
      split; [apply fill_inputs; [done|]; right; by exists e_in|].
      split; [apply fill_inputs; [done|]; rewrite Eint; destruct e_int as [e|]; [right; by exists e|by left]|].
      rewrite Ein. split; [by constructor|]. done.
    + cbn. by rewrite (proj2 (Z.eqb_neq _ _) Hi0), (proj2 (Z.eqb_neq _ _) Ho).
Qed.

(** The interface has what one direction of a raw configuration asks for. *)
Definition serves (es : list EndpointDescriptor) (type : UsbTransferType) (address : Z) (input : bool) : Prop :=
  match type with
  | transfer_none => address = 0
  | _ =>
      is_input address = input /\ Z.land address 0x0f ≠ 0 /\
      exists e, e ∈ es /\ ed_address e = address /\ ed_maximum_packet_size e ≠ 0 /\
        transfer_type e = (if type is transfer_bulk then kBulk else kInterrupt)
  end.

(** A selection sets the member of its type and direction, and no other. *)
Lemma select_endpoint_spec es type address input i :
  (serves es type address input ->
   exists r, select_endpoint es type address input i = Some r) /\
  (forall r, select_endpoint es type address input i = Some r ->
   serves es type address input /\
   transfer_matches type address r input = true /\
   (forall type' address', transfer_matches type' address' r (negb input) =
      transfer_matches type' address' i (negb input)) /\
   ui_interface_number r = ui_interface_number i /\
   ui_alternate_setting r = ui_alternate_setting i).
Proof.
  unfold select_endpoint.
  assert (forall kind, transfer_none ≠ kind -> 
    let expected := if bool_decide (kind = transfer_bulk) then kBulk else kInterrupt in
    serves es kind address input <->
    (negb (Bool.eqb (is_input address) input) || (Z.land address 0x0f =? 0)) = false /\
    exists j e, list_find (fun e => Is_true (endpoint_matches expected address e)) es = Some (j, e)) as Hserves.
  { intros kind Hkind expected.
    assert (serves es kind address input <-> is_input address = input /\ Z.land address 0x0f ≠ 0 /\
      exists e, e ∈ es /\ ed_address e = address /\ ed_maximum_packet_size e ≠ 0 /\ transfer_type e = expected) as ->
      by (unfold expected; by destruct kind).
    rewrite orb_false_iff, negb_false_iff, Bool.eqb_true_iff, Z.eqb_neq, Logic.and_assoc.
    apply and_iff_compat_l, and_iff_compat_l. split.
    - intros (e & He & Ha & Hm & Ht).
      destruct (list_find_elem_of (fun e => Is_true (endpoint_matches expected address e)) es e) as [[j x] Hx];
        [done| |by exists j, x].
      apply Is_true_true. unfold endpoint_matches. by rewrite Ha, Ht, !Z.eqb_refl, (proj2 (Z.eqb_neq _ _) Hm).
    - intros (j & e & (Hl & Hm & _)%list_find_Some). exists e. split; [by eapply list_elem_of_lookup_2|].
      apply Is_true_true in Hm. unfold endpoint_matches in Hm.
      apply andb_prop in Hm as [[Ha%Z.eqb_eq Ht%Z.eqb_eq]%andb_prop Hm]. apply negb_true_iff, Z.eqb_neq in Hm. done. }
  destruct type.
  - cbn. destruct (Z.eqb_spec address 0) as [->|Hne]; [|by split].
    split; [by eexists|]. intros r [= <-]. done.
  - specialize (Hserves transfer_bulk ltac:(done)) as Hs. cbn zeta in Hs. rewrite Hs.
    rewrite (bool_decide_false (transfer_bulk = transfer_none)) by done.
    destruct (_ || _); [by split; [intros [? _]|]|]. split; [intros (_ & j & e & ->); by eexists|].
    destruct (list_find _ _) as [[j e]|] eqn:E; [|done]. cbn [bool_decide].
    intros r [= <-]. split; [apply Hs; split; [done|by exists j, e]|].
    destruct input; cbn; rewrite Z.eqb_refl; by repeat split.
  - specialize (Hserves transfer_interrupt ltac:(done)) as Hs. cbn zeta in Hs. rewrite Hs.
    rewrite (bool_decide_false (transfer_interrupt = transfer_none)) by done.
    rewrite (bool_decide_false (transfer_interrupt = transfer_bulk)) by done.
    destruct (_ || _); [by split; [intros [? _]|]|]. split; [intros (_ & j & e & ->); by eexists|].
    destruct (list_find _ _) as [[j e]|] eqn:E; [|done]. 
    intros r [= <-]. split; [apply Hs; split; [done|by exists j, e]|].
    destruct input; cbn; rewrite Z.eqb_refl; by repeat split.
Qed.

(** An interface is accepted for a raw configuration exactly when it has the
    alternate setting and, in each direction, an endpoint of the type and the
    address that is configured, in that direction, not the control endpoint, of
    nonzero packet size (or no address where no transfers are configured); and
    what is accepted is a configuration the raw session can use: its checks
    before every transfer succeed. *)
Lemma inspect_raw_interface_spec {T} d c (t : T) :
  (is_Some (inspect_raw_interface d c) <->
   id_alternate_setting d = raw_alternate_setting c /\
   serves (id_endpoints d) (raw_read_transfer_type c) (raw_read_endpoint c) true /\
   serves (id_endpoints d) (raw_write_transfer_type c) (raw_write_endpoint c) false) /\
  (forall i, inspect_raw_interface d c = Some i ->
   ui_interface_number i = id_number d /\
   (id_number d <= 255 -> valid_configuration (mkUsbRaw t c i []) = true)).
Proof.
  unfold inspect_raw_interface, valid_configuration. cbn.
  set (es := id_endpoints d). set (none := mkUsbInterfaceInfo _ _ _ _ _ _ _ _).
  destruct (Z.eqb_spec (id_alternate_setting d) (raw_alternate_setting c)) as [Ha|Ha]; cbn [negb].
  2: { split; [split; [by intros [? ?]|by intros [? _]]|done]. }
  destruct (select_endpoint_spec es (raw_read_transfer_type c) (raw_read_endpoint c) true none) as [Hr1 Hr2].
  split.
  - split.
    + intros [i (i1 & Hi1 & Hi)%bind_Some]. split; [done|]. split; [by apply Hr2 in Hi1 as [? _]|].
      by apply select_endpoint_spec in Hi as [? _].
    + intros (_ & Hr & Hw). destruct (Hr1 Hr) as [i1 ->]. cbn.
      destruct (select_endpoint_spec es (raw_write_transfer_type c) (raw_write_endpoint c) false i1) as [Hw1 _].
      destruct (Hw1 Hw) as [i ->]. by eexists.
  - intros i (i1 & Hi1 & Hi)%bind_Some.
    apply Hr2 in Hi1 as (_ & Hm1 & _ & Hn1 & Ha1).
    apply select_endpoint_spec in Hi as (_ & Hm & Hkeep & Hn & Ha2). cbn in Hkeep.
    rewrite Hn, Hn1. split; [done|]. intros Hle. cbn in Hle.
    rewrite Hkeep, Hm1, Hm, Ha2, Ha1. cbn. rewrite Ha, Z.eqb_refl. by rewrite (proj2 (Z.leb_le _ _) Hle).
Qed.

(** ** Names stand for what they were made from *)

Definition unbracketed (c : ascii) : bool := negb ((c =? "[")%char || (c =? "]")%char).

Lemma plain_unbracketed p : forallb plain p = true -> forallb unbracketed p = true.
Proof.
  rewrite !forallb_forall. intros H c Hc%H. unfold plain, unbracketed in *.
  destruct (c =? "[")%char, (c =? "]")%char; done.
Qed.

Lemma split_loop_open w : forall part parts, forallb unbracketed w = true -> split_loop w true part parts = [].
Proof.
  induction w as [|c w IH]; intros part parts; cbn [forallb split_loop]; [by case_bool_decide|].
  unfold unbracketed at 1. intros [Hc Hw]%andb_prop.
  destruct (c =? "[")%char, (c =? "]")%char; try done. cbn. destruct w; by apply IH.
Qed.

(** What ends a name, after a serial number [x] of any text: if the parts are no
    more than they should be, [x] is one of them, unless a colon at its end
    has moved to the interface number. *)
Lemma split_loop_serial i cls n : forall x b part parts,
  (length x <= n)%nat -> i ≠ [] -> cls ≠ [] -> forallb plain i = true -> forallb plain cls = true ->
  let ps := split_loop (x ++ colons ++ i ++ colons ++ cls) b part parts in
  ps = [] \/ (exists l, ps = parts ++ l /\ (3 < length l)%nat) \/
  (ps = parts ++ [part ++ x; i; cls] /\ part ++ x ≠ []) \/ exists q, ps = parts ++ [q; ":"%char :: i; cls].
Proof.
  intros x b part parts Hn Hi Hcls Hpi Hpc.
  assert (forall p parts, part_ok false p -> split_loop (p ++ colons ++ cls) false [] parts = parts ++ [p; cls]) as Hrest.
  { intros p parts' [Hp Hs]. rewrite split_loop_skip by eauto. cbn. rewrite bool_decide_false by done.
    rewrite <- (app_nil_r cls) at 1. rewrite split_loop_skip by (try (by apply plain_scan); by left).
    cbn. rewrite bool_decide_false by done. by rewrite <- app_assoc. }
  assert (part_ok false (":"%char :: i)) as Hcolon.
  { split; [done|]. destruct i as [|c i]; [done|].
    change (negb (c =? ":")%char && scan false false (c :: i) = true). rewrite (plain_scan false (c :: i) Hpi).
    cbn in Hpi. unfold plain in Hpi. by destruct (c =? "[")%char, (c =? "]")%char, (c =? ":")%char. }
  revert x b part parts Hn. induction n as [|n IH]; intros [|c x] b part parts Hn; cbn [length] in Hn; try lia.
  1,2: destruct b; [left; apply split_loop_open; cbn [app]; rewrite !forallb_app, (plain_unbracketed i), (plain_unbracketed cls) by done; reflexivity|];
    rewrite app_nil_r; cbn; case_bool_decide; [by left|]; right; right; left; rewrite Hrest by (by apply plain_ok);
    by rewrite <- app_assoc.
  assert (forall b', let ps := split_loop (x ++ colons ++ i ++ colons ++ cls) b' (part ++ [c]) parts in
    ps = [] \/ (exists l, ps = parts ++ l /\ (3 < length l)%nat) \/
    (ps = parts ++ [part ++ c :: x; i; cls] /\ part ++ c :: x ≠ []) \/ exists q, ps = parts ++ [q; ":"%char :: i; cls]) as Hstep.
  { intros b'. destruct (IH x b' (part ++ [c]) parts) as [?|[?|[[Hps Hne]|?]]]; [lia|by left|by right; left| |by do 3 right].
    right; right; left. rewrite <- app_assoc in Hps, Hne. done. }
  rewrite <- app_comm_cons. cbn [split_loop].
  destruct (c =? "[")%char; [destruct b; [by left|apply Hstep]|].
  destruct (c =? "]")%char; [destruct b; [apply Hstep|by left]|].
  destruct x as [|c2 x].
  - cbn [app]. destruct (negb b && (c =? ":")%char) eqn:Hsep; [|apply (Hstep b)].
    cbn. case_bool_decide; [by left|]. do 3 right. exists part.
    etrans; [exact (Hrest (":"%char :: i) (parts ++ [part]) Hcolon)|]. by rewrite <- app_assoc.
  - cbn [app]. destruct (negb b && (c =? ":")%char && (c2 =? ":")%char); [|apply (Hstep b)].
    case_bool_decide; [by left|].
    destruct (IH x false [] (parts ++ [part])) as [->|[(l & -> & Hl)|[[-> _]|[q ->]]]]; [cbn in Hn; lia|by left|..];
      right; left; rewrite <- app_assoc; eexists; (split; [reflexivity|cbn; lia]).
Qed.

Lemma split_loop_front parts rest : forall acc,
  Forall (part_ok false) parts -> parts ≠ [] ->
  split_loop (join parts ++ colons ++ rest) false [] acc = split_loop rest false [] (acc ++ parts).
Proof.
  induction parts as [|p parts IH]; intros acc Hok Hne; [done|]. apply Forall_cons in Hok as [[Hp Hs] Hok].
  assert (forall r acc, split_loop (p ++ colons ++ r) false [] acc = split_loop r false [] (acc ++ [p])) as Hpart.
  { intros r acc'. rewrite split_loop_skip by eauto. cbn. by rewrite bool_decide_false by done. }
  destruct parts as [|p2 parts]; [apply Hpart|]. cbn [join]. rewrite <- !app_assoc, Hpart.
  etrans; [by apply IH|]. by rewrite <- app_assoc.
Qed.

(** The text [resource_name] parses. *)
Definition usb_name_text (vendor product : Z) (serial : str) (interface_number : Z) (resource_class : str) : str :=
  join [prefix USB 0; hex_id vendor; hex_id product] ++ colons ++ serial ++ colons ++
  to_string interface_number ++ colons ++ resource_class.

(** Its parts, if a USB resource can have them. *)
Lemma usb_name_parts vendor product serial i cls :
  0 <= vendor <= 65535 -> 0 <= product <= 65535 -> 0 <= i -> cls = INSTR \/ cls = RAW ->
  let ps := split (usb_name_text vendor product serial i cls) in
  let front := [prefix USB 0; hex_id vendor; hex_id product] in
  ps = [] \/ (exists l, ps = front ++ l /\ (3 < length l)%nat) \/
  (ps = front ++ [serial; to_string i; cls] /\ serial ≠ []) \/
  exists q, ps = front ++ [q; ":"%char :: to_string i; cls].
Proof.
  intros Hv Hp Hi Hcls ps front.
  assert (Forall (part_ok false) front) as Hok by (unfold front; parts_ok).
  subst ps. unfold usb_name_text, split. fold front. rewrite split_loop_front by done.
  apply (split_loop_serial _ _ (length serial)); [done|apply to_string_nonempty| |by apply to_string_plain|];
    by destruct Hcls as [-> | ->].
Qed.

Lemma parse_usb_long vendor product l d :
  (3 < length l)%nat ->
  parse_usb ([prefix USB 0; hex_id vendor; hex_id product] ++ l) = Some d -> False.
Proof.
  unfold parse_usb. destruct (parse_prefix _ _); [|done]. intros Hl.
  by rewrite (proj2 (Nat.ltb_lt 6 _)), orb_true_r by (rewrite length_app; cbn; lia).
Qed.

Lemma parse_usb_colon vendor product q s cls d :
  0 <= vendor <= 65535 -> 0 <= product <= 65535 ->
  parse_usb ([prefix USB 0; hex_id vendor; hex_id product] ++ [q; ":"%char :: s; cls]) = Some d -> False.
Proof.
  intros Hv Hp. unfold parse_usb. cbn [app]. eval_parts. case_bool_decide; [done|].
  assert (parse_decimal (":"%char :: s) 65535 = None) as -> by reflexivity.
  assert (forall w, head w = Some "I"%char \/ head w = Some "R"%char -> is_word (":"%char :: s) w = false) as Hw.
  { intros w Hw. apply bool_decide_false. cbn. intros <-. cbn in Hw. by destruct Hw. }
  by rewrite !Hw by auto.
Qed.

(** A name that discovery makes stands for what it was made from, whatever the
    serial number of the device holds: parsed again, it has the vendor, the
    product, the serial number, the interface and the class it was made with, and
    it is canonical; a serial number that would be read differently gives no
    name. *)
Lemma usb_name_round_trip vendor product serial i cls name :
  0 <= vendor <= 65535 -> 0 <= product <= 65535 -> 0 <= i <= 65535 -> cls = INSTR \/ cls = RAW ->
  resource_name vendor product serial i cls = Some name ->
  exists d, parse_resource name = Some d /\
    rd_kind d = (if bool_decide (cls = RAW) then usb_raw else usb_instr) /\ rd_interface_number d = 0 /\
    rd_usb_vendor_id d = vendor /\ rd_usb_product_id d = product /\ rd_usb_serial_number d = serial /\
    rd_usb_interface_number d = i /\ rd_resource_class d = cls /\ rd_canonical_name d = name.
Proof.
  intros Hv Hp Hi Hcls. unfold resource_name. set (text := lit "USB0::0x" ++ _).
  assert (text = usb_name_text vendor product serial i cls) as Htext.
  { unfold text, usb_name_text, hex_id. cbn [join]. by rewrite <- !app_assoc. }
  intros (d & Hd & Hname)%bind_Some.
  assert ((rd_kind d = usb_instr \/ rd_kind d = usb_raw) /\ name = rd_canonical_name d) as [Hkind ->].
  { do 2 case_bool_decide; try done; injection Hname; auto. }
  clear Hname. unfold parse_resource in Hd. destruct (_ || _) eqn:Hlen in Hd; [done|].
  destruct (bool_decide (upper text = _)) eqn:Hmock; [injection Hd as <-; by destruct Hkind|].
  destruct (bool_decide (split text = [])) eqn:Hsplit; [done|].
  assert (split text = [prefix USB 0; hex_id vendor; hex_id product; serial; to_string i; cls] /\ serial ≠ [] /\
    parse_usb (split text) = Some d) as (Hps & Hser & Hd').
  { rewrite Htext in *.
    destruct (usb_name_parts vendor product serial i cls) as [Hps|[(l & Hps & Hl)|[[Hps Hne]|[q Hps]]]];
      [done..|lia|done|by rewrite Hps in Hsplit| | |]; rewrite Hps in Hd |- *.
    - exfalso. by apply (parse_usb_long vendor product l d Hl).
    - done.
    - exfalso. by eapply (parse_usb_colon vendor product q (to_string i) cls d). }
  set (D := mkResourceDescriptor (if bool_decide (cls = RAW) then usb_raw else usb_instr) VI_INTF_USB 0 cls
    text [] 0 [] tp_none vendor product serial i 0 0 false).
  assert (d = D) as ->; [|exists D].
  { rewrite Hps in Hd'. unfold parse_usb in Hd'. revert Hd'. eval_parts. rewrite bool_decide_false by done.
    subst D. rewrite Htext. unfold usb_name_text. cbn [join]. rewrite <- !app_assoc.
    destruct Hcls as [-> | ->]; eval_parts; intros Hd'; injection Hd' as <-; reflexivity. }
  change (rd_canonical_name D) with text. split; [|done]. unfold parse_resource. rewrite Hlen, Hmock, Hsplit, Hps.
  rewrite Hps in Hd'. exact Hd'.
Qed.

(** An error of libusb is never taken for a success, and nothing else is. *)
Lemma map_error_negative error opening : error ≠ 0 -> map_error error opening < VI_SUCCESS.
Proof.
  intros H. unfold map_error. rewrite (proj2 (Z.eqb_neq _ _) H). repeat case_match; reflexivity.
Qed.

(** ** A device *)

(** A USBTMC interface with an interrupt endpoint. *)
Definition sample_interface : libusb_interface :=
  mkLibusbInterface 2 0 0xfe 0x03 1
    [mkLibusbEndpoint 0x81 2 512; mkLibusbEndpoint 0x02 2 512; mkLibusbEndpoint 0x83 3 8].

Definition sample_raw : UsbRawConfiguration :=
  mkUsbRawConfiguration 0 transfer_interrupt 0x83 transfer_bulk 0x02.

Example sample_inspected :
  inspect_device (Some [[sample_interface]]) = [mkUsbInterfaceInfo 2 0x02 0x81 0x83 512 true 0 0] /\
  inspect_raw_device (Some [[sample_interface]]) 2 sample_raw =
    Some (mkUsbInterfaceInfo 2 0x02 0 0x83 0 false 0 0) /\
  raw_interface_numbers (Some [[sample_interface]]) = [2].
Proof. vm_compute. auto. Qed.

(** Serial numbers that could be read as more than one part give no name. *)
Example no_ambiguous_names :
  resource_name 1 2 (lit "A::3") 0 INSTR = None /\ resource_name 1 2 (lit "A:") 0 INSTR = None /\
  resource_name 1 2 (lit "[A") 0 INSTR = None /\ resource_name 1 2 [] 0 INSTR = None.
Proof. vm_compute. auto. Qed.
