(* ===== verification/LibusbTransport.v ===== *)
(** * The libusb transport: [EndpointGate], [LibusbConnection], [TransferWait],
      [LibusbTransport] of [backends/usb/libusb_provider.cpp]

    A connection to an interface, the transports that share it, and the threads
    that call them.  Every critical section, every atomic access and every call
    of libusb is one step of a thread; the steps of different threads, of the
    event thread of libusb and of those who cancel, close or unplug come in any
    order.  What libusb answers is left open within its documentation: a
    submitted transfer ends once, with at most the bytes that were asked for.
    A wait on a condition variable can end at any time, as the standard allows.
    Times are in ticks of [Operation::Clock], nanoseconds. *)

From S2P Require Import Prelude Visa Operation UsbTransport LibusbDescriptors.

(** ** Calls *)

Inductive gate := bulk_out_gate | bulk_in_gate | interrupt_gate | control_gate.

#[global] Instance gate_eq_dec : EqDecision gate.
Proof. solve_decision. Defined.

Definition gate_number (g : gate) : nat :=
  match g with bulk_out_gate => 0 | bulk_in_gate => 1 | interrupt_gate => 2 | control_gate => 3 end%nat.

Definition gate_of (n : nat) : gate :=
  match n with
  | O => bulk_out_gate
  | S O => bulk_in_gate
  | S (S O) => interrupt_gate
  | _ => control_gate
  end.

#[global] Instance gate_countable : Countable gate.
Proof. apply (inj_countable' gate_number gate_of). by intros []. Defined.

Inductive call :=
| bulk_out_call (data : list Z)
| bulk_in_call (maximum_size : Z)
| control_in_call (request : UsbControlRequest) (response_size : Z)
| control_out_call (request : UsbControlRequest) (data : list Z)
| interrupt_in_call (maximum_size : Z)
| interrupt_out_call (data : list Z)
| clear_halt_call (endpoint_address : Z).

(** What a call asks of libusb: the arguments of [libusb_fill_*_transfer]; a
    control transfer has a setup packet before the data, with the length. *)
Record Plan := mkPlan {
  pl_gate : gate;
  pl_endpoint : Z;
  pl_input : bool;
  pl_length : Z;
  pl_setup : option UsbControlRequest;
  pl_data : list Z }.

Inductive job :=
| transfer_job (p : Plan)
| clear_job (g : gate) (endpoint : Z).

Definition job_gate (j : job) : gate :=
  match j with transfer_job p => pl_gate p | clear_job g _ => g end.

Definition int_max : Z := 2 ^ 31 - 1.
Definition uint16_max : Z := 2 ^ 16 - 1.
Definition uint_max : Z := 2 ^ 32 - 1.

Definition size_of (data : list Z) : Z := Z.of_nat (length data).

(** The beginnings of the calls, to the acquisition of the gate: an error, or
    what is to be done behind the gate. *)
Section calls.
  Context (info : UsbInterfaceInfo).

Definition bulk_out (data : list Z) : Z + job :=
  if int_max <? size_of data then inl VI_ERROR_INV_SIZE
  else inr (transfer_job (mkPlan bulk_out_gate (ui_bulk_out_endpoint info) false (size_of data) None data)).

Definition bulk_in (maximum_size : Z) : Z + job :=
  if int_max <? maximum_size then inl VI_ERROR_INV_SIZE
  else inr (transfer_job (mkPlan bulk_in_gate (ui_bulk_in_endpoint info) true maximum_size None [])).

Definition control_in (request : UsbControlRequest) (response_size : Z) : Z + job :=
  if uint16_max <? response_size then inl VI_ERROR_INV_SIZE
  else inr (transfer_job (mkPlan control_gate 0 true response_size (Some request) [])).

Definition control_out (request : UsbControlRequest) (data : list Z) : Z + job :=
  if uint16_max <? size_of data then inl VI_ERROR_INV_SIZE
  else inr (transfer_job (mkPlan control_gate 0 false (size_of data) (Some request) data)).

Definition interrupt_in (maximum_size : Z) : Z + job :=
  if ui_interrupt_in_endpoint info =? 0 then inl VI_ERROR_NSUP_OPER
  else if int_max <? maximum_size then inl VI_ERROR_INV_SIZE
  else inr (transfer_job (mkPlan interrupt_gate (ui_interrupt_in_endpoint info) true maximum_size None [])).

Definition interrupt_out (data : list Z) : Z + job :=
  if ui_interrupt_out_endpoint info =? 0 then inl VI_ERROR_NSUP_OPER
  else if int_max <? size_of data then inl VI_ERROR_INV_SIZE
  else inr (transfer_job
    (mkPlan interrupt_gate (ui_interrupt_out_endpoint info) false (size_of data) None data)).

Definition clear_halt (endpoint_address : Z) : Z + job :=
  if endpoint_address =? 0 then inl VI_ERROR_INV_PARAMETER
  else if endpoint_address =? ui_bulk_out_endpoint info then inr (clear_job bulk_out_gate endpoint_address)
  else if endpoint_address =? ui_bulk_in_endpoint info then inr (clear_job bulk_in_gate endpoint_address)
  else if endpoint_address =? ui_interrupt_out_endpoint info
  then inr (clear_job interrupt_gate endpoint_address)
  else if endpoint_address =? ui_interrupt_in_endpoint info
  then inr (clear_job interrupt_gate endpoint_address)
  else inl VI_ERROR_INV_PARAMETER.

Definition begin_call (c : call) : Z + job :=
  match c with
  | bulk_out_call data => bulk_out data
  | bulk_in_call n => bulk_in n
  | control_in_call q n => control_in q n
  | control_out_call q data => control_out q data
  | interrupt_in_call n => interrupt_in n
  | interrupt_out_call data => interrupt_out data
  | clear_halt_call e => clear_halt e
  end.

End calls.

(** What a call returns, with what it leaves in its output argument. *)
Record outcome := mkOutcome {
  oc_status : Z;
  oc_transferred : Z;
  oc_data : list Z }.

Definition failure (status : Z) : outcome := mkOutcome status 0 [].

(** ** State *)

(** [libusb_transfer_status] *)
Inductive transfer_status :=
| transfer_completed | transfer_error | transfer_timed_out | transfer_cancelled
| transfer_stall | transfer_no_device | transfer_overflow.

(** [in_flight]: from the submission to the callback. *)
Inductive transfer_state := allocated | in_flight | ended | freed.

#[global] Instance transfer_state_eq_dec : EqDecision transfer_state.
Proof. solve_decision. Defined.

(** A transfer with its [TransferWait]: [tr_report] is what the callback stored
    there (with the bytes it left in the buffer), [tr_wait] whether it still
    exists, [tr_notify] whether the callback has still to notify it.
    [tr_cancelled]: cancelled while in flight. *)
Record Transfer := mkTransfer {
  tr_plan : Plan;
  tr_timeout : Z;
  tr_state : transfer_state;
  tr_cancelled : bool;
  tr_report : option (transfer_status * Z * list Z);
  tr_wait : bool;
  tr_notify : bool }.

Record Transport := mkTransport {
  tp_info : UsbInterfaceInfo;
  tp_active : gset nat;
  tp_closed : bool }.

(** Where a thread is in its call, and the transfer it has used. *)
Inductive pc :=
| entering
| acquiring (j : job)
| waiting (j : job)
| holding (j : job)
| clearing (g : gate) (endpoint : Z)
| preparing (p : Plan) (timeout : Z)
| submitting (p : Plan) (x : nat)
| in_transfer (p : Plan) (x : nat)
| settling (p : Plan) (x : nat)
| switching (p : Plan) (x : nat)
| freeing (p : Plan) (x : nat) (status transferred : Z)
| releasing (g : gate) (transfer : option nat) (result : outcome)
| returned (transfer : option nat) (result : outcome).

Record Thread := mkThread {
  th_transport : nat;
  th_operation : nat;
  th_call : call;
  th_pc : pc }.

(** What others have begun: an operation is completed and its handler is still to
    be taken, or a [cancel] is under way.  The handler of an operation is the
    [cancel] of a transport. *)
Inductive todo :=
| take_of (o : nat)
| cancel_of (t : nat).

#[global] Instance todo_eq_dec : EqDecision todo.
Proof. solve_decision. Defined.

Record State := mkState {
  st_connected : bool;
  st_busy : gset gate;
  st_transports : list Transport;
  st_operations : list (Operation nat);
  st_transfers : list Transfer;
  st_threads : list Thread;
  st_todo : list todo;
  st_clock : Z }.

Definition with_connected (b : bool) (s : State) : State :=
  mkState b (st_busy s) (st_transports s) (st_operations s) (st_transfers s) (st_threads s) (st_todo s)
    (st_clock s).
Definition with_busy (gs : gset gate) (s : State) : State :=
  mkState (st_connected s) gs (st_transports s) (st_operations s) (st_transfers s) (st_threads s) (st_todo s)
    (st_clock s).
Definition with_transports (l : list Transport) (s : State) : State :=
  mkState (st_connected s) (st_busy s) l (st_operations s) (st_transfers s) (st_threads s) (st_todo s)
    (st_clock s).
Definition with_operations (l : list (Operation nat)) (s : State) : State :=
  mkState (st_connected s) (st_busy s) (st_transports s) l (st_transfers s) (st_threads s) (st_todo s)
    (st_clock s).
Definition with_transfers (l : list Transfer) (s : State) : State :=
  mkState (st_connected s) (st_busy s) (st_transports s) (st_operations s) l (st_threads s) (st_todo s)
    (st_clock s).
Definition with_threads (l : list Thread) (s : State) : State :=
  mkState (st_connected s) (st_busy s) (st_transports s) (st_operations s) (st_transfers s) l (st_todo s)
    (st_clock s).
Definition with_todo (l : list todo) (s : State) : State :=
  mkState (st_connected s) (st_busy s) (st_transports s) (st_operations s) (st_transfers s) (st_threads s) l
    (st_clock s).
Definition with_clock (now : Z) (s : State) : State :=
  mkState (st_connected s) (st_busy s) (st_transports s) (st_operations s) (st_transfers s) (st_threads s)
    (st_todo s) now.

(** [undefined]: libusb is given a transfer that has been freed, or a callback
    finds its [TransferWait] gone. *)
Inductive verdict :=
| blocked
| undefined
| moved (s : State).

Definition with_state (st : transfer_state) (x : Transfer) : Transfer :=
  mkTransfer (tr_plan x) (tr_timeout x) st (tr_cancelled x) (tr_report x) (tr_wait x) (tr_notify x).
Definition set_cancelled (x : Transfer) : Transfer :=
  mkTransfer (tr_plan x) (tr_timeout x) (tr_state x) true (tr_report x) (tr_wait x) (tr_notify x).
Definition end_wait (x : Transfer) : Transfer :=
  mkTransfer (tr_plan x) (tr_timeout x) (tr_state x) (tr_cancelled x) (tr_report x) false (tr_notify x).
Definition notified (x : Transfer) : Transfer :=
  mkTransfer (tr_plan x) (tr_timeout x) (tr_state x) (tr_cancelled x) (tr_report x) (tr_wait x) false.

Definition with_active (a : gset nat) (t : Transport) : Transport :=
  mkTransport (tp_info t) a (tp_closed t).

Definition goes (i : nat) (th : Thread) (p : pc) (s : State) : State :=
  with_threads (<[i := mkThread (th_transport th) (th_operation th) (th_call th) p]> (st_threads s)) s.

Definition set_transfer (x : nat) (tr : Transfer) (s : State) : State :=
  with_transfers (<[x := tr]> (st_transfers s)) s.

Definition set_transport (t : nat) (tp : Transport) (s : State) : State :=
  with_transports (<[t := tp]> (st_transports s)) s.

Definition mark_disconnected (s : State) : State := with_connected false s.

(** [operation.request_timeout()], up to the handler. *)
Definition time_out (o : nat) (op : Operation nat) (s : State) : State :=
  let '(won, op') := try_complete VI_ERROR_TMO op in
  let s := with_operations (<[o := op']> (st_operations s)) s in
  if won then with_todo (st_todo s ++ [take_of o]) s else s.

(** [operation.result()] after that. *)
Definition timed_out_result (op : Operation nat) : Z := op_result (try_complete VI_ERROR_TMO op).2.

(** ** Transfers *)

(** [num] clock ticks to the millisecond. *)
Definition ticks_per_ms : Z := 10 ^ 6.

(** [duration_cast] truncates. *)
Definition timeout_ms (remaining : Z) : Z :=
  Z.min (u64 (Z.quot (remaining + ticks_per_ms - 1) ticks_per_ms)) uint_max.

(** [None]: the deadline has passed. *)
Definition remaining_timeout (op : Operation nat) (now : Z) : option Z :=
  match deadline_ op with
  | None => Some 0
  | Some deadline => if deadline <=? now then None else Some (timeout_ms (deadline - now))
  end.

(** What libusb, the allocator and the clock of a condition variable answer to
    a thread. *)
Record answer := mkAnswer {
  an_allocated : bool;
  an_result : Z;
  an_timeout : bool }.

(** The loop of [EndpointGate::acquire], under the mutex of the gate. *)
Definition acquire_step (i : nat) (th : Thread) (op : Operation nat) (j : job) (s : State) : State :=
  if completed op then goes i th (returned None (failure (op_result op))) s
  else if bool_decide (job_gate j ∈ st_busy s) then goes i th (waiting j) s
  else goes i th (holding j) (with_busy ({[job_gate j]} ∪ st_busy s) s).

(** The end of [wait_for] or [wait_until]. *)
Definition wait_step (i : nat) (th : Thread) (op : Operation nat) (j : job) (timeout : bool) (s : State)
  : verdict :=
  if timeout then
    match deadline_ op with
    | Some deadline =>
        if deadline <=? st_clock s
        then moved (goes i th (returned None (failure (timed_out_result op))) (time_out (th_operation th) op s))
        else blocked
    | None => blocked
    end
  else moved (goes i th (acquiring j) s).

Definition release (g : gate) (s : State) : State := with_busy (st_busy s ∖ {[g]}) s.

(** [transfer_timeout], for a transfer; [clear_halt] asks whether the transport
    is still in use. *)
Definition hold_step (i : nat) (th : Thread) (tp : Transport) (op : Operation nat) (j : job) (s : State)
  : State :=
  match j with
  | transfer_job p =>
      if completed op then goes i th (releasing (pl_gate p) None (failure (op_result op))) s
      else
        match remaining_timeout op (st_clock s) with
        | None =>
            goes i th (releasing (pl_gate p) None (failure (timed_out_result op)))
              (time_out (th_operation th) op s)
        | Some timeout => goes i th (preparing p timeout) s
        end
  | clear_job g endpoint =>
      if tp_closed tp || negb (st_connected s)
      then goes i th (releasing g None (failure VI_ERROR_CONN_LOST)) s
      else goes i th (clearing g endpoint) s
  end.

(** [libusb_clear_halt] *)
Definition clear_step (i : nat) (th : Thread) (g : gate) (result : Z) (s : State) : State :=
  goes i th (releasing g None (failure (map_error result false)))
    (if result =? -4 then mark_disconnected s else s).

(** [libusb_alloc_transfer] and [libusb_fill_*_transfer] *)
Definition prepare_step (i : nat) (th : Thread) (p : Plan) (timeout : Z) (allocated_ : bool) (s : State)
  : State :=
  if allocated_ then
    goes i th (submitting p (length (st_transfers s)))
      (with_transfers (st_transfers s ++ [mkTransfer p timeout allocated false None true false]) s)
  else goes i th (releasing (pl_gate p) None (failure VI_ERROR_ALLOC)) s.

(** The first part of [submit_and_wait]: under [state_mutex_], then the error. *)
Definition submit_step (i : nat) (th : Thread) (tp : Transport) (op : Operation nat) (p : Plan) (x : nat)
    (tr : Transfer) (result : Z) (s : State) : verdict :=
  if tp_closed tp || negb (st_connected s) then moved (goes i th (freeing p x VI_ERROR_CONN_LOST 0) s)
  else if completed op then moved (goes i th (freeing p x (op_result op) 0) s)
  else if negb (bool_decide (tr_state tr = allocated)) then undefined
  else if result <? 0 then
    moved (goes i th (freeing p x (map_error result false) 0)
      (if result =? -4 then mark_disconnected s else s))
  else
    moved (goes i th (in_transfer p x)
      (set_transport (th_transport th) (with_active ({[x]} ∪ tp_active tp) tp)
        (set_transfer x (with_state in_flight tr) s))).

(** The wait for [completed], and the erasure under [state_mutex_]. *)
Definition completion_step (i : nat) (th : Thread) (tp : Transport) (p : Plan) (x : nat) (tr : Transfer) (s : State)
  : verdict :=
  match tr_report tr with
  | None => blocked
  | Some _ =>
      moved (goes i th (settling p x)
        (set_transport (th_transport th) (with_active (tp_active tp ∖ {[x]}) tp) s))
  end.

Definition settle_step (i : nat) (th : Thread) (op : Operation nat) (p : Plan) (x : nat) (s : State) : State :=
  if completed op then goes i th (freeing p x (op_result op) 0) s else goes i th (switching p x) s.

(** [transferred], and the switch over the status. *)
Definition switch_step (i : nat) (th : Thread) (tp : Transport) (op : Operation nat) (p : Plan) (x : nat)
    (tr : Transfer) (s : State) : verdict :=
  match tr_report tr with
  | None => blocked
  | Some (status, actual, _) =>
      let transferred := if 0 <? actual then actual else 0 in
      moved
        match status with
        | transfer_completed => goes i th (freeing p x VI_SUCCESS transferred) s
        | transfer_timed_out =>
            goes i th (freeing p x (timed_out_result op) transferred) (time_out (th_operation th) op s)
        | transfer_cancelled =>
            goes i th (freeing p x (if tp_closed tp then VI_ERROR_CONN_LOST else VI_ERROR_ABORT) transferred) s
        | transfer_no_device => goes i th (freeing p x VI_ERROR_CONN_LOST transferred) (mark_disconnected s)
        | transfer_error | transfer_stall | transfer_overflow =>
            goes i th (freeing p x VI_ERROR_IO transferred) s
        end
  end.

(** The data behind the setup packet, after the transfer. *)
Definition buffer_after (tr : Transfer) : list Z :=
  let received := match tr_report tr with Some (_, _, data) => data | None => [] end in
  received ++ replicate (Z.to_nat (pl_length (tr_plan tr)) - length received) 0.

(** What the call returns: data only if it has succeeded. *)
Definition call_result (tr : Transfer) (status transferred : Z) : outcome :=
  if pl_input (tr_plan tr) then
    if status <? VI_SUCCESS then failure status
    else mkOutcome status 0 (take (Z.to_nat transferred) (buffer_after tr))
  else mkOutcome status transferred [].

(** [libusb_free_transfer]; a transfer in flight must not be freed. *)
Definition free_step (i : nat) (th : Thread) (x : nat) (tr : Transfer) (status transferred : Z) (s : State)
  : verdict :=
  match tr_state tr with
  | in_flight | freed => undefined
  | allocated | ended =>
      moved (goes i th (releasing (pl_gate (tr_plan tr)) (Some x) (call_result tr status transferred))
        (set_transfer x (with_state freed tr) s))
  end.

(** The destructors of the [TransferWait] and of the lease. *)
Definition release_step (i : nat) (th : Thread) (g : gate) (transfer : option nat) (result : outcome)
    (s : State)
  : State :=
  let s := match transfer with
           | Some x =>
               match st_transfers s !! x with Some tr => set_transfer x (end_wait tr) s | None => s end
           | None => s
           end in
  goes i th (returned transfer result) (release g s).

Definition on_transfer (x : nat) (s : State) (f : Transfer -> verdict) : verdict :=
  match st_transfers s !! x with Some tr => f tr | None => blocked end.

Definition thread_step (i : nat) (a : answer) (s : State) : verdict :=
  match st_threads s !! i with
  | None => blocked
  | Some th =>
      match st_transports s !! th_transport th, st_operations s !! th_operation th with
      | Some tp, Some op =>
          match th_pc th with
          | entering =>
              moved (goes i th
                match begin_call (tp_info tp) (th_call th) with
                | inl status => returned None (failure status)
                | inr j => acquiring j
                end s)
          | acquiring j => moved (acquire_step i th op j s)
          | waiting j => wait_step i th op j (an_timeout a) s
          | holding j => moved (hold_step i th tp op j s)
          | clearing g _ => moved (clear_step i th g (an_result a) s)
          | preparing p timeout => moved (prepare_step i th p timeout (an_allocated a) s)
          | submitting p x => on_transfer x s (fun tr => submit_step i th tp op p x tr (an_result a) s)
          | in_transfer p x => on_transfer x s (fun tr => completion_step i th tp p x tr s)
          | settling p x => moved (settle_step i th op p x s)
          | switching p x => on_transfer x s (fun tr => switch_step i th tp op p x tr s)
          | freeing p x status transferred =>
              on_transfer x s (fun tr => free_step i th x tr status transferred s)
          | releasing g transfer result => moved (release_step i th g transfer result s)
          | returned _ _ => blocked
          end
      | _, _ => blocked
      end
  end.

(** ** The others *)

(** [cancel], under [state_mutex_]: [libusb_cancel_transfer] for the active transfers. *)
Definition cancel_transfer (x : nat) (v : verdict) : verdict :=
  match v with
  | moved s =>
      on_transfer x s (fun tr =>
        match tr_state tr with
        | freed => undefined
        | in_flight => moved (set_transfer x (set_cancelled tr) s)
        | allocated | ended => moved s
        end)
  | _ => v
  end.

Definition cancel (t : nat) (s : State) : verdict :=
  match st_transports s !! t with
  | None => blocked
  | Some tp => foldr cancel_transfer (moved s) (elements (tp_active tp))
  end.

(** The next thing that has been begun. *)
Definition todo_step (k : nat) (s : State) : verdict :=
  match st_todo s !! k with
  | None => blocked
  | Some d =>
      let s := with_todo (delete k (st_todo s)) s in
      match d with
      | take_of o =>
          match st_operations s !! o with
          | None => blocked
          | Some op =>
              let '(handler, op') := take_handler op in
              moved (with_todo (st_todo s ++ (cancel_of <$> option_list handler))
                (with_operations (<[o := op']> (st_operations s)) s))
          end
      | cancel_of t => cancel t s
      end
  end.

(** [request_cancel], or the timeout of another thread, up to the handler. *)
Definition complete_operation (o : nat) (status : Z) (s : State) : verdict :=
  match st_operations s !! o with
  | None => blocked
  | Some op =>
      let '(won, op') := try_complete status op in
      let s := with_operations (<[o := op']> (st_operations s)) s in
      moved (if won then with_todo (st_todo s ++ [take_of o]) s else s)
  end.

(** [close], up to its [cancel]. *)
Definition close_transport (t : nat) (s : State) : verdict :=
  match st_transports s !! t with
  | None => blocked
  | Some tp =>
      moved (with_todo (st_todo s ++ [cancel_of t])
        (set_transport t (mkTransport (tp_info tp) (tp_active tp) true) s))
  end.

(** [transfer_complete] up to the end of its critical section: the callback of
    libusb for a transfer in flight. *)
Definition transfer_complete (x : nat) (status : transfer_status) (actual : Z) (data : list Z) (s : State)
  : verdict :=
  on_transfer x s (fun tr =>
    match tr_state tr with
    | in_flight =>
        if tr_wait tr then
          moved (set_transfer x
            (mkTransfer (tr_plan tr) (tr_timeout tr) ended (tr_cancelled tr) (Some (status, actual, data))
               true true) s)
        else undefined
    | _ => blocked
    end).

(** [wait->condition.notify_one()] *)
Definition transfer_notify (x : nat) (s : State) : verdict :=
  on_transfer x s (fun tr =>
    if tr_notify tr then
      if tr_wait tr then moved (set_transfer x (notified tr) s) else undefined
    else blocked).

Inductive event :=
| Open (info : UsbInterfaceInfo)
| NewOperation (deadline : option Z) (transport : nat)
| Call (transport operation : nat) (c : call)
| Runs (thread : nat) (a : answer)
| Does (k : nat)
| Completes (operation : nat) (status : Z)
| Closes (transport : nat)
| Unplugged
| Ends (transfer : nat) (status : transfer_status) (actual : Z) (data : list Z)
| Notifies (transfer : nat)
| Tick (now : Z).

Definition step (e : event) (s : State) : verdict :=
  match e with
  | Open info => moved (with_transports (st_transports s ++ [mkTransport info ∅ false]) s)
  | NewOperation deadline t =>
      moved (with_operations (st_operations s ++ [mkOperation kPending deadline (Some t)]) s)
  | Call t o c => moved (with_threads (st_threads s ++ [mkThread t o c entering]) s)
  | Runs i a => thread_step i a s
  | Does k => todo_step k s
  | Completes o status => complete_operation o status s
  | Closes t => close_transport t s
  | Unplugged => moved (mark_disconnected s)
  | Ends x status actual data => transfer_complete x status actual data s
  | Notifies x => transfer_notify x s
  | Tick now => moved (with_clock now s)
  end.

Definition connection : State := mkState true ∅ [] [] [] [] [] 0.
