(* ===== verification/LibusbSafety.v ===== *)
(** * What holds of the libusb transport in every interleaving

    An invariant of the states of [LibusbTransport], shown for every step, and what
    follows from it. *)

From S2P Require Import Prelude Visa Operation UsbTransport LibusbDescriptors LibusbTransport.

(** ** Environment *)

(** Sizes are not negative; a transfer ends with at most the bytes it has room for; an operation that
    others complete fails; a call uses an operation whose handler is the [cancel]
    of its transport, or one that is completed. *)
Definition sizes_ok (c : call) : Prop :=
  match c with
  | bulk_in_call n | control_in_call _ n | interrupt_in_call n => 0 <= n
  | _ => True
  end.

Definition enabled (e : event) (s : State) : Prop :=
  match e with
  | Call t o c =>
      sizes_ok c /\ is_Some (st_transports s !! t) /\
      exists op, st_operations s !! o = Some op /\
        (completed op = false -> cancel_handler_ op = Some t)
  | Completes o status => status < VI_SUCCESS
  | Ends x status actual data =>
      forall tr, st_transfers s !! x = Some tr ->
        0 <= actual <= pl_length (tr_plan tr) /\
        size_of data = (if pl_input (tr_plan tr) then actual else 0)
  | _ => True
  end.

Definition libusb_step (s s' : State) : Prop := exists e, enabled e s /\ step e s = moved s'.

(** ** The invariant *)

Definition pc_transfer (p : pc) : option nat :=
  match p with
  | submitting _ x | in_transfer _ x | settling _ x | switching _ x | freeing _ x _ _ => Some x
  | releasing _ transfer _ | returned transfer _ => transfer
  | _ => None
  end.

Definition pc_gate (p : pc) : option gate :=
  match p with
  | entering | acquiring _ | waiting _ | returned _ _ => None
  | holding j => Some (job_gate j)
  | clearing g _ | releasing g _ _ => Some g
  | preparing p _ | submitting p _ | in_transfer p _ | settling p _ | switching p _ | freeing p _ _ _ =>
      Some (pl_gate p)
  end.

(** What the callback reports of a transfer of plan [p]. *)
Definition report_ok (p : Plan) (r : transfer_status * Z * list Z) : Prop :=
  0 <= r.1.2 <= pl_length p /\ size_of r.2 = (if pl_input p then r.1.2 else 0).

(** What a call returns that has used the transfer [tr]: success only for a
    transfer that was completed, then with the bytes it moved; no data
    otherwise. *)
Definition outcome_ok (p : Plan) (report : option (transfer_status * Z * list Z)) (r : outcome) : Prop :=
  (oc_status r < VI_SUCCESS /\ oc_data r = []) \/
  exists actual data, report = Some (transfer_completed, actual, data) /\ report_ok p (transfer_completed, actual, data) /\
    r = mkOutcome VI_SUCCESS (if pl_input p then 0 else actual) data.

(** What is known before [call_result]. *)
Definition answer_ok (p : Plan) (report : option (transfer_status * Z * list Z)) (status transferred : Z) : Prop :=
  0 <= transferred <= pl_length p /\
  (status < VI_SUCCESS \/
   status = VI_SUCCESS /\ exists data, report = Some (transfer_completed, transferred, data)).

Definition ended_ok (p : Plan) (tr : Transfer) : Prop :=
  tr_state tr = ended /\ exists r, tr_report tr = Some r /\ report_ok p r.

Definition fresh_ok (tr : Transfer) : Prop := tr_state tr = allocated /\ tr_report tr = None.

Definition begins (info : UsbInterfaceInfo) (c : call) (p : Plan) : Prop :=
  begin_call info c = inr (transfer_job p).

(** The transfer [x] of a thread, with [Q] of it. *)
Definition its_transfer (s : State) (p : Plan) (x : nat) (Q : Transfer -> Prop) : Prop :=
  exists tr, st_transfers s !! x = Some tr /\ tr_plan tr = p /\ Q tr.

Definition pc_ok (s : State) (th : Thread) (tp : Transport) : Prop :=
  let info := tp_info tp in
  let c := th_call th in
  match th_pc th with
  | entering => True
  | acquiring j | waiting j | holding j => begin_call info c = inr j
  | clearing g e => begin_call info c = inr (clear_job g e)
  | preparing p _ => begins info c p
  | submitting p x =>
      begins info c p /\ (x ∉ tp_active tp) /\ its_transfer s p x (fun tr => tr_wait tr = true /\ fresh_ok tr)
  | in_transfer p x =>
      begins info c p /\ x ∈ tp_active tp /\ its_transfer s p x (fun tr => tr_wait tr = true /\
        (tr_state tr = in_flight /\ tr_report tr = None \/ ended_ok p tr))
  | settling p x | switching p x =>
      begins info c p /\ (x ∉ tp_active tp) /\ its_transfer s p x (fun tr => tr_wait tr = true /\ ended_ok p tr)
  | freeing p x status transferred =>
      begins info c p /\ (x ∉ tp_active tp) /\ its_transfer s p x (fun tr => tr_wait tr = true /\
        (fresh_ok tr \/ ended_ok p tr) /\ answer_ok p (tr_report tr) status transferred)
  | releasing g (Some x) r =>
      exists p, pl_gate p = g /\ begins info c p /\ (x ∉ tp_active tp) /\ its_transfer s p x (fun tr =>
        tr_state tr = freed /\ outcome_ok p (tr_report tr) r)
  | returned (Some x) r =>
      exists p, begins info c p /\ (x ∉ tp_active tp) /\ its_transfer s p x (fun tr =>
        tr_state tr = freed /\ outcome_ok p (tr_report tr) r)
  | releasing _ None r | returned None r =>
      exists status, r = failure status /\
        (status < VI_SUCCESS \/ status = VI_SUCCESS /\ exists e, c = clear_halt_call e)
  end.

Record thread_ok (s : State) (th : Thread) : Prop := mkThreadOk {
  ok_transport : exists tp, st_transports s !! th_transport th = Some tp /\ pc_ok s th tp;
  ok_operation : exists op, st_operations s !! th_operation th = Some op /\
    (completed op = false -> cancel_handler_ op = Some (th_transport th));
  ok_sizes : sizes_ok (th_call th) }.

Definition thread_at (s : State) (i : nat) (th : Thread) : Prop := st_threads s !! i = Some th.

Record inv (s : State) : Prop := mkInv {
  i_threads i th : thread_at s i th -> thread_ok s th;
  i_owner i i' th th' x : thread_at s i th -> thread_at s i' th' ->
    pc_transfer (th_pc th) = Some x -> pc_transfer (th_pc th') = Some x -> i = i';
  i_holder i i' th th' g : thread_at s i th -> thread_at s i' th' ->
    pc_gate (th_pc th) = Some g -> pc_gate (th_pc th') = Some g -> i = i';
  i_busy g : g ∈ st_busy s <-> exists i th, thread_at s i th /\ pc_gate (th_pc th) = Some g;
  i_active t tp x : st_transports s !! t = Some tp -> x ∈ tp_active tp ->
    exists i th p, thread_at s i th /\ th_transport th = t /\ th_pc th = in_transfer p x;
  i_transfer x tr : st_transfers s !! x = Some tr ->
    exists i th, thread_at s i th /\ pc_transfer (th_pc th) = Some x;
  i_operation o op : st_operations s !! o = Some op -> completed op = true -> op_result op < VI_SUCCESS;
  i_todo o : take_of o ∈ st_todo s -> exists op, st_operations s !! o = Some op /\ completed op = true }.

(** *** Steps that a thread does not notice *)

Definition similar (tr tr' : Transfer) : Prop :=
  tr_plan tr' = tr_plan tr /\ tr_state tr' = tr_state tr /\ tr_report tr' = tr_report tr /\ tr_wait tr' = tr_wait tr.

Definition op_forward (op op' : Operation nat) : Prop :=
  completed op' = false -> completed op = false /\ cancel_handler_ op' = cancel_handler_ op.

(** From [s] to [s'], as far as the thread [th] can tell. *)
Record unnoticed (s s' : State) (th : Thread) : Prop := mkUnnoticed {
  un_transport tp : st_transports s !! th_transport th = Some tp ->
    exists tp', st_transports s' !! th_transport th = Some tp' /\ tp_info tp' = tp_info tp /\
      forall x, pc_transfer (th_pc th) = Some x -> x ∈ tp_active tp' <-> x ∈ tp_active tp;
  un_operation op : st_operations s !! th_operation th = Some op ->
    exists op', st_operations s' !! th_operation th = Some op' /\ op_forward op op';
  un_transfer x tr : pc_transfer (th_pc th) = Some x -> st_transfers s !! x = Some tr ->
    exists tr', st_transfers s' !! x = Some tr' /\ similar tr tr' }.

Lemma its_transfer_similar s s' p x (Q : Transfer -> Prop) :
  (forall tr, st_transfers s !! x = Some tr -> exists tr', st_transfers s' !! x = Some tr' /\ similar tr tr') ->
  (forall tr tr', similar tr tr' -> Q tr -> Q tr') ->
  its_transfer s p x Q -> its_transfer s' p x Q.
Proof.
  intros Hx HQ (tr & Htr & Hp & Hq). destruct (Hx tr Htr) as (tr' & Htr' & Hs).
  exists tr'. split; [done|]. split; [by destruct Hs as [-> _]|by eapply HQ].
Qed.

Lemma pc_ok_unnoticed s s' th tp tp' :
  tp_info tp' = tp_info tp ->
  (forall x, pc_transfer (th_pc th) = Some x -> x ∈ tp_active tp' <-> x ∈ tp_active tp) ->
  (forall x tr, pc_transfer (th_pc th) = Some x -> st_transfers s !! x = Some tr ->
     exists tr', st_transfers s' !! x = Some tr' /\ similar tr tr') ->
  pc_ok s th tp -> pc_ok s' th tp'.
Proof.
  intros Hi Ha Hx. unfold pc_ok. rewrite Hi.
  assert (forall p x Q, pc_transfer (th_pc th) = Some x ->
    (forall tr tr', similar tr tr' -> Q tr -> Q tr') -> its_transfer s p x Q -> its_transfer s' p x Q) as Hits.
  { intros p x Q Hpx HQ. apply its_transfer_similar; [|done]. intros tr. by apply Hx. }
  destruct (th_pc th) as [|j|j|j|g e|p t|p x|p x|p x|p x|p x status n|g [x|] r|[x|] r]; try done; cbn in *;
    try (intros (? & ? & Hq); split; [done|]; split; [by rewrite (Ha x eq_refl)|]; revert Hq; apply Hits; [done|];
         unfold fresh_ok, ended_ok; intros tr tr' (_ & Hst & Hre & Hw); by rewrite ?Hst, ?Hre, ?Hw).
  - intros (q & ? & ? & ? & Hq). exists q. split; [done|]. split; [done|]. split; [by rewrite (Ha x eq_refl)|].
    revert Hq. apply Hits; [done|]. intros tr tr' (_ & Hst & Hre & _). by rewrite Hst, Hre.
  - intros (q & ? & ? & Hq). exists q. split; [done|]. split; [by rewrite (Ha x eq_refl)|].
    revert Hq. apply Hits; [done|]. intros tr tr' (_ & Hst & Hre & _). by rewrite Hst, Hre.
Qed.

Lemma thread_ok_unnoticed s s' th : unnoticed s s' th -> thread_ok s th -> thread_ok s' th.
Proof.
  intros [Ut Uo Ux] [(tp & Htp & Hpc) (op & Hop & Hh) Hsz]. split; [| |done].
  - destruct (Ut tp Htp) as (tp' & Htp' & Hi & Ha). exists tp'. split; [done|]. by eapply pc_ok_unnoticed.
  - destruct (Uo op Hop) as (op' & Hop' & Hf). exists op'. split; [done|]. intros Hc.
    destruct (Hf Hc) as [? ->]. by apply Hh.
Qed.

(** *** Operations *)

(** Operations go on: completed ones stay so, with an error. *)
Definition ops_move (s s1 : State) : Prop :=
  (forall o op, st_operations s !! o = Some op ->
     exists op', st_operations s1 !! o = Some op' /\ op_forward op op') /\
  (forall o op, st_operations s1 !! o = Some op -> completed op = true ->
     op_result op < VI_SUCCESS \/ exists op0, st_operations s !! o = Some op0 /\ completed op0 = true /\
       op_result op0 = op_result op) /\
  (forall o, take_of o ∈ st_todo s1 ->
     take_of o ∈ st_todo s \/ exists op, st_operations s1 !! o = Some op /\ completed op = true).

Lemma ops_same s s1 :
  st_operations s1 = st_operations s -> (forall o, take_of o ∈ st_todo s1 -> take_of o ∈ st_todo s) ->
  ops_move s s1.
Proof.
  intros He Ht. split; [|split; [|by left; apply Ht]]; intros o op; rewrite He; intros Hop; [by exists op|].
  intros Hc. right. by exists op.
Qed.

Lemma try_complete_spec (op : Operation nat) status :
  status ≠ kPending -> completed (try_complete status op).2 = true /\
  cancel_handler_ (try_complete status op).2 = cancel_handler_ op /\
  op_result (try_complete status op).2 = (if completed op then op_result op else status).
Proof.
  intros Hs. unfold try_complete, completed, op_result. destruct (result_ op =? kPending) eqn:E; cbn.
  - by rewrite (proj2 (Z.eqb_neq _ _) Hs).
  - by rewrite E.
Qed.

(** An operation that is completed with an error, or has been. *)
Lemma ops_complete s s1 o op status :
  st_operations s !! o = Some op -> status < VI_SUCCESS ->
  st_operations s1 = <[o := (try_complete status op).2]> (st_operations s) ->
  (forall d, d ∈ st_todo s1 -> d ∈ st_todo s \/ d = take_of o) -> ops_move s s1.
Proof.
  intros Hop Hs He Ht. assert (status ≠ kPending) as Hp by (unfold kPending, VI_SUCCESS in *; lia).
  destruct (try_complete_spec op status Hp) as (Hc & Hh & Hr).
  assert (st_operations s1 !! o = Some (try_complete status op).2) as Hnew.
  { rewrite He. apply list_lookup_insert_eq, lookup_lt_is_Some. by eexists. }
  split; [|split].
  - intros o' op' Ho'. destruct (decide (o' = o)) as [->|Hne].
    + eexists. split; [exact Hnew|]. unfold op_forward. by rewrite Hc.
    + rewrite He, list_lookup_insert_ne by done. exists op'. by split; [|intros ?].
  - intros o' op'. rewrite He. intros [(-> & <- & _)|[_ Ho']]%list_lookup_insert_Some Hc'; [|right; by exists op'].
    rewrite Hr. destruct (completed op) eqn:E; [right; by exists op|by left].
  - intros o' [?|[= ->]]%Ht; [by left|right]. eauto.
Qed.

Lemma time_out_frame o op s :
  st_threads (time_out o op s) = st_threads s /\ st_transports (time_out o op s) = st_transports s /\
  st_transfers (time_out o op s) = st_transfers s /\ st_busy (time_out o op s) = st_busy s /\
  st_operations (time_out o op s) = <[o := (try_complete VI_ERROR_TMO op).2]> (st_operations s) /\
  forall d, d ∈ st_todo (time_out o op s) -> d ∈ st_todo s \/ d = take_of o.
Proof.
  unfold time_out. destruct (try_complete VI_ERROR_TMO op) as [[] op']; cbn; repeat (split; [done|]).
  - intros d. by rewrite elem_of_app, list_elem_of_singleton.
  - auto.
Qed.

Lemma timed_out_negative s o op :
  inv s -> st_operations s !! o = Some op -> timed_out_result op < VI_SUCCESS.
Proof.
  intros Hi Hop. unfold timed_out_result.
  destruct (try_complete_spec op VI_ERROR_TMO) as (_ & _ & ->); [done|].
  destruct (completed op) eqn:E; [by eapply i_operation|done].
Qed.

Lemma ops_inv s s1 :
  inv s -> ops_move s s1 ->
  (forall o op, st_operations s1 !! o = Some op -> completed op = true -> op_result op < VI_SUCCESS) /\
  (forall o, take_of o ∈ st_todo s1 -> exists op, st_operations s1 !! o = Some op /\ completed op = true).
Proof.
  intros Hi (Hf & Hn & Ht). split.
  - intros o op Hop Hc. destruct (Hn o op Hop Hc) as [?|(op0 & Hop0 & Hc0 & <-)]; [done|].
    by eapply i_operation.
  - intros o Ho. destruct (Ht o Ho) as [Ho'|?]; [|done]. destruct (i_todo s Hi o Ho') as (op & Hop & Hc).
    destruct (Hf o op Hop) as (op' & Hop' & Hfw). exists op'. split; [done|].
    destruct (completed op') eqn:E; [done|]. destruct (Hfw E). congruence.
Qed.

(** ** A step of one thread

    [th] at [i] goes on to [p], and the rest of the state to [s1]. *)

Definition stepped (th : Thread) (p : pc) : Thread :=
  mkThread (th_transport th) (th_operation th) (th_call th) p.

(** The gates: none is taken or released, a free one is taken, or the thread's
    own is released. *)
Definition gates_move (p p' : pc) (b b' : gset gate) : Prop :=
  pc_gate p' = pc_gate p /\ b' = b \/
  (exists g, pc_gate p = None /\ pc_gate p' = Some g /\ (g ∉ b) /\ b' = {[g]} ∪ b) \/
  (exists g, pc_gate p = Some g /\ pc_gate p' = None /\ b' = b ∖ {[g]}).

(** The transfers: a thread keeps its own, or allocates one. *)
Definition transfers_move (p p' : pc) (l l' : list Transfer) : Prop :=
  pc_transfer p' = pc_transfer p /\ (forall x tr', l' !! x = Some tr' -> is_Some (l !! x)) \/
  pc_transfer p = None /\ pc_transfer p' = Some (length l) /\ exists tr, l' = l ++ [tr].

Lemma goes_thread i th p s i' th' :
  is_Some (st_threads s !! i) ->
  thread_at (goes i th p s) i' th' <-> (i' = i /\ th' = stepped th p) \/ (i' ≠ i /\ thread_at s i' th').
Proof.
  intros Hi%lookup_lt_is_Some. unfold thread_at, goes. cbn. destruct (decide (i' = i)) as [->|Hne].
  - rewrite list_lookup_insert_eq by done. unfold stepped. naive_solver.
  - rewrite list_lookup_insert_ne by done. naive_solver.
Qed.

Lemma inv_goes s s1 i th p :
  inv s -> thread_at s i th -> st_threads s1 = st_threads s ->
  (forall i' th', i' ≠ i -> thread_at s i' th' -> unnoticed s s1 th') ->
  thread_ok s1 (stepped th p) ->
  gates_move (th_pc th) p (st_busy s) (st_busy s1) ->
  transfers_move (th_pc th) p (st_transfers s) (st_transfers s1) ->
  (forall t tp x, st_transports s1 !! t = Some tp -> x ∈ tp_active tp ->
     (exists q, t = th_transport th /\ p = in_transfer q x) \/
     ((forall q, th_pc th ≠ in_transfer q x) /\
      exists tp0, st_transports s !! t = Some tp0 /\ x ∈ tp_active tp0)) ->
  ops_move s s1 ->
  inv (goes i th p s1).
Proof.
  intros Hinv. pose proof Hinv as [It Io Ih Ib Ia Ix _ _]. intros Hth Hthreads Hun Hok Hg Hx Hact Hop.
  assert (is_Some (st_threads s1 !! i)) as Hi by (rewrite Hthreads; by eexists).
  assert (forall i' th', thread_at (goes i th p s1) i' th' <->
    (i' = i /\ th' = stepped th p) \/ (i' ≠ i /\ thread_at s i' th')) as Hat.
  { intros i' th'. rewrite goes_thread by done. unfold thread_at. by rewrite Hthreads. }
  split.
  - intros i' th' [[-> ->]|[Hne Hth']]%Hat.
    + destruct Hok as [(tp & Htp & Hpc) ??]. split; [|done|done]. exists tp. split; [done|].
      eapply pc_ok_unnoticed; [done|done| |exact Hpc]. intros x tr _ Htr. by exists tr.
    + assert (thread_ok s1 th') as [(tp & Htp & Hpc) ??] by (eapply thread_ok_unnoticed; eauto).
      split; [|done|done]. exists tp. split; [done|].
      eapply pc_ok_unnoticed; [done|done| |exact Hpc]. intros x tr _ Htr. by exists tr.
  - assert (forall i' th' x, i' ≠ i -> thread_at s i' th' -> pc_transfer p = Some x ->
      pc_transfer (th_pc th') = Some x -> False) as Hno.
    { intros i' th' x Hne Hth' Hp Hp'. destruct Hx as [[He _]|(_ & He & _)].
      - apply Hne. eapply Io; eauto. congruence.
      - rewrite He in Hp. injection Hp as <-.
        destruct (It i' th' Hth') as [(tp & _ & Hpc) _ _]. unfold pc_ok in Hpc.
        assert (is_Some (st_transfers s !! length (st_transfers s))) as Hl; [|apply lookup_lt_is_Some in Hl; lia].
        destruct (th_pc th') as [|j|j|j|g e|q t|q x|q x|q x|q x|q x status n|g [x|] r|[x|] r]; try done;
          cbn in Hp'; injection Hp' as ->; unfold its_transfer in Hpc; naive_solver. }
    intros i1 i2 th1 th2 x [[-> ->]|[Hn1 H1]]%Hat [[-> ->]|[Hn2 H2]]%Hat; cbn; intros Hp1 Hp2; try done.
    + by destruct (Hno i2 th2 x).
    + by destruct (Hno i1 th1 x).
    + by eapply Io.
  - assert (forall i' th' g, i' ≠ i -> thread_at s i' th' -> pc_gate p = Some g ->
      pc_gate (th_pc th') = Some g -> False) as Hno.
    { intros i' th' g Hne Hth' Hp Hp'. destruct Hg as [[He _]|[(g' & _ & He & Hnin & _)|(g' & _ & He & _)]].
      - apply Hne. eapply Ih; eauto. congruence.
      - apply Hnin. assert (g' = g) as -> by congruence. apply Ib. by exists i', th'.
      - congruence. }
    intros i1 i2 th1 th2 g [[-> ->]|[Hn1 H1]]%Hat [[-> ->]|[Hn2 H2]]%Hat; cbn; intros Hp1 Hp2; try done.
    + by destruct (Hno i2 th2 g).
    + by destruct (Hno i1 th1 g).
    + by eapply Ih.
  - intros g. change (st_busy (goes i th p s1)) with (st_busy s1).
    assert ((exists i' th', thread_at (goes i th p s1) i' th' /\ pc_gate (th_pc th') = Some g) <->
      pc_gate p = Some g \/ exists i' th', i' ≠ i /\ thread_at s i' th' /\ pc_gate (th_pc th') = Some g) as ->.
    { split.
      - intros (i' & th' & [[-> ->]|[Hne Hth']]%Hat & Hpg); [by left|]. right. by exists i', th'.
      - intros [Hpg|(i' & th' & Hne & Hth' & Hpg)].
        + exists i, (stepped th p). split; [apply Hat; by left|done].
        + exists i', th'. split; [apply Hat; by right|done]. }
    assert ((exists i' th', i' ≠ i /\ thread_at s i' th' /\ pc_gate (th_pc th') = Some g) <->
      g ∈ st_busy s /\ pc_gate (th_pc th) ≠ Some g) as ->.
    { rewrite Ib. split.
      - intros (i' & th' & Hne & Hth' & Hpg). split; [by exists i', th'|]. intros Hpg'. apply Hne. by eapply Ih.
      - intros [(i' & th' & Hth' & Hpg) Hng]. exists i', th'. split; [|done]. intros ->.
        unfold thread_at in *. congruence. }
    assert (pc_gate (th_pc th) = Some g -> g ∈ st_busy s) as Hown by (intros Hpg; apply Ib; by exists i, th).
    destruct Hg as [[-> ->]|[(g' & -> & -> & Hnin & ->)|(g' & -> & -> & ->)]].
    + destruct (decide (pc_gate (th_pc th) = Some g)); naive_solver.
    + rewrite elem_of_union, elem_of_singleton. naive_solver.
    + rewrite elem_of_difference, elem_of_singleton. naive_solver.
  - intros t tp x Htp Hin. destruct (Hact t tp x Htp Hin) as [(q & -> & Hp)|(Hnot & tp0 & Htp0 & Hin0)].
    + exists i, (stepped th p), q. split; [apply Hat; by left|done].
    + destruct (Ia t tp0 x Htp0 Hin0) as (i' & th' & q & Hth' & Ht & Hpc).
      exists i', th', q. split; [|done]. apply Hat. right. split; [|done]. intros ->.
      unfold thread_at in *. assert (th' = th) as -> by congruence. by apply (Hnot q).
  - intros x tr Htr. change (st_transfers (goes i th p s1)) with (st_transfers s1) in Htr.
    assert (pc_transfer p = Some x \/ exists i' th', i' ≠ i /\ thread_at s i' th' /\ pc_transfer (th_pc th') = Some x)
      as [Hp|(i' & th' & Hne & Hth' & Hp)].
    { assert (pc_transfer (th_pc th) ≠ Some x -> is_Some (st_transfers s !! x) ->
        exists i' th', i' ≠ i /\ thread_at s i' th' /\ pc_transfer (th_pc th') = Some x) as Hother.
      { intros Hnp [tr0 Htr0]. destruct (Ix x tr0 Htr0) as (i' & th' & Hth' & Hp'). exists i', th'.
        split; [|done]. intros ->. unfold thread_at in *. congruence. }
      destruct Hx as [[He Hl]|(He & He' & tr0 & Hl)].
      - destruct (decide (pc_transfer (th_pc th) = Some x)) as [Hp|Hnp]; [left; congruence|].
        right. apply Hother; [done|by eapply Hl].
      - rewrite Hl in Htr. destruct (decide (x = length (st_transfers s))) as [->|Hlen]; [by left|].
        right. apply Hother; [by rewrite He|].
        apply lookup_lt_Some in Htr. rewrite length_app in Htr. cbn in Htr. apply lookup_lt_is_Some. lia. }
    + exists i, (stepped th p). split; [apply Hat; by left|done].
    + exists i', th'. split; [apply Hat; by right|done].
  - by eapply ops_inv.
  - by eapply ops_inv.
Qed.

(** *** Steps that move only the thread, the gates and the operations *)

Lemma plain_step s s1 i th tp p :
  inv s -> thread_at s i th -> st_transports s !! th_transport th = Some tp ->
  st_threads s1 = st_threads s -> st_transports s1 = st_transports s -> st_transfers s1 = st_transfers s ->
  ops_move s s1 ->
  gates_move (th_pc th) p (st_busy s) (st_busy s1) ->
  pc_transfer p = pc_transfer (th_pc th) -> (forall q x, th_pc th ≠ in_transfer q x) ->
  pc_ok s (stepped th p) tp ->
  inv (goes i th p s1).
Proof.
  intros Hi Hth Htp Hthreads Htransports Htransfers Hops Hg Hx Hnot Hpc.
  assert (forall th', unnoticed s s1 th') as Hun.
  { intros th'. split.
    - rewrite Htransports. intros tp' Htp'. by exists tp'.
    - apply Hops.
    - intros x tr _ Htr. rewrite Htransfers. exists tr. by split; [|split]. }
  apply inv_goes with (s := s); try done.
  - assert (thread_ok s th) as Hok by (by eapply i_threads).
    apply (thread_ok_unnoticed s); [apply Hun|]. destruct Hok as [_ Ho Hsz]. split; [by exists tp|done|done].
  - left. split; [done|]. rewrite Htransfers. by eexists.
  - rewrite Htransports. intros t tp' x Htp' Hin. right. split; [by intros q|]. by exists tp'.
Qed.

(** What the thread [th] at [i] knows of its place. *)
Lemma thread_here s i th :
  inv s -> thread_at s i th -> exists tp op,
    st_transports s !! th_transport th = Some tp /\ st_operations s !! th_operation th = Some op /\
    pc_ok s th tp.
Proof.
  intros Hi Hth. destruct (i_threads s Hi i th Hth) as [(tp & ? & ?) (op & ? & _) _]. by exists tp, op.
Qed.

(** A step that cannot be undefined and keeps the invariant. *)
Definition steps_well (v : verdict) : Prop :=
  match v with blocked => True | undefined => False | moved s => inv s end.

Section thread.
  Context (s : State) (i : nat) (th : Thread) (tp : Transport) (op : Operation nat).
  Hypothesis Hi : inv s.
  Hypothesis Hth : thread_at s i th.
  Hypothesis Htp : st_transports s !! th_transport th = Some tp.
  Hypothesis Hop : st_operations s !! th_operation th = Some op.
  Hypothesis Hpc : pc_ok s th tp.

Lemma completed_negative : completed op = true -> op_result op < VI_SUCCESS.
Proof. by eapply i_operation. Qed.

(** The plain steps: [s] itself, [s] disconnected, [s] with a timeout. *)
Lemma plain_here s1 p :
  s1 = s \/ s1 = mark_disconnected s \/ s1 = time_out (th_operation th) op s ->
  pc_gate p = pc_gate (th_pc th) -> pc_transfer p = pc_transfer (th_pc th) ->
  (forall q x, th_pc th ≠ in_transfer q x) -> pc_ok s (stepped th p) tp ->
  inv (goes i th p s1).
Proof.
  intros Hs1 Hg Hx Hnot Hp.
  assert (st_threads s1 = st_threads s /\ st_transports s1 = st_transports s /\
    st_transfers s1 = st_transfers s /\ st_busy s1 = st_busy s /\ ops_move s s1) as (E1 & E2 & E3 & E4 & E5).
  { destruct Hs1 as [->|[->| ->]]; [by repeat (split; [done|]); apply ops_same..|].
    destruct (time_out_frame (th_operation th) op s) as (H1 & H2 & H3 & H4 & H5 & H6).
    repeat (split; [done|]). by apply (ops_complete s _ (th_operation th) op VI_ERROR_TMO). }
  eapply plain_step; eauto. left. split; [done|by rewrite E4].
Qed.

Lemma entering_ok :
  th_pc th = entering ->
  inv (goes i th match begin_call (tp_info tp) (th_call th) with
                 | inl status => returned None (failure status) | inr j => acquiring j end s).
Proof.
  intros E. destruct (begin_call _ _) as [status|j] eqn:Hb; apply plain_here; auto; try (rewrite E; done).
  unfold pc_ok. cbn. exists status. split; [done|]. left.
  unfold begin_call, bulk_out, bulk_in, control_in, control_out, interrupt_in, interrupt_out, clear_halt in Hb.
  repeat case_match; by simplify_eq.
Qed.

Lemma gate_acquire_ok j : th_pc th = acquiring j -> inv (acquire_step i th op j s).
Proof.
  intros E. unfold pc_ok in Hpc. rewrite E in Hpc. unfold acquire_step. destruct (completed op) eqn:Hc.
  { apply plain_here; auto; try (by rewrite E). unfold pc_ok. cbn. eexists. split; [done|]. left.
    by apply completed_negative. }
  case_bool_decide as Hb.
  - apply plain_here; auto; by rewrite E.
  - eapply plain_step; eauto; try (by rewrite E); [by apply ops_same|]. right; left. exists (job_gate j).
    by rewrite E.
Qed.

Lemma wait_ok j timeout : th_pc th = waiting j -> steps_well (wait_step i th op j timeout s).
Proof.
  intros E. unfold pc_ok in Hpc. rewrite E in Hpc. unfold wait_step. destruct timeout.
  - destruct (deadline_ op) as [d|]; [|done]. destruct (d <=? st_clock s); [|done].
    apply plain_here; auto; try (by rewrite E). unfold pc_ok. cbn. eexists. split; [done|]. left.
    by eapply timed_out_negative.
  - apply plain_here; auto; by rewrite E.
Qed.

Lemma hold_ok j : th_pc th = holding j -> inv (hold_step i th tp op j s).
Proof.
  intros E. unfold pc_ok in Hpc. rewrite E in Hpc. unfold hold_step.
  assert (forall s1 g status, s1 = s \/ s1 = mark_disconnected s \/ s1 = time_out (th_operation th) op s ->
    g = job_gate j -> status < VI_SUCCESS -> inv (goes i th (releasing g None (failure status)) s1)) as Hfail.
  { intros s1 g status Hs1 -> Hs. apply plain_here; auto; try (by rewrite E).
    unfold pc_ok. cbn. eexists. split; [done|]. by left. }
  destruct j as [p|g e].
  - destruct (completed op) eqn:Hc; [apply Hfail; auto; by apply completed_negative|].
    destruct (remaining_timeout op (st_clock s)) as [t|].
    + apply plain_here; auto; by rewrite E.
    + apply Hfail; auto. by eapply timed_out_negative.
  - destruct (_ || _); [by apply Hfail; auto|]. apply plain_here; auto; by rewrite E.
Qed.

Lemma clear_ok g e result : th_pc th = clearing g e -> inv (clear_step i th g result s).
Proof.
  intros E. unfold pc_ok in Hpc. rewrite E in Hpc. unfold clear_step.
  apply plain_here; try (by rewrite E); [destruct (result =? -4); auto|].
  unfold pc_ok. cbn. eexists. split; [done|]. destruct (Z.eq_dec result 0) as [->|Hne].
  - right. split; [done|]. exists e.
    unfold begin_call, bulk_out, bulk_in, control_in, control_out, interrupt_in, interrupt_out, clear_halt in Hpc.
    by repeat case_match; simplify_eq.
  - left. by apply map_error_negative.
Qed.

Lemma settle_ok p x : th_pc th = settling p x -> inv (settle_step i th op p x s).
Proof.
  intros E. unfold pc_ok in Hpc. rewrite E in Hpc. cbn in Hpc. unfold settle_step.
  destruct (completed op) eqn:Hc; apply plain_here; auto; try (by rewrite E).
  unfold pc_ok. cbn. destruct Hpc as (Hb & Ha & tr & Htr & Hp & Hw & He). split; [done|]. split; [done|].
  exists tr. split; [done|]. split; [done|]. split; [done|]. split; [by right|].
  split; [|left; by apply completed_negative]. destruct He as (_ & r & _ & Hr & _). lia.
Qed.

Lemma switch_ok p x tr :
  th_pc th = switching p x -> st_transfers s !! x = Some tr -> steps_well (switch_step i th tp op p x tr s).
Proof.
  intros E Htr. unfold pc_ok in Hpc. rewrite E in Hpc. cbn in Hpc. unfold switch_step.
  destruct Hpc as (Hb & Ha & tr' & Htr' & Hp & Hw & He). rewrite Htr in Htr'. injection Htr' as <-.
  pose proof He as (Hs & [[status actual] data] & Hr & Hok). rewrite Hr.
  destruct Hok as [Hact Hsize]. cbn in Hact, Hsize.
  set (n := if 0 <? actual then actual else 0).
  assert (n = actual) as -> by (unfold n; destruct (Z.ltb_spec 0 actual); lia).
  assert (forall s1 st, s1 = s \/ s1 = mark_disconnected s \/ s1 = time_out (th_operation th) op s ->
    (st < VI_SUCCESS \/ st = VI_SUCCESS /\ status = transfer_completed) ->
    inv (goes i th (freeing p x st actual) s1)) as Hgo.
  { intros s1 st Hs1 Hst. apply plain_here; try (by rewrite E); [done|].
    unfold pc_ok. cbn. split; [done|]. split; [done|]. exists tr. split; [done|]. split; [done|].
    split; [done|]. split; [by right|]. split; [done|]. rewrite Hr. destruct Hst as [?|[? ->]]; [by left|].
    right. split; [done|]. by exists data. }
  unfold steps_well. destruct status; apply Hgo; auto.
  1,4,5,6: by left.
  - left. by eapply timed_out_negative.
  - left. by destruct (tp_closed tp).
Qed.

(** *** Steps that touch the transfer of the thread *)

(** What other threads see when a thread changes its own transfer, and its place
    among the active ones. *)
Lemma unnoticed_own x tr1 tp1 i' th' s1 :
  (forall tr, st_transfers s !! x = Some tr -> pc_transfer (th_pc th) = Some x) ->
  tp_info tp1 = tp_info tp -> (forall y, y ≠ x -> y ∈ tp_active tp1 <-> y ∈ tp_active tp) ->
  st_transports s1 = <[th_transport th := tp1]> (st_transports s) ->
  st_operations s1 = st_operations s ->
  st_transfers s1 = <[x := tr1]> (st_transfers s) ->
  is_Some (st_transfers s !! x) ->
  i' ≠ i -> thread_at s i' th' -> unnoticed s s1 th'.
Proof.
  intros Hown Hinfo Hact Et Eo Ex [tr Htr] Hne Hth'. pose proof (Hown tr Htr) as Hx.
  assert (forall y, pc_transfer (th_pc th') = Some y -> y ≠ x) as Hother.
  { intros y Hy ->. apply Hne. by eapply i_owner. }
  split.
  - intros tp' Htp'. rewrite Et. destruct (decide (th_transport th' = th_transport th)) as [Heq|Hn].
    + rewrite Heq in *. rewrite list_lookup_insert_eq by (apply lookup_lt_is_Some; by eexists).
      exists tp1. assert (tp' = tp) as -> by congruence. split; [done|]. split; [done|].
      intros y Hy. by apply Hact, Hother.
    + rewrite list_lookup_insert_ne by done. by exists tp'.
  - rewrite Eo. intros op' Hop'. exists op'. by split; [|intros ?].
  - intros y tr' Hy Htr'. rewrite Ex, list_lookup_insert_ne by (symmetry; by apply Hother). exists tr'.
    by split; [|split].
Qed.

Lemma lookup_own {A} (l : list A) k y : is_Some (l !! k) -> <[k := y]> l !! k = Some y.
Proof. intros ?%lookup_lt_is_Some. by apply list_lookup_insert_eq. Qed.

(** A step of the thread [th] from its transfer [tr] to [tr1], and from its
    transport [tp] to [tp1]. *)
Lemma own_step x tr tr1 tp1 s1 p :
  pc_transfer (th_pc th) = Some x -> st_transfers s !! x = Some tr ->
  tp_info tp1 = tp_info tp -> (forall y, y ≠ x -> y ∈ tp_active tp1 <-> y ∈ tp_active tp) ->
  (x ∈ tp_active tp1 -> exists q, p = in_transfer q x) ->
  st_threads s1 = st_threads s -> st_todo s1 = st_todo s ->
  st_transports s1 = <[th_transport th := tp1]> (st_transports s) ->
  st_operations s1 = st_operations s ->
  st_transfers s1 = <[x := tr1]> (st_transfers s) ->
  pc_transfer p = Some x -> gates_move (th_pc th) p (st_busy s) (st_busy s1) ->
  pc_ok s1 (stepped th p) tp1 ->
  inv (goes i th p s1).
Proof.
  intros Hx Htr Hinfo Hact Hin Es Ed Et Eo Ex Hp Hg Hok.
  assert (is_Some (st_transports s !! th_transport th)) as Htps by (by eexists).
  apply inv_goes with (s := s); try done.
  - intros i' th' Hne Hth'. eapply unnoticed_own; eauto.
  - split.
    + exists tp1. split; [|done]. cbn. rewrite Et. by apply lookup_own.
    + destruct (i_threads s Hi i th Hth) as [_ (op' & Hop' & Hh) _]. exists op'. cbn. by rewrite Eo.
    + by apply (i_threads s Hi i th Hth).
  - left. split; [congruence|]. rewrite Ex. intros y tr' [(-> & _)|[_ ?]]%list_lookup_insert_Some; by eexists.
  - intros t tp' y. rewrite Et. intros [(<- & <- & _)|[Hne Htp']]%list_lookup_insert_Some Hy.
    + destruct (decide (y = x)) as [->|Hny]; [left; destruct (Hin Hy) as [q ->]; by exists q|].
      right. split; [intros q Hq; rewrite Hq in Hx; cbn in Hx; congruence|]. exists tp. split; [done|]. by apply Hact.
    + right. split; [|by exists tp']. intros q Hq. rewrite Hq in Hx. cbn in Hx. injection Hx as ->.
      destruct (i_active s Hi t tp' x Htp' Hy) as (i' & th' & q' & Hth' & Ht & Hpc').
      assert (i' = i) as -> by (eapply i_owner; [done|done|done|by rewrite Hpc'|by rewrite Hq]).
      unfold thread_at in *. apply Hne. congruence.
  - apply ops_same; [done|]. intros o. by rewrite Ed.
Qed.

Lemma begins_length info c p : sizes_ok c -> begins info c p -> 0 <= pl_length p.
Proof.
  unfold begins, begin_call, bulk_out, bulk_in, control_in, control_out, interrupt_in, interrupt_out, clear_halt,
    size_of.
  intros Hs Hb. repeat case_match; simplify_eq/=; lia.
Qed.

Lemma insert_same {A} (l : list A) k y : l !! k = Some y -> <[k := y]> l = l.
Proof. apply list_insert_id. Qed.

Lemma prepare_ok p timeout allocated_ :
  th_pc th = preparing p timeout -> inv (prepare_step i th p timeout allocated_ s).
Proof.
  intros E. unfold pc_ok in Hpc. rewrite E in Hpc. cbn in Hpc. unfold prepare_step. destruct allocated_.
  2: { apply plain_here; auto; try (by rewrite E). unfold pc_ok. cbn. eexists. split; [done|]. by left. }
  set (n := length (st_transfers s)). set (tr1 := mkTransfer _ _ _ _ _ _ _).
  assert (forall x tr, st_transfers s !! x = Some tr -> (st_transfers s ++ [tr1]) !! x = Some tr) as Hkeep.
  { intros x tr Htr. by apply lookup_app_l_Some. }
  assert (forall t tp' x, st_transports s !! t = Some tp' -> x ∈ tp_active tp' -> x ≠ n) as Hold.
  { intros t tp' x Htp' Hx ->. destruct (i_active s Hi t tp' n Htp' Hx) as (i' & th' & q & Hth' & _ & Hpc').
    destruct (thread_here s i' th' Hi Hth') as (tp2 & _ & _ & _ & Hok). unfold pc_ok in Hok.
    rewrite Hpc' in Hok. destruct Hok as (_ & _ & tr & Htr & _). apply lookup_lt_Some in Htr. unfold n in Htr. lia. }
  apply inv_goes with (s := s); try done.
  - intros i' th' _ Hth'. split.
    + intros tp' Htp'. by exists tp'.
    + intros op' Hop'. exists op'. by split; [|intros ?].
    + intros x tr _ Htr. exists tr. split; [by apply Hkeep|done].
  - split.
    + exists tp. split; [done|]. unfold pc_ok. cbn. split; [done|]. split; [intros Hx; by apply (Hold _ tp n Htp Hx)|].
      exists tr1. split; [by apply list_lookup_middle|done].
    + apply (i_threads s Hi i th Hth).
    + by apply (i_threads s Hi i th Hth).
  - left. by rewrite E.
  - right. rewrite E. split; [done|]. split; [done|]. by exists tr1.
  - intros t tp' x Htp' Hx. right. split; [by rewrite E|]. by exists tp'.
  - by apply ops_same.
Qed.

Lemma submit_ok p x tr result :
  th_pc th = submitting p x -> st_transfers s !! x = Some tr -> steps_well (submit_step i th tp op p x tr result s).
Proof.
  intros E Htr. unfold pc_ok in Hpc. rewrite E in Hpc. cbn in Hpc. unfold submit_step.
  destruct Hpc as (Hb & Ha & tr' & Htr' & Hp & Hw & Hst & Hre). rewrite Htr in Htr'. injection Htr' as <-.
  assert (0 <= pl_length p) as Hlen.
  { eapply begins_length; [by apply (i_threads s Hi i th Hth)|done]. }
  assert (forall s1 st, s1 = s \/ s1 = mark_disconnected s -> st < VI_SUCCESS ->
    inv (goes i th (freeing p x st 0) s1)) as Hfail.
  { intros s1 st Hs1 Hneg. apply plain_here; try (by rewrite E); [tauto|].
    unfold pc_ok. cbn. split; [done|]. split; [done|]. exists tr. split; [done|]. split; [done|].
    split; [done|]. split; [by left|]. split; [lia|by left]. }
  destruct (_ || _); [by apply Hfail; auto|].
  destruct (completed op) eqn:Hc; [apply Hfail; auto; by apply completed_negative|].
  rewrite bool_decide_true by done. cbn. destruct (result <? 0) eqn:Hneg.
  { apply Hfail; [destruct (result =? -4); auto|]. apply map_error_negative. lia. }
  set (s1 := set_transport _ _ _).
  apply own_step with (x := x) (tr := tr) (tr1 := with_state in_flight tr)
    (tp1 := with_active ({[x]} ∪ tp_active tp) tp); try done.
  - by rewrite E.
  - intros y Hy. cbn. set_solver.
  - by exists p.
  - left. by rewrite E.
  - unfold pc_ok. cbn. split; [done|]. split; [set_solver|]. exists (with_state in_flight tr).
    split; [by apply lookup_own; eexists|]. split; [done|]. split; [done|]. by left.
Qed.

Lemma completion_ok p x tr :
  th_pc th = in_transfer p x -> st_transfers s !! x = Some tr -> steps_well (completion_step i th tp p x tr s).
Proof.
  intros E Htr. unfold pc_ok in Hpc. rewrite E in Hpc. cbn in Hpc. unfold completion_step.
  destruct Hpc as (Hb & Ha & tr' & Htr' & Hp & Hw & Hst). rewrite Htr in Htr'. injection Htr' as <-.
  destruct (tr_report tr) as [r|] eqn:Hr; [|done].
  destruct Hst as [[_ ?]|Hst]; [congruence|].
  apply own_step with (x := x) (tr := tr) (tr1 := tr) (tp1 := with_active (tp_active tp ∖ {[x]}) tp); try done.
  - by rewrite E.
  - intros y Hy. cbn. set_solver.
  - cbn. set_solver.
  - cbn. by rewrite insert_same.
  - left. by rewrite E.
  - unfold pc_ok. cbn. split; [done|]. split; [set_solver|]. by exists tr.
Qed.

(** What the call returns is what [outcome_ok] says. *)
Lemma call_result_ok tr status transferred :
  tr_plan tr = tr_plan tr -> fresh_ok tr \/ ended_ok (tr_plan tr) tr ->
  answer_ok (tr_plan tr) (tr_report tr) status transferred ->
  outcome_ok (tr_plan tr) (tr_report tr) (call_result tr status transferred).
Proof.
  intros _ Hst [Hrange Hans]. unfold call_result. destruct Hans as [Hneg|[-> [data Hr]]].
  - left. destruct (pl_input _); [|done]. rewrite (proj2 (Z.ltb_lt _ _)) by done. done.
  - right. exists transferred, data. split; [done|].
    destruct Hst as [[_ ?]|(_ & r & Hr' & Hok)]; [congruence|]. rewrite Hr in Hr'. injection Hr' as <-.
    split; [done|]. destruct Hok as [_ Hsize]. cbn in Hsize. unfold buffer_after. rewrite Hr.
    destruct (pl_input _); cbn.
    + f_equal. rewrite take_app_le; [apply take_ge|]; unfold size_of in Hsize; lia.
    + f_equal. destruct data; [done|]. unfold size_of in Hsize. cbn in Hsize. lia.
Qed.

Lemma free_ok p x tr status transferred :
  th_pc th = freeing p x status transferred -> st_transfers s !! x = Some tr ->
  steps_well (free_step i th x tr status transferred s).
Proof.
  intros E Htr. unfold pc_ok in Hpc. rewrite E in Hpc. cbn in Hpc. unfold free_step.
  destruct Hpc as (Hb & Ha & tr' & Htr' & Hp & Hw & Hst & Hans). rewrite Htr in Htr'. injection Htr' as <-.
  assert (inv (goes i th (releasing (pl_gate (tr_plan tr)) (Some x) (call_result tr status transferred))
    (set_transfer x (with_state freed tr) s))) as Hinv.
  { apply own_step with (x := x) (tr := tr) (tr1 := with_state freed tr) (tp1 := tp); try done.
    - by rewrite E.
    - cbn. by rewrite insert_same.
    - left. rewrite E. cbn. by rewrite Hp.
    - unfold pc_ok. cbn. exists p. split; [by rewrite Hp|]. split; [done|]. split; [done|].
      exists (with_state freed tr). split; [by apply lookup_own; eexists|]. split; [done|]. split; [done|].
      cbn. subst p. by apply call_result_ok. }
  destruct Hst as [[-> _]|[-> _]]; exact Hinv.
Qed.

Lemma release_ok g transfer r :
  th_pc th = releasing g transfer r -> inv (release_step i th g transfer r s).
Proof.
  intros E. unfold pc_ok in Hpc. rewrite E in Hpc. cbn in Hpc. unfold release_step.
  destruct transfer as [x|].
  - destruct Hpc as (p & Hg & Hb & Ha & tr & Htr & Hp & Hst & Hout). rewrite Htr.
    apply own_step with (x := x) (tr := tr) (tr1 := end_wait tr) (tp1 := tp); try done.
    + by rewrite E.
    + cbn. by rewrite insert_same.
    + right; right. exists g. by rewrite E.
    + unfold pc_ok. cbn. exists p. split; [done|]. split; [done|].
      exists (end_wait tr). split; [by apply lookup_own; eexists|]. done.
  - eapply plain_step; eauto; try (by rewrite E); [by apply ops_same|].
    right; right. exists g. by rewrite E.
Qed.

End thread.

Lemma transport_thread_ok s i a : inv s -> steps_well (thread_step i a s).
Proof.
  intros Hi. unfold thread_step. destruct (st_threads s !! i) as [th|] eqn:Hth; [|done].
  destruct (thread_here s i th Hi Hth) as (tp & op & Htp & Hop & Hpc). rewrite Htp, Hop.
  assert (forall x (f : Transfer -> verdict),
    (forall tr, st_transfers s !! x = Some tr -> steps_well (f tr)) -> steps_well (on_transfer x s f)) as Hon.
  { intros x f Hf. unfold on_transfer. destruct (st_transfers s !! x) as [tr|]; [by apply Hf|done]. }
  destruct (th_pc th) as [|j|j|j|g e|p t|p x|p x|p x|p x|p x status n|g x r|x r] eqn:E;
    try (apply Hon; intros tr Htr).
  - by apply (entering_ok s i th tp op).
  - by apply (gate_acquire_ok s i th tp op).
  - by apply (wait_ok s i th tp op).
  - by apply (hold_ok s i th tp op).
  - by apply (clear_ok s i th tp op Hi Hth Htp Hop Hpc g e).
  - by apply (prepare_ok s i th tp op Hi Hth Htp Hop Hpc p t).
  - by apply (submit_ok s i th tp op).
  - by apply (completion_ok s i th tp op).
  - by apply (settle_ok s i th tp op).
  - by apply (switch_ok s i th tp op).
  - by apply (free_ok s i th tp Hi Hth Htp Hpc p).
  - by apply (release_ok s i th tp).
  - done.
Qed.

(** ** The steps of the others *)

Lemma inv_env s s1 :
  inv s -> st_threads s1 = st_threads s -> st_busy s1 = st_busy s ->
  (forall i th, thread_at s i th -> thread_ok s1 th) ->
  (forall t tp x, st_transports s1 !! t = Some tp -> x ∈ tp_active tp ->
     exists tp0, st_transports s !! t = Some tp0 /\ x ∈ tp_active tp0) ->
  (forall x tr, st_transfers s1 !! x = Some tr -> is_Some (st_transfers s !! x)) ->
  ops_move s s1 ->
  inv s1.
Proof.
  intros Hi. pose proof Hi as [It Io Ih Ib Ia Ix _ _]. intros Et Eb Hok Hact Hx Hop.
  assert (forall i th, thread_at s1 i th <-> thread_at s i th) as Hat by (intros; unfold thread_at; by rewrite Et).
  split.
  - intros i th Hth%Hat. eauto.
  - intros i i' th th' x H1%Hat H2%Hat. by eapply Io.
  - intros i i' th th' g H1%Hat H2%Hat. by eapply Ih.
  - intros g. rewrite Eb, Ib. split; intros (i & th & Hth & Hg); exists i, th; (split; [by apply Hat|done]).
  - intros t tp x Htp Hin. destruct (Hact t tp x Htp Hin) as (tp0 & Htp0 & Hin0).
    destruct (Ia t tp0 x Htp0 Hin0) as (i & th & p & Hth & ?). exists i, th, p. split; [by apply Hat|done].
  - intros x tr Htr. destruct (Hx x tr Htr) as [tr0 Htr0]. destruct (Ix x tr0 Htr0) as (i & th & Hth & Hp).
    exists i, th. split; [by apply Hat|done].
  - by eapply ops_inv.
  - by eapply ops_inv.
Qed.

(** A change that no thread notices. *)
Lemma inv_unnoticed s s1 :
  inv s -> st_threads s1 = st_threads s -> st_busy s1 = st_busy s ->
  (forall t tp, st_transports s !! t = Some tp -> exists tp', st_transports s1 !! t = Some tp' /\
     tp_info tp' = tp_info tp /\ tp_active tp' = tp_active tp) ->
  (forall t tp, st_transports s1 !! t = Some tp -> tp_active tp = ∅ \/
     exists tp0, st_transports s !! t = Some tp0 /\ tp_active tp0 = tp_active tp) ->
  ops_move s s1 ->
  (forall x tr, st_transfers s !! x = Some tr -> exists tr', st_transfers s1 !! x = Some tr' /\ similar tr tr') ->
  (forall x tr, st_transfers s1 !! x = Some tr -> is_Some (st_transfers s !! x)) ->
  inv s1.
Proof.
  intros Hi Et Eb Htp Hact Hops Hx Hx'. apply (inv_env s); try done.
  - intros i th Hth. apply (thread_ok_unnoticed s); [|by eapply i_threads]. split.
    + intros tp H. destruct (Htp _ tp H) as (tp' & ? & ? & Ha). exists tp'. split; [done|]. split; [done|].
      intros x _. by rewrite Ha.
    + apply Hops.
    + intros x tr _. apply Hx.
  - intros t tp x Ht Hin. destruct (Hact t tp Ht) as [He|(tp0 & ? & He)]; [rewrite He in Hin; set_solver|].
    exists tp0. by rewrite He.
Qed.

(** *** Cancelling *)

Definition cancel_if (b : bool) (tr : Transfer) : Transfer :=
  if b && bool_decide (tr_state tr = in_flight) then set_cancelled tr else tr.

Lemma cancel_if_similar b tr : similar tr (cancel_if b tr).
Proof. unfold cancel_if. by destruct (_ && _). Qed.

Lemma foldr_cancel xs s :
  NoDup xs ->
  (forall x, x ∈ xs -> exists tr, st_transfers s !! x = Some tr /\ tr_state tr ≠ freed) ->
  exists l, foldr cancel_transfer (moved s) xs = moved (with_transfers l s) /\
    forall y, l !! y = cancel_if (bool_decide (y ∈ xs)) <$> st_transfers s !! y.
Proof.
  induction xs as [|x xs IH]; intros Hnd Hxs; cbn.
  { exists (st_transfers s). split; [by destruct s|]. intros y. destruct (st_transfers s !! y); [|done].
    by rewrite bool_decide_false by apply not_elem_of_nil. }
  apply NoDup_cons in Hnd as [Hx Hnd].
  destruct IH as (l & -> & Hl); [done|intros y Hy; apply Hxs; by right|].
  destruct (Hxs x) as (tr & Htr & Hst); [by left|]. cbn. unfold on_transfer. cbn.
  rewrite Hl, Htr, bool_decide_false by done. cbn.
  assert (forall y, y ≠ x -> bool_decide (y ∈ x :: xs) = bool_decide (y ∈ xs)) as Hother.
  { intros y Hy. apply bool_decide_ext. rewrite elem_of_cons. naive_solver. }
  destruct (tr_state tr) eqn:E; try done.
  1,3: exists l; split; [done|]; intros y; rewrite Hl; destruct (decide (y = x)) as [->|Hy];
    [|by rewrite Hother]; rewrite Htr; cbn; unfold cancel_if; by rewrite E, !andb_false_r.
  exists (<[x := set_cancelled tr]> l). split; [done|]. intros y. destruct (decide (y = x)) as [->|Hy].
  - rewrite list_lookup_insert_eq by (apply lookup_lt_is_Some; rewrite Hl, Htr; by eexists).
    rewrite Htr, bool_decide_true by (by left). cbn. unfold cancel_if. by rewrite E.
  - by rewrite list_lookup_insert_ne, Hl, Hother by done.
Qed.

Lemma cancel_spec s t tp :
  inv s -> st_transports s !! t = Some tp ->
  exists l, cancel t s = moved (with_transfers l s) /\
    forall y, l !! y = cancel_if (bool_decide (y ∈ tp_active tp)) <$> st_transfers s !! y.
Proof.
  intros Hi Htp. unfold cancel. rewrite Htp.
  destruct (foldr_cancel (elements (tp_active tp)) s) as (l & Hl & Hy).
  - apply NoDup_elements.
  - intros x Hx%elem_of_elements. destruct (i_active s Hi t tp x Htp Hx) as (i & th & p & Hth & Ht & Hpc).
    destruct (thread_here s i th Hi Hth) as (tp' & _ & _ & _ & Hok). unfold pc_ok in Hok. rewrite Hpc in Hok.
    destruct Hok as (_ & _ & tr & Htr & _ & _ & Hst). exists tr. split; [done|].
    destruct Hst as [[-> _]|[-> _]]; done.
  - exists l. split; [done|]. intros y. rewrite Hy. do 2 f_equal. apply bool_decide_ext. apply elem_of_elements.
Qed.

Lemma cancel_ok s t tp : inv s -> st_transports s !! t = Some tp -> steps_well (cancel t s).
Proof.
  intros Hi Htp. destruct (cancel_spec s t tp Hi Htp) as (l & -> & Hl).
  apply (inv_unnoticed s); try done.
  - intros t' tp' H. by exists tp'.
  - intros t' tp' H. right. by exists tp'.
  - by apply ops_same.
  - intros x tr Htr. cbn. rewrite Hl, Htr. eexists. split; [done|]. apply cancel_if_similar.
  - intros x tr. cbn. rewrite Hl. destruct (st_transfers s !! x); [by eexists|done].
Qed.

(** Operations that go on. *)
Lemma inv_operations s s1 :
  inv s -> st_threads s1 = st_threads s -> st_busy s1 = st_busy s -> st_transports s1 = st_transports s ->
  st_transfers s1 = st_transfers s -> ops_move s s1 -> inv s1.
Proof.
  intros Hi Et Eb Etp Ex Ho. apply (inv_unnoticed s); try done; rewrite ?Etp, ?Ex.
  - intros t' tp' H. by exists tp'.
  - intros t' tp' H. right. by exists tp'.
  - intros x tr Htr. by exists tr.
  - intros x tr Htr. by eexists.
Qed.

Lemma inv_todo s l : (forall d, d ∈ l -> d ∈ st_todo s) -> inv s -> inv (with_todo l s).
Proof. intros Hl Hi. apply (inv_operations s); try done. apply ops_same; [done|]. intros o. apply Hl. Qed.

Lemma delete_elem {A} (l : list A) k x : x ∈ delete k l -> x ∈ l.
Proof. intros Hx. eapply elem_of_submseteq; [exact Hx|]. apply sublist_submseteq, sublist_delete. Qed.

Lemma todo_step_ok s k : inv s -> steps_well (todo_step k s).
Proof.
  intros Hi. unfold todo_step. destruct (st_todo s !! k) as [[o|t]|] eqn:Hk; [| |done]; cbn.
  - destruct (st_operations s !! o) as [op|] eqn:Hop; [|done]. cbn.
    assert (completed op = true) as Hc.
    { destruct (i_todo s Hi o) as (op' & ? & ?); [by eapply list_elem_of_lookup_2|congruence]. }
    apply (inv_operations s); try done. split; [|split].
    + intros o' op' Ho'. cbn. destruct (decide (o' = o)) as [->|Hne].
      * rewrite list_lookup_insert_eq by (apply lookup_lt_is_Some; by eexists).
        eexists. split; [done|]. unfold op_forward, completed in *. cbn. congruence.
      * rewrite list_lookup_insert_ne by done. exists op'. by split; [|intros ?].
    + intros o' op'. cbn. intros [(<- & <- & _)|[_ Ho']]%list_lookup_insert_Some Hc'; right; eauto.
    + intros o' Ho'. left. cbn in Ho'. apply elem_of_app in Ho' as [Ho'|Ho']; [by eapply delete_elem|].
      by apply list_elem_of_fmap in Ho' as (t & ? & _).
  - destruct (st_transports s !! t) as [tp|] eqn:Htp.
    + apply (cancel_ok _ t tp); [|done]. apply inv_todo; [|done]. intros d. apply delete_elem.
    + unfold cancel. cbn. by rewrite Htp.
Qed.

Lemma complete_ok s o status : inv s -> status < VI_SUCCESS -> steps_well (complete_operation o status s).
Proof.
  intros Hi Hs. unfold complete_operation. destruct (st_operations s !! o) as [op|] eqn:Hop; [|done].
  destruct (try_complete status op) as [won op'] eqn:E.
  apply (inv_operations s); try done; try (by destruct won).
  apply (ops_complete s _ o op status); try done; rewrite ?E.
  - by destruct won.
  - destruct won; cbn; [|auto]. intros d. by rewrite elem_of_app, list_elem_of_singleton.
Qed.

Lemma close_ok s t : inv s -> steps_well (close_transport t s).
Proof.
  intros Hi. unfold close_transport. destruct (st_transports s !! t) as [tp|] eqn:Htp; [|done].
  apply (inv_unnoticed s); try done; cbn.
  - intros t' tp' Htp'. destruct (decide (t' = t)) as [->|Hne].
    + rewrite lookup_own by (by eexists). eexists. split; [done|]. assert (tp' = tp) as -> by congruence. done.
    + rewrite list_lookup_insert_ne by done. by exists tp'.
  - intros t' tp' [(<- & <- & _)|[_ Htp']]%list_lookup_insert_Some; right; eauto.
  - apply ops_same; [done|]. intros o. cbn. rewrite elem_of_app, list_elem_of_singleton. by intros [?|?].
  - intros x tr Htr. by exists tr.
Qed.

(** The owner of a transfer in flight. *)
Lemma flight_waits s x tr :
  inv s -> st_transfers s !! x = Some tr -> tr_state tr = in_flight ->
  exists i th tp, thread_at s i th /\ th_pc th = in_transfer (tr_plan tr) x /\
    st_transports s !! th_transport th = Some tp /\ x ∈ tp_active tp /\ tr_wait tr = true.
Proof.
  intros Hi Htr Hst. destruct (i_transfer s Hi x tr Htr) as (i & th & Hth & Hx).
  destruct (thread_here s i th Hi Hth) as (tp & op & Htp & Hop & Hpc). unfold pc_ok in Hpc.
  exists i, th, tp. split; [done|].
  destruct (th_pc th) as [|j|j|j|g e|q t|q y|q y|q y|q y|q y st n|g [y|] r|[y|] r]; try done; cbn in Hx;
    injection Hx as ->.
  - destruct Hpc as (_ & _ & tr' & ? & _ & _ & ? & _). congruence.
  - destruct Hpc as (Hb & Ha & tr' & ? & Hp & Hw & _). assert (tr' = tr) as -> by congruence. by subst q.
  - destruct Hpc as (_ & _ & tr' & ? & _ & _ & ? & _). congruence.
  - destruct Hpc as (_ & _ & tr' & ? & _ & _ & ? & _). congruence.
  - destruct Hpc as (_ & _ & tr' & ? & _ & _ & [[? _]|[? _]] & _); congruence.
  - destruct Hpc as (q & _ & _ & _ & tr' & ? & _ & ? & _). congruence.
  - destruct Hpc as (q & _ & _ & tr' & ? & _ & ? & _). congruence.
Qed.

Lemma transfer_complete_ok s x status actual data :
  inv s -> enabled (Ends x status actual data) s -> steps_well (transfer_complete x status actual data s).
Proof.
  intros Hi Hen. unfold transfer_complete, on_transfer. destruct (st_transfers s !! x) as [tr|] eqn:Htr; [|done].
  destruct (tr_state tr) eqn:Hst; try done.
  destruct (flight_waits s x tr Hi Htr Hst) as (i & th & tp & Hth & E & Htp & Ha & Hw).
  rewrite Hw. cbn. set (tr1 := mkTransfer _ _ _ _ _ _ _).
  apply (inv_env s); try done.
  - intros i' th' Hth'. destruct (decide (i' = i)) as [->|Hne].
    + assert (th' = th) as -> by (unfold thread_at in *; congruence).
      destruct (i_threads s Hi i th Hth) as [(tp' & Htp' & Hpc) Ho Hsz]. split; [|done|done].
      exists tp. split; [done|]. assert (tp' = tp) as -> by congruence. unfold pc_ok in Hpc |- *. rewrite E in Hpc |- *.
      destruct Hpc as [Hb _]. split; [done|]. split; [done|]. exists tr1. split; [by apply lookup_own; eexists|].
      split; [done|]. split; [done|]. right. split; [done|]. eexists. split; [done|]. by apply Hen.
    + apply (thread_ok_unnoticed s); [|by eapply i_threads]. split.
      * intros tp' H. by exists tp'.
      * intros op' H. exists op'. by split; [|intros ?].
      * intros y tr' Hy Htr'. cbn. rewrite list_lookup_insert_ne; [exists tr'; by split; [|split]|].
        intros <-. apply Hne. by eapply (i_owner s Hi i' i th' th x); [| | |rewrite E].
  - intros t tp' y H Hin. by exists tp'.
  - intros y tr'. cbn. intros [(<- & _)|[_ ?]]%list_lookup_insert_Some; by eexists.
  - by apply ops_same.
Qed.

Lemma notify_ok s x s' : inv s -> transfer_notify x s = moved s' -> inv s'.
Proof.
  intros Hi. unfold transfer_notify, on_transfer. destruct (st_transfers s !! x) as [tr|] eqn:Htr; [|done].
  destruct (tr_notify tr); [|done]. destruct (tr_wait tr) eqn:Hw; [|done]. intros [= <-].
  apply (inv_unnoticed s); try done.
  - intros t tp H. by exists tp.
  - intros t tp H. right. by exists tp.
  - by apply ops_same.
  - intros y tr' Htr'. cbn. destruct (decide (y = x)) as [->|Hne].
    + rewrite lookup_own by (by eexists). assert (tr' = tr) as -> by congruence. by eexists.
    + rewrite list_lookup_insert_ne by done. exists tr'. by split; [|split].
  - intros y tr'. cbn. intros [(<- & _)|[_ ?]]%list_lookup_insert_Some; by eexists.
Qed.

Lemma call_ok s t o c :
  inv s -> enabled (Call t o c) s -> inv (with_threads (st_threads s ++ [mkThread t o c entering]) s).
Proof.
  intros Hi (Hsz & [tp Htp] & Ho). pose proof Hi as [It Io Ih Ib Ia Ix Iop Itodo].
  set (s1 := with_threads _ s).
  assert (forall i th, thread_at s1 i th <->
    thread_at s i th \/ (i = length (st_threads s) /\ th = mkThread t o c entering)) as Hat.
  { intros i th. unfold thread_at, s1. cbn. rewrite lookup_app_Some. split.
    - intros [?|[Hle Hl]]; [by left|]. right.
      destruct (i - length (st_threads s))%nat eqn:E; [|done]. cbn in Hl. split; [lia|congruence].
    - intros [?|[-> ->]]; [by left|]. right. split; [lia|]. by rewrite Nat.sub_diag. }
  split.
  - intros i th [Hth|[-> ->]]%Hat.
    + apply (thread_ok_unnoticed s); [|by eapply It]. split.
      * intros tp' H. by exists tp'.
      * intros op' H. exists op'. by split; [|intros ?].
      * intros y tr' _ Htr'. exists tr'. by split; [|split].
    + split; [by exists tp|exact Ho|exact Hsz].
  - intros i i' th th' x [H1|[-> ->]]%Hat [H2|[-> ->]]%Hat; try done. by eapply Io.
  - intros i i' th th' g [H1|[-> ->]]%Hat [H2|[-> ->]]%Hat; try done. by eapply Ih.
  - intros g. change (st_busy s1) with (st_busy s). rewrite Ib. split.
    + intros (i & th & Hth & Hg). exists i, th. split; [apply Hat; by left|done].
    + intros (i & th & [Hth|[-> ->]]%Hat & Hg); [by exists i, th|done].
  - intros t' tp' x H Hx. destruct (Ia t' tp' x H Hx) as (i & th & p & Hth & ?). exists i, th, p.
    split; [apply Hat; by left|done].
  - intros x tr Htr. destruct (Ix x tr Htr) as (i & th & Hth & ?). exists i, th. split; [apply Hat; by left|done].
  - done.
  - done.
Qed.

Lemma append_ok s s1 :
  inv s -> st_threads s1 = st_threads s -> st_busy s1 = st_busy s -> st_todo s1 = st_todo s ->
  st_transfers s1 = st_transfers s ->
  (st_transports s1 = st_transports s /\ (exists d t, st_operations s1 = st_operations s ++ [mkOperation kPending d (Some t)]) \/
   st_operations s1 = st_operations s /\ (exists info, st_transports s1 = st_transports s ++ [mkTransport info ∅ false])) ->
  inv s1.
Proof.
  intros Hi Et Eb Ed Ex Hnew. apply (inv_unnoticed s); try done; rewrite ?Ex.
  - intros t tp Htp. exists tp. destruct Hnew as [[-> _]|(_ & info & ->)]; [done|]. by rewrite (lookup_app_l_Some _ _ _ _ Htp).
  - intros t tp Htp. destruct Hnew as [[E _]|(_ & info & E)]; rewrite E in Htp; [right; by exists tp|].
    apply lookup_app_Some in Htp as [?|[_ Htp]]; [right; by exists tp|left].
    destruct (_ - _)%nat in Htp; by simplify_eq/=.
  - destruct Hnew as [(_ & d & t & E)|(E & _)]; [|apply ops_same; [done|]; intros o; by rewrite Ed].
    split; [|split].
    + intros o op Hop. exists op. rewrite E. split; [by apply lookup_app_l_Some|by intros ?].
    + intros o op. rewrite E. intros [?|[_ Hop]]%lookup_app_Some; [right; by exists op|].
      destruct (_ - _)%nat in Hop; by simplify_eq/=.
    + rewrite Ed. by left.
  - intros x tr Htr. by exists tr.
  - intros x tr Htr. by eexists.
Qed.

(** Every step keeps the invariant; only a notification can be undefined. *)
Lemma step_ok e s :
  inv s -> enabled e s -> (exists x, e = Notifies x /\ forall s', step e s = moved s' -> inv s') \/ steps_well (step e s).
Proof.
  intros Hi Hen. destruct e as [info|d t|t o c|i a|k|o status|t| |x status actual data|x|now]; cbn [step].
  10: left; exists x; split; [done|]; intros s' H; by eapply notify_ok.
  all: right.
  - apply (append_ok s); try done. right. split; [done|]. by exists info.
  - apply (append_ok s); try done. left. split; [done|]. by exists d, t.
  - by apply call_ok.
  - by apply transport_thread_ok.
  - by apply todo_step_ok.
  - by apply complete_ok.
  - by apply close_ok.
  - apply (inv_operations s); try done. by apply ops_same.
  - by apply transfer_complete_ok.
  - apply (inv_operations s); try done. by apply ops_same.
Qed.

Lemma reachable_inv s : rtc libusb_step connection s -> inv s.
Proof.
  assert (inv connection) as H0.
  { split; try (intros; by rewrite ?lookup_nil in * ); unfold thread_at; cbn; try done.
    - intros g. split; [set_solver|]. by intros (i & th & ? & _).
    - by intros o ?%not_elem_of_nil. }
  intros Hr. revert H0. induction Hr as [|s s1 s2 (e & Hen & Hs) _ IH]; intros Hi; [done|]. apply IH.
  destruct (step_ok e s Hi Hen) as [(x & -> & H)|H]; [by apply H|]. by rewrite Hs in H.
Qed.

(** ** Cancellations reach the transfers *)

(** A transfer in flight whose transport is closed or whose operation is
    completed is cancelled, or its cancellation is under way. *)
Definition cancel_due (s : State) (th : Thread) (tr : Transfer) (tp : Transport) (op : Operation nat) : Prop :=
  (tp_closed tp = true -> tr_cancelled tr = true \/ cancel_of (th_transport th) ∈ st_todo s) /\
  (completed op = true -> tr_cancelled tr = true \/ cancel_of (th_transport th) ∈ st_todo s \/
     (take_of (th_operation th) ∈ st_todo s /\ cancel_handler_ op = Some (th_transport th))).

Definition cancels (s : State) : Prop :=
  forall i th p x tr tp op, thread_at s i th -> th_pc th = in_transfer p x ->
    st_transfers s !! x = Some tr -> tr_state tr = in_flight ->
    st_transports s !! th_transport th = Some tp -> st_operations s !! th_operation th = Some op ->
    cancel_due s th tr tp op.

(** From [s] to [s1] nothing is forgotten: a transfer in flight was in flight, or
    nothing is due for it. *)
Record carried (s s1 : State) : Prop := mkCarried {
  ca_transfer i th p x tr1 : thread_at s1 i th -> th_pc th = in_transfer p x ->
    st_transfers s1 !! x = Some tr1 -> tr_state tr1 = in_flight ->
    (thread_at s i th /\ exists tr, st_transfers s !! x = Some tr /\ tr_state tr = in_flight /\
       (tr_cancelled tr = true -> tr_cancelled tr1 = true)) \/
    (st_connected s = true /\
     forall tp op, st_transports s1 !! th_transport th = Some tp -> st_operations s1 !! th_operation th = Some op ->
       tp_closed tp = false /\ completed op = false);
  ca_todo d : d ∈ st_todo s -> d ∈ st_todo s1;
  ca_closed t tp1 : st_transports s1 !! t = Some tp1 -> tp_closed tp1 = true ->
    cancel_of t ∈ st_todo s1 \/ forall tp, st_transports s !! t = Some tp -> tp_closed tp = true;
  ca_completed o op1 : st_operations s1 !! o = Some op1 -> completed op1 = true ->
    forall op, st_operations s !! o = Some op -> cancel_handler_ op1 = cancel_handler_ op /\
      (completed op = true \/ take_of o ∈ st_todo s1) }.

Lemma carried_cancels s s1 : inv s -> carried s s1 -> cancels s -> cancels s1.
Proof.
  intros Hi [Hx Hd Hc Ho] Hcan i th p x tr1 tp1 op1 Hth Hpc Htr Hst Htp Hop.
  destruct (Hx i th p x tr1 Hth Hpc Htr Hst) as [(Hth0 & tr & Htr0 & Hst0 & Hmono)|[_ Hnew]].
  2: { destruct (Hnew tp1 op1 Htp Hop) as [Hcl Hco]. split; intros ?; congruence. }
  destruct (i_threads s Hi i th Hth0) as [(tp & Htp0 & _) (op & Hop0 & Hh) _].
  destruct (Hcan i th p x tr tp op Hth0 Hpc Htr0 Hst0 Htp0 Hop0) as [H1 H2]. split.
  - intros Hcl. destruct (Hc _ tp1 Htp Hcl) as [?|Hcl0]; [by right|].
    destruct (H1 (Hcl0 tp Htp0)) as [?|?]; [left; auto|right; auto].
  - intros Hco. destruct (Ho _ op1 Hop Hco op Hop0) as [Heq Hor]. rewrite Heq.
    destruct (completed op) eqn:E.
    + destruct (H2 eq_refl) as [?|[?|[? ?]]]; [left; auto|right; left; auto|right; right; auto].
    + destruct Hor as [?|?]; [done|]. right; right. split; [done|]. by apply Hh.
Qed.

(** A step of a thread that does not submit. *)
Lemma carried_goes s s1 i th p :
  thread_at s i th -> st_threads s1 = st_threads s ->
  (forall q x, p ≠ in_transfer q x) ->
  (forall x tr1, st_transfers s1 !! x = Some tr1 -> tr_state tr1 = in_flight ->
     exists tr, st_transfers s !! x = Some tr /\ tr_state tr = in_flight /\ tr_cancelled tr1 = tr_cancelled tr) ->
  (forall d, d ∈ st_todo s -> d ∈ st_todo s1) ->
  (forall t tp1, st_transports s1 !! t = Some tp1 ->
     exists tp, st_transports s !! t = Some tp /\ tp_closed tp1 = tp_closed tp) ->
  (st_operations s1 = st_operations s \/
   exists op, st_operations s !! th_operation th = Some op /\ s1 = time_out (th_operation th) op s) ->
  carried s (goes i th p s1).
Proof.
  intros Hth Et Hp Hx Hd Hcl Hop. split.
  - intros i' th' q x tr1 Hth' Hpc Htr Hst.
    apply goes_thread in Hth' as [[-> ->]|[Hne Hth']]; [by destruct (Hp q x)| |rewrite Et; by eexists].
    left. split; [unfold thread_at in *; by rewrite <- Et|].
    destruct (Hx x tr1 Htr Hst) as (tr & ? & ? & He). exists tr. split; [done|]. split; [done|]. by rewrite He.
  - apply Hd.
  - intros t tp1 Htp1 Hc. right. intros tp Htp. destruct (Hcl t tp1 Htp1) as (tp' & Htp' & He). congruence.
  - intros o op1 Hop1 Hc op Ho. change (st_operations (goes i th p s1)) with (st_operations s1) in Hop1.
    destruct Hop as [E|(op0 & Hop0 & ->)].
    { rewrite E in Hop1. assert (op1 = op) as -> by congruence. split; [done|]. by left. }
    destruct (time_out_frame (th_operation th) op0 s) as (_ & _ & _ & _ & E & _). rewrite E in Hop1.
    apply list_lookup_insert_Some in Hop1 as [(<- & <- & _)|[Hne Hop1]].
    + assert (op0 = op) as -> by congruence.
      destruct (try_complete_spec op VI_ERROR_TMO) as (_ & Hh & _); [done|]. split; [done|].
      unfold try_complete in *. unfold completed in *. destruct (result_ op =? kPending) eqn:Er; [right|by left].
      unfold goes, time_out, try_complete. rewrite Er. cbn. rewrite elem_of_app, list_elem_of_singleton. by right.
    + assert (op1 = op) as -> by congruence. split; [done|]. by left.
Qed.

(** Its cases: nothing but the gates and the connection, the operation, the
    thread's own transfer. *)
Lemma carried_plain s s1 i th op p :
  thread_at s i th -> st_operations s !! th_operation th = Some op ->
  (exists b g, s1 = s \/ s1 = with_connected b s \/ s1 = with_busy g s \/ s1 = time_out (th_operation th) op s) ->
  (forall q x, p ≠ in_transfer q x) -> carried s (goes i th p s1).
Proof.
  intros Hth Hop (b & g & Hs1) Hp. destruct (time_out_frame (th_operation th) op s) as (E1 & E2 & E3 & _ & _ & _).
  apply carried_goes; try done.
  - by destruct Hs1 as [->|[->|[->| ->]]].
  - intros x tr1 Htr Hst. exists tr1. by destruct Hs1 as [->|[->|[->| ->]]]; cbn in Htr; rewrite ?E3 in Htr.
  - intros d Hd. destruct Hs1 as [->|[->|[->| ->]]]; try done. unfold time_out.
    destruct (try_complete _ _) as [[] ?]; cbn; [apply elem_of_app; by left|done].
  - intros t tp1 Htp. exists tp1. by destruct Hs1 as [->|[->|[->| ->]]]; cbn in Htp; rewrite ?E2 in Htp.
  - destruct Hs1 as [->|[->|[->| ->]]]; [by left..|right; by exists op].
Qed.

Lemma carried_own s i th p x tr tr1 tp tp1 busy :
  thread_at s i th -> st_transfers s !! x = Some tr -> st_transports s !! th_transport th = Some tp ->
  (tr_state tr1 = in_flight -> tr_state tr = in_flight /\ tr_cancelled tr1 = tr_cancelled tr) ->
  tp_closed tp1 = tp_closed tp -> (forall q x, p ≠ in_transfer q x) ->
  carried s (goes i th p (with_busy busy (set_transport (th_transport th) tp1 (set_transfer x tr1 s)))).
Proof.
  intros Hth Htr Htp Hst Hcl Hp. apply carried_goes; try done.
  - intros y tr'. cbn. intros [(<- & <- & _)|[_ ?]]%list_lookup_insert_Some Hf; [exists tr|exists tr']; by split; auto.
  - intros t tp'. cbn. intros [(<- & <- & _)|[_ ?]]%list_lookup_insert_Some; [by exists tp|by exists tp'].
  - by left.
Qed.

Lemma set_transport_id s t tp : st_transports s !! t = Some tp -> set_transport t tp s = s.
Proof. intros H. unfold set_transport, with_transports. rewrite insert_same by done. by destruct s. Qed.

Lemma set_transfer_id s x tr : st_transfers s !! x = Some tr -> set_transfer x tr s = s.
Proof. intros H. unfold set_transfer, with_transfers. rewrite insert_same by done. by destruct s. Qed.

Lemma with_busy_id s : with_busy (st_busy s) s = s.
Proof. by destruct s. Qed.

Lemma thread_step_carried s i a s' : inv s -> thread_step i a s = moved s' -> carried s s'.
Proof.
  intros Hi. unfold thread_step. destruct (st_threads s !! i) as [th|] eqn:Hth; [|done].
  destruct (thread_here s i th Hi Hth) as (tp & op & Htp & Hop & Hpc). rewrite Htp, Hop. unfold pc_ok in Hpc.
  assert (forall p s1, (forall q x, p ≠ in_transfer q x) ->
    (exists b g, s1 = s \/ s1 = with_connected b s \/ s1 = with_busy g s \/ s1 = time_out (th_operation th) op s) ->
    carried s (goes i th p s1)) as Hplain.
  { intros p s1 Hp Hs1. by apply (carried_plain s s1 i th op p). }
  assert (forall s1, (s1 = s \/ s1 = mark_disconnected s \/ s1 = time_out (th_operation th) op s) ->
    exists b g, s1 = s \/ s1 = with_connected b s \/ s1 = with_busy g s \/ s1 = time_out (th_operation th) op s) as Hs.
  { intros s1 Hs1. exists false, ∅. unfold mark_disconnected in Hs1. naive_solver. }
  destruct (th_pc th) as [|j|j|j|g e|p t|p x|p x|p x|p x|p x status n|g x r|x r] eqn:E; try done;
    unfold on_transfer; try (destruct (st_transfers s !! x) as [tr|] eqn:Htr; [|done]).
  - intros [= <-]. destruct (begin_call _ _); apply Hplain; auto.
  - intros [= <-]. unfold acquire_step. destruct (completed op); [apply Hplain; auto|].
    case_bool_decide; apply Hplain; auto. exists false. eexists. auto.
  - unfold wait_step. destruct (an_timeout a); [|intros [= <-]; apply Hplain; auto].
    destruct (deadline_ op) as [d|]; [|done]. destruct (d <=? st_clock s); [|done]. intros [= <-]. apply Hplain; auto.
  - intros [= <-]. unfold hold_step. destruct j as [p|g e].
    + destruct (completed op); [apply Hplain; auto|]. destruct (remaining_timeout _ _); apply Hplain; auto.
    + destruct (_ || _); apply Hplain; auto.
  - intros [= <-]. unfold clear_step. apply Hplain; [done|]. apply Hs. destruct (_ =? _); auto.
  - intros [= <-]. unfold prepare_step. destruct (an_allocated a); [|apply Hplain; auto].
    apply carried_goes; try done; cbn.
    + intros x tr1 [?|[_ Hx]]%lookup_app_Some Hst; [by exists tr1|]. by destruct (_ - _)%nat in Hx; simplify_eq/=.
    + intros t' tp1 ?. by exists tp1.
    + by left.
  - unfold submit_step. destruct (_ || _) eqn:Hor; [intros [= <-]; apply Hplain; auto|].
    destruct (completed op) eqn:Hc; [intros [= <-]; apply Hplain; auto|].
    destruct (negb (bool_decide _)); [done|]. destruct (_ <? 0); intros [= <-]; [apply Hplain; [done|]; apply Hs; destruct (_ =? _); auto|].
    apply orb_false_elim in Hor as [Hcl Hconn%negb_false_iff]. split; cbn.
    + intros i' th' q y tr1 Hth' Hpc' Htr1 Hst. rewrite goes_thread in Hth' by (by eexists).
      destruct Hth' as [[-> ->]|[Hne Hth']].
      * right. split; [done|]. intros tp' op'. cbn. rewrite lookup_own by (by eexists). intros [= <-] ?. split; [done|congruence].
      * left. split; [done|]. rewrite list_lookup_insert_ne in Htr1; [by exists tr1|]. intros <-. apply Hne.
        by eapply (i_owner s Hi i' i th' th x); [| |rewrite Hpc'|rewrite E].
    + done.
    + intros t tp1 [(<- & <- & _)|[_ ?]]%list_lookup_insert_Some Hcl1; right; intros tp' ?; [cbn in Hcl1|]; congruence.
    + intros o op1 Hop1 Hc1 op' Hop'. assert (op1 = op') as -> by congruence. split; [done|by left].
  - unfold completion_step. destruct (tr_report tr); [|done]. intros [= <-].
    rewrite <- (set_transfer_id s x tr Htr) at 2. rewrite <- (with_busy_id (set_transport _ _ _)).
    by eapply carried_own.
  - intros [= <-]. unfold settle_step. destruct (completed op); apply Hplain; auto.
  - unfold switch_step. destruct (tr_report tr) as [[[status actual] ?]|]; [|done]. intros [= <-].
    destruct status; apply Hplain; auto.
  - unfold free_step. assert (carried s (goes i th (releasing (pl_gate (tr_plan tr)) (Some x) (call_result tr status n))
      (set_transfer x (with_state freed tr) s))) as Hc.
    { rewrite <- (set_transport_id (set_transfer x (with_state freed tr) s) _ _ Htp).
      rewrite <- (with_busy_id (set_transport _ _ _)). by eapply carried_own. }
    destruct (tr_state tr); intros [= <-]; exact Hc.
  - intros [= <-]. unfold release_step. destruct x as [x|]; [|apply Hplain; [done|]; exists false; eexists; eauto].
    destruct Hpc as (p & _ & _ & _ & tr & Htr & _). rewrite Htr.
    rewrite <- (set_transport_id (set_transfer x (end_wait tr) s) _ _ Htp). by eapply carried_own.
Qed.

(** The steps of the others, but for the cancellations themselves. *)
Lemma carried_env s s1 :
  (forall i th p x, thread_at s1 i th -> th_pc th = in_transfer p x -> thread_at s i th) ->
  (forall x tr1, st_transfers s1 !! x = Some tr1 -> tr_state tr1 = in_flight ->
     exists tr, st_transfers s !! x = Some tr /\ tr_state tr = in_flight /\ tr_cancelled tr1 = tr_cancelled tr) ->
  (forall d, d ∈ st_todo s -> d ∈ st_todo s1) ->
  (forall t tp1, st_transports s1 !! t = Some tp1 -> tp_closed tp1 = true ->
    cancel_of t ∈ st_todo s1 \/ forall tp, st_transports s !! t = Some tp -> tp_closed tp = true) ->
  (forall o op1, st_operations s1 !! o = Some op1 -> completed op1 = true ->
    forall op, st_operations s !! o = Some op -> cancel_handler_ op1 = cancel_handler_ op /\
      (completed op = true \/ take_of o ∈ st_todo s1)) ->
  carried s s1.
Proof.
  intros Ht Hx Hd Hc Ho. split; [|done|done|done]. intros i th p x tr1 Hth Hpc Htr Hst. left.
  split; [by eapply Ht|]. destruct (Hx x tr1 Htr Hst) as (tr & ? & ? & ->). by exists tr.
Qed.

(** What leaves the transports, the operations and the list alone. *)
Lemma carried_quiet s s1 :
  (forall i th p x, thread_at s1 i th -> th_pc th = in_transfer p x -> thread_at s i th) ->
  (forall x tr1, st_transfers s1 !! x = Some tr1 -> tr_state tr1 = in_flight ->
     exists tr, st_transfers s !! x = Some tr /\ tr_state tr = in_flight /\ tr_cancelled tr1 = tr_cancelled tr) ->
  st_todo s1 = st_todo s -> st_transports s1 = st_transports s -> st_operations s1 = st_operations s ->
  carried s s1.
Proof.
  intros Ht Hx Ed Et Eo. apply carried_env; rewrite ?Ed, ?Et, ?Eo; try done.
  - intros t tp1 Htp1 Hc. right. intros tp Htp. congruence.
  - intros o op1 Hop1 Hc op Hop. assert (op1 = op) as -> by congruence. split; [done|by left].
Qed.

Lemma step_carried e s s' :
  inv s -> (forall k, e ≠ Does k) -> step e s = moved s' -> carried s s'.
Proof.
  intros Hi Hne. destruct e as [info|d t|t o c|i a|k|o status|t| |x status actual data|x|now]; cbn [step].
  - intros [= <-]. apply carried_env; try done; cbn.
    + intros x tr1 ??. by exists tr1.
    + intros t tp1 [Htp|[_ Htp]]%lookup_app_Some Hc; [right; intros tp ?; congruence|].
      by destruct (_ - _)%nat in Htp; simplify_eq/=.
    + intros o op1 Hop1 Hc op Hop. assert (op1 = op) as -> by congruence. split; [done|by left].
  - intros [= <-]. apply carried_env; try done; cbn.
    + intros x tr1 ??. by exists tr1.
    + intros t' tp1 Htp1 Hc. right. intros tp Htp. congruence.
    + intros o op1 [Hop1|[_ Hop1]]%lookup_app_Some Hc op Hop; [|by destruct (_ - _)%nat in Hop1; simplify_eq/=].
      assert (op1 = op) as -> by congruence. split; [done|by left].
  - intros [= <-]. apply carried_quiet; try done; cbn.
    + intros i th p x. unfold thread_at. cbn. intros [?|[_ Hth]]%lookup_app_Some Hpc; [done|].
      by destruct (_ - _)%nat in Hth; simplify_eq/=.
    + intros x tr1 ??. by exists tr1.
  - by apply thread_step_carried.
  - by destruct (Hne k).
  - unfold complete_operation. destruct (st_operations s !! o) as [op|] eqn:Hop; [|done].
    destruct (try_complete status op) as [won op'] eqn:E. intros [= <-].
    assert (cancel_handler_ op' = cancel_handler_ op /\ (won = true \/ op' = op)) as [Hh Hw].
    { unfold try_complete in E. destruct (_ =? _); injection E as <- <-; auto. }
    apply carried_env; destruct won; try done; cbn.
    + intros x tr1 ??. by exists tr1.
    + intros x tr1 ??. by exists tr1.
    + intros d Hd. apply elem_of_app. by left.
    + intros t tp1 Htp1 Hc. right. intros tp Htp. congruence.
    + intros t tp1 Htp1 Hc. right. intros tp Htp. congruence.
    + intros o' op1 [(<- & <- & _)|[_ Hop1]]%list_lookup_insert_Some Hc op2 Hop2.
      * assert (op2 = op) as -> by congruence. split; [done|right]. apply elem_of_app. right. by left.
      * assert (op1 = op2) as -> by congruence. split; [done|by left].
    + destruct Hw as [?| ->]; [done|]. rewrite insert_same by done.
      intros o' op1 Hop1 Hc op2 Hop2. assert (op1 = op2) as -> by congruence. split; [done|by left].
  - unfold close_transport. destruct (st_transports s !! t) as [tp|] eqn:Htp; [|done]. intros [= <-].
    apply carried_env; try done; cbn.
    + intros x tr1 ??. by exists tr1.
    + intros d Hd. apply elem_of_app. by left.
    + intros t' tp1 [(<- & <- & _)|[_ Htp1]]%list_lookup_insert_Some Hc.
      * left. apply elem_of_app. right. by left.
      * right. intros tp' ?. congruence.
    + intros o op1 Hop1 Hc op Hop. assert (op1 = op) as -> by congruence. split; [done|by left].
  - intros [= <-]. apply carried_quiet; try done. intros x tr1 ??. by exists tr1.
  - unfold transfer_complete, on_transfer. destruct (st_transfers s !! x) as [tr|] eqn:Htr; [|done].
    destruct (tr_state tr); try done. destruct (tr_wait tr); [|done]. intros [= <-].
    apply carried_quiet; try done; cbn.
    intros y tr1 [(<- & <- & _)|[_ ?]]%list_lookup_insert_Some Hf; [done|by exists tr1].
  - unfold transfer_notify, on_transfer. destruct (st_transfers s !! x) as [tr|] eqn:Htr; [|done].
    destruct (tr_notify tr); [|done]. destruct (tr_wait tr); [|done]. intros [= <-].
    apply carried_quiet; try done; cbn.
    intros y tr1 [(<- & <- & _)|[_ ?]]%list_lookup_insert_Some Hf; [by exists tr|by exists tr1].
  - intros [= <-]. apply carried_quiet; try done. intros x tr1 ??. by exists tr1.
Qed.

(** Taking a handler hands the cancellation on, and running it reaches every
    transfer in flight. *)
Lemma does_cancels s k s' : inv s -> cancels s -> todo_step k s = moved s' -> cancels s'.
Proof.
  intros Hi Hcan. unfold todo_step. destruct (st_todo s !! k) as [d0|] eqn:Hk; [|done].
  assert (forall d, d ∈ st_todo s -> d = d0 \/ d ∈ delete k (st_todo s)) as Hdel.
  { intros d. rewrite (delete_Permutation _ _ _ Hk) at 1. by rewrite elem_of_cons. }
  destruct d0 as [o|t]; cbn.
  - destruct (st_operations s !! o) as [op0|] eqn:Hop0; [|done]. intros [= <-].
    intros i th p x tr tp op Hth Hpc Htr Hst Htp Hop. cbn in Htr, Htp, Hop.
    assert (exists op1, st_operations s !! th_operation th = Some op1 /\ completed op1 = completed op /\
      (th_operation th = o /\ op1 = op0 \/ th_operation th ≠ o /\ op1 = op)) as (op1 & Hop1 & Hc & Hor).
    { apply list_lookup_insert_Some in Hop as [(-> & <- & _)|[Hne Hop]]; [exists op0; auto|exists op; auto]. }
    destruct (Hcan i th p x tr tp op1 Hth Hpc Htr Hst Htp Hop1) as [H1 H2]. unfold cancel_due. cbn.
    assert (cancel_of (th_transport th) ∈ st_todo s ->
      cancel_of (th_transport th) ∈ delete k (st_todo s) ++ (cancel_of <$> option_list (cancel_handler_ op0))) as Hkeep.
    { intros [?|?]%Hdel; [done|]. apply elem_of_app. by left. }
    split.
    + intros Hcl. destruct (H1 Hcl); auto.
    + rewrite <- Hc. intros Hco. destruct (H2 Hco) as [?|[?|[Ht Hh]]]; auto. destruct Hor as [[E ->]|[E ->]].
      * right; left. apply elem_of_app. right. rewrite Hh. by left.
      * right; right. split; [|done]. apply elem_of_app. left. destruct (Hdel _ Ht) as [[= ?]|?]; [done|done].
  - intros Hs'. set (s0 := with_todo (delete k (st_todo s)) s) in *.
    assert (inv s0) as Hi0 by (apply inv_todo; [intros d; apply delete_elem|done]).
    destruct (st_transports s !! t) as [tp0|] eqn:Htp0; [|by unfold cancel in Hs'; cbn in Hs'; rewrite Htp0 in Hs'].
    destruct (cancel_spec s0 t tp0 Hi0 Htp0) as (l & E & Hl). rewrite E in Hs'. injection Hs' as <-.
    intros i th p x tr1 tp op Hth Hpc Htr Hst Htp Hop. cbn in Htr, Htp, Hop. rewrite Hl in Htr. cbn in Htr.
    destruct (st_transfers s !! x) as [tr|] eqn:Hx; [|done]. injection Htr as <-.
    assert (tr_state tr = in_flight) as Hst0 by (destruct (cancel_if_similar (bool_decide (x ∈ tp_active tp0)) tr) as (_ & <- & _); done).
    destruct (Hcan i th p x tr tp op Hth Hpc Hx Hst0 Htp Hop) as [H1 H2].
    assert (tr_cancelled tr = true -> tr_cancelled (cancel_if (bool_decide (x ∈ tp_active tp0)) tr) = true) as Hmono.
    { unfold cancel_if. by destruct (_ && _). }
    assert (cancel_of (th_transport th) ∈ st_todo s ->
      tr_cancelled (cancel_if (bool_decide (x ∈ tp_active tp0)) tr) = true \/
      cancel_of (th_transport th) ∈ delete k (st_todo s)) as Hdone.
    { intros [[= Ht]|?]%Hdel; [|by right]. left. rewrite Ht in Htp. assert (tp = tp0) as -> by congruence.
      destruct (thread_here s i th Hi Hth) as (tp' & _ & Htp' & _ & Hok). unfold pc_ok in Hok. rewrite Hpc in Hok.
      destruct Hok as (_ & Ha & _). rewrite Ht in Htp'. assert (tp' = tp0) as -> by congruence.
      unfold cancel_if. by rewrite !bool_decide_true. }
    unfold cancel_due. cbn. split.
    + intros Hcl. destruct (H1 Hcl); auto.
    + intros Hco. destruct (H2 Hco) as [?|[Hc|[Ht Hh]]]; auto.
      * destruct (Hdone Hc); auto.
      * right; right. split; [|done]. destruct (Hdel _ Ht) as [?|?]; done.
Qed.

Lemma libusb_reachable s : rtc libusb_step connection s -> inv s /\ cancels s.
Proof.
  intros Hr. split; [by apply reachable_inv|].
  assert (cancels connection) as H0 by (intros i th p x tr tp op H; done).
  assert (inv connection) as Hi0 by (apply reachable_inv; reflexivity).
  revert Hi0 H0. induction Hr as [|s s1 s2 (e & Hen & Hs) Hr IH]; intros Hi Hc; [done|].
  assert (inv s1) as Hi1.
  { destruct (step_ok e s Hi Hen) as [(x & -> & H)|H]; [by apply H|]. by rewrite Hs in H. }
  apply IH; [done|].
  assert ((exists k, e = Does k) \/ forall k, e ≠ Does k) as [[k ->]|Hne].
  { destruct e; try (right; by intros ?). left. by eexists. }
  - exact (does_cancels s k s1 Hi Hc Hs).
  - exact (carried_cancels s s1 Hi (step_carried e s s1 Hi Hne Hs) Hc).
Qed.

(** ** Properties *)

(** A transfer that comes into flight is submitted on an open transport of a
    connected device, for an operation that is not completed. *)
Lemma flight_begins e s s' x tr' :
  inv s -> enabled e s -> step e s = moved s' -> st_transfers s' !! x = Some tr' -> tr_state tr' = in_flight ->
  (exists tr, st_transfers s !! x = Some tr /\ tr_state tr = in_flight) \/
  (st_connected s = true /\ exists i th tp op, thread_at s' i th /\ th_pc th = in_transfer (tr_plan tr') x /\
     st_transports s' !! th_transport th = Some tp /\ tp_closed tp = false /\
     st_operations s' !! th_operation th = Some op /\ completed op = false).
Proof.
  intros Hi Hen Hs Htr' Hst.
  assert (inv s') as Hi'.
  { destruct (step_ok e s Hi Hen) as [(y & -> & H)|H]; [by apply H|]. by rewrite Hs in H. }
  destruct (flight_waits s' x tr' Hi' Htr' Hst) as (i & th & tp & Hth & Hpc & Htp & _).
  destruct (thread_here s' i th Hi' Hth) as (tp' & op & _ & Hop & _).
  assert ((exists k, e = Does k) \/ forall k, e ≠ Does k) as [[k ->]|Hne].
  { destruct e; try (right; by intros ?). left. by eexists. }
  - left. cbn in Hs. unfold todo_step in Hs. destruct (st_todo s !! k) as [[o|t]|]; [| |done]; cbn in Hs.
    + destruct (st_operations s !! o) as [op0|]; [|done]. injection Hs as <-. by exists tr'.
    + set (s0 := with_todo (delete k (st_todo s)) s) in *.
      assert (inv s0) as Hi0 by (apply inv_todo; [intros d; apply delete_elem|done]).
      destruct (st_transports s !! t) as [tp0|] eqn:Htp0; [|by unfold cancel in Hs; cbn in Hs; rewrite Htp0 in Hs].
      destruct (cancel_spec s0 t tp0 Hi0 Htp0) as (l & E & Hl). rewrite E in Hs. injection Hs as <-.
      cbn in Htr'. rewrite Hl in Htr'. cbn in Htr'. destruct (st_transfers s !! x) as [tr|]; [|done].
      injection Htr' as <-. exists tr. split; [done|]. by destruct (cancel_if_similar (bool_decide (x ∈ tp_active tp0)) tr) as (_ & <- & _).
  - destruct (ca_transfer s s' (step_carried e s s' Hi Hne Hs) i th _ x tr' Hth Hpc Htr' Hst)
      as [(_ & tr & ? & ? & _)|[Hc Hnew]]; [left; by exists tr|right].
    split; [done|]. destruct (Hnew tp op Htp Hop). exists i, th, tp, op. done.
Qed.


(** No cancellation is lost: a transfer in flight whose transport has been
    closed, or whose operation has been completed by its cancellation or a
    timeout, has been cancelled with libusb, or the handler or the [cancel] that
    will do it is still to run, and once none is left to run it has been
    cancelled. *)
Lemma libusb_cancellation_reaches s i th p x tr tp op :
  rtc libusb_step connection s ->
  thread_at s i th -> th_pc th = in_transfer p x -> st_transfers s !! x = Some tr -> tr_state tr = in_flight ->
  st_transports s !! th_transport th = Some tp -> st_operations s !! th_operation th = Some op ->
  tp_closed tp = true \/ completed op = true ->
  (tr_cancelled tr = true \/ cancel_of (th_transport th) ∈ st_todo s \/
   (take_of (th_operation th) ∈ st_todo s /\ cancel_handler_ op = Some (th_transport th))) /\
  (st_todo s = [] -> tr_cancelled tr = true).
Proof.
  intros [Hi Hc]%libusb_reachable Hth Hpc Htr Hst Htp Hop Hdue.
  destruct (Hc i th p x tr tp op Hth Hpc Htr Hst Htp Hop) as [H1 H2].
  assert (tr_cancelled tr = true \/ cancel_of (th_transport th) ∈ st_todo s \/
    (take_of (th_operation th) ∈ st_todo s /\ cancel_handler_ op = Some (th_transport th))) as H.
  { destruct Hdue as [Hd|Hd]; [destruct (H1 Hd)|destruct (H2 Hd)]; auto. }
  split; [done|]. intros E. rewrite E in H. destruct H as [?|[?%not_elem_of_nil|[?%not_elem_of_nil _]]]; done.
Qed.

(** C36: what a call of the transport returns: success only if libusb has completed
    the transfer the call asked for, then with all the bytes libusb moved and no
    more than were asked for (written ones are counted, read ones handed out);
    every other outcome is an error without data.  [clear_halt] succeeds without
    a transfer. *)
Theorem libusb_call_outcomes s i th transfer r :
  rtc libusb_step connection s -> thread_at s i th -> th_pc th = returned transfer r ->
  (oc_status r < VI_SUCCESS /\ oc_data r = []) \/
  (oc_status r = VI_SUCCESS /\
   ((exists e, th_call th = clear_halt_call e /\ r = failure VI_SUCCESS) \/
    exists tp p x tr actual data,
      st_transports s !! th_transport th = Some tp /\
      begin_call (tp_info tp) (th_call th) = inr (transfer_job p) /\ transfer = Some x /\
      st_transfers s !! x = Some tr /\ tr_plan tr = p /\
      tr_report tr = Some (transfer_completed, actual, data) /\ 0 <= actual <= pl_length p /\
      (if pl_input p then r = mkOutcome VI_SUCCESS 0 data /\ size_of data = actual
       else r = mkOutcome VI_SUCCESS actual []))).
Proof.
  intros [Hi _]%libusb_reachable Hth Hpc. destruct (thread_here s i th Hi Hth) as (tp & op & Htp & Hop & Hok).
  unfold pc_ok in Hok. rewrite Hpc in Hok. destruct transfer as [x|].
  - destruct Hok as (p & Hb & _ & tr & Htr & Hp & _ & [Hneg|(actual & data & Hr & [Ha Hsize] & ->)]); [by left|].
    cbn in Ha, Hsize. right. split; [done|]. right. exists tp, p, x, tr, actual, data. repeat (split; [done|]).
    destruct (pl_input p); [done|]. destruct data; [done|]. unfold size_of in Hsize. cbn in Hsize. lia.
  - destruct Hok as (status & -> & [Hneg|[-> [e He]]]); [by left|right]. split; [done|]. left. by exists e.
Qed.

(** How far a call has to go. *)
Definition pc_rank (p : pc) : nat :=
  match p with
  | entering => 12 | waiting _ => 11 | acquiring _ => 10 | holding _ => 9 | clearing _ _ => 8 | preparing _ _ => 8
  | submitting _ _ => 7 | in_transfer _ _ => 6 | settling _ _ => 5 | switching _ _ => 4 | freeing _ _ _ _ => 3
  | releasing _ _ _ => 2 | returned _ _ => 0
  end.


(** The timeout of a transfer covers the time left to the deadline, to the
    millisecond above, and is not the 0 that libusb takes for none. *)
Lemma remaining_timeout_spec (op : Operation nat) now t :
  (forall d, deadline_ op = Some d -> d - now < 2 ^ 63) ->
  remaining_timeout op now = Some t ->
  (deadline_ op = None /\ t = 0) \/
  exists d, deadline_ op = Some d /\ now < d /\ 1 <= t <= uint_max /\ (t - 1) * ticks_per_ms < d - now /\
    (d - now <= t * ticks_per_ms \/ t = uint_max).
Proof.
  intros Hd. unfold remaining_timeout. destruct (deadline_ op) as [d|]; [|intros [= <-]; by left].
  specialize (Hd d eq_refl). destruct (Z.leb_spec d now) as [|Hlt]; [done|]. intros [= <-]. right. exists d.
  split; [done|]. split; [done|]. unfold timeout_ms, u64, ticks_per_ms, uint_max.
  set (r := d - now) in *. rewrite Z.quot_div_nonneg by lia.
  pose proof (Z.div_mod (r + 10 ^ 6 - 1) (10 ^ 6)). pose proof (Z.mod_pos_bound (r + 10 ^ 6 - 1) (10 ^ 6)).
  assert (0 <= (r + 10 ^ 6 - 1) / 10 ^ 6 < 2 ^ 64) as Hq by (split; [apply Z.div_pos; lia|apply Z.div_lt_upper_bound; lia]).
  rewrite Z.mod_small by done. lia.
Qed.

(** ** A run *)

Fixpoint run_steps (es : list event) (s : State) : option State :=
  match es with
  | [] => Some s
  | e :: es => match step e s with moved s' => run_steps es s' | _ => None end
  end.

(** Every event of a list is enabled when it comes. *)
Fixpoint all_enabled (es : list event) (s : State) : Prop :=
  match es with
  | [] => True
  | e :: es => enabled e s /\ match step e s with moved s' => all_enabled es s' | _ => True end
  end.

Lemma run_reaches es : forall s s',
  rtc libusb_step connection s -> all_enabled es s -> run_steps es s = Some s' -> rtc libusb_step connection s'.
Proof.
  induction es as [|e es IH]; cbn; intros s s' Hr Hen; [by intros [= <-]|].
  destruct Hen as [He Hes]. destruct (step e s) as [| |s1] eqn:Hs; try done. apply IH; [|done].
  eapply rtc_r; [exact Hr|]. by exists e.
Qed.

Definition sample_info : UsbInterfaceInfo := mkUsbInterfaceInfo 2 0x02 0x81 0x83 512 true 0 0.

Definition accepts : answer := mkAnswer true 0 false.

(** A read up to its submission. *)
Definition submit_events : list event :=
  [Open sample_info; NewOperation (Some 5000000) 0; Call 0 0 (bulk_in_call 4)] ++ replicate 5 (Runs 0 accepts).

Definition submitted : State := default connection (run_steps submit_events connection).

Lemma submit_enabled : all_enabled submit_events connection.
Proof.
  unfold submit_events. cbn [app replicate all_enabled].
  split; [exact I|]. split; [exact I|]. split.
  - split; [done|]. split; [by eexists|]. eexists. by split; [reflexivity|].
  - repeat (split; [exact I|]). vm_compute. exact I.
Qed.

Lemma submitted_reachable : rtc libusb_step connection submitted.
Proof. apply (run_reaches submit_events connection); [reflexivity|exact submit_enabled|vm_compute; reflexivity]. Qed.

Definition the_plan : Plan := mkPlan bulk_in_gate 0x81 true 4 None [].

(** The transfer, as it is in flight. *)
Definition flying : Transfer := mkTransfer the_plan 5 in_flight false None true false.

Lemma two_bytes_fit : enabled (Ends 0 transfer_completed 2 [1; 2]) submitted.
Proof. intros tr Htr. vm_compute in Htr. injection Htr as <-. split; [cbn; lia|reflexivity]. Qed.


(** The transport is closed while the transfer is in flight. *)
Definition closing : State := default submitted (run_steps [Closes 0] submitted).

Lemma closing_reachable : rtc libusb_step connection closing.
Proof.
  apply (run_reaches [Closes 0] submitted); [exact submitted_reachable| |vm_compute; reflexivity].
  split; [exact I|]. vm_compute. exact I.
Qed.

Lemma libusb_cancellation_reaches_witness :
  exists i th tp op, thread_at closing i th /\ st_transports closing !! th_transport th = Some tp /\
    st_operations closing !! th_operation th = Some op /\ tp_closed tp = true /\
    (tr_cancelled flying = true \/ cancel_of (th_transport th) ∈ st_todo closing \/
     (take_of (th_operation th) ∈ st_todo closing /\ cancel_handler_ op = Some (th_transport th))).
Proof.
  exists 0%nat, (mkThread 0 0 (bulk_in_call 4) (in_transfer the_plan 0)), (mkTransport sample_info {[0%nat]} true),
    (mkOperation kPending (Some 5000000) (Some 0%nat)).
  split; [vm_compute; reflexivity|]. split; [vm_compute; reflexivity|]. split; [vm_compute; reflexivity|].
  split; [reflexivity|].
  apply (libusb_cancellation_reaches closing 0 (mkThread 0 0 (bulk_in_call 4) (in_transfer the_plan 0)) the_plan 0 flying
    (mkTransport sample_info {[0%nat]} true) (mkOperation kPending (Some 5000000) (Some 0%nat)) closing_reachable);
    try (vm_compute; reflexivity). by left.
Defined.

(** The transfer ends with two bytes, and the call returns; the callback is still
    before its notification. *)
Definition finish_events : list event := Ends 0 transfer_completed 2 [1; 2] :: replicate 5 (Runs 0 accepts).

Definition finished_read : State := default submitted (run_steps finish_events submitted).

Lemma finished_reachable : rtc libusb_step connection finished_read.
Proof.
  apply (run_reaches finish_events submitted); [exact submitted_reachable| |vm_compute; reflexivity].
  split; [exact two_bytes_fit|]. vm_compute. tauto.
Qed.

Definition two_bytes : outcome := mkOutcome VI_SUCCESS 0 [1; 2].

Lemma libusb_call_outcomes_witness :
  let th := mkThread 0 0 (bulk_in_call 4) (returned (Some 0%nat) two_bytes) in
  thread_at finished_read 0 th /\
  ((oc_status two_bytes < VI_SUCCESS /\ oc_data two_bytes = []) \/
   (oc_status two_bytes = VI_SUCCESS /\
    ((exists e, th_call th = clear_halt_call e /\ two_bytes = failure VI_SUCCESS) \/
     exists tp p x tr actual data,
       st_transports finished_read !! th_transport th = Some tp /\
       begin_call (tp_info tp) (th_call th) = inr (transfer_job p) /\ Some 0%nat = Some x /\
       st_transfers finished_read !! x = Some tr /\ tr_plan tr = p /\
       tr_report tr = Some (transfer_completed, actual, data) /\ 0 <= actual <= pl_length p /\
       (if pl_input p then two_bytes = mkOutcome VI_SUCCESS 0 data /\ size_of data = actual
        else two_bytes = mkOutcome VI_SUCCESS actual [])))).
Proof.
  intros th. assert (thread_at finished_read 0 th) as Hth by (vm_compute; reflexivity). split; [exact Hth|].
  exact (libusb_call_outcomes finished_read 0 th (Some 0%nat) two_bytes finished_reachable Hth eq_refl).
Defined.


(** ** What goes wrong

    [transfer_complete] notifies after it has given up the mutex of the
    [TransferWait]: the call may have seen the report, returned and destroyed
    the [TransferWait] on its stack by then. *)
Example notification_outlives_wait :
  rtc libusb_step connection finished_read /\
  (exists th, thread_at finished_read 0 th /\ th_pc th = returned (Some 0%nat) two_bytes) /\
  step (Notifies 0) finished_read = undefined.
Proof.
  split; [exact finished_reachable|]. split; [eexists; split; vm_compute; reflexivity|]. vm_compute. reflexivity.
Qed.
