(* ===== verification/LibusbProvider.v ===== *)
(** * The libusb provider: [LibusbRuntime], [LibusbHandle], [LibusbConnection] and
      [LibusbProvider] of [backends/usb/libusb_provider.cpp]

    Finding and opening USB devices.  Sessions on one interface share one
    connection, which owns a device handle and a lease of the interface; the
    event thread of libusb runs while there are handles.  [open] holds
    [open_mutex_], so calls are atomic here but for the hotplug callbacks of
    libusb, which can come in the middle of [open]. *)

From S2P Require Import Prelude Visa CText ResourceParser ResourceManager UsbTransport LibusbDescriptors.
From S2P Require Import InterfaceArbiter.

(** ** libusb

    Reading descriptors, and the calls that open and claim, which can change
    the world.  [lu_device_list]: the count, negative for an error, and the devices.  A string is the
    result and the text in the buffer up to its end. *)

Class Libusb (D W : Type) := {
  lu_device_list : W -> Z * list D;
  lu_descriptor : D -> W -> option (Z * Z * Z);
  lu_config : D -> W -> option libusb_config;
  lu_device_string : D -> W -> Z * str;
  lu_string_ascii : D -> Z -> W -> Z * str;
  lu_bus_number : D -> W -> Z;
  lu_port_numbers : D -> W -> list Z;
  lu_device_address : D -> W -> Z;
  lu_pointer : D -> str;
  lu_open : D -> W -> Z * W;
  lu_close : D -> W -> W;
  lu_set_auto_detach : D -> W -> Z * W;
  lu_claim : D -> Z -> W -> Z * W;
  lu_set_alt_setting : D -> Z -> Z -> W -> Z * W;
  lu_release : D -> Z -> W -> W }.

(** ** State *)

(** A [libusb_device_handle], and the [LibusbHandle] that owns it once there is
    one ([hd_counted]): [hd_open] until [libusb_close]. *)
Record Handle (D : Type) := mkHandle {
  hd_device : D;
  hd_open : bool;
  hd_counted : bool;
  hd_interface : Z;
  hd_alternate : Z;
  hd_claimed : bool }.
Arguments mkHandle {_} _ _ _ _ _ _.
Arguments hd_device {_} _.
Arguments hd_open {_} _.
Arguments hd_counted {_} _.
Arguments hd_interface {_} _.
Arguments hd_alternate {_} _.
Arguments hd_claimed {_} _.

(** [cn_owners] counts the transports that share the connection. *)
Record Connection (D : Type) := mkConnection {
  cn_device : D;
  cn_handle : nat;
  cn_lease : nat;
  cn_alternate : Z;
  cn_identity : str;
  cn_connected : bool;
  cn_owners : nat }.
Arguments mkConnection {_} _ _ _ _ _ _ _.
Arguments cn_device {_} _.
Arguments cn_handle {_} _.
Arguments cn_lease {_} _.
Arguments cn_alternate {_} _.
Arguments cn_identity {_} _.
Arguments cn_connected {_} _.
Arguments cn_owners {_} _.

(** [pv_lease_handles]: the handle each lease of the arbiter releases.
    [pv_running]: the event thread runs. *)
Record Provider (D W : Type) `{Countable D} := mkProvider {
  pv_world : W;
  pv_handles : list (Handle D);
  pv_open_handles : nat;
  pv_running : bool;
  pv_heap : list (Connection D);
  pv_connections : gmap str nat;
  pv_device_connections : gmap D (list nat);
  pv_departed : gset D;
  pv_arbiter : Arbiter;
  pv_lease_handles : list nat }.
Arguments mkProvider {_ _ _ _} _ _ _ _ _ _ _ _ _ _.
Arguments pv_world {_ _ _ _} _.
Arguments pv_handles {_ _ _ _} _.
Arguments pv_open_handles {_ _ _ _} _.
Arguments pv_running {_ _ _ _} _.
Arguments pv_heap {_ _ _ _} _.
Arguments pv_connections {_ _ _ _} _.
Arguments pv_device_connections {_ _ _ _} _.
Arguments pv_departed {_ _ _ _} _.
Arguments pv_arbiter {_ _ _ _} _.
Arguments pv_lease_handles {_ _ _ _} _.

Section provider.
  Context {D W : Type} `{Countable D} `{Libusb D W}.

Abbreviation Provider := (Provider D W).

Definition with_world (w : W) (p : Provider) : Provider :=
  mkProvider w (pv_handles p) (pv_open_handles p) (pv_running p) (pv_heap p) (pv_connections p)
    (pv_device_connections p) (pv_departed p) (pv_arbiter p) (pv_lease_handles p).
Definition with_handles (l : list (Handle D)) (p : Provider) : Provider :=
  mkProvider (pv_world p) l (pv_open_handles p) (pv_running p) (pv_heap p) (pv_connections p)
    (pv_device_connections p) (pv_departed p) (pv_arbiter p) (pv_lease_handles p).
Definition with_runtime (n : nat) (running : bool) (p : Provider) : Provider :=
  mkProvider (pv_world p) (pv_handles p) n running (pv_heap p) (pv_connections p)
    (pv_device_connections p) (pv_departed p) (pv_arbiter p) (pv_lease_handles p).
Definition with_heap (l : list (Connection D)) (p : Provider) : Provider :=
  mkProvider (pv_world p) (pv_handles p) (pv_open_handles p) (pv_running p) l (pv_connections p)
    (pv_device_connections p) (pv_departed p) (pv_arbiter p) (pv_lease_handles p).
Definition with_tables (m : gmap str nat) (dm : gmap D (list nat)) (departed : gset D) (p : Provider) : Provider :=
  mkProvider (pv_world p) (pv_handles p) (pv_open_handles p) (pv_running p) (pv_heap p) m dm departed
    (pv_arbiter p) (pv_lease_handles p).
Definition with_arbiter (a : Arbiter) (hs : list nat) (p : Provider) : Provider :=
  mkProvider (pv_world p) (pv_handles p) (pv_open_handles p) (pv_running p) (pv_heap p) (pv_connections p)
    (pv_device_connections p) (pv_departed p) a hs.

Definition set_handle (h : nat) (x : Handle D) (p : Provider) : Provider :=
  with_handles (<[h := x]> (pv_handles p)) p.

Definition set_connection (c : nat) (x : Connection D) (p : Provider) : Provider :=
  with_heap (<[c := x]> (pv_heap p)) p.

(** ** The runtime *)

(** [libusb_open]: a new handle, or the error. *)
Definition open_device (d : D) (p : Provider) : (Z + nat) * Provider :=
  let '(result, w) := lu_open d (pv_world p) in
  if result <? 0 then (inl result, with_world w p)
  else (inr (length (pv_handles p)),
        with_handles (pv_handles p ++ [mkHandle d true false 0 0 false]) (with_world w p)).

(** [libusb_close] *)
Definition close_device (h : nat) (p : Provider) : Provider :=
  match pv_handles p !! h with
  | None => p
  | Some x =>
      set_handle h (mkHandle (hd_device x) false (hd_counted x) (hd_interface x) (hd_alternate x) (hd_claimed x))
        (with_world (lu_close (hd_device x) (pv_world p)) p)
  end.

Definition close_opened (opened : option nat) (p : Provider) : Provider :=
  match opened with Some h => close_device h p | None => p end.

Definition retain_handle (p : Provider) : Provider :=
  let n := S (pv_open_handles p) in
  with_runtime n (if Nat.eqb n 1 then true else pv_running p) p.

(** The join of the event thread is the end of the call. *)
Definition close_handle (h : nat) (p : Provider) : Provider :=
  match pv_open_handles p with
  | O => close_device h p
  | S n => close_device h (with_runtime n (if Nat.eqb n 0 then false else pv_running p) p)
  end.

(** ** Handles *)

(** The constructor of [LibusbHandle]. *)
Definition make_handle (h : nat) (interface_number alternate_setting : Z) (p : Provider) : Provider :=
  match pv_handles p !! h with
  | None => p
  | Some x =>
      retain_handle
        (set_handle h (mkHandle (hd_device x) (hd_open x) true interface_number alternate_setting false) p)
  end.

Definition set_claimed (h : nat) (claimed : bool) (p : Provider) : Provider :=
  match pv_handles p !! h with
  | None => p
  | Some x =>
      set_handle h (mkHandle (hd_device x) (hd_open x) (hd_counted x) (hd_interface x) (hd_alternate x) claimed) p
  end.

Definition release_handle (h : nat) (p : Provider) : Provider :=
  match pv_handles p !! h with
  | None => p
  | Some x =>
      if hd_claimed x
      then set_claimed h false (with_world (lu_release (hd_device x) (hd_interface x) (pv_world p)) p)
      else p
  end.

(** [LIBUSB_ERROR_NOT_SUPPORTED] *)
Definition not_supported : Z := -12.

Definition claim_handle (h : nat) (p : Provider) : Z * Provider :=
  match pv_handles p !! h with
  | None => (VI_ERROR_SYSTEM_ERROR, p)
  | Some x =>
      let '(detach, w) := lu_set_auto_detach (hd_device x) (pv_world p) in
      let p := with_world w p in
      if (detach <? 0) && negb (detach =? not_supported) then (map_error detach true, p)
      else
        let '(result, w) := lu_claim (hd_device x) (hd_interface x) (pv_world p) in
        let p := with_world w p in
        if result <? 0 then (map_error result true, p)
        else
          let p := set_claimed h true p in
          if hd_alternate x =? 0 then (VI_SUCCESS, p)
          else
            let '(result, w) := lu_set_alt_setting (hd_device x) (hd_interface x) (hd_alternate x) (pv_world p) in
            let p := with_world w p in
            if result <? 0 then (map_error result true, release_handle h p) else (VI_SUCCESS, p)
  end.

(** The destructor of [LibusbHandle]. *)
Definition destroy_handle (h : nat) (p : Provider) : Provider := close_handle h (release_handle h p).

(** ** Owners

    A connection lives while transports share it; a [LibusbHandle] while a living
    connection or the release function of a lease refers to it. *)

Definition living (c : Connection D) : bool := negb (Nat.eqb (cn_owners c) 0).

Definition lease_releases (p : Provider) (i h : nat) : bool :=
  match heap (pv_arbiter p) !! i, pv_lease_handles p !! i with
  | Some l, Some h' => ls_release l && Nat.eqb h' h
  | _, _ => false
  end.

Definition handle_owned (h : nat) (p : Provider) : bool :=
  existsb (fun c => living c && Nat.eqb (cn_handle c) h) (pv_heap p) ||
  existsb (fun i => lease_releases p i h) (seq 0 (length (pv_lease_handles p))).

(** A reference to the handle goes. *)
Definition drop_handle (h : nat) (p : Provider) : Provider :=
  if handle_owned h p then p else destroy_handle h p.

(** The actions that dropping an owner of a lease starts, to their end; three are
    enough. *)
Fixpoint finish_thread (fuel t : nat) (a : Arbiter) : Arbiter :=
  match fuel with
  | O => a
  | S fuel => match arbiter_step (on_thread t) a with Some a' => finish_thread fuel t a' | None => a end
  end.

Definition drop_owner_of (i : nat) (a : Arbiter) : Arbiter :=
  match arbiter_step (on_let_go i) a with
  | Some a' => finish_thread 3 (length (threads a)) a'
  | None => a
  end.

Definition still_releases (i : nat) (a : Arbiter) : bool :=
  match heap a !! i with Some l => ls_release l | None => false end.

(** [lease_.reset()]: the last owner's release function releases the handle and
    goes. *)
Definition drop_lease (i : nat) (p : Provider) : Provider :=
  let a := drop_owner_of i (pv_arbiter p) in
  let called := still_releases i (pv_arbiter p) && negb (still_releases i a) in
  let p := with_arbiter a (pv_lease_handles p) p in
  if called then
    match pv_lease_handles p !! i with
    | Some h => drop_handle h (release_handle h p)
    | None => p
    end
  else p.

(** ** Connections *)

Definition mark_disconnected (c : nat) (p : Provider) : Provider :=
  match pv_heap p !! c with
  | None => p
  | Some x =>
      set_connection c (mkConnection (cn_device x) (cn_handle x) (cn_lease x) (cn_alternate x) (cn_identity x)
        false (cn_owners x)) p
  end.

Definition with_cn_owners (n : nat) (x : Connection D) : Connection D :=
  mkConnection (cn_device x) (cn_handle x) (cn_lease x) (cn_alternate x) (cn_identity x) (cn_connected x) n.

(** A transport is destroyed; with the last one its connection is, whose handle
    goes after its lease. *)
Definition drop_connection (c : nat) (p : Provider) : Provider :=
  match pv_heap p !! c with
  | None => p
  | Some x =>
      match cn_owners x with
      | O => p
      | S O =>
          let p := drop_lease (cn_lease x) (mark_disconnected c p) in
          let p := match pv_heap p !! c with
                   | Some x => set_connection c (with_cn_owners 0 x) p
                   | None => p
                   end in
          drop_handle (cn_handle x) p
      | S n => set_connection c (with_cn_owners n x) p
      end
  end.

(** ** Serial numbers *)

(** [None] in the serial number comes with the status; [opened] is the handle
    that has been opened to read it. *)
Definition read_serial (d : D) (iSerialNumber : Z) (p : Provider) : option str * option nat * Z * Provider :=
  if iSerialNumber =? 0 then (None, None, VI_ERROR_RSRC_NFOUND, p)
  else
    let '(result, text) := lu_device_string d (pv_world p) in
    if (1 <? result) && negb (bool_decide (text = [])) then (Some text, None, VI_SUCCESS, p)
    else
      match open_device d p with
      | (inl result, p) => (None, None, map_error result true, p)
      | (inr h, p) =>
          let '(result, text) := lu_string_ascii d iSerialNumber (pv_world p) in
          if result <=? 0 then
            (None, Some h, (if result <? 0 then map_error result true else VI_ERROR_RSRC_NFOUND), p)
          else (Some (take (Z.to_nat result) text), Some h, VI_SUCCESS, p)
      end.

(** ** Discovery *)

Definition names_of (vendor product : Z) (serial : str) (config : option libusb_config) : list str :=
  omap (fun i => resource_name vendor product serial (ui_interface_number i) INSTR) (inspect_device config) ++
  omap (fun n => resource_name vendor product serial n RAW) (raw_interface_numbers config).

Fixpoint discover_loop (ds : list D) (resources : list str) (p : Provider) : list str * Provider :=
  match ds with
  | [] => (resources, p)
  | d :: ds =>
      match lu_descriptor d (pv_world p) with
      | None => discover_loop ds resources p
      | Some (vendor, product, iSerialNumber) =>
          let config := lu_config d (pv_world p) in
          if bool_decide (inspect_device config = []) && bool_decide (raw_interface_numbers config = [])
          then discover_loop ds resources p
          else
            let '(serial, opened, _, p) := read_serial d iSerialNumber p in
            let p := close_opened opened p in
            match serial with
            | None => discover_loop ds resources p
            | Some serial => discover_loop ds (resources ++ names_of vendor product serial config) p
            end
      end
  end.

Definition discover (p : Provider) : list str * Provider :=
  let '(count, ds) := lu_device_list (pv_world p) in
  if count <? 0 then ([], p) else discover_loop ds [] p.

(** ** Hotplug *)

Inductive hotplug := device_left (d : D) | device_arrived (d : D).

(** The living connections of the device, then all of them disconnected. *)
Definition on_device_left (d : D) (p : Provider) : Provider :=
  let cs := default [] (pv_device_connections p !! d) in
  let p := with_tables (pv_connections p) (delete d (pv_device_connections p)) ({[d]} ∪ pv_departed p) p in
  foldl (fun p c =>
    match pv_heap p !! c with
    | Some x => if living x then mark_disconnected c p else p
    | None => p
    end) p cs.

Definition on_device_arrived (d : D) (p : Provider) : Provider :=
  with_tables (pv_connections p) (pv_device_connections p) (pv_departed p ∖ {[d]}) p.

Definition hotplug_callback (e : hotplug) (p : Provider) : Provider :=
  match e with device_left d => on_device_left d p | device_arrived d => on_device_arrived d p end.

(** ** Opening *)

Definition connection_identity (r : ResourceDescriptor) (d : D) (w : W) : str :=
  lit "USB#" ++ to_string (rd_usb_vendor_id r) ++ lit ":" ++ to_string (rd_usb_product_id r) ++ lit ":" ++
  rd_usb_serial_number r ++ lit ":" ++ to_string (rd_usb_interface_number r) ++ lit "#" ++
  to_string (lu_bus_number d w) ++ concat ((fun n => lit "." ++ to_string n) <$> lu_port_numbers d w) ++
  lit ":" ++ to_string (lu_device_address d w) ++ lit ":" ++ lu_pointer d.

(** The interface an open asks for. *)
Definition selected_interface (r : ResourceDescriptor) (raw : option UsbRawConfiguration) (config : option libusb_config)
  : option UsbInterfaceInfo :=
  match raw with
  | Some c => inspect_raw_device config (rd_usb_interface_number r) c
  | None =>
      snd <$> list_find (fun i => ui_interface_number i = rd_usb_interface_number r) (inspect_device config)
  end.

(** A transport is its connection and its interface. *)
Definition transport : Type := nat * UsbInterfaceInfo.

Inductive attempt :=
| skip (deferred_status : Z)
| answer (result : option transport) (status : Z).

(** The entry of [connections_]: its connection, if it lives and is connected. *)
Definition live_connection (identity : str) (p : Provider) : option (nat * Connection D) :=
  c ← pv_connections p !! identity;
  x ← pv_heap p !! c;
  if living x && cn_connected x then Some (c, x) else None.

Definition lease_live (identity : str) (a : Arbiter) : bool :=
  match leases_ a !! identity ≫= (fun i => lock_weak i a) with Some _ => true | None => false end.

(** [arbiter_.acquire]: the claim is asked for only without a living lease. *)
Definition acquire_lease (identity : str) (h : nat) (p : Provider) : option nat * Z * Provider :=
  let '(claim, p) := if lease_live identity (pv_arbiter p) then (VI_SUCCESS, p) else claim_handle h p in
  let '(lease, status, a) := acquire identity true true claim (pv_arbiter p) in
  (lease, status,
   with_arbiter a
     (if (length (pv_lease_handles p) <? length (InterfaceArbiter.heap a))%nat then pv_lease_handles p ++ [h]
      else pv_lease_handles p) p).

(** The registration of a new connection, under [mutex_]. *)
Definition register_connection (c : nat) (d : D) (identity : str) (p : Provider) : Provider :=
  let entries := filter (fun c => Is_true (match pv_heap p !! c with Some x => living x | None => false end))
                   (default [] (pv_device_connections p !! d)) in
  with_tables (<[identity := c]> (pv_connections p)) (<[d := entries ++ [c]]> (pv_device_connections p))
    (pv_departed p) p.

(** From the handle to the end of [open_impl]; [during] are the callbacks that
    come before the registration. *)
Definition open_connection (d : D) (identity : str) (selected : UsbInterfaceInfo) (h : nat)
    (during : list hotplug) (p : Provider) : attempt * Provider :=
  let p := make_handle h (u8 (ui_interface_number selected)) (ui_alternate_setting selected) p in
  let '(lease, status, p) := acquire_lease identity h p in
  match lease with
  | None => (answer None status, drop_handle h p)
  | Some i =>
      let c := length (pv_heap p) in
      let p := with_heap (pv_heap p ++ [mkConnection d h i (ui_alternate_setting selected) identity true 1]) p in
      let p := foldl (fun p e => hotplug_callback e p) p during in
      if bool_decide (d ∈ pv_departed p)
      then (answer None VI_ERROR_RSRC_NFOUND, drop_connection c (mark_disconnected c p))
      else (answer (Some (c, selected)) VI_SUCCESS, register_connection c d identity p)
  end.

(** One device of the list. *)
Definition try_device (r : ResourceDescriptor) (raw : option UsbRawConfiguration) (during : list hotplug) (d : D)
    (deferred_status : Z) (p : Provider) : attempt * Provider :=
  match lu_descriptor d (pv_world p) with
  | None => (skip deferred_status, p)
  | Some (vendor, product, iSerialNumber) =>
      if negb (vendor =? rd_usb_vendor_id r) || negb (product =? rd_usb_product_id r)
      then (skip deferred_status, p)
      else
        match selected_interface r raw (lu_config d (pv_world p)) with
        | None => (skip deferred_status, p)
        | Some selected =>
            let '(serial, opened, serial_status, p) := read_serial d iSerialNumber p in
            if negb (bool_decide (serial = Some (rd_usb_serial_number r))) then
              (skip (if serial_status =? VI_ERROR_NPERMISSION then serial_status else deferred_status),
               close_opened opened p)
            else
              let identity := connection_identity r d (pv_world p) in
              match live_connection identity p with
              | Some (c, x) =>
                  let p := close_opened opened p in
                  if negb (cn_alternate x =? ui_alternate_setting selected)
                  then (answer None VI_ERROR_RSRC_BUSY, p)
                  else (answer (Some (c, selected)) VI_SUCCESS, set_connection c (with_cn_owners (S (cn_owners x)) x) p)
              | None =>
                  let p := with_tables (delete identity (pv_connections p)) (pv_device_connections p)
                             (pv_departed p) p in
                  match opened with
                  | Some h => open_connection d identity selected h during p
                  | None =>
                      match open_device d p with
                      | (inl result, p) => (answer None (map_error result true), p)
                      | (inr h, p) => open_connection d identity selected h during p
                      end
                  end
              end
        end
  end.

Fixpoint open_loop (r : ResourceDescriptor) (raw : option UsbRawConfiguration) (during : list hotplug) (ds : list D)
    (deferred_status : Z) (p : Provider) : option transport * Z * Provider :=
  match ds with
  | [] => (None, deferred_status, p)
  | d :: ds =>
      match try_device r raw during d deferred_status p with
      | (skip deferred_status, p) => open_loop r raw during ds deferred_status p
      | (answer result status, p) => (result, status, p)
      end
  end.

Definition open_impl (r : ResourceDescriptor) (raw : option UsbRawConfiguration) (during : list hotplug)
    (p : Provider) : option transport * Z * Provider :=
  if negb (rd_interface_number r =? 0) then (None, VI_ERROR_RSRC_NFOUND, p)
  else
    let '(count, ds) := lu_device_list (pv_world p) in
    if count <? 0 then (None, map_error count true, p)
    else open_loop r raw during ds VI_ERROR_RSRC_NFOUND p.

Definition open (r : ResourceDescriptor) (during : list hotplug) (p : Provider) : option transport * Z * Provider :=
  if negb (bool_decide (rd_kind r = usb_instr)) then (None, VI_ERROR_RSRC_NFOUND, p)
  else open_impl r None during p.

Definition open_raw (r : ResourceDescriptor) (c : UsbRawConfiguration) (during : list hotplug) (p : Provider)
  : option transport * Z * Provider :=
  if negb (bool_decide (rd_kind r = usb_raw)) then (None, VI_ERROR_RSRC_NFOUND, p)
  else open_impl r (Some c) during p.

Definition open_any (r : ResourceDescriptor) (raw : option UsbRawConfiguration) (during : list hotplug)
    (p : Provider) : option transport * Z * Provider :=
  match raw with None => open r during p | Some c => open_raw r c during p end.

(** ** A provider without libusb

    When [libusb_init] fails, the provider has no runtime: it finds nothing and
    opening gives the error. *)
Inductive created :=
| no_runtime (initialization_status : Z)
| running_provider (p : Provider).

(** [LibusbRuntime::create], then the provider. *)
Definition create (init_result : Z) (w : W) : created :=
  if init_result <? 0 then no_runtime (map_error init_result true)
  else running_provider (mkProvider w [] 0 false [] ∅ ∅ ∅ no_leases []).

Definition provider_open (r : ResourceDescriptor) (raw : option UsbRawConfiguration) (during : list hotplug)
    (c : created) : option transport * Z * created :=
  match c with
  | no_runtime status =>
      let kind := match raw with None => usb_instr | Some _ => usb_raw end in
      (None, (if negb (bool_decide (rd_kind r = kind)) || negb (rd_interface_number r =? 0)
              then VI_ERROR_RSRC_NFOUND else status), c)
  | running_provider p =>
      let '(result, status, p) := open_any r raw during p in (result, status, running_provider p)
  end.

Definition provider_discover (c : created) : list str * created :=
  match c with
  | no_runtime _ => ([], c)
  | running_provider p => let '(names, p) := discover p in (names, running_provider p)
  end.

(** ** What happens to a provider *)

Inductive provider_event :=
| Discovers
| Opens (r : ResourceDescriptor) (raw : option UsbRawConfiguration) (during : list hotplug)
| Destroys (connection : nat)
| Loses (connection : nat)
| Plugs (e : hotplug)
| Changes (w : W).

Definition provider_step (e : provider_event) (p : Provider) : Provider :=
  match e with
  | Discovers => (discover p).2
  | Opens r raw during => (open_any r raw during p).2
  | Destroys c => drop_connection c p
  | Loses c => mark_disconnected c p
  | Plugs e => hotplug_callback e p
  | Changes w => with_world w p
  end.

End provider.
