(* ===== verification/LibusbProviderSafety.v ===== *)
(** * What holds of the libusb provider whatever happens to it

    An invariant of [LibusbProvider], and what discovery and opening do. *)

From stdpp Require Import sorting.
From S2P Require Import Prelude Visa CText ResourceParser ResourceManager UsbTransport LibusbDescriptors.
From S2P Require Import InterfaceArbiter LibusbProvider.

Section safety.
  Context {D W : Type} `{Countable D} `{Libusb D W}.

Abbreviation Provider := (Provider D W).

(** ** The invariant *)

(** Who refers to a handle. *)
Definition refers (p : Provider) (h : nat) : Prop :=
  (exists c x, pv_heap p !! c = Some x /\ living x = true /\ cn_handle x = h) \/
  exists i, lease_releases p i h = true.

Definition counted (x : Handle D) : bool := hd_open x && hd_counted x.

Definition count_open (l : list (Handle D)) : nat := sum_list_with (fun x => Nat.b2n (counted x)) l.

Arguments count_open : simpl never.

Definition uses_lease (i : nat) (x : Connection D) : bool := living x && Nat.eqb (cn_lease x) i.

Definition lease_users (i : nat) (l : list (Connection D)) : nat :=
  sum_list_with (fun x => Nat.b2n (uses_lease i x)) l.

(** The leases: nobody is inside the arbiter, the owners of a lease are the
    living connections that use it (up to [adj], in the middle of a call), and it
    releases one handle, while it has owners. *)
Record leases_ok (adj : nat -> Z) (p : Provider) : Prop := mkLeasesOk {
  lo_length : length (InterfaceArbiter.heap (pv_arbiter p)) = length (pv_lease_handles p);
  lo_rest : at_rest (pv_arbiter p);
  lo_lease i l : InterfaceArbiter.heap (pv_arbiter p) !! i = Some l ->
    Z.of_nat (lease_users i (pv_heap p)) = Z.of_nat (ls_owners l) + adj i /\
    copies i (held (pv_arbiter p)) = ls_owners l /\ ls_release l = negb (Nat.eqb (ls_owners l) 0);
  lo_once i j h : lease_releases p i h = true -> lease_releases p j h = true -> i = j;
  lo_connection c x : pv_heap p !! c = Some x -> living x = true ->
    is_Some (InterfaceArbiter.heap (pv_arbiter p) !! cn_lease x);
  lo_table identity i : leases_ (pv_arbiter p) !! identity = Some i ->
    is_Some (InterfaceArbiter.heap (pv_arbiter p) !! i);
  lo_held i : (0 < copies i (held (pv_arbiter p)))%nat -> is_Some (InterfaceArbiter.heap (pv_arbiter p) !! i) }.

(** [extra]: a handle of the running call, and whether it is counted. *)
Record handles_ok (extra : option (nat * bool)) (p : Provider) : Prop := mkHandlesOk {
  ho_count : pv_open_handles p = count_open (pv_handles p);
  ho_running : pv_running p = negb (Nat.eqb (pv_open_handles p) 0);
  ho_open h x : pv_handles p !! h = Some x -> hd_open x = true -> refers p h \/ exists b, extra = Some (h, b);
  ho_counted h x : pv_handles p !! h = Some x -> hd_open x = true -> extra ≠ Some (h, false) -> hd_counted x = true;
  ho_claimed h x : pv_handles p !! h = Some x ->
    hd_claimed x = true <-> exists i, lease_releases p i h = true;
  ho_refers h : refers p h -> exists x, pv_handles p !! h = Some x /\ hd_open x = true;
  ho_extra h b : extra = Some (h, b) ->
    exists x, pv_handles p !! h = Some x /\ hd_open x = true /\ hd_counted x = b;
  ho_raw h : extra = Some (h, false) -> ~ refers p h }.

(** [fresh]: a connection that is not registered yet. *)
Record connections_ok (fresh : option nat) (p : Provider) : Prop := mkConnectionsOk {
  co_connected c x : pv_heap p !! c = Some x -> living x = true -> cn_connected x = true -> fresh ≠ Some c ->
    pv_connections p !! cn_identity x = Some c /\
    (c ∈ default [] (pv_device_connections p !! cn_device x)) /\ (cn_device x ∉ pv_departed p);
  co_table identity c : pv_connections p !! identity = Some c ->
    exists x, pv_heap p !! c = Some x /\ cn_identity x = identity;
  co_devices d c : c ∈ default [] (pv_device_connections p !! d) -> is_Some (pv_heap p !! c) }.

Definition no_adj (i : nat) : Z := 0.

Record pinv (extra : option (nat * bool)) (fresh : option nat) (p : Provider) : Prop := mkPinv {
  pi_leases : leases_ok no_adj p;
  pi_handles : handles_ok extra p;
  pi_connections : connections_ok fresh p }.

(** ** Handles *)

Lemma handle_owned_refers h p :
  length (InterfaceArbiter.heap (pv_arbiter p)) = length (pv_lease_handles p) ->
  handle_owned h p = true <-> refers p h.
Proof.
  intros Hl. unfold handle_owned, refers. rewrite orb_true_iff, !existsb_exists. split.
  - intros [(x & Hx & Hb)|(i & _ & Hi)]; [left|right; by exists i].
    apply list_elem_of_In, list_elem_of_lookup_1 in Hx as [c Hc]. apply andb_prop in Hb as [? Hh%Nat.eqb_eq]. eauto.
  - intros [(c & x & Hc & Hx & <-)|[i Hi]]; [left|right].
    + exists x. split; [by eapply list_elem_of_In, list_elem_of_lookup_2|]. by rewrite Hx, Nat.eqb_refl.
    + exists i. split; [|done]. apply in_seq. unfold lease_releases in Hi.
      destruct (InterfaceArbiter.heap (pv_arbiter p) !! i) eqn:E; [|done]. apply lookup_lt_Some in E. lia.
Qed.

(** States that differ in nothing but what the handles are made of. *)
Definition same_refs (p p' : Provider) : Prop :=
  pv_heap p' = pv_heap p /\ pv_arbiter p' = pv_arbiter p /\ pv_lease_handles p' = pv_lease_handles p.

Lemma same_refs_refers p p' h : same_refs p p' -> refers p' h <-> refers p h.
Proof. intros (E1 & E2 & E3). unfold refers, lease_releases. by rewrite E1, E2, E3. Qed.

Lemma same_refs_releases p p' i h : same_refs p p' -> lease_releases p' i h = lease_releases p i h.
Proof. intros (E1 & E2 & E3). unfold lease_releases. by rewrite E2, E3. Qed.

Lemma same_refs_leases adj p p' : same_refs p p' -> leases_ok adj p -> leases_ok adj p'.
Proof.
  intros Hs [L1 L2 L3 L4 L5 L6 L7]. pose proof Hs as (E1 & E2 & E3). split; rewrite ?E1, ?E2, ?E3; try done.
  intros i j h. rewrite !(same_refs_releases p p') by done. apply L4.
Qed.

Lemma count_open_insert l h x y :
  l !! h = Some x ->
  (count_open (<[h := y]> l) + Nat.b2n (counted x) = count_open l + Nat.b2n (counted y))%nat.
Proof. intros Hx. unfold count_open. pose proof (sum_list_with_insert (fun x => Nat.b2n (counted x)) l h x y Hx). lia. Qed.

Lemma count_open_pos l h x : l !! h = Some x -> counted x = true -> (0 < count_open l)%nat.
Proof.
  intros Hx Hc. pose proof (count_open_insert l h x (mkHandle (hd_device x) false false 0 0 false) Hx) as Hi.
  rewrite Hc in Hi. unfold counted in Hi. cbn in Hi. lia.
Qed.

Lemma insert_handle (l : list (Handle D)) h x y h' x' :
  l !! h = Some x -> <[h := y]> l !! h' = Some x' -> (h' = h /\ x' = y) \/ (h' ≠ h /\ l !! h' = Some x').
Proof. intros Hx [(-> & -> & _)|[? ?]]%list_lookup_insert_Some; auto. Qed.

(** Changing one handle. *)
Lemma handles_update extra extra' p p' h x y :
  same_refs p p' -> handles_ok extra p -> pv_handles p !! h = Some x ->
  pv_handles p' = <[h := y]> (pv_handles p) ->
  pv_open_handles p' = count_open (pv_handles p') ->
  pv_running p' = negb (Nat.eqb (pv_open_handles p') 0) ->
  (forall h' b, h' ≠ h -> extra' = Some (h', b) <-> extra = Some (h', b)) ->
  (hd_open y = true -> refers p h \/ exists b, extra' = Some (h, b)) ->
  (hd_open y = true -> extra' ≠ Some (h, false) -> hd_counted y = true) ->
  (hd_claimed y = hd_claimed x) ->
  (refers p h -> hd_open y = true) ->
  (forall b, extra' = Some (h, b) -> hd_open y = true /\ hd_counted y = b) ->
  (extra' = Some (h, false) -> ~ refers p h) ->
  handles_ok extra' p'.
Proof.
  intros Hs [O1 O2 O3 O4 O5 O6 O7 O8] Hx Eh Ec Er Hother Hop Hco Hcl Hre Hex Hraw.
  assert (<[h := y]> (pv_handles p) !! h = Some y) as Hy by (by eapply list_lookup_insert_eq, lookup_lt_Some).
  split; try done; rewrite ?Eh.
  - intros h' x' Hx'. rewrite (same_refs_refers p p') by done.
    destruct (insert_handle _ h x y h' x' Hx Hx') as [[-> ->]|[Hne Hl]]; [done|]. intros Ho.
    destruct (O3 h' x' Hl Ho) as [?|[b Hb]]; [by left|right; exists b; by apply Hother].
  - intros h' x' Hx' Ho Hn. destruct (insert_handle _ h x y h' x' Hx Hx') as [[-> ->]|[Hne Hl]]; [by apply Hco|].
    apply (O4 h' x'); [done|done|]. intros E. apply Hn. by apply Hother.
  - intros h' x' Hx'. setoid_rewrite (same_refs_releases p p'); [|done].
    destruct (insert_handle _ h x y h' x' Hx Hx') as [[-> ->]|[Hne Hl]]; [rewrite Hcl|]; by apply O5.
  - intros h'. rewrite (same_refs_refers p p') by done. intros Hr. destruct (decide (h' = h)) as [->|Hne].
    + exists y. split; [done|by apply Hre].
    + destruct (O6 h' Hr) as (x' & ? & ?). exists x'. by rewrite list_lookup_insert_ne.
  - intros h' b He. destruct (decide (h' = h)) as [->|Hne].
    + exists y. destruct (Hex b He). done.
    + apply Hother in He; [|done]. destruct (O7 h' b He) as (x' & ? & ?). exists x'. by rewrite list_lookup_insert_ne.
  - intros h' He. rewrite (same_refs_refers p p') by done. destruct (decide (h' = h)) as [->|Hne]; [by apply Hraw|].
    apply O8. by apply Hother.
Qed.

Lemma handles_world extra p p' :
  same_refs p p' -> pv_handles p' = pv_handles p -> pv_open_handles p' = pv_open_handles p ->
  pv_running p' = pv_running p -> handles_ok extra p -> handles_ok extra p'.
Proof.
  intros Hs E1 E2 E3 [O1 O2 O3 O4 O5 O6 O7 O8]. split; rewrite ?E1, ?E2, ?E3; try done.
  - intros h x. rewrite (same_refs_refers p p') by done. apply O3.
  - intros h x. setoid_rewrite (same_refs_releases p p'); [|done]. apply O5.
  - intros h. rewrite (same_refs_refers p p') by done. apply O6.
  - intros h. rewrite (same_refs_refers p p') by done. apply O8.
Qed.

Lemma connections_world fresh p p' :
  pv_heap p' = pv_heap p -> pv_connections p' = pv_connections p ->
  pv_device_connections p' = pv_device_connections p -> pv_departed p' = pv_departed p ->
  connections_ok fresh p -> connections_ok fresh p'.
Proof. intros E1 E2 E3 E4 [C1 C2 C3]. split; rewrite ?E1, ?E2, ?E3, ?E4; done. Qed.

(** What leaves the connections and the leases alone. *)
Lemma pinv_handles extra extra' fresh p p' :
  same_refs p p' -> pv_connections p' = pv_connections p ->
  pv_device_connections p' = pv_device_connections p -> pv_departed p' = pv_departed p ->
  pinv extra fresh p -> handles_ok extra' p' -> pinv extra' fresh p'.
Proof.
  intros Hs E2 E3 E4 [P1 P2 P3] Hh. split; [by eapply same_refs_leases|done|].
  apply (connections_world fresh p); try done. apply Hs.
Qed.

Lemma pinv_world extra fresh w p : pinv extra fresh p -> pinv extra fresh (with_world w p).
Proof.
  intros Hp. apply (pinv_handles extra extra fresh p); try done.
  apply (handles_world extra p); try done. apply Hp.
Qed.

(** *** Opening and closing *)

Lemma open_device_ok d fresh p r p' :
  pinv None fresh p -> open_device d p = (r, p') ->
  match r with inl result => result < 0 /\ pinv None fresh p' | inr h => pinv (Some (h, false)) fresh p' end /\
  pv_heap p' = pv_heap p /\ pv_connections p' = pv_connections p /\ pv_departed p' = pv_departed p.
Proof.
  intros Hp. unfold open_device. destruct (lu_open d (pv_world p)) as [result w]. destruct (Z.ltb_spec result 0).
  { intros [= <- <-]. split; [|done]. split; [done|]. by apply pinv_world. }
  intros [= <- <-]. split; [|done]. set (h := length (pv_handles p)). set (x0 := mkHandle d true false 0 0 false).
  apply (pinv_handles None (Some (h, false)) fresh p); try done.
  destruct Hp as [_ [O1 O2 O3 O4 O5 O6 O7 O8] _].
  assert (forall h' x', (pv_handles p ++ [x0]) !! h' = Some x' -> (h' ≠ h /\ pv_handles p !! h' = Some x') \/ (h' = h /\ x' = x0)) as Hl.
  { intros h' x' [Hx|[Hge Hx]]%lookup_app_Some; [left; split; [|done]; apply lookup_lt_Some in Hx; unfold h; lia|right].
    destruct (h' - length (pv_handles p))%nat eqn:E; [|done]. split; [unfold h; lia|]. by injection Hx. }
  assert (~ refers p h) as Hnr.
  { intros Hr. destruct (O6 h Hr) as (x & Hx & _). apply lookup_lt_Some in Hx. unfold h in Hx. lia. }
  split; cbn.
  - rewrite O1. unfold count_open. rewrite sum_list_with_app. cbn. lia.
  - done.
  - intros h' x' [[Hne Hx]|[-> ->]]%Hl Ho; [|right; by exists false].
    destruct (O3 h' x' Hx Ho) as [?|[b ?]]; [by left|done].
  - intros h' x' [[Hne Hx]|[-> ->]]%Hl Ho Hn; [by eapply O4|by destruct Hn].
  - intros h' x' [[Hne Hx]|[-> ->]]%Hl; [by apply (O5 h' x')|]. split; [done|]. intros [i Hi]. destruct Hnr. right. by exists i.
  - intros h' Hr. destruct (O6 h' Hr) as (x & Hx & ?). exists x. split; [by apply lookup_app_l_Some|done].
  - intros h' b [= <- <-]. exists x0. split; [by apply list_lookup_middle|done].
  - intros h' [= <-]. exact Hnr.
Qed.

Lemma close_device_ok h fresh p : pinv (Some (h, false)) fresh p -> pinv None fresh (close_device h p).
Proof.
  intros Hp. destruct (ho_extra _ _ (pi_handles _ _ _ Hp) h false eq_refl) as (x & Hx & Ho & Hc).
  pose proof (ho_raw _ _ (pi_handles _ _ _ Hp) h eq_refl) as Hnr. unfold close_device. rewrite Hx.
  set (y := mkHandle _ _ _ _ _ _).
  apply (pinv_handles (Some (h, false)) None fresh p); try done.
  eapply (handles_update (Some (h, false)) None p _ h x y); try done.
  - apply Hp.
  - cbn. pose proof (count_open_insert (pv_handles p) h x y Hx) as Hcount.
    rewrite (ho_count _ _ (pi_handles _ _ _ Hp)). unfold counted in Hcount. cbn in Hcount. rewrite Hc, andb_false_r in Hcount.
    cbn in Hcount. lia.
  - apply Hp.
  - intros h' b Hne. split; [done|]. intros [= ->]. done.
Qed.

Lemma close_opened_ok opened fresh p :
  pinv ((fun h => (h, false)) <$> opened) fresh p -> pinv None fresh (close_opened opened p).
Proof. destruct opened as [h|]; [apply close_device_ok|done]. Qed.

Lemma read_serial_ok d n fresh p serial opened status p' :
  pinv None fresh p -> read_serial d n p = (serial, opened, status, p') ->
  pinv ((fun h => (h, false)) <$> opened) fresh p' /\
  pv_heap p' = pv_heap p /\ pv_connections p' = pv_connections p /\ pv_departed p' = pv_departed p.
Proof.
  intros Hp. unfold read_serial. destruct (n =? 0); [by intros [= <- <- <- <-]|].
  destruct (lu_device_string d (pv_world p)) as [r1 text]. destruct (_ && _); [by intros [= <- <- <- <-]|].
  destruct (open_device d p) as [[result|h] p1] eqn:E; apply (open_device_ok d fresh p) in E as [Ho Hs]; try done.
  - intros [= <- <- <- <-]. destruct Ho. done.
  - destruct (lu_string_ascii d n (pv_world p1)) as [r2 text2]. destruct (r2 <=? 0); by intros [= <- <- <- <-].
Qed.

Lemma discover_loop_ok ds : forall resources fresh p,
  pinv None fresh p -> pinv None fresh (discover_loop ds resources p).2.
Proof.
  induction ds as [|d ds IH]; intros resources fresh p Hp; [done|]. cbn.
  destruct (lu_descriptor d (pv_world p)) as [[[vendor product] n]|]; [|by apply IH].
  destruct (_ && _); [by apply IH|].
  destruct (read_serial d n p) as [[[serial opened] status] p1] eqn:E.
  destruct (read_serial_ok _ _ _ _ _ _ _ _ Hp E) as [H1 _]. apply close_opened_ok in H1.
  destruct serial; by apply IH.
Qed.

Lemma discover_ok fresh p : pinv None fresh p -> pinv None fresh (discover p).2.
Proof. intros Hp. unfold discover. destruct (lu_device_list (pv_world p)) as [count ds]. destruct (count <? 0); [done|by apply discover_loop_ok]. Qed.

(** *** The handle of a connection *)

Lemma make_handle_ok h interface alternate fresh p :
  pinv (Some (h, false)) fresh p ->
  pinv (Some (h, true)) fresh (make_handle h interface alternate p) /\ ~ refers (make_handle h interface alternate p) h /\
  exists x, pv_handles (make_handle h interface alternate p) !! h = Some x /\ hd_claimed x = false.
Proof.
  intros Hp. destruct (ho_extra _ _ (pi_handles _ _ _ Hp) h false eq_refl) as (x & Hx & Ho & Hc).
  pose proof (ho_raw _ _ (pi_handles _ _ _ Hp) h eq_refl) as Hnr. unfold make_handle. rewrite Hx.
  set (y := mkHandle _ _ _ _ _ _). set (p' := retain_handle _).
  assert (same_refs p p') as Hs by done.
  assert (hd_claimed x = false) as Hcl.
  { destruct (hd_claimed x) eqn:E; [|done]. apply (ho_claimed _ _ (pi_handles _ _ _ Hp) h x Hx) in E as [i Hi].
    destruct Hnr. right. by exists i. }
  split; [|split; [by rewrite (same_refs_refers p p')|exists y; split; [by eapply list_lookup_insert_eq, lookup_lt_Some|done]]].
  apply (pinv_handles (Some (h, false)) (Some (h, true)) fresh p); try done.
  pose proof (count_open_insert (pv_handles p) h x y Hx) as Hcount.
  pose proof (ho_count _ _ (pi_handles _ _ _ Hp)) as Hn. pose proof (ho_running _ _ (pi_handles _ _ _ Hp)) as Hr.
  unfold counted in Hcount. cbn in Hcount. rewrite Hc, Ho, andb_false_r in Hcount. cbn in Hcount.
  eapply (handles_update (Some (h, false)) (Some (h, true)) p _ h x y); try done.
  - apply Hp.
  - cbn. lia.
  - unfold p', retain_handle. cbn. rewrite Hr. by destruct (pv_open_handles p).
  - intros h' b Hne. split; intros [= -> <-]; done.
  - intros _. right. by exists true.
  - by intros b [= <-].
Qed.

(** A handle nobody refers to is not claimed, and closing it ends its count. *)
Lemma drop_handle_ok h adj p :
  leases_ok adj p -> handles_ok (Some (h, true)) p ->
  handles_ok None (drop_handle h p) /\ same_refs p (drop_handle h p) /\
  pv_connections (drop_handle h p) = pv_connections p /\
  pv_device_connections (drop_handle h p) = pv_device_connections p /\ pv_departed (drop_handle h p) = pv_departed p.
Proof.
  intros Hl Hp. destruct (ho_extra _ _ Hp h true eq_refl) as (x & Hx & Ho & Hc). unfold drop_handle.
  destruct (handle_owned h p) eqn:Hown.
  - split; [|done]. apply handle_owned_refers in Hown; [|by eapply lo_length].
    destruct Hp as [O1 O2 O3 O4 O5 O6 O7 O8]. split; try done.
    + intros h' x' Hx' Ho'. left. destruct (O3 h' x' Hx' Ho') as [?|[b [= <- <-]]]; done.
    + intros h' x' Hx' Ho' _. by apply (O4 h' x').
  - assert (~ refers p h) as Hnr.
    { intros Hr. apply handle_owned_refers in Hr; [congruence|by eapply lo_length]. }
    assert (hd_claimed x = false) as Hcl.
    { destruct (hd_claimed x) eqn:E; [|done]. apply (ho_claimed _ _ Hp h x Hx) in E as [i Hi].
      destruct Hnr. right. by exists i. }
    unfold destroy_handle, release_handle. rewrite Hx, Hcl. unfold close_handle.
    pose proof (ho_count _ _ Hp) as Hn. pose proof (ho_running _ _ Hp) as Hr.
    assert (0 < count_open (pv_handles p))%nat as Hpos by (eapply count_open_pos; [done|]; unfold counted; by rewrite Ho, Hc).
    destruct (pv_open_handles p) as [|n] eqn:En; [lia|]. unfold close_device. cbn. rewrite Hx.
    split; [|done]. set (y := mkHandle _ _ _ _ _ _).
    pose proof (count_open_insert (pv_handles p) h x y Hx) as Hcount.
    unfold counted in Hcount. cbn in Hcount. rewrite Hc, Ho in Hcount. cbn in Hcount.
    eapply (handles_update (Some (h, true)) None p _ h x y); try done; cbn.
    + lia.
    + rewrite Hr. by destruct n.
    + intros h' b Hne. split; [done|]. intros [= ->]. done.
Qed.

(** ** Leases *)

Lemma remove_one_some i l : (0 < copies i l)%nat -> exists l', remove_one i l = Some l'.
Proof.
  induction l as [|j l IH]; [by change (copies i []) with 0%nat; lia|]. rewrite copies_cons. cbn. destruct (Nat.eqb_spec i j) as [->|Hne]; [by eexists|].
  rewrite decide_False by done. intros Hp. destruct IH as [l' ->]; [lia|]. by eexists.
Qed.

(** The lease [l] after one of its owners has gone. *)
Definition owner_gone (l : Lease) : Lease :=
  match ls_owners l with
  | S O => mkLease (ls_identity l) 0 false (S (ls_calls l))
  | S n => with_owners n l
  | O => l
  end.

Lemma drop_owner_spec i l a :
  InterfaceArbiter.heap a !! i = Some l -> (0 < ls_owners l)%nat -> ls_release l = true -> (0 < copies i (held a))%nat ->
  exists hs, remove_one i (held a) = Some hs /\
    drop_owner_of i a = mkArbiter (leases_ a) (<[i := owner_gone l]> (InterfaceArbiter.heap a)) hs (threads a ++ [[]]).
Proof.
  intros Hl Ho Hr Hc. destruct (remove_one_some i (held a) Hc) as [hs Hhs]. exists hs. split; [done|].
  unfold drop_owner_of, arbiter_step at 1. rewrite Hhs. cbn [mbind option_bind].
  set (t := length (threads a)).
  assert (forall todo m h hs', threads (mkArbiter m h hs' (threads a ++ [todo])) !! t = Some todo) as Hat.
  { intros todo m h hs'. apply list_lookup_middle. done. }
  assert (forall todo todo', <[t := todo']> (threads a ++ [todo]) = threads a ++ [todo']) as Hins.
  { intros todo todo'. unfold t. rewrite insert_app_r_alt by lia. by rewrite Nat.sub_diag. }
  unfold spawn, with_threads, with_held. cbn [leases_ InterfaceArbiter.heap held threads].
  unfold owner_gone. destruct l as [id [|n] rel calls]; cbn in Ho, Hr; [lia|]. subst rel.
  cbn [finish_thread]. unfold arbiter_step at 1. rewrite Hat. cbn [run_action InterfaceArbiter.heap]. rewrite Hl.
  cbn [mbind option_bind ls_owners]. unfold InterfaceArbiter.with_heap, with_owners. cbn [leases_ InterfaceArbiter.heap held threads ls_identity ls_owners ls_release ls_calls].
  unfold with_threads. cbn [leases_ InterfaceArbiter.heap held threads]. rewrite Hins.
  destruct n as [|n]; cbn [Nat.eqb app].
  - unfold arbiter_step at 1. rewrite Hat. cbn [run_action InterfaceArbiter.heap].
    rewrite list_lookup_insert_eq by (by eapply lookup_lt_Some).
    cbn [mbind option_bind ls_release]. unfold InterfaceArbiter.with_heap, with_threads. cbn [leases_ InterfaceArbiter.heap held threads ls_identity ls_owners ls_release ls_calls app].
    rewrite Hins, list_insert_insert_eq.
    unfold arbiter_step at 1. rewrite Hat. cbn [run_action InterfaceArbiter.heap].
    rewrite list_lookup_insert_eq by (by eapply lookup_lt_Some).
    cbn [mbind option_bind ls_release]. unfold InterfaceArbiter.with_heap, with_threads. cbn [leases_ InterfaceArbiter.heap held threads ls_identity ls_owners ls_release ls_calls app].
    by rewrite Hins, list_insert_insert_eq.
  - unfold arbiter_step at 1. by rewrite Hat.
Qed.

(** *** Claims *)

Lemma set_claimed_id h x (p : Provider) : pv_handles p !! h = Some x -> set_claimed h (hd_claimed x) p = p.
Proof.
  intros Hx. unfold set_claimed, set_handle, with_handles. rewrite Hx.
  rewrite list_insert_id; [by destruct p|]. by destruct x.
Qed.

Lemma set_claimed_set h b b' x (p : Provider) :
  pv_handles p !! h = Some x -> set_claimed h b (set_claimed h b' p) = set_claimed h b p.
Proof.
  intros Hx. unfold set_claimed at 2. rewrite Hx. unfold set_claimed. rewrite Hx. cbn.
  rewrite list_lookup_insert_eq by (by eapply lookup_lt_Some). unfold set_handle, with_handles. cbn.
  by rewrite list_insert_insert_eq.
Qed.

(** The interface is claimed exactly when the claim succeeds. *)
Lemma claim_handle_spec h x (p : Provider) :
  pv_handles p !! h = Some x -> hd_claimed x = false ->
  exists status w, claim_handle h p = (status, set_claimed h (status =? VI_SUCCESS) (with_world w p)) /\
    (status = VI_SUCCESS \/ status < VI_SUCCESS).
Proof.
  intros Hx Hc.
  assert (forall w, pv_handles (with_world w p) !! h = Some x) as Hw by done.
  assert (forall w, with_world w p = set_claimed h false (with_world w p)) as Hid.
  { intros w. rewrite <- Hc. symmetry. by apply set_claimed_id. }
  assert (forall result w, result < 0 -> exists status w', 
    (map_error result true, with_world w p) = (status, set_claimed h (status =? VI_SUCCESS) (with_world w' p)) /\
    (status = VI_SUCCESS \/ status < VI_SUCCESS)) as Hfail.
  { intros result w Hr. pose proof (map_error_negative result true) as Hn. exists (map_error result true), w.
    rewrite (proj2 (Z.eqb_neq _ _)) by (unfold VI_SUCCESS in *; lia). rewrite <- Hid. split; [done|]. right. apply Hn. lia. }
  unfold claim_handle. rewrite Hx. destruct (lu_set_auto_detach _ _) as [detach w1].
  destruct (_ && _) eqn:Hd; [apply Hfail; lia|]. cbn [pv_world with_world].
  destruct (lu_claim _ _ _) as [result w2]. destruct (Z.ltb_spec result 0) as [Hneg|_].
  { by apply (Hfail result w2). }
  change (with_world w2 (with_world w1 p)) with (with_world w2 p).
  destruct (hd_alternate x =? 0).
  { exists VI_SUCCESS, w2. split; [done|by left]. }
  assert (forall w b, set_claimed h b (with_world w p) = with_world w (set_claimed h b p)) as Hcomm.
  { intros w b. unfold set_claimed. cbn. by rewrite Hx. }
  replace (pv_world (set_claimed h true (with_world w2 p))) with w2 by (rewrite Hcomm; reflexivity).
  destruct (lu_set_alt_setting _ _ _ _) as [r3 w3]. destruct (Z.ltb_spec r3 0) as [Hneg|_].
  - pose proof (map_error_negative r3 true ltac:(lia)) as Hn.
    assert (exists w4, release_handle h (with_world w3 (set_claimed h true (with_world w2 p))) =
      set_claimed h false (with_world w4 p)) as [w4 E].
    { unfold release_handle. cbn. rewrite Hcomm. cbn. unfold set_claimed at 1. rewrite Hx. cbn.
      rewrite list_lookup_insert_eq by (by eapply lookup_lt_Some). cbn. eexists.
      unfold set_claimed. cbn. rewrite Hx. cbn. rewrite list_lookup_insert_eq by (by eapply lookup_lt_Some).
      unfold set_handle, with_handles, with_world. cbn. by rewrite list_insert_insert_eq. }
    exists (map_error r3 true), w4. rewrite E. rewrite (proj2 (Z.eqb_neq _ _)) by (unfold VI_SUCCESS in *; lia). auto.
  - exists VI_SUCCESS, w3. split; [by rewrite !Hcomm|by left].
Qed.

(** The users of a lease. *)
Lemma lease_users_insert i l c (x y : Connection D) :
  l !! c = Some x ->
  (lease_users i (<[c := y]> l) + Nat.b2n (uses_lease i x) = lease_users i l + Nat.b2n (uses_lease i y))%nat.
Proof.
  intros Hx. unfold lease_users. pose proof (sum_list_with_insert (fun x => Nat.b2n (uses_lease i x)) l c x y Hx). lia.
Qed.

Lemma lease_users_snoc i l (x : Connection D) : lease_users i (l ++ [x]) = (lease_users i l + Nat.b2n (uses_lease i x))%nat.
Proof. unfold lease_users. rewrite sum_list_with_app. cbn. lia. Qed.

Lemma uses_lease_spec i (x : Connection D) : living x = true -> Nat.b2n (uses_lease i x) = if decide (cn_lease x = i) then 1%nat else 0%nat.
Proof. intros Hl. unfold uses_lease. rewrite Hl. cbn. case_decide as E; [by rewrite E, Nat.eqb_refl|]. by rewrite (proj2 (Nat.eqb_neq _ _) E). Qed.
Arguments lease_users : simpl never.

Lemma insert_handle_gen {A} (l : list A) i x y j z :
  l !! i = Some x -> <[i := y]> l !! j = Some z -> (j = i /\ z = y) \/ (j ≠ i /\ l !! j = Some z).
Proof. intros Hx [(-> & -> & _)|[? ?]]%list_lookup_insert_Some; auto. Qed.

(** *** A new connection *)

Lemma insert_lookup_some {A} (l : list A) i x j : is_Some (<[i := x]> l !! j) <-> is_Some (l !! j).
Proof. rewrite !lookup_lt_is_Some. by rewrite length_insert. Qed.

Lemma lease_live_some identity a :
  lease_live identity a = true <-> exists i l, leases_ a !! identity = Some i /\
    InterfaceArbiter.heap a !! i = Some l /\ (0 < ls_owners l)%nat.
Proof.
  unfold lease_live. destruct (leases_ a !! identity) as [i|]; cbn; [|split; [done|by intros (? & ? & ? & _)]].
  unfold lock_weak. destruct (InterfaceArbiter.heap a !! i) as [l|] eqn:El; cbn.
  - destruct (Nat.eqb_spec (ls_owners l) 0) as [E|E].
    + split; [done|]. intros (i' & l' & [= <-] & Hl & Ho). rewrite El in Hl. injection Hl as <-. lia.
    + split; [|done]. intros _. exists i, l. split; [done|]. split; [done|lia].
  - split; [done|]. intros (i' & l' & [= <-] & Hl & _). congruence.
Qed.

Lemma lease_users_none i (l : list (Connection D)) :
  (forall c x, l !! c = Some x -> living x = true -> cn_lease x ≠ i) -> lease_users i l = 0%nat.
Proof.
  unfold lease_users. induction l as [|x l IH]; intros Hn; [done|]. cbn. rewrite IH by (intros c; apply (Hn (S c))).
  unfold uses_lease. destruct (living x) eqn:E; [|done]. cbn. by rewrite (proj2 (Nat.eqb_neq _ _) (Hn 0%nat x eq_refl E)).
Qed.

(** The new connection refers to its handle. *)
Lemma refers_snoc (p1 : Provider) x h :
  living x = true ->
  refers (with_heap (pv_heap p1 ++ [x]) p1) h <-> refers p1 h \/ h = cn_handle x.
Proof.
  intros Hx. unfold refers. split.
  - intros [(c & y & Hc & Hy & Hh)|Hr]; [|left; right; exact Hr]. cbn in Hc.
    apply lookup_app_Some in Hc as [Hc|[_ Hc]]; [left; left; by exists c, y|right].
    by destruct (_ - _)%nat in Hc; simplify_eq/=.
  - intros [[(c & y & Hc & Hy & Hh)|Hr]| ->]; [|right; exact Hr|].
    + left. exists c, y. split; [by apply lookup_app_l_Some|done].
    + left. exists (length (pv_heap p1)), x. split; [by apply list_lookup_middle|done].
Qed.

(** With the handle of the call referred to by a new connection, the call no
    longer has one of its own. *)
Lemma handles_connect h x (p1 : Provider) :
  living x = true -> cn_handle x = h ->
  handles_ok (Some (h, true)) p1 -> handles_ok None (with_heap (pv_heap p1 ++ [x]) p1).
Proof.
  intros Hx Hh [O1 O2 O3 O4 O5 O6 O7 O8]. split; try done; cbn.
  - intros h' x' Hx' Ho. left. apply refers_snoc; [done|]. destruct (O3 h' x' Hx' Ho) as [?|[b [= <- <-]]]; [by left|by right].
  - intros h' x' Hx' Ho _. by apply (O4 h' x').
  - intros h' [Hr| ->]%refers_snoc; [by apply O6| |done]. rewrite Hh.
    destruct (O7 h true eq_refl) as (y & ? & ? & _). by exists y.
Qed.

(** The connection is counted by its lease. *)
Lemma leases_connect x (p1 : Provider) :
  living x = true -> is_Some (InterfaceArbiter.heap (pv_arbiter p1) !! cn_lease x) ->
  leases_ok (fun j => if decide (cn_lease x = j) then -1 else 0) p1 ->
  leases_ok no_adj (with_heap (pv_heap p1 ++ [x]) p1).
Proof.
  intros Hx Hl [L1 L2 L3 L4 L5 L6 L7]. split; try done; cbn.
  - intros i l Hi. destruct (L3 i l Hi) as (Hu & Hc). split; [|done]. rewrite lease_users_snoc.
    rewrite uses_lease_spec by done. unfold no_adj. destruct (decide (cn_lease x = i)); lia.
  - intros c y [Hc|[_ Hc]]%lookup_app_Some Hy; [by eapply L5|]. by destruct (_ - _)%nat in Hc; simplify_eq/=.
Qed.

Lemma connections_connect x (p1 : Provider) :
  connections_ok None p1 -> connections_ok (Some (length (pv_heap p1))) (with_heap (pv_heap p1 ++ [x]) p1).
Proof.
  intros [C1 C2 C3]. split; cbn.
  - intros c y [Hc|[Hge Hc]]%lookup_app_Some Hl Hconn Hf; [by apply C1|]. destruct Hf.
    destruct (c - length (pv_heap p1))%nat eqn:E; [|done]. f_equal. lia.
  - intros identity c Hc. destruct (C2 identity c Hc) as (y & ? & ?). exists y. split; [by apply lookup_app_l_Some|done].
  - intros d c Hc. destruct (C3 d c Hc) as [y ?]. exists y. by apply lookup_app_l_Some.
Qed.

(** What the arbiter keeps for itself does not matter to the handles. *)
Lemma handles_ok_arbiter p0 p1 extra :
  pv_handles p1 = pv_handles p0 -> pv_open_handles p1 = pv_open_handles p0 -> pv_running p1 = pv_running p0 ->
  pv_heap p1 = pv_heap p0 -> pv_lease_handles p1 = pv_lease_handles p0 ->
  InterfaceArbiter.heap (pv_arbiter p1) = InterfaceArbiter.heap (pv_arbiter p0) ->
  handles_ok extra p0 -> handles_ok extra p1.
Proof.
  intros E1 E2 E3 E4 E5 E6 [O1 O2 O3 O4 O5 O6 O7 O8].
  assert (forall i h, lease_releases p1 i h = lease_releases p0 i h) as Hrel
    by (intros i h; unfold lease_releases; by rewrite E5, E6).
  assert (forall h, refers p1 h <-> refers p0 h) as Href by (intros h; unfold refers; setoid_rewrite Hrel; by rewrite E4).
  split; rewrite ?E1, ?E2, ?E3; try done.
  - intros h x. rewrite Href. apply O3.
  - intros h x. setoid_rewrite Hrel. apply O5.
  - intros h. rewrite Href. apply O6.
  - intros h. rewrite Href. apply O8.
Qed.

(** What the arbiter gives: a living lease, shared; or a new one for a claim. *)
Lemma acquire_lease_ok identity h fresh p lease status p1 :
  pinv (Some (h, true)) fresh p -> ~ refers p h -> identity ≠ [] ->
  (exists x, pv_handles p !! h = Some x /\ hd_claimed x = false) ->
  acquire_lease identity h p = (lease, status, p1) ->
  connections_ok fresh p1 /\ handles_ok (Some (h, true)) p1 /\
  pv_heap p1 = pv_heap p /\ pv_connections p1 = pv_connections p /\ pv_departed p1 = pv_departed p /\
  match lease with
  | None => status < VI_SUCCESS /\ leases_ok no_adj p1
  | Some i => status = VI_SUCCESS /\ is_Some (InterfaceArbiter.heap (pv_arbiter p1) !! i) /\
      leases_ok (fun j => if decide (i = j) then -1 else 0) p1
  end.
Proof.
  intros [Hl Hh Hc] Hnr Hid (x & Hx & Hcl). unfold acquire_lease.
  pose proof Hl as [L1 L2 L3 L4 L5 L6 L7]. destruct (lease_live identity (pv_arbiter p)) eqn:Hlive.
  - apply lease_live_some in Hlive as (i & l & Hi & Hil & Ho). unfold acquire.
    rewrite bool_decide_false by done. cbn [orb negb]. rewrite Hi. cbn [mbind option_bind].
    unfold lock_weak. rewrite Hil. cbn [mbind option_bind]. rewrite (proj2 (Nat.eqb_neq _ _)) by lia.
    cbn [fmap option_fmap option_map]. unfold InterfaceArbiter.with_heap, with_held. cbn [InterfaceArbiter.heap leases_ held threads].
    rewrite length_insert, L1, Nat.ltb_irrefl. intros [= <- <- <-].
    set (p1 := with_arbiter _ _ _).
    assert (forall j h', lease_releases p1 j h' = lease_releases p j h') as Hrel.
    { intros j h'. unfold lease_releases, p1. cbn. destruct (decide (j = i)) as [->|Hne].
      - rewrite list_lookup_insert_eq by (by eapply lookup_lt_Some). by rewrite Hil.
      - by rewrite list_lookup_insert_ne. }
    assert (forall h', refers p1 h' <-> refers p h') as Href.
    { intros h'. unfold refers. setoid_rewrite Hrel. done. }
    split; [by apply (connections_world fresh p)|]. split.
    { destruct Hh as [O1 O2 O3 O4 O5 O6 O7 O8]. split; try done.
      - intros h' x' ??. rewrite Href. by apply (O3 h' x').
      - intros h' x' ?. setoid_rewrite Hrel. by apply O5.
      - intros h'. rewrite Href. apply O6. }
    split; [done|]. split; [done|]. split; [done|]. split; [done|]. split; [by apply insert_lookup_some|].
    split; cbn.
    + by rewrite length_insert.
    + done.
    + intros j l' Hj. rewrite copies_cons. destruct (insert_handle_gen _ _ _ _ _ _ Hil Hj) as [[-> ->]|[Hne Hj']].
      * destruct (L3 i l Hil) as (Hu & Hco & Hr). unfold no_adj in Hu. cbn. rewrite !decide_True by done.
        split; [lia|]. split; [lia|]. rewrite Hr. destruct (ls_owners l); [lia|done].
      * destruct (L3 j l' Hj') as (Hu & Hco & Hr). unfold no_adj in Hu. rewrite !decide_False by done. split; [lia|]. by split.
    + intros j j' h'. rewrite !Hrel. apply L4.
    + intros c y Hc' Hy. apply insert_lookup_some. by eapply L5.
    + intros id j Hj. apply insert_lookup_some. by eapply L6.
    + intros j. rewrite copies_cons. intros Hj. apply insert_lookup_some. case_decide as E; [subst j; by eexists|].
      apply L7. lia.
  - destruct (claim_handle_spec h x p Hx Hcl) as (st & w & -> & Hst).
    set (p0 := set_claimed h (st =? VI_SUCCESS) (with_world w p)).
    assert (same_refs p p0) as Hs by (unfold p0, set_claimed; cbn; by rewrite Hx).
    assert (pv_connections p0 = pv_connections p /\ pv_device_connections p0 = pv_device_connections p /\
      pv_departed p0 = pv_departed p /\ pv_open_handles p0 = pv_open_handles p /\ pv_running p0 = pv_running p)
      as (E1 & E2 & E3 & E4 & E5) by (unfold p0, set_claimed; cbn; by rewrite Hx).
    set (y := mkHandle (hd_device x) (hd_open x) (hd_counted x) (hd_interface x) (hd_alternate x) (st =? VI_SUCCESS)).
    assert (pv_handles p0 = <[h := y]> (pv_handles p)) as E6 by (unfold p0, set_claimed; cbn; by rewrite Hx).
    pose proof Hs as (Eh & Ea & El).
    unfold acquire. rewrite bool_decide_false by done. cbn [orb negb]. rewrite Ea.
    assert (leases_ (pv_arbiter p) !! identity ≫= (fun i => (fun a' => (i, a')) <$> lock_weak i (pv_arbiter p)) = None) as ->.
    { unfold lease_live in Hlive. destruct (leases_ (pv_arbiter p) !! identity) as [i|]; [|done]. cbn in *.
      by destruct (lock_weak i (pv_arbiter p)). }
    set (a1 := with_leases (delete identity (leases_ (pv_arbiter p))) (pv_arbiter p)).
    assert (count_open (pv_handles p0) = count_open (pv_handles p)) as Ecount.
    { rewrite E6. pose proof (count_open_insert (pv_handles p) h x y Hx) as Hco. unfold counted in Hco. cbn in Hco. lia. }
    destruct (Z.ltb_spec st VI_SUCCESS) as [Hneg|Hpos].
    + cbn [InterfaceArbiter.heap with_leases a1]. rewrite El, L1, Nat.ltb_irrefl. intros [= <- <- <-].
      assert ((st =? VI_SUCCESS) = false) as Hf by (apply Z.eqb_neq; lia).
      split; [by apply (connections_world fresh p)|]. split; [|split; [by rewrite <- Eh|split; [done|split; [done|split; [done|]]]]].
      * apply (handles_ok_arbiter p0); try done; [cbn; by rewrite Ea|].
        eapply (handles_update (Some (h, true)) (Some (h, true)) p p0 h x y); try done.
        -- rewrite E4, Ecount. apply Hh.
        -- rewrite E5, E4. apply Hh.
        -- intros _. right. by exists true.
        -- intros _ _. by destruct (ho_extra _ _ Hh h true eq_refl) as (x' & ? & ? & ?); simplify_eq.
        -- cbn. by rewrite Hcl, Hf.
        -- intros b [= <-]. by destruct (ho_extra _ _ Hh h true eq_refl) as (x' & ? & ? & ?); simplify_eq.
      * split; cbn; rewrite ?Eh, ?El; try done. intros id j [? Hj]%lookup_delete_Some. by eapply L6.
    + assert (st = VI_SUCCESS) as -> by lia. cbn [InterfaceArbiter.heap]. rewrite length_app, El. cbn [length].
      remember (length (InterfaceArbiter.heap a1)) as n eqn:Hn.
      change (length (InterfaceArbiter.heap a1)) with (length (InterfaceArbiter.heap (pv_arbiter p))) in Hn.
      rewrite L1 in Hn. assert ((length (pv_lease_handles p) <? n + 1)%nat = true) as -> by (apply Nat.ltb_lt; lia).
      intros [= <- <- <-]. set (p1 := with_arbiter _ _ _).
      assert (forall j h', lease_releases p1 j h' = true <-> lease_releases p j h' = true \/ (j = n /\ h' = h)) as Hrel.
      { intros j h'. unfold lease_releases, p1. cbn. rewrite Hn.
        destruct (Nat.lt_total j (length (pv_lease_handles p))) as [Hlt|[->|Hgt]].
        - rewrite !lookup_app_l by lia. split; [by left|intros [?|[? _]]; [done|lia]].
        - rewrite (list_lookup_middle _ _ _ (length (pv_lease_handles p)) (eq_sym L1)),
            (list_lookup_middle _ _ _ _ eq_refl).
          rewrite lookup_ge_None_2 by lia. cbn. rewrite Nat.eqb_eq. naive_solver.
        - rewrite !lookup_ge_None_2 by (rewrite ?length_app; cbn; lia). split; [done|intros [?|[? _]]; [done|lia]]. }
      assert (forall h', refers p1 h' <-> refers p h' \/ h' = h) as Href.
      { intros h'. unfold refers. setoid_rewrite Hrel. unfold p1. cbn [pv_heap with_arbiter]. rewrite Eh. naive_solver. }
      split; [by apply (connections_world fresh p)|]. split; [|split; [exact Eh|split; [done|split; [done|split; [done|split]]]]].
      * destruct Hh as [O1 O2 O3 O4 O5 O6 O7 O8]. 
        assert (pv_open_handles p1 = pv_open_handles p /\ pv_running p1 = pv_running p /\
          pv_handles p1 = <[h := y]> (pv_handles p)) as (F1 & F2 & F3) by done.
        split; rewrite ?F1, ?F2, ?F3.
        -- rewrite <- E6, Ecount. exact O1.
        -- exact O2.
        -- intros h' x' Hx' Ho. rewrite Href.
           destruct (insert_handle _ h x y h' x' Hx Hx') as [[-> ->]|[Hne Hx0]]; [by left; right|].
           destruct (O3 h' x' Hx0 Ho) as [?|[b ?]]; [by left; left|right; by exists b].
        -- intros h' x' Hx' Ho Hex.
           destruct (insert_handle _ h x y h' x' Hx Hx') as [[-> ->]|[Hne Hx0]]; [|by apply (O4 h' x')].
           by apply (O4 h x Hx).
        -- intros h' x' Hx'. setoid_rewrite Hrel.
           destruct (insert_handle _ h x y h' x' Hx Hx') as [[-> ->]|[Hne Hx0]].
           ++ split; [|done]. intros _. exists n. by right.
           ++ rewrite (O5 h' x' Hx0). split; intros [j Hj]; exists j; [by left|by destruct Hj as [?|[_ ?]]].
        -- intros h' Hr. apply Href in Hr. destruct (decide (h' = h)) as [->|Hne].
           ++ exists y. split; [by eapply list_lookup_insert_eq, lookup_lt_Some|].
              by destruct (O7 h true eq_refl) as (x' & ? & ? & ?); simplify_eq.
           ++ destruct Hr as [Hr|?]; [|done]. destruct (O6 h' Hr) as (x' & ? & ?). exists x'.
              by rewrite list_lookup_insert_ne.
        -- intros h' b [= <- <-]. exists y. split; [by eapply list_lookup_insert_eq, lookup_lt_Some|].
           by destruct (O7 h true eq_refl) as (x' & ? & ? & ?); simplify_eq.
        -- done.
      * cbn. apply lookup_lt_is_Some. rewrite length_app. cbn. lia.
      * split; unfold p1; cbn [pv_arbiter pv_lease_handles pv_heap with_arbiter leases_ InterfaceArbiter.heap held threads].
        -- rewrite !length_app. cbn. lia.
        -- done.
        -- intros j l' Hj. rewrite Eh. apply lookup_app_Some in Hj as [Hj|[Hge Hj]].
           ++ destruct (L3 j l' Hj) as (Hu & Hco & Hr). unfold no_adj in Hu. apply lookup_lt_Some in Hj.
              rewrite copies_cons, !decide_False by (cbn in *; lia). split; [lia|]. by split.
           ++ apply list_lookup_singleton_Some in Hj as [Ej <-].
              assert (j = n) as -> by (cbn in *; lia). cbn. rewrite copies_cons, !decide_True by done.
              assert (copies n (held (pv_arbiter p)) = 0%nat) as ->.
              { destruct (copies n (held (pv_arbiter p))) eqn:Ec; [done|].
                destruct (L7 n ltac:(lia)) as [? Hlt%lookup_lt_Some]. lia. }
              rewrite lease_users_none; [done|]. intros c z Hz Hliv E. destruct (L5 c z Hz Hliv) as [? Hlt%lookup_lt_Some].
              rewrite E in Hlt. lia.
        -- intros j j' h' Hj Hj'. apply Hrel in Hj, Hj'.
           destruct Hj as [Hj|[-> ->]], Hj' as [Hj'|[-> E]]; [by eapply L4| |destruct Hnr; right; by exists j'|done].
           subst h'. destruct Hnr. right. by exists j.
        -- intros c z Hz Hliv. rewrite Eh in Hz. destruct (L5 c z Hz Hliv) as [l' Hl']. exists l'. by apply lookup_app_l_Some.
        -- intros id j [[<- <-]|[_ [_ Hj]%lookup_delete_Some]]%lookup_insert_Some.
           ++ apply lookup_lt_is_Some. rewrite length_app. cbn. lia.
           ++ destruct (L6 id j Hj) as [l' Hl']. exists l'. by apply lookup_app_l_Some.
        -- intros j. rewrite copies_cons. case_decide as E; intros Hj.
           ++ apply lookup_lt_is_Some. rewrite length_app. cbn. lia.
           ++ destruct (L7 j ltac:(cbn in Hj; lia)) as [l' Hl']. exists l'. by apply lookup_app_l_Some.
Qed.

(** *** Connections that go *)

(** Connections that stay as they are for handles and leases. *)
Lemma update_connection_refs c x y (p : Provider) :
  pv_heap p !! c = Some x -> living y = living x -> cn_handle y = cn_handle x -> cn_lease y = cn_lease x ->
  (forall h, refers (set_connection c y p) h <-> refers p h) /\
  (forall i, lease_users i (pv_heap (set_connection c y p)) = lease_users i (pv_heap p)).
Proof.
  intros Hx Hl Hh Hle. split.
  - intros h. unfold refers. apply or_iff_compat_r. cbn. split.
    + intros (c' & z & Hz & Hzl & Hzh). destruct (insert_handle_gen _ _ _ _ _ _ Hx Hz) as [[-> ->]|[Hne Hz']].
      * exists c, x. by rewrite <- Hl, <- Hh.
      * by exists c', z.
    + intros (c' & z & Hz & Hzl & Hzh). destruct (decide (c' = c)) as [->|Hne].
      * exists c, y. rewrite list_lookup_insert_eq by (by eapply lookup_lt_Some).
        assert (z = x) as -> by congruence. by rewrite Hl, Hh.
      * exists c', z. by rewrite list_lookup_insert_ne.
  - intros i. cbn. pose proof (lease_users_insert i (pv_heap p) c x y Hx) as Hu.
    unfold uses_lease in Hu. rewrite Hl, Hle in Hu. lia.
Qed.

Lemma handles_refs extra (p p' : Provider) :
  pv_handles p' = pv_handles p -> pv_open_handles p' = pv_open_handles p -> pv_running p' = pv_running p ->
  (forall h, refers p' h <-> refers p h) -> (forall i h, lease_releases p' i h = lease_releases p i h) ->
  handles_ok extra p -> handles_ok extra p'.
Proof.
  intros E1 E2 E3 Hr Hl [O1 O2 O3 O4 O5 O6 O7 O8]. split; rewrite ?E1, ?E2, ?E3; try done.
  - intros h x. rewrite Hr. apply O3.
  - intros h x. setoid_rewrite Hl. apply O5.
  - intros h. rewrite Hr. apply O6.
  - intros h. rewrite Hr. apply O8.
Qed.

Lemma leases_update c x y adj (p : Provider) :
  pv_heap p !! c = Some x -> living y = living x -> cn_handle y = cn_handle x -> cn_lease y = cn_lease x ->
  leases_ok adj p -> leases_ok adj (set_connection c y p).
Proof.
  intros Hx Hl Hh Hle Hok. destruct (update_connection_refs c x y p Hx Hl Hh Hle) as [_ Hu].
  destruct Hok as [L1 L2 L3 L4 L5 L6 L7]. split; try done.
  - intros i l Hi. rewrite Hu. by apply L3.
  - intros c' z Hz Hzl. destruct (insert_handle_gen _ _ _ _ _ _ Hx Hz) as [[-> ->]|[Hne Hz']]; [|by eapply L5].
    rewrite Hle. eapply L5; [exact Hx|]. by rewrite <- Hl.
Qed.

Lemma connections_update fresh c x y (p : Provider) :
  pv_heap p !! c = Some x -> (cn_connected y = true -> cn_connected x = true) ->
  (living y = true -> living x = true) -> cn_device y = cn_device x -> cn_identity y = cn_identity x ->
  connections_ok fresh p -> connections_ok fresh (set_connection c y p).
Proof.
  intros Hx Hc Hl Hd Hi [C1 C2 C3]. split; cbn.
  - intros c' z Hz Hzl Hzc Hf. destruct (insert_handle_gen _ _ _ _ _ _ Hx Hz) as [[-> ->]|[Hne Hz']]; [|by apply C1].
    rewrite Hd, Hi. apply C1; auto.
  - intros id c' Hc'. destruct (C2 id c' Hc') as (z & Hz & Hzi). destruct (decide (c' = c)) as [->|Hne].
    + exists y. rewrite list_lookup_insert_eq by (by eapply lookup_lt_Some). split; [done|congruence].
    + exists z. by rewrite list_lookup_insert_ne.
  - intros d c' Hc'. apply insert_lookup_some. by eapply C3.
Qed.

Lemma mark_disconnected_ok c extra fresh (p : Provider) : pinv extra fresh p -> pinv extra fresh (mark_disconnected c p).
Proof.
  intros [Hl Hh Hc]. unfold mark_disconnected. destruct (pv_heap p !! c) as [x|] eqn:Hx; [|done].
  set (y := mkConnection _ _ _ _ _ _ _). destruct (update_connection_refs c x y p Hx) as [Hr _]; try done. split.
  - by apply (leases_update c x y).
  - by apply (handles_refs extra p).
  - by apply (connections_update fresh c x y).
Qed.

(** The owner of a lease goes, and with the last one the claim and, if nothing
    else refers to it, the handle. *)
Lemma drop_lease_ok i l fresh (p : Provider) :
  pinv None fresh p -> InterfaceArbiter.heap (pv_arbiter p) !! i = Some l -> (0 < ls_owners l)%nat ->
  leases_ok (fun j => if decide (i = j) then 1 else 0) (drop_lease i p) /\
  handles_ok None (drop_lease i p) /\ connections_ok fresh (drop_lease i p) /\
  pv_heap (drop_lease i p) = pv_heap p.
Proof.
  intros [Hl Hh Hc] Hil Ho. pose proof Hl as [L1 L2 L3 L4 L5 L6 L7].
  destruct (L3 i l Hil) as (Hu & Hco & Hr). unfold no_adj in Hu.
  assert (ls_release l = true) as Hrel by (rewrite Hr; destruct (ls_owners l); [lia|done]).
  destruct (drop_owner_spec i l (pv_arbiter p) Hil Ho Hrel ltac:(lia)) as (hs & Hhs & Ea).
  unfold drop_lease. rewrite Ea. set (a := mkArbiter _ _ _ _).
  assert (length (pv_lease_handles p) > i)%nat as Hlen by (rewrite <- L1; by eapply lookup_lt_Some).
  destruct (lookup_lt_is_Some_2 (pv_lease_handles p) i Hlen) as [h Hih].
  set (p1 := with_arbiter a (pv_lease_handles p) p).
  assert (leases_ok (fun j => if decide (i = j) then 1 else 0) p1) as Hl1.
  { split; cbn.
    - by rewrite length_insert.
    - unfold at_rest. apply Forall_app. split; [done|by constructor].
    - intros j l' Hj. pose proof (remove_one_copies i _ _ Hhs j) as Hcj.
      destruct (insert_handle_gen _ _ _ _ _ _ Hil Hj) as [[-> ->]|[Hne Hj']].
      + rewrite decide_True in Hcj by done. rewrite decide_True by done. unfold owner_gone.
        destruct (ls_owners l) as [|[|n]] eqn:En; [lia| |]; cbn in *; (split; [lia|]); (split; [lia|done]).
      + rewrite decide_False in Hcj by done. rewrite decide_False by done.
        destruct (L3 j l' Hj') as (Hu' & Hco' & Hr'). unfold no_adj in Hu'. split; [lia|]. split; [lia|done].
    - assert (forall j h', lease_releases p1 j h' = true -> lease_releases p j h' = true) as Hmono.
      { intros j h'. unfold lease_releases. cbn. destruct (decide (j = i)) as [->|Hne].
        - rewrite list_lookup_insert_eq by (by eapply lookup_lt_Some). rewrite Hil, Hih, Hrel.
          by intros [_ ?]%andb_prop.
        - by rewrite list_lookup_insert_ne. }
      intros j j' h' Hj%Hmono Hj'%Hmono. by eapply L4.
    - intros c x Hx Hxl. apply insert_lookup_some. by eapply L5.
    - intros id j Hj. apply insert_lookup_some. by eapply L6.
    - intros j Hj. apply insert_lookup_some, L7. pose proof (remove_one_copies i _ _ Hhs j) as Hcj. lia. }
  assert (still_releases i (pv_arbiter p) = true) as -> by (unfold still_releases; by rewrite Hil).
  assert (still_releases i a = ls_release (owner_gone l)) as ->.
  { unfold still_releases, a. cbn. by rewrite list_lookup_insert_eq by (by eapply lookup_lt_Some). }
  cbn [andb]. change (pv_lease_handles p1) with (pv_lease_handles p). destruct (ls_release (owner_gone l)) eqn:Eg; cbn [negb].
  - split; [done|]. split; [|by split; [apply (connections_world fresh p)|]].
    assert (forall j h', lease_releases p1 j h' = lease_releases p j h') as Hsame.
    { intros j h'. unfold lease_releases. cbn. destruct (decide (j = i)) as [->|Hne]; [|by rewrite list_lookup_insert_ne].
      rewrite list_lookup_insert_eq by (by eapply lookup_lt_Some). by rewrite Hil, Eg, Hrel. }
    apply (handles_refs None p); try done. intros h'. unfold refers. by setoid_rewrite Hsame.
  - rewrite Hih.
    assert (forall j h', lease_releases p1 j h' = true <-> lease_releases p j h' = true /\ j ≠ i) as Hrel1.
    { intros j h'. unfold lease_releases. cbn. destruct (decide (j = i)) as [->|Hne].
      - rewrite list_lookup_insert_eq by (by eapply lookup_lt_Some). rewrite Hih, Eg. cbn. split; [done|by intros [_ ?]].
      - rewrite list_lookup_insert_ne by done. tauto. }
    assert (lease_releases p i h = true) as Hih' by (unfold lease_releases; by rewrite Hil, Hih, Hrel, Nat.eqb_refl).
    assert (refers p h) as Hrefh by (right; by exists i).
    destruct (ho_refers _ _ Hh h Hrefh) as (x & Hx & Hxo).
    assert (hd_claimed x = true) as Hxc by (apply (ho_claimed _ _ Hh h x Hx); by exists i).
    set (p2 := release_handle h p1).
    set (y := mkHandle (hd_device x) (hd_open x) (hd_counted x) (hd_interface x) (hd_alternate x) false).
    assert (same_refs p1 p2 /\ pv_handles p2 = <[h := y]> (pv_handles p) /\ pv_open_handles p2 = pv_open_handles p /\
      pv_running p2 = pv_running p /\ pv_connections p2 = pv_connections p /\
      pv_device_connections p2 = pv_device_connections p /\ pv_departed p2 = pv_departed p)
      as (Hs & F1 & F2 & F3 & F4 & F5 & F6).
    { unfold p2, release_handle. cbn. rewrite Hx, Hxc. unfold set_claimed. cbn. by rewrite Hx. }
    assert (forall h', refers p2 h' -> refers p h') as Hmono.
    { intros h'. rewrite (same_refs_refers p1 p2) by done. intros [Hr'|[j Hj]]; [by left|right].
      exists j. by apply Hrel1. }
    assert (forall h', h' ≠ h -> refers p h' -> refers p2 h') as Hback.
    { intros h' Hne [Hr'|[j Hj]]; apply (same_refs_refers p1 p2); try done; [by left|right]. exists j. apply Hrel1. split; [done|].
      intros ->. unfold lease_releases in Hj. rewrite Hil, Hih in Hj. apply andb_prop in Hj as [_ E%Nat.eqb_eq]. done. }
    assert (handles_ok (Some (h, true)) p2) as Hh2.
    { destruct Hh as [O1 O2 O3 O4 O5 O6 O7 O8]. split; rewrite ?F1, ?F2, ?F3.
      - rewrite O1. pose proof (count_open_insert (pv_handles p) h x y Hx) as Hcnt. unfold counted in Hcnt. cbn in Hcnt. lia.
      - done.
      - intros h' x' Hx' Hxo'. destruct (insert_handle _ h x y h' x' Hx Hx') as [[-> ->]|[Hne Hl']]; [right; by exists true|].
        left. destruct (O3 h' x' Hl' Hxo') as [?|[b ?]]; [by apply Hback|done].
      - intros h' x' Hx' Hxo' _. destruct (insert_handle _ h x y h' x' Hx Hx') as [[-> ->]|[Hne Hl']].
        + by apply (O4 h x).
        + by apply (O4 h' x').
      - intros h' x' Hx'. setoid_rewrite (same_refs_releases p1 p2); [|done]. setoid_rewrite Hrel1.
        destruct (insert_handle _ h x y h' x' Hx Hx') as [[-> ->]|[Hne Hl']].
        + split; [done|]. intros (j & Hj & Hji). destruct Hji. by apply (L4 j i h).
        + rewrite (O5 h' x' Hl'). split; [|by intros (j & ? & _); exists j].
          intros [j Hj]. exists j. split; [done|]. intros ->. unfold lease_releases in Hj. rewrite Hil, Hih in Hj.
          apply andb_prop in Hj as [_ E%Nat.eqb_eq]. done.
      - intros h' Hr'. destruct (decide (h' = h)) as [->|Hne].
        + exists y. split; [by eapply list_lookup_insert_eq, lookup_lt_Some|done].
        + destruct (O6 h' (Hmono h' Hr')) as (x' & ? & ?). exists x'. by rewrite list_lookup_insert_ne.
      - intros h' b [= <- <-]. exists y. split; [by eapply list_lookup_insert_eq, lookup_lt_Some|]. split; [done|].
        by apply (O4 h x).
      - done. }
    assert (leases_ok (fun j => if decide (i = j) then 1 else 0) p2) as Hl2 by (by eapply same_refs_leases).
    destruct (drop_handle_ok h _ p2 Hl2 Hh2) as (Hh3 & Hs3 & G1 & G2 & G3).
    split; [by eapply same_refs_leases|]. split; [done|]. destruct Hs as (S1 & _ & _), Hs3 as (S3 & _ & _).
    split; [|by rewrite S3, S1]. apply (connections_world fresh p); [by rewrite S3, S1|congruence..|done].
Qed.

(** The last transport goes, and the connection with it. *)
Lemma end_connection_ok c x fresh (p1 : Provider) :
  pv_heap p1 !! c = Some x -> living x = true -> cn_connected x = false ->
  leases_ok (fun j => if decide (cn_lease x = j) then 1 else 0) p1 ->
  handles_ok None p1 -> connections_ok fresh p1 ->
  let p2 := set_connection c (with_cn_owners 0 x) p1 in
  pinv None (if decide (fresh = Some c) then None else fresh) (drop_handle (cn_handle x) p2).
Proof.
  intros Hx Hl Hconn Hle Hh Hc p2. set (h := cn_handle x).
  assert (forall h', refers p1 h' <-> refers p2 h' \/ h' = h) as Href.
  { intros h'. unfold refers. cbn. split.
    - intros [(c' & z & Hz & Hzl & Hzh)|Hr]; [|left; by right]. destruct (decide (c' = c)) as [->|Hne].
      + right. by assert (z = x) as -> by congruence.
      + left. left. exists c', z. by rewrite list_lookup_insert_ne.
    - intros [[(c' & z & Hz & Hzl & Hzh)|Hr]| ->]; [|by right|left; by exists c, x].
      left. destruct (insert_handle_gen _ _ _ _ _ _ Hx Hz) as [[-> ->]|[Hne Hz']]; [done|by exists c', z]. }
  assert (leases_ok no_adj p2) as Hle2.
  { destruct Hle as [L1 L2 L3 L4 L5 L6 L7]. split; try done.
    - intros i l Hi. destruct (L3 i l Hi) as (Hu & Hrest). split; [|done]. unfold no_adj. cbn.
      pose proof (lease_users_insert i (pv_heap p1) c x (with_cn_owners 0 x) Hx) as Hn.
      rewrite (uses_lease_spec i x Hl) in Hn. change (uses_lease i (with_cn_owners 0 x)) with false in Hn. cbn in Hn.
      destruct (decide (cn_lease x = i)); lia.
    - intros c' z Hz Hzl. destruct (insert_handle_gen _ _ _ _ _ _ Hx Hz) as [[-> ->]|[Hne Hz']]; [done|by eapply L5]. }
  assert (handles_ok (Some (h, true)) p2) as Hh2.
  { destruct Hh as [O1 O2 O3 O4 O5 O6 O7 O8]. split; try done.
    - intros h' x' Hx' Ho. destruct (O3 h' x' Hx' Ho) as [[?| ->]%Href|[b ?]]; [by left|right; by exists true|done].
    - intros h' x' Hx' Ho _. by apply (O4 h' x').
    - intros h' Hr. apply O6, Href. by left.
    - intros h' b [= <- <-]. destruct (O6 h) as (x' & Hx' & Ho); [apply Href; by right|]. exists x'. split; [done|].
      split; [done|]. by apply (O4 h x'). }
  assert (connections_ok (if decide (fresh = Some c) then None else fresh) p2) as Hc2.
  { destruct Hc as [C1 C2 C3]. split; cbn.
    - intros c' z Hz Hzl Hzc Hf. destruct (insert_handle_gen _ _ _ _ _ _ Hx Hz) as [[-> ->]|[Hne Hz']]; [done|].
      apply C1; try done. intros ->. apply Hf. rewrite decide_False; [done|]. by intros [= ->].
    - intros id c' Hc'. destruct (C2 id c' Hc') as (z & Hz & Hzi). destruct (decide (c' = c)) as [->|Hne].
      + exists (with_cn_owners 0 x). rewrite list_lookup_insert_eq by (by eapply lookup_lt_Some).
        split; [done|]. cbn. congruence.
      + exists z. by rewrite list_lookup_insert_ne.
    - intros d c' Hc'. apply insert_lookup_some. by eapply C3. }
  destruct (drop_handle_ok h _ p2 Hle2 Hh2) as (Hh3 & Hs3 & G1 & G2 & G3).
  split; [by eapply same_refs_leases|done|]. eapply connections_world; [apply Hs3|done..].
Qed.

Lemma mark_disconnected_at c x (p : Provider) :
  pv_heap p !! c = Some x -> pv_heap (mark_disconnected c p) !! c =
    Some (mkConnection (cn_device x) (cn_handle x) (cn_lease x) (cn_alternate x) (cn_identity x) false (cn_owners x)).
Proof.
  intros Hx. unfold mark_disconnected. rewrite Hx. cbn. by rewrite list_lookup_insert_eq by (by eapply lookup_lt_Some).
Qed.

Lemma drop_connection_ok c fresh (p : Provider) :
  pinv None fresh p ->
  pinv None (if decide (fresh = Some c /\ cn_owners <$> pv_heap p !! c = Some 1%nat) then None else fresh)
    (drop_connection c p).
Proof.
  intros Hp. unfold drop_connection. destruct (pv_heap p !! c) as [x|] eqn:Hx; cbn [fmap option_fmap option_map].
  2: { rewrite decide_False; [done|]. by intros [_ ?]. }
  destruct (cn_owners x) as [|[|n]] eqn:En.
  - rewrite decide_False; [done|]. by intros [_ ?].
  - set (p1 := mark_disconnected c p).
    assert (pinv None fresh p1) as Hp1 by (by apply mark_disconnected_ok).
    set (x1 := mkConnection (cn_device x) (cn_handle x) (cn_lease x) (cn_alternate x) (cn_identity x) false (cn_owners x)).
    assert (pv_heap p1 !! c = Some x1) as Hx1 by (by apply mark_disconnected_at).
    assert (living x1 = true) as Hl1 by (unfold living, x1; cbn; by rewrite En).
    destruct (lo_connection _ _ (pi_leases _ _ _ Hp1) c x1 Hx1 Hl1) as [l Hl]. cbn in Hl.
    assert (0 < ls_owners l)%nat as Ho.
    { destruct (lo_lease _ _ (pi_leases _ _ _ Hp1) _ l Hl) as (Hu & _). unfold no_adj in Hu.
      assert (0 < lease_users (cn_lease x) (pv_heap p1))%nat; [|lia].
      pose proof (sum_list_with_pos (fun z => Nat.b2n (uses_lease (cn_lease x) z)) (pv_heap p1) c x1 Hx1) as Hge.
      cbn beta in Hge. rewrite uses_lease_spec, decide_True in Hge by done. unfold lease_users. lia. }
    destruct (drop_lease_ok (cn_lease x) l fresh p1 Hp1 Hl Ho) as (Hle & Hh & Hc & Hheap).
    rewrite Hheap, Hx1.
    replace (if decide (fresh = Some c /\ Some 1%nat = Some 1%nat) then None else fresh)
      with (if decide (fresh = Some c) then None else fresh) by (repeat case_decide; naive_solver).
    apply (end_connection_ok c x1); try done. by rewrite Hheap.
  - rewrite decide_False by (by intros [_ ?]). destruct Hp as [Hl Hh Hc]. set (y := with_cn_owners (S n) x).
    assert (living y = living x) as Hliv by (unfold living, y; cbn; by rewrite En).
    destruct (update_connection_refs c x y p Hx) as [Hr _]; try done. split.
    + by apply (leases_update c x y).
    + by apply (handles_refs None p).
    + by apply (connections_update fresh c x y).
Qed.

Lemma share_connection_ok c x fresh (p : Provider) :
  pinv None fresh p -> pv_heap p !! c = Some x -> living x = true ->
  pinv None fresh (set_connection c (with_cn_owners (S (cn_owners x)) x) p).
Proof.
  intros [Hl Hh Hc] Hx Hliv. set (y := with_cn_owners _ x).
  assert (living y = living x) as E by (rewrite Hliv; done).
  destruct (update_connection_refs c x y p Hx) as [Hr _]; try done. split.
  - by apply (leases_update c x y).
  - by apply (handles_refs None p).
  - by apply (connections_update fresh c x y).
Qed.

(** *** Hotplug *)

(** The callbacks change the tables, and connect nothing. *)
Lemma pinv_tables extra fresh m dm departed (p : Provider) :
  pinv extra fresh p -> connections_ok fresh (with_tables m dm departed p) ->
  pinv extra fresh (with_tables m dm departed p).
Proof. intros [Hl Hh _] Hc. split; [by apply (same_refs_leases _ p)|by apply (handles_world extra p)|done]. Qed.

Definition disconnect_all (cs : list nat) (p : Provider) : Provider :=
  foldl (fun p c =>
    match pv_heap p !! c with
    | Some x => if living x then mark_disconnected c p else p
    | None => p
    end) p cs.

Lemma disconnect_heap c c' (p : Provider) :
  (forall x, pv_heap p !! c' = Some x -> exists x', pv_heap (mark_disconnected c p) !! c' = Some x' /\
     living x' = living x /\ cn_device x' = cn_device x /\ cn_identity x' = cn_identity x /\
     (cn_connected x' = true -> cn_connected x = true /\ c' ≠ c)) /\
  (forall x', pv_heap (mark_disconnected c p) !! c' = Some x' -> is_Some (pv_heap p !! c')).
Proof.
  unfold mark_disconnected. destruct (pv_heap p !! c) as [y|] eqn:Hy.
  - split.
    + intros x Hx. cbn. destruct (decide (c' = c)) as [->|Hne].
      * rewrite list_lookup_insert_eq by (by eapply lookup_lt_Some). assert (y = x) as -> by congruence.
        eexists. split; [done|]. done.
      * rewrite list_lookup_insert_ne by done. by exists x.
    + intros x'. cbn. intros Hx'. apply lookup_lt_Some in Hx'. rewrite length_insert in Hx'. by apply lookup_lt_is_Some.
  - split; [|by intros x' ?; eexists]. intros x Hx. exists x. split; [done|]. do 3 (split; [done|]).
    intros ?. split; [done|]. congruence.
Qed.

(** Afterwards none of them that lives is connected. *)
Lemma disconnect_all_spec cs : forall (p : Provider) c x',
  pv_heap (disconnect_all cs p) !! c = Some x' ->
  exists x, pv_heap p !! c = Some x /\ living x' = living x /\ cn_device x' = cn_device x /\
    cn_identity x' = cn_identity x /\
    (living x' = true -> cn_connected x' = true -> cn_connected x = true /\ (c ∉ cs)).
Proof.
  induction cs as [|c0 cs IH]; intros p c x' Hx'; cbn in Hx'.
  { exists x'. do 4 (split; [done|]). intros _ ?. split; [done|]. by intros ?%not_elem_of_nil. }
  destruct (IH _ c x' Hx') as (x1 & Hx1 & Hl & Hd & Hi & Hc).
  destruct (pv_heap p !! c0) as [y|] eqn:Hy; [destruct (living y) eqn:Hly|].
  - destruct (disconnect_heap c0 c p) as [Hfw Hbw]. destruct (Hbw x1 Hx1) as [x Hx].
    destruct (Hfw x Hx) as (x2 & Hx2 & Hl2 & Hd2 & Hi2 & Hc2). assert (x2 = x1) as -> by congruence.
    exists x. split; [done|]. split; [congruence|]. split; [congruence|]. split; [congruence|].
    intros Hlv Hcn. destruct (Hc Hlv Hcn) as [Hc1 Hnin]. destruct (Hc2 Hc1) as [? Hne]. split; [done|].
    by intros [->|?]%elem_of_cons.
  - exists x1. split; [done|]. do 3 (split; [done|]). intros Hlv Hcn. destruct (Hc Hlv Hcn) as [? Hnin]. split; [done|].
    intros [->|?]%elem_of_cons; [|done]. congruence.
  - exists x1. split; [done|]. do 3 (split; [done|]). intros Hlv Hcn. destruct (Hc Hlv Hcn) as [? Hnin]. split; [done|].
    intros [->|?]%elem_of_cons; [|done]. congruence.
Qed.

Lemma mark_disconnected_frame c (p : Provider) :
  (forall adj, leases_ok adj p -> leases_ok adj (mark_disconnected c p)) /\
  (forall extra, handles_ok extra p -> handles_ok extra (mark_disconnected c p)) /\
  pv_connections (mark_disconnected c p) = pv_connections p /\
  pv_device_connections (mark_disconnected c p) = pv_device_connections p /\
  pv_departed (mark_disconnected c p) = pv_departed p /\ length (pv_heap (mark_disconnected c p)) = length (pv_heap p).
Proof.
  unfold mark_disconnected. destruct (pv_heap p !! c) as [x|] eqn:Hx; [|done].
  set (y := mkConnection _ _ _ _ _ _ _). destruct (update_connection_refs c x y p Hx) as [Hr _]; try done.
  split; [intros adj ?; by apply (leases_update c x y)|].
  split; [intros extra ?; by apply (handles_refs extra p)|]. split; [done|]. split; [done|]. split; [done|]. apply length_insert.
Qed.

Lemma disconnect_all_frame cs : forall (p : Provider),
  (forall adj, leases_ok adj p -> leases_ok adj (disconnect_all cs p)) /\
  (forall extra, handles_ok extra p -> handles_ok extra (disconnect_all cs p)) /\
  pv_connections (disconnect_all cs p) = pv_connections p /\
  pv_device_connections (disconnect_all cs p) = pv_device_connections p /\
  pv_departed (disconnect_all cs p) = pv_departed p /\ length (pv_heap (disconnect_all cs p)) = length (pv_heap p).
Proof.
  induction cs as [|c cs IH]; intros p; [done|]. cbn. destruct (mark_disconnected_frame c p) as (M1 & M2 & M3 & M4 & M5 & M6).
  destruct (pv_heap p !! c) as [x|]; [destruct (living x)|]; [|apply IH..].
  destruct (IH (mark_disconnected c p)) as (I1 & I2 & I3 & I4 & I5 & I6).
  split; [eauto|]. split; [eauto|]. rewrite <- M3, <- M4, <- M5, <- M6. done.
Qed.

Lemma hotplug_ok e extra fresh (p : Provider) :
  pinv extra fresh p -> pinv extra fresh (hotplug_callback e p) /\
  pv_connections (hotplug_callback e p) = pv_connections p /\
  length (pv_heap (hotplug_callback e p)) = length (pv_heap p) /\
  (forall c x, pv_heap (hotplug_callback e p) !! c = Some x -> exists x0, pv_heap p !! c = Some x0 /\
     living x = living x0 /\ cn_device x = cn_device x0 /\ cn_identity x = cn_identity x0 /\
     (living x = true -> cn_connected x = true -> cn_connected x0 = true)).
Proof.
  intros [Hl Hh Hc]. destruct e as [d|d]; cbn [hotplug_callback].
  - unfold on_device_left. set (cs := default [] (pv_device_connections p !! d)). set (p1 := with_tables _ _ _ p).
    fold (disconnect_all cs p1). destruct (disconnect_all_frame cs p1) as (F1 & F2 & F3 & F4 & F5 & F6).
    split; [|split; [done|split; [done|]]].
    + split.
      * apply F1. by apply (same_refs_leases _ p).
      * apply F2. by apply (handles_world extra p).
      * destruct Hc as [C1 C2 C3]. split; rewrite ?F3, ?F4, ?F5.
        -- intros c x Hx Hlv Hcn Hf. destruct (disconnect_all_spec cs p1 c x Hx) as (x0 & Hx0 & El & Ed & Ei & Hnin).
           destruct (Hnin Hlv Hcn) as [Hcn0 Hc0]. cbn in Hx0.
           destruct (C1 c x0 Hx0 ltac:(congruence) Hcn0 Hf) as (H1 & H2 & H3). rewrite Ed, Ei. split; [exact H1|].
           assert (cn_device x0 ≠ d) as Hd by (intros E; apply Hc0; unfold cs; by rewrite <- E).
           cbn. split; [by rewrite lookup_delete_ne|]. rewrite elem_of_union, elem_of_singleton. by intros [?|?].
        -- intros id c Hid. destruct (C2 id c Hid) as (x0 & Hx0 & Hi0).
           assert (is_Some (pv_heap (disconnect_all cs p1) !! c)) as [x Hx].
           { apply lookup_lt_is_Some. rewrite F6. by eapply lookup_lt_Some. }
           destruct (disconnect_all_spec cs p1 c x Hx) as (x0' & Hx0' & _ & _ & Ei & _). exists x. split; [done|].
           cbn in Hx0'. congruence.
        -- intros d' c Hin. cbn in Hin. apply lookup_lt_is_Some. rewrite F6.
           destruct (decide (d' = d)) as [->|Hne]; [rewrite lookup_delete_eq in Hin; by apply not_elem_of_nil in Hin|].
           rewrite lookup_delete_ne in Hin by done. by apply lookup_lt_is_Some, (C3 d').
    + intros c x Hx. destruct (disconnect_all_spec cs p1 c x Hx) as (x0 & Hx0 & ? & ? & ? & Hn). exists x0.
      split; [exact Hx0|]. do 3 (split; [done|]). intros Hlv Hcn. by apply Hn.
  - split; [|split; [done|split; [done|]]].
    + apply pinv_tables; [done|]. destruct Hc as [C1 C2 C3]. split; cbn; try done.
      intros c x Hx Hlv Hcn Hf. destruct (C1 c x Hx Hlv Hcn Hf) as (? & ? & ?). split; [done|]. split; [done|]. set_solver.
    + intros c x Hx. by exists x.
Qed.

Lemma hotplugs_ok es : forall extra fresh (p : Provider),
  pinv extra fresh p -> 
  let p' := foldl (fun p e => hotplug_callback e p) p es in
  pinv extra fresh p' /\ pv_connections p' = pv_connections p /\ length (pv_heap p') = length (pv_heap p) /\
  (forall c x, pv_heap p' !! c = Some x -> exists x0, pv_heap p !! c = Some x0 /\
     living x = living x0 /\ cn_device x = cn_device x0 /\ cn_identity x = cn_identity x0 /\
     (living x = true -> cn_connected x = true -> cn_connected x0 = true)).
Proof.
  induction es as [|e es IH]; intros extra fresh p Hp; cbn.
  { split; [done|]. split; [done|]. split; [done|]. intros c x Hx. by exists x. }
  destruct (hotplug_ok e extra fresh p Hp) as (H1 & E1 & L1 & X1).
  destruct (IH extra fresh _ H1) as (H2 & E2 & L2 & X2). split; [done|]. split; [congruence|]. split; [congruence|].
  intros c x Hx. destruct (X2 c x Hx) as (x1 & Hx1 & ? & ? & ? & Hc1). destruct (X1 c x1 Hx1) as (x0 & Hx0 & ? & ? & ? & Hc0).
  exists x0. split; [done|]. split; [congruence|]. split; [congruence|]. split; [congruence|].
  intros Hlv Hcn. apply Hc0; [congruence|]. by apply Hc1.
Qed.

(** The callbacks leave the owners alone. *)
Lemma disconnect_owners c (p : Provider) : cn_owners <$> pv_heap (mark_disconnected c p) = cn_owners <$> pv_heap p.
Proof.
  unfold mark_disconnected. destruct (pv_heap p !! c) as [x|] eqn:Hx; [|done]. cbn.
  rewrite list_fmap_insert. apply list_insert_id. by rewrite list_lookup_fmap, Hx.
Qed.

Lemma disconnect_all_owners cs : forall p : Provider,
  cn_owners <$> pv_heap (disconnect_all cs p) = cn_owners <$> pv_heap p.
Proof.
  induction cs as [|c cs IH]; intros p; [done|]. unfold disconnect_all in *. cbn [foldl]. rewrite IH.
  destruct (pv_heap p !! c) as [x|]; [destruct (living x)|]; [apply disconnect_owners|done..].
Qed.

Lemma hotplugs_owners es : forall p : Provider,
  cn_owners <$> pv_heap (foldl (fun p e => hotplug_callback e p) p es) = cn_owners <$> pv_heap p.
Proof.
  induction es as [|[d|d] es IH]; intros p; cbn; [done|rewrite IH..]; [|done]. unfold on_device_left.
  set (p1 := with_tables _ _ _ p). apply (disconnect_all_owners (default [] (pv_device_connections p !! d)) p1).
Qed.

(** Before its registration the callbacks do not reach a connection. *)
Lemma disconnect_all_unlisted cs c : forall p : Provider, c ∉ cs -> pv_heap (disconnect_all cs p) !! c = pv_heap p !! c.
Proof.
  induction cs as [|c0 cs IH]; intros p Hc; [done|]. apply not_elem_of_cons in Hc as [Hne Hc].
  unfold disconnect_all in *. cbn [foldl]. rewrite IH by done.
  destruct (pv_heap p !! c0) as [y|] eqn:Hy; [destruct (living y)|]; [|done..].
  unfold mark_disconnected. rewrite Hy. cbn. by rewrite list_lookup_insert_ne.
Qed.

Lemma hotplugs_unlisted es c : forall p : Provider,
  (forall d, c ∉ default [] (pv_device_connections p !! d)) ->
  pv_heap (foldl (fun p e => hotplug_callback e p) p es) !! c = pv_heap p !! c.
Proof.
  induction es as [|[d|d] es IH]; intros p Hc; cbn; [done|rewrite IH..]; [| |done..].
  - unfold on_device_left. set (p1 := with_tables _ _ _ p). exact (disconnect_all_unlisted _ c p1 (Hc d)).
  - unfold on_device_left. set (cs := default [] _). set (p1 := with_tables _ _ _ p). fold (disconnect_all cs p1).
    destruct (disconnect_all_frame cs p1) as (_ & _ & _ & E & _). rewrite E. cbn. intros d'.
    destruct (decide (d' = d)) as [->|Hne]; [rewrite lookup_delete_eq; apply not_elem_of_nil|].
    rewrite lookup_delete_ne by done. apply Hc.
Qed.

(** *** Opening *)

Lemma register_ok c d identity x (p : Provider) :
  pinv None (Some c) p -> pv_heap p !! c = Some x -> cn_device x = d -> cn_identity x = identity ->
  pv_connections p !! identity = None -> d ∉ pv_departed p ->
  pinv None None (register_connection c d identity p).
Proof.
  intros Hp Hx Hd Hid Hnone Hdep. unfold register_connection. set (entries := filter _ _).
  destruct Hp as [Hl Hh Hc]. split; [by apply (same_refs_leases _ p)|by apply (handles_world None p)|].
  destruct Hc as [C1 C2 C3]. split; cbn.
  - intros c' z Hz Hlv Hcn _. destruct (decide (c' = c)) as [->|Hne].
    + assert (z = x) as -> by congruence. rewrite Hd, Hid, lookup_insert_eq. split; [done|]. split; [|done].
      rewrite lookup_insert_eq. cbn. apply elem_of_app. right. by left.
    + destruct (C1 c' z Hz Hlv Hcn) as (H1 & H2 & H3); [congruence|].
      split; [rewrite lookup_insert_ne; [done|congruence]|]. split; [|done].
      destruct (decide (cn_device z = d)) as [E|E].
      * rewrite E, lookup_insert_eq. cbn. apply elem_of_app. left. unfold entries. apply list_elem_of_filter.
        rewrite Hz, Hlv. split; [done|]. by rewrite <- E.
      * by rewrite lookup_insert_ne by done.
  - intros id c' [[<- <-]|[Hne Hc']]%lookup_insert_Some; [by exists x|by apply C2].
  - intros d' c'. destruct (decide (d' = d)) as [->|Hne].
    + rewrite lookup_insert_eq. cbn. intros [Hin|Hin]%elem_of_app.
      * unfold entries in Hin. apply list_elem_of_filter in Hin as [_ Hin]. by apply (C3 d).
      * apply list_elem_of_singleton in Hin as ->. by eexists.
    + rewrite lookup_insert_ne by done. apply C3.
Qed.

(** A connection an open answers with. *)
Definition opened_connection (c : nat) (identity : str) (alternate : Z) (p : Provider) : Prop :=
  exists x, pv_heap p !! c = Some x /\ living x = true /\ cn_connected x = true /\ cn_identity x = identity /\
    cn_alternate x = alternate /\ pv_connections p !! identity = Some c.

Lemma open_connection_ok d identity selected h during (p : Provider) att p' :
  pinv (Some (h, false)) None p -> identity ≠ [] -> pv_connections p !! identity = None ->
  open_connection d identity selected h during p = (att, p') ->
  pinv None None p' /\
  ((exists status, att = answer None status /\ status < VI_SUCCESS) \/
   exists c, att = answer (Some (c, selected)) VI_SUCCESS /\
     opened_connection c identity (ui_alternate_setting selected) p').
Proof.
  intros Hp Hid Hnone. unfold open_connection.
  set (p1 := make_handle h (u8 (ui_interface_number selected)) (ui_alternate_setting selected) p).
  destruct (make_handle_ok h (u8 (ui_interface_number selected)) (ui_alternate_setting selected) None p Hp) as (Hp1 & Hnr & Hx).
  fold p1 in Hp1, Hnr, Hx.
  assert (pv_heap p1 = pv_heap p /\ pv_connections p1 = pv_connections p) as [Eh Ec].
  { unfold p1, make_handle. by destruct (pv_handles p !! h). }
  destruct (acquire_lease identity h p1) as [[lease status] p2] eqn:E.
  destruct (acquire_lease_ok identity h None p1 lease status p2 Hp1 Hnr Hid Hx E) as (Hc2 & Hh2 & Eh2 & Ec2 & Ed2 & Hcase).
  destruct lease as [i|].
  2: { destruct Hcase as [Hneg Hl2]. intros [= <- <-].
    destruct (drop_handle_ok h _ p2 Hl2 Hh2) as (Hh3 & Hs3 & G1 & G2 & G3). split; [|left; by exists status].
    split; [by eapply same_refs_leases|done|]. eapply connections_world; [apply Hs3|done..]. }
  destruct Hcase as (-> & Hi & Hl2). set (c := length (pv_heap p2)).
  set (x := mkConnection d h i (ui_alternate_setting selected) identity true 1).
  set (p3 := with_heap (pv_heap p2 ++ [x]) p2).
  assert (pinv None (Some c) p3) as Hp3.
  { split; [by apply leases_connect|by apply (handles_connect h)|by apply connections_connect]. }
  destruct (hotplugs_ok during None (Some c) p3 Hp3) as (Hp4 & Ec4 & _).
  set (p4 := foldl _ p3 during) in *.
  assert (pv_heap p4 !! c = Some x) as Hx4.
  { unfold p4. rewrite hotplugs_unlisted; [by apply list_lookup_middle|]. intros d' Hd'.
    apply (co_devices _ _ Hc2) in Hd' as [y Hy%lookup_lt_Some]. unfold c in Hy. lia. }
  case_bool_decide as Hdep; intros [= <- <-].
  - split; [|left; by exists VI_ERROR_RSRC_NFOUND].
    assert (pinv None (Some c) (mark_disconnected c p4)) as Hp5 by (by apply mark_disconnected_ok).
    pose proof (drop_connection_ok c (Some c) _ Hp5) as Hgood. rewrite decide_True in Hgood; [done|].
    split; [done|]. rewrite <- list_lookup_fmap, disconnect_owners, list_lookup_fmap. by rewrite Hx4.
  - split; [|right; exists c].
    + apply (register_ok c d identity x); try done. rewrite Ec4. cbn. by rewrite Ec2, Ec.
    + split; [done|]. exists x. do 5 (split; [done|]). cbn. by rewrite lookup_insert_eq.
Qed.

(** A device an open asks for, and its interface. *)
Definition answers (r : ResourceDescriptor) (raw : option UsbRawConfiguration) (d : D) (selected : UsbInterfaceInfo)
  : Prop :=
  exists (q q' : Provider) n opened status,
    lu_descriptor d (pv_world q) = Some (rd_usb_vendor_id r, rd_usb_product_id r, n) /\
    selected_interface r raw (lu_config d (pv_world q)) = Some selected /\
    read_serial d n q = (Some (rd_usb_serial_number r), opened, status, q').

Definition transport_of (r : ResourceDescriptor) (raw : option UsbRawConfiguration) (ds : list D)
    (c : nat) (selected : UsbInterfaceInfo) (p : Provider) : Prop :=
  exists d w, d ∈ ds /\ answers r raw d selected /\
    opened_connection c (connection_identity r d w) (ui_alternate_setting selected) p.

Lemma identity_nonempty r d w : connection_identity r d w ≠ [].
Proof. done. Qed.

Lemma live_connection_spec identity c x (p : Provider) :
  live_connection identity p = Some (c, x) <->
  pv_connections p !! identity = Some c /\ pv_heap p !! c = Some x /\ living x = true /\ cn_connected x = true.
Proof.
  unfold live_connection. split.
  - intros (c' & Hc & (x' & Hx & Hl)%bind_Some)%bind_Some. destruct (living x') eqn:E1, (cn_connected x') eqn:E2; by simplify_eq/=.
  - intros (-> & Hx & Hl & Hc). cbn. rewrite Hx. cbn. by rewrite Hl, Hc.
Qed.

(** Only an entry that is dead or disconnected is erased. *)
Lemma erase_entry_ok identity extra (p : Provider) :
  pinv extra None p -> live_connection identity p = None ->
  pinv extra None (with_tables (delete identity (pv_connections p)) (pv_device_connections p) (pv_departed p) p).
Proof.
  intros Hp Hn. apply pinv_tables; [done|]. destruct (pi_connections _ _ _ Hp) as [C1 C2 C3]. split; cbn; try done.
  - intros c x Hx Hl Hc Hf. destruct (C1 c x Hx Hl Hc Hf) as (H1 & H2). split; [|done].
    rewrite lookup_delete_ne; [done|]. intros ->.
    assert (live_connection (cn_identity x) p = Some (c, x)) by (by apply live_connection_spec). congruence.
  - intros id c [Hne Hc]%lookup_delete_Some. by apply C2.
Qed.

(** What an open ends in. *)
Definition attempt_ok (r : ResourceDescriptor) (raw : option UsbRawConfiguration) (ds : list D) (att : attempt)
    (p : Provider) : Prop :=
  match att with
  | skip status | answer None status => status < VI_SUCCESS
  | answer (Some (c, selected)) status => status = VI_SUCCESS /\ transport_of r raw ds c selected p
  end.

Lemma open_new_ok r raw ds d w selected opened during (p : Provider) att p' :
  let identity := connection_identity r d w in
  pinv ((fun h => (h, false)) <$> opened) None p -> live_connection identity p = None -> d ∈ ds ->
  answers r raw d selected ->
  (let p := with_tables (delete identity (pv_connections p)) (pv_device_connections p) (pv_departed p) p in
   match opened with
   | Some h => open_connection d identity selected h during p
   | None =>
       match open_device d p with
       | (inl result, p) => (answer None (map_error result true), p)
       | (inr h, p) => open_connection d identity selected h during p
       end
   end) = (att, p') ->
  pinv None None p' /\ attempt_ok r raw ds att p'.
Proof.
  intros identity Hp Hlive Hd Hans. set (p1 := with_tables _ _ _ p). cbn zeta.
  assert (pinv ((fun h => (h, false)) <$> opened) None p1) as Hp1 by (by apply erase_entry_ok).
  assert (pv_connections p1 !! identity = None) as Hnone by (apply lookup_delete_eq).
  assert (forall h p2, pinv (Some (h, false)) None p2 -> pv_connections p2 !! identity = None ->
    open_connection d identity selected h during p2 = (att, p') -> pinv None None p' /\ attempt_ok r raw ds att p') as Hconn.
  { intros h p2 Hp2 Hn2 E.
    destruct (open_connection_ok _ _ _ _ _ _ _ _ Hp2 (identity_nonempty r d w) Hn2 E) as [Hp' Hcase]. split; [done|].
    destruct Hcase as [(status & -> & Hs)|(c & -> & Hc)]; [done|]. split; [done|]. by exists d, w. }
  destruct opened as [h|]; [by apply Hconn|].
  destruct (open_device d p1) as [[result|h] p2] eqn:E; destruct (open_device_ok d None p1 _ _ Hp1 E) as (Hp2 & _ & Ec & _).
  - destruct Hp2 as [Hneg Hp2]. intros [= <- <-]. split; [done|]. apply map_error_negative. lia.
  - apply Hconn; [done|by rewrite Ec].
Qed.

Lemma shared_opened identity c x extra (p : Provider) :
  pinv extra None p -> pv_connections p !! identity = Some c -> pv_heap p !! c = Some x -> living x = true ->
  cn_connected x = true ->
  opened_connection c identity (cn_alternate x) (set_connection c (with_cn_owners (S (cn_owners x)) x) p).
Proof.
  intros Hp Hc Hx Hl Hcn. destruct (co_table _ _ (pi_connections _ _ _ Hp) _ _ Hc) as (x' & Hx' & Hi).
  exists (with_cn_owners (S (cn_owners x)) x). cbn. rewrite list_lookup_insert_eq by (by eapply lookup_lt_Some).
  repeat (split; [done|]). split; [congruence|done].
Qed.

Lemma try_device_ok r raw during ds d deferred (p : Provider) att p' :
  pinv None None p -> deferred < VI_SUCCESS -> d ∈ ds ->
  try_device r raw during d deferred p = (att, p') -> pinv None None p' /\ attempt_ok r raw ds att p'.
Proof.
  intros Hp Hdef Hd. unfold try_device.
  destruct (lu_descriptor d (pv_world p)) as [[[vendor product] n]|] eqn:Hdesc; [|by intros [= <- <-]].
  destruct (Z.eqb_spec vendor (rd_usb_vendor_id r)) as [->|]; [|by intros [= <- <-]].
  destruct (Z.eqb_spec product (rd_usb_product_id r)) as [->|]; [|by intros [= <- <-]]. cbn [negb orb].
  destruct (selected_interface r raw (lu_config d (pv_world p))) as [selected|] eqn:Hsel; [|by intros [= <- <-]].
  destruct (read_serial d n p) as [[[serial opened] status] p1] eqn:E.
  destruct (read_serial_ok _ _ _ _ _ _ _ _ Hp E) as [Hp1 _].
  destruct (decide (serial = Some (rd_usb_serial_number r))) as [->|Hne]; cycle 1.
  { rewrite bool_decide_false by done. intros [= <- <-]. split; [by apply close_opened_ok|]. cbn.
    by destruct (Z.eqb_spec status VI_ERROR_NPERMISSION) as [->|]. }
  rewrite bool_decide_true by done. cbn [negb].
  assert (answers r raw d selected) as Hans by (by exists p, p1, n, opened, status).
  set (identity := connection_identity r d (pv_world p1)).
  destruct (live_connection identity p1) as [[c x]|] eqn:Hlive; [|by apply open_new_ok].
  apply live_connection_spec in Hlive as (Hc & Hx & Hl & Hcn). apply close_opened_ok in Hp1.
  assert (pv_heap (close_opened opened p1) = pv_heap p1 /\ pv_connections (close_opened opened p1) = pv_connections p1)
    as [Eh Ec].
  { destruct opened as [h|]; [|done]. cbn. unfold close_device. by destruct (pv_handles p1 !! h). }
  destruct (Z.eqb_spec (cn_alternate x) (ui_alternate_setting selected)) as [Halt|]; cbn [negb]; intros [= <- <-]; [|done].
  rewrite <- Eh in Hx. rewrite <- Ec in Hc. split; [by apply share_connection_ok|]. split; [done|].
  exists d, (pv_world p1). do 2 (split; [done|]). rewrite <- Halt. by eapply shared_opened.
Qed.

Lemma open_loop_ok r raw during all ds : forall deferred (p : Provider) res status p',
  pinv None None p -> deferred < VI_SUCCESS -> ds ⊆ all ->
  open_loop r raw during ds deferred p = (res, status, p') ->
  pinv None None p' /\ attempt_ok r raw all (answer res status) p'.
Proof.
  induction ds as [|d ds IH]; intros deferred p res status p' Hp Hdef Hsub; cbn [open_loop].
  { by intros [= <- <- <-]. }
  destruct (try_device r raw during d deferred p) as [att p1] eqn:E.
  apply (try_device_ok r raw during all) in E as [Hp1 Hok]; [|done|done|by apply Hsub; left].
  destruct att as [deferred'|result status']; [|by intros [= <- <- <-]].
  apply IH; [done|done|]. intros d' Hd'. apply Hsub. by right.
Qed.

Lemma open_impl_ok r raw during (p : Provider) res status p' :
  pinv None None p -> open_impl r raw during p = (res, status, p') ->
  pinv None None p' /\ attempt_ok r raw (lu_device_list (pv_world p)).2 (answer res status) p'.
Proof.
  intros Hp. unfold open_impl. destruct (negb _); [by intros [= <- <- <-]|].
  destruct (lu_device_list (pv_world p)) as [count ds]. destruct (Z.ltb_spec count 0).
  - intros [= <- <- <-]. split; [done|]. apply map_error_negative. lia.
  - by apply open_loop_ok.
Qed.

Lemma open_any_ok r raw during (p : Provider) res status p' :
  pinv None None p -> open_any r raw during p = (res, status, p') ->
  pinv None None p' /\ attempt_ok r raw (lu_device_list (pv_world p)).2 (answer res status) p'.
Proof.
  intros Hp. unfold open_any, open, open_raw.
  destruct raw; (destruct (negb _); [by intros [= <- <- <-]|by apply open_impl_ok]).
Qed.

(** ** Providers as they come about *)

Lemma created_ok w : pinv None None (mkProvider w [] 0 false [] ∅ ∅ ∅ no_leases []).
Proof.
  split; split; cbn; try done.
  - by constructor.
  - unfold copies. cbn. lia.
  - by intros h [(c & x & Hx & _)|[i Hi]].
  - intros d c. rewrite lookup_empty. by intros ?%not_elem_of_nil.
Qed.

Lemma provider_step_ok e (p : Provider) : pinv None None p -> pinv None None (provider_step e p).
Proof.
  intros Hp. destruct e as [|r raw during|c|c|e|w]; cbn.
  - by apply discover_ok.
  - destruct (open_any r raw during p) as [[res status] p'] eqn:E. by apply (open_any_ok _ _ _ _ _ _ _ Hp E).
  - pose proof (drop_connection_ok c None p Hp) as Hd. by rewrite decide_False in Hd by (by intros [? _]).
  - by apply mark_disconnected_ok.
  - by apply hotplug_ok.
  - by apply pinv_world.
Qed.

Definition reachable (p : Provider) : Prop :=
  exists result w p0 es, create result w = running_provider p0 /\ p = foldl (fun p e => provider_step e p) p0 es.

Lemma provider_reachable_ok (p : Provider) : reachable p -> pinv None None p.
Proof.
  intros (result & w & p0 & es & Hc & ->). unfold create in Hc. destruct (result <? 0); [done|]. injection Hc as <-.
  generalize (created_ok w). generalize (mkProvider w [] 0 false [] ∅ ∅ ∅ no_leases [] : Provider).
  induction es as [|e es IH]; intros p Hp; [done|]. by apply IH, provider_step_ok.
Qed.

(** ** What discovery and opening give *)

Lemma inspect_device_number config i :
  i ∈ inspect_device config -> exists l li, config = Some l /\ li ∈ concat l /\ bInterfaceNumber li = ui_interface_number i.
Proof.
  destruct config as [l|]; [|by intros ?%not_elem_of_nil]. cbn. intros (li & Hli & Hi)%list_elem_of_omap.
  exists l, li. do 2 (split; [done|]). by apply inspect_interface_number in Hi.
Qed.

Lemma raw_number config n :
  n ∈ raw_interface_numbers config -> exists l li, config = Some l /\ li ∈ concat l /\ bInterfaceNumber li = n.
Proof.
  destruct config as [l|]; [|by intros ?%not_elem_of_nil]. cbn. intros Hn. rewrite unique_elem in Hn.
  rewrite merge_sort_Permutation in Hn. apply list_elem_of_fmap in Hn as (li & -> & Hli). by exists l, li.
Qed.

(** A device a name stands for: it has the vendor, the product and the serial
    number of the name, and an interface of its number. *)
Definition has_interface (r : ResourceDescriptor) (d : D) : Prop :=
  exists (q q' : Provider) n opened status config li,
    lu_descriptor d (pv_world q) = Some (rd_usb_vendor_id r, rd_usb_product_id r, n) /\
    lu_config d (pv_world q) = Some config /\ li ∈ concat config /\
    bInterfaceNumber li = rd_usb_interface_number r /\
    read_serial d n q = (Some (rd_usb_serial_number r), opened, status, q').

(** The members of descriptors are as wide as they are declared. *)
Definition descriptors_sized : Prop := forall (d : D) (w : W),
  (forall v p n, lu_descriptor d w = Some (v, p, n) -> 0 <= v <= 65535 /\ 0 <= p <= 65535) /\
  (forall config li, lu_config d w = Some config -> li ∈ concat config -> 0 <= bInterfaceNumber li <= 255).

Definition found (ds : list D) (name : str) : Prop :=
  exists r d, parse_resource name = Some r /\ rd_canonical_name r = name /\ rd_interface_number r = 0 /\ d ∈ ds /\
    has_interface r d /\
    ((rd_kind r = usb_instr /\ exists selected, answers r None d selected) \/ rd_kind r = usb_raw).

Lemma names_of_ok d n vendor product serial opened status ds (q q' : Provider) name :
  descriptors_sized -> lu_descriptor d (pv_world q) = Some (vendor, product, n) ->
  read_serial d n q = (Some serial, opened, status, q') -> d ∈ ds ->
  name ∈ names_of vendor product serial (lu_config d (pv_world q)) -> found ds name.
Proof.
  intros Hsized Hdesc Hserial Hd. destruct (Hsized d (pv_world q)) as [Hids Hcfg].
  destruct (Hids _ _ _ Hdesc) as [Hv Hpr]. unfold names_of. intros [Hin|Hin]%elem_of_app.
  - apply list_elem_of_omap in Hin as (i & Hi & Hname).
    destruct (inspect_device_number _ _ Hi) as (l & li & Hl & Hli & Hn).
    destruct (usb_name_round_trip vendor product serial (ui_interface_number i) INSTR name) as
      (r & Hr & Hk & H0' & <- & <- & <- & Hif & Hcl & Hcn); [done|done|specialize (Hcfg _ _ Hl Hli); lia|by left|done|].
    exists r, d. do 4 (split; [done|]). split.
    + exists q, q', n, opened, status, l, li. do 3 (split; [done|]). split; [congruence|done].
    + left. split; [by rewrite Hk|].
      destruct (list_find (fun i => ui_interface_number i = rd_usb_interface_number r)
        (inspect_device (lu_config d (pv_world q)))) as [[k s]|] eqn:Hf.
      * exists s, q, q', n, opened, status. split; [done|]. split; [|done]. unfold selected_interface. by rewrite Hf.
      * apply list_find_None in Hf. rewrite Forall_forall in Hf. destruct (Hf i Hi). by rewrite Hif.
  - apply list_elem_of_omap in Hin as (i & Hi & Hname).
    destruct (raw_number _ _ Hi) as (l & li & Hl & Hli & Hn).
    destruct (usb_name_round_trip vendor product serial i RAW name) as
      (r & Hr & Hk & H0' & <- & <- & <- & Hif & Hcl & Hcn); [done|done|specialize (Hcfg _ _ Hl Hli); lia|by right|done|].
    exists r, d. do 4 (split; [done|]). split.
    + exists q, q', n, opened, status, l, li. do 3 (split; [done|]). split; [congruence|done].
    + right. by rewrite Hk.
Qed.

Lemma discover_loop_found all ds : forall resources (p : Provider),
  descriptors_sized -> ds ⊆ all -> Forall (found all) resources -> Forall (found all) (discover_loop ds resources p).1.
Proof.
  induction ds as [|d ds IH]; intros resources p Hs Hsub Hall; [done|]. cbn.
  assert (ds ⊆ all) as Hsub' by (intros d' Hd'; apply Hsub; by right).
  destruct (lu_descriptor d (pv_world p)) as [[[vendor product] n]|] eqn:Hdesc; [|by apply IH].
  destruct (_ && _); [by apply IH|].
  destruct (read_serial d n p) as [[[serial opened] status] p1] eqn:E. destruct serial as [serial|]; [|by apply IH].
  apply IH; [done|done|]. apply Forall_app. split; [done|]. apply Forall_forall. intros name Hn.
  eapply names_of_ok; [done..|apply Hsub; by left|done].
Qed.

(** ** Properties *)

Lemma count_open_zero (l : list (Handle D)) :
  (0 < count_open l)%nat <-> exists h x, l !! h = Some x /\ counted x = true.
Proof.
  split; [|intros (h & x & Hx & Hc); by eapply count_open_pos].
  unfold count_open. induction l as [|x l IH]; cbn; [lia|]. intros Hp. destruct (counted x) eqn:Hc; [by exists 0%nat, x|].
  destruct IH as (h & y & Hy & Hcy); [cbn in Hp; lia|]. by exists (S h), y.
Qed.

Lemma lease_users_pos i (l : list (Connection D)) :
  (0 < lease_users i l)%nat -> exists c x, l !! c = Some x /\ living x = true /\ cn_lease x = i.
Proof.
  unfold lease_users. induction l as [|x l IH]; cbn; [lia|]. intros Hp.
  destruct (uses_lease i x) eqn:Hu.
  - apply andb_prop in Hu as [? ?%Nat.eqb_eq]. by exists 0%nat, x.
  - destruct IH as (c & y & ? & ? & ?); [cbn in Hp; lia|]. by exists (S c), y.
Qed.


(** C39: an open of a provider, whatever has happened to it, gives a transport
    exactly when it succeeds, an error otherwise; the device is one of those
    libusb listed, with the vendor and the product of the name, an interface of
    its number that suits, and its serial number; and the connection is
    registered for the identity of the resource on the device, living, connected,
    and set to the alternate setting of the interface. *)
Theorem libusb_open_sound (p : Provider) r raw during result status p' :
  reachable p -> open_any r raw during p = (result, status, p') ->
  (result = None <-> status ≠ VI_SUCCESS) /\ status <= VI_SUCCESS /\
  (forall c selected, result = Some (c, selected) ->
    exists d w x, d ∈ (lu_device_list (pv_world p)).2 /\ answers r raw d selected /\
      pv_connections p' !! connection_identity r d w = Some c /\ pv_heap p' !! c = Some x /\
      cn_identity x = connection_identity r d w /\ living x = true /\ cn_connected x = true /\
      cn_alternate x = ui_alternate_setting selected).
Proof.
  intros Hp%provider_reachable_ok Ho. destruct (open_any_ok _ _ _ _ _ _ _ Hp Ho) as [_ Hatt].
  destruct result as [[c selected]|]; cbn in Hatt.
  - destruct Hatt as (-> & d & w & Hd & Hans & x & Hx & Hl & Hc & Hid & Halt & Htab).
    split; [by split|]. split; [done|]. intros c' s' [= <- <-]. exists d, w, x. done.
  - split; [split; [lia|done]|]. split; [lia|done].
Qed.

(** C40: every name that discovery gives is the canonical name of the resource it
    parses to, which is an interface of a device that libusb listed - its vendor,
    product, serial number and interface number, whatever characters the serial
    number has; and for an INSTR name the device is one that opening the name
    looks for, with an interface it can select. *)
Theorem libusb_discover_sound (p : Provider) :
  descriptors_sized ->
  Forall (fun name =>
    exists r d, parse_resource name = Some r /\ rd_canonical_name r = name /\ rd_interface_number r = 0 /\
      d ∈ (lu_device_list (pv_world p)).2 /\ has_interface r d /\
      ((rd_kind r = usb_instr /\ exists selected, answers r None d selected) \/ rd_kind r = usb_raw))
    (discover p).1.
Proof.
  intros Hs. unfold discover. destruct (lu_device_list (pv_world p)) as [count ds]. destruct (count <? 0); [by apply Forall_nil|].
  by apply discover_loop_found.
Qed.
End safety.

(** ** A bus

    Two devices with one USBTMC interface each; the serial number of the first has
    to be read through a handle.  The world is what libusb was asked to do. *)
Inductive asked := opened (d : nat) | closed (d : nat) | claimed (d : nat) (i : Z) | released (d : nat) (i : Z).

#[local] Instance bus : Libusb nat (list asked) := {|
  lu_device_list _ := (2, [1; 2]%nat);
  lu_descriptor _ _ := Some (0x1234, 0xab, 3);
  lu_config _ _ := Some [[sample_interface]];
  lu_device_string d _ := if Nat.eqb d 1 then (-12, []) else (3, lit "B2");
  lu_string_ascii _ _ _ := (2, lit "A1");
  lu_bus_number _ _ := 1;
  lu_port_numbers d _ := [Z.of_nat d];
  lu_device_address d _ := 10 + Z.of_nat d;
  lu_pointer d := lit "0x7f" ++ to_string (Z.of_nat d);
  lu_open d w := (0, w ++ [opened d]);
  lu_close d w := w ++ [closed d];
  lu_set_auto_detach _ w := (-12, w);
  lu_claim d i w := (0, w ++ [claimed d i]);
  lu_set_alt_setting _ _ _ w := (0, w);
  lu_release d i w := w ++ [released d i] |}.

Definition name_a : str := lit "USB0::0x1234::0x00AB::A1::2::INSTR".
Definition name_b : str := lit "USB0::0x1234::0x00AB::B2::2::INSTR".

Definition nowhere : ResourceDescriptor := mkResourceDescriptor usb_instr 0 0 [] [] [] 0 [] tp_none 0 0 [] 0 0 0 false.
Definition named (name : str) : ResourceDescriptor := default nowhere (parse_resource name).

Definition fresh_provider : Provider nat (list asked) := mkProvider [] [] 0 false [] ∅ ∅ ∅ no_leases [].
Definition after (es : list (provider_event (D := nat) (W := list asked))) : Provider nat (list asked) :=
  foldl (fun p e => provider_step e p) fresh_provider es.

#[local] Instance asked_eq_dec : EqDecision asked.
Proof. solve_decision. Defined.

(** An open whose answer is known. *)
Lemma known_answer {A B C : Type} (x : A * B * C) a b : x.1 = (a, b) -> x = (a, b, x.2).
Proof. destruct x. by intros [= <-]. Qed.

Lemma after_reachable es : reachable (after es).
Proof. exists 0, [], fresh_provider, es. split; reflexivity. Qed.

(** The transports of one interface share its handle; the last closes it. *)
Example shared_interface :
  let opens := [Opens (named name_b) None []; Opens (named name_b) None []] in
  filter (fun x => x ≠ opened 1 /\ x ≠ closed 1) (pv_world (after (opens ++ [Destroys 0]))) =
    [opened 2; claimed 2 2] /\
  filter (fun x => x ≠ opened 1 /\ x ≠ closed 1) (pv_world (after (opens ++ [Destroys 0; Destroys 0]))) =
    [opened 2; claimed 2 2; released 2 2; closed 2].
Proof. vm_compute. auto. Qed.

(** Unplugged in the middle of an open: what was opened is closed again. *)
Example unplugged_while_opening :
  (open_any (named name_a) None [device_left 1%nat] fresh_provider).1 = (None, VI_ERROR_RSRC_NFOUND) /\
  pv_world (after [Opens (named name_a) None [device_left 1%nat]]) =
    [opened 1; claimed 1 2; released 1 2; closed 1] /\
  pv_running (after [Opens (named name_a) None [device_left 1%nat]]) = false.
Proof. vm_compute. auto. Qed.

(** An open after a transfer found no device, while the transport of before still
    exists: the lease is shared, so the interface is not claimed through the new
    handle. *)
Example reopened_unclaimed :
  let p := after [Opens (named name_a) None []; Loses 0; Opens (named name_a) None []] in
  exists x y, pv_heap p !! 1%nat = Some x /\ living x = true /\ cn_connected x = true /\
    pv_handles p !! cn_handle x = Some y /\ hd_open y = true /\ hd_claimed y = false.
Proof. do 2 eexists. split; [vm_compute; reflexivity|]. vm_compute. auto. Qed.

Definition bench : Provider nat (list asked) :=
  after [Discovers; Opens (named name_b) None []; Opens (named name_a) None [device_arrived 1%nat];
    Plugs (device_left 2%nat); Destroys 0; Plugs (device_arrived 2%nat)].


Lemma libusb_open_sound_witness :
  let attempt := open_any (named name_b) None [] bench in
  attempt.1 = (Some (2%nat, mkUsbInterfaceInfo 2 0x02 0x81 0x83 512 true 0 0), VI_SUCCESS) /\
  exists d w x, d ∈ [1; 2]%nat /\
    answers (named name_b) None d (mkUsbInterfaceInfo 2 0x02 0x81 0x83 512 true 0 0) /\
    pv_connections attempt.2 !! connection_identity (named name_b) d w = Some 2%nat /\
    pv_heap attempt.2 !! 2%nat = Some x /\ cn_identity x = connection_identity (named name_b) d w /\
    living x = true /\ cn_connected x = true /\ cn_alternate x = 0.
Proof.
  intros attempt. assert (attempt.1 = (Some (2%nat, mkUsbInterfaceInfo 2 0x02 0x81 0x83 512 true 0 0), VI_SUCCESS)) as E
    by (vm_compute; reflexivity). split; [exact E|].
  destruct (libusb_open_sound bench (named name_b) None [] _ _ _ (after_reachable _)
    (known_answer attempt _ _ E)) as (_ & _ & Hopen).
  exact (Hopen _ _ eq_refl).
Defined.

Lemma libusb_discover_sound_witness :
  descriptors_sized (D := nat) (W := list asked) /\
  (discover fresh_provider).1 = [name_a; lit "USB0::0x1234::0x00AB::A1::2::RAW"; name_b;
    lit "USB0::0x1234::0x00AB::B2::2::RAW"] /\
  exists r d, parse_resource name_b = Some r /\ rd_canonical_name r = name_b /\ rd_interface_number r = 0 /\
    d ∈ [1; 2]%nat /\ has_interface r d /\
    ((rd_kind r = usb_instr /\ exists selected, answers r None d selected) \/ rd_kind r = usb_raw).
Proof.
  assert (descriptors_sized (D := nat) (W := list asked)) as Hs.
  { intros d w. split; [intros v p n [= <- <- <-]; lia|].
    intros config li [= <-] Hli. apply list_elem_of_singleton in Hli as ->. cbn. lia. }
  split; [exact Hs|]. split; [vm_compute; reflexivity|].
  pose proof (libusb_discover_sound fresh_provider Hs) as Hall. rewrite Forall_forall in Hall.
  apply Hall. change (discover fresh_provider).1 with
    [name_a; lit "USB0::0x1234::0x00AB::A1::2::RAW"; name_b; lit "USB0::0x1234::0x00AB::B2::2::RAW"].
  do 2 right. by left.
Defined.
