(* ===== verification/SessionObject.v ===== *)
(** * Sessions: the class [SessionObject] of [core/objects.{h,cpp}]

    A session runs every call under an operation of its own, registered in
    [operations_] while the call lasts.  The operation is shared with other
    threads (viTerminate and close cancel it), and with the backend: what the
    other threads have done to it by the [i]-th point at which a call looks at
    it is [interfere i], a parameter of the calls.  The backend is any instance
    of [BackendSession]. *)

From S2P Require Import Prelude Visa CText ResourceParser Operation LockManager.
From S2P Require Import BackendSession MockSession.

(** ** Data *)

Record SessionObject (B H : Type) := mkSession {
  so_parent : nat;
  so_parent_handle : Z;
  so_handle : Z;
  so_descriptor : ResourceDescriptor;
  so_backend : B;
  so_timeout : Z;
  so_termchar_enabled : Z;
  so_termchar : Z;
  so_send_end_enabled : Z;
  so_user_data : Z;
  so_read_buffer_size : Z;
  so_write_buffer_size : Z;
  so_operations : gmap Z (Operation H);
  so_next_operation_id : Z;
  so_closed : bool }.
Arguments mkSession {_ _} _ _ _ _ _ _ _ _ _ _ _ _ _ _ _.
Arguments so_parent {_ _} _.
Arguments so_parent_handle {_ _} _.
Arguments so_handle {_ _} _.
Arguments so_descriptor {_ _} _.
Arguments so_backend {_ _} _.
Arguments so_timeout {_ _} _.
Arguments so_termchar_enabled {_ _} _.
Arguments so_termchar {_ _} _.
Arguments so_send_end_enabled {_ _} _.
Arguments so_user_data {_ _} _.
Arguments so_read_buffer_size {_ _} _.
Arguments so_write_buffer_size {_ _} _.
Arguments so_operations {_ _} _.
Arguments so_next_operation_id {_ _} _.
Arguments so_closed {_ _} _.

(** The outcome of a call: status, [*return_count] (or the other output) when
    it is stored, the bytes stored in the buffer, the session. *)
Record session_result (B H : Type) := mkResult {
  sr_status : Z;
  sr_value : option Z;
  sr_data : list Z;
  sr_session : SessionObject B H }.
Arguments mkResult {_ _} _ _ _ _.
Arguments sr_status {_ _} _.
Arguments sr_value {_ _} _.
Arguments sr_data {_ _} _.
Arguments sr_session {_ _} _.

Section session.
  Context {B H : Type} `{BackendSession B H}.
  Context (now : Z) (interfere : nat -> Operation H -> Operation H).
  Implicit Types s : SessionObject B H.

Definition new_session (parent : nat) (parent_handle : Z) (d : ResourceDescriptor) (backend : B)
  : SessionObject B H :=
  mkSession parent parent_handle VI_NULL d backend 2000 VI_FALSE 10 VI_TRUE 0 4096 4096 ∅ 1 false.

Definition set_backend (b : B) s : SessionObject B H :=
  mkSession (so_parent s) (so_parent_handle s) (so_handle s) (so_descriptor s) b
    (so_timeout s) (so_termchar_enabled s) (so_termchar s) (so_send_end_enabled s)
    (so_user_data s) (so_read_buffer_size s) (so_write_buffer_size s) (so_operations s)
    (so_next_operation_id s) (so_closed s).

Definition set_handle (handle : Z) s : SessionObject B H :=
  mkSession (so_parent s) (so_parent_handle s) handle (so_descriptor s) (so_backend s)
    (so_timeout s) (so_termchar_enabled s) (so_termchar s) (so_send_end_enabled s)
    (so_user_data s) (so_read_buffer_size s) (so_write_buffer_size s) (so_operations s)
    (so_next_operation_id s) (so_closed s).

Definition set_operations (operations : gmap Z (Operation H)) (next : Z) (closed : bool) s
  : SessionObject B H :=
  mkSession (so_parent s) (so_parent_handle s) (so_handle s) (so_descriptor s) (so_backend s)
    (so_timeout s) (so_termchar_enabled s) (so_termchar s) (so_send_end_enabled s)
    (so_user_data s) (so_read_buffer_size s) (so_write_buffer_size s) operations next closed.

Definition session_resource s : str := rd_canonical_name (so_descriptor s).

(** ** Operations of a session *)

(** The identity under which the operation is registered ([emplace] does not
    overwrite), the operation, the session. *)
Definition begin_operation_with (timeout : Z) s : option Z * Operation H * SessionObject B H :=
  let op := new_operation timeout now in
  if so_closed s then
    let '(_, _, op') := request_cancel op in (None, op', s)
  else
    let id := so_next_operation_id s in
    match so_operations s !! id with
    | Some _ => (None, op, set_operations (so_operations s) (u64 (id + 1)) (so_closed s) s)
    | None => (Some id, op,
               set_operations (<[id := op]> (so_operations s)) (u64 (id + 1)) (so_closed s) s)
    end.

Definition begin_operation s : option Z * Operation H * SessionObject B H :=
  begin_operation_with (so_timeout s) s.

Definition finish_operation (id : option Z) s : SessionObject B H :=
  match id with
  | Some id => set_operations (delete id (so_operations s)) (so_next_operation_id s) (so_closed s) s
  | None => s
  end.

Definition active_operation_count s : nat := size (so_operations s).

(** [operation->try_complete(status) ? status : operation->result()]. *)
Definition final_status (status : Z) (op : Operation H) : Z :=
  let '(won, op') := try_complete status op in if won then status else op_result op'.

(** All registered operations cancelled, with the handlers called. *)
Definition cancel_all (operations : gmap Z (Operation H)) : gmap Z (Operation H) :=
  (fun op => (request_cancel op).2) <$> operations.

(** The notification of the lock manager's waiters has no state. *)
Definition cancel_operations s : Z * SessionObject B H :=
  (VI_SUCCESS,
   set_backend (be_notify_cancel (so_backend s))
     (set_operations (cancel_all (so_operations s)) (so_next_operation_id s) (so_closed s) s)).

Definition session_can_access (locks : LockManager) s : bool :=
  can_access (so_handle s) (session_resource s) locks.

(** ** Input and output *)

(** What the calls share: the access check, the operation around [body], and
    the final status.  [check] tells whether a call that finds its operation
    completed returns at once; [None] is a backend that never returns. *)
Definition run_call (check : bool) (locks : LockManager)
    (body : Operation H -> SessionObject B H -> option (call_result B H)) s
  : option (session_result B H) :=
  if negb (session_can_access locks s) then Some (mkResult VI_ERROR_RSRC_LOCKED None [] s)
  else
    let '(id, op, s1) := begin_operation s in
    let op := interfere 0 op in
    if check && completed op then
      Some (mkResult (op_result op) (Some 0) [] (finish_operation id s1))
    else
      r ← body op s1;
      Some (mkResult (final_status (cr_status r) (interfere 1 (cr_operation r)))
              (Some (cr_value r)) (cr_data r)
              (finish_operation id (set_backend (cr_backend r) s1))).

Definition session_read (count : Z) (locks : LockManager) s : option (session_result B H) :=
  run_call true locks (fun op s =>
    be_read op count
      (mkReadOptions (so_termchar_enabled s =? VI_TRUE) (so_termchar s)) (so_backend s)) s.

Definition session_write (buffer : list Z) (locks : LockManager) s : option (session_result B H) :=
  run_call true locks (fun op s =>
    be_write op buffer (mkWriteOptions (so_send_end_enabled s =? VI_TRUE)) (so_backend s)) s.

Definition session_clear (locks : LockManager) s : option (session_result B H) :=
  run_call false locks (fun op s => be_clear op (so_backend s)) s.

Definition session_flush (mask : Z) (locks : LockManager) s : option (session_result B H) :=
  run_call false locks (fun op s => be_flush op mask (so_backend s)) s.

Definition session_read_stb (present : bool) (locks : LockManager) s
  : option (session_result B H) :=
  run_call false locks (fun op s => be_read_stb op present (so_backend s)) s.

Definition session_assert_trigger (protocol : Z) (locks : LockManager) s
  : option (session_result B H) :=
  run_call false locks (fun op s => be_assert_trigger op protocol (so_backend s)) s.

Definition session_usb_control (request_type request value index : Z) (data : list Z) (count : Z)
    (locks : LockManager) s : option (session_result B H) :=
  run_call true locks (fun op s =>
    be_usb_control op request_type request value index data count (so_backend s)) s.

(** ** Locking *)

Record lock_result := mkLockResult {
  lr_status : Z;
  lr_access_key : str;
  lr_locks : LockManager;
  lr_session : SessionObject B H }.

(** The remote lock of a first acquisition: the status, the backend, the
    operation and the lock manager, in which a refusal has undone the local
    acquisition. *)
Definition lock_remote (lock_type : Z) (access_key : str) (status : Z) (op : Operation H)
    (locks : LockManager) s : option (Z * B * Operation H * LockManager) :=
  r ← be_lock op lock_type access_key (so_backend s);
  if cr_status r <? VI_SUCCESS then
    let '(_, locks', _) := release (so_handle s) (session_resource s) locks in
    Some (cr_status r, cr_backend r, cr_operation r, locks')
  else Some (status, cr_backend r, cr_operation r, locks).

(** [wakeups] is the schedule of [LockManager::acquire]. *)
Definition session_lock (lock_type timeout : Z) (requested_key : option str)
    (wakeups : list evaluation) (locks : LockManager) s : option lock_result :=
  let '(id, op, s1) := begin_operation_with timeout s in
  let op := interfere 0 op in
  if completed op then Some (mkLockResult (op_result op) [] locks (finish_operation id s1))
  else
    let previous_depth := owned_lock_depth (so_handle s) (session_resource s) locks in
    let rq := mkLockRequest (so_handle s) (session_resource s) lock_type requested_key in
    match acquire timeout rq None locks wakeups with
    | Waiting => None
    | Returned status key locks1 =>
        let op := interfere 1 op in
        let access_key := default [] key in
        if status <? VI_SUCCESS then
          Some (mkLockResult (op_result (try_complete status op).2) access_key locks1
                  (finish_operation id s1))
        else
          '(status, backend, op, locks2) ←
            (if previous_depth =? 0 then lock_remote lock_type access_key status op locks1 s1
             else Some (status, so_backend s1, op, locks1));
          let s2 := finish_operation id (set_backend backend s1) in
          let '(won, op') := try_complete status (interfere 2 op) in
          if negb won then
            let '(_, locks3, _) := release (so_handle s) (session_resource s) locks2 in
            Some (mkLockResult (op_result op') access_key locks3 s2)
          else Some (mkLockResult status access_key locks2 s2)
    end.

Definition session_unlock (locks : LockManager) s : option lock_result :=
  let depth := owned_lock_depth (so_handle s) (session_resource s) locks in
  if depth =? 0 then Some (mkLockResult VI_ERROR_SESN_NLOCKED [] locks s)
  else if 1 <? depth then
    let '(status, locks', _) := release (so_handle s) (session_resource s) locks in
    Some (mkLockResult status [] locks' s)
  else
    let '(id, op, s1) := begin_operation s in
    r ← be_unlock (interfere 0 op) (so_backend s1);
    let s2 := finish_operation id (set_backend (cr_backend r) s1) in
    let '(won, op') := try_complete (cr_status r) (interfere 1 (cr_operation r)) in
    if negb won then Some (mkLockResult (op_result op') [] locks s2)
    else if cr_status r <? VI_SUCCESS then Some (mkLockResult (cr_status r) [] locks s2)
    else
      let '(status, locks', _) := release (so_handle s) (session_resource s) locks in
      Some (mkLockResult status [] locks' s2).

(** ** Attributes *)

Definition UINT32_MAX : Z := 2 ^ 32 - 1.
Definition UINT8_MAX : Z := 255.

Definition is_boolean (value : Z) : bool := (value =? VI_FALSE) || (value =? VI_TRUE).

Definition with_settings (timeout termchar_enabled termchar send_end user_data : Z) s
  : SessionObject B H :=
  mkSession (so_parent s) (so_parent_handle s) (so_handle s) (so_descriptor s) (so_backend s)
    timeout termchar_enabled termchar send_end user_data (so_read_buffer_size s)
    (so_write_buffer_size s) (so_operations s) (so_next_operation_id s) (so_closed s).

Definition readonly_attributes : list Z :=
  [VI_ATTR_RSRC_CLASS; VI_ATTR_RSRC_NAME; VI_ATTR_RSRC_IMPL_VERSION; VI_ATTR_RSRC_LOCK_STATE;
   VI_ATTR_RD_BUF_SIZE; VI_ATTR_WR_BUF_SIZE; VI_ATTR_RM_SESSION; VI_ATTR_RSRC_SPEC_VERSION;
   VI_ATTR_INTF_TYPE; VI_ATTR_INTF_NUM].

(** [value] is a 64-bit [ViAttrState]. *)
Definition session_set_attribute (attribute value : Z) s : Z * SessionObject B H :=
  let te := so_termchar_enabled s in
  let tc := so_termchar s in
  let se := so_send_end_enabled s in
  let ud := so_user_data s in
  if attribute =? VI_ATTR_TMO_VALUE then
    if UINT32_MAX <? value then (VI_ERROR_NSUP_ATTR_STATE, s)
    else (VI_SUCCESS, with_settings (u32 value) te tc se ud s)
  else if attribute =? VI_ATTR_TERMCHAR then
    if UINT8_MAX <? value then (VI_ERROR_NSUP_ATTR_STATE, s)
    else (VI_SUCCESS, with_settings (so_timeout s) te (u8 value) se ud s)
  else if attribute =? VI_ATTR_TERMCHAR_EN then
    if negb (is_boolean value) then (VI_ERROR_NSUP_ATTR_STATE, s)
    else (VI_SUCCESS, with_settings (so_timeout s) (u16 value) tc se ud s)
  else if attribute =? VI_ATTR_SEND_END_EN then
    if negb (is_boolean value) then (VI_ERROR_NSUP_ATTR_STATE, s)
    else (VI_SUCCESS, with_settings (so_timeout s) te tc (u16 value) ud s)
  else if attribute =? VI_ATTR_USER_DATA then
    (VI_SUCCESS, with_settings (so_timeout s) te tc se value s)
  else if existsb (Z.eqb attribute) readonly_attributes then (VI_ERROR_ATTR_READONLY, s)
  else
    let '(status, b) := be_set_attribute attribute value (so_backend s) in
    (status, set_backend b s).

(** The status and what is stored through the pointer, which is not null in
    the calls of [viGetAttribute]; [present] is the check made again here. *)
Definition session_get_attribute (present : bool) (attribute : Z) (locks : LockManager) s
  : Z * option attr_value :=
  let number v := (VI_SUCCESS, Some (attr_number v)) in
  let string v := (VI_SUCCESS, Some (attr_string (copy_string v))) in
  if negb present then (VI_ERROR_INV_PARAMETER, None)
  else if attribute =? VI_ATTR_RSRC_CLASS then string (rd_resource_class (so_descriptor s))
  else if attribute =? VI_ATTR_RSRC_NAME then string (rd_canonical_name (so_descriptor s))
  else if attribute =? VI_ATTR_RSRC_IMPL_VERSION then number 0x00000600
  else if attribute =? VI_ATTR_RSRC_LOCK_STATE then
    number (owned_lock_type (so_handle s) (session_resource s) locks)
  else if attribute =? VI_ATTR_USER_DATA then number (so_user_data s)
  else if attribute =? VI_ATTR_SEND_END_EN then number (so_send_end_enabled s)
  else if attribute =? VI_ATTR_TERMCHAR then number (so_termchar s)
  else if attribute =? VI_ATTR_TMO_VALUE then number (so_timeout s)
  else if attribute =? VI_ATTR_RD_BUF_SIZE then number (so_read_buffer_size s)
  else if attribute =? VI_ATTR_WR_BUF_SIZE then number (so_write_buffer_size s)
  else if attribute =? VI_ATTR_TERMCHAR_EN then number (so_termchar_enabled s)
  else if attribute =? VI_ATTR_RM_SESSION then number (so_parent_handle s)
  else if attribute =? VI_ATTR_RSRC_SPEC_VERSION then number VI_SPEC_VERSION
  else if attribute =? VI_ATTR_INTF_TYPE then number (rd_interface_type (so_descriptor s))
  else if attribute =? VI_ATTR_INTF_NUM then number (rd_interface_number (so_descriptor s))
  else be_get_attribute attribute (so_backend s).

Definition with_buffers (read_size write_size : Z) s : SessionObject B H :=
  mkSession (so_parent s) (so_parent_handle s) (so_handle s) (so_descriptor s) (so_backend s)
    (so_timeout s) (so_termchar_enabled s) (so_termchar s) (so_send_end_enabled s)
    (so_user_data s) read_size write_size (so_operations s) (so_next_operation_id s)
    (so_closed s).

Definition buffer_masks : Z := VI_READ_BUF + VI_WRITE_BUF + VI_IO_IN_BUF + VI_IO_OUT_BUF.

Definition session_set_buffer (mask size : Z) s : Z * SessionObject B H :=
  if size =? 0 then (VI_ERROR_INV_SIZE, s)
  else if (mask =? 0) || negb (Z.land mask (0xFFFF - buffer_masks) =? 0)
  then (VI_ERROR_INV_MASK, s)
  else
    (VI_SUCCESS,
     with_buffers
       (if Z.land mask (VI_READ_BUF + VI_IO_IN_BUF) =? 0 then so_read_buffer_size s else size)
       (if Z.land mask (VI_WRITE_BUF + VI_IO_OUT_BUF) =? 0 then so_write_buffer_size s else size)
       s).

(** ** Closing

    [close] first closes the door and cancels what is running, then waits for
    [operations_] to drain, then gives up the locks; the removal from the parent
    is in the API model. *)

Definition session_close_begin s : SessionObject B H :=
  let had_operations := negb (bool_decide (so_operations s = ∅)) in
  let s1 := set_operations (cancel_all (so_operations s)) (so_next_operation_id s) true s in
  let backend := if had_operations then be_notify_cancel (so_backend s1) else so_backend s1 in
  set_backend (be_close backend) s1.

(** [None] while operations are still registered. *)
Definition session_close_end (locks : LockManager) s : option LockManager :=
  if bool_decide (so_operations s = ∅)
  then Some (release_all (so_handle s) (session_resource s) locks).1
  else None.

Definition session_close (locks : LockManager) s : option (LockManager * SessionObject B H) :=
  let s1 := session_close_begin s in
  locks' ← session_close_end locks s1;
  Some (locks', s1).

End session.

(** ** Calls as data *)

Definition session_io {B H} `{BackendSession B H} (now : Z)
    (interfere : nat -> Operation H -> Operation H) (c : io_call) (locks : LockManager)
    (s : SessionObject B H) : option (session_result B H) :=
  match c with
  | IoRead count => session_read now interfere count locks s
  | IoWrite buffer => session_write now interfere buffer locks s
  | IoClear => session_clear now interfere locks s
  | IoFlush mask => session_flush now interfere mask locks s
  | IoReadStb present => session_read_stb now interfere present locks s
  | IoAssertTrigger protocol => session_assert_trigger now interfere protocol locks s
  | IoUsbControl request_type request value index data count =>
      session_usb_control now interfere request_type request value index data count locks s
  end.

(** Which calls look at their operation before they go to the backend. *)
Definition io_checks (c : io_call) : bool :=
  match c with IoRead _ | IoWrite _ | IoUsbControl _ _ _ _ _ _ => true | _ => false end.

Definition read_options {B H} (s : SessionObject B H) : ReadOptions :=
  mkReadOptions (so_termchar_enabled s =? VI_TRUE) (so_termchar s).

Definition write_options {B H} (s : SessionObject B H) : WriteOptions :=
  mkWriteOptions (so_send_end_enabled s =? VI_TRUE).

Section proofs.
Context {B H : Type} `{BackendLaws B H}.
Context (now : Z) (interfere : nat -> Operation H -> Operation H).
Implicit Types s : SessionObject B H.

(** The other threads never change the result of a completed operation
    ([Operation.operation_completes_once]), and cancel with an error. *)
Hypothesis interfere_keeps : forall i op, keeps_result op (interfere i op).
Hypothesis interfere_fails : forall i op, fails_only op -> fails_only (interfere i op).

(** The session but for its backend and its operation counter. *)
Definition same_session s s' : Prop :=
  exists b n, s' = set_operations (so_operations s) n (so_closed s) (set_backend b s).

Lemma same_session_refl s : same_session s s.
Proof. exists (so_backend s), (so_next_operation_id s). by destruct s. Qed.

Lemma session_io_run c locks s :
  session_io now interfere c locks s =
    run_call now interfere (io_checks c) locks (fun op s1 =>
      backend_call c (read_options s1) (write_options s1) op (so_backend s1)) s.
Proof. by destruct c. Qed.

Lemma finish_begin timeout s id op s1 b :
  begin_operation_with now timeout s = (id, op, s1) ->
  same_session s (finish_operation id (set_backend b s1)).
Proof.
  unfold begin_operation_with. destruct s as [p ph h d b0 t te tc se ud rs ws ops n cl]. simpl.
  destruct cl; [intros [= <- <- <-]; by exists b, n|].
  destruct (ops !! n) eqn:Hn; intros [= <- <- <-].
  - by exists b, (u64 (n + 1)).
  - exists b, (u64 (n + 1)). unfold set_operations, set_backend, finish_operation. simpl.
    by rewrite delete_insert_id.
Qed.

Lemma finish_begin_id timeout s id op s1 :
  begin_operation_with now timeout s = (id, op, s1) -> same_session s (finish_operation id s1).
Proof.
  intros Hb. assert (set_backend (so_backend s1) s1 = s1) as <- by (by destruct s1).
  by eapply finish_begin.
Qed.

Lemma begin_backend timeout s id op s1 :
  begin_operation_with now timeout s = (id, op, s1) -> so_backend s1 = so_backend s.
Proof.
  unfold begin_operation_with. destruct (so_closed s); [by intros [= <- <- <-]|].
  by destruct (so_operations s !! so_next_operation_id s); intros [= <- <- <-].
Qed.

(** A new operation is pending, or cancelled when the session is closed. *)
Lemma begin_operation_state timeout s id op s1 :
  begin_operation_with now timeout s = (id, op, s1) ->
  result_ op = if so_closed s then VI_ERROR_ABORT else kPending.
Proof.
  unfold begin_operation_with. destruct (so_closed s); [by intros [= <- <- <-]|].
  by destruct (so_operations s !! so_next_operation_id s); intros [= <- <- <-].
Qed.

Lemma final_status_pending status (op : Operation H) :
  completed op = false -> final_status status op = status.
Proof.
  unfold final_status, try_complete, completed. intros Hc. by apply negb_false_iff in Hc as ->.
Qed.

Lemma final_status_completed status (op : Operation H) :
  completed op = true -> final_status status op = op_result op.
Proof.
  unfold final_status, try_complete, completed. intros Hc. by apply negb_true_iff in Hc as ->.
Qed.

(** C9: what every call of a session does, whatever its backend and whatever
    other threads do to its operation: if another session's lock denies access
    it fails without touching anything; otherwise it leaves the session as it
    was but for the backend (its operation is no longer registered, the others
    are), and on a closed session it reports [VI_ERROR_ABORT], which reads and
    writes do without going to the backend. *)
Theorem session_io_contract c locks s r :
  session_io now interfere c locks s = Some r ->
  (session_can_access locks s = false ->
     sr_status r = VI_ERROR_RSRC_LOCKED /\ sr_data r = [] /\ sr_session r = s) /\
  (session_can_access locks s = true ->
     same_session s (sr_session r) /\
     (so_closed s = true -> sr_status r = VI_ERROR_ABORT /\
        (io_checks c = true -> sr_data r = [] /\ so_backend (sr_session r) = so_backend s)) /\
     (so_closed s = false -> forall op,
        (begin_operation now s).1.2 = op -> completed (interfere 0 op) = false ->
        exists br, backend_call c (read_options s) (write_options s) (interfere 0 op) (so_backend s)
                     = Some br /\
          sr_data r = cr_data br /\ so_backend (sr_session r) = cr_backend br /\
          sr_status r = final_status (cr_status br) (interfere 1 (cr_operation br)))).
Proof.
  rewrite session_io_run. unfold run_call, begin_operation. intros Hr.
  destruct (session_can_access locks s); [split; [done|]; intros _|by injection Hr as <-].
  simpl in Hr. destruct (begin_operation_with now (so_timeout s) s) as [[id op] s1] eqn:Hbegin.
  pose proof (begin_operation_state _ _ _ _ _ Hbegin) as Hop.
  pose proof (begin_backend _ _ _ _ _ Hbegin) as Hback.
  assert (read_options s1 = read_options s /\ write_options s1 = write_options s) as [Hro Hwo].
  { pose proof Hbegin as Hb. unfold begin_operation_with in Hb.
    destruct (so_closed s); [by injection Hb as <- <- <-|].
    destruct (so_operations s !! so_next_operation_id s); by injection Hb as <- <- <-. }
  destruct (io_checks c && completed (interfere 0 op)) eqn:Hcheck.
  - injection Hr as <-. apply andb_prop in Hcheck as [_ Hdone]. simpl.
    split; [by eapply finish_begin_id|]. split.
    + intros Hclosed. rewrite Hclosed in Hop. split.
      * unfold op_result. rewrite (interfere_keeps 0%nat op); [done|]. unfold completed. by rewrite Hop.
      * intros _. split; [done|]. rewrite <- Hback. by destruct id.
    + intros _ op0 <- Hpend. by rewrite Hpend in Hdone.
  - destruct (backend_call c _ _ (interfere 0 op) _) as [br|] eqn:Hcall; [|done].
    injection Hr as <-. simpl. split; [by eapply finish_begin|]. split.
    + intros Hclosed. rewrite Hclosed in Hop.
      assert (completed op = true) as Hdone by (unfold completed; by rewrite Hop).
      assert (result_ (interfere 0 op) = VI_ERROR_ABORT) as Hr0 by (by rewrite (interfere_keeps 0%nat op Hdone)).
      assert (completed (interfere 0 op) = true) as Hdone0 by (unfold completed; by rewrite Hr0).
      pose proof (call_keeps_result _ _ _ _ _ _ Hcall Hdone0) as Hr1. rewrite Hr0 in Hr1.
      assert (completed (cr_operation br) = true) as Hdone1 by (unfold completed; by rewrite Hr1).
      pose proof (interfere_keeps 1%nat _ Hdone1) as Hr2. rewrite Hr1 in Hr2. split.
      * rewrite final_status_completed by (unfold completed; by rewrite Hr2). done.
      * intros Hchk. by rewrite Hchk, Hdone0 in Hcheck.
    + intros _ op0 <- Hpend. exists br. rewrite <- Hro, <- Hwo, <- Hback.
      split; [done|]. split; [done|]. split; [by destruct id|done].
Qed.

(** ** Locks *)

(** No other thread acquires or releases a lock during the call; the call may
    be woken, time out, or be cancelled. *)
Definition quiet (locks : LockManager) (ev : evaluation) : Prop :=
  ev_manager ev = locks /\ (forall d, ev_done ev = Some d -> d < VI_SUCCESS).

Lemma acquire_quiet timeout rq locks wakeups status key m' :
  Forall (quiet locks) wakeups ->
  acquire timeout rq None locks wakeups = Returned status key m' ->
  (status < VI_SUCCESS /\ m' = locks) \/
  (acquire_check rq = None /\ grantable rq None locks = true /\
   acquire_commit rq None locks = (status, key, m')).
Proof.
  intros Hq. unfold acquire. destruct (acquire_check rq) as [e|] eqn:Hchk.
  { intros [= <- <- <-]. left. split; [|done]. unfold acquire_check in Hchk.
    repeat case_match; simplify_eq; done. }
  assert (Forall (quiet locks) (mkEvaluation false locks None :: wakeups)) as Hq' by (by constructor).
  revert Hq'. generalize (mkEvaluation false locks None :: wakeups). clear wakeups Hq.
  induction l as [|ev l IH]; intros Hq Hr; cbn [acquire_wait] in Hr; [done|].
  apply Forall_cons in Hq as [[Hm Hd] Hq]. destruct ev as [expired m done].
  cbn [ev_manager ev_done ev_expired] in *. subst m.
  destruct (grantable rq done locks) eqn:Hg.
  - destruct done as [d|].
    + injection Hr as <- <- <-. left. split; [by apply Hd|done].
    + right. split; [done|]. split; [done|].
      destruct (acquire_commit rq None locks) as [[st k] m1]. by injection Hr as <- <- <-.
  - destruct (expired && _); [|by apply IH]. injection Hr as <- <- <-. by left.
Qed.

Lemma lock_remote_spec n lock_type access_key status op locks s x :
  manager_ok n locks -> n < 2 ^ 32 -> fails_only op -> VI_SUCCESS <= status ->
  lock_remote lock_type access_key status op locks s = Some x ->
  let '(status', b, op', locks') := x in
  fails_only op' /\ manager_ok n locks' /\
  ((VI_SUCCESS <= status' /\ locks' = locks) \/
   (status' < VI_SUCCESS /\
    locks' = (release (so_handle s) (session_resource s) locks).1.2)).
Proof.
  intros Hok Hn Hf Hst. unfold lock_remote. intros Hx.
  apply bind_Some in Hx as (r & Hr & Hx). pose proof (lock_fails_only _ _ _ _ _ Hr Hf) as Hf'.
  destruct (Z.ltb_spec (cr_status r) VI_SUCCESS) as [Hlt|Hge].
  - destruct (release _ _ locks) as [[st m'] nt] eqn:Hrel. injection Hx as <-.
    pose proof (release_spec n _ _ _ _ _ _ Hok Hn Hrel) as [Hok' _]. auto.
  - injection Hx as <-. auto.
Qed.

(** Releasing twice after one grant to a session that held nothing is releasing
    once. *)
Lemma release_extra n owner resource depth m m1 :
  manager_ok n m1 -> n < 2 ^ 32 -> 0 <= depth ->
  depth_update owner resource (depth + 1) m m1 ->
  owned_lock_depth owner resource m = depth ->
  let m2 := (release owner resource m1).1.2 in
  manager_ok n m2 /\ depth_update owner resource depth m m2 /\
  (depth = 0 -> (release owner resource m2).1.2 = m2).
Proof.
  intros Hok Hn Hd [Hu Ho] Hdep. destruct (release owner resource m1) as [[st m2] nt] eqn:Hrel. simpl.
  destruct (release_spec n _ _ _ _ _ _ Hok Hn Hrel) as [Hok2 [(_ & _ & Hu2 & Ho2)|(_ & _ & _ & Hz)]]; [|lia].
  split; [done|]. split.
  - split; [lia|]. intros o r Hne. rewrite Ho2, Ho by done. done.
  - intros ->. destruct (release owner resource m2) as [[st2 m3] nt2] eqn:Hrel2. simpl.
    destruct (release_spec n _ _ _ _ _ _ Hok2 Hn Hrel2) as [_ [(_ & Hpos & _)|(_ & -> & _)]]; [lia|done].
Qed.

Lemma owned_lock_depth_nonneg n owner resource m :
  manager_ok n m -> 0 <= owned_lock_depth owner resource m.
Proof.
  intros Hok. rewrite owned_lock_depth_state.
  destruct (manager_ok_state n m resource Hok) as [->|Hst]; [done|].
  destruct Hst as [ow depth key Hd|ow depth key owners Hne Hall]; simpl.
  - rewrite state_depth_exclusive. case_match; lia.
  - rewrite state_depth_shared. destruct (owners !! owner) eqn:Ho; simpl; [|lia].
    apply Hall in Ho. lia.
Qed.

Lemma try_complete_cases status (op : Operation H) :
  fails_only op ->
  let '(won, op') := try_complete status op in
  if won then op_result op' = status else op_result op' < VI_SUCCESS.
Proof.
  unfold fails_only, completed, try_complete, op_result. intros Hf.
  destruct (result_ op =? kPending) eqn:Hp; [done|]. by apply Hf.
Qed.

Lemma begin_fails_only timeout s id op s1 :
  begin_operation_with now timeout s = (id, op, s1) -> fails_only op.
Proof.
  intros Hb%begin_operation_state. unfold fails_only, completed, op_result. rewrite Hb.
  by destruct (so_closed s).
Qed.

Definition lock_effect n s locks (d : Z) (r : lock_result) : Prop :=
  manager_ok n (lr_locks r) /\ same_session s (lr_session r) /\
  depth_update (so_handle s) (session_resource s) d locks (lr_locks r).

Lemma same_session_names s s1 :
  same_session s s1 -> so_handle s1 = so_handle s /\ session_resource s1 = session_resource s.
Proof. by intros (b & n & ->). Qed.

Lemma begin_names timeout s id op s1 :
  begin_operation_with now timeout s = (id, op, s1) ->
  so_handle s1 = so_handle s /\ session_resource s1 = session_resource s.
Proof.
  intros Hb. pose proof (same_session_names _ _ (finish_begin_id _ _ _ _ _ Hb)) as Hn.
  by destruct id.
Qed.

(** The end of [lock] after a local grant. *)
Lemma session_lock_granted n s locks locks1 id op s1 lock_type access_key status r :
  let d := owned_lock_depth (so_handle s) (session_resource s) locks in
  manager_ok n locks1 -> n < 2 ^ 32 -> 0 <= d -> fails_only op -> VI_SUCCESS <= status ->
  depth_update (so_handle s) (session_resource s) (d + 1) locks locks1 ->
  (forall b, same_session s (finish_operation id (set_backend b s1))) ->
  so_handle s1 = so_handle s -> session_resource s1 = session_resource s ->
  ('(status, backend, op, locks2) ←
     (if d =? 0 then lock_remote lock_type access_key status op locks1 s1
      else Some (status, so_backend s1, op, locks1));
   let s2 := finish_operation id (set_backend backend s1) in
   let '(won, op') := try_complete status (interfere 2 op) in
   if negb won then
     let '(_, locks3, _) := release (so_handle s) (session_resource s) locks2 in
     Some (mkLockResult (op_result op') access_key locks3 s2)
   else Some (mkLockResult status access_key locks2 s2)) = Some r ->
  lock_effect n s locks (if lr_status r <? VI_SUCCESS then d else d + 1) r.
Proof.
  intros d Hok Hn Hd Hf Hst Hupd Hsame Hh Hres Hr.
  apply bind_Some in Hr as ([[[status2 b] op2] locks2] & Hx & Hr).
  pose proof (release_extra n _ _ d _ _ Hok Hn Hd Hupd eq_refl) as (Hok1 & Hupd1 & Hagain).
  assert (fails_only op2 /\ manager_ok n locks2 /\
    ((VI_SUCCESS <= status2 /\ locks2 = locks1) \/
     (d = 0 /\ status2 < VI_SUCCESS /\
      locks2 = (release (so_handle s) (session_resource s) locks1).1.2))) as (Hf2 & Hok2 & Hcase).
  { destruct (Z.eqb_spec d 0) as [Hz|Hz].
    - pose proof (lock_remote_spec n _ _ _ _ _ _ _ Hok Hn Hf Hst Hx) as Hspec. simpl in Hspec.
      rewrite Hh, Hres in Hspec. destruct Hspec as (? & ? & [?|[? ?]]); auto 6.
    - injection Hx as <- <- <- <-. auto. }
  pose proof (try_complete_cases status2 _ (interfere_fails 2%nat _ Hf2)) as Hfinal.
  destruct (try_complete status2 (interfere 2%nat op2)) as [[] op'] eqn:Htry; simpl in Hr.
  - injection Hr as <-. unfold lock_effect. simpl.
    destruct Hcase as [[Hge ->]|(Hz & Hlt & ->)].
    + rewrite (proj2 (Z.ltb_ge _ _)) by lia. auto.
    + rewrite (proj2 (Z.ltb_lt _ _)) by lia. auto.
  - destruct (release (so_handle s) (session_resource s) locks2) as [[st locks3] nt] eqn:Hrel.
    injection Hr as <-. unfold lock_effect. simpl. rewrite (proj2 (Z.ltb_lt _ _)) by lia.
    assert (locks3 = (release (so_handle s) (session_resource s) locks2).1.2) as Hl3 by (by rewrite Hrel).
    destruct Hcase as [[Hge ->]|(Hz & Hlt & ->)].
    + rewrite Hl3. auto.
    + rewrite (Hagain Hz) in Hl3. rewrite Hl3. auto.
Qed.


(** Unlocking through a session: a success has lowered its lock depth by
    one, an error (none held, the remote refuses, the call is cancelled) has
    changed no lock at all; only the last unlock goes to the backend. *)
Theorem session_unlock_depth n locks s r :
  manager_ok n locks -> n < 2 ^ 32 ->
  session_unlock now interfere locks s = Some r ->
  let d := owned_lock_depth (so_handle s) (session_resource s) locks in
  lock_effect n s locks (if lr_status r <? VI_SUCCESS then d else d - 1) r /\
  (VI_SUCCESS <= lr_status r -> 0 < d) /\
  (1 < d -> lr_session r = s).
Proof.
  intros Hok Hn Hr d. unfold session_unlock in Hr. fold d in Hr.
  pose proof (owned_lock_depth_nonneg n (so_handle s) (session_resource s) locks Hok) as Hd. fold d in Hd.
  assert (forall status s1, status < VI_SUCCESS -> same_session s s1 ->
    lock_effect n s locks (if status <? VI_SUCCESS then d else d - 1)
      (mkLockResult status [] locks s1)) as Herr.
  { intros status s1 Hlt Hs1. rewrite (proj2 (Z.ltb_lt _ _)) by done.
    split; [done|]. split; [done|apply depth_update_id]. }
  destruct (Z.eqb_spec d 0) as [Hz|Hnz].
  { injection Hr as <-. split; [by apply Herr; [|apply same_session_refl]|]. simpl.
    split; [done|lia]. }
  destruct (release (so_handle s) (session_resource s) locks) as [[st locks'] nt] eqn:Hrel.
  destruct (release_spec n _ _ _ _ _ _ Hok Hn Hrel) as [Hok' [(-> & _ & Hupd)|(_ & _ & _ & Hz)]]; [|lia].
  fold d in Hupd.
  destruct (Z.ltb_spec 1 d) as [Hgt|Hle].
  { injection Hr as <-. simpl. split; [|by split; [lia|]].
    split; [done|]. split; [apply same_session_refl|done]. }
  destruct (begin_operation now s) as [[id op] s1] eqn:Hbegin.
  apply bind_Some in Hr as (br & Hbr & Hr).
  pose proof (interfere_fails 0%nat _ (begin_fails_only _ _ _ _ _ Hbegin)) as Hf.
  pose proof (interfere_fails 1%nat _ (unlock_fails_only _ _ _ Hbr Hf)) as Hf1.
  pose proof (finish_begin _ _ _ _ _ (cr_backend br) Hbegin) as Hsame.
  pose proof (try_complete_cases (cr_status br) _ Hf1) as Hfin.
  destruct (try_complete (cr_status br) _) as [[] op']; simpl in Hr.
  - destruct (Z.ltb_spec (cr_status br) VI_SUCCESS) as [Hlt|Hge]; injection Hr as <-.
    + split; [by apply Herr|]. simpl. split; [lia|lia].
    + simpl. split; [by split; [|split]|]. split; [lia|lia].
  - injection Hr as <-. split; [by apply Herr|]. simpl. split; [lia|lia].
Qed.

(** ** Attributes *)

Definition writable_attributes : list Z :=
  [VI_ATTR_TMO_VALUE; VI_ATTR_TERMCHAR; VI_ATTR_TERMCHAR_EN; VI_ATTR_SEND_END_EN;
   VI_ATTR_USER_DATA].

(** The values a writable attribute takes. *)
Definition in_domain (attribute value : Z) : bool :=
  if attribute =? VI_ATTR_TMO_VALUE then value <=? UINT32_MAX
  else if attribute =? VI_ATTR_TERMCHAR then value <=? UINT8_MAX
  else if attribute =? VI_ATTR_USER_DATA then true
  else is_boolean value.

Lemma is_boolean_range value : is_boolean value = true -> 0 <= value <= 1.
Proof. unfold is_boolean, VI_FALSE, VI_TRUE. lia. Qed.

(** Decides the comparisons of attribute constants. *)
Ltac eval_attributes :=
  repeat match goal with
  | |- context [?a =? ?b] =>
      let r := eval vm_compute in (a =? b) in
      first [constr_eq r true | constr_eq r false]; change (a =? b) with r
  end; cbv beta iota.

Ltac each_attribute Hin :=
  unfold writable_attributes, readonly_attributes in Hin;
  rewrite ?elem_of_cons, elem_of_nil in Hin;
  repeat match type of Hin with _ \/ _ => destruct Hin as [->|Hin] end; try done.

Lemma set_in_domain attribute value locks s :
  0 <= value < 2 ^ 64 -> attribute ∈ writable_attributes -> in_domain attribute value = true ->
  exists s', session_set_attribute attribute value s = (VI_SUCCESS, s') /\
    session_get_attribute true attribute locks s' = (VI_SUCCESS, Some (attr_number value)) /\
    forall other, other ≠ attribute ->
      session_get_attribute true other locks s' = session_get_attribute true other locks s.
Proof.
  intros Hv Hin. each_attribute Hin; unfold in_domain, session_set_attribute; eval_attributes; intros Hd.
  1,2: apply Z.leb_le in Hd; rewrite (proj2 (Z.ltb_ge _ _)) by done.
  3,4: rewrite Hd; apply is_boolean_range in Hd; cbn [negb].
  all: eexists; split; [reflexivity|]; split;
    [unfold session_get_attribute; eval_attributes; cbn [negb]; do 3 f_equal;
     unfold UINT32_MAX, UINT8_MAX in *; simpl; unfold u8, u16, u32; rewrite ?Z.mod_small by lia; done
    |intros other Hne; unfold session_get_attribute;
     rewrite (proj2 (Z.eqb_neq _ _) Hne); reflexivity].
Qed.

Lemma set_out_of_domain attribute value s :
  attribute ∈ writable_attributes -> in_domain attribute value = false ->
  session_set_attribute attribute value s = (VI_ERROR_NSUP_ATTR_STATE, s).
Proof.
  intros Hin. each_attribute Hin; unfold in_domain, session_set_attribute; eval_attributes; intros Hd; try done.
  1,2: apply Z.leb_gt in Hd; by rewrite (proj2 (Z.ltb_lt _ _)).
  all: by rewrite Hd.
Qed.

Lemma set_readonly attribute value s :
  attribute ∈ readonly_attributes ->
  session_set_attribute attribute value s = (VI_ERROR_ATTR_READONLY, s).
Proof. intros Hin. each_attribute Hin; reflexivity. Qed.

Lemma set_backend_attribute attribute value s :
  attribute ∉ writable_attributes -> attribute ∉ readonly_attributes ->
  session_set_attribute attribute value s =
    let '(status, b) := be_set_attribute attribute value (so_backend s) in (status, set_backend b s).
Proof.
  unfold session_set_attribute. intros Hw Hr.
  unfold writable_attributes in Hw. rewrite !not_elem_of_cons in Hw.
  destruct Hw as (H1' & H2' & H3' & H4' & H5' & _).
  rewrite !(proj2 (Z.eqb_neq _ _)) by done.
  assert (existsb (Z.eqb attribute) readonly_attributes = false) as ->; [|done].
  apply not_true_iff_false. intros Hex. apply existsb_exists in Hex as (a & Ha & Heq).
  apply Z.eqb_eq in Heq as ->. by apply Hr, list_elem_of_In.
Qed.

(** Writing an attribute: a writable attribute takes exactly the values of
    its domain, is read back as written, and no other attribute changes; a value
    outside the domain and a read-only attribute are refused with the session
    unchanged; any other attribute is the backend's. *)
Theorem session_attribute_round_trip attribute value locks s :
  0 <= value < 2 ^ 64 ->
  (attribute ∈ writable_attributes -> in_domain attribute value = true ->
     exists s', session_set_attribute attribute value s = (VI_SUCCESS, s') /\
       session_get_attribute true attribute locks s' = (VI_SUCCESS, Some (attr_number value)) /\
       forall other, other ≠ attribute ->
         session_get_attribute true other locks s' = session_get_attribute true other locks s) /\
  (attribute ∈ writable_attributes -> in_domain attribute value = false ->
     session_set_attribute attribute value s = (VI_ERROR_NSUP_ATTR_STATE, s)) /\
  (attribute ∈ readonly_attributes ->
     session_set_attribute attribute value s = (VI_ERROR_ATTR_READONLY, s)) /\
  (attribute ∉ writable_attributes -> attribute ∉ readonly_attributes ->
     session_set_attribute attribute value s =
       let '(status, b) := be_set_attribute attribute value (so_backend s) in
       (status, set_backend b s)).
Proof.
  intros Hv. split; [by apply set_in_domain|]. split; [by apply set_out_of_domain|].
  split; [by apply set_readonly|by apply set_backend_attribute].
Qed.

(** ** Closing *)

(** Closing a session: once it has begun, every registered operation is
    completed, with [VI_ERROR_ABORT] unless it already was, and no call can
    register another (it finds its operation aborted at once); it ends when, and
    only when, the registered operations are gone, and then the session holds no
    lock while every other session's locks are as they were. *)
Theorem session_close_contract n locks s :
  manager_ok n locks ->
  let s1 := session_close_begin s in
  (forall id op, so_operations s !! id = Some op ->
     exists op', so_operations s1 !! id = Some op' /\ completed op' = true /\
       op_result op' = if completed op then op_result op else VI_ERROR_ABORT) /\
  (forall timeout, exists op, begin_operation_with now timeout s1 = (None, op, s1) /\
     op_result op = VI_ERROR_ABORT) /\
  (session_close_end locks s1 = None <-> so_operations s ≠ ∅) /\
  (forall locks', session_close_end locks s1 = Some locks' ->
     manager_ok n locks' /\
     depth_update (so_handle s) (session_resource s) 0 locks locks').
Proof.
  intros Hok s1.
  assert (so_operations s1 = cancel_all (so_operations s)) as Hops by done.
  assert (so_operations s1 = ∅ <-> so_operations s = ∅) as Hempty
    by (rewrite Hops; unfold cancel_all; apply fmap_empty_iff).
  split; [|split; [|split]].
  - intros id op Hop. rewrite Hops. unfold cancel_all. rewrite lookup_fmap, Hop. simpl.
    eexists. split; [done|]. unfold request_cancel, complete_and_notify, try_complete, completed, op_result.
    destruct (result_ op =? kPending) eqn:Hp; simpl; [done|]. by rewrite Hp.
  - intros timeout. eexists. by split.
  - unfold session_close_end. case_bool_decide as He; [|by rewrite Hempty in He].
    split; [done|]. by rewrite Hempty in He.
  - intros locks'. unfold session_close_end. case_bool_decide as He; [|done]. intros [= <-].
    apply (release_all_spec n _ _ _ _ (release_all (so_handle s) (session_resource s) locks).2 Hok).
    apply surjective_pairing.
Qed.

End proofs.

(** ** Witnesses: a session on the mock instrument, undisturbed *)

Section witnesses.

Definition undisturbed (i : nat) (op : Operation unit) : Operation unit := op.

Definition mock_descriptor : ResourceDescriptor :=
  descriptor project_mock WRVISA_INTF_MOCK 0 INSTR WRVISA_MOCK_RESOURCE [] 0 [] tp_none.

Definition mock_session (handle : Z) : SessionObject MockBackendSession unit :=
  set_handle handle (new_session 0 1 mock_descriptor (mkMock [65; 66])).

End witnesses.

Lemma session_io_contract_witness :
  exists r, session_io 0 undisturbed (IoRead 1) new_lock_manager (mock_session 5) = Some r /\
    sr_data r = [65] /\ same_session (mock_session 5) (sr_session r).
Proof.
  eexists. split; [reflexivity|]. split; [reflexivity|].
  refine (proj1 (proj2 (session_io_contract (B := MockBackendSession) 0 undisturbed _
    (IoRead 1) new_lock_manager (mock_session 5) _ eq_refl) eq_refl)).
  intros i op. apply keeps_result_refl.
Defined.


Lemma session_unlock_depth_witness :
  let locks := (acquire_commit (mkLockRequest 5 WRVISA_MOCK_RESOURCE VI_EXCLUSIVE_LOCK None) None
                  new_lock_manager).2 in
  exists r, session_unlock 0 undisturbed locks (mock_session 5) = Some r /\
    lr_status r = VI_SUCCESS /\ lock_effect 1 (mock_session 5) locks 0 r.
Proof.
  intros locks. assert (manager_ok 1 locks) as Hok.
  { apply (acquire_commit_spec 0 (mkLockRequest 5 WRVISA_MOCK_RESOURCE VI_EXCLUSIVE_LOCK None)
      new_lock_manager VI_SUCCESS None); [apply manager_ok_new|lia|lia|reflexivity..]. }
  destruct (session_unlock 0 undisturbed locks (mock_session 5)) as [r|] eqn:Hr;
    [|vm_compute in Hr; discriminate].
  exists r. split; [reflexivity|]. assert (lr_status r = VI_SUCCESS) as Hst
    by (vm_compute in Hr; injection Hr as <-; reflexivity).
  split; [exact Hst|].
  pose proof (proj1 (session_unlock_depth (B := MockBackendSession) 0 undisturbed (fun i op Hf => Hf) 1
    locks (mock_session 5) r Hok ltac:(lia) Hr)) as He.
  cbv zeta in He. rewrite Hst in He. exact He.
Defined.

Lemma session_attribute_round_trip_witness :
  exists s', session_set_attribute VI_ATTR_TMO_VALUE 50 (mock_session 5) = (VI_SUCCESS, s') /\
    session_get_attribute true VI_ATTR_TMO_VALUE new_lock_manager s' =
      (VI_SUCCESS, Some (attr_number 50)).
Proof.
  destruct (session_attribute_round_trip (B := MockBackendSession) VI_ATTR_TMO_VALUE 50 new_lock_manager
    (mock_session 5) ltac:(lia)) as (Hset & _).
  destruct (Hset (list_elem_of_here _ _) eq_refl) as (s' & H1 & H2 & _).
  exists s'. split; [exact H1|exact H2].
Defined.

Lemma session_close_contract_witness :
  exists locks', session_close_end new_lock_manager (session_close_begin (mock_session 5)) = Some locks' /\
    depth_update 5 WRVISA_MOCK_RESOURCE 0 new_lock_manager locks'.
Proof.
  destruct (session_close_end new_lock_manager (session_close_begin (mock_session 5))) as [locks'|] eqn:Hc;
    [|vm_compute in Hc; discriminate].
  exists locks'. split; [reflexivity|].
  apply (session_close_contract (B := MockBackendSession) 0 0 new_lock_manager (mock_session 5)
    (manager_ok_new 0)). exact Hc.
Defined.
