(* ===== verification/World.v ===== *)
(** * The world of the API: objects, handles and locks

    What the entry points of [api/visa_api.cpp] share: the process-wide handle
    table and lock manager, and the objects the handles stand for.  A
    [std::shared_ptr<Object>] is the identity of an object in the store
    [w_heap]; objects of which the last pointer is gone stay there, unreachable.
    A [parent_.lock()] always succeeds here: where the code calls it, the caller
    or the handle table still holds the parent. *)

From S2P Require Import Prelude Visa CText Operation HandleTable LockManager ResourceParser.
From S2P Require Import BackendSession MockSession ResourceManager SessionObject.

(** ** Data *)

Record ObjRef := mkRef { ref_id : nat; ref_type : ObjectType }.

Inductive Object (B H Provider : Type) :=
| ObjManager (rm : ResourceManager Provider)
| ObjFindList (fl : FindListObject)
| ObjSession (s : SessionObject B H).
Arguments ObjManager {_ _ _} _.
Arguments ObjFindList {_ _ _} _.
Arguments ObjSession {_ _ _} _.

Definition object_type {B H Provider} (o : Object B H Provider) : ObjectType :=
  match o with
  | ObjManager _ => resource_manager
  | ObjFindList _ => find_list
  | ObjSession _ => session
  end.

(** [w_next] is the identity of the next object. *)
Record World (B H Provider : Type) := mkWorld {
  w_handles : HandleTable ObjRef;
  w_heap : gmap nat (Object B H Provider);
  w_next : nat;
  w_locks : LockManager }.
Arguments mkWorld {_ _ _} _ _ _ _.
Arguments w_handles {_ _ _} _.
Arguments w_heap {_ _ _} _.
Arguments w_next {_ _ _} _.
Arguments w_locks {_ _ _} _.

Section world.
  Context {B H Provider : Type} `{BackendSession B H}.
  Implicit Types w : World B H Provider.

Definition new_world : World B H Provider := mkWorld [] ∅ 0 new_lock_manager.

Definition with_handles (slots : HandleTable ObjRef) w : World B H Provider :=
  mkWorld slots (w_heap w) (w_next w) (w_locks w).

Definition with_locks (locks : LockManager) w : World B H Provider :=
  mkWorld (w_handles w) (w_heap w) (w_next w) locks.

Definition store (id : nat) (o : Object B H Provider) w : World B H Provider :=
  mkWorld (w_handles w) (<[id := o]> (w_heap w)) (w_next w) (w_locks w).

Definition make_shared (o : Object B H Provider) w : nat * World B H Provider :=
  (w_next w, mkWorld (w_handles w) (<[w_next w := o]> (w_heap w)) (S (w_next w)) (w_locks w)).

(** ** [get_handle<T>] *)

Definition get_object (handle : Z) (expected : ObjectType) w : option (nat * Object B H Provider) :=
  r ← HandleTable.get handle expected (w_handles w);
  o ← w_heap w !! ref_id r;
  Some (ref_id r, o).

Definition get_manager (handle : Z) w : option (nat * ResourceManager Provider) :=
  match get_object handle resource_manager w with
  | Some (id, ObjManager rm) => Some (id, rm)
  | _ => None
  end.

Definition get_find_list (handle : Z) w : option (nat * FindListObject) :=
  match get_object handle find_list w with
  | Some (id, ObjFindList fl) => Some (id, fl)
  | _ => None
  end.

Definition get_session (handle : Z) w : option (nat * SessionObject B H) :=
  match get_object handle session w with
  | Some (id, ObjSession s) => Some (id, s)
  | _ => None
  end.

(** ** Closing *)

(** [parent->remove_child(child)]. *)
Definition parent_remove_child (parent : nat) (child : Z) w : World B H Provider :=
  match w_heap w !! parent with
  | Some (ObjManager rm) => store parent (ObjManager (remove_child child rm)) w
  | _ => w
  end.

Definition close_find_list (id : nat) (fl : FindListObject) w : World B H Provider :=
  parent_remove_child (fl_parent fl) (fl_handle fl)
    (store id (ObjFindList (find_list_close fl)) w).

(** [None] while the session's operations are still registered. *)
Definition close_session (id : nat) (s : SessionObject B H) w : option (World B H Provider) :=
  '(locks, s') ← session_close (w_locks w) s;
  Some (parent_remove_child (so_parent s) (so_handle s)
          (with_locks locks (store id (ObjSession s') w))).

(** The loop of [ResourceManager::close] over the children taken. *)
Fixpoint close_children (close : nat -> World B H Provider -> option (World B H Provider))
    (children : list Z) w : option (World B H Provider) :=
  match children with
  | [] => Some w
  | child :: rest =>
      let '(object, slots) := HandleTable.remove child (w_handles w) in
      let w1 := with_handles slots w in
      w2 ← match object with
           | Some r => close (ref_id r) w1
           | None => Some w1
           end;
      close_children close rest w2
  end.

(** [Object::close]; [depth] bounds the nesting of the virtual calls, which is
    two: a manager closes its children, and no manager is a child. *)
Fixpoint close_object (depth : nat) (id : nat) w : option (World B H Provider) :=
  match depth with
  | O => None
  | S depth =>
      match w_heap w !! id with
      | Some (ObjManager rm) =>
          let '(children, rm') := take_children rm in
          close_children (close_object depth) children (store id (ObjManager rm') w)
      | Some (ObjFindList fl) => Some (close_find_list id fl w)
      | Some (ObjSession s) => close_session id s w
      | None => Some w
      end
  end.

Definition close_depth : nat := 2.

(** ** Registering *)

(** [*handle] after the call, and the status. *)
Definition register_child (manager : nat) (child : nat) (type : ObjectType) w
  : option (result (Z * Z) * World B H Provider) :=
  match HandleTable.insert ref_type type (Some (mkRef child type)) (w_handles w) with
  | Throw e => Some (Throw e, w)
  | Ok (handle, slots) =>
      let w1 := with_handles slots w in
      match w_heap w1 !! manager with
      | Some (ObjManager rm) =>
          let '(added, rm') := add_child handle rm in
          if added then Some (Ok (VI_SUCCESS, handle), store manager (ObjManager rm') w1)
          else
            let '(_, slots) := HandleTable.remove handle (w_handles w1) in
            w2 ← close_object close_depth child (with_handles slots w1);
            Some (Ok (VI_ERROR_INV_OBJECT, VI_NULL), w2)
      | _ => None
      end
  end.

End world.

(** ** Who owns locks *)

Definition lock_typed (m : LockManager) : Prop :=
  map_Forall (fun _ st => ls_type st = VI_EXCLUSIVE_LOCK \/ ls_type st = VI_SHARED_LOCK) (locks_ m).

(** Every lock is owned by a session for which [Q handle resource]. *)
Definition lock_inv (Q : Z -> str -> Prop) (m : LockManager) : Prop :=
  lock_typed m /\ forall o r, owned_lock_type o r m ≠ VI_NO_LOCK -> Q o r.

Definition state_owner (st : LockState) (o : Z) : Z :=
  if (ls_type st =? VI_EXCLUSIVE_LOCK) && (ls_exclusive_owner st =? o) then VI_EXCLUSIVE_LOCK
  else if (ls_type st =? VI_SHARED_LOCK) && bool_decide (is_Some (ls_shared_owners st !! o))
  then VI_SHARED_LOCK
  else VI_NO_LOCK.

Lemma owned_lock_type_state o r m : owned_lock_type o r m = state_owner (state_of r m) o.
Proof. unfold owned_lock_type, state_of. by destruct (locks_ m !! r). Qed.

Lemma owned_set o r r' st m :
  owned_lock_type o r (set_lock r' st m) =
    if decide (r' = r) then state_owner st o else owned_lock_type o r m.
Proof. rewrite !owned_lock_type_state, state_of_set. by case_decide. Qed.

Lemma owned_erase o r r' m :
  owned_lock_type o r (erase_lock r' m) =
    if decide (r' = r) then VI_NO_LOCK else owned_lock_type o r m.
Proof. rewrite !owned_lock_type_state, state_of_erase. by case_decide. Qed.

Lemma lock_inv_new Q : lock_inv Q new_lock_manager.
Proof. split; [by apply map_Forall_empty|]. by intros o r. Qed.

Lemma lock_inv_mono (Q Q' : Z -> str -> Prop) m :
  (forall o r, Q o r -> Q' o r) -> lock_inv Q m -> lock_inv Q' m.
Proof. intros HQ [Ht Ho]. split; [done|]. intros o r Hor. by apply HQ, Ho. Qed.

(** Only the owners of the new state of [r] have to be accounted for. *)
Lemma lock_inv_set Q r st m :
  lock_inv Q m -> ls_type st = VI_EXCLUSIVE_LOCK \/ ls_type st = VI_SHARED_LOCK ->
  (forall o, state_owner st o ≠ VI_NO_LOCK -> Q o r) -> lock_inv Q (set_lock r st m).
Proof.
  intros [Ht Ho] Hst HQ. split; [by apply map_Forall_insert_2|].
  intros o r'. rewrite owned_set. case_decide; subst; eauto.
Qed.

Lemma lock_inv_erase Q r m : lock_inv Q m -> lock_inv Q (erase_lock r m).
Proof.
  intros [Ht Ho]. split; [by apply map_Forall_delete|].
  intros o r'. rewrite owned_erase. case_decide; [done|]. apply Ho.
Qed.

Lemma lock_inv_lookup Q m r st :
  lock_inv Q m -> locks_ m !! r = Some st ->
  (ls_type st = VI_EXCLUSIVE_LOCK \/ ls_type st = VI_SHARED_LOCK) /\
  (forall o, state_owner st o ≠ VI_NO_LOCK -> Q o r).
Proof.
  intros [Ht Ho] Hl. split; [by eapply Ht|]. intros o Hso. apply Ho.
  rewrite owned_lock_type_state. unfold state_of. by rewrite Hl.
Qed.

Lemma state_owner_ne st o :
  state_owner st o ≠ VI_NO_LOCK <->
  (ls_type st = VI_EXCLUSIVE_LOCK /\ ls_exclusive_owner st = o) \/
  (ls_type st = VI_SHARED_LOCK /\ is_Some (ls_shared_owners st !! o)).
Proof.
  unfold state_owner. lock_consts.
  destruct (Z.eqb_spec (ls_type st) 1), (Z.eqb_spec (ls_exclusive_owner st) o),
    (Z.eqb_spec (ls_type st) 2); simpl; try case_bool_decide; intuition (try lia; try congruence).
Qed.

Lemma release_lock_inv Q o r m : lock_inv Q m -> lock_inv Q (release o r m).1.2.
Proof.
  intros HQ. unfold release. destruct (locks_ m !! r) as [st|] eqn:Hl; [|done].
  destruct (lock_inv_lookup _ _ _ _ HQ Hl) as [Hty Hown].
  destruct (Z.eqb_spec (ls_type st) VI_EXCLUSIVE_LOCK) as [He|He]; simpl.
  - destruct (Z.eqb_spec (ls_exclusive_owner st) o); simpl.
    + case_match; simpl; [by apply lock_inv_erase|]. apply lock_inv_set; [done|done|].
      intros o' Ho'. apply Hown. apply state_owner_ne in Ho'. by apply state_owner_ne.
    + by rewrite He.
  - destruct (Z.eqb_spec (ls_type st) VI_SHARED_LOCK) as [Hs|Hs]; [|done].
    destruct (ls_shared_owners st !! o) as [d|] eqn:Hd; [|done]. simpl.
    case_decide; [by apply lock_inv_erase|]. apply lock_inv_set; [done|done|].
    intros o' Ho'. apply Hown. apply state_owner_ne in Ho' as [Ho'|[_ Ho']];
      apply state_owner_ne; [by left|right; split; [done|]]. simpl in Ho'.
    case_match; [by rewrite lookup_delete_is_Some in Ho'; destruct Ho'|].
    destruct (decide (o = o')) as [<-|Hne]; [by exists d|]. by rewrite lookup_insert_ne in Ho'.
Qed.

(** [release_all] takes one session's lock of one resource, and nothing else. *)
Lemma release_all_owned o r m o' r' :
  owned_lock_type o' r' (release_all o r m).1 =
    if decide (o' = o /\ r' = r) then VI_NO_LOCK else owned_lock_type o' r' m.
Proof.
  unfold release_all. destruct (locks_ m !! r) as [st|] eqn:Hl; simpl.
  2:{ case_decide as Hd; [|done]. destruct Hd as [-> ->]. unfold owned_lock_type. by rewrite Hl. }
  assert (state_of r m = st) as Hst by (unfold state_of; by rewrite Hl).
  destruct (decide (r' = r)) as [->|Hr].
  2:{ rewrite (decide_False (P := o' = o /\ r' = r)) by tauto. repeat case_match; simpl;
        rewrite ?owned_set, ?owned_erase, ?decide_False by done; done. }
  assert (forall o'', owned_lock_type o'' r m = state_owner st o'') as Hown
    by (intros; by rewrite owned_lock_type_state, Hst).
  rewrite Hown. unfold state_owner. lock_consts.
  destruct (Z.eqb_spec (ls_type st) 1) as [He|He]; simpl.
  - destruct (Z.eqb_spec (ls_exclusive_owner st) o) as [Ho|Ho]; simpl.
    + rewrite owned_erase, decide_True by done. rewrite He. simpl. lock_consts.
      destruct (Z.eqb_spec (ls_exclusive_owner st) o'); case_decide; simpl; try done.
      exfalso. naive_solver lia.
    + rewrite He. simpl. rewrite Hown. unfold state_owner. rewrite He. simpl. lock_consts.
      destruct (Z.eqb_spec (ls_exclusive_owner st) o'); case_decide; simpl; try done.
      exfalso. naive_solver lia.
  - destruct (Z.eqb_spec (ls_type st) 2) as [Hs|Hs]; simpl.
    + case_decide as Hempty.
      * rewrite owned_erase, decide_True by done. case_decide as Hd; [done|].
        rewrite bool_decide_false; [done|]. intros [d Hd'].
        assert (delete o (ls_shared_owners st) !! o' = Some d) as Hdel
          by (rewrite lookup_delete_ne; [done|naive_solver]).
        by rewrite Hempty, lookup_empty in Hdel.
      * rewrite owned_set, decide_True by done. unfold state_owner. simpl. lock_consts.
        rewrite Hs. simpl. rewrite lookup_delete. case_decide as Ho; case_decide; simpl; try naive_solver.
    + rewrite Hown. unfold state_owner. lock_consts. rewrite (proj2 (Z.eqb_neq _ _) He).
      simpl. rewrite (proj2 (Z.eqb_neq _ _) Hs). simpl. by case_decide.
Qed.

Lemma release_all_typed o r m : lock_typed m -> lock_typed (release_all o r m).1.
Proof.
  intros Ht. unfold release_all. destruct (locks_ m !! r) as [st|] eqn:Hl; [|done].
  repeat case_match; simpl; try done; try (by apply map_Forall_delete).
  apply map_Forall_insert_2; [|done]. simpl. by eapply Ht.
Qed.

Lemma acquire_commit_lock_inv Q rq m :
  lock_inv Q m -> acquire_check rq = None -> grantable rq None m = true ->
  Q (rq_owner rq) (rq_resource rq) -> lock_inv Q (acquire_commit rq None m).2.
Proof.
  intros HQ Hchk Hg HQo. apply acquire_check_None in Hchk. unfold acquire_commit.
  unfold grantable, can_grant in Hg.
  fold (state_of (rq_resource rq) m) in *. set (st := state_of (rq_resource rq) m) in *.
  assert (forall o, state_owner st o ≠ VI_NO_LOCK -> Q o (rq_resource rq)) as Hown.
  { intros o Ho. apply HQ. by rewrite owned_lock_type_state. }
  assert (ls_type st = VI_NO_LOCK -> ls_shared_owners st = ∅) as Hnone.
  { unfold st, state_of. destruct (locks_ m !! rq_resource rq) as [st'|] eqn:Hl; [|done].
    simpl. intros Hty. by destruct (lock_inv_lookup _ _ _ _ HQ Hl) as [[?|?] _]; lock_consts; lia. }
  assert (lock_inv Q (next_key m).2) as HQn by done.
  lock_consts.
  destruct (Z.eqb_spec (rq_type rq) 1) as [He|He]; cbn [negb andb] in *.
  - destruct (Z.eqb_spec (ls_type st) 1) as [Ht|Ht]; cbn [snd]; apply lock_inv_set; try done; try (by left).
    intros o. rewrite state_owner_ne. cbn [ls_type ls_exclusive_owner ls_shared_owners].
    lock_consts. intros [[_ <-]|[? _]]; [done|lia].
  - destruct (Z.eqb_spec (ls_type st) 2) as [Ht|Ht]; cbn [snd].
    + apply lock_inv_set; [done|by right|]. intros o Ho. apply state_owner_ne in Ho.
      cbn [ls_type ls_exclusive_owner ls_shared_owners] in Ho. lock_consts.
      destruct Ho as [[? _]|[_ Ho]]; [lia|].
      destruct (decide (rq_owner rq = o)) as [<-|Hne]; [done|]. rewrite lookup_insert_ne in Ho by done.
      apply Hown, state_owner_ne. right. by split.
    + destruct (next_key m) as [key m1]. cbn [snd] in HQn |- *. apply lock_inv_set; [done|by right|].
      intros o Ho. apply state_owner_ne in Ho.
      cbn [ls_type ls_exclusive_owner ls_shared_owners] in Ho. lock_consts.
      destruct Ho as [[? _]|[_ Ho]]; [lia|]. rewrite Hnone in Ho.
      2:{ by destruct (Z.eqb_spec (ls_type st) 0). }
      destruct (decide (rq_owner rq = o)) as [<-|Hne]; [done|].
      rewrite lookup_insert_ne, lookup_empty in Ho by done. by destruct Ho.
Qed.

Lemma acquire_lock_inv Q timeout rq m wakeups status key m' :
  lock_inv Q m -> Forall (fun ev => lock_inv Q (ev_manager ev)) wakeups ->
  Q (rq_owner rq) (rq_resource rq) ->
  acquire timeout rq None m wakeups = Returned status key m' -> lock_inv Q m'.
Proof.
  intros HQ Hw HQo. unfold acquire. destruct (acquire_check rq) as [e|] eqn:Hchk; [by intros [= _ _ <-]|].
  assert (Forall (fun ev => lock_inv Q (ev_manager ev)) (mkEvaluation false m None :: wakeups)) as Hw'
    by (by constructor).
  revert Hw'. generalize (mkEvaluation false m None :: wakeups). clear Hw wakeups.
  induction l as [|ev l IH]; intros Hw Hr; cbn [acquire_wait] in Hr; [done|].
  apply Forall_cons in Hw as [Hev Hw].
  destruct (grantable rq (ev_done ev) (ev_manager ev)) eqn:Hg.
  - destruct (ev_done ev) as [d|]; [by injection Hr as _ _ <-|].
    pose proof (acquire_commit_lock_inv _ _ _ Hev Hchk Hg HQo) as Hc.
    destruct (acquire_commit rq None (ev_manager ev)) as [[st k] m1]. by injection Hr as _ _ <-.
  - destruct (ev_expired ev && _); [by injection Hr as _ _ <-|]. by apply IH.
Qed.

Section locking.
Context {B H : Type} `{BackendSession B H}.
Context (now : Z) (interfere : nat -> Operation H -> Operation H).
Implicit Types s : SessionObject B H.

Lemma same_session_lock_names s s' :
  same_session s s' -> so_handle s' = so_handle s /\ session_resource s' = session_resource s /\
    so_parent s' = so_parent s /\ so_parent_handle s' = so_parent_handle s /\
    so_closed s' = so_closed s.
Proof. by intros (b & n & ->). Qed.

Lemma session_lock_same lock_type timeout key wakeups locks s r :
  session_lock now interfere lock_type timeout key wakeups locks s = Some r ->
  same_session s (lr_session r).
Proof.
  intros Hr. unfold session_lock in Hr.
  destruct (begin_operation_with now timeout s) as [[id op] s1] eqn:Hbegin.
  pose proof (finish_begin_id now timeout s id op s1 Hbegin) as Hsame.
  destruct (completed _); [by injection Hr as <-|].
  destruct (acquire _ _ _ _ _) as [|status k locks1]; [done|].
  destruct (status <? VI_SUCCESS); [by injection Hr as <-|].
  apply bind_Some in Hr as ([[[st b] op'] locks2] & _ & Hr).
  pose proof (finish_begin now timeout s id op s1 b Hbegin).
  destruct (try_complete st _) as [[] ?]; simpl in Hr; [by injection Hr as <-|].
  destruct (release _ _ locks2) as [[? ?] ?]. by injection Hr as <-.
Qed.

Lemma lock_remote_inv Q lock_type access_key status op locks s x :
  lock_remote lock_type access_key status op locks s = Some x -> lock_inv Q locks -> lock_inv Q x.2.
Proof.
  unfold lock_remote. intros Hx HQ. apply bind_Some in Hx as (br & _ & Hx).
  destruct (cr_status br <? VI_SUCCESS); [|by injection Hx as <-].
  pose proof (release_lock_inv _ (so_handle s) (session_resource s) _ HQ) as Hrel.
  destruct (release _ _ locks) as [[? ?] ?]. by injection Hx as <-.
Qed.

Lemma session_lock_inv Q lock_type timeout key wakeups locks s r :
  session_lock now interfere lock_type timeout key wakeups locks s = Some r ->
  lock_inv Q locks -> Forall (fun ev => lock_inv Q (ev_manager ev)) wakeups ->
  Q (so_handle s) (session_resource s) -> lock_inv Q (lr_locks r).
Proof.
  intros Hr HQ Hw HQo. unfold session_lock in Hr.
  destruct (begin_operation_with now timeout s) as [[id op] s1] eqn:Hbegin.
  destruct (completed _); [by injection Hr as <-|].
  destruct (acquire _ _ _ _ _) as [|status k locks1] eqn:Hacq; [done|].
  assert (lock_inv Q locks1) as HQ1 by (by eapply acquire_lock_inv; [| | |exact Hacq]).
  destruct (status <? VI_SUCCESS); [by injection Hr as <-|].
  apply bind_Some in Hr as ([[[st b] op'] locks2] & Hx & Hr).
  assert (lock_inv Q locks2) as HQ2.
  { destruct (_ =? 0); [|by injection Hx as <- <- <- <-].
    by apply (lock_remote_inv Q) in Hx. }
  destruct (try_complete st _) as [[] ?]; simpl in Hr; [by injection Hr as <-|].
  pose proof (release_lock_inv _ (so_handle s) (session_resource s) _ HQ2) as Hrel.
  destruct (release _ _ locks2) as [[? ?] ?]. by injection Hr as <-.
Qed.

Lemma session_unlock_inv Q locks s r :
  session_unlock now interfere locks s = Some r -> lock_inv Q locks ->
  lock_inv Q (lr_locks r) /\ same_session s (lr_session r).
Proof.
  intros Hr HQ. unfold session_unlock in Hr.
  pose proof (release_lock_inv _ (so_handle s) (session_resource s) _ HQ) as Hrel.
  destruct (_ =? 0); [injection Hr as <-; split; [done|apply same_session_refl]|].
  destruct (release _ _ locks) as [[status locks'] nt].
  destruct (1 <? _); [injection Hr as <-; split; [done|apply same_session_refl]|].
  destruct (begin_operation now s) as [[id op] s1] eqn:Hbegin.
  apply bind_Some in Hr as (br & _ & Hr).
  pose proof (finish_begin now _ s id op s1 (cr_backend br) Hbegin) as Hsame.
  destruct (try_complete (cr_status br) _) as [[] op']; simpl in Hr; [|by injection Hr as <-].
  destruct (cr_status br <? VI_SUCCESS); by injection Hr as <-.
Qed.

Lemma session_io_same c locks s r :
  session_io now interfere c locks s = Some r -> same_session s (sr_session r).
Proof.
  rewrite session_io_run. unfold run_call, begin_operation. intros Hr.
  destruct (session_can_access locks s); simpl in Hr; [|injection Hr as <-; apply same_session_refl].
  destruct (begin_operation_with now (so_timeout s) s) as [[id op] s1] eqn:Hbegin.
  destruct (_ && _); [injection Hr as <-; by eapply finish_begin_id|].
  apply bind_Some in Hr as (br & _ & Hr). injection Hr as <-. by eapply finish_begin.
Qed.

End locking.

(** ** The handle table as a partial map *)

Definition table_ok (slots : HandleTable ObjRef) : Prop :=
  exists s, table_rel ref_type slots s /\ live_issued s.

Definition handle_range (h : Z) : Prop := 0 <= h < 2 ^ 32.

Lemma table_ok_nil : table_ok [].
Proof. exists spec_init. split; [apply rel_init|by intros ? ? ?]. Qed.

Lemma table_ok_step op slots out slots' :
  table_ok slots -> op_ok op -> handle_step ref_type op slots = (out, slots') ->
  exists s s', spec_step ref_type op s out s' /\ live_issued s /\
    table_rel ref_type slots s /\ table_rel ref_type slots' s' /\ table_ok slots'.
Proof.
  intros (s & Hrel & Hli) Hop Hstep.
  destruct (handle_step_refines ref_type _ _ _ _ _ Hrel Hop Hstep) as (s' & Hs & Hrel').
  exists s, s'. do 4 (split; [done|]). exists s'. split; [done|].
  eapply spec_run_live_issued; [|exact Hli]. by eapply SpecCons; [|apply SpecNil].
Qed.

Lemma remove_live slots h o slots' :
  table_ok slots -> handle_range h -> HandleTable.remove h slots = (o, slots') ->
  o = get_any h slots /\ table_ok slots' /\
  forall h', handle_range h' ->
    get_any h' slots' = if decide (h' = h) then None else get_any h' slots.
Proof.
  intros Hok Hh Hrm.
  assert (handle_step ref_type (OpRemove h) slots = (OutObject o, slots')) as Hstep by (simpl; by rewrite Hrm).
  destruct (table_ok_step (OpRemove h) _ _ _ Hok Hh Hstep) as (s & s' & Hs & Hli & Hrel & Hrel' & Hok').
  inversion Hs; subst. split; [by apply Hrel|]. split; [done|]. intros h' Hh'.
  rewrite <- (rel_live _ _ _ Hrel'), <- (rel_live _ _ _ Hrel) by done. simpl.
  rewrite lookup_delete. by repeat case_decide; subst.
Qed.

Lemma insert_live slots r h slots' :
  table_ok slots -> HandleTable.insert ref_type (ref_type r) (Some r) slots = Ok (h, slots') ->
  0 < h < 2 ^ 32 /\ get_any h slots = None /\ table_ok slots' /\
  forall h', handle_range h' ->
    get_any h' slots' = if decide (h' = h) then Some r else get_any h' slots.
Proof.
  intros Hok Hins.
  assert (handle_step ref_type (OpInsert (ref_type r) (Some r)) slots = (OutHandle (Ok h), slots')) as Hstep.
  { cbn [handle_step]. by rewrite Hins. }
  destruct (table_ok_step (OpInsert (ref_type r) (Some r)) _ _ _ Hok I Hstep) as (s & s' & Hs & Hli & Hrel & Hrel' & Hok').
  inversion Hs as [? ? ? Hfresh Hr| | | | | |]; subst. split; [done|].
  assert (handle_range h) as Hh by (unfold handle_range; lia). split.
  { rewrite <- (rel_live _ _ _ Hrel) by done.
    destruct (spec_live s !! h) eqn:Hl; [|done]. by apply Hli in Hl. }
  split; [done|]. intros h' Hh'.
  rewrite <- (rel_live _ _ _ Hrel'), <- (rel_live _ _ _ Hrel) by done. simpl.
  rewrite lookup_insert. by repeat case_decide; subst.
Qed.

Lemma get_live slots h expected :
  table_ok slots -> HandleTable.get h expected slots =
    (r ← get_any h slots; if decide (ref_type r = expected) then Some r else None).
Proof. intros (s & Hrel & _). apply get_spec, Hrel. Qed.

(** ** Well-formed worlds *)

Section invariant.
Context {B H Provider : Type} `{BackendSession B H}.
Implicit Types w : World B H Provider.

Abbreviation live w h := (get_any h (w_handles w)).

(** The parent of a find list or session, its handle, and the child's own. *)
Definition child_links (o : Object B H Provider) : option (nat * Z * Z) :=
  match o with
  | ObjManager _ => None
  | ObjFindList fl => Some (fl_parent fl, fl_parent_handle fl, fl_handle fl)
  | ObjSession s => Some (so_parent s, so_parent_handle s, so_handle s)
  end.

(** A registered child: in the list of a manager whose handle is live. *)
Definition child_of w (parent : nat) (parent_handle h : Z) : Prop :=
  handle_range parent_handle /\
  (exists r, live w parent_handle = Some r /\ ref_id r = parent) /\
  exists rm, w_heap w !! parent = Some (ObjManager rm) /\ h ∈ children_ rm.

(** Where a live object is: the manager [p], which is being closed, no longer
    lists the children [P] it has still to close. *)
Definition placed (p : nat) (P : gset Z) w (h : Z) (o : Object B H Provider) : Prop :=
  match o with
  | ObjManager rm => rm_closed_ rm = false
  | _ => exists parent parent_handle, child_links o = Some (parent, parent_handle, h) /\
         ((h ∈ P /\ parent = p) \/ (~ (h ∈ P) /\ child_of w parent parent_handle h))
  end.

Definition lock_holder w (o : Z) (r : str) : Prop :=
  handle_range o /\
  exists ref s, live w o = Some ref /\ w_heap w !! ref_id ref = Some (ObjSession s) /\
    session_resource s = r.

Record closing_ok (p : nat) (P : gset Z) w : Prop := mkClosingOk {
  ok_table : table_ok (w_handles w);
  ok_object : forall h r, handle_range h -> live w h = Some r ->
    exists o, w_heap w !! ref_id r = Some o /\ object_type o = ref_type r /\ placed p P w h o;
  ok_inj : forall h h' r r', handle_range h -> handle_range h' ->
    live w h = Some r -> live w h' = Some r' -> ref_id r = ref_id r' -> h = h';
  ok_pending : forall c, c ∈ P -> handle_range c;
  ok_leaf : forall c r, c ∈ P -> live w c = Some r -> ref_type r ≠ resource_manager;
  ok_children : forall id rm c, w_heap w !! id = Some (ObjManager rm) -> c ∈ children_ rm ->
    handle_range c /\
    exists r o, live w c = Some r /\ w_heap w !! ref_id r = Some o /\
      exists parent_handle, child_links o = Some (id, parent_handle, c);
  ok_next : forall id o, w_heap w !! id = Some o -> (id < w_next w)%nat;
  ok_locks : lock_inv (lock_holder w) (w_locks w) }.

(** Between two calls of the API nothing is being closed. *)
Definition world_ok w : Prop := closing_ok 0 ∅ w.

Lemma world_ok_new : world_ok (new_world : World B H Provider).
Proof.
  assert (forall h, live (new_world : World B H Provider) h = None) as Hnone
    by (intros h; unfold new_world; simpl; rewrite get_any_view; by destruct (decode h) as [[[? ?] ?]|]).
  split; simpl; try set_solver; intros *; rewrite ?Hnone; try done.
  all: first [apply table_ok_nil|apply lock_inv_new].
Qed.

Definition child_placed (p : nat) (P : gset Z) w (h : Z) (parent : nat) (parent_handle : Z) : Prop :=
  (h ∈ P /\ parent = p) \/ (~ (h ∈ P) /\ child_of w parent parent_handle h).

Lemma placed_impl p P w p' P' w' h o :
  placed p P w h o ->
  (forall parent ph, child_links o = Some (parent, ph, h) ->
     child_placed p P w h parent ph -> child_placed p' P' w' h parent ph) ->
  placed p' P' w' h o.
Proof.
  intros Hpl Himpl. destruct o as [rm|fl|s]; [done|..];
    destruct Hpl as (parent & ph & Heq & Hd); exists parent, ph; (split; [done|]);
    by apply Himpl.
Qed.

(** The object of a live handle of a child is not a manager. *)
Lemma leaf_object p P w h r o :
  closing_ok p P w -> handle_range h -> live w h = Some r -> ref_type r ≠ resource_manager ->
  w_heap w !! ref_id r = Some o ->
  exists parent parent_handle, child_links o = Some (parent, parent_handle, h) /\
    ((h ∈ P /\ parent = p) \/ (~ (h ∈ P) /\ child_of w parent parent_handle h)).
Proof.
  intros Hok Hh Hl Ht Ho. destruct (ok_object _ _ _ Hok h r Hh Hl) as (o' & Ho' & Hty & Hp).
  rewrite Ho in Ho'. injection Ho' as <-. destruct o; simpl in *; congruence.
Qed.

(** The object as it was, or a manager without the child [c]. *)
Definition pruned (c : Z) (o o' : Object B H Provider) : Prop :=
  o' = o \/ exists rm, o = ObjManager rm /\ o' = ObjManager (remove_child c rm).

Lemma pruned_type c o o' : pruned c o o' -> object_type o' = object_type o.
Proof. by intros [->|(rm & -> & ->)]. Qed.

Lemma pruned_links c o o' : pruned c o o' -> child_links o' = child_links o.
Proof. by intros [->|(rm & -> & ->)]. Qed.

Lemma parent_remove_child_heap parent c w id :
  w_heap (parent_remove_child parent c w) !! id =
    if decide (id = parent) then
      (fun o => match o with ObjManager rm => ObjManager (remove_child c rm) | _ => o end)
        <$> w_heap w !! id
    else w_heap w !! id.
Proof.
  unfold parent_remove_child. destruct (w_heap w !! parent) as [o|] eqn:Ho.
  - destruct o; simpl; case_decide; subst; rewrite ?Ho; try done;
      by rewrite ?lookup_insert_eq, ?lookup_insert_ne by done.
  - case_decide; subst; by rewrite ?Ho.
Qed.

Lemma parent_remove_child_rest parent c w :
  w_handles (parent_remove_child parent c w) = w_handles w /\
  w_next (parent_remove_child parent c w) = w_next w /\
  w_locks (parent_remove_child parent c w) = w_locks w.
Proof. unfold parent_remove_child. by destruct (w_heap w !! parent) as [[]|]. Qed.

(** The object without the children [C]. *)
Definition prune (C : gset Z) (o : Object B H Provider) : Object B H Provider :=
  match o with
  | ObjManager rm => ObjManager (with_children (children_ rm ∖ C) (rm_closed_ rm) rm)
  | _ => o
  end.

Lemma prune_prune C1 C2 o : prune C2 (prune C1 o) = prune (C1 ∪ C2) o.
Proof. destruct o; [|done..]. simpl. unfold with_children. simpl. by rewrite difference_difference_l_L. Qed.

Lemma prune_disjoint C o :
  (forall rm c, o = ObjManager rm -> c ∈ C -> c ∉ children_ rm) -> prune C o = o.
Proof.
  destruct o as [rm|fl|s]; [|done..]. simpl. intros Hn.
  rewrite difference_disjoint_L by (intros c Hc HC; by eapply (Hn rm c)). by destruct rm.
Qed.

(** What closing the handles [C] has changed: they are dead and own no lock, a
    manager has lost those of them that were its children, and everything else
    is as it was. *)
Record closed_handles (C : gset Z) w w' : Prop := mkClosedHandles {
  ch_live : forall h, handle_range h -> live w' h = if decide (h ∈ C) then None else live w h;
  ch_heap : forall id,
    (forall c r, c ∈ C -> handle_range c -> live w c = Some r -> ref_id r ≠ id) ->
    w_heap w' !! id = prune C <$> w_heap w !! id;
  ch_next : w_next w' = w_next w;
  ch_locks : forall o r,
    owned_lock_type o r (w_locks w') =
      if decide (o ∈ C) then VI_NO_LOCK else owned_lock_type o r (w_locks w) }.

(** Taking out of the world the child [c], whose handle has been removed, whose
    object has become [o'] and whose locks have been given up. *)
Section detach.
Context (p : nat) (P : gset Z) w (c : Z) (r : ObjRef) (o o' : Object B H Provider).
Context (parent : nat) (parent_handle : Z) (slots : HandleTable ObjRef) (locks : LockManager).
Hypothesis Hok : closing_ok p P w.
Hypothesis Hc : handle_range c.
Hypothesis Hlive : live w c = Some r.
Hypothesis Ho : w_heap w !! ref_id r = Some o.
Hypothesis Hlinks : child_links o = Some (parent, parent_handle, c).
Hypothesis Hlinks' : child_links o' ≠ None.
Hypothesis Htable : table_ok slots.
Hypothesis Hslots : forall h, handle_range h ->
  get_any h slots = if decide (h = c) then None else live w h.
Hypothesis Htyped : lock_typed locks.
Hypothesis Howned : forall o r, owned_lock_type o r locks =
  if decide (o = c) then VI_NO_LOCK else owned_lock_type o r (w_locks w).

Let w' := parent_remove_child parent c
  (mkWorld slots (<[ref_id r := o']> (w_heap w)) (w_next w) locks).

Lemma detach_rest : w_handles w' = slots /\ w_next w' = w_next w /\ w_locks w' = locks.
Proof. apply parent_remove_child_rest. Qed.

Lemma detach_live h : handle_range h -> live w' h = if decide (h = c) then None else live w h.
Proof. destruct detach_rest as (-> & _). apply Hslots. Qed.

Lemma detach_heap id o0 :
  id ≠ ref_id r -> w_heap w !! id = Some o0 -> exists o1, w_heap w' !! id = Some o1 /\ pruned c o0 o1.
Proof.
  intros Hid Ho0. unfold w'. rewrite parent_remove_child_heap. simpl.
  rewrite lookup_insert_ne, Ho0 by done. simpl. case_decide; eexists; (split; [done|]); [|by left].
  destruct o0; [right; by eexists|by left|by left].
Qed.

Lemma detach_heap_inv id o1 :
  w_heap w' !! id = Some o1 -> child_links o1 = None ->
  id ≠ ref_id r /\ exists o0, w_heap w !! id = Some o0 /\ pruned c o0 o1 /\
    (id ≠ parent -> o1 = o0).
Proof.
  unfold w'. rewrite parent_remove_child_heap. simpl. intros Ho1 Hl.
  destruct (decide (id = ref_id r)) as [->|Hne].
  - rewrite lookup_insert_eq in Ho1. simpl in Ho1. by case_decide; destruct o'; simplify_eq/=.
  - split; [done|]. rewrite lookup_insert_ne in Ho1 by done. case_decide.
    + apply fmap_Some in Ho1 as (o0 & -> & ->). exists o0. split; [done|].
      split; [|done]. destruct o0; [right; by eexists|by left|by left].
    + exists o1. split; [done|]. split; [by left|done].
Qed.

Lemma detach_ne h r0 : handle_range h -> h ≠ c -> live w h = Some r0 -> ref_id r0 ≠ ref_id r.
Proof. intros Hh Hne Hl Hid. apply Hne. by eapply (ok_inj _ _ _ Hok). Qed.

Lemma detach_child_of par ph h : h ≠ c -> child_of w par ph h -> child_of w' par ph h.
Proof.
  intros Hne (Hph & (r0 & Hr0 & <-) & rm & Hrm & Hin). split; [done|].
  assert (ph ≠ c) as Hphc.
  { intros ->. rewrite Hlive in Hr0. injection Hr0 as <-. rewrite Ho in Hrm.
    injection Hrm as ->. done. }
  split; [exists r0; by rewrite detach_live, decide_False by done|].
  destruct (detach_heap (ref_id r0) (ObjManager rm)) as (o1 & Ho1 & Hp);
    [by eapply detach_ne|done|].
  destruct Hp as [->|(rm0 & [= <-] & ->)]; [by exists rm|]. exists (remove_child c rm).
  split; [done|]. simpl. set_solver.
Qed.

Lemma detach_ok : closing_ok p (P ∖ {[c]}) w'.
Proof.
  destruct detach_rest as (Hh' & Hn' & Hl'). split.
  - by rewrite Hh'.
  - intros h r0 Hh. rewrite detach_live by done. case_decide as Hne; [done|]. intros Hr0.
    destruct (ok_object _ _ _ Hok h r0 Hh Hr0) as (o0 & Ho0 & Hty & Hpl).
    destruct (detach_heap (ref_id r0) o0) as (o1 & Ho1 & Hp); [by eapply detach_ne|done|].
    exists o1. split; [done|]. split; [by rewrite (pruned_type _ _ _ Hp)|].
    destruct Hp as [->|(rm & -> & ->)]; [|done].
    eapply placed_impl; [exact Hpl|]. intros par ph _ [[? ?]|[? ?]]; [left; set_solver|right].
    split; [set_solver|by apply detach_child_of].
  - intros h h' r1 r2 Hh Hh2. rewrite !detach_live by done. do 2 case_decide; try done.
    by apply (ok_inj _ _ _ Hok).
  - intros x Hx. apply (ok_pending _ _ _ Hok). set_solver.
  - intros x r0 Hx. assert (x ∈ P) as HxP by set_solver.
    rewrite detach_live by (by apply (ok_pending _ _ _ Hok)). case_decide; [done|].
    by apply (ok_leaf _ _ _ Hok).
  - intros id rm x Hrm Hx. destruct (detach_heap_inv id (ObjManager rm) Hrm eq_refl)
      as (Hid & o0 & Ho0 & Hp & Hpar).
    assert (exists rm0, o0 = ObjManager rm0 /\ x ∈ children_ rm0) as (rm0 & -> & Hx0).
    { destruct Hp as [<-|(rm0 & -> & [= ->])]; [by exists rm|]. exists rm0. simpl in Hx.
      split; [done|]. set_solver. }
    destruct (ok_children _ _ _ Hok _ _ _ Ho0 Hx0) as (Hrx & rx & ox & Hlx & Hox & ph & Hphx).
    assert (x ≠ c) as Hxc.
    { intros ->. rewrite Hlive in Hlx. injection Hlx as <-. rewrite Ho in Hox. injection Hox as <-.
      rewrite Hlinks in Hphx. injection Hphx as -> <-.
      unfold w' in Hrm. rewrite parent_remove_child_heap, decide_True in Hrm by done. simpl in Hrm.
      rewrite lookup_insert_ne, Ho0 in Hrm by done. injection Hrm as <-. simpl in Hx. set_solver. }
    split; [done|]. destruct (detach_heap (ref_id rx) ox) as (o1 & Ho1 & Hp1);
      [by eapply detach_ne|done|].
    exists rx, o1. rewrite detach_live, decide_False by done. split; [done|]. split; [done|].
    exists ph. by rewrite (pruned_links _ _ _ Hp1).
  - intros id o0. rewrite Hn'. unfold w'. rewrite parent_remove_child_heap. simpl. intros Hid.
    assert (is_Some (<[ref_id r:=o']> (w_heap w) !! id)) as [o1 Ho1].
    { case_decide; [|by eexists]. by apply fmap_Some in Hid as (? & ? & _). }
    destruct (decide (ref_id r = id)) as [<-|Hne]; [by eapply (ok_next _ _ _ Hok)|].
    rewrite lookup_insert_ne in Ho1 by done. by eapply (ok_next _ _ _ Hok).
  - rewrite Hl'. split; [done|]. intros x rs. rewrite Howned. case_decide as Hxc; [done|].
    intros Hx. destruct (ok_locks _ _ _ Hok) as [_ HQ].
    destruct (HQ x rs Hx) as (Hxr & ref & s & Href & Hs & Hres). split; [done|].
    destruct (detach_heap (ref_id ref) (ObjSession s)) as (o1 & Ho1 & Hp);
      [by eapply detach_ne|done|].
    exists ref, s. rewrite detach_live, decide_False by done. split; [done|]. split; [|done].
    by destruct Hp as [->|(? & ? & ?)].
Qed.

Lemma detach_closed : closed_handles {[c]} w w'.
Proof.
  destruct detach_rest as (Hh' & Hn' & Hl'). split.
  - intros h Hh. rewrite detach_live by done. by repeat case_decide; set_solver.
  - intros id Hne. assert (ref_id r ≠ id) as Hid by (apply (Hne c r); [set_solver|done..]).
    unfold w'. rewrite parent_remove_child_heap. simpl. rewrite lookup_insert_ne by done.
    destruct (w_heap w !! id) as [o0|] eqn:Ho0; [|by case_decide]. simpl.
    case_decide as Hpar; [by destruct o0|]. symmetry. f_equal. apply prune_disjoint.
    intros rm x -> ->%elem_of_singleton Hin.
    destruct (ok_children _ _ _ Hok _ _ _ Ho0 Hin) as (_ & rx & ox & Hlx & Hox & ph & Hphx).
    rewrite Hlive in Hlx. injection Hlx as <-. rewrite Ho in Hox. injection Hox as <-.
    rewrite Hlinks in Hphx. injection Hphx as ? _. by apply Hpar.
  - done.
  - intros x rs. rewrite Hl', Howned. by repeat case_decide; set_solver.
Qed.

End detach.

(** ** Closing one child, and all of them *)

Lemma session_close_Some locks (s : SessionObject B H) locks' s' :
  session_close locks s = Some (locks', s') ->
  locks' = (release_all (so_handle s) (session_resource s) locks).1.
Proof.
  unfold session_close, session_close_end. intros Hs. apply bind_Some in Hs as (l & Hl & Hs).
  injection Hs as <- _. case_bool_decide; [|done]. by injection Hl as <-.
Qed.

Lemma session_close_idle locks (s : SessionObject B H) :
  so_operations s = ∅ -> is_Some (session_close locks s).
Proof.
  intros Hs. unfold session_close, session_close_end. rewrite bool_decide_true; [by eexists|].
  unfold session_close_begin. simpl. unfold cancel_all. by rewrite Hs, fmap_empty.
Qed.

(** A session owns locks of its own resource only. *)
Lemma release_own_locks p P w c s o rs :
  closing_ok p P w -> handle_range c ->
  (forall ref, live w c = Some ref -> w_heap w !! ref_id ref = Some (ObjSession s)) ->
  owned_lock_type o rs (release_all c (session_resource s) (w_locks w)).1 =
    if decide (o = c) then VI_NO_LOCK else owned_lock_type o rs (w_locks w).
Proof.
  intros Hok Hc Hs. rewrite release_all_owned. destruct (ok_locks _ _ _ Hok) as [_ HQ].
  case_decide as Hd; [destruct Hd as [-> _]; by rewrite decide_True|].
  case_decide as Hoc; [subst o|done]. destruct (decide (owned_lock_type c rs (w_locks w) = VI_NO_LOCK)) as [|Hown]; [done|].
  destruct (HQ _ _ Hown) as (_ & ref & s' & Href & Hs' & <-). rewrite (Hs _ Href) in Hs'.
  injection Hs' as ->. by destruct Hd.
Qed.

Lemma close_leaf p P w c r o slots depth w' :
  closing_ok p P w -> handle_range c -> live w c = Some r -> ref_type r ≠ resource_manager ->
  w_heap w !! ref_id r = Some o ->
  HandleTable.remove c (w_handles w) = (Some r, slots) ->
  close_object (S depth) (ref_id r) (with_handles slots w) = Some w' ->
  closing_ok p (P ∖ {[c]}) w' /\ closed_handles {[c]} w w'.
Proof.
  intros Hok Hc Hl Ht Ho Hrm Hcl.
  destruct (remove_live _ _ _ _ (ok_table _ _ _ Hok) Hc Hrm) as (_ & Htab & Hslots).
  destruct (leaf_object _ _ _ _ _ _ Hok Hc Hl Ht Ho) as (par & ph & Hlinks & Hin).
  cbn [close_object w_heap with_handles] in Hcl. rewrite Ho in Hcl.
  destruct (ok_locks _ _ _ Hok) as [Htyped HQ].
  destruct o as [rm|fl|s]; [done|..]; injection Hlinks as Hp1 Hp2 Hp3.
  - assert (forall x rs, owned_lock_type x rs (w_locks w) =
      if decide (x = c) then VI_NO_LOCK else owned_lock_type x rs (w_locks w)) as Hown.
    { intros x rs. case_decide as Hx; [subst x|done].
      destruct (decide (owned_lock_type c rs (w_locks w) = VI_NO_LOCK)) as [|Hne]; [done|].
      destruct (HQ _ _ Hne) as (_ & ref & s & Href & Hs & _). rewrite Hl in Href.
      injection Href as <-. by rewrite Ho in Hs. }
    injection Hcl as <-. unfold close_find_list. rewrite Hp1, Hp3.
    split;
      [eapply (detach_ok p P w c r (ObjFindList fl) (ObjFindList (find_list_close fl)) par ph slots (w_locks w))
      |eapply (detach_closed p P w c r (ObjFindList fl) (ObjFindList (find_list_close fl)) par ph slots (w_locks w))];
      try done; by rewrite <- Hp1, <- Hp2, <- Hp3.
  - unfold close_session in Hcl. apply bind_Some in Hcl as ([locks s'] & Hcs & Hcl).
    injection Hcl as <-. apply session_close_Some in Hcs. rewrite Hp3 in Hcs. simpl in Hcs.
    assert (lock_typed locks) as Htyped' by (subst locks; by apply release_all_typed).
    assert (forall x rs, owned_lock_type x rs locks =
      if decide (x = c) then VI_NO_LOCK else owned_lock_type x rs (w_locks w)) as Hown.
    { intros x rs. subst locks. eapply release_own_locks; [done|done|].
      intros ref Href. rewrite Hl in Href. by injection Href as <-. }
    rewrite Hp1, Hp3.
    split;
      [eapply (detach_ok p P w c r (ObjSession s) (ObjSession s') par ph slots locks)
      |eapply (detach_closed p P w c r (ObjSession s) (ObjSession s') par ph slots locks)];
      try done; by rewrite <- Hp1, <- Hp2, <- Hp3.
Qed.

Lemma closed_handles_refl w : closed_handles ∅ w w.
Proof.
  split; try done. intros id _. destruct (w_heap w !! id) as [o|]; [|done]. simpl.
  by rewrite prune_disjoint.
Qed.

Lemma closed_handles_trans C1 C2 w w1 w2 :
  closed_handles C1 w w1 -> closed_handles C2 w1 w2 -> closed_handles (C1 ∪ C2) w w2.
Proof.
  intros H1' H2'. split.
  - intros h Hh. rewrite (ch_live _ _ _ H2'), (ch_live _ _ _ H1') by done.
    by repeat case_decide; set_solver.
  - intros id Hne. rewrite (ch_heap _ _ _ H2'), (ch_heap _ _ _ H1').
    + destruct (w_heap w !! id) as [o|]; [|done]. simpl. by rewrite prune_prune.
    + intros c r Hc. apply Hne. set_solver.
    + intros c r Hc Hr. rewrite (ch_live _ _ _ H1') by done. case_decide; [done|].
      apply Hne; [set_solver|done].
  - by rewrite (ch_next _ _ _ H2'), (ch_next _ _ _ H1').
  - intros o r. rewrite (ch_locks _ _ _ H2'), (ch_locks _ _ _ H1').
    by repeat case_decide; set_solver.
Qed.

(** A pending child whose handle is already gone needs no closing. *)
Lemma drop_dead p P w c :
  closing_ok p P w -> handle_range c -> live w c = None ->
  closing_ok p (P ∖ {[c]}) w /\ closed_handles {[c]} w w.
Proof.
  intros Hok Hc Hdead. split.
  - destruct Hok as [H1' H2' H3' H4' H5' H6' H7' H8']. split; try done.
    + intros h r Hh Hr. destruct (H2' h r Hh Hr) as (o & Ho & Hty & Hpl). exists o.
      split; [done|]. split; [done|]. assert (h ≠ c) by congruence.
      eapply placed_impl; [exact Hpl|]. unfold child_placed. set_solver.
    + intros x Hx. apply H4'. set_solver.
    + intros x r Hx. apply H5'. set_solver.
  - destruct (ok_locks _ _ _ Hok) as [_ HQ]. split; try done.
    + intros h Hh. case_decide as Hin; [|done]. apply elem_of_singleton in Hin as ->. done.
    + intros id _. destruct (w_heap w !! id) as [o|] eqn:Ho; [|done]. simpl.
      rewrite prune_disjoint; [done|]. intros rm x -> ->%elem_of_singleton Hin.
      destruct (ok_children _ _ _ Hok _ _ _ Ho Hin) as (_ & r & o & Hr & _).
      by rewrite Hdead in Hr.
    + intros o r. case_decide as Hin; [|done]. apply elem_of_singleton in Hin as ->.
      destruct (decide (owned_lock_type c r (w_locks w) = VI_NO_LOCK)) as [|Hne]; [done|].
      destruct (HQ _ _ Hne) as (_ & ref & s & Href & _). by rewrite Hdead in Href.
Qed.

Lemma close_children_ok p depth cs : forall P w w',
  NoDup cs -> closing_ok p P w -> (forall c, c ∈ cs -> c ∈ P) ->
  close_children (close_object (S depth)) cs w = Some w' ->
  closing_ok p (P ∖ list_to_set cs) w' /\ closed_handles (list_to_set cs) w w'.
Proof.
  induction cs as [|c cs IH]; intros P w w' Hnd Hok Hin Hcl; cbn [close_children list_to_set] in *.
  { injection Hcl as <-. split; [by rewrite difference_empty_L|apply closed_handles_refl]. }
  destruct (HandleTable.remove c (w_handles w)) as [object slots] eqn:Hrm.
  apply bind_Some in Hcl as (w2 & Hw2 & Hcl).
  assert (c ∈ P) as HcP by (apply Hin; left).
  pose proof (ok_pending _ _ _ Hok c HcP) as Hc.
  assert (closing_ok p (P ∖ {[c]}) w2 /\ closed_handles {[c]} w w2) as [Hok2 Hcc2].
  { destruct (remove_live _ _ _ _ (ok_table _ _ _ Hok) Hc Hrm) as (-> & _ & _).
    destruct (live w c) as [r|] eqn:Hl.
    - destruct (ok_object _ _ _ Hok c r Hc Hl) as (o & Ho & _).
      eapply close_leaf; try done. by eapply ok_leaf.
    - injection Hw2 as <-. destruct (remove_cases c (w_handles w)) as [[_ Hsame]|(? & ? & ? & ? & ? & ? & ? & ? & Hsome & _)];
        [|by rewrite Hl in Hsome].
      rewrite Hrm in Hsame. injection Hsame as ->.
      assert (with_handles (w_handles w) w = w) as -> by (by destruct w).
      by apply drop_dead. }
  apply NoDup_cons in Hnd as [Hnew Hnd].
  destruct (IH (P ∖ {[c]}) w2 w') as [Hok' Hcc']; [done|done| |done|].
  { intros x Hx. apply elem_of_difference. split; [apply Hin; by right|set_solver]. }
  split; [|by eapply closed_handles_trans].
  by rewrite difference_difference_l_L in Hok'.
Qed.


(** ** Closing any handle *)

Lemma closing_ok_none p q w : closing_ok p ∅ w -> closing_ok q ∅ w.
Proof.
  intros [H1' H2' H3' H4' H5' H6' H7' H8']. split; try done. intros h r Hh Hr.
  destruct (H2' h r Hh Hr) as (o & Ho & Hty & Hpl). exists o. split; [done|]. split; [done|].
  eapply placed_impl; [exact Hpl|]. intros parent ph _ [[Hin _]|[_ ?]]; [|by right].
  by apply not_elem_of_empty in Hin.
Qed.

(** Children are no managers. *)
Lemma child_leaf p P w id rm c r :
  closing_ok p P w -> w_heap w !! id = Some (ObjManager rm) -> c ∈ children_ rm ->
  live w c = Some r -> ref_type r ≠ resource_manager /\ ref_id r ≠ id.
Proof.
  intros Hok Hrm Hc Hl.
  destruct (ok_children _ _ _ Hok _ _ _ Hrm Hc) as (Hr & rc & oc & Hlc & Hoc & ph & Hlinks).
  rewrite Hl in Hlc. injection Hlc as <-.
  destruct (ok_object _ _ _ Hok c r Hr Hl) as (o & Ho & <- & _).
  rewrite Hoc in Ho. injection Ho as <-. split; [by destruct oc|].
  intros <-. rewrite Hrm in Hoc. by injection Hoc as <-.
Qed.

(** The first step of closing a manager: its handle is gone, and the children
    it had are to be closed. *)
Lemma take_children_ok w h r rm slots w1 :
  world_ok w -> handle_range h -> live w h = Some r -> w_heap w !! ref_id r = Some (ObjManager rm) ->
  HandleTable.remove h (w_handles w) = (Some r, slots) ->
  w1 = store (ref_id r) (ObjManager (with_children ∅ true rm)) (with_handles slots w) ->
  closing_ok (ref_id r) (children_ rm) w1 /\ closed_handles {[h]} w w1.
Proof.
  intros Hok Hh Hl Hrm Hremove ->.
  destruct (remove_live _ _ _ _ (ok_table _ _ _ Hok) Hh Hremove) as (_ & Htab & Hslots).
  assert (forall h' r', handle_range h' -> h' ≠ h -> live w h' = Some r' -> ref_id r' ≠ ref_id r) as Hinj.
  { intros h' r' Hh' Hne Hl' Hid. apply Hne. by eapply (ok_inj _ _ _ Hok). }
  split; [split|split]; cbn [w_handles w_heap w_next w_locks store with_handles].
  - done.
  - intros h' r' Hh'. rewrite Hslots by done. case_decide as Hne; [done|]. intros Hr'.
    destruct (ok_object _ _ _ Hok h' r' Hh' Hr') as (o & Ho & Hty & Hpl).
    pose proof (Hinj _ _ Hh' Hne Hr') as Hid.
    exists o. rewrite lookup_insert_ne by done. split; [done|]. split; [done|].
    eapply placed_impl; [exact Hpl|]. intros par ph Hlinks [[Hin _]|[_ Hd]];
      [by apply not_elem_of_empty in Hin|].
    destruct Hd as (Hph & (rp & Hrp & <-) & rm' & Hrm' & Hin).
    destruct (decide (ph = h)) as [->|Hphh].
    { rewrite Hl in Hrp. injection Hrp as <-. rewrite Hrm in Hrm'. injection Hrm' as <-. by left. }
    pose proof (Hinj _ _ Hph Hphh Hrp) as Hpid. right. split.
    { intros Hc. destruct (ok_children _ _ _ Hok _ _ _ Hrm Hc) as (_ & rc & oc & Hlc & Hoc & phc & Hlk).
      rewrite Hr' in Hlc. injection Hlc as <-. rewrite Ho in Hoc. injection Hoc as <-.
      rewrite Hlinks in Hlk. injection Hlk as Heq _. by apply Hpid. }
    split; [done|]. split; [exists rp; cbn; by rewrite Hslots, decide_False by done|].
    exists rm'. cbn. by rewrite lookup_insert_ne by done.
  - intros h1 h2 r1 r2 Hh1 Hh2. rewrite !Hslots by done. do 2 case_decide; try done.
    by apply (ok_inj _ _ _ Hok).
  - intros c Hc. by destruct (ok_children _ _ _ Hok _ _ _ Hrm Hc).
  - intros c rc Hc. rewrite Hslots by (by destruct (ok_children _ _ _ Hok _ _ _ Hrm Hc)).
    case_decide; [done|]. intros Hlc. by destruct (child_leaf _ _ _ _ _ _ _ Hok Hrm Hc Hlc).
  - intros id rm0 c. destruct (decide (ref_id r = id)) as [<-|Hne].
    { rewrite lookup_insert_eq. intros [= <-]. simpl. set_solver. }
    rewrite lookup_insert_ne by done. intros Hrm0 Hc.
    destruct (ok_children _ _ _ Hok _ _ _ Hrm0 Hc) as (Hr & rc & oc & Hlc & Hoc & ph & Hlk).
    assert (c ≠ h) as Hch.
    { intros ->. rewrite Hl in Hlc. injection Hlc as <-. rewrite Hrm in Hoc. by injection Hoc as <-. }
    split; [done|]. exists rc, oc. rewrite Hslots, decide_False by done. split; [done|].
    split; [|by exists ph]. rewrite lookup_insert_ne; [done|]. apply not_eq_sym. by eapply Hinj.
  - intros id o. destruct (decide (ref_id r = id)) as [<-|Hne].
    + intros _. by eapply (ok_next _ _ _ Hok).
    + rewrite lookup_insert_ne by done. by eapply (ok_next _ _ _ Hok).
  - destruct (ok_locks _ _ _ Hok) as [Ht HQ]. split; [done|]. intros x rs Hx.
    destruct (HQ x rs Hx) as (Hxr & ref & s & Href & Hs & Hres).
    assert (x ≠ h) as Hxh.
    { intros ->. rewrite Hl in Href. injection Href as <-. by rewrite Hrm in Hs. }
    split; [done|]. exists ref, s. cbn. rewrite Hslots, decide_False by done. split; [done|].
    split; [|done]. rewrite lookup_insert_ne; [done|]. apply not_eq_sym. by eapply Hinj.
  - intros h' Hh'. rewrite Hslots by done. by repeat case_decide; set_solver.
  - intros id Hid. rewrite lookup_insert_ne by (apply (Hid h r); [set_solver|done..]).
    destruct (w_heap w !! id) as [o|] eqn:Ho; [|done]. simpl. rewrite prune_disjoint; [done|].
    intros rm0 x -> ->%elem_of_singleton Hin.
    destruct (child_leaf _ _ _ _ _ _ _ Hok Ho Hin Hl) as [Hty _].
    apply Hty. destruct (ok_object _ _ _ Hok h r Hh Hl) as (o & Ho' & <- & _). rewrite Hrm in Ho'.
    by injection Ho' as <-.
  - done.
  - intros o rs. case_decide as Hin; [|done]. apply elem_of_singleton in Hin as ->.
    destruct (ok_locks _ _ _ Hok) as [_ HQ].
    destruct (decide (owned_lock_type h rs (w_locks w) = VI_NO_LOCK)) as [|Hown]; [done|].
    destruct (HQ _ _ Hown) as (_ & ref & s & Href & Hs & _). rewrite Hl in Href.
    injection Href as <-. by rewrite Hrm in Hs.
Qed.

(** The handles that closing [h] closes. *)
Definition closing_set w (h : Z) : gset Z :=
  match r ← live w h; w_heap w !! ref_id r with
  | Some (ObjManager rm) => {[h]} ∪ children_ rm
  | _ => {[h]}
  end.

Lemma close_handle_ok w h r slots w' :
  world_ok w -> handle_range h -> live w h = Some r ->
  HandleTable.remove h (w_handles w) = (Some r, slots) ->
  close_object close_depth (ref_id r) (with_handles slots w) = Some w' ->
  world_ok w' /\ closed_handles (closing_set w h) w w'.
Proof.
  intros Hok Hh Hl Hrm Hcl. unfold closing_set. rewrite Hl. cbn [mbind option_bind].
  destruct (ok_object _ _ _ Hok h r Hh Hl) as (o & Ho & Hty & _). rewrite Ho.
  unfold close_depth in Hcl. destruct o as [rm|fl|s].
  - cbn [close_object w_heap with_handles] in Hcl. rewrite Ho in Hcl.
    destruct (take_children_ok w h r rm slots _ Hok Hh Hl Ho Hrm eq_refl) as [Hok1 Hcc1].
    destruct (close_children_ok (ref_id r) 0 (elements (children_ rm)) (children_ rm) _ w'
      (NoDup_elements _) Hok1 ltac:(intros c Hc; by apply elem_of_elements) Hcl) as [Hok2 Hcc2].
    rewrite list_to_set_elements_L in *. rewrite difference_diag_L in Hok2.
    split; [by eapply closing_ok_none|by eapply closed_handles_trans].
  - destruct (close_leaf 0 ∅ w h r (ObjFindList fl) slots 1 w' Hok Hh Hl) as [Hok2 Hcc2]; try done.
    { by rewrite <- Hty. }
    by rewrite (difference_disjoint_L ∅) in Hok2 by set_solver.
  - destruct (close_leaf 0 ∅ w h r (ObjSession s) slots 1 w' Hok Hh Hl) as [Hok2 Hcc2]; try done.
    { by rewrite <- Hty. }
    by rewrite (difference_disjoint_L ∅) in Hok2 by set_solver.
Qed.


(** ** Changing an object in place *)

Definition same_shape (o o' : Object B H Provider) : Prop :=
  child_links o' = child_links o /\
  match o, o' with
  | ObjManager rm, ObjManager rm' =>
      children_ rm' = children_ rm /\ rm_closed_ rm' = rm_closed_ rm
  | ObjFindList _, ObjFindList _ => True
  | ObjSession s, ObjSession s' => session_resource s' = session_resource s
  | _, _ => False
  end.

Lemma same_shape_type o o' : same_shape o o' -> object_type o' = object_type o.
Proof. intros [_ Hs]. by destruct o, o'. Qed.

Lemma store_ok w id o o' :
  world_ok w -> w_heap w !! id = Some o -> same_shape o o' -> world_ok (store id o' w).
Proof.
  intros Hok Ho Hshape. pose proof Hshape as [Hlinks Hs].
  assert (forall id' x, w_heap w !! id' = Some x ->
    exists x', w_heap (store id o' w) !! id' = Some x' /\ same_shape x x') as Hheap.
  { intros id' x Hx. simpl. destruct (decide (id = id')) as [<-|Hne].
    - rewrite lookup_insert_eq. rewrite Ho in Hx. injection Hx as <-. by exists o'.
    - rewrite lookup_insert_ne by done. exists x. split; [done|]. split; [done|]. by destruct x. }
  assert (forall p ph h, child_of w p ph h -> child_of (store id o' w) p ph h) as Hchild.
  { intros p ph h (Hph & Hr & rm & Hrm & Hin). split; [done|]. split; [done|].
    destruct (Hheap _ _ Hrm) as (x & Hx & _ & Hsx). destruct x as [rm'| |]; [|done..].
    exists rm'. split; [done|]. by destruct Hsx as [-> _]. }
  destruct Hok as [H1' H2' H3' H4' H5' H6' H7' H8']. split; try done.
  - intros h r Hh Hr. destruct (H2' h r Hh Hr) as (x & Hx & Htx & Hpl).
    destruct (Hheap _ _ Hx) as (x' & Hx' & Hsx). exists x'. split; [done|].
    split; [by rewrite (same_shape_type _ _ Hsx)|]. destruct Hsx as [Hlx Hsx].
    destruct x as [rm|fl|s], x' as [rm'|fl'|s']; try done;
      [destruct Hsx as [_ Hcl]; cbn [placed] in *; by rewrite Hcl|..]; destruct Hpl as (par & ph & Heq & Hd);
      exists par, ph; (split; [by rewrite Hlx|]);
      (destruct Hd as [?|[? ?]]; [by left|right; split; [done|by apply Hchild]]).
  - intros id' rm c Hrm Hc. simpl in Hrm.
    assert (exists rm0, w_heap w !! id' = Some (ObjManager rm0) /\ c ∈ children_ rm0) as (rm0 & Hrm0 & Hc0).
    { destruct (decide (id = id')) as [<-|Hne].
      - rewrite lookup_insert_eq in Hrm. injection Hrm as ->. destruct o as [rm0|fl|s]; [|done..].
        exists rm0. split; [done|]. by destruct Hs as [<- _].
      - rewrite lookup_insert_ne in Hrm by done. by exists rm. }
    destruct (H6' _ _ _ Hrm0 Hc0) as (Hr & r & x & Hl & Hx & ph & Hlx). split; [done|].
    destruct (Hheap _ _ Hx) as (x' & Hx' & Hl' & _). exists r, x'. split; [done|]. split; [done|].
    exists ph. by rewrite Hl'.
  - intros id' x Hx. simpl in *. destruct (decide (id = id')) as [<-|Hne].
    + by eapply H7'.
    + rewrite lookup_insert_ne in Hx by done. by eapply H7'.
  - eapply lock_inv_mono; [|exact H8']. intros x rs (Hx & ref & s & Href & Hsx & Hres).
    split; [done|]. destruct (Hheap _ _ Hsx) as (x' & Hx' & _ & Hsh). destruct x' as [| |s']; [done..|].
    exists ref, s'. split; [done|]. split; [done|]. by rewrite <- Hres.
Qed.

Lemma with_locks_ok w locks :
  world_ok w -> lock_inv (lock_holder w) locks -> world_ok (with_locks locks w).
Proof. by intros [H1' H2' H3' H4' H5' H6' H7' H8'] Hl. Qed.

(** ** New objects *)

Lemma make_shared_fresh w id o : world_ok w -> w_heap w !! id = Some o -> w_next w ≠ id.
Proof. intros Hok Ho Hid. pose proof (ok_next _ _ _ Hok _ _ Ho). lia. Qed.

(** An object no handle stands for changes nothing. *)
Lemma make_shared_ok w o :
  world_ok w -> (forall rm, o = ObjManager rm -> children_ rm = ∅) -> world_ok (make_shared o w).2.
Proof.
  intros Hok Ho. pose proof (fun id o => make_shared_fresh w id o Hok) as Hfr.
  assert (forall id x, w_heap w !! id = Some x -> <[w_next w := o]> (w_heap w) !! id = Some x) as Hheap.
  { intros id x Hx. rewrite lookup_insert_ne; [done|]. by eapply Hfr. }
  destruct Hok as [H1' H2' H3' H4' H5' H6' H7' H8'].
  split; try done; cbn [make_shared snd w_handles w_heap w_next w_locks].
  - intros h r Hh Hr. destruct (H2' h r Hh Hr) as (x & Hx & Htx & Hpl). exists x.
    split; [by apply Hheap|]. split; [done|]. eapply placed_impl; [exact Hpl|].
    intros par ph _ [?|[? (Hph & Hr0 & rm & Hrm & Hin)]]; [by left|right]. split; [done|].
    split; [done|]. split; [done|]. exists rm. split; [by apply Hheap|done].
  - intros id rm c Hrm Hc. destruct (decide (w_next w = id)) as [<-|Hne].
    { rewrite lookup_insert_eq in Hrm. injection Hrm as ->. rewrite (Ho rm eq_refl) in Hc.
      by apply not_elem_of_empty in Hc. }
    rewrite lookup_insert_ne in Hrm by done.
    destruct (H6' _ _ _ Hrm Hc) as (Hr & r & x & Hl & Hx & Hlx). split; [done|].
    exists r, x. split; [done|]. split; [by apply Hheap|done].
  - intros id x Hx. destruct (decide (w_next w = id)) as [<-|Hne]; [lia|].
    rewrite lookup_insert_ne in Hx by done. apply H7' in Hx. lia.
  - eapply lock_inv_mono; [|exact H8']. intros x rs (Hx & ref & s & Href & Hsx & Hres).
    split; [done|]. exists ref, s. split; [done|]. split; [by apply Hheap|done].
Qed.


(** Handle tables and lock managers matter only for what they answer. *)
Lemma world_ok_ext w slots locks :
  world_ok w -> table_ok slots -> (forall h, handle_range h -> get_any h slots = live w h) ->
  lock_typed locks -> (forall o r, owned_lock_type o r locks = owned_lock_type o r (w_locks w)) ->
  world_ok (mkWorld slots (w_heap w) (w_next w) locks).
Proof.
  intros [H1' H2' H3' H4' H5' H6' H7' H8'] Htab Hlive Htyped Hown.
  assert (forall p ph h, child_of w p ph h -> child_of (mkWorld slots (w_heap w) (w_next w) locks) p ph h) as Hchild.
  { intros p ph h (Hph & (r & Hr & Hid) & Hrm). split; [done|]. split; [|done].
    exists r. cbn. by rewrite Hlive. }
  split; try done; cbn [w_handles w_heap w_next w_locks].
  - intros h r Hh. rewrite Hlive by done. intros Hr.
    destruct (H2' h r Hh Hr) as (o & Ho & Hty & Hpl). exists o. split; [done|]. split; [done|].
    eapply placed_impl; [exact Hpl|]. intros par ph _ [?|[? ?]]; [by left|right].
    split; [done|by apply Hchild].
  - intros h h' r r' Hh Hh'. rewrite !Hlive by done. by apply H3'.
  - intros id rm c Hrm Hc. destruct (H6' _ _ _ Hrm Hc) as (Hr & r & o & Hl & Ho). split; [done|].
    exists r, o. by rewrite Hlive.
  - split; [done|]. intros o r. rewrite Hown. intros Hor. destruct H8' as [_ HQ].
    destruct (HQ o r Hor) as (Hr & ref & s & Href & Hs). split; [done|]. exists ref, s.
    cbn. by rewrite Hlive.
Qed.

Lemma live_zero slots : get_any 0 (slots : HandleTable ObjRef) = None.
Proof. by rewrite get_any_view. Qed.

(** The handle 0 is nobody's child. *)
Lemma parent_remove_zero w parent : world_ok w -> parent_remove_child parent 0 w = w.
Proof.
  intros Hok. unfold parent_remove_child. destruct (w_heap w !! parent) as [[rm|fl|s]|] eqn:Hp; [|done..].
  assert (remove_child 0 rm = rm) as ->.
  { unfold remove_child. rewrite difference_disjoint_L; [by destruct rm|].
    intros c Hc ->%elem_of_singleton.
    destruct (ok_children _ _ _ Hok _ _ _ Hp Hc) as (_ & r & o & Hr & _). by rewrite live_zero in Hr. }
  unfold store. rewrite insert_id by done. by destruct w.
Qed.

(** Giving up the locks of the handle 0 changes no ownership. *)
Lemma release_zero w rs o r :
  world_ok w -> owned_lock_type o r (release_all 0 rs (w_locks w)).1 = owned_lock_type o r (w_locks w).
Proof.
  intros Hok. rewrite release_all_owned. case_decide as Hd; [|done]. destruct Hd as [-> ->].
  destruct (decide (owned_lock_type 0 rs (w_locks w) = VI_NO_LOCK)) as [|Hne]; [done|].
  destruct (ok_locks _ _ _ Hok) as [_ HQ]. destruct (HQ _ _ Hne) as (_ & ref & s & Href & _).
  by rewrite live_zero in Href.
Qed.

(** What a registration adds: the handle [h] for the new object [o], a child of
    the manager [rm]. *)
Record registered (manager : nat) (rm : ResourceManager Provider) (h : Z) (o : Object B H Provider) w w'
  : Prop := mkRegistered {
  rg_handle : handle_range h /\ live w h = None;
  rg_table : table_ok (w_handles w');
  rg_live : forall h', handle_range h' ->
    live w' h' = if decide (h' = h) then Some (mkRef (w_next w) (object_type o)) else live w h';
  rg_heap : forall id, w_heap w' !! id =
    if decide (id = w_next w) then Some o
    else if decide (id = manager) then Some (ObjManager (with_children ({[h]} ∪ children_ rm) false rm))
    else w_heap w !! id;
  rg_next : w_next w' = S (w_next w);
  rg_locks : w_locks w' = w_locks w }.

Lemma registered_ok manager rm h ph o w w' :
  world_ok w -> w_heap w !! manager = Some (ObjManager rm) -> rm_closed_ rm = false ->
  handle_range ph -> (exists r, live w ph = Some r /\ ref_id r = manager) ->
  child_links o = Some (manager, ph, h) -> registered manager rm h o w w' -> world_ok w'.
Proof.
  intros Hok Hrm Hopen Hph (rp & Hrp & Hrpid) Hlinks [[Hh Hnew] Htab Hlive Hheap Hnext Hlocks].
  pose proof (make_shared_fresh w _ _ Hok Hrm) as Hmid.
  assert (forall h' r x, live w h' = Some r -> w_heap w !! ref_id r = Some x ->
    ref_id r ≠ w_next w /\ h' ≠ h) as Hold.
  { intros h' r x Hr Hx. split; [|by intros ->; rewrite Hnew in Hr].
    intros Heq. by eapply make_shared_fresh. }
  assert (forall p ph' h', child_of w p ph' h' -> child_of w' p ph' h') as Hchild.
  { intros p ph' h' (Hph' & (r & Hr & <-) & rm0 & Hrm0 & Hin). split; [done|].
    destruct (Hold _ _ _ Hr Hrm0) as [Hid Hne].
    split; [exists r; by rewrite Hlive, decide_False by done|].
    rewrite Hheap, decide_False by done. case_decide as Hm; [|by exists rm0].
    eexists. split; [done|]. rewrite Hm, Hrm in Hrm0. injection Hrm0 as <-. simpl. set_solver. }
  assert (forall id x, w_heap w !! id = Some x -> (forall rm0, x ≠ ObjManager rm0) ->
    w_heap w' !! id = Some x) as Hleaf.
  { intros id x Hx Hn. rewrite Hheap, decide_False by (intros ->; by eapply make_shared_fresh).
    rewrite decide_False; [done|]. intros ->. rewrite Hrm in Hx. injection Hx as <-. by eapply Hn. }
  assert (forall h' r, handle_range h' -> live w h' = Some r -> h' ≠ h) as Hne
    by (intros h' r _ Hr ->; by rewrite Hnew in Hr).
  destruct Hok as [H1' H2' H3' H4' H5' H6' H7' H8'] eqn:E. split.
  - done.
  - intros h' r Hh'. rewrite Hlive by done. case_decide as Hd.
    + subst h'. intros [= <-]. exists o. cbn [ref_id ref_type]. rewrite Hheap, decide_True by done.
      split; [done|]. split; [done|].
      assert (child_of w' manager ph h) as Hc.
      { split; [done|]. split; [exists rp; by rewrite Hlive, decide_False by (try done; by eapply Hne)|].
        rewrite Hheap, decide_False, decide_True by done. eexists. split; [done|]. simpl. set_solver. }
      destruct o as [rm0|fl|s]; [done|..]; exists manager, ph; (split; [done|]); right; split; try done;
        apply not_elem_of_empty.
    + intros Hr. destruct (H2' h' r Hh' Hr) as (x & Hx & Htx & Hpl).
      destruct (Hold _ _ _ Hr Hx) as [Hid _]. rewrite Hheap, decide_False by done.
      case_decide as Hm.
      * rewrite Hm, Hrm in Hx. injection Hx as <-. by eexists.
      * exists x. split; [done|]. split; [done|]. eapply placed_impl; [exact Hpl|].
        intros par ph' _ [?|[? ?]]; [by left|right]. split; [done|by apply Hchild].
  - intros h1 h2 r1 r2 Hh1 Hh2. rewrite !Hlive by done.
    assert (forall h' r, handle_range h' -> live w h' = Some r -> ref_id r ≠ w_next w) as Hlt.
    { intros h' r Hh' Hr. destruct (H2' h' r Hh' Hr) as (x & Hx & _). by eapply Hold. }
    do 2 case_decide; subst; try done.
    + intros [= <-] Hr Hid. by destruct (Hlt _ _ Hh2 Hr).
    + intros Hr [= <-] Hid. by destruct (Hlt _ _ Hh1 Hr).
    + by apply H3'.
  - intros c Hc. by apply not_elem_of_empty in Hc.
  - intros c r Hc. by apply not_elem_of_empty in Hc.
  - intros id rm0 c Hrm0 Hc. rewrite Hheap in Hrm0. case_decide as Hid.
    { injection Hrm0 as ->. done. }
    assert (c = h /\ id = manager \/ exists rm1, w_heap w !! id = Some (ObjManager rm1) /\ c ∈ children_ rm1)
      as [[-> ->]|(rm1 & Hrm1 & Hc1)].
    { case_decide as Hm; [|right; by eexists]. subst id. injection Hrm0 as <-. simpl in Hc.
      apply elem_of_union in Hc as [->%elem_of_singleton|Hc]; [by left|right; by eexists]. }
    + split; [done|]. exists (mkRef (w_next w) (object_type o)), o.
      rewrite Hlive, decide_True by done. split; [done|]. cbn [ref_id].
      rewrite Hheap, decide_True by done. split; [done|]. by exists ph.
    + destruct (H6' _ _ _ Hrm1 Hc1) as (Hcr & r & x & Hr & Hx & phx & Hlx). split; [done|].
      exists r, x. rewrite Hlive, decide_False by (try done; by eapply Hne). split; [done|].
      split; [|by exists phx]. apply Hleaf; [done|]. by intros rm2 ->.
  - intros id x. rewrite Hheap, Hnext. case_decide; [lia|]. case_decide as Hm.
    + subst id. intros _. apply H7' in Hrm. lia.
    + intros Hx. apply H7' in Hx. lia.
  - rewrite Hlocks. eapply lock_inv_mono; [|exact H8']. intros x rs (Hx & ref & s & Href & Hsx & Hres).
    split; [done|]. exists ref, s. rewrite Hlive, decide_False by (try done; by eapply Hne).
    split; [done|]. split; [by apply Hleaf|done].
Qed.


(** Nothing the caller could see has changed: the same handles stand for the
    same objects, and the same locks are held. *)
Record unchanged w w' : Prop := mkUnchanged {
  un_ok : world_ok w';
  un_live : forall h, handle_range h -> live w' h = live w h;
  un_heap : forall id x, w_heap w !! id = Some x -> w_heap w' !! id = Some x;
  un_locks : forall o r, owned_lock_type o r (w_locks w') = owned_lock_type o r (w_locks w) }.

Lemma unchanged_refl w : world_ok w -> unchanged w w.
Proof. by split. Qed.

Lemma unchanged_trans w1 w2 w3 : unchanged w1 w2 -> unchanged w2 w3 -> unchanged w1 w3.
Proof.
  intros [H1' H2' H3' H4'] [H5' H6' H7' H8']. split; [done| |by intros; apply H7', H3'|].
  - intros h Hh. by rewrite H6', H2'.
  - intros o r. by rewrite H8', H4'.
Qed.

Lemma make_shared_unchanged w o :
  world_ok w -> (forall rm, o = ObjManager rm -> children_ rm = ∅) -> unchanged w (make_shared o w).2.
Proof.
  intros Hok Ho. split; [by apply make_shared_ok|done| |done]. intros id x Hx. simpl.
  rewrite lookup_insert_ne; [done|]. by eapply make_shared_fresh.
Qed.

(** The child of a manager closed in the meantime is closed at once, under the
    handle 0 it still has. *)
Lemma close_unregistered w o manager ph slots :
  world_ok w -> child_links o = Some (manager, ph, VI_NULL) ->
  (forall s, o = ObjSession s -> so_operations s = ∅) ->
  table_ok slots -> (forall h, handle_range h -> get_any h slots = live w h) ->
  exists w', close_object close_depth (w_next w) (with_handles slots (make_shared o w).2) = Some w' /\
    unchanged w w'.
Proof.
  intros Hok Hlinks Hidle Htab Hlive. destruct (ok_locks _ _ _ Hok) as [Htyped _].
  assert (forall x locks, child_links x = child_links o -> lock_typed locks ->
    (forall o' r, owned_lock_type o' r locks = owned_lock_type o' r (w_locks w)) ->
    unchanged w (parent_remove_child manager VI_NULL
      (mkWorld slots (<[w_next w := x]> (<[w_next w := o]> (w_heap w))) (S (w_next w)) locks))) as Hun.
  { intros x locks Hx Hty Hown. rewrite insert_insert_eq.
    assert (world_ok (mkWorld slots (<[w_next w:=x]> (w_heap w)) (S (w_next w)) locks)) as Hok'.
    { apply (world_ok_ext (make_shared x w).2); try done. apply make_shared_ok; [done|].
      intros rm ->. by rewrite Hlinks in Hx. }
    rewrite parent_remove_zero by done. split; try done. intros id y Hy. cbn.
    rewrite lookup_insert_ne; [done|]. by eapply make_shared_fresh. }
  unfold close_depth. cbn [close_object w_heap with_handles make_shared snd]. rewrite lookup_insert_eq.
  destruct o as [rm|fl|s]; [done|..]; injection Hlinks as Hp1 Hp2 Hp3.
  - eexists. split; [done|]. unfold close_find_list. rewrite Hp1, Hp3. by apply Hun.
  - destruct (session_close_idle (w_locks w) s (Hidle s eq_refl)) as [[locks s'] Hcs].
    unfold close_session. cbn [w_locks with_handles]. rewrite Hcs. cbn [mbind option_bind].
    eexists. split; [done|]. rewrite Hp1, Hp3.
    pose proof (session_close_Some _ _ _ _ Hcs) as ->. rewrite Hp3. apply Hun.
    + unfold session_close in Hcs. apply bind_Some in Hcs as (? & _ & Hcs). by injection Hcs as _ <-.
    + by apply release_all_typed.
    + intros o' r. by apply release_zero.
Qed.

Lemma register_child_cases w o manager rm ph :
  world_ok w -> w_heap w !! manager = Some (ObjManager rm) ->
  child_links o = Some (manager, ph, VI_NULL) ->
  (forall s, o = ObjSession s -> so_operations s = ∅) ->
  exists out w2,
    register_child manager (w_next w) (object_type o) (make_shared o w).2 = Some (out, w2) /\
    match out with
    | Throw _ => unchanged w w2
    | Ok (status, h) =>
        if rm_closed_ rm then status = VI_ERROR_INV_OBJECT /\ h = VI_NULL /\ unchanged w w2
        else status = VI_SUCCESS /\ registered manager rm h o w w2
    end.
Proof.
  intros Hok Hrm Hlinks Hidle. unfold register_child. cbn [w_handles make_shared snd].
  assert (w_next w ≠ manager) as Hmid by (by eapply make_shared_fresh).
  destruct (HandleTable.insert _ _ _ _) as [[h slots]|e] eqn:Hins.
  2:{ exists (Throw e), (make_shared o w).2. split; [done|]. apply (make_shared_unchanged w o Hok). by intros rm0 ->. }
  destruct (insert_live (w_handles w) (mkRef (w_next w) (object_type o)) h slots (ok_table _ _ _ Hok) Hins)
    as (Hh & Hnew & Htab & Hlive).
  assert (handle_range h) as Hhr by (unfold handle_range; lia).
  cbn [with_handles w_heap]. rewrite lookup_insert_ne, Hrm by done. unfold add_child.
  destruct (rm_closed_ rm) eqn:Hcl.
  - destruct (HandleTable.remove h _) as [x slots'] eqn:Hremove.
    destruct (remove_live slots h x slots' Htab Hhr Hremove) as (_ & Htab' & Hlive').
    destruct (close_unregistered w o manager ph slots' Hok Hlinks Hidle Htab') as (w' & Hw' & Hun).
    { intros h' Hh'. rewrite Hlive' by done. case_decide as Hd; [by subst h'|].
      by rewrite Hlive, decide_False by done. }
    exists (Ok (VI_ERROR_INV_OBJECT, VI_NULL)), w'. split; [|done].
    change (with_handles slots' _) with (with_handles slots' (make_shared o w).2).
    by rewrite Hw'.
  - eexists (Ok (VI_SUCCESS, h)), _. split; [done|]. split; [done|].
    split; cbn [w_handles w_heap w_next w_locks store with_handles make_shared snd]; try done.
    intros id. destruct (decide (id = manager)) as [->|Hne].
    + by rewrite lookup_insert_eq, decide_False by done.
    + rewrite lookup_insert_ne by done. case_decide as Hid; [by rewrite Hid, lookup_insert_eq|].
      by rewrite lookup_insert_ne by done.
Qed.

(** Changing the registered object, as [set_handle] does. *)
Lemma registered_store manager rm h o o' w w' :
  registered manager rm h o w w' -> object_type o' = object_type o ->
  registered manager rm h o' w (store (w_next w) o' w').
Proof.
  intros [H1' H2' H3' H4' H5' H6'] Hty. split; cbn [store w_handles w_heap w_next w_locks]; try done.
  - intros h' Hh'. by rewrite H3', Hty.
  - intros id. case_decide as Hid; [by rewrite Hid, lookup_insert_eq|].
    rewrite lookup_insert_ne, H4', decide_False by done. done.
Qed.

(** Closing returns when the sessions to be closed run no operation. *)
Lemma close_leaf_returns depth id w :
  (forall s, w_heap w !! id = Some (ObjSession s) -> so_operations s = ∅) ->
  (forall rm, w_heap w !! id ≠ Some (ObjManager rm)) ->
  is_Some (close_object (S depth) id w).
Proof.
  intros Hidle Hn. cbn [close_object]. destruct (w_heap w !! id) as [[rm|fl|s]|] eqn:Ho;
    [by destruct (Hn rm)|by eexists| |by eexists].
  unfold close_session. destruct (session_close_idle (w_locks w) s (Hidle s eq_refl)) as [[locks s'] ->].
  by eexists.
Qed.

Lemma close_children_returns p depth cs : forall P w,
  NoDup cs -> closing_ok p P w -> (forall c, c ∈ cs -> c ∈ P) ->
  (forall c r s, c ∈ cs -> live w c = Some r -> w_heap w !! ref_id r = Some (ObjSession s) ->
     so_operations s = ∅) ->
  is_Some (close_children (close_object (S depth)) cs w).
Proof.
  induction cs as [|c cs IH]; intros P w Hnd Hok Hin Hidle; cbn [close_children]; [by eexists|].
  apply NoDup_cons in Hnd as [Hnew Hnd].
  assert (c ∈ P) as HcP by (apply Hin; left). pose proof (ok_pending _ _ _ Hok c HcP) as Hc.
  destruct (HandleTable.remove c (w_handles w)) as [object slots] eqn:Hrm.
  destruct (remove_live _ _ _ _ (ok_table _ _ _ Hok) Hc Hrm) as (Hobj & _ & _).
  assert (is_Some (match object with
    | Some r => close_object (S depth) (ref_id r) (with_handles slots w)
    | None => Some (with_handles slots w) end)) as [w2 Hw2].
  { destruct object as [r|]; [|by eexists]. symmetry in Hobj.
    pose proof (ok_leaf _ _ _ Hok c r HcP Hobj) as Hleaf.
    destruct (ok_object _ _ _ Hok c r Hc Hobj) as (o & Ho & Hty & _). apply close_leaf_returns; cbn.
    - intros s Hs. eapply (Hidle c r); [left|done|done].
    - intros rm Hrm'. rewrite Ho in Hrm'. injection Hrm' as ->. by apply Hleaf. }
  rewrite Hw2. cbn [mbind option_bind].
  assert (close_children (close_object (S depth)) [c] w = Some w2) as Hone
    by (cbn [close_children]; rewrite Hrm, Hw2; done).
  destruct (close_children_ok p depth [c] P w w2 (NoDup_singleton c) Hok) as [Hok2 Hcc]; [|done|].
  { intros x ->%list_elem_of_singleton. done. }
  replace (list_to_set [c] : gset Z) with ({[c]} : gset Z) in * by (simpl; set_solver).
  apply (IH (P ∖ {[c]})); [done|done| |].
  - intros x Hx. apply elem_of_difference. split; [apply Hin; by right|set_solver].
  - intros x r s Hx. assert (x ≠ c) as Hxc by (by intros ->).
    assert (handle_range x) as Hxr by (apply (ok_pending _ _ _ Hok), Hin; by right).
    rewrite (ch_live _ _ _ Hcc) by done. rewrite decide_False by set_solver. intros Hl.
    rewrite (ch_heap _ _ _ Hcc).
    + destruct (w_heap w !! ref_id r) as [[rm|fl|s']|] eqn:Hs'; try done. intros [= <-].
      eapply (Hidle x r); [by right|done|done].
    + intros c' r' ->%elem_of_singleton _ Hr' Hid. apply Hxc. by eapply (ok_inj _ _ _ Hok).
Qed.

Lemma close_handle_returns w h r slots :
  world_ok w -> handle_range h -> live w h = Some r ->
  HandleTable.remove h (w_handles w) = (Some r, slots) ->
  (forall c rc s, c ∈ closing_set w h -> live w c = Some rc ->
     w_heap w !! ref_id rc = Some (ObjSession s) -> so_operations s = ∅) ->
  is_Some (close_object close_depth (ref_id r) (with_handles slots w)).
Proof.
  intros Hok Hh Hl Hrm Hidle. unfold close_depth. unfold closing_set in Hidle. rewrite Hl in Hidle.
  cbn [mbind option_bind] in Hidle. destruct (ok_object _ _ _ Hok h r Hh Hl) as (o & Ho & Hty & _).
  rewrite Ho in Hidle. destruct o as [rm|fl|s].
  2,3: apply close_leaf_returns; cbn; rewrite Ho; try done; intros s' Hs'; simplify_eq.
  2: eapply (Hidle h r); [set_solver|done|done].
  cbn [close_object w_heap with_handles]. rewrite Ho.
  destruct (take_children_ok w h r rm slots _ Hok Hh Hl Ho Hrm eq_refl) as [Hok1 Hcc1].
  apply (close_children_returns (ref_id r) 0 _ (children_ rm)); [apply NoDup_elements|done| |].
  - intros c Hc. by apply elem_of_elements.
  - intros c rc s Hc. apply elem_of_elements in Hc.
    destruct (ok_children _ _ _ Hok _ _ _ Ho Hc) as (Hcr & _).
    rewrite (ch_live _ _ _ Hcc1) by done. case_decide; [done|]. intros Hlc Hs.
    eapply (Hidle c rc); [set_solver|done|]. cbn in Hs.
    rewrite lookup_insert_ne in Hs; [done|]. apply not_eq_sym.
    eapply (child_leaf _ _ _ _ _ _ _ Hok Ho); done.
Qed.

End invariant.
