(* ===== verification/VisaApi.v ===== *)
(** * The entry points: [api/visa_api.cpp]

    One definition per exported function, from the world before the call to the
    world after it ([World.v]).  A pointer parameter is [true] or [Some] when it
    is not null; what a call stores through its pointers is its output, [None]
    where nothing is stored.  [None] for the whole call is a call that never
    returns.  The factories of the backends and the discovery of the platform are
    the fields of [Outside]; a call of [viOpen] gives other threads time to change
    the world while it connects. *)

From S2P Require Import Prelude Visa CText Prologix.
From S2P Require Import Operation HandleTable LockManager ResourceParser.
From S2P Require Import FindExpression FindMatch FindGrammar FindCompile.
From S2P Require Import BackendSession MockSession ResourceManager SessionObject World.

(** ** Helpers *)

(** [api_guard]: exceptions become statuses. *)
Definition api_guard (r : result Z) : Z :=
  match r with
  | Ok status => status
  | Throw bad_alloc => VI_ERROR_ALLOC
  | Throw _ => VI_ERROR_SYSTEM_ERROR
  end.

(** The terminator is left out. *)
Definition copy_output (value : str) : str :=
  let limit := Z.to_nat (VI_FIND_BUFLEN - 1) in
  let count := if Nat.ltb (length value) limit then length value else limit in
  take count value.

Definition require_outputs (outputs : list bool) : Z :=
  if forallb id outputs then VI_SUCCESS else VI_ERROR_INV_PARAMETER.

Definition status_descriptions : list (Z * str) :=
  [(VI_SUCCESS, lit "Operation completed successfully.");
   (VI_SUCCESS_TERM_CHAR, lit "The termination character was read.");
   (VI_SUCCESS_MAX_CNT, lit "The requested byte count was read.");
   (VI_SUCCESS_NESTED_SHARED, lit "The session already held a shared lock.");
   (VI_SUCCESS_NESTED_EXCLUSIVE, lit "The session already held an exclusive lock.");
   (VI_ERROR_SYSTEM_ERROR, lit "An internal system error occurred.");
   (VI_ERROR_INV_OBJECT, lit "The session or object handle is invalid.");
   (VI_ERROR_RSRC_LOCKED, lit "The resource is locked by another session.");
   (VI_ERROR_INV_EXPR, lit "The resource expression is invalid or unsupported.");
   (VI_ERROR_RSRC_NFOUND, lit "No resource matched the request.");
   (VI_ERROR_INV_RSRC_NAME, lit "The resource name is invalid.");
   (VI_ERROR_INV_ACC_MODE, lit "The access mode is invalid.");
   (VI_ERROR_TMO, lit "The operation timed out.");
   (VI_ERROR_INV_DEGREE, lit "The termination degree is invalid.");
   (VI_ERROR_INV_JOB_ID, lit "The job identifier is invalid.");
   (VI_ERROR_NSUP_ATTR, lit "The attribute is not supported.");
   (VI_ERROR_NSUP_ATTR_STATE, lit "The attribute value is not supported.");
   (VI_ERROR_ATTR_READONLY, lit "The attribute is read-only.");
   (VI_ERROR_INV_LOCK_TYPE, lit "The lock type is invalid.");
   (VI_ERROR_INV_ACCESS_KEY, lit "The lock access key is invalid.");
   (VI_ERROR_ABORT, lit "The operation was aborted.");
   (VI_ERROR_ALLOC, lit "Memory allocation failed.");
   (VI_ERROR_INV_MASK, lit "The buffer mask is invalid.");
   (VI_ERROR_IO, lit "An I/O error occurred.");
   (VI_ERROR_NSUP_OPER, lit "The operation is not supported by this implementation or backend.");
   (VI_ERROR_RSRC_BUSY, lit "The resource is busy.");
   (VI_ERROR_INV_PARAMETER, lit "A parameter is invalid.");
   (VI_ERROR_INV_PROT, lit "The protocol is invalid.");
   (VI_ERROR_INV_SIZE, lit "The requested size is invalid.");
   (VI_ERROR_SESN_NLOCKED, lit "The session does not own a lock.");
   (VI_ERROR_INTF_NUM_NCONFIG, lit "The interface number has no platform resource mapping.");
   (VI_ERROR_CONN_LOST, lit "The connection to the resource was lost.");
   (VI_ERROR_NPERMISSION, lit "Permission to access the resource was denied.")].

(** The [switch]; [None] is the null pointer. *)
Definition status_description (status : Z) : option str :=
  snd <$> find (fun entry => fst entry =? status) status_descriptions.

Definition valid_open_mode (mode : Z) : bool :=
  let known := Z.lor (Z.lor VI_EXCLUSIVE_LOCK VI_SHARED_LOCK) VI_LOAD_CONFIG in
  if negb (Z.land mode (Z.lnot known) =? 0) then false
  else (Z.land mode VI_EXCLUSIVE_LOCK =? 0) || (Z.land mode VI_SHARED_LOCK =? 0).

Definition mock_discovery_opted_in (expression : str) : bool :=
  let expression :=
    match find_char "{" expression with
    | Some attributes => take attributes expression
    | None => expression
    end in
  bool_decide (upper expression = upper WRVISA_MOCK_FIND_EXPRESSION).

(** *** The versioned structures *)

(** [sizeof], with the natural alignment of the members. *)
Definition sizeof_usb_raw_config : Z := 32.
Definition sizeof_usb_control_request : Z := 32.
Definition sizeof_prologix_config : Z := 40.

(** [validate_usb_structure], a template over the structure. *)
Definition validate_usb_structure (size struct_size abi_major abi_minor : Z) : Z :=
  if struct_size <? size then VI_ERROR_INV_SIZE
  else if negb (abi_major =? WRVISA_USB_RAW_ABI_MAJOR) || (WRVISA_USB_RAW_ABI_MINOR <? abi_minor)
  then VI_ERROR_NSUP_OPER
  else VI_SUCCESS.

Definition usb_transfer_type (value : Z) : option UsbTransferType :=
  if value =? WRVISA_USB_TRANSFER_NONE then Some transfer_none
  else if value =? WRVISA_USB_TRANSFER_BULK then Some transfer_bulk
  else if value =? WRVISA_USB_TRANSFER_INTERRUPT then Some transfer_interrupt
  else None.

Definition valid_usb_endpoint (type : UsbTransferType) (endpoint : Z) (input : bool) : bool :=
  if decide (type = transfer_none) then endpoint =? 0
  else
    let endpoint_input := negb (Z.land endpoint 0x80 =? 0) in
    (Z.land endpoint 0x70 =? 0) && negb (Z.land endpoint 0x0f =? 0)
    && Bool.eqb endpoint_input input.

Definition all_zero (values : list Z) : bool := forallb (fun value => value =? 0) values.

Definition zero_usb_raw_reserved (config : wrvisa_usb_raw_config_v1) : bool :=
  all_zero (urc_reserved8 config) && (urc_flags config =? 0) && all_zero (urc_reserved config).

Definition validate_prologix_structure (config : wrvisa_prologix_controller_config_v1) : Z :=
  if pcc_struct_size config <? sizeof_prologix_config then VI_ERROR_INV_SIZE
  else if negb (pcc_abi_major config =? WRVISA_PROLOGIX_ABI_MAJOR)
          || (WRVISA_PROLOGIX_ABI_MINOR <? pcc_abi_minor config)
  then VI_ERROR_NSUP_OPER
  else VI_SUCCESS.

Definition zero_prologix_reserved (config : wrvisa_prologix_controller_config_v1) : bool :=
  all_zero (pcc_reserved8 config) && (pcc_flags config =? 0) && all_zero (pcc_reserved config).

Definition zero_usb_control_reserved (request : wrvisa_usb_control_request_v1) : bool :=
  (ucr_reserved16 request =? 0) && (ucr_flags request =? 0) && all_zero (ucr_reserved request).

(** ** The backends *)

(** What the factories answer during one call; the last [Z] of an argument list
    and of a result is the [status] they take by reference. *)
Record Outside (B Provider GpibTransport UsbTransport UsbRawTransport : Type) := mkOutside {
  discover_serial_ports : gmap Z str;
  discover_gpib_resources : list str;
  discover_usb_resources : list str;
  MockBackendSession_make : B;
  TcpBackendSession_create : str -> Z -> Z -> Z -> option B * Z;
  HiSlipBackendSession_create : str -> str -> Z -> Z -> Z -> option B * Z;
  Vxi11BackendSession_create : str -> str -> Z -> Z -> Z -> option B * Z;
  SerialBackendSession_create : str -> Z -> option B * Z;
  GpibProvider_open : Provider -> ResourceDescriptor -> Z -> Z -> option GpibTransport * Z;
  open_gpib_transport : ResourceDescriptor -> Z -> Z -> option GpibTransport * Z;
  GpibBackendSession_make : GpibTransport -> B;
  open_usb_transport : ResourceDescriptor -> Z -> Z -> option UsbTransport * Z;
  UsbTmcBackendSession_make : UsbTransport -> B;
  open_usb_raw_transport :
    ResourceDescriptor -> UsbRawConfiguration -> Z -> Z -> option UsbRawTransport * Z;
  UsbRawBackendSession_make : UsbRawTransport -> UsbRawConfiguration -> B;
  make_prologix_provider : Z -> PrologixConfiguration -> Z -> option Provider * Z }.
Arguments discover_serial_ports {_ _ _ _ _} _.
Arguments discover_gpib_resources {_ _ _ _ _} _.
Arguments discover_usb_resources {_ _ _ _ _} _.
Arguments MockBackendSession_make {_ _ _ _ _} _.
Arguments TcpBackendSession_create {_ _ _ _ _} _.
Arguments HiSlipBackendSession_create {_ _ _ _ _} _.
Arguments Vxi11BackendSession_create {_ _ _ _ _} _.
Arguments SerialBackendSession_create {_ _ _ _ _} _.
Arguments GpibProvider_open {_ _ _ _ _} _.
Arguments open_gpib_transport {_ _ _ _ _} _.
Arguments GpibBackendSession_make {_ _ _ _ _} _.
Arguments open_usb_transport {_ _ _ _ _} _.
Arguments UsbTmcBackendSession_make {_ _ _ _ _} _.
Arguments open_usb_raw_transport {_ _ _ _ _} _.
Arguments UsbRawBackendSession_make {_ _ _ _ _} _.
Arguments make_prologix_provider {_ _ _ _ _} _.

(** ** Calls *)

Record api_result (O B H Provider : Type) := mkApi {
  ar_status : Z;
  ar_out : O;
  ar_world : World B H Provider }.
Arguments mkApi {_ _ _ _} _ _ _.
Arguments ar_status {_ _ _ _} _.
Arguments ar_out {_ _ _ _} _.
Arguments ar_world {_ _ _ _} _.

Section api.
  Context {B H Provider GpibTransport UsbTransport UsbRawTransport : Type} `{BackendSession B H}.
  Context (outside : Outside B Provider GpibTransport UsbTransport UsbRawTransport).
  Context (now : Z) (interfere : nat -> Operation H -> Operation H).
  Implicit Types w : World B H Provider.

Abbreviation api O := (option (api_result O B H Provider)).

(** *** Resource managers *)

Definition viOpenDefaultRM (vi : bool) w : api (option Z) :=
  if negb vi then Some (mkApi VI_ERROR_INV_PARAMETER None w)
  else
    let '(id, w1) := make_shared (ObjManager (new_resource_manager
      (discover_serial_ports outside) (discover_gpib_resources outside)
      (discover_usb_resources outside))) w in
    match HandleTable.insert ref_type resource_manager (Some (mkRef id resource_manager))
            (w_handles w1) with
    | Throw e => Some (mkApi (api_guard (Throw e)) None w1)
    | Ok (handle, slots) => Some (mkApi VI_SUCCESS (Some handle) (with_handles slots w1))
    end.

Definition viGetDefaultRM (vi : bool) w : api (option Z) := viOpenDefaultRM vi w.

(** *** Finding *)

(** The loop of [viFindRsrc] over the discoverable resources. *)
Fixpoint find_matches (expression : FindExpression) (resources : list str) : option (list str) :=
  match resources with
  | [] => Some []
  | resource :: rest =>
      matched ← (match parse_resource resource with
                 | Some parsed => matches expression parsed
                 | None => Some false
                 end : option bool);
      tail ← find_matches expression rest;
      Some match matched with true => resource :: tail | false => tail end
  end.

Definition mock_matches (expression : FindExpression) (expr : str) : option (list str) :=
  match parse_resource WRVISA_MOCK_RESOURCE with
  | Some mock =>
      if mock_discovery_opted_in expr then
        matched ← matches expression mock;
        Some match matched with true => [WRVISA_MOCK_RESOURCE] | false => [] end
      else Some []
  | None => Some []
  end.

(** What [viFindRsrc] stores: [*vi], [*retCnt] and [desc]. *)
Record find_output := mkFindOutput {
  fo_vi : option Z;
  fo_count : option Z;
  fo_desc : option str }.

Definition stored {A} (present : bool) (value : A) : option A := if present then Some value else None.

Definition viFindRsrc (sesn : Z) (expr : option str) (vi retCnt desc : bool) w : api find_output :=
  match expr with
  | None => Some (mkApi VI_ERROR_INV_PARAMETER (mkFindOutput None None None) w)
  | Some expr =>
      if negb desc then Some (mkApi VI_ERROR_INV_PARAMETER (mkFindOutput None None None) w)
      else
        let cleared := mkFindOutput (stored vi VI_NULL) (stored retCnt 0) None in
        match get_manager sesn w with
        | None => Some (mkApi VI_ERROR_INV_OBJECT cleared w)
        | Some (manager, rm) =>
            '(expression, _) ← compile expr;
            match expression with
            | None => Some (mkApi VI_ERROR_INV_EXPR cleared w)
            | Some expression =>
                discovered ← find_matches expression (discoverable_resources rm);
                mock ← mock_matches expression expr;
                match discovered ++ mock with
                | [] => Some (mkApi VI_ERROR_RSRC_NFOUND cleared w)
                | (front :: _) as found =>
                    let count := stored retCnt (u32 (Z.of_nat (length found))) in
                    if vi then
                      let '(id, w1) := make_shared (ObjFindList (new_find_list manager sesn found)) w in
                      '(registered, w2) ← register_child manager id find_list w1;
                      match registered with
                      | Throw e =>
                          Some (mkApi (api_guard (Throw e)) (mkFindOutput (Some VI_NULL) count None) w2)
                      | Ok (status, handle) =>
                          if status <? VI_SUCCESS
                          then Some (mkApi status (mkFindOutput (Some VI_NULL) count None) w2)
                          else
                            let fl := new_find_list manager sesn found in
                            let w3 := store id (ObjFindList (mkFindList (fl_parent fl) (fl_parent_handle fl)
                                        handle (fl_matches fl) (fl_index fl) (fl_closed fl))) w2 in
                            Some (mkApi VI_SUCCESS
                                    (mkFindOutput (Some handle) count (Some (copy_output front))) w3)
                      end
                    else Some (mkApi VI_SUCCESS (mkFindOutput None count (Some (copy_output front))) w)
                end
            end
        end
  end.

Definition viFindNext (vi : Z) (desc : bool) w : api (option str) :=
  if negb desc then Some (mkApi VI_ERROR_INV_PARAMETER None w)
  else match get_find_list vi w with
       | None => Some (mkApi VI_ERROR_INV_OBJECT None w)
       | Some (id, fl) =>
           let '(next, fl') := find_list_next fl in
           let w' := store id (ObjFindList fl') w in
           match next with
           | None => Some (mkApi VI_ERROR_RSRC_NFOUND None w')
           | Some next => Some (mkApi VI_SUCCESS (Some (copy_output next)) w')
           end
       end.

(** *** Parsing *)

Record parse_output := mkParseOutput {
  po_intf_type : Z;
  po_intf_num : Z;
  po_class : option str;
  po_expanded : option str;
  po_alias : option str }.

Definition viParseRsrc (rmSesn : Z) (rsrcName : option str) (intfType intfNum : bool) w
  : api (option parse_output) :=
  match rsrcName with
  | None => Some (mkApi VI_ERROR_INV_PARAMETER None w)
  | Some rsrcName =>
      if negb (require_outputs [intfType; intfNum] =? VI_SUCCESS)
      then Some (mkApi VI_ERROR_INV_PARAMETER None w)
      else match get_manager rmSesn w with
           | None => Some (mkApi VI_ERROR_INV_OBJECT None w)
           | Some (_, rm) =>
               match resolve_resource rsrcName rm with
               | None => Some (mkApi VI_ERROR_INV_RSRC_NAME None w)
               | Some resolved =>
                   Some (mkApi VI_SUCCESS
                     (Some (mkParseOutput (rd_interface_type (rr_descriptor resolved))
                              (rd_interface_number (rr_descriptor resolved)) None None None)) w)
               end
           end
  end.

Definition viParseRsrcEx (rmSesn : Z) (rsrcName : option str)
    (intfType intfNum rsrcClass expandedUnaliasedName aliasIfExists : bool) w
  : api (option parse_output) :=
  match rsrcName with
  | None => Some (mkApi VI_ERROR_INV_PARAMETER None w)
  | Some rsrcName =>
      if negb (require_outputs [intfType; intfNum] =? VI_SUCCESS)
      then Some (mkApi VI_ERROR_INV_PARAMETER None w)
      else match get_manager rmSesn w with
           | None => Some (mkApi VI_ERROR_INV_OBJECT None w)
           | Some (_, rm) =>
               match resolve_resource rsrcName rm with
               | None => Some (mkApi VI_ERROR_INV_RSRC_NAME None w)
               | Some resolved =>
                   let d := rr_descriptor resolved in
                   Some (mkApi VI_SUCCESS
                     (Some (mkParseOutput (rd_interface_type d) (rd_interface_number d)
                              (stored rsrcClass (copy_output (rd_resource_class d)))
                              (stored expandedUnaliasedName (copy_output (rd_canonical_name d)))
                              (stored aliasIfExists (copy_output (rr_alias resolved))))) w)
               end
           end
  end.

(** *** Opening *)

(** The [switch] of [viOpen]: an early return, or the backend and [open_status]. *)
Definition open_backend (rm : ResourceManager Provider) (parsed : ResourceDescriptor) (timeout : Z)
  : Z + (option B * Z) :=
  match rd_kind parsed with
  | project_mock => inr (Some (MockBackendSession_make outside), VI_SUCCESS)
  | tcpip_socket =>
      inr (TcpBackendSession_create outside (rd_host parsed) (rd_port parsed) timeout VI_SUCCESS)
  | tcpip_instr =>
      if decide (rd_tcpip_protocol parsed = tp_hislip) then
        let port := default 4880 (tcpip_service_port (rd_host parsed) (rd_tcpip_protocol parsed) rm) in
        inr (HiSlipBackendSession_create outside (rd_host parsed) (rd_device_name parsed) timeout port
               VI_SUCCESS)
      else if decide (rd_tcpip_protocol parsed = tp_vxi11) then
        let port := default 111 (tcpip_service_port (rd_host parsed) (rd_tcpip_protocol parsed) rm) in
        inr (Vxi11BackendSession_create outside (rd_host parsed) (rd_device_name parsed) timeout port
               VI_SUCCESS)
      else inl VI_ERROR_NSUP_OPER
  | asrl_instr =>
      match serial_path (rd_interface_number parsed) rm with
      | None => inl VI_ERROR_INTF_NUM_NCONFIG
      | Some path => inr (SerialBackendSession_create outside path VI_SUCCESS)
      end
  | gpib_instr =>
      let '(transport, open_status) :=
        match gpib_provider (rd_interface_number parsed) rm with
        | Some provider =>
            let '(transport, open_status) :=
              GpibProvider_open outside provider parsed timeout VI_ERROR_RSRC_NFOUND in
            (transport,
             match transport with
             | None => if VI_SUCCESS <=? open_status then VI_ERROR_SYSTEM_ERROR else open_status
             | Some _ => open_status
             end)
        | None => open_gpib_transport outside parsed timeout VI_SUCCESS
        end in
      inr (GpibBackendSession_make outside <$> transport, open_status)
  | gpib_intfc => inl VI_ERROR_NSUP_OPER
  | usb_instr =>
      let '(transport, open_status) := open_usb_transport outside parsed timeout VI_SUCCESS in
      inr (UsbTmcBackendSession_make outside <$> transport, open_status)
  | usb_raw =>
      match usb_raw_configuration (rd_canonical_name parsed) rm with
      | Some configuration =>
          let '(transport, open_status) :=
            open_usb_raw_transport outside parsed configuration timeout VI_SUCCESS in
          inr ((fun t => UsbRawBackendSession_make outside t configuration) <$> transport, open_status)
      | None => inl VI_ERROR_INTF_NUM_NCONFIG
      end
  end.

(** [viOpen] once the backend exists: the session is registered, then locked as
    the mode asks. *)
Definition open_session (sesn : Z) (manager : nat) (parsed : ResourceDescriptor) (backend : B)
    (mode timeout : Z) (wakeups : list evaluation) w : api (option Z) :=
  let s := new_session manager sesn parsed backend in
  let '(id, w1) := make_shared (ObjSession s) w in
  '(registered, w2) ← register_child manager id session w1;
  match registered with
  | Throw e => Some (mkApi (api_guard (Throw e)) (Some VI_NULL) w2)
  | Ok (status, handle) =>
      if status <? VI_SUCCESS then Some (mkApi status (Some VI_NULL) w2)
      else
        let s := set_handle handle s in
        let w3 := store id (ObjSession s) w2 in
        let lock_type := Z.land mode (Z.lor VI_EXCLUSIVE_LOCK VI_SHARED_LOCK) in
        if negb (lock_type =? VI_NO_LOCK) then
          r ← session_lock now interfere lock_type timeout None wakeups (w_locks w3) s;
          let w4 := with_locks (lr_locks r) (store id (ObjSession (lr_session r)) w3) in
          if lr_status r <? VI_SUCCESS then
            let '(removed, slots) := HandleTable.remove handle (w_handles w4) in
            w5 ← match removed with
                 | Some r => close_object close_depth (ref_id r) (with_handles slots w4)
                 | None => Some (with_handles slots w4)
                 end;
            Some (mkApi (lr_status r) (Some VI_NULL) w5)
          else Some (mkApi (lr_status r) (Some handle) w4)
        else Some (mkApi status (Some handle) w3)
  end.

(** [elsewhere] is what other threads do while the backend connects, [wakeups]
    the schedule of the lock request. *)
Definition viOpen (elsewhere : World B H Provider -> World B H Provider) (wakeups : list evaluation)
    (sesn : Z) (name : option str) (mode timeout : Z) (vi : bool) w : api (option Z) :=
  match name with
  | None => Some (mkApi VI_ERROR_INV_PARAMETER None w)
  | Some name =>
      if negb vi then Some (mkApi VI_ERROR_INV_PARAMETER None w)
      else if negb (valid_open_mode mode) then Some (mkApi VI_ERROR_INV_ACC_MODE (Some VI_NULL) w)
      else match get_manager sesn w with
           | None => Some (mkApi VI_ERROR_INV_OBJECT (Some VI_NULL) w)
           | Some (manager, rm) =>
               match resolve_resource name rm with
               | None => Some (mkApi VI_ERROR_INV_RSRC_NAME (Some VI_NULL) w)
               | Some resolved =>
                   let parsed := rr_descriptor resolved in
                   match open_backend rm parsed timeout with
                   | inl status => Some (mkApi status (Some VI_NULL) w)
                   | inr (None, open_status) => Some (mkApi open_status (Some VI_NULL) (elsewhere w))
                   | inr (Some backend, _) =>
                       open_session sesn manager parsed backend mode timeout wakeups (elsewhere w)
                   end
               end
           end
  end.

Definition viClose (vi : Z) w : api unit :=
  let '(object, slots) := HandleTable.remove vi (w_handles w) in
  match object with
  | None => Some (mkApi VI_ERROR_INV_OBJECT tt (with_handles slots w))
  | Some r =>
      w' ← close_object close_depth (ref_id r) (with_handles slots w);
      Some (mkApi VI_SUCCESS tt w')
  end.

(** *** Attributes and statuses *)

Definition viSetAttribute (vi attrName attrValue : Z) w : api unit :=
  match get_session vi w with
  | None => Some (mkApi VI_ERROR_INV_OBJECT tt w)
  | Some (id, s) =>
      let '(status, s') := session_set_attribute attrName attrValue s in
      Some (mkApi status tt (store id (ObjSession s') w))
  end.

Definition viGetAttribute (vi attrName : Z) (attrValue : bool) w : api (option attr_value) :=
  if negb attrValue then Some (mkApi VI_ERROR_INV_PARAMETER None w)
  else match get_session vi w with
       | Some (_, s) =>
           let '(status, value) := session_get_attribute attrValue attrName (w_locks w) s in
           Some (mkApi status value w)
       | None =>
           match get_manager vi w with
           | Some _ =>
               if attrName =? VI_ATTR_RSRC_CLASS then
                 Some (mkApi VI_SUCCESS (Some (attr_string (copy_output (lit "RM")))) w)
               else if attrName =? VI_ATTR_RSRC_IMPL_VERSION then
                 Some (mkApi VI_SUCCESS (Some (attr_number 0x00000600)) w)
               else if attrName =? VI_ATTR_RSRC_SPEC_VERSION then
                 Some (mkApi VI_SUCCESS (Some (attr_number VI_SPEC_VERSION)) w)
               else Some (mkApi VI_ERROR_NSUP_ATTR None w)
           | None => Some (mkApi VI_ERROR_INV_OBJECT None w)
           end
       end.

Definition viStatusDesc (vi status : Z) (desc : bool) w : api (option str) :=
  if negb desc then Some (mkApi VI_ERROR_INV_PARAMETER None w)
  else match get_any vi (w_handles w) with
       | None => Some (mkApi VI_ERROR_INV_OBJECT None w)
       | Some _ =>
           match status_description status with
           | None => Some (mkApi VI_ERROR_NSUP_OPER None w)
           | Some description => Some (mkApi VI_SUCCESS (Some (copy_output description)) w)
           end
       end.

(** *** Sessions *)

Definition viTerminate (vi degree jobId : Z) w : api unit :=
  if negb (degree =? VI_NULL) then Some (mkApi VI_ERROR_INV_DEGREE tt w)
  else if negb (jobId =? VI_NULL) then Some (mkApi VI_ERROR_INV_JOB_ID tt w)
  else match get_session vi w with
       | None => Some (mkApi VI_ERROR_INV_OBJECT tt w)
       | Some (id, s) =>
           let '(status, s') := cancel_operations s in
           Some (mkApi status tt (store id (ObjSession s') w))
       end.

Definition viLock (wakeups : list evaluation) (vi lockType timeout : Z) (requestedKey : option str)
    (accessKey : bool) w : api (option str) :=
  match get_session vi w with
  | None => Some (mkApi VI_ERROR_INV_OBJECT None w)
  | Some (id, s) =>
      r ← session_lock now interfere lockType timeout requestedKey wakeups (w_locks w) s;
      Some (mkApi (lr_status r)
              (if (VI_SUCCESS <=? lr_status r) && accessKey
               then Some (copy_output (lr_access_key r)) else None)
              (with_locks (lr_locks r) (store id (ObjSession (lr_session r)) w)))
  end.

Definition viUnlock (vi : Z) w : api unit :=
  match get_session vi w with
  | None => Some (mkApi VI_ERROR_INV_OBJECT tt w)
  | Some (id, s) =>
      r ← session_unlock now interfere (w_locks w) s;
      Some (mkApi (lr_status r) tt (with_locks (lr_locks r) (store id (ObjSession (lr_session r)) w)))
  end.

(** What an I/O call stores: the count (or the status byte) and the data. *)
Definition io_output : Type := option Z * list Z.

Definition session_call (vi : Z) (call : LockManager -> SessionObject B H -> option (session_result B H)) w
  : api io_output :=
  match get_session vi w with
  | None => Some (mkApi VI_ERROR_INV_OBJECT (None, []) w)
  | Some (id, s) =>
      r ← call (w_locks w) s;
      Some (mkApi (sr_status r) (sr_value r, sr_data r) (store id (ObjSession (sr_session r)) w))
  end.

Definition viRead (vi : Z) (buf : bool) (cnt : Z) (retCnt : bool) w : api io_output :=
  if negb buf || negb retCnt || (cnt =? 0) then Some (mkApi VI_ERROR_INV_PARAMETER (None, []) w)
  else session_call vi (session_read now interfere cnt) w.

Definition viWrite (vi : Z) (buf : option (list Z)) (cnt : Z) (retCnt : bool) w : api io_output :=
  match buf with
  | None => Some (mkApi VI_ERROR_INV_PARAMETER (None, []) w)
  | Some buffer =>
      if negb retCnt || (cnt =? 0) then Some (mkApi VI_ERROR_INV_PARAMETER (None, []) w)
      else session_call vi (session_write now interfere (take (Z.to_nat cnt) buffer)) w
  end.

Definition viAssertTrigger (vi protocol : Z) w : api io_output :=
  session_call vi (session_assert_trigger now interfere protocol) w.

Definition viReadSTB (vi : Z) (status : bool) w : api io_output :=
  session_call vi (session_read_stb now interfere status) w.

Definition viClear (vi : Z) w : api io_output := session_call vi (session_clear now interfere) w.

Definition viFlush (vi mask : Z) w : api io_output :=
  session_call vi (session_flush now interfere mask) w.

Definition viSetBuf (vi mask size : Z) w : api unit :=
  match get_session vi w with
  | None => Some (mkApi VI_ERROR_INV_OBJECT tt w)
  | Some (id, s) =>
      let '(status, s') := session_set_buffer mask size s in
      Some (mkApi status tt (store id (ObjSession s') w))
  end.

(** *** Extensions *)

(** A null or empty C string. *)
Definition missing (text : option str) : bool :=
  match text with Some (_ :: _) => false | _ => true end.

Definition wrvisaSetSerialPath (rmSesn intfNum : Z) (nativePath : option str) w : api unit :=
  if missing nativePath then Some (mkApi VI_ERROR_INV_PARAMETER tt w)
  else match get_manager rmSesn w with
       | None => Some (mkApi VI_ERROR_INV_OBJECT tt w)
       | Some (id, rm) =>
           let '(set, rm') := set_serial_path intfNum (default [] nativePath) rm in
           Some (mkApi (if (set : bool) then VI_SUCCESS else VI_ERROR_INV_OBJECT) tt
                   (store id (ObjManager rm') w))
       end.

Definition wrvisaSetTcpipServicePort (rmSesn : Z) (host : option str) (protocol port : Z) w : api unit :=
  if missing host || (port =? 0) then Some (mkApi VI_ERROR_INV_PARAMETER tt w)
  else
    let selected :=
      if protocol =? WRVISA_TCPIP_PROTOCOL_VXI11 then Some tp_vxi11
      else if protocol =? WRVISA_TCPIP_PROTOCOL_HISLIP then Some tp_hislip
      else None in
    match selected with
    | None => Some (mkApi VI_ERROR_INV_PROT tt w)
    | Some selected =>
        match get_manager rmSesn w with
        | None => Some (mkApi VI_ERROR_INV_OBJECT tt w)
        | Some (id, rm) =>
            let '(set, rm') := set_tcpip_service_port (default [] host) selected port rm in
            Some (mkApi (if (set : bool) then VI_SUCCESS else VI_ERROR_INV_PARAMETER) tt
                    (store id (ObjManager rm') w))
        end
    end.

Definition wrvisaSetResourceAlias (rmSesn : Z) (alias resourceName : option str) w : api unit :=
  if missing alias || missing resourceName then Some (mkApi VI_ERROR_INV_PARAMETER tt w)
  else match get_manager rmSesn w with
       | None => Some (mkApi VI_ERROR_INV_OBJECT tt w)
       | Some (id, rm) =>
           match parse_resource (default [] resourceName) with
           | None => Some (mkApi VI_ERROR_INV_RSRC_NAME tt w)
           | Some resource =>
               let '(set, rm') := set_resource_alias (default [] alias) resource rm in
               Some (mkApi (if (set : bool) then VI_SUCCESS else VI_ERROR_INV_PARAMETER) tt
                       (store id (ObjManager rm') w))
           end
       end.

(** The checks of [wrvisaSetUsbRawConfig] before it looks at the handle. *)
Definition check_usb_raw_config (config : wrvisa_usb_raw_config_v1) : Z + UsbRawConfiguration :=
  let structure_status :=
    validate_usb_structure sizeof_usb_raw_config (urc_struct_size config) (urc_abi_major config)
      (urc_abi_minor config) in
  if structure_status <? VI_SUCCESS then inl structure_status
  else if negb (zero_usb_raw_reserved config) then inl VI_ERROR_INV_PARAMETER
  else
    match usb_transfer_type (urc_read_transfer_type config),
          usb_transfer_type (urc_write_transfer_type config) with
    | Some read_type, Some write_type =>
        if negb (valid_usb_endpoint read_type (urc_read_endpoint config) true)
           || negb (valid_usb_endpoint write_type (urc_write_endpoint config) false)
        then inl VI_ERROR_INV_PARAMETER
        else inr (mkUsbRawConfiguration (urc_alternate_setting config) read_type
                    (urc_read_endpoint config) write_type (urc_write_endpoint config))
    | _, _ => inl VI_ERROR_INV_PARAMETER
    end.

Definition wrvisaSetUsbRawConfig (rmSesn : Z) (resourceName : option str)
    (config : option wrvisa_usb_raw_config_v1) w : api unit :=
  match missing resourceName, config with
  | false, Some config =>
      match check_usb_raw_config config with
      | inl status => Some (mkApi status tt w)
      | inr configuration =>
          match get_manager rmSesn w with
          | None => Some (mkApi VI_ERROR_INV_OBJECT tt w)
          | Some (id, rm) =>
              match resolve_resource (default [] resourceName) rm with
              | None => Some (mkApi VI_ERROR_INV_RSRC_NAME tt w)
              | Some resolved =>
                  if decide (rd_kind (rr_descriptor resolved) = usb_raw) then
                    let '(set, rm') :=
                      set_usb_raw_configuration (rd_canonical_name (rr_descriptor resolved))
                        configuration rm in
                    Some (mkApi (if (set : bool) then VI_SUCCESS else VI_ERROR_INV_OBJECT) tt
                            (store id (ObjManager rm') w))
                  else Some (mkApi VI_ERROR_NSUP_OPER tt w)
              end
          end
      end
  | _, _ => Some (mkApi VI_ERROR_INV_PARAMETER tt w)
  end.

(** The checks of [wrvisaSetPrologixController] before it looks at the handle. *)
Definition check_prologix_config (endpoint : str) (config : wrvisa_prologix_controller_config_v1)
  : Z + PrologixConfiguration :=
  let structure_status := validate_prologix_structure config in
  if structure_status <? VI_SUCCESS then inl structure_status
  else if negb (zero_prologix_reserved config) then inl VI_ERROR_INV_PARAMETER
  else
    let connection :=
      if pcc_connection_type config =? WRVISA_PROLOGIX_CONNECTION_SERIAL then
        if negb (pcc_tcp_port config =? 0) then None else Some prologix_serial
      else if pcc_connection_type config =? WRVISA_PROLOGIX_CONNECTION_TCP then
        if pcc_tcp_port config =? 0 then None else Some prologix_tcp
      else None in
    match connection with
    | None => inl VI_ERROR_INV_PARAMETER
    | Some connection =>
        if (pcc_read_timeout_ms config <? 1) || (3000 <? pcc_read_timeout_ms config)
           || (pcc_maximum_response_size config <? 1)
           || (WRVISA_PROLOGIX_MAX_RESPONSE_SIZE <? pcc_maximum_response_size config)
        then inl VI_ERROR_INV_PARAMETER
        else inr (mkPrologixConfiguration connection endpoint (pcc_tcp_port config)
                    (pcc_eot_char config) (pcc_read_timeout_ms config)
                    (pcc_maximum_response_size config))
    end.

Definition wrvisaSetPrologixController (rmSesn board : Z) (endpoint : option str)
    (config : option wrvisa_prologix_controller_config_v1) w : api unit :=
  match missing endpoint, config with
  | false, Some config =>
      match check_prologix_config (default [] endpoint) config with
      | inl status => Some (mkApi status tt w)
      | inr configuration =>
          match get_manager rmSesn w with
          | None => Some (mkApi VI_ERROR_INV_OBJECT tt w)
          | Some (id, rm) =>
              let '(provider, status) :=
                make_prologix_provider outside board configuration VI_ERROR_SYSTEM_ERROR in
              match provider with
              | None => Some (mkApi status tt w)
              | Some provider =>
                  let '(set, rm') := set_gpib_provider board (Some provider) rm in
                  Some (mkApi (if (set : bool) then VI_SUCCESS else VI_ERROR_INV_OBJECT) tt
                          (store id (ObjManager rm') w))
              end
          end
      end
  | _, _ => Some (mkApi VI_ERROR_INV_PARAMETER tt w)
  end.

Definition UINT16_MAX : Z := 0xFFFF.

Definition wrvisaUsbControlTransfer (vi : Z) (request : option wrvisa_usb_control_request_v1)
    (data : option (list Z)) (count : Z) (retCnt : bool) w : api io_output :=
  let cleared : io_output := (stored retCnt 0, []) in
  match request with
  | None => Some (mkApi VI_ERROR_INV_PARAMETER cleared w)
  | Some request =>
      if negb retCnt || (negb (count =? 0) && match data with None => true | Some _ => false end)
      then Some (mkApi VI_ERROR_INV_PARAMETER cleared w)
      else if UINT16_MAX <? count then Some (mkApi VI_ERROR_INV_SIZE cleared w)
      else
        let structure_status :=
          validate_usb_structure sizeof_usb_control_request (ucr_struct_size request)
            (ucr_abi_major request) (ucr_abi_minor request) in
        if structure_status <? VI_SUCCESS then Some (mkApi structure_status cleared w)
        else if negb (zero_usb_control_reserved request)
                || (Z.land (ucr_request_type request) 0x60 =? 0x60)
                || (3 <? Z.land (ucr_request_type request) 0x1f)
        then Some (mkApi VI_ERROR_INV_PARAMETER cleared w)
        else match get_session vi w with
             | None => Some (mkApi VI_ERROR_INV_OBJECT cleared w)
             | Some _ =>
                 session_call vi (session_usb_control now interfere (ucr_request_type request)
                   (ucr_request request) (ucr_value request) (ucr_index request)
                   (default [] data) count) w
             end
  end.

(** ** Calls as data *)

Inductive api_call :=
| CallOpenDefaultRM (vi : bool)
| CallFindRsrc (sesn : Z) (expr : option str) (vi retCnt desc : bool)
| CallFindNext (vi : Z) (desc : bool)
| CallParseRsrc (rmSesn : Z) (rsrcName : option str) (intfType intfNum : bool)
| CallParseRsrcEx (rmSesn : Z) (rsrcName : option str)
    (intfType intfNum rsrcClass expandedUnaliasedName aliasIfExists : bool)
| CallOpen (elsewhere : World B H Provider -> World B H Provider) (wakeups : list evaluation)
    (sesn : Z) (name : option str) (mode timeout : Z) (vi : bool)
| CallClose (vi : Z)
| CallSetAttribute (vi attrName attrValue : Z)
| CallGetAttribute (vi attrName : Z) (attrValue : bool)
| CallStatusDesc (vi status : Z) (desc : bool)
| CallTerminate (vi degree jobId : Z)
| CallLock (wakeups : list evaluation) (vi lockType timeout : Z) (requestedKey : option str)
    (accessKey : bool)
| CallUnlock (vi : Z)
| CallRead (vi : Z) (buf : bool) (cnt : Z) (retCnt : bool)
| CallWrite (vi : Z) (buf : option (list Z)) (cnt : Z) (retCnt : bool)
| CallAssertTrigger (vi protocol : Z)
| CallReadSTB (vi : Z) (status : bool)
| CallClear (vi : Z)
| CallFlush (vi mask : Z)
| CallSetBuf (vi mask size : Z)
| CallSetSerialPath (rmSesn intfNum : Z) (nativePath : option str)
| CallSetTcpipServicePort (rmSesn : Z) (host : option str) (protocol port : Z)
| CallSetResourceAlias (rmSesn : Z) (alias resourceName : option str)
| CallSetUsbRawConfig (rmSesn : Z) (resourceName : option str)
    (config : option wrvisa_usb_raw_config_v1)
| CallSetPrologixController (rmSesn board : Z) (endpoint : option str)
    (config : option wrvisa_prologix_controller_config_v1)
| CallUsbControlTransfer (vi : Z) (request : option wrvisa_usb_control_request_v1)
    (data : option (list Z)) (count : Z) (retCnt : bool).

Definition outcome {O} (r : api O) : option (Z * World B H Provider) :=
  (fun r => (ar_status r, ar_world r)) <$> r.

(** The status of a call and the world after it. *)
Definition api_step (c : api_call) w : option (Z * World B H Provider) :=
  match c with
  | CallOpenDefaultRM vi => outcome (viOpenDefaultRM vi w)
  | CallFindRsrc sesn expr vi retCnt desc => outcome (viFindRsrc sesn expr vi retCnt desc w)
  | CallFindNext vi desc => outcome (viFindNext vi desc w)
  | CallParseRsrc rmSesn rsrcName t n => outcome (viParseRsrc rmSesn rsrcName t n w)
  | CallParseRsrcEx rmSesn rsrcName t n c e a => outcome (viParseRsrcEx rmSesn rsrcName t n c e a w)
  | CallOpen elsewhere wakeups sesn name mode timeout vi =>
      outcome (viOpen elsewhere wakeups sesn name mode timeout vi w)
  | CallClose vi => outcome (viClose vi w)
  | CallSetAttribute vi attrName attrValue => outcome (viSetAttribute vi attrName attrValue w)
  | CallGetAttribute vi attrName attrValue => outcome (viGetAttribute vi attrName attrValue w)
  | CallStatusDesc vi status desc => outcome (viStatusDesc vi status desc w)
  | CallTerminate vi degree jobId => outcome (viTerminate vi degree jobId w)
  | CallLock wakeups vi lockType timeout requestedKey accessKey =>
      outcome (viLock wakeups vi lockType timeout requestedKey accessKey w)
  | CallUnlock vi => outcome (viUnlock vi w)
  | CallRead vi buf cnt retCnt => outcome (viRead vi buf cnt retCnt w)
  | CallWrite vi buf cnt retCnt => outcome (viWrite vi buf cnt retCnt w)
  | CallAssertTrigger vi protocol => outcome (viAssertTrigger vi protocol w)
  | CallReadSTB vi status => outcome (viReadSTB vi status w)
  | CallClear vi => outcome (viClear vi w)
  | CallFlush vi mask => outcome (viFlush vi mask w)
  | CallSetBuf vi mask size => outcome (viSetBuf vi mask size w)
  | CallSetSerialPath rmSesn intfNum nativePath =>
      outcome (wrvisaSetSerialPath rmSesn intfNum nativePath w)
  | CallSetTcpipServicePort rmSesn host protocol port =>
      outcome (wrvisaSetTcpipServicePort rmSesn host protocol port w)
  | CallSetResourceAlias rmSesn alias resourceName =>
      outcome (wrvisaSetResourceAlias rmSesn alias resourceName w)
  | CallSetUsbRawConfig rmSesn resourceName config =>
      outcome (wrvisaSetUsbRawConfig rmSesn resourceName config w)
  | CallSetPrologixController rmSesn board endpoint config =>
      outcome (wrvisaSetPrologixController rmSesn board endpoint config w)
  | CallUsbControlTransfer vi request data count retCnt =>
      outcome (wrvisaUsbControlTransfer vi request data count retCnt w)
  end.

End api.

(** ** Handle lookups *)

Section lookups.
Context {B H Provider : Type}.
Implicit Types w : World B H Provider.

Abbreviation live w h := (get_any h (w_handles w)).

Lemma get_object_live h expected w id o :
  table_ok (w_handles w) -> get_object h expected w = Some (id, o) ->
  exists r, live w h = Some r /\ ref_type r = expected /\ ref_id r = id /\ w_heap w !! id = Some o.
Proof.
  intros Hok Hg. unfold get_object in Hg. rewrite get_live in Hg by done.
  apply bind_Some in Hg as (r & Hr & Hg). apply bind_Some in Hg as (o' & Ho & Hg).
  injection Hg as <- <-. apply bind_Some in Hr as (r' & Hl & Hr). case_decide; [|done].
  injection Hr as <-. by exists r'.
Qed.

Lemma get_manager_live h w id rm :
  table_ok (w_handles w) -> get_manager h w = Some (id, rm) ->
  exists r, live w h = Some r /\ ref_type r = resource_manager /\ ref_id r = id /\
    w_heap w !! id = Some (ObjManager rm).
Proof.
  intros Hok Hg. unfold get_manager in Hg.
  destruct (get_object h resource_manager w) as [[id' [rm'| |]]|] eqn:Ho; try done.
  injection Hg as <- <-. by apply get_object_live.
Qed.

Lemma get_find_list_live h w id fl :
  table_ok (w_handles w) -> get_find_list h w = Some (id, fl) ->
  exists r, live w h = Some r /\ ref_type r = find_list /\ ref_id r = id /\
    w_heap w !! id = Some (ObjFindList fl).
Proof.
  intros Hok Hg. unfold get_find_list in Hg.
  destruct (get_object h find_list w) as [[id' [|fl'|]]|] eqn:Ho; try done.
  injection Hg as <- <-. by apply get_object_live.
Qed.

Lemma get_session_live h w id s :
  table_ok (w_handles w) -> get_session h w = Some (id, s) ->
  exists r, live w h = Some r /\ ref_type r = session /\ ref_id r = id /\
    w_heap w !! id = Some (ObjSession s).
Proof.
  intros Hok Hg. unfold get_session in Hg.
  destruct (get_object h session w) as [[id' [| |s']]|] eqn:Ho; try done.
  injection Hg as <- <-. by apply get_object_live.
Qed.

(** A handle that is dead or of another type is not found. *)
Lemma get_object_none h expected w :
  table_ok (w_handles w) -> (forall r, live w h = Some r -> ref_type r ≠ expected) ->
  get_object h expected w = None.
Proof.
  intros Hok Hn. unfold get_object. rewrite get_live by done.
  destruct (live w h) as [r|]; [|done]. cbn [mbind option_bind].
  rewrite decide_False by (by apply Hn). done.
Qed.

End lookups.

(** ** Calls keep the world well-formed *)

Section preservation.
Context {B H Provider GpibTransport UsbTransport UsbRawTransport : Type} `{BackendSession B H}.
Context (outside : Outside B Provider GpibTransport UsbTransport UsbRawTransport).
Context (now : Z) (interfere : nat -> Operation H -> Operation H).
Implicit Types w : World B H Provider.

Abbreviation live w h := (get_any h (w_handles w)).

Lemma same_session_shape (s s' : SessionObject B H) :
  same_session s s' -> same_shape (Provider := Provider) (ObjSession s) (ObjSession s').
Proof. by intros (b & n & ->). Qed.

Lemma set_attribute_shape attribute value (s : SessionObject B H) :
  same_shape (Provider := Provider) (ObjSession s)
    (ObjSession (session_set_attribute attribute value s).2).
Proof.
  unfold session_set_attribute. repeat case_match; done.
Qed.

Lemma set_buffer_shape mask size (s : SessionObject B H) :
  same_shape (Provider := Provider) (ObjSession s) (ObjSession (session_set_buffer mask size s).2).
Proof. unfold session_set_buffer. by repeat case_match. Qed.

Lemma update_session w vi id s s' locks :
  world_ok w -> get_session vi w = Some (id, s) ->
  same_shape (Provider := Provider) (ObjSession s) (ObjSession s') ->
  lock_inv (lock_holder w) locks -> world_ok (with_locks locks (store id (ObjSession s') w)).
Proof.
  intros Hok Hg Hshape Hlocks.
  destruct (get_session_live _ _ _ _ (ok_table _ _ _ Hok) Hg) as (r & Hl & _ & Hid & Hs).
  apply with_locks_ok; [by eapply store_ok|].
  eapply lock_inv_mono; [|exact Hlocks]. intros o rs (Ho & ref & s0 & Href & Hs0 & Hres).
  split; [done|]. destruct (decide (ref_id ref = id)) as [Heq|Hne].
  - exists ref, s'. split; [done|]. cbn. rewrite Heq, lookup_insert_eq. split; [done|].
    rewrite Heq, Hs in Hs0. injection Hs0 as <-. destruct Hshape as [_ Hsh]. by rewrite Hsh.
  - exists ref, s0. split; [done|]. cbn. by rewrite lookup_insert_ne.
Qed.

Lemma update_session_only w vi id s s' :
  world_ok w -> get_session vi w = Some (id, s) ->
  same_shape (Provider := Provider) (ObjSession s) (ObjSession s') ->
  world_ok (store id (ObjSession s') w).
Proof.
  intros Hok Hg Hshape. pose proof (update_session w vi id s s' (w_locks w) Hok Hg Hshape (ok_locks _ _ _ Hok)).
  by destruct w.
Qed.

Lemma update_manager w vi id rm rm' :
  world_ok w -> get_manager vi w = Some (id, rm) ->
  children_ rm' = children_ rm -> rm_closed_ rm' = rm_closed_ rm ->
  world_ok (store id (ObjManager rm') w).
Proof.
  intros Hok Hg Hc Hcl.
  destruct (get_manager_live _ _ _ _ (ok_table _ _ _ Hok) Hg) as (r & Hl & _ & Hid & Hs).
  by eapply store_ok.
Qed.

(** The session of a handle goes by that handle, and may own its locks. *)
Lemma session_holder w vi id s :
  world_ok w -> handle_range vi -> get_session vi w = Some (id, s) ->
  so_handle s = vi /\ lock_holder w (so_handle s) (session_resource s).
Proof.
  intros Hok Hvi Hg.
  destruct (get_session_live _ _ _ _ (ok_table _ _ _ Hok) Hg) as (r & Hl & Hty & <- & Hs).
  destruct (ok_object _ _ _ Hok vi r Hvi Hl) as (o & Ho & _ & Hpl). rewrite Hs in Ho.
  injection Ho as <-. destruct Hpl as (par & ph & Heq & _). injection Heq as _ _ Hh.
  split; [done|]. rewrite Hh. split; [done|]. by exists r, s.
Qed.

Lemma session_call_ok w vi call r :
  world_ok w ->
  (forall locks s x, call locks s = Some x -> same_session s (sr_session x)) ->
  session_call vi call w = Some r -> world_ok (ar_world r).
Proof.
  intros Hok Hsame Hr. unfold session_call in Hr.
  destruct (get_session vi w) as [[id s]|] eqn:Hg; [|by injection Hr as <-].
  apply bind_Some in Hr as (x & Hx & Hr). injection Hr as <-. simpl.
  eapply update_session_only; [done|done|]. by eapply same_session_shape, Hsame.
Qed.

End preservation.

(** ** Whose locks a lock request changes *)

Lemma release_other o r m o' r' :
  o' ≠ o -> owned_lock_type o' r' (release o r m).1.2 = owned_lock_type o' r' m.
Proof.
  intros Hne. unfold release. destruct (locks_ m !! r) as [st|] eqn:Hl; [|done].
  assert (owned_lock_type o' r m = state_owner st o') as Hown
    by (rewrite owned_lock_type_state; unfold state_of; by rewrite Hl).
  destruct (decide (r' = r)) as [->|Hr].
  2:{ repeat case_match; simpl; rewrite ?owned_set, ?owned_erase, ?decide_False by done; done. }
  rewrite Hown. unfold state_owner. lock_consts.
  destruct (Z.eqb_spec (ls_type st) 1) as [He|He]; simpl.
  - destruct (Z.eqb_spec (ls_exclusive_owner st) o) as [Ho|Ho]; simpl.
    + rewrite (proj2 (Z.eqb_neq (ls_exclusive_owner st) o')) by congruence. rewrite He. simpl.
      case_match; simpl; rewrite ?owned_erase, ?owned_set, decide_True by done; [done|].
      unfold state_owner. simpl. lock_consts. rewrite Ho.
      by rewrite (proj2 (Z.eqb_neq o o')) by congruence.
    + rewrite He. simpl. rewrite Hown. unfold state_owner. by rewrite He.
  - destruct (Z.eqb_spec (ls_type st) 2) as [Hs|Hs]; simpl.
    + destruct (ls_shared_owners st !! o) as [d|] eqn:Hd; simpl.
      2:{ rewrite Hown. unfold state_owner. by rewrite Hs. }
      set (owners := if u32 (d - 1) =? 0 then _ else _).
      assert (owners !! o' = ls_shared_owners st !! o') as Ho'.
      { unfold owners. case_match; [by rewrite lookup_delete_ne|by rewrite lookup_insert_ne]. }
      case_decide as Hemp; simpl; rewrite ?owned_erase, ?owned_set, decide_True by done.
      * rewrite <- Ho', Hemp, lookup_empty. done.
      * unfold state_owner. simpl. lock_consts. rewrite Hs. simpl. by rewrite Ho'.
    + rewrite Hown. unfold state_owner. lock_consts.
      rewrite (proj2 (Z.eqb_neq _ _) He), (proj2 (Z.eqb_neq _ _) Hs). done.
Qed.

Lemma acquire_commit_sets rq m :
  exists st m1, (acquire_commit rq None m).2 = set_lock (rq_resource rq) st m1 /\ locks_ m1 = locks_ m.
Proof. unfold acquire_commit, next_key. repeat case_match; simplify_eq; by do 2 eexists. Qed.

Lemma acquire_commit_owned rq m o r :
  lock_typed m -> acquire_check rq = None -> grantable rq None m = true ->
  owned_lock_type o r (acquire_commit rq None m).2 =
    if decide (o = rq_owner rq /\ r = rq_resource rq) then rq_type rq else owned_lock_type o r m.
Proof.
  intros Htyped Hchk Hg. apply acquire_check_None in Hchk.
  destruct (decide (r = rq_resource rq)) as [->|Hr].
  2:{ destruct (acquire_commit_sets rq m) as (st & m1 & -> & Hm1).
      rewrite owned_set, !decide_False by naive_solver.
      unfold owned_lock_type. by rewrite Hm1. }
  unfold acquire_commit. unfold grantable, can_grant in Hg.
  fold (state_of (rq_resource rq) m) in *. set (st := state_of (rq_resource rq) m) in *.
  assert (ls_type st = VI_NO_LOCK -> ls_shared_owners st = ∅) as Hnone.
  { unfold st, state_of. destruct (locks_ m !! rq_resource rq) as [st'|] eqn:Hl; [|done].
    simpl. intros Hty. by destruct (Htyped _ _ Hl); lock_consts; lia. }
  assert (owned_lock_type o (rq_resource rq) m = state_owner st o) as ->
    by apply owned_lock_type_state.
  assert (forall key m1, next_key m = (key, m1) -> locks_ m1 = locks_ m) as Hnext
    by (by intros key m1 [= <- <-]).
  lock_consts. unfold state_owner. lock_consts.
  destruct (Z.eqb_spec (rq_type rq) 1) as [He|He]; cbn [negb andb] in *.
  - destruct (Z.eqb_spec (ls_type st) 1) as [Ht|Ht]; cbn [snd];
      rewrite owned_set, decide_True by done; unfold state_owner;
      cbn [ls_type ls_exclusive_owner ls_shared_owners]; lock_consts; rewrite ?Ht, ?He; cbn.
    + assert (ls_exclusive_owner st = rq_owner rq) as -> by (by rewrite Ht in Hg; apply Z.eqb_eq in Hg).
      destruct (Z.eqb_spec (rq_owner rq) o); case_decide; simpl; naive_solver.
    + assert (ls_type st = 0) as Ht0.
      { by destruct (Z.eqb_spec (ls_type st) 0). }
      rewrite Ht0. cbn. destruct (Z.eqb_spec (rq_owner rq) o); case_decide; simpl; naive_solver.
  - assert (rq_type rq = 2) as -> by (destruct Hchk; lia).
    destruct (Z.eqb_spec (ls_type st) 2) as [Ht|Ht]; cbn [snd].
    + rewrite owned_set, decide_True by done. unfold state_owner.
      cbn [ls_type ls_exclusive_owner ls_shared_owners]. lock_consts. rewrite Ht. cbn.
      destruct (decide (o = rq_owner rq)) as [->|Hne].
      * rewrite lookup_insert_eq, (decide_True (P := _ /\ _)) by done. done.
      * rewrite lookup_insert_ne, (decide_False (P := _ /\ _)) by naive_solver. done.
    + assert (ls_type st = 0) as Ht0.
      { by destruct (Z.eqb_spec (ls_type st) 0). }
      destruct (next_key m) as [key m1]. cbn [snd]. rewrite owned_set, decide_True by done.
      unfold state_owner. cbn [ls_type ls_exclusive_owner ls_shared_owners]. lock_consts.
      rewrite (Hnone Ht0), Ht0. cbn.
      destruct (decide (o = rq_owner rq)) as [->|Hne].
      * rewrite lookup_insert_eq, (decide_True (P := _ /\ _)) by done. done.
      * rewrite lookup_insert_ne, lookup_empty, (decide_False (P := _ /\ _)) by naive_solver. done.
Qed.

Section lock_frame.
Context {B H : Type} `{BackendLaws B H}.
Context (now : Z) (interfere : nat -> Operation H -> Operation H).
Hypothesis interfere_fails : forall i op, fails_only op -> fails_only (interfere i op).
Implicit Types s : SessionObject B H.

Lemma lock_remote_owned lock_type access_key status op locks s x :
  fails_only op -> lock_remote lock_type access_key status op locks s = Some x ->
  fails_only x.1.2 /\ (VI_SUCCESS <= x.1.1.1 -> x.2 = locks) /\
  forall o r, o ≠ so_handle s -> owned_lock_type o r x.2 = owned_lock_type o r locks.
Proof.
  intros Hf. unfold lock_remote. intros Hx.
  apply bind_Some in Hx as (r & Hr & Hx). pose proof (lock_fails_only _ _ _ _ _ Hr Hf) as Hf'.
  destruct (Z.ltb_spec (cr_status r) VI_SUCCESS) as [Hlt|Hge].
  - pose proof (release_other (so_handle s) (session_resource s) locks) as Hrel.
    destruct (release _ _ locks) as [[st m'] nt]. injection Hx as <-. simpl in *.
    split; [done|]. split; [lia|]. intros o r' Hne. by apply Hrel.
  - by injection Hx as <-.
Qed.

(** A successful request makes the session own the lock it asked for; nobody
    else's locks change either way. *)
Lemma session_lock_owned lock_type timeout key wakeups locks s r :
  lock_typed locks -> Forall (quiet locks) wakeups ->
  session_lock now interfere lock_type timeout key wakeups locks s = Some r ->
  (forall o rs, o ≠ so_handle s ->
     owned_lock_type o rs (lr_locks r) = owned_lock_type o rs locks) /\
  (VI_SUCCESS <= lr_status r -> forall rs,
     owned_lock_type (so_handle s) rs (lr_locks r) =
       if decide (rs = session_resource s) then lock_type
       else owned_lock_type (so_handle s) rs locks).
Proof.
  intros Htyped Hq Hr. unfold session_lock in Hr.
  destruct (begin_operation_with now timeout s) as [[id op] s1] eqn:Hbegin.
  pose proof (interfere_fails 0%nat _ (begin_fails_only _ _ _ _ _ _ Hbegin)) as Hf.
  destruct (begin_names _ _ _ _ _ _ Hbegin) as [Hh Hres].
  destruct (completed (interfere 0 op)) eqn:Hc.
  { injection Hr as <-. simpl. split; [done|]. pose proof (Hf Hc). lia. }
  destruct (acquire _ _ _ _ _) as [|status ko locks1] eqn:Hacq; [done|].
  pose proof (interfere_fails 1%nat _ Hf) as Hf1.
  destruct (acquire_quiet _ _ _ _ _ _ _ Hq Hacq) as [[Hlt ->]|(Hchk & Hg & Hcommit)].
  - rewrite (proj2 (Z.ltb_lt _ _)) in Hr by done. injection Hr as <-. cbn [lr_locks lr_status].
    split; [done|]. pose proof (try_complete_cases status _ Hf1) as Hfin.
    destruct (try_complete status _) as [[] op']; cbn [snd] in *; lia.
  - pose proof (acquire_commit_owned _ _ (so_handle s) (session_resource s) Htyped Hchk Hg) as Hown.
    pose proof (fun o rs => acquire_commit_owned _ _ o rs Htyped Hchk Hg) as Hframe.
    rewrite Hcommit in Hown, Hframe. cbn [snd rq_owner rq_resource rq_type] in Hown, Hframe.
    assert (forall o rs, o ≠ so_handle s -> owned_lock_type o rs locks1 = owned_lock_type o rs locks) as Hother.
    { intros o rs Hne. rewrite Hframe, decide_False by tauto. done. }
    destruct (status <? VI_SUCCESS) eqn:Hneg.
    { (* a granted request succeeds *)
      unfold acquire_commit in Hcommit. repeat case_match; simplify_eq; done. }
    apply bind_Some in Hr as ([[[status2 b] op2] locks2] & Hx & Hr).
    assert (fails_only op2 /\ (VI_SUCCESS <= status2 -> locks2 = locks1) /\
      forall o rs, o ≠ so_handle s -> owned_lock_type o rs locks2 = owned_lock_type o rs locks) as (Hf2 & Heq & Ho2).
    { destruct (_ =? 0) in Hx; [|injection Hx as <- <- <- <-; by auto].
      destruct (lock_remote_owned _ _ _ _ _ _ _ Hf1 Hx) as (? & ? & Ho). split; [done|]. split; [done|].
      intros o rs Hne. rewrite Ho by (by rewrite Hh). by apply Hother. }
    pose proof (try_complete_cases status2 _ (interfere_fails 2%nat _ Hf2)) as Hfin.
    destruct (try_complete status2 _) as [[] op']; cbn [negb] in Hr.
    + injection Hr as <-. cbn [lr_locks lr_status]. split; [done|]. intros Hge rs. rewrite (Heq Hge), Hframe.
      repeat case_decide; naive_solver.
    + pose proof (release_other (so_handle s) (session_resource s) locks2) as Hrel.
      destruct (release _ _ locks2) as [[st locks3] nt]. injection Hr as <-.
      cbn [lr_locks lr_status fst snd] in *. split; [|lia]. intros o rs Hne. rewrite Hrel by done. by apply Ho2.
Qed.

End lock_frame.

(** ** Opening *)

Section opening.
Context {B H Provider GpibTransport UsbTransport UsbRawTransport : Type} `{BackendLaws B H}.
Context (outside : Outside B Provider GpibTransport UsbTransport UsbRawTransport).
Context (now : Z) (interfere : nat -> Operation H -> Operation H).
Hypothesis interfere_fails : forall i op, fails_only op -> fails_only (interfere i op).
Implicit Types w : World B H Provider.

Abbreviation live w h := (get_any h (w_handles w)).

(** What other threads may do while a backend connects: anything that leaves the
    world well-formed, the manager being found again or closed. *)
Definition elsewhere_ok w w1 : Prop :=
  world_ok w1 /\
  forall h id rm, handle_range h -> get_manager h w = Some (id, rm) ->
    exists rm', w_heap w1 !! id = Some (ObjManager rm') /\
      (rm_closed_ rm' = false -> exists r, live w1 h = Some r /\ ref_id r = id).

Lemma elsewhere_ok_refl w : world_ok w -> elsewhere_ok w w.
Proof.
  intros Hok. split; [done|]. intros h id rm Hh Hg.
  destruct (get_manager_live _ _ _ _ (ok_table _ _ _ Hok) Hg) as (r & Hl & _ & Hid & Hrm).
  exists rm. split; [done|]. intros _. by exists r.
Qed.

Lemma dead_owns_nothing w h rs : world_ok w -> live w h = None -> owned_lock_type h rs (w_locks w) = VI_NO_LOCK.
Proof.
  intros Hok Hd. destruct (decide (owned_lock_type h rs (w_locks w) = VI_NO_LOCK)) as [|Hne]; [done|].
  destruct (ok_locks _ _ _ Hok) as [_ HQ]. destruct (HQ _ _ Hne) as (_ & ref & s & Href & _).
  by rewrite Hd in Href.
Qed.

Lemma dead_no_child w h id rm :
  world_ok w -> live w h = None -> w_heap w !! id = Some (ObjManager rm) -> h ∉ children_ rm.
Proof.
  intros Hok Hd Hrm Hin. destruct (ok_children _ _ _ Hok _ _ _ Hrm Hin) as (_ & r & o & Hr & _).
  by rewrite Hd in Hr.
Qed.

Definition mode_lock (mode : Z) : Z := Z.land mode (Z.lor VI_EXCLUSIVE_LOCK VI_SHARED_LOCK).

(** A successful [viOpen]: the handle [h] for a new session on [backend], owning
    the lock the mode asks for; nothing else has changed. *)
Record session_opened (sesn : Z) (manager : nat) (rm : ResourceManager Provider)
    (parsed : ResourceDescriptor) (backend : B) (mode : Z) (h : Z) (s : SessionObject B H) w w' : Prop := {
  opened_session :
    exists b n, s = set_operations ∅ n false (set_backend b
      (set_handle h (new_session manager sesn parsed backend)));
  opened_registered : registered manager rm h (ObjSession s) w (with_locks (w_locks w) w');
  opened_locks : forall o rs, owned_lock_type o rs (w_locks w') =
    if decide (o = h) then
      if decide (rs = rd_canonical_name parsed) then mode_lock mode else VI_NO_LOCK
    else owned_lock_type o rs (w_locks w) }.

(** Opening a session and closing it again leaves no trace. *)
Lemma open_close_unchanged manager rm h s w w4 slots w5 :
  world_ok w -> world_ok w4 -> w_heap w !! manager = Some (ObjManager rm) -> rm_closed_ rm = false ->
  registered manager rm h (ObjSession s) w (with_locks (w_locks w) w4) ->
  (forall o rs, o ≠ h -> owned_lock_type o rs (w_locks w4) = owned_lock_type o rs (w_locks w)) ->
  HandleTable.remove h (w_handles w4) = (Some (mkRef (w_next w) session), slots) ->
  close_object close_depth (w_next w) (with_handles slots w4) = Some w5 ->
  unchanged w w5.
Proof.
  intros Hok Hok4 Hrm Hopen [[Hh Hnew] Htab Hlive Hheap Hnext _] Hown Hremove Hclose.
  cbn [with_locks w_handles w_heap w_next] in *.
  assert (live w4 h = Some (mkRef (w_next w) session)) as Hlh by (by rewrite Hlive, decide_True).
  destruct (close_handle_ok w4 h _ slots w5 Hok4 Hh Hlh Hremove Hclose) as [Hok5 Hcc].
  assert (closing_set w4 h = {[h]}) as Hset.
  { unfold closing_set. rewrite Hlh. cbn [mbind option_bind ref_id]. by rewrite Hheap, decide_True. }
  rewrite Hset in Hcc. split; [done|..].
  - intros h' Hh'. rewrite (ch_live _ _ _ Hcc), Hlive by done.
    destruct (decide (h' = h)) as [->|Hne].
    + by rewrite decide_True by set_solver.
    + by rewrite decide_False by set_solver.
  - intros id x Hx. pose proof (make_shared_fresh w _ _ Hok Hx) as Hid.
    rewrite (ch_heap _ _ _ Hcc).
    2:{ intros c r ->%elem_of_singleton _ Hr. rewrite Hlh in Hr. by injection Hr as <-. }
    rewrite Hheap, decide_False by done. case_decide as Hm.
    + subst id. rewrite Hrm in Hx. injection Hx as <-. cbn. f_equal. f_equal.
      pose proof (dead_no_child _ _ _ _ Hok Hnew Hrm) as Hn.
      replace ((({[h]} ∪ children_ rm) ∖ {[h]}) : gset Z) with (children_ rm) by set_solver.
      rewrite <- Hopen. by destruct rm.
    + rewrite Hx. cbn. f_equal. apply prune_disjoint. intros rm0 c -> ->%elem_of_singleton.
      exact (dead_no_child w h id rm0 Hok Hnew Hx).
  - intros o rs. rewrite (ch_locks _ _ _ Hcc). case_decide as Ho.
    + apply elem_of_singleton in Ho as ->. by rewrite (dead_owns_nothing w).
    + apply Hown. set_solver.
Qed.

Lemma quiet_lock_inv Q locks wakeups :
  lock_inv Q locks -> Forall (quiet locks) wakeups ->
  Forall (fun ev => lock_inv Q (ev_manager ev)) wakeups.
Proof. intros HQ Hq. eapply Forall_impl; [exact Hq|]. by intros ev [-> _]. Qed.

Lemma open_session_spec sesn manager parsed backend mode timeout wakeups w rm r :
  world_ok w -> handle_range sesn -> w_heap w !! manager = Some (ObjManager rm) ->
  (rm_closed_ rm = false -> exists ref, live w sesn = Some ref /\ ref_id ref = manager) ->
  Forall (quiet (w_locks w)) wakeups ->
  open_session now interfere sesn manager parsed backend mode timeout wakeups w = Some r ->
  world_ok (ar_world r) /\
  ((ar_status r < VI_SUCCESS /\ ar_out r = Some VI_NULL /\ unchanged w (ar_world r)) \/
   (VI_SUCCESS <= ar_status r /\ rm_closed_ rm = false /\
    exists h s, ar_out r = Some h /\
      session_opened sesn manager rm parsed backend mode h s w (ar_world r))).
Proof.
  intros Hok Hsesn Hrm Hparent Hq Hr. unfold open_session in Hr.
  set (s0 := new_session manager sesn parsed backend) in *.
  destruct (register_child_cases w (ObjSession s0) manager rm sesn Hok Hrm eq_refl) as (out & w2 & Hreg & Hout).
  { by intros s [= <-]. }
  rewrite (surjective_pairing (make_shared (ObjSession s0) w)) in Hr.
  change (make_shared (ObjSession s0) w).1 with (w_next w) in Hr.
  cbn [object_type] in Hreg. rewrite Hreg in Hr. cbn [mbind option_bind] in Hr. clear Hreg.
  destruct out as [[status h]|e].
  2:{ injection Hr as <-. cbn. split; [apply Hout|]. left. split; [by destruct e|done]. }
  destruct (rm_closed_ rm) eqn:Hcl.
  { destruct Hout as (-> & -> & Hun). injection Hr as <-. cbn. split; [apply Hun|]. by left. }
  destruct Hout as [-> Hreg]. cbn [Z.ltb] in Hr. change (VI_SUCCESS <? VI_SUCCESS) with false in Hr.
  cbn iota in Hr. set (s := set_handle h s0) in *.
  apply (registered_store _ _ _ _ (ObjSession s)) in Hreg; [|done].
  set (w3 := store (w_next w) (ObjSession s) w2) in *.
  assert (world_ok w3) as Hok3.
  { eapply registered_ok; [exact Hok|exact Hrm|done|exact Hsesn|by apply Hparent| |exact Hreg]. done. }
  destruct (rg_handle _ _ _ _ _ _ Hreg) as [Hh Hnew].
  pose proof (rg_locks _ _ _ _ _ _ Hreg) as Hlocks3.
  assert (live w3 h = Some (mkRef (w_next w) session)) as Hlh
    by (by rewrite (rg_live _ _ _ _ _ _ Hreg), decide_True).
  assert (w_heap w3 !! w_next w = Some (ObjSession s)) as Hs3
    by (by rewrite (rg_heap _ _ _ _ _ _ Hreg), decide_True).
  assert (get_session h w3 = Some (w_next w, s)) as Hget.
  { unfold get_session, get_object. rewrite get_live, Hlh by apply Hreg. cbn [mbind option_bind ref_type].
    rewrite decide_True by done. cbn [mbind option_bind ref_id]. by rewrite Hs3. }
  fold (mode_lock mode) in Hr.
  destruct (Z.eqb_spec (mode_lock mode) VI_NO_LOCK) as [Hnl|Hl]; cbn [negb] in Hr.
  { injection Hr as <-. cbn [ar_world ar_status ar_out]. split; [done|]. right. split; [done|].
    split; [done|]. exists h, s. split; [done|]. split.
    - by exists backend, 1.
    - by rewrite <- Hlocks3; destruct w3.
    - intros o rs. rewrite Hlocks3. case_decide as Ho; [|done]. subst o.
      rewrite (dead_owns_nothing w) by done. by case_decide. }
  apply bind_Some in Hr as (lr & Hlock & Hr).
  pose proof (session_lock_same _ _ _ _ _ _ _ _ _ Hlock) as Hsame.
  assert (Forall (quiet (w_locks w3)) wakeups) as Hq3 by (by rewrite Hlocks3).
  destruct (session_holder _ _ _ _ Hok3 Hh Hget) as [_ Hholder].
  assert (lock_inv (lock_holder w3) (lr_locks lr)) as Hinv.
  { eapply session_lock_inv; [exact Hlock|apply Hok3| |exact Hholder].
    eapply quiet_lock_inv; [apply Hok3|done]. }
  destruct (session_lock_owned now interfere interfere_fails _ _ _ _ _ _ _
    (proj1 (ok_locks _ _ _ Hok3)) Hq3 Hlock) as [Hother Hself].
  set (w4 := with_locks (lr_locks lr) (store (w_next w) (ObjSession (lr_session lr)) w3)) in *.
  assert (world_ok w4) as Hok4.
  { eapply update_session; [done|exact Hget|by apply same_session_shape|done]. }
  assert (registered manager rm h (ObjSession (lr_session lr)) w (with_locks (w_locks w) w4)) as Hreg4.
  { pose proof (registered_store _ _ _ _ (ObjSession (lr_session lr)) _ _ Hreg eq_refl) as Hr4.
    destruct Hr4 as [? ? ? ? ? ?]. by split. }
  assert (forall o rs, o ≠ h -> owned_lock_type o rs (lr_locks lr) = owned_lock_type o rs (w_locks w)) as Hoth.
  { intros o rs Hne. rewrite Hother by done. by rewrite Hlocks3. }
  destruct (Z.ltb_spec (lr_status lr) VI_SUCCESS) as [Hlt|Hge].
  - destruct (HandleTable.remove h (w_handles w4)) as [removed slots] eqn:Hremove.
    destruct (remove_live _ _ _ _ (ok_table _ _ _ Hok4) Hh Hremove) as (Hrem & _ & _).
    cbn [w4 with_locks store w_handles] in Hrem. rewrite Hlh in Hrem. subst removed.
    cbn [mbind option_bind ref_id] in Hr.
    apply bind_Some in Hr as (w5 & Hclose & Hr). injection Hr as <-. cbn.
    assert (unchanged w w5) as Hun
      by (by eapply (open_close_unchanged manager rm h (lr_session lr) w w4 slots)).
    split; [apply Hun|by left].
  - injection Hr as <-. cbn [ar_world ar_status ar_out]. split; [done|]. right. split; [done|].
    split; [done|]. exists h, (lr_session lr). split; [done|]. split; [|done|].
    + destruct Hsame as (b & n & ->). by exists b, n.
    + intros o rs. cbn [w4 with_locks w_locks]. case_decide as Ho; [subst o|by apply Hoth].
      change h with (so_handle s) at 1. rewrite Hself by done.
      change (session_resource s) with (rd_canonical_name parsed). case_decide; [done|].
      rewrite Hlocks3. by apply dead_owns_nothing.
Qed.

(** What [viOpen] relies on: a factory without a result reports an error.  The
    GPIB provider does not have to, [viOpen] sees to that itself. *)
Record factories_report : Prop := {
  tcp_reports host port timeout status :
    (TcpBackendSession_create outside host port timeout status).1 = None ->
    (TcpBackendSession_create outside host port timeout status).2 < VI_SUCCESS;
  hislip_reports host device timeout port status :
    (HiSlipBackendSession_create outside host device timeout port status).1 = None ->
    (HiSlipBackendSession_create outside host device timeout port status).2 < VI_SUCCESS;
  vxi11_reports host device timeout port status :
    (Vxi11BackendSession_create outside host device timeout port status).1 = None ->
    (Vxi11BackendSession_create outside host device timeout port status).2 < VI_SUCCESS;
  serial_reports path status :
    (SerialBackendSession_create outside path status).1 = None ->
    (SerialBackendSession_create outside path status).2 < VI_SUCCESS;
  gpib_reports d timeout status :
    (open_gpib_transport outside d timeout status).1 = None ->
    (open_gpib_transport outside d timeout status).2 < VI_SUCCESS;
  usb_reports d timeout status :
    (open_usb_transport outside d timeout status).1 = None ->
    (open_usb_transport outside d timeout status).2 < VI_SUCCESS;
  usb_raw_reports d configuration timeout status :
    (open_usb_raw_transport outside d configuration timeout status).1 = None ->
    (open_usb_raw_transport outside d configuration timeout status).2 < VI_SUCCESS }.

Lemma open_backend_reports rm parsed timeout :
  factories_report ->
  match open_backend outside rm parsed timeout with
  | inl status => status < VI_SUCCESS
  | inr (None, open_status) => open_status < VI_SUCCESS
  | inr (Some _, _) => True
  end.
Proof.
  intros Hf. unfold open_backend. destruct (rd_kind parsed); try done.
  - destruct (serial_path _ _) as [path|]; [|done].
    pose proof (serial_reports Hf path VI_SUCCESS) as Hr.
    destruct (SerialBackendSession_create _ _ _) as [[b|] st]; [done|by apply Hr].
  - destruct (gpib_provider _ _) as [provider|].
    + destruct (GpibProvider_open _ _ _ _ _) as [[tr|] st]; [done|]. cbn.
      by destruct (Z.leb_spec VI_SUCCESS st).
    + pose proof (gpib_reports Hf parsed timeout VI_SUCCESS) as Hr.
      destruct (open_gpib_transport _ _ _ _) as [[tr|] st]; [done|by apply Hr].
  - case_decide; [|case_decide; [|done]].
    + set (port := default _ _). pose proof (hislip_reports Hf (rd_host parsed) (rd_device_name parsed) timeout port VI_SUCCESS) as Hr.
      destruct (HiSlipBackendSession_create _ _ _ _ _ _) as [[b|] st]; [done|by apply Hr].
    + set (port := default _ _). pose proof (vxi11_reports Hf (rd_host parsed) (rd_device_name parsed) timeout port VI_SUCCESS) as Hr.
      destruct (Vxi11BackendSession_create _ _ _ _ _ _) as [[b|] st]; [done|by apply Hr].
  - pose proof (tcp_reports Hf (rd_host parsed) (rd_port parsed) timeout VI_SUCCESS) as Hr.
    destruct (TcpBackendSession_create _ _ _ _ _) as [[b|] st]; [done|by apply Hr].
  - pose proof (usb_reports Hf parsed timeout VI_SUCCESS) as Hr.
    destruct (open_usb_transport _ _ _ _) as [[tr|] st]; [done|by apply Hr].
  - destruct (usb_raw_configuration _ _) as [configuration|]; [|done].
    pose proof (usb_raw_reports Hf parsed configuration timeout VI_SUCCESS) as Hr.
    destruct (open_usb_raw_transport _ _ _ _ _) as [[tr|] st]; [done|by apply Hr].
Qed.

Lemma viOpen_cases elsewhere wakeups sesn name mode timeout vi w r :
  world_ok w -> handle_range sesn -> elsewhere_ok w (elsewhere w) ->
  Forall (quiet (w_locks (elsewhere w))) wakeups ->
  viOpen outside now interfere elsewhere wakeups sesn name mode timeout vi w = Some r ->
  world_ok (ar_world r) /\
  (((ar_status r < VI_SUCCESS \/ ~ factories_report) /\ (ar_out r = None \/ ar_out r = Some VI_NULL) /\
    (unchanged w (ar_world r) \/ unchanged (elsewhere w) (ar_world r))) \/
   (VI_SUCCESS <= ar_status r /\
    exists text manager rm resolved backend open_status rm1 h s,
      name = Some text /\ get_manager sesn w = Some (manager, rm) /\
      resolve_resource text rm = Some resolved /\
      open_backend outside rm (rr_descriptor resolved) timeout = inr (Some backend, open_status) /\
      ar_out r = Some h /\
      session_opened sesn manager rm1 (rr_descriptor resolved) backend mode h s (elsewhere w) (ar_world r))).
Proof.
  intros Hok Hsesn [Hok1 Helse] Hq Hr. unfold viOpen in Hr.
  pose proof (unchanged_refl w Hok) as Hun.
  destruct name as [text|]; [|injection Hr as <-; cbn; split; [done|]; left; split; [by left|by auto]].
  destruct vi; cbn [negb] in Hr; [|injection Hr as <-; cbn; split; [done|]; left; split; [by left|by auto]].
  destruct (valid_open_mode mode); cbn [negb] in Hr; [|injection Hr as <-; cbn; split; [done|]; left; split; [by left|by auto]].
  destruct (get_manager sesn w) as [[manager rm]|] eqn:Hg;
    [|injection Hr as <-; cbn; split; [done|]; left; split; [by left|by auto]].
  destruct (resolve_resource text rm) as [resolved|] eqn:Hres;
    [|injection Hr as <-; cbn; split; [done|]; left; split; [by left|by auto]].
  pose proof (open_backend_reports rm (rr_descriptor resolved) timeout) as Hrep.
  destruct (open_backend outside rm (rr_descriptor resolved) timeout)
    as [status|[[backend|] open_status]] eqn:Hback.
  - injection Hr as <-. cbn. split; [done|]. left. split; [|by auto].
    destruct (Z.ltb_spec status VI_SUCCESS) as [|Hge]; [by left|right]. intros Hf.
    specialize (Hrep Hf). lia.
  - destruct (Helse _ _ _ Hsesn Hg) as (rm1 & Hrm1 & Hparent).
    destruct (open_session_spec sesn manager (rr_descriptor resolved) backend mode timeout wakeups
      (elsewhere w) rm1 r Hok1 Hsesn Hrm1 Hparent Hq Hr) as [Hok' [(Hst & Ho & Hu)|(Hst & _ & h & s & Ho & Hs)]].
    + split; [done|]. left. split; [by left|]. split; by right.
    + split; [done|]. right. split; [done|].
      by exists text, manager, rm, resolved, backend, open_status, rm1, h, s.
  - injection Hr as <-. cbn. split; [done|]. left. split.
    + destruct (Z.ltb_spec open_status VI_SUCCESS) as [|Hge]; [by left|right]. intros Hf.
      specialize (Hrep Hf). lia.
    + split; [by right|]. right. by apply unchanged_refl.
Qed.

(** C13: opening a resource, with backends that obey their laws and factories
    that report their failures: the world stays well-formed; a call that fails
    returns no handle and leaves no trace (the handles, objects and lock owners
    are those before the call, or those other threads made while it connected,
    even if they closed the manager); a call that succeeds returns a handle that
    was not live, for a new session with default settings that is a child of the
    manager and owns exactly the lock the mode asked for. *)
Theorem viOpen_contract elsewhere wakeups sesn name mode timeout vi w r :
  factories_report -> world_ok w -> handle_range sesn -> elsewhere_ok w (elsewhere w) ->
  Forall (quiet (w_locks (elsewhere w))) wakeups ->
  viOpen outside now interfere elsewhere wakeups sesn name mode timeout vi w = Some r ->
  world_ok (ar_world r) /\
  (ar_status r < VI_SUCCESS ->
     (ar_out r = None \/ ar_out r = Some VI_NULL) /\
     (unchanged w (ar_world r) \/ unchanged (elsewhere w) (ar_world r))) /\
  (VI_SUCCESS <= ar_status r ->
     exists text manager rm resolved backend open_status rm1 h s,
       name = Some text /\ get_manager sesn w = Some (manager, rm) /\
       resolve_resource text rm = Some resolved /\
       open_backend outside rm (rr_descriptor resolved) timeout = inr (Some backend, open_status) /\
       ar_out r = Some h /\
       session_opened sesn manager rm1 (rr_descriptor resolved) backend mode h s
         (elsewhere w) (ar_world r)).
Proof.
  intros Hf Hok Hsesn Helse Hq Hr.
  destruct (viOpen_cases _ _ _ _ _ _ _ _ _ Hok Hsesn Helse Hq Hr)
    as [Hok' [([Hst|Hn] & Hout & Hun)|(Hst & Hex)]]; [|done|].
  - split; [done|]. split; [done|]. intros; lia.
  - split; [done|]. split; [intros; lia|done].
Qed.

End opening.

(** ** Closing, refusing, finding *)

Section contracts.
Context {B H Provider GpibTransport UsbTransport UsbRawTransport : Type} `{BackendLaws B H}.
Context (outside : Outside B Provider GpibTransport UsbTransport UsbRawTransport).
Context (now : Z) (interfere : nat -> Operation H -> Operation H).
Implicit Types w : World B H Provider.

Abbreviation live w h := (get_any h (w_handles w)).

Lemma remove_dead w h :
  live w h = None -> HandleTable.remove h (w_handles w) = (None, w_handles w).
Proof.
  intros Hd. by destruct (remove_cases h (w_handles w))
    as [[_ ?]|(? & ? & ? & ? & ? & ? & ? & ? & ? & _)]; [|congruence].
Qed.

(** C12: closing a handle: a dead handle is refused and nothing happens; closing
    a session or find list closes it, closing a manager closes it with all its
    children: their handles are dead, they own no lock any more, and every other
    handle, object and lock is untouched.  The call ends when the sessions it
    closes have no operation running. *)
Theorem viClose_contract vi w :
  world_ok w -> handle_range vi ->
  (live w vi = None -> viClose vi w = Some (mkApi VI_ERROR_INV_OBJECT tt w)) /\
  (forall r, live w vi = Some r ->
     (forall x, viClose vi w = Some x ->
        ar_status x = VI_SUCCESS /\ world_ok (ar_world x) /\
        closed_handles (closing_set w vi) w (ar_world x)) /\
     ((forall c rc s, c ∈ closing_set w vi -> live w c = Some rc ->
         w_heap w !! ref_id rc = Some (ObjSession s) -> so_operations s = ∅) ->
      is_Some (viClose vi w))).
Proof.
  intros Hok Hvi. unfold viClose. split.
  - intros Hd. rewrite remove_dead by done. by destruct w.
  - intros r Hl. destruct (HandleTable.remove vi (w_handles w)) as [object slots] eqn:Hrm.
    destruct (remove_live _ _ _ _ (ok_table _ _ _ Hok) Hvi Hrm) as (Hobj & _ & _).
    rewrite Hl in Hobj. subst object. split.
    + intros x Hx. apply bind_Some in Hx as (w' & Hcl & Hx). injection Hx as <-. cbn.
      split; [done|]. by eapply close_handle_ok.
    + intros Hidle. destruct (close_handle_returns w vi r slots Hok Hvi Hl Hrm Hidle) as [w' ->].
      by eexists.
Qed.

(** The handle a call is given and the types of object it accepts. *)
Definition call_target (c : api_call (B := B) (H := H) (Provider := Provider))
  : option (Z * list ObjectType) :=
  match c with
  | CallOpenDefaultRM _ => None
  | CallFindRsrc h _ _ _ _ | CallParseRsrc h _ _ _ | CallParseRsrcEx h _ _ _ _ _ _
  | CallOpen _ _ h _ _ _ _ | CallSetSerialPath h _ _ | CallSetTcpipServicePort h _ _ _
  | CallSetResourceAlias h _ _ | CallSetUsbRawConfig h _ _ | CallSetPrologixController h _ _ _ =>
      Some (h, [resource_manager])
  | CallFindNext h _ => Some (h, [find_list])
  | CallClose h | CallStatusDesc h _ _ => Some (h, [resource_manager; find_list; session])
  | CallGetAttribute h _ _ => Some (h, [session; resource_manager])
  | CallSetAttribute h _ _ | CallTerminate h _ _ | CallLock _ h _ _ _ _ | CallUnlock h
  | CallRead h _ _ _ | CallWrite h _ _ _ | CallAssertTrigger h _ | CallReadSTB h _
  | CallClear h | CallFlush h _ | CallSetBuf h _ _ | CallUsbControlTransfer h _ _ _ _ =>
      Some (h, [session])
  end.

(** What a call given a useless handle may report: that, or the parameter it
    had looked at before. *)
Definition refusals : list Z :=
  [VI_ERROR_INV_OBJECT; VI_ERROR_INV_PARAMETER; VI_ERROR_INV_ACC_MODE; VI_ERROR_INV_DEGREE;
   VI_ERROR_INV_JOB_ID; VI_ERROR_INV_PROT; VI_ERROR_INV_SIZE; VI_ERROR_NSUP_OPER].

Definition refused w (out : option (Z * World B H Provider)) : Prop :=
  exists status, out = Some (status, w) /\ existsb (Z.eqb status) refusals = true.

Lemma get_manager_none h w :
  table_ok (w_handles w) -> (forall r, live w h = Some r -> ref_type r ≠ resource_manager) ->
  get_manager h w = None.
Proof. intros Hok Hn. unfold get_manager. by rewrite get_object_none. Qed.

Lemma get_find_list_none h w :
  table_ok (w_handles w) -> (forall r, live w h = Some r -> ref_type r ≠ find_list) ->
  get_find_list h w = None.
Proof. intros Hok Hn. unfold get_find_list. by rewrite get_object_none. Qed.

Lemma get_session_none h w :
  table_ok (w_handles w) -> (forall r, live w h = Some r -> ref_type r ≠ session) ->
  get_session h w = None.
Proof. intros Hok Hn. unfold get_session. by rewrite get_object_none. Qed.

Lemma validate_usb_refusal size a b c :
  existsb (Z.eqb (validate_usb_structure size a b c)) (VI_SUCCESS :: refusals) = true.
Proof. unfold validate_usb_structure. by repeat case_match. Qed.

Lemma validate_prologix_refusal config :
  existsb (Z.eqb (validate_prologix_structure config)) (VI_SUCCESS :: refusals) = true.
Proof. unfold validate_prologix_structure. by repeat case_match. Qed.

Lemma negative_refusal status :
  existsb (Z.eqb status) (VI_SUCCESS :: refusals) = true -> (status <? VI_SUCCESS) = true ->
  existsb (Z.eqb status) refusals = true.
Proof.
  cbn [existsb]. destruct (Z.eqb_spec status VI_SUCCESS) as [->|]; [done|]. by cbn [orb].
Qed.

Lemma check_usb_raw_refusal config status :
  check_usb_raw_config config = inl status -> existsb (Z.eqb status) refusals = true.
Proof.
  unfold check_usb_raw_config. set (st := validate_usb_structure _ _ _ _).
  destruct (st <? VI_SUCCESS) eqn:Hneg.
  - intros [= <-]. apply negative_refusal; [apply validate_usb_refusal|done].
  - repeat case_match; intros; simplify_eq; done.
Qed.

Lemma check_prologix_refusal endpoint config status :
  check_prologix_config endpoint config = inl status -> existsb (Z.eqb status) refusals = true.
Proof.
  unfold check_prologix_config. destruct (validate_prologix_structure config <? VI_SUCCESS) eqn:Hneg.
  - intros [= <-]. apply negative_refusal; [apply validate_prologix_refusal|done].
  - repeat case_match; intros; simplify_eq; done.
Qed.

(** A handle that is closed, was never issued, or stands for an object of
    another type is refused by every entry point: the call returns at once with
    [VI_ERROR_INV_OBJECT], or with an error about a parameter it checks first,
    and changes nothing at all. *)
Theorem invalid_handle_refused c h types w :
  world_ok w -> call_target c = Some (h, types) ->
  (forall r, live w h = Some r -> ref_type r ∉ types) ->
  refused w (api_step outside now interfere c w).
Proof.
  intros Hok Htarget Hn. pose proof (ok_table _ _ _ Hok) as Htab.
  assert (resource_manager ∈ types -> get_manager h w = None) as Hrm.
  { intros Hin. apply get_manager_none; [done|]. intros r Hr Hty. apply (Hn r Hr). by rewrite Hty. }
  assert (find_list ∈ types -> get_find_list h w = None) as Hfl.
  { intros Hin. apply get_find_list_none; [done|]. intros r Hr Hty. apply (Hn r Hr). by rewrite Hty. }
  assert (session ∈ types -> get_session h w = None) as Hse.
  { intros Hin. apply get_session_none; [done|]. intros r Hr Hty. apply (Hn r Hr). by rewrite Hty. }
  assert (types = [resource_manager; find_list; session] -> live w h = None) as Hall.
  { intros ->. destruct (live w h) as [r|] eqn:Hr; [|done]. destruct (Hn r eq_refl).
    destruct (ref_type r); set_solver. }
  destruct c; cbn in Htarget; simplify_eq; cbn [api_step];
    try (pose proof (Hrm ltac:(by repeat constructor)) as Hm; clear Hrm);
    try (pose proof (Hfl ltac:(by repeat constructor)) as Hf; clear Hfl);
    try (pose proof (Hse ltac:(by repeat constructor)) as Hs; clear Hse);
    try (pose proof (Hall eq_refl) as Hd; clear Hall); unfold refused.
  all: unfold viFindRsrc, viFindNext, viParseRsrc, viParseRsrcEx, viOpen, viSetAttribute,
    viGetAttribute, viStatusDesc, viTerminate, viLock, viUnlock, viRead, viWrite, viAssertTrigger,
    viReadSTB, viClear, viFlush, viSetBuf, wrvisaSetSerialPath, wrvisaSetTcpipServicePort,
    wrvisaSetResourceAlias, wrvisaSetUsbRawConfig, wrvisaSetPrologixController,
    wrvisaUsbControlTransfer, session_call.
  all: try rewrite Hm; try rewrite Hf; try rewrite Hs; try rewrite Hd.
  all: try (repeat case_match; first [done|by eexists]).
  - unfold viClose. rewrite remove_dead by done. destruct w. by eexists.
  - destruct (missing resourceName), config as [config|]; try by eexists.
    destruct (check_usb_raw_config config) eqn:Hc; [|by eexists].
    eexists. split; [done|]. by eapply check_usb_raw_refusal.
  - destruct (missing endpoint), config as [config|]; try by eexists.
    destruct (check_prologix_config (default [] endpoint) config) eqn:Hc; [|by eexists].
    eexists. split; [done|]. by eapply check_prologix_refusal.
  - destruct request as [request|]; [|by eexists].
    set (structure_status := validate_usb_structure _ _ _ _).
    destruct (structure_status <? VI_SUCCESS) eqn:Hneg; [|repeat case_match; first [done|by eexists]].
    repeat case_match; first [done|eexists; split; [done|]; try done].
    all: by apply negative_refusal; [apply validate_usb_refusal|].
Qed.

(** *** Finding *)

(** The resources a compiled expression finds. *)
Definition finds (x : FindExpression) (d : ResourceDescriptor) : Prop :=
  denotes (fe_root x) (rd_canonical_name d) /\ passes x d.

Lemma find_matches_spec x resources :
  exists found, find_matches x resources = Some found /\ found `sublist_of` resources /\
    forall name, name ∈ found <->
      name ∈ resources /\ exists d, parse_resource name = Some d /\ finds x d.
Proof.
  induction resources as [|name rest (found & Hf & Hsub & IH)]; cbn [find_matches].
  { exists []. split; [done|]. split; [constructor|]. intros name. set_solver. }
  assert (exists b, match parse_resource name with
    | Some parsed => matches x parsed | None => Some false end = Some b /\
    (b = true <-> exists d, parse_resource name = Some d /\ finds x d)) as (b & -> & Hb).
  { destruct (parse_resource name) as [d|].
    - destruct (matches_spec x d) as (b & Hm & Hspec). exists b. split; [done|]. rewrite Hspec.
      split; [intros Hd; by exists d|]. by intros (d' & [= <-] & Hd).
    - exists false. split; [done|]. split; [done|]. by intros (d & ? & _). }
  cbn [mbind option_bind]. rewrite Hf. cbn [mbind option_bind].
  eexists. split; [done|]. destruct b.
  - split; [by constructor|]. intros n. rewrite !elem_of_cons, IH. naive_solver.
  - split; [by constructor|]. intros n. rewrite elem_of_cons, IH. split; [naive_solver|].
    intros [[->|Hin] Hd]; [|by split]. by apply Hb in Hd.
Qed.

Lemma mock_parses : exists d, parse_resource WRVISA_MOCK_RESOURCE = Some d.
Proof. eexists. vm_compute. reflexivity. Qed.

Lemma mock_matches_spec x expr :
  exists found, mock_matches x expr = Some found /\
    forall name, name ∈ found <->
      name = WRVISA_MOCK_RESOURCE /\ mock_discovery_opted_in expr = true /\
      exists d, parse_resource name = Some d /\ finds x d.
Proof.
  unfold mock_matches. destruct mock_parses as [mock Hm]. rewrite Hm.
  destruct (mock_discovery_opted_in expr).
  2:{ exists []. split; [done|]. intros name. rewrite elem_of_nil. naive_solver. }
  destruct (matches_spec x mock) as (b & -> & Hb). cbn [mbind option_bind].
  eexists. split; [done|]. intros name. destruct b.
  - rewrite list_elem_of_singleton. split; [|naive_solver]. intros ->. split; [done|]. split; [done|].
    exists mock. split; [done|]. by apply Hb.
  - rewrite elem_of_nil. split; [done|]. intros (-> & _ & d & Hd & Hf). rewrite Hm in Hd.
    injection Hd as <-. by apply Hb in Hf.
Qed.

Lemma manager_open w h id rm :
  world_ok w -> handle_range h -> get_manager h w = Some (id, rm) ->
  rm_closed_ rm = false /\ w_heap w !! id = Some (ObjManager rm) /\
  exists r, live w h = Some r /\ ref_id r = id.
Proof.
  intros Hok Hh Hg.
  destruct (get_manager_live _ _ _ _ (ok_table _ _ _ Hok) Hg) as (r & Hl & Hty & Hid & Hrm).
  split; [|split; [done|by exists r]].
  destruct (ok_object _ _ _ Hok h r Hh Hl) as (o & Ho & _ & Hpl). rewrite Hid, Hrm in Ho.
  by injection Ho as <-.
Qed.

Lemma get_find_list_registered w h id fl :
  table_ok (w_handles w) -> live w h = Some (mkRef id find_list) ->
  w_heap w !! id = Some (ObjFindList fl) -> get_find_list h w = Some (id, fl).
Proof.
  intros Hok Hl Ho. unfold get_find_list, get_object. rewrite get_live, Hl by done.
  cbn [mbind option_bind ref_type]. rewrite decide_True by done. cbn [mbind option_bind ref_id].
  by rewrite Ho.
Qed.

(** What [viFindRsrc] does once the names are found. *)
Lemma find_registered w sesn manager rm found :
  world_ok w -> handle_range sesn -> get_manager sesn w = Some (manager, rm) ->
  exists out w2,
    register_child manager (w_next w) find_list
      (make_shared (ObjFindList (new_find_list manager sesn found)) w).2 = Some (out, w2) /\
    match out with
    | Throw _ => unchanged w w2
    | Ok (status, h) =>
        status = VI_SUCCESS /\
        let w3 := store (w_next w) (ObjFindList (mkFindList manager sesn h found 1 false)) w2 in
        world_ok w3 /\
        registered manager rm h (ObjFindList (mkFindList manager sesn h found 1 false)) w w3
    end.
Proof.
  intros Hok Hsesn Hg. destruct (manager_open _ _ _ _ Hok Hsesn Hg) as (Hopen & Hrm & Hparent).
  destruct (register_child_cases w (ObjFindList (new_find_list manager sesn found)) manager rm sesn
    Hok Hrm eq_refl ltac:(done)) as (out & w2 & Hreg & Hout).
  exists out, w2. split; [done|]. destruct out as [[status h]|e]; [|done].
  rewrite Hopen in Hout. destruct Hout as [-> Hr]. split; [done|].
  apply (registered_store _ _ _ _ (ObjFindList (mkFindList manager sesn h found 1 false))) in Hr; [|done].
  split; [|done].
  refine (registered_ok manager rm h sesn (ObjFindList (mkFindList manager sesn h found 1 false)) w _ Hok Hrm Hopen Hsesn Hparent _ Hr). done.
Qed.

(** [viFindNext] called until it reports that nothing is left. *)
Fixpoint find_next_all (fuel : nat) (vi : Z) w : option (list str * Z) :=
  match fuel with
  | O => None
  | S fuel =>
      r ← viFindNext vi true w;
      match ar_out r with
      | None => Some ([], ar_status r)
      | Some name => '(names, status) ← find_next_all fuel vi (ar_world r); Some (name :: names, status)
      end
  end.

Lemma find_next_all_spec vi id fuel : forall w parent ph h found index,
  table_ok (w_handles w) -> live w vi = Some (mkRef id find_list) ->
  w_heap w !! id = Some (ObjFindList (mkFindList parent ph h found index false)) ->
  (length found - index < fuel)%nat ->
  find_next_all fuel vi w = Some (copy_output <$> drop index found, VI_ERROR_RSRC_NFOUND).
Proof.
  induction fuel as [|fuel IH]; intros w parent ph h found index Htab Hl Ho Hfuel; [lia|].
  cbn [find_next_all]. unfold viFindNext. cbn [negb].
  rewrite (get_find_list_registered _ _ _ _ Htab Hl Ho).
  unfold find_list_next. cbn [fl_closed fl_matches fl_index fl_parent fl_parent_handle fl_handle orb].
  destruct (Nat.leb_spec (length found) index) as [Hle|Hlt].
  - cbn. by rewrite drop_ge.
  - destruct (lookup_lt_is_Some_2 found index Hlt) as [name Hname]. rewrite Hname.
    cbn [mbind option_bind ar_out ar_world].
    rewrite (IH _ parent ph h found (S index)); [|done|done| |lia].
    + cbn. by rewrite (drop_S _ _ _ Hname).
    + cbn. by rewrite lookup_insert_eq.
Qed.

(** C14: finding resources: [viFindRsrc] on a live manager always returns; what
    it finds, once each and in order, are exactly the discoverable resources
    whose name is in the language of the expression and which pass its filter,
    and the mock resource when the expression asks for it.  It reports their
    number and the first; the handle it returns then gives the others, one per
    [viFindNext], and [VI_ERROR_RSRC_NFOUND] after the last.  Only a full handle
    table makes it fail, without a trace. *)
Theorem viFindRsrc_contract sesn expr vi retCnt w manager rm x error :
  world_ok w -> handle_range sesn -> get_manager sesn w = Some (manager, rm) ->
  compile expr = Some (Some x, error) ->
  exists r discovered mock,
    viFindRsrc sesn (Some expr) vi retCnt true w = Some r /\
    let found := discovered ++ mock in
    discovered `sublist_of` discoverable_resources rm /\
    (forall name, name ∈ discovered <-> name ∈ discoverable_resources rm /\
       exists d, parse_resource name = Some d /\ finds x d) /\
    (forall name, name ∈ mock <-> name = WRVISA_MOCK_RESOURCE /\
       mock_discovery_opted_in expr = true /\ exists d, parse_resource name = Some d /\ finds x d) /\
    match found with
    | [] => ar_status r = VI_ERROR_RSRC_NFOUND /\ ar_world r = w
    | front :: rest =>
        fo_count (ar_out r) = stored retCnt (u32 (Z.of_nat (length found))) /\
        ((ar_status r < VI_SUCCESS /\ fo_vi (ar_out r) = Some VI_NULL /\ unchanged w (ar_world r)) \/
         (ar_status r = VI_SUCCESS /\ fo_desc (ar_out r) = Some (copy_output front) /\
          world_ok (ar_world r) /\
          if vi then
            exists h, fo_vi (ar_out r) = Some h /\ handle_range h /\ live w h = None /\
              find_next_all (S (length found)) h (ar_world r) =
                Some (copy_output <$> rest, VI_ERROR_RSRC_NFOUND)
          else ar_world r = w))
    end.
Proof.
  intros Hok Hsesn Hg Hc. unfold viFindRsrc. cbn [negb]. rewrite Hg, Hc. cbn [mbind option_bind].
  destruct (find_matches_spec x (discoverable_resources rm)) as (discovered & -> & Hsub & Hdisc).
  destruct (mock_matches_spec x expr) as (mock & -> & Hmock). cbn [mbind option_bind].
  destruct (discovered ++ mock) as [|front rest] eqn:Hfound.
  { eexists _, discovered, mock. split; [done|]. rewrite Hfound. by split. }
  destruct vi.
  2:{ eexists _, discovered, mock. split; [done|]. rewrite Hfound. do 3 (split; [done|]).
      split; [done|]. right. cbn [ar_status ar_out ar_world fo_desc]. by auto. }
  destruct (find_registered w sesn manager rm (front :: rest) Hok Hsesn Hg) as (out & w2 & Hreg & Hout).
  rewrite (surjective_pairing (make_shared _ w)).
  change (make_shared (ObjFindList (new_find_list manager sesn (front :: rest))) w).1 with (w_next w).
  rewrite Hreg. cbn [mbind option_bind].
  destruct out as [[status h]|e].
  - destruct Hout as (-> & Hok3 & Hr3). change (VI_SUCCESS <? VI_SUCCESS) with false. cbn iota.
    eexists _, discovered, mock. split; [done|]. rewrite Hfound. do 3 (split; [done|]).
    split; [done|]. right. cbn [ar_status ar_out ar_world fo_desc fo_vi]. split; [done|].
    split; [done|]. split; [done|]. exists h. split; [done|].
    destruct (rg_handle _ _ _ _ _ _ Hr3) as [Hh Hnew]. split; [done|]. split; [done|].
    rewrite (find_next_all_spec h (w_next w) _ _ manager sesn h (front :: rest) 1%nat); [done|apply Hok3| | |cbn; lia].
    + by rewrite (rg_live _ _ _ _ _ _ Hr3), decide_True.
    + cbn. by rewrite lookup_insert_eq.
  - eexists _, discovered, mock. split; [done|]. rewrite Hfound. do 3 (split; [done|]).
    split; [done|]. left. cbn. split; [by destruct e|done].
Qed.

(** *** The invariant *)

(** Arguments a caller can pass: 32-bit handles; what other threads do during a
    call leaves the world well-formed and locks owned by live sessions. *)
Definition call_ok w (c : api_call (B := B) (H := H) (Provider := Provider)) : Prop :=
  (forall h types, call_target c = Some (h, types) -> handle_range h) /\
  match c with
  | CallOpen elsewhere wakeups _ _ _ _ _ =>
      elsewhere_ok w (elsewhere w) /\ Forall (quiet (w_locks (elsewhere w))) wakeups
  | CallLock wakeups _ _ _ _ _ =>
      Forall (fun ev => lock_inv (lock_holder w) (ev_manager ev)) wakeups
  | _ => True
  end.

Hypothesis interfere_fails : forall i op, fails_only op -> fails_only (interfere i op).

Lemma outcome_Some {O} (r : option (api_result O B H Provider)) status w' :
  outcome r = Some (status, w') -> exists x, r = Some x /\ ar_world x = w'.
Proof. unfold outcome. intros Hr. apply fmap_Some in Hr as (x & -> & [= _ ->]). by exists x. Qed.

Lemma open_default_ok vi w r :
  world_ok w -> viOpenDefaultRM outside vi w = Some r -> world_ok (ar_world r).
Proof.
  intros Hok Hr. unfold viOpenDefaultRM in Hr. destruct vi; cbn [negb] in Hr; [|by injection Hr as <-].
  set (rm := new_resource_manager _ _ _) in *.
  pose proof (make_shared_ok w (ObjManager rm) Hok ltac:(by intros rm' [= <-])) as Hok1.
  rewrite (surjective_pairing (make_shared (ObjManager rm) w)) in Hr.
  change (make_shared (ObjManager rm) w).1 with (w_next w) in Hr.
  destruct (HandleTable.insert _ _ _ _) as [[h slots]|e] eqn:Hins; [|by injection Hr as <-].
  injection Hr as <-. cbn [ar_world].
  assert (w_heap w !! w_next w = None) as Hfresh.
  { destruct (w_heap w !! w_next w) eqn:Ho; [|done]. by apply (make_shared_fresh _ _ _ Hok) in Ho. }
  change (w_handles (make_shared (ObjManager rm) w).2) with (w_handles w) in Hins.
  destruct (insert_live (w_handles w) (mkRef (w_next w) resource_manager) h slots (ok_table _ _ _ Hok) Hins)
    as (Hh & Hnew & Htab & Hlive).
  assert (forall h' r, handle_range h' -> live w h' = Some r -> ref_id r ≠ w_next w /\ h' ≠ h) as Hold.
  { intros h' r Hh' Hr. split; [|by intros ->; rewrite Hnew in Hr].
    destruct (ok_object _ _ _ Hok h' r Hh' Hr) as (o & Ho & _). by apply not_eq_sym, (make_shared_fresh _ _ o Hok). }
  assert (forall p ph h', child_of (make_shared (ObjManager rm) w).2 p ph h' ->
    child_of (with_handles slots (make_shared (ObjManager rm) w).2) p ph h') as Hchild.
  { intros p ph h' (Hph & (r & Hr & Hid) & Hrm). split; [done|]. split; [|done]. exists r.
    cbn in *. rewrite Hlive, decide_False by (try done; by eapply Hold). done. }
  destruct Hok1 as [H1' H2' H3' H4' H5' H6' H7' H8'].
  split; cbn [with_handles make_shared snd w_handles w_heap w_next w_locks] in *; try done.
  - intros h' r Hh'. rewrite Hlive by done. case_decide as Hd.
    + intros [= <-]. exists (ObjManager rm). cbn [ref_id]. by rewrite lookup_insert_eq.
    + intros Hr. destruct (H2' h' r Hh' Hr) as (o & Ho & Hty & Hpl). exists o. split; [done|].
      split; [done|]. eapply placed_impl; [exact Hpl|]. intros par ph _ [?|[? ?]]; [by left|right].
      split; [done|by apply Hchild].
  - intros h1 h2 r1 r2 Hh1 Hh2. rewrite !Hlive by done. do 2 case_decide; subst; try done.
    + intros [= <-] Hr Hid. by destruct (Hold _ _ Hh2 Hr).
    + intros Hr [= <-] Hid. by destruct (Hold _ _ Hh1 Hr).
    + by apply H3'.
  - intros id rm0 c Hrm0 Hc. destruct (H6' id rm0 c Hrm0 Hc) as (Hr & r & o & Hl & Ho). split; [done|].
    exists r, o. rewrite Hlive, decide_False by (try done; by eapply Hold). done.
  - eapply lock_inv_mono; [|exact H8']. intros o rs (Hr & ref & s & Href & Hs). split; [done|].
    exists ref, s. cbn in *. rewrite Hlive, decide_False by (try done; by eapply Hold). done.
Qed.

Lemma find_rsrc_ok sesn expr vi retCnt desc w r :
  world_ok w -> handle_range sesn -> viFindRsrc sesn expr vi retCnt desc w = Some r ->
  world_ok (ar_world r).
Proof.
  intros Hok Hsesn Hr. unfold viFindRsrc in Hr. destruct expr as [expr|]; [|by injection Hr as <-].
  destruct desc; cbn [negb] in Hr; [|by injection Hr as <-].
  destruct (get_manager sesn w) as [[manager rm]|] eqn:Hg; [|by injection Hr as <-].
  apply bind_Some in Hr as ([[x|] error] & _ & Hr); [|by injection Hr as <-].
  apply bind_Some in Hr as (discovered & _ & Hr). apply bind_Some in Hr as (mock & _ & Hr).
  destruct (discovered ++ mock) as [|front rest]; [by injection Hr as <-|].
  destruct vi; [|by injection Hr as <-].
  destruct (find_registered w sesn manager rm (front :: rest) Hok Hsesn Hg) as (out & w2 & Hreg & Hout).
  rewrite (surjective_pairing (make_shared _ w)) in Hr.
  change (make_shared (ObjFindList (new_find_list manager sesn (front :: rest))) w).1 with (w_next w) in Hr.
  rewrite Hreg in Hr. cbn [mbind option_bind] in Hr. destruct out as [[status h]|e].
  - destruct Hout as (-> & Hok3 & _). change (VI_SUCCESS <? VI_SUCCESS) with false in Hr.
    by injection Hr as <-.
  - injection Hr as <-. apply Hout.
Qed.

Lemma find_next_ok vi desc w r :
  world_ok w -> viFindNext vi desc w = Some r -> world_ok (ar_world r).
Proof.
  intros Hok Hr. unfold viFindNext in Hr. destruct desc; cbn [negb] in Hr; [|by injection Hr as <-].
  destruct (get_find_list vi w) as [[id fl]|] eqn:Hg; [|by injection Hr as <-].
  destruct (get_find_list_live _ _ _ _ (ok_table _ _ _ Hok) Hg) as (ref & _ & _ & _ & Hfl).
  assert (same_shape (B := B) (H := H) (Provider := Provider) (ObjFindList fl) (ObjFindList (find_list_next fl).2)) as Hs.
  { unfold find_list_next. destruct (_ || _); by split. }
  pose proof (store_ok w id _ _ Hok Hfl Hs) as Hok'.
  destruct (find_list_next fl) as [[name|] fl']; by injection Hr as <-.
Qed.

Lemma set_manager_ok {O} w h id rm rm' (out : O) (st : Z) r :
  world_ok w -> get_manager h w = Some (id, rm) ->
  children_ rm' = children_ rm -> rm_closed_ rm' = rm_closed_ rm ->
  Some (mkApi st out (store id (ObjManager rm') w)) = Some r ->
  world_ok (ar_world r).
Proof. intros Hok Hg Hc Hcl [= <-]. by eapply update_manager. Qed.

Lemma extension_ok c w status w' :
  world_ok w ->
  match c with
  | CallSetSerialPath _ _ _ | CallSetTcpipServicePort _ _ _ _ | CallSetResourceAlias _ _ _
  | CallSetUsbRawConfig _ _ _ | CallSetPrologixController _ _ _ _ => True
  | _ => False
  end ->
  api_step outside now interfere c w = Some (status, w') -> world_ok w'.
Proof.
  intros Hok Hc Hstep. destruct c; try done; cbn [api_step] in Hstep;
    apply outcome_Some in Hstep as (r & Hr & <-).
  - unfold wrvisaSetSerialPath in Hr. repeat case_match; try by injection Hr as <-.
    all: eapply set_manager_ok; [done|done| | |exact Hr];
      unfold set_serial_path in *; repeat case_match; by simplify_eq.
  - unfold wrvisaSetTcpipServicePort in Hr. destruct (_ || _); [by injection Hr as <-|].
    set (selected := if protocol =? _ then _ else _) in *.
    destruct selected as [p|]; [|by injection Hr as <-].
    destruct (get_manager rmSesn w) as [[id rm]|] eqn:Hg; [|by injection Hr as <-].
    destruct (set_tcpip_service_port _ _ _ _) as [set rm'] eqn:Hset.
    eapply set_manager_ok; [done|done| | |exact Hr];
      unfold set_tcpip_service_port in Hset; repeat case_match; by simplify_eq.
  - unfold wrvisaSetResourceAlias in Hr. destruct (_ || _); [by injection Hr as <-|].
    destruct (get_manager rmSesn w) as [[id rm]|] eqn:Hg; [|by injection Hr as <-].
    destruct (parse_resource _) as [d|]; [|by injection Hr as <-].
    destruct (set_resource_alias _ _ _) as [set rm'] eqn:Hset.
    eapply set_manager_ok; [done|done| | |exact Hr];
      unfold set_resource_alias in Hset; repeat case_match; by simplify_eq.
  - unfold wrvisaSetUsbRawConfig in Hr.
    destruct (missing resourceName), config as [config|]; try by injection Hr as <-.
    destruct (check_usb_raw_config config) as [|configuration]; [by injection Hr as <-|].
    destruct (get_manager rmSesn w) as [[id rm]|] eqn:Hg; [|by injection Hr as <-].
    destruct (resolve_resource _ rm) as [d|]; [|by injection Hr as <-].
    case_decide; [|by injection Hr as <-].
    destruct (set_usb_raw_configuration _ _ _) as [set rm'] eqn:Hset.
    eapply set_manager_ok; [done|done| | |exact Hr];
      unfold set_usb_raw_configuration in Hset; repeat case_match; by simplify_eq.
  - unfold wrvisaSetPrologixController in Hr.
    destruct (missing endpoint), config as [config|]; try by injection Hr as <-.
    destruct (check_prologix_config _ config) as [|configuration]; [by injection Hr as <-|].
    destruct (get_manager rmSesn w) as [[id rm]|] eqn:Hg; [|by injection Hr as <-].
    destruct (make_prologix_provider outside _ _ _) as [[provider|] st]; [|by injection Hr as <-].
    destruct (set_gpib_provider _ _ _) as [set rm'] eqn:Hset.
    eapply set_manager_ok; [done|done| | |exact Hr];
      unfold set_gpib_provider in Hset; repeat case_match; by simplify_eq.
Qed.

Lemma io_same c locks s x :
  session_io now interfere c locks s = Some x -> same_session s (sr_session x).
Proof. apply session_io_same. Qed.

(** C11: no call of the API breaks the well-formedness of the world, whatever its
    arguments: live handles stand for objects of their type, sessions and find
    lists are listed by a live manager, no two handles share an object, and every
    lock is owned by a live session on its own resource. *)
Theorem api_preserves_world_ok c w status w' :
  world_ok w -> call_ok w c -> api_step outside now interfere c w = Some (status, w') -> world_ok w'.
Proof.
  intros Hok [Hrange Hc] Hstep.
  assert (forall x, Some (status, w) = Some x -> world_ok x.2) as Hsame by (by intros x [= <-]).
  destruct c; try (by eapply (extension_ok _ w); [done| |exact Hstep]); cbn [api_step] in Hstep;
    apply outcome_Some in Hstep as (r & Hr & <-);
    try (pose proof (Hrange _ _ eq_refl) as Hh).
  - by eapply open_default_ok.
  - by eapply find_rsrc_ok.
  - by eapply find_next_ok.
  - unfold viParseRsrc in Hr. repeat case_match; by injection Hr as <-.
  - unfold viParseRsrcEx in Hr. repeat case_match; by injection Hr as <-.
  - destruct Hc as [Helse Hq].
    by apply (viOpen_cases outside now interfere interfere_fails _ _ _ _ _ _ _ _ _ Hok Hh Helse Hq Hr).
  - unfold viClose in Hr. destruct (HandleTable.remove vi (w_handles w)) as [object slots] eqn:Hrm.
    destruct (remove_live _ _ _ _ (ok_table _ _ _ Hok) Hh Hrm) as (Hobj & _ & _).
    destruct object as [ref|].
    + apply bind_Some in Hr as (w' & Hcl & Hr). injection Hr as <-. by eapply close_handle_ok.
    + injection Hr as <-. rewrite remove_dead in Hrm by done. injection Hrm as <-. by destruct w.
  - unfold viSetAttribute in Hr. destruct (get_session vi w) as [[id s]|] eqn:Hg; [|by injection Hr as <-].
    destruct (session_set_attribute _ _ s) as [st s'] eqn:Hset. injection Hr as <-.
    eapply update_session_only; [done|done|]. change s' with (st, s').2. rewrite <- Hset.
    apply set_attribute_shape.
  - unfold viGetAttribute in Hr. repeat case_match; by injection Hr as <-.
  - unfold viStatusDesc in Hr. repeat case_match; by injection Hr as <-.
  - unfold viTerminate in Hr. destruct (negb _); [by injection Hr as <-|].
    destruct (negb _); [by injection Hr as <-|].
    destruct (get_session vi w) as [[id s]|] eqn:Hg; [|by injection Hr as <-].
    injection Hr as <-. by eapply update_session_only.
  - unfold viLock in Hr. destruct (get_session vi w) as [[id s]|] eqn:Hg; [|by injection Hr as <-].
    apply bind_Some in Hr as (lr & Hl & Hr). injection Hr as <-. cbn [ar_world].
    destruct (session_holder _ _ _ _ Hok Hh Hg) as [_ Hholder].
    eapply update_session; [done|done|by eapply same_session_shape, session_lock_same|].
    eapply session_lock_inv; [exact Hl|apply Hok|exact Hc|exact Hholder].
  - unfold viUnlock in Hr. destruct (get_session vi w) as [[id s]|] eqn:Hg; [|by injection Hr as <-].
    apply bind_Some in Hr as (lr & Hl & Hr). injection Hr as <-. cbn [ar_world].
    destruct (session_unlock_inv now interfere _ _ _ _ Hl (ok_locks _ _ _ Hok)) as [Hinv Hs].
    by eapply update_session; [done|done|apply same_session_shape|].
  - unfold viRead in Hr. destruct (_ || _); [by injection Hr as <-|].
    eapply session_call_ok; [done| |exact Hr]. intros locks s x. apply (io_same (IoRead _)).
  - unfold viWrite in Hr. destruct buf as [buffer|]; [|by injection Hr as <-].
    destruct (_ || _); [by injection Hr as <-|].
    eapply session_call_ok; [done| |exact Hr]. intros locks s x. apply (io_same (IoWrite _)).
  - eapply session_call_ok; [done| |exact Hr]. intros locks s x. apply (io_same (IoAssertTrigger _)).
  - eapply session_call_ok; [done| |exact Hr]. intros locks s x. apply (io_same (IoReadStb _)).
  - eapply session_call_ok; [done| |exact Hr]. intros locks s x. apply (io_same IoClear).
  - eapply session_call_ok; [done| |exact Hr]. intros locks s x. apply (io_same (IoFlush _)).
  - unfold viSetBuf in Hr. destruct (get_session vi w) as [[id s]|] eqn:Hg; [|by injection Hr as <-].
    destruct (session_set_buffer _ _ s) as [st s'] eqn:Hset. injection Hr as <-.
    eapply update_session_only; [done|done|]. change s' with (st, s').2. rewrite <- Hset.
    apply set_buffer_shape.
  - unfold wrvisaUsbControlTransfer in Hr. destruct request as [request|]; [|by injection Hr as <-].
    do 4 (case_match; [by injection Hr as <-|]).
    destruct (get_session vi w) as [[id s]|] eqn:Hg; [|by injection Hr as <-].
    eapply session_call_ok; [done| |exact Hr]. intros locks s' x.
    apply (io_same (IoUsbControl _ _ _ _ _ _)).
Qed.

End contracts.

(** ** Witnesses: a manager on a platform with one serial port *)

Section witnesses.

Definition mock_outside : Outside MockBackendSession unit unit unit unit :=
  mkOutside _ _ _ _ _ {[ 3 := lit "/dev/ttyS3" ]} [] [] (mkMock [])
    (fun _ _ _ _ => (None, VI_ERROR_RSRC_NFOUND)) (fun _ _ _ _ _ => (None, VI_ERROR_RSRC_NFOUND))
    (fun _ _ _ _ _ => (None, VI_ERROR_RSRC_NFOUND)) (fun _ _ => (None, VI_ERROR_RSRC_NFOUND))
    (fun _ _ _ _ => (None, VI_SUCCESS)) (fun _ _ _ => (None, VI_ERROR_RSRC_NFOUND)) (fun _ => mkMock [])
    (fun _ _ _ => (None, VI_ERROR_RSRC_NFOUND)) (fun _ => mkMock [])
    (fun _ _ _ _ => (None, VI_ERROR_RSRC_NFOUND)) (fun _ _ => mkMock [])
    (fun _ _ _ => (None, VI_ERROR_RSRC_BUSY)).

Definition manager_world : World MockBackendSession unit unit :=
  match viOpenDefaultRM mock_outside true new_world with
  | Some r => ar_world r
  | None => new_world
  end.

Definition rm_handle : Z := 0x10010001.

Definition open_mock : option (api_result (option Z) MockBackendSession unit unit) :=
  viOpen mock_outside 0 undisturbed id [] rm_handle (Some WRVISA_MOCK_RESOURCE) VI_EXCLUSIVE_LOCK 100
    true manager_world.

Definition session_world : World MockBackendSession unit unit :=
  match open_mock with Some r => ar_world r | None => new_world end.

Lemma manager_world_ok : world_ok manager_world.
Proof.
  unfold manager_world. destruct (viOpenDefaultRM mock_outside true new_world) as [r|] eqn:Hr; [|apply world_ok_new].
  by eapply open_default_ok; [apply world_ok_new|].
Qed.

Lemma mock_outside_reports : factories_report mock_outside.
Proof. by split. Qed.

Lemma session_world_ok : world_ok session_world.
Proof.
  unfold session_world. destruct open_mock as [r|] eqn:Hr; [|apply world_ok_new].
  eapply (viOpen_cases mock_outside 0 undisturbed (fun _ _ Hf => Hf) id []); [apply manager_world_ok| | | |exact Hr].
  - unfold handle_range, rm_handle. lia.
  - apply elsewhere_ok_refl, manager_world_ok.
  - constructor.
Qed.

End witnesses.

Lemma viOpen_contract_witness :
  exists r, open_mock = Some r /\ ar_status r = VI_SUCCESS /\ ar_out r = Some 0x30010002 /\
    world_ok (ar_world r).
Proof.
  destruct open_mock as [r|] eqn:Hr; [|vm_compute in Hr; discriminate].
  exists r. split; [reflexivity|].
  assert (ar_status r = VI_SUCCESS /\ ar_out r = Some 0x30010002) as [Hst Hout]
    by (vm_compute in Hr; injection Hr as <-; split; reflexivity).
  split; [exact Hst|]. split; [exact Hout|].
  refine (proj1 (viOpen_contract mock_outside 0 undisturbed (fun _ _ Hf => Hf) id [] rm_handle
    (Some WRVISA_MOCK_RESOURCE) VI_EXCLUSIVE_LOCK 100 true manager_world r mock_outside_reports
    manager_world_ok _ (elsewhere_ok_refl _ manager_world_ok) (List.Forall_nil _) Hr)).
  unfold handle_range, rm_handle. lia.
Defined.

Lemma viClose_contract_witness :
  owned_lock_type 0x30010002 WRVISA_MOCK_RESOURCE (w_locks session_world) = VI_EXCLUSIVE_LOCK /\
  exists x, viClose rm_handle session_world = Some x /\
    get_any 0x30010002 (w_handles (ar_world x)) = None /\
    owned_lock_type 0x30010002 WRVISA_MOCK_RESOURCE (w_locks (ar_world x)) = VI_NO_LOCK.
Proof.
  split; [vm_compute; reflexivity|].
  assert (handle_range rm_handle) as Hh by (unfold handle_range, rm_handle; lia).
  assert (handle_range 0x30010002) as Hs by (unfold handle_range; lia).
  destruct (viClose_contract (B := MockBackendSession) rm_handle session_world session_world_ok Hh) as [_ Hlive].
  assert (0x30010002 ∈ closing_set session_world rm_handle) as Hin.
  { assert (bool_decide (0x30010002 ∈ closing_set session_world rm_handle) = true) as Hb
      by (vm_compute; reflexivity). by apply bool_decide_eq_true in Hb. }
  destruct (get_any rm_handle (w_handles session_world)) as [ref|] eqn:Hl; [|vm_compute in Hl; discriminate].
  destruct (Hlive ref eq_refl) as [Hspec _].
  destruct (viClose rm_handle session_world) as [x|] eqn:Hx; [|vm_compute in Hx; discriminate].
  exists x. split; [reflexivity|]. destruct (Hspec x eq_refl) as (_ & _ & Hcc). split.
  - rewrite (ch_live _ _ _ Hcc) by exact Hs. by rewrite decide_True.
  - rewrite (ch_locks _ _ _ Hcc). by rewrite decide_True.
Defined.

Lemma invalid_handle_refused_witness :
  refused session_world (api_step mock_outside 0 undisturbed (CallRead rm_handle true 5 true) session_world).
Proof.
  apply (invalid_handle_refused mock_outside 0 undisturbed _ rm_handle [session]);
    [apply session_world_ok|reflexivity|].
  intros r Hr. vm_compute in Hr. injection Hr as <-. intros Hin. apply list_elem_of_singleton in Hin. discriminate.
Defined.

Lemma viFindRsrc_contract_witness :
  exists r, viFindRsrc rm_handle (Some (lit "ASRL?*")) true true true manager_world = Some r /\
    ar_status r = VI_SUCCESS /\ fo_desc (ar_out r) = Some (lit "ASRL3::INSTR").
Proof.
  destruct (get_manager rm_handle manager_world) as [[manager rm]|] eqn:Hg; [|vm_compute in Hg; discriminate].
  destruct (compile (lit "ASRL?*")) as [[[x|] error]|] eqn:Hc;
    [|vm_compute in Hc; discriminate|vm_compute in Hc; discriminate].
  destruct (viFindRsrc_contract (H := unit) rm_handle (lit "ASRL?*") true true manager_world manager rm x error
    manager_world_ok ltac:(unfold handle_range, rm_handle; lia) Hg Hc) as (r & discovered & mock & Hr & _).
  exists r. split; [exact Hr|]. vm_compute in Hr. injection Hr as <-. split; reflexivity.
Defined.

Lemma api_preserves_world_ok_witness :
  exists status w', api_step mock_outside 0 undisturbed (CallClose 0x30010002) session_world = Some (status, w') /\
    world_ok w'.
Proof.
  destruct (api_step mock_outside 0 undisturbed (CallClose 0x30010002) session_world) as [[status w']|] eqn:Hs;
    [|vm_compute in Hs; discriminate].
  exists status, w'. split; [reflexivity|].
  refine (api_preserves_world_ok mock_outside 0 undisturbed (fun _ _ Hf => Hf) _ session_world status w'
    session_world_ok _ Hs).
  split; [|exact I]. intros h types [= <- _]. unfold handle_range. lia.
Defined.
